(* ===== verification/_CoqProject ===== *)
-Q . S2P
Prelude.v
Words.v
PhysMem.v
FrameAlloc.v
FrameAllocProofs.v
FrameAllocThms.v
FreeList.v
FreeListProofs.v
FreeListThms.v
Bytes.v
Ipc.v
Memory.v
HalPaging.v
PageTables.v
PageWalk.v
PageTree.v
PageMap.v
PageMapThms.v
FramesZeroed.v
Spaces.v
PageThms.v
Elf.v
ElfThms.v
FatFormat.v
FatVolume.v
FatFormatThms.v
FatDisk.v
FatRead.v
FatReadThms.v
FatDir.v
FatFrame.v
FatWrite.v
FatPlace.v
FatFile.v
FatWriteThms.v
FatBack.v
Stacks.v
Process.v
Load.v
LoadProofs.v
LoadProgram.v
LoadThms.v
Descriptors.v
Events.v
EventsThms.v
VolumeSafe.v
Scheduler.v
Switching.v
SchedProofs.v
Fs.v
FsThms.v
Console.v
Keyboard.v
KeyboardThms.v
Calls.v
Acts.v
SysProofs.v
Booted.v
SysThms.v
MessageThms.v
Pci.v
PciThms.v
Virtio.v
VirtioBlk.v
VirtioHandshake.v
VirtioStart.v
VirtioQueue.v
VirtioDisk.v
VirtioThms.v
VirtioSimple.v
VirtioFiles.v
Fbcon.v
FbconThms.v
Format.v
FormatRun.v
FormatThms.v
Gpt.v
Pe.v
HigherHalf.v
Shell.v
