(* ===== verification/Prelude.v ===== *)
(** * HARLAN OS: verification development (root file)

    HARLAN OS is a small operating system for x86_64 written in Rust: a UEFI
    boot loader hands a machine over to a kernel that owns its page tables
    and frames, mounts a FAT32 volume through a virtio disk, loads ELF
    programs into address spaces of their own and schedules them, and serves
    their system calls.  This development models the kernel's logic from the
    source under [src/] and proves what makes each part, and the parts
    together, correct.

    ** The parts, and the files that model them

    A Rust function is a Rocq function of the same name, wherever Rocq allows
    it; where two parts use one name, it is inside a [Module] ([Boot],
    [Tables], [Files], [Fs], ...).  A [Result] is [Ok] or [Err] of [res], a
    panic is [Panic]; an operation on something with a state is a [dev]: it
    takes the state and answers an outcome and the state afterwards, also when
    it fails half way.  All of that, and the integer operations of Rust at
    their width, is in this file; [Words] and [Bytes] are the shared
    lemmas on bits, slices and loops.

    - Frames: [PhysMem] ([hal/src/addr.rs], [frame.rs], [memory_map.rs]),
      [FrameAlloc] ([kernel/src/memory/frame_allocator.rs]); theorems in
      [FrameAllocProofs], [FrameAllocThms].
    - Heap: [FreeList] ([kernel/src/memory/heap/free_list.rs]), whose headers
      live in the heap's own memory; [FreeListProofs], [FreeListThms].
    - Page tables: [Memory] (physical memory and cached translations),
      [HalPaging] ([hal/src/paging.rs], [kernel/src/memory/zeroed_frames.rs]),
      [PageTables] ([arch/x86_64/src/paging.rs]); [PageWalk], [PageTree],
      [PageMap], [PageMapThms], [FramesZeroed], [Spaces], [PageThms].
    - Moving the kernel to its own half: [Pe] ([hal/src/pe.rs]) and
      [HigherHalf] ([kernel/src/memory/higher_half.rs]), each with its
      theorems.
    - Programs and processes: [Elf] ([hal/src/elf.rs]), [Stacks]
      ([kernel/src/memory/stacks.rs]), [Process] and [Load]
      ([kernel/src/process.rs]); [ElfThms], [LoadProofs], [LoadProgram],
      [LoadThms], [Descriptors].
    - Files: [FatFormat] and [FatVolume] ([hal/src/fat.rs]), [Fs]
      ([kernel/src/fs.rs]); [FatFormatThms], [FatDisk], [FatRead],
      [FatReadThms], [FatDir], [FatFrame], [FatWrite], [FatPlace],
      [FatFile], [FatWriteThms], [FatBack], [VolumeSafe], [FsThms].
    - The disk: [Pci] ([hal/src/pci.rs]), [Virtio] ([hal/src/virtio.rs]),
      [VirtioBlk] ([kernel/src/devices/virtio_blk.rs]); [PciThms],
      [VirtioHandshake], [VirtioStart], [VirtioQueue], [VirtioDisk],
      [VirtioThms], [VirtioSimple], [VirtioFiles].
    - The disk images the build makes: [Format] ([tools/xtask/src/fat32.rs])
      and [Gpt] ([tools/xtask/src/gpt.rs]); [FormatRun] (what the
      formatter writes where), [FormatThms] (what the kernel's [parse],
      [find] and [read_file] make of it); [Gpt] has its theorems (the CRC,
      and what a reader of the UEFI specification makes of the table).
    - What a person sees and types: [Console] ([kernel/src/console.rs]),
      [Fbcon] ([drivers/fbcon/src/lib.rs]), [Keyboard]
      ([arch/x86_64/src/keyboard.rs]); [FbconThms], [KeyboardThms].
    - The running system: [Ipc] ([kernel/src/ipc.rs]), [Events]
      ([kernel/src/events.rs]), [Scheduler] and [Switching]
      ([kernel/src/scheduler.rs]), [Calls] ([kernel/src/user.rs] and the
      dispatch of [arch/x86_64/src/syscall.rs] and [interrupts.rs]);
      [EventsThms], [SchedProofs], [Acts], [SysProofs], [Booted], [SysThms],
      [MessageThms].
    - In ring 3: [Shell] ([user/shell/src/main.rs] and [lib.rs], and how
      [user/abi/src/lib.rs] takes a directory record apart), with its
      theorems.

    ** How they interact

    Where one component relies on another through a Rust trait, the trait is
    a class and what the client relies on is a class of laws, proved against
    once and discharged by each implementation: [FrameAllocatorLaws] (page
    tables over frames, discharged by [FramesZeroed]), [PageMapper] (stacks,
    loading and drivers over page tables), [Sectors] with the laws of [Disk]
    (volumes over a device that may fail at any request, discharged by
    [Image], [Dying] and by the virtio driver in [VirtioSimple]), [Console],
    [Surface], [Device] with the laws of [VirtioDisk] (the driver over a
    device that shares its memory), [ConfigSpace], and [Ring3] with
    [Ring3Laws] (the shell over the calls of any kernel; [script] is one that
    answers what it is told to and writes down what it was asked).

    ** What the theorems show

    Of the system: programs that ask for messages only into memory they may
    write cannot stop the kernel ([kernel_survives]; [recv_read_only] is how
    another one does), reach another process's memory ([process_isolated]) or
    keep the CPU ([every_turn_comes]); a message arrives whole or not at all
    ([send_exact], [receive_exact]).  Of frames and the heap: nothing is
    handed out twice, nothing is lost, and what is refused is refused for its
    reason.  Of page tables: an operation changes the one translation it is
    about, in the spaces it is about.  Of loading: the new space shows
    exactly the program with exactly its rights.  Of the kernel's own image:
    its alias shows it with the rights of its sections and every address in
    it has moved once, provided no address the table names is in the table
    itself ([relocation_of_the_table]).  Of files: reads are the volume's
    content, and a write is whole or has not happened whenever the disk
    fails; both also through the driver, the queue and a device that answers
    in time ([late_answer_wrong_sector] is why).  Of the disk: the order of
    the handshake's steps, requests over any device that keeps virtio's
    specification in its own time, and totality over one that keeps nothing.
    Of the tools: a volume without subdirectories that the formatter makes is
    one the kernel reads back file by file, and a reader of partition tables
    finds each partition's bytes.  Of the console and the keyboard: the
    pixels are a terminal's, keys are queued in order, what can be printed
    can be typed.  Of the shell: what it asks of the kernel for every line
    that can be typed, and that no answer makes it panic.  Each theorem's
    comment names what it assumes; where the code fails without it, a theorem
    or an example next to it says how.

    ** Fuel and bounds

    A loop that Rust runs without a counter of its own has fuel here and
    answers [Diverge] without it; each theorem that speaks of answers rules
    [Diverge] out, so the fuel is enough: the number of clusters for a chain
    (every loop over one counts them in the code too), the pages of a length
    below 2^32 for [map_registers], thirty-three halvings for
    [sectors_per_fat_for], the blocks a heap can hold for a walk of its list,
    one round behind a switch for a system call.  Loops the code bounds
    itself ([for], polls, retries) have its bound; the walks of a relocation
    table have the image's length, since every round reads some of it.  The
    shell runs for ever, as its source does: its theorems are about any
    number of turns.

    ** Builds

    The kernel is built in two ways: [cargo xtask] builds, boots and ships
    the dev profile, where an overflow nobody checks for is a panic and
    [debug_assert!] is an assertion, and the continuous build checks that the
    release profile compiles, where such an overflow wraps.  Here a
    [debug_assert!] is an assertion, and arithmetic of the kernel that the
    source leaves unchecked wraps ([wrap]).  So a theorem is about the release
    profile; it is about the dev profile as well where nothing it is about
    overflows, which the bounds in the theorems give for addresses, lengths
    and sector numbers, and the length of a run for counters.  Two sums that
    outside numbers can make overflow take the profile as an argument
    ([total_pages] and the shell's [list_loop], by [add_in]).  The tools are
    only run in the dev profile: there ([Format], [Gpt]) an overflow panics.

    ** What is not modelled

    - Instructions: the entry stubs, [syscall] and [iretq], loading tables
      and control registers, port input and output, and the wrappers programs
      make a system call through ([user/abi/src/lib.rs], and [user/hello],
      which tries them); the boot loader's calls to the firmware and the jump
      into the moved image
      ([boot/], [arch/x86_64/src/{gdt,idt,msr,switch,port}.rs]).
    - The memory model: an access takes effect where the program has it.  The
      release and acquire pairs of the scancode ring and the fences of the
      queue are what makes that true on one x86_64 processor.
    - The boot sequence and its printed self-tests ([kernel/src/lib.rs],
      [kernel/src/shell.rs]), the build's own tasks
      ([tools/xtask/src/main.rs]), and logging: no text that is only printed.
    - Code of other crates: the font is a parameter ([BASIC_LEGACY]), as are
      a device's answers and a machine's configuration space. *)

From stdpp Require Export prelude list gmap fin_maps fin_sets functions.
From stdpp Require Export list_numbers.
From Stdlib Require Export ZArith Lia.
#[export] Set Default Goal Selector "!".

(** ** Outcomes of Rust code

    A Rust function that answers [Result<A, E>] ends in one of four ways:
    [Ok], [Err], a panic (a failed [assert!], an index out of range, an
    [expect] on [None]) or not at all.  [Diverge] is what a fuelled loop
    answers when its fuel runs out: termination theorems show that it is
    never the answer. *)
Inductive res (E A : Type) : Type :=
| Ok (a : A)
| Err (e : E)
| Panic
| Diverge.
Arguments Ok {E A} a.
Arguments Err {E A} e.
Arguments Panic {E A}.
Arguments Diverge {E A}.

(** A function that answers no [Result] but may still panic. *)
Abbreviation may := (res Empty_set).

#[export] Instance res_ret E : MRet (res E) := λ A a, Ok a.
#[export] Instance res_bind E : MBind (res E) := λ A B f m,
  match m with
  | Ok a => f a
  | Err e => Err e
  | Panic => Panic
  | Diverge => Diverge
  end.
#[export] Instance res_fmap E : FMap (res E) := λ A B f m,
  match m with
  | Ok a => Ok (f a)
  | Err e => Err e
  | Panic => Panic
  | Diverge => Diverge
  end.
#[export] Instance res_eq_dec `{EqDecision E, EqDecision A} : EqDecision (res E A).
Proof. solve_decision. Defined.

(** [map_err] of the Rust library. *)
Definition map_err {E E' A} (f : E → E') (m : res E A) : res E' A :=
  match m with
  | Ok a => Ok a
  | Err e => Err (f e)
  | Panic => Panic
  | Diverge => Diverge
  end.

(** [Option::ok_or]. *)
Definition ok_or {E A} (e : E) (o : option A) : res E A :=
  match o with Some a => Ok a | None => Err e end.

(** [Option::expect] and indexing: [None] is a panic. *)
Definition expect {E A} (o : option A) : res E A :=
  match o with Some a => Ok a | None => Panic end.

Definition assert_ {E} (b : bool) : res E () := if b then Ok () else Panic.

(** A [for] loop over a list of values, in any of these outcomes. *)
Fixpoint foldM {E A S} (f : S → A → res E S) (s : S) (l : list A) : res E S :=
  match l with
  | [] => Ok s
  | a :: l => s' ← f s a; foldM f s' l
  end.

(** ** Operations with a state

    An operation takes the state of what it works on (a device, the
    machine's memory) and answers an outcome and the state afterwards, also
    when it fails half way. *)
Definition dev (S E A : Type) : Type := S → res E A * S.

#[export] Instance dev_ret S E : MRet (dev S E) := λ A a s, (Ok a, s).
#[export] Instance dev_bind S E : MBind (dev S E) := λ A B f m s,
  match m s with
  | (Ok a, s) => f a s
  | (Err e, s) => (Err e, s)
  | (Panic, s) => (Panic, s)
  | (Diverge, s) => (Diverge, s)
  end.

Definition lift {S E A} (r : res E A) : dev S E A := λ s, (r, s).
Definition dev_map_err {S E E' A} (f : E → E') (m : dev S E A) : dev S E' A :=
  λ s, let '(r, s) := m s in (map_err f r, s).

(** [for x in l { ... }] and the same with [return r] inside, as [inr r]. *)
Fixpoint for_in {S E A B} (l : list A) (f : B → A → dev S E B) (b : B) : dev S E B :=
  match l with
  | [] => mret b
  | a :: l => b ← f b a; for_in l f b
  end.

Fixpoint for_until {S E A B R} (l : list A) (f : B → A → dev S E (B + R)) (b : B)
    : dev S E (B + R) :=
  match l with
  | [] => mret (inl b)
  | a :: l => x ← f b a; match x with inl b => for_until l f b | inr r => mret (inr r) end
  end.


(** An operation that answers no [Result], inside one that does. *)
Definition infallible {S E A} (m : dev S Empty_set A) : dev S E A := dev_map_err (λ e : Empty_set, match e return E with end) m.
Definition get {S E} : dev S E S := λ s, (Ok s, s).
Definition modify {S E} (f : S → S) : dev S E () := λ s, (Ok (), f s).

Lemma dev_bind_Ok {S X A B} (m : dev S X A) (f : A → dev S X B) s s' a :
  m s = (Ok a, s') → (m ≫= f) s = f a s'.
Proof. intros Hm. unfold mbind, dev_bind. by rewrite Hm. Qed.
Lemma dev_bind_Err {S X A B} (m : dev S X A) (f : A → dev S X B) s s' e :
  m s = (Err e, s') → (m ≫= f) s = (Err e, s').
Proof. intros Hm. unfold mbind, dev_bind. by rewrite Hm. Qed.
Lemma dev_bind_assoc {S X A B C} (m : dev S X A) (f : dev S X B) (g : dev S X C) s :
  (_ ← m; _ ← f; g) s = (_ ← (_ ← m; f); g) s.
Proof. unfold mbind, dev_bind. by destruct (m s) as [[a|e| |] s']. Qed.
(** One step of an operation, whatever its outcome. *)
Lemma dev_bind_run {S X A B} (m : dev S X A) (f : A → dev S X B) s :
  (m ≫= f) s = match m s with
               | (Ok a, s) => f a s
               | (Err e, s) => (Err e, s)
               | (Panic, s) => (Panic, s)
               | (Diverge, s) => (Diverge, s)
               end.
Proof. done. Qed.
Lemma infallible_run {S X A} (m : dev S Empty_set A) s a s' :
  m s = (Ok a, s') → infallible (E:=X) m s = (Ok a, s').
Proof. intros Hm. unfold infallible, dev_map_err. by rewrite Hm. Qed.

Section outcomes.
  Context {E : Type}.

Lemma bind_Ok {A B} (f : A → res E B) m b :
    (m ≫= f) = Ok b ↔ ∃ a, m = Ok a ∧ f a = Ok b.
  Proof. destruct m; naive_solver. Qed.

Lemma bind_Err {A B} (f : A → res E B) m e :
    (m ≫= f) = Err e ↔ m = Err e ∨ ∃ a, m = Ok a ∧ f a = Err e.
  Proof. destruct m; naive_solver. Qed.

Lemma foldM_app {A S} (f : S → A → res E S) s l l' :
    foldM f s (l ++ l') = foldM f s l ≫= λ s', foldM f s' l'.
  Proof. revert s; induction l as [|a l IH]; intros s; simpl; [done|].
    destruct (f s a); simpl; [apply IH | done..]. Qed.

  (** Two nested loops are one loop over the concatenation. *)
Lemma foldM_concat {A B S} (f : S → A → res E S) (g : B → list A) s l :
    foldM (λ s b, foldM f s (g b)) s l = foldM f s (concat (g <$> l)).
  Proof.
    revert s; induction l as [|b l IH]; intros s; simpl; [done|].
    rewrite foldM_app. destruct (foldM f s (g b)); simpl; [apply IH|done..].
  Qed.

  (** A loop whose every iteration succeeds is a plain fold. *)
Lemma foldM_foldl {A S} (P : S → Prop) (f : S → A → res E S) (g : S → A → S) l s :
    (∀ s a, a ∈ l → P s → f s a = Ok (g s a) ∧ P (g s a)) → P s →
    foldM f s l = Ok (foldl g s l) ∧ P (foldl g s l).
  Proof.
    revert s; induction l as [|a l IH]; intros s Hf Hs; simpl; [done|].
    destruct (Hf s a) as [-> Hs']; [set_solver|done|]. simpl.
    apply IH; [|done]. intros; apply Hf; [set_solver|done].
  Qed.

  (** The loop rule: an invariant indexed by what has been visited. *)
Lemma foldM_ind {A S} (P : list A → S → Prop) (f : S → A → res E S) l s :
    P [] s →
    (∀ pre a post s, l = pre ++ a :: post → P pre s →
       ∃ s', f s a = Ok s' ∧ P (pre ++ [a]) s') →
    ∃ s', foldM f s l = Ok s' ∧ P l s'.
  Proof.
    intros H0 Hstep.
    assert (∀ post pre s, l = pre ++ post → P pre s →
      ∃ s', foldM f s post = Ok s' ∧ P l s') as Hgen; [|by apply (Hgen l [])].
    induction post as [|a post IH]; intros pre s' -> HP; simpl.
    { rewrite app_nil_r. eauto. }
    destruct (Hstep pre a post s') as (s1 & -> & HP1); [done|done|]. simpl.
    apply (IH (pre ++ [a])); [by rewrite <-app_assoc|done].
  Qed.
End outcomes.

(** ** Machine integers

    A [w]-bit unsigned integer is a [Z] between [0] and [2^w - 1]; every
    operation below says what the Rust method of that name does at width
    [w]. *)
Declare Scope rust_scope.
Delimit Scope rust_scope with rust.

Definition umax (w : Z) : Z := 2 ^ w - 1.
Definition in_width (w z : Z) : Prop := (0 ≤ z < 2 ^ w)%Z.

#[export] Instance in_width_dec w z : Decision (in_width w z).
Proof. unfold in_width. apply _. Defined.

Section machine.
  Local Open Scope Z_scope.

Definition wrap (w z : Z) : Z := z mod 2 ^ w.
Definition checked_add (w a b : Z) : option Z :=
    if a + b <? 2 ^ w then Some (a + b) else None.
Definition checked_mul (w a b : Z) : option Z :=
    if a * b <? 2 ^ w then Some (a * b) else None.
(** [a + b] in a build that checks for overflow (the dev profile) and in one
    that does not (release). *)
Definition add_in {E} (overflow_checks : bool) (w a b : Z) : res E Z :=
  if overflow_checks && (2 ^ w <=? a + b) then Panic else Ok (wrap w (a + b)).
Definition saturating_add (w a b : Z) : Z := Z.min (a + b) (umax w).
Definition saturating_mul (w a b : Z) : Z := Z.min (a * b) (umax w).
Definition saturating_sub (a b : Z) : Z := Z.max 0 (a - b).
Definition div_ceil (a b : Z) : Z :=
    a / b + (if a mod b =? 0 then 0 else 1).
  (** [u64::is_multiple_of]; a multiple of zero is zero, as in Rust. *)
Definition is_multiple_of (a b : Z) : bool := a mod b =? 0.
Definition checked_next_multiple_of (w a b : Z) : option Z :=
    if b =? 0 then None
    else if a mod b =? 0 then Some a
    else checked_add w a (b - a mod b).
  (** [!word] at width [w]. *)
Definition not_w (w z : Z) : Z := umax w - z.

  (** The bits of a [w]-bit word, lowest first. *)
Definition bits (w z : Z) : list bool := Z.testbit z <$> seqZ 0 w.
Definition count_zeros (w z : Z) : Z :=
    Z.of_nat (length (filter (λ b, b = false) (bits w z))).
  (** The lowest set bit, or [w] when there is none. *)
Definition trailing_zeros (w z : Z) : Z :=
    match list_find (λ i, Z.testbit z i = true) (seqZ 0 w) with
    | Some (_, i) => i
    | None => w
    end.
End machine.

Infix "+?64" := (checked_add 64) (at level 50) : rust_scope.
Infix "+s64" := (saturating_add 64) (at level 50) : rust_scope.
Infix "-s" := saturating_sub (at level 50) : rust_scope.

(** Splits nested conjunctions only. *)
Ltac split_ands := repeat match goal with |- _ ∧ _ => split end.

Create HintDb rust.
