(* ===== verification/Words.v ===== *)
(** * Lemmas on machine words and ranges

    Bit-level facts about the operations of [Prelude] ([not_w], masks,
    [count_zeros], [trailing_zeros]) and about the integer ranges [seqZ]
    that model Rust's [first..end]. *)

From S2P Require Import Prelude.
Local Open Scope Z_scope.

Lemma in_seqZ i m n : i ∈ seqZ m n ↔ m ≤ i < m + n.
Proof. apply elem_of_seqZ. Qed.

(** ** Ceiling division *)
Lemma div_ceil_spec a b q : 0 < b → div_ceil a b ≤ q ↔ a ≤ q * b.
Proof.
  intros Hb. unfold div_ceil.
  pose proof (Z.div_mod a b ltac:(lia)). pose proof (Z.mod_pos_bound a b Hb).
  destruct (Z.eqb_spec (a mod b) 0); nia.
Qed.

Lemma div_ceil_nonneg a b : 0 < b → 0 ≤ a → 0 ≤ div_ceil a b.
Proof.
  intros Hb Ha. unfold div_ceil. pose proof (Z.div_pos a b Ha Hb).
  destruct (a mod b =? 0); lia.
Qed.

Lemma lt_div_ceil a b q : 0 < b → q < div_ceil a b ↔ q * b < a.
Proof. intros Hb. pose proof (div_ceil_spec a b q Hb). lia. Qed.

Lemma lt_div a b q : 0 < b → q < a / b ↔ (q + 1) * b ≤ a.
Proof.
  intros Hb. split; intros H.
  - pose proof (Z.mul_div_le a b Hb). nia.
  - apply Z.lt_le_trans with (q + 1); [lia|]. apply Z.div_le_lower_bound; lia.
Qed.

Lemma div_le a b q : 0 < b → a / b ≤ q ↔ a < (q + 1) * b.
Proof. intros Hb. pose proof (lt_div a b q Hb). lia. Qed.

(** ** Masks *)
Lemma testbit_shiftl_1 n i : 0 ≤ n → Z.testbit (Z.shiftl 1 n) i = bool_decide (i = n).
Proof.
  intros Hn. destruct (decide (i < 0)).
  { rewrite Z.testbit_neg_r by lia. symmetry. apply bool_decide_eq_false. lia. }
  rewrite Z.shiftl_spec by lia. destruct (decide (i = n)) as [->|Hne].
  { rewrite Z.sub_diag. by rewrite bool_decide_eq_true_2. }
  rewrite bool_decide_eq_false_2 by done.
  destruct (decide (i < n)); [apply Z.testbit_neg_r; lia|].
  destruct (i - n) eqn:E; [lia| |lia]. destruct p; done.
Qed.

(** Testing a bit with a mask, the way the code does. *)
Lemma land_mask_testbit w n :
  0 ≤ n → negb (Z.land w (Z.shiftl 1 n) =? 0) = Z.testbit w n.
Proof.
  intros Hn. destruct (Z.testbit w n) eqn:E.
  - destruct (Z.eqb_spec (Z.land w (Z.shiftl 1 n)) 0) as [H|]; [|done].
    apply (f_equal (λ z, Z.testbit z n)) in H.
    rewrite Z.land_spec, E, testbit_shiftl_1, bool_decide_eq_true_2, Z.bits_0 in H; done.
  - destruct (Z.eqb_spec (Z.land w (Z.shiftl 1 n)) 0) as [|H]; [done|].
    destruct H. apply Z.bits_inj'. intros i Hi.
    rewrite Z.land_spec, testbit_shiftl_1, Z.bits_0 by done.
    case_bool_decide; [subst; by rewrite E|by rewrite andb_false_r].
Qed.

Lemma testbit_not_w w z i :
  in_width w z → 0 ≤ i < w → Z.testbit (not_w w z) i = negb (Z.testbit z i).
Proof.
  intros [Hz1 Hz2] Hi. unfold not_w, umax.
  replace (2 ^ w - 1 - z) with (Z.lnot z + 1 * 2 ^ w) by (unfold Z.lnot; lia).
  rewrite <-(Z.mod_pow2_bits_low _ w i), Z_mod_plus_full, Z.mod_pow2_bits_low by lia.
  by rewrite Z.lnot_spec by lia.
Qed.

Lemma in_width_testbit w z :
  0 ≤ w → 0 ≤ z → (∀ i, w ≤ i → Z.testbit z i = false) → in_width w z.
Proof.
  intros Hw Hz Hb. split; [done|].
  enough (z mod 2 ^ w = z) by (pose proof (Z.mod_pos_bound z (2 ^ w)); lia).
  apply Z.bits_inj'. intros i Hi. destruct (decide (i < w)).
  - by rewrite Z.mod_pow2_bits_low.
  - rewrite Z.mod_pow2_bits_high by lia. symmetry. apply Hb. lia.
Qed.

Lemma testbit_high w z i : in_width w z → w ≤ i → Z.testbit z i = false.
Proof.
  intros [H1 H2] Hi. destruct (decide (w < 0)).
  { rewrite Z.pow_neg_r in H2 by done. lia. }
  rewrite <-(Z.mod_small z (2 ^ w)) by lia. apply Z.mod_pow2_bits_high. lia.
Qed.

Lemma not_w_in_width w z : in_width w z → in_width w (not_w w z).
Proof. unfold in_width, not_w, umax. lia. Qed.

Lemma land_in_width w a b : 0 ≤ w → in_width w a → 0 ≤ b → in_width w (Z.land a b).
Proof.
  intros Hw Ha Hb. apply in_width_testbit; [done| |].
  - apply Z.land_nonneg. left. apply Ha.
  - intros i Hi. by rewrite Z.land_spec, (testbit_high w a) by done.
Qed.

Lemma lor_in_width w a b : 0 ≤ w → in_width w a → in_width w b → in_width w (Z.lor a b).
Proof.
  intros Hw Ha Hb. apply in_width_testbit; [done| |].
  - apply Z.lor_nonneg. split; [apply Ha|apply Hb].
  - intros i Hi. by rewrite Z.lor_spec, (testbit_high w a), (testbit_high w b) by done.
Qed.

Lemma shiftl_1_in_width w n : 0 ≤ n < w → in_width w (Z.shiftl 1 n).
Proof.
  intros Hn. rewrite Z.shiftl_1_l. split; [lia|]. apply Z.pow_lt_mono_r; lia.
Qed.

Lemma umax_testbit w i : 0 ≤ i < w → Z.testbit (umax w) i = true.
Proof.
  intros Hi. unfold umax. replace (2 ^ w - 1) with (Z.ones w) by (rewrite Z.ones_equiv; lia).
  apply Z.ones_spec_low. lia.
Qed.

Lemma umax_in_width w : 0 ≤ w → in_width w (umax w).
Proof. intros. unfold in_width, umax. pose proof (Z.pow_pos_nonneg 2 w). lia. Qed.

(** A word that is not all ones has a clear bit. *)
Lemma not_umax_clear_bit w z :
  0 ≤ w → in_width w z → z ≠ umax w → ∃ i, 0 ≤ i < w ∧ Z.testbit z i = false.
Proof.
  intros Hw Hz Hne.
  destruct (decide (Exists (λ i, Z.testbit z i = false) (seqZ 0 w))) as [H|H].
  { apply Exists_exists in H as (i & Hi%in_seqZ & ?). exists i. split; [lia|done]. }
  destruct Hne. apply Z.bits_inj'. intros i Hi. destruct (decide (i < w)).
  - rewrite umax_testbit by lia. destruct (Z.testbit z i) eqn:E; [done|].
    destruct H. apply Exists_exists. exists i. split; [apply in_seqZ; lia|done].
  - rewrite (testbit_high w z), (testbit_high w (umax w)); [done|by apply umax_in_width|lia|done|lia].
Qed.

Lemma trailing_zeros_spec w z i :
  0 ≤ i < w → Z.testbit z i = true →
  0 ≤ trailing_zeros w z < w ∧ Z.testbit z (trailing_zeros w z) = true.
Proof.
  intros Hi Hz. unfold trailing_zeros.
  destruct (list_find (λ i, Z.testbit z i = true) (seqZ 0 w)) as [[k j]|] eqn:E.
  - apply list_find_Some in E as (Hk & Hj & _). split; [|done].
    apply list_elem_of_lookup_2, in_seqZ in Hk. lia.
  - apply list_find_None in E. rewrite Forall_forall in E.
    destruct (E i); [apply in_seqZ; lia|done].
Qed.

(** ** Lists addressed by [Z] ranges *)
Lemma seqZ_app m n n' : 0 ≤ n → 0 ≤ n' → seqZ m (n + n') = seqZ m n ++ seqZ (m + n) n'.
Proof. intros. by apply seqZ_app. Qed.

Lemma fmap_add_seqZ' m n k : (λ i, i + k) <$> seqZ m n = seqZ (m + k) n.
Proof.
  rewrite Z.add_comm, <-fmap_add_seqZ. apply list_fmap_ext. intros _ x _. lia.
Qed.

(** Counting through a map. *)
Lemma length_filter_fmap {A B} (P : A → Prop) (Q : B → Prop)
    `{!∀ x, Decision (P x), !∀ y, Decision (Q y)} (f : A → B) (l : list A) :
  (∀ a, a ∈ l → P a ↔ Q (f a)) →
  length (filter P l) = length (filter Q (f <$> l)).
Proof.
  induction l as [|a l IH]; intros HPQ; [done|]. rewrite fmap_cons, !filter_cons.
  assert (P a ↔ Q (f a)) by (apply HPQ; set_solver).
  destruct (decide (P a)), (decide (Q (f a))); simpl; rewrite ?IH; naive_solver set_solver.
Qed.

Lemma length_filter_ext {A} (P Q : A → Prop)
    `{!∀ x, Decision (P x), !∀ y, Decision (Q y)} (l : list A) :
  (∀ a, a ∈ l → P a ↔ Q a) → length (filter P l) = length (filter Q l).
Proof.
  intros HPQ. rewrite (length_filter_fmap P Q id l) by done. by rewrite list_fmap_id.
Qed.

Lemma elem_of_concat {A} (x : A) ls : x ∈ concat ls ↔ ∃ l, l ∈ ls ∧ x ∈ l.
Proof.
  rewrite list_elem_of_In, in_concat. by setoid_rewrite list_elem_of_In.
Qed.

(** * Loops of operations with a state

    The rule for [for_in] and what a loop of successful steps does. *)

(** The loop rule: an invariant indexed by what has been visited, for a loop
    none of whose steps stops it. *)
Lemma for_in_ind {S E A B} (P : list A → B → S → Prop) (l : list A) (f : B → A → dev S E B) b s :
  P [] b s →
  (∀ pre a post b s, l = pre ++ a :: post → P pre b s → ∃ b' s', f b a s = (Ok b', s') ∧ P (pre ++ [a]) b' s') →
  ∃ b' s', for_in l f b s = (Ok b', s') ∧ P l b' s'.
Proof.
  intros H0 Hstep.
  assert (∀ post pre b s, l = pre ++ post → P pre b s → ∃ b' s', for_in post f b s = (Ok b', s') ∧ P l b' s') as Hgen;
    [|by apply (Hgen l [])].
  induction post as [|a post IH]; intros pre b1 s1 -> HP.
  - rewrite app_nil_r. by exists b1, s1.
  - destruct (Hstep pre a post b1 s1 eq_refl HP) as (b2 & s2 & E1 & HP2). cbn [for_in]. rewrite (dev_bind_Ok _ _ _ _ _ E1).
    apply (IH (pre ++ [a])); [by rewrite <-app_assoc|done].
Qed.

(** The same, for a range of numbers counted up. *)
Lemma for_range_ind {S E B} (P : Z → B → S → Prop) (lo n : Z) (f : B → Z → dev S E B) b s : 0 ≤ n →
  P lo b s →
  (∀ i b s, lo ≤ i < lo + n → P i b s → ∃ b' s', f b i s = (Ok b', s') ∧ P (i + 1) b' s') →
  ∃ b' s', for_in (seqZ lo n) f b s = (Ok b', s') ∧ P (lo + n) b' s'.
Proof.
  intros Hn H0 Hstep.
  destruct (for_in_ind (λ pre b s, P (lo + Z.of_nat (length pre)) b s) (seqZ lo n) f b s) as (b' & s' & E1 & HP).
  - simpl. by rewrite Z.add_0_r.
  - intros pre a post b1 s1 El HP. assert (seqZ lo n !! length pre = Some a) as Ha by (by rewrite El, list_lookup_middle).
    apply lookup_seqZ in Ha as [-> Hlt]. destruct (Hstep (lo + Z.of_nat (length pre)) b1 s1 ltac:(lia) HP) as (b2 & s2 & E2 & HP2).
    exists b2, s2. split; [done|]. rewrite length_app, Nat2Z.inj_add, Z.add_assoc. done.
  - exists b', s'. split; [done|]. rewrite length_seqZ, Z2Nat.id in HP by done. done.
Qed.

Lemma for_in_ext {S E A B} (l : list A) (f g : B → A → dev S E B) b s :
  (∀ b a s, a ∈ l → f b a s = g b a s) → for_in l f b s = for_in l g b s.
Proof.
  revert b s. induction l as [|a l IH]; intros b s Hfg; [done|]. cbn [for_in]. rewrite !dev_bind_run, Hfg by set_solver.
  destruct (g b a s) as [[b'|e| |] s']; try done. apply IH. intros; apply Hfg. set_solver.
Qed.

(** [iter().enumerate()] counts along. *)
Lemma for_in_enumerate {S E A B} (l : list A) (d : A) (f : B → Z → A → dev S E B) lo b s :
  for_in (zip (seqZ lo (Z.of_nat (length l))) l) (λ b '(i, a), f b i a) b s =
  for_in (seqZ lo (Z.of_nat (length l))) (λ b i, f b i (nth (Z.to_nat (i - lo)) l d)) b s.
Proof.
  revert lo b s. induction l as [|a l IH]; intros lo b s; [done|].
  rewrite seqZ_cons by (simpl; lia). replace (Z.pred (Z.of_nat (length (a :: l)))) with (Z.of_nat (length l)) by (simpl; lia).
  cbn [zip zip_with for_in]. rewrite !dev_bind_run, Z.sub_diag. cbn [Z.to_nat nth].
  change (Z.to_nat 0) with 0%nat. cbn iota. destruct (f b lo a s) as [[b'|e| |] s']; try done. rewrite IH. apply for_in_ext. intros b1 i s1 Hi%elem_of_seqZ.
  replace (Z.to_nat (i - lo)) with (Datatypes.S (Z.to_nat (i - Z.succ lo))) by lia. done.
Qed.
