(* ===== verification/PhysMem.v ===== *)
(** * Addresses, frames and the firmware memory map

    Models [hal/src/addr.rs], [hal/src/frame.rs] and
    [hal/src/memory_map.rs].  [PhysAddr] and [VirtAddr] are both a [u64]
    that the Rust type system keeps apart; here both are a [Z], and the
    definitions of the [address_type!] macro are given once. *)

From S2P Require Import Prelude.
Local Open Scope Z_scope.
Local Open Scope rust_scope.

Module Addr.
  (** [align_down]: the remainder by zero panics. *)
Definition align_down (addr align : Z) : may Z :=
    if align =? 0 then Panic else Ok (addr - addr mod align).

Definition is_aligned_to (addr align : Z) : bool := is_multiple_of addr align.

Definition checked_add (addr offset : Z) : option Z := addr +?64 offset.

  (** [impl Add<u64>]: the checked addition, and a panic on overflow. *)
Definition add (addr offset : Z) : may Z := expect (addr +?64 offset).

Definition saturating_sub (addr earlier : Z) : Z := addr -s earlier.

Lemma align_down_spec addr align :
    0 < align →
    ∃ a, align_down addr align = Ok a ∧ is_aligned_to a align = true ∧
         a ≤ addr < a + align.
  Proof.
    intros Ha. unfold align_down, is_aligned_to, is_multiple_of.
    destruct (Z.eqb_spec align 0); [lia|]. eexists; split; [done|].
    pose proof (Z.mod_pos_bound addr align Ha). split; [|lia].
    rewrite Zminus_mod_idemp_r, Z.sub_diag, Z.mod_0_l by lia. done.
  Qed.
End Addr.

(** ** Physical frames *)
Definition FRAME_SIZE : Z := 4096.

Record PhysRange := { range_start : Z; range_len : Z }.

Module Range.
Definition end_ (r : PhysRange) : Z :=
    match Addr.checked_add (range_start r) (range_len r) with
    | Some e => e
    | None => umax 64
    end.
Definition contains (r : PhysRange) (addr : Z) : bool :=
    (range_start r <=? addr) && (addr <? end_ r).
Definition overlaps (r : PhysRange) (start end' : Z) : bool :=
    (start <? end_ r) && (range_start r <? end').

Definition valid (r : PhysRange) : Prop :=
    in_width 64 (range_start r) ∧ in_width 64 (range_len r).
End Range.

Record PhysFrame := { frame_start : Z }.

#[export] Instance PhysFrame_eq_dec : EqDecision PhysFrame.
Proof. solve_decision. Defined.

Module Frame.
Definition from_start_address (addr : Z) : option PhysFrame :=
    if Addr.is_aligned_to addr FRAME_SIZE then Some {| frame_start := addr |} else None.

  (** [addr.align_down(FRAME_SIZE)]: the divisor is the constant 4096, so
      [Addr.align_down] never panics here ([containing_address_align]). *)
Definition containing_address (addr : Z) : PhysFrame :=
    {| frame_start := addr - addr mod FRAME_SIZE |}.

Definition number (f : PhysFrame) : Z := frame_start f / FRAME_SIZE.

  (** What constructing a [PhysFrame] guarantees. *)
Definition valid (f : PhysFrame) : Prop :=
    in_width 64 (frame_start f) ∧ frame_start f mod FRAME_SIZE = 0.

Lemma containing_address_align addr :
    Addr.align_down addr FRAME_SIZE = Ok (frame_start (containing_address addr)).
  Proof. done. Qed.

Lemma number_containing n : number (containing_address (n * FRAME_SIZE)) = n.
  Proof.
    unfold number, containing_address, FRAME_SIZE; simpl.
    rewrite Z.mod_mul by lia. rewrite Z.sub_0_r, Z.div_mul; lia.
  Qed.

Lemma containing_number f :
    valid f → containing_address (number f * FRAME_SIZE) = f.
  Proof.
    destruct f as [s]; unfold valid, number, containing_address, FRAME_SIZE; simpl.
    intros [_ Hm]. f_equal. rewrite Z.mod_mul by lia.
    rewrite (Z.div_mod s 4096) at 2 by lia. lia.
  Qed.

Lemma containing_valid n :
    0 ≤ n < 2 ^ 52 → valid (containing_address (n * FRAME_SIZE)).
  Proof.
    intros Hn. unfold valid, containing_address, in_width, FRAME_SIZE; simpl.
    rewrite Z.mod_mul by lia. rewrite Z.sub_0_r, Z.mod_mul by lia. lia.
  Qed.

Lemma number_inj f g : valid f → valid g → number f = number g → f = g.
  Proof.
    intros Hf Hg E. rewrite <-(containing_number f), <-(containing_number g) by done.
    by rewrite E.
  Qed.
End Frame.

(** ** The memory map *)
Inductive MemoryRegionKind :=
| Usable | BootServices | RuntimeCode | RuntimeData | Reserved.

#[export] Instance MemoryRegionKind_eq_dec : EqDecision MemoryRegionKind.
Proof. solve_decision. Defined.

Inductive CachePolicy :=
| Unspecified | WriteBack | WriteThrough | WriteCombining | Uncacheable.

#[export] Instance CachePolicy_eq_dec : EqDecision CachePolicy.
Proof. solve_decision. Defined.

Record RegionAttributes := { runtime : bool; cache : CachePolicy }.

Record MemoryRegion := {
  start_phys_addr : Z;
  page_count : Z;
  kind : MemoryRegionKind;
  attributes : RegionAttributes
}.

Module Map.
Definition CAPACITY : nat := 256.

  (** [regions] is the whole array: its length never changes. *)
Record MemoryMap := {
    regions : list MemoryRegion;
    len : nat;
    truncated : bool
  }.

Definition attributes_none : RegionAttributes :=
    {| runtime := false; cache := Unspecified |}.

Definition EMPTY : MemoryRegion :=
    {| start_phys_addr := 0; page_count := 0; kind := Reserved;
       attributes := attributes_none |}.

Definition new : MemoryMap :=
    {| regions := replicate CAPACITY EMPTY; len := 0; truncated := false |}.

  (** [push] answers whether the region fitted; the array write cannot be
      out of range, since [len < CAPACITY] is the length of the array. *)
Definition push (m : MemoryMap) (region : MemoryRegion) : bool * MemoryMap :=
    if (CAPACITY <=? len m)%nat
    then (false, {| regions := regions m; len := len m; truncated := true |})
    else (true, {| regions := <[len m := region]> (regions m);
                   len := S (len m); truncated := truncated m |}).

Definition iter (m : MemoryMap) : list MemoryRegion := take (len m) (regions m).

Definition is_complete (m : MemoryMap) : bool := negb (truncated m).
Definition is_empty (m : MemoryMap) : bool := (len m =? 0)%nat.

  (** [sum] over [u64], which checks for overflow or not as the build does. *)
Definition total_pages {E} (overflow_checks : bool) (m : MemoryMap) (k : MemoryRegionKind) : res E Z :=
    foldM (λ acc r, add_in overflow_checks 64 acc (page_count r)) 0
      (filter (λ r, kind r = k) (iter m)).

Definition total_usable_pages {E} (overflow_checks : bool) (m : MemoryMap) : res E Z := total_pages overflow_checks m Usable.
End Map.

Module RawAttribute.
Definition UNCACHEABLE : Z := 0x1.
Definition WRITE_COMBINE : Z := 0x2.
Definition WRITE_THROUGH : Z := 0x4.
Definition WRITE_BACK : Z := 0x8.
Definition RUNTIME : Z := 0x8000000000000000.
End RawAttribute.

Definition classify_attributes (raw : Z) : RegionAttributes :=
  let has m := negb (Z.land raw m =? 0) in
  {| runtime := has RawAttribute.RUNTIME;
     cache :=
       if has RawAttribute.WRITE_BACK then WriteBack
       else if has RawAttribute.WRITE_THROUGH then WriteThrough
       else if has RawAttribute.WRITE_COMBINE then WriteCombining
       else if has RawAttribute.UNCACHEABLE then Uncacheable
       else Unspecified |}.

Definition classify_memory_type (raw_ordinal : Z) : MemoryRegionKind :=
  if raw_ordinal =? 7 then Usable
  else if (raw_ordinal =? 3) || (raw_ordinal =? 4) then BootServices
  else if raw_ordinal =? 5 then RuntimeCode
  else if raw_ordinal =? 6 then RuntimeData
  else Reserved.

(** ** Facts about the memory map *)
Module MapFacts.
  Import Map.

  (** The shape every map built by [new] and [push] has. *)
Definition wf (m : MemoryMap) : Prop :=
    length (regions m) = CAPACITY ∧ (len m ≤ CAPACITY)%nat.

Lemma new_wf : wf new.
  Proof. split; [reflexivity | simpl; lia]. Qed.

Lemma iter_push m r :
    wf m → (len m < CAPACITY)%nat → iter (snd (push m r)) = iter m ++ [r].
  Proof.
    intros [Hlen _] Hlt. unfold push, iter.
    destruct (Nat.leb_spec CAPACITY (len m)); [lia|]. simpl.
    rewrite (take_S_r _ _ r).
    2:{ rewrite list_lookup_insert_eq; [done|lia]. }
    rewrite take_insert_ge by lia. done.
  Qed.

Lemma push_full m r :
    (CAPACITY ≤ len m)%nat →
    push m r = (false, {| regions := regions m; len := len m; truncated := true |}).
  Proof. intros. unfold push. destruct (Nat.leb_spec CAPACITY (len m)); [done|lia]. Qed.

Lemma push_wf m r : wf m → wf (snd (push m r)).
  Proof.
    intros [H1 H2]. unfold wf, push.
    destruct (Nat.leb_spec CAPACITY (len m)); simpl; rewrite ?length_insert; split; lia.
  Qed.

  (** Pushing a whole list of regions, as [boot] does with what the
      firmware reports. *)
Definition push_all (m : MemoryMap) (rs : list MemoryRegion) : MemoryMap :=
    foldl (λ m r, snd (push m r)) m rs.

Lemma push_all_full m rs :
    (CAPACITY ≤ len m)%nat →
    iter (push_all m rs) = iter m ∧
    truncated (push_all m rs) = truncated m || negb (bool_decide (rs = [])).
  Proof.
    revert m; induction rs as [|r rs IH]; intros m Hm; simpl.
    { by rewrite orb_false_r. }
    rewrite push_full by done; simpl. destruct (IH {| regions := regions m; len := len m; truncated := true |}) as [-> ->]; [done|].
    simpl. by rewrite orb_true_r.
  Qed.

Lemma push_all_spec m rs :
    wf m →
    iter (push_all m rs) = iter m ++ take (CAPACITY - len m) rs ∧
    truncated (push_all m rs) = truncated m || (CAPACITY - len m <? length rs)%nat.
  Proof.
    revert m; induction rs as [|r rs IH]; intros m Hm.
    { simpl. rewrite take_nil, app_nil_r.
      destruct (Nat.ltb_spec (CAPACITY - len m) 0); [lia|]. by rewrite orb_false_r. }
    destruct (decide (CAPACITY ≤ len m)%nat) as [Hfull|Hroom].
    - pose proof (push_all_full m (r :: rs) Hfull) as [-> ->].
      replace (CAPACITY - len m)%nat with 0%nat by lia. simpl. rewrite app_nil_r. done.
    - change (push_all m (r :: rs)) with (push_all (snd (push m r)) rs).
      destruct (IH _ (push_wf m r Hm)) as [-> ->].
      rewrite iter_push by (done || lia).
      unfold push. destruct (Nat.leb_spec CAPACITY (len m)); [lia|]; simpl.
      replace (CAPACITY - len m)%nat with (S (CAPACITY - S (len m)))%nat by lia.
      simpl. split; [by rewrite <-app_assoc|]. f_equal.
  Qed.
End MapFacts.

(** Every number of the map is a [u64]. *)
Definition region_valid (r : MemoryRegion) : Prop :=
  in_width 64 (start_phys_addr r) ∧ in_width 64 (page_count r).
Definition map_valid (m : Map.MemoryMap) : Prop := Forall region_valid (Map.iter m).

#[export] Instance region_valid_dec r : Decision (region_valid r).
Proof. unfold region_valid. apply _. Defined.
#[export] Instance map_valid_dec m : Decision (map_valid m).
Proof. unfold map_valid. apply _. Defined.
