(* ===== verification/FrameAlloc.v ===== *)
(** * The bitmap frame allocator

    Models [kernel/src/memory/frame_allocator.rs]: the state
    ([BitmapFrameAllocator]), every operation of the [impl] that is built
    outside the tests, and the frame arithmetic it uses.  The methods that
    take [&mut self] answer the new state; a method that answers [Err]
    leaves the state as it was.  The theorems are in [FrameAllocProofs]. *)

From S2P Require Import Prelude PhysMem.
Local Open Scope Z_scope.
Local Open Scope rust_scope.

Definition BITS_PER_WORD : Z := 64.

Inductive FramePurpose := Boot | PageTable | Heap | Stack | Kernel | Dma.

#[export] Instance FramePurpose_eq_dec : EqDecision FramePurpose.
Proof. solve_decision. Defined.

Inductive DeallocError :=
| NotManaged
| NotAllocated
| WrongPurpose (expected : FramePurpose) (actual : option FramePurpose).

#[export] Instance DeallocError_eq_dec : EqDecision DeallocError.
Proof. solve_decision. Defined.

Definition purpose_as_u8 (p : FramePurpose) : Z :=
  match p with
  | Boot => 1 | PageTable => 2 | Heap => 3 | Stack => 4 | Kernel => 5 | Dma => 6
  end.

Definition from_byte (byte : Z) : option FramePurpose :=
  match byte with
  | 1 => Some Boot
  | 2 => Some PageTable
  | 3 => Some Heap
  | 4 => Some Stack
  | 5 => Some Kernel
  | 6 => Some Dma
  | _ => None
  end.

Record BitmapFrameAllocator := {
  bitmap : list Z;
  map : Map.MemoryMap;
  boot_services_reclaimed : bool;
  purposes : option (list Z);
  free : Z;
  next_word : nat;
  uncovered : Z
}.

Definition with_bitmap (a : BitmapFrameAllocator) (bm : list Z) : BitmapFrameAllocator :=
  {| bitmap := bm; map := map a; boot_services_reclaimed := boot_services_reclaimed a;
     purposes := purposes a; free := free a; next_word := next_word a;
     uncovered := uncovered a |}.
Definition with_free (a : BitmapFrameAllocator) (n : Z) : BitmapFrameAllocator :=
  {| bitmap := bitmap a; map := map a; boot_services_reclaimed := boot_services_reclaimed a;
     purposes := purposes a; free := n; next_word := next_word a;
     uncovered := uncovered a |}.
Definition with_next (a : BitmapFrameAllocator) (n : nat) : BitmapFrameAllocator :=
  {| bitmap := bitmap a; map := map a; boot_services_reclaimed := boot_services_reclaimed a;
     purposes := purposes a; free := free a; next_word := n; uncovered := uncovered a |}.
Definition with_table (a : BitmapFrameAllocator) (t : option (list Z)) : BitmapFrameAllocator :=
  {| bitmap := bitmap a; map := map a; boot_services_reclaimed := boot_services_reclaimed a;
     purposes := t; free := free a; next_word := next_word a; uncovered := uncovered a |}.
Definition with_reclaimed (a : BitmapFrameAllocator) (b : bool) : BitmapFrameAllocator :=
  {| bitmap := bitmap a; map := map a; boot_services_reclaimed := b;
     purposes := purposes a; free := free a; next_word := next_word a;
     uncovered := uncovered a |}.
Definition with_uncovered (a : BitmapFrameAllocator) (n : Z) : BitmapFrameAllocator :=
  {| bitmap := bitmap a; map := map a; boot_services_reclaimed := boot_services_reclaimed a;
     purposes := purposes a; free := free a; next_word := next_word a; uncovered := n |}.

(** ** Frame arithmetic over firmware regions *)
Definition region_end (r : MemoryRegion) : Z :=
  start_phys_addr r +s64 saturating_mul 64 (page_count r) FRAME_SIZE.

Definition inward_frames (r : MemoryRegion) : Z * Z :=
  (div_ceil (start_phys_addr r) FRAME_SIZE, region_end r / FRAME_SIZE).

Definition outward_frames (r : MemoryRegion) : Z * Z :=
  (start_phys_addr r / FRAME_SIZE, div_ceil (region_end r) FRAME_SIZE).

(** ** One bit *)
Definition bit {E} (bm : list Z) (frame : Z) : res E bool :=
  word ← expect (bm !! Z.to_nat (frame / BITS_PER_WORD));
  Ok (negb (Z.land word (Z.shiftl 1 (frame mod BITS_PER_WORD)) =? 0)).

Definition set_bit {E} (bm : list Z) (frame : Z) (value : bool) : res E (list Z) :=
  let i := Z.to_nat (frame / BITS_PER_WORD) in
  word ← expect (bm !! i);
  let mask := Z.shiftl 1 (frame mod BITS_PER_WORD) in
  Ok (<[i := if value then Z.lor word mask else Z.land word (not_w 64 mask)]> bm).

Definition covered_frames (a : BitmapFrameAllocator) : Z :=
  Z.of_nat (length (bitmap a)) * BITS_PER_WORD.

Definition free_frames (a : BitmapFrameAllocator) : Z := free a.
Definition uncovered_usable_frames (a : BitmapFrameAllocator) : Z := uncovered a.

Definition count_free (bm : list Z) : Z :=
  foldl (λ acc word, acc + count_zeros 64 word) 0 bm.

(** [for frame in first..end { self.set_bit(frame, value) }] *)
Definition set_bits {E} (value : bool) (a : BitmapFrameAllocator) (first end' : Z)
    : res E BitmapFrameAllocator :=
  bm ← foldM (λ bm frame, set_bit bm frame value) (bitmap a) (seqZ first (end' - first));
  Ok (with_bitmap a bm).

(** ** Building the allocator *)

(** One round of the first loop of [new]: a [Usable] region, inwards. *)
Definition open_region {E} (covered : Z) (a : BitmapFrameAllocator) (region : MemoryRegion)
    : res E BitmapFrameAllocator :=
  let r := inward_frames region in
  set_bits false (with_uncovered a (uncovered a + (r.2 -s Z.max r.1 covered)))
    r.1 (Z.min r.2 covered).

(** One round of the second loop: any other region, outwards. *)
Definition withhold_region {E} (covered : Z) (a : BitmapFrameAllocator) (region : MemoryRegion)
    : res E BitmapFrameAllocator :=
  let r := outward_frames region in set_bits true a r.1 (Z.min r.2 covered).

Definition new (storage : list Z) (m : Map.MemoryMap) : may BitmapFrameAllocator :=
  let allocator := {| bitmap := replicate (length storage) (umax 64); map := m;
                      boot_services_reclaimed := false; purposes := None;
                      free := 0; next_word := 0; uncovered := 0 |} in
  let covered := covered_frames allocator in
  allocator ← foldM (open_region covered) allocator
                (filter (λ r, kind r = Usable) (Map.iter m));
  allocator ← foldM (withhold_region covered) allocator
                (filter (λ r, kind r ≠ Usable) (Map.iter m));
  allocator ← (if 0 <? covered
               then bm ← set_bit (bitmap allocator) 0 true; Ok (with_bitmap allocator bm)
               else Ok allocator);
  Ok (with_free allocator (count_free (bitmap allocator))).

Definition adopt (storage : list Z) (m : Map.MemoryMap) (reclaimed : bool)
    : BitmapFrameAllocator :=
  {| bitmap := storage; map := m; boot_services_reclaimed := reclaimed;
     purposes := None; free := count_free storage; next_word := 0; uncovered := 0 |}.

(** ** Which frames can ever be handed out *)
Definition allocatable (reclaimed : bool) (k : MemoryRegionKind) : bool :=
  bool_decide (k = Usable) || (reclaimed && bool_decide (k = BootServices)).

Definition contains (number : Z) (range : Z * Z) : bool :=
  (range.1 <=? number) && (number <? range.2).

Definition manages (a : BitmapFrameAllocator) (frame : PhysFrame) : bool :=
  let number := Frame.number frame in
  let alloc r := allocatable (boot_services_reclaimed a) (kind r) in
  negb (number =? 0) && (number <? covered_frames a)
  && existsb (λ r, alloc r && contains number (inward_frames r)) (Map.iter (map a))
  && negb (existsb (λ r, negb (alloc r) && contains number (outward_frames r))
             (Map.iter (map a))).

(** [self.manages(frame) && self.bit(number)]: the bit is only read for a
    managed frame, whose number is below [covered_frames]. *)
Definition is_held {E} (a : BitmapFrameAllocator) (frame : PhysFrame) : res E bool :=
  if manages a frame then bit (bitmap a) (Frame.number frame) else Ok false.

(** ** Purposes *)
Definition set_purpose (a : BitmapFrameAllocator) (frame : PhysFrame)
    (purpose : option FramePurpose) : BitmapFrameAllocator :=
  match purposes a with
  | Some table =>
      with_table a (Some (<[Z.to_nat (Frame.number frame) :=
                            default 0 (purpose_as_u8 <$> purpose)]> table))
  | None => a
  end.

Definition purpose_of (a : BitmapFrameAllocator) (frame : PhysFrame) : option FramePurpose :=
  table ← purposes a;
  byte ← table !! Z.to_nat (Frame.number frame);
  from_byte byte.

Definition frames_for (a : BitmapFrameAllocator) (purpose : FramePurpose) : Z :=
  match purposes a with
  | None => 0
  | Some table => Z.of_nat (length (filter (λ byte, byte = purpose_as_u8 purpose) table))
  end.

(** The body of [with_purposes]'s loop. *)
Definition record_boot {E} (a : BitmapFrameAllocator) (table : list Z) (number : Z)
    : res E (list Z) :=
  held ← is_held a (Frame.containing_address (number * FRAME_SIZE));
  Ok (<[Z.to_nat number := if held : bool then purpose_as_u8 Boot else 0]> table).

Definition with_purposes (a : BitmapFrameAllocator) (table : list Z)
    : may BitmapFrameAllocator :=
  let covered := Z.to_nat (covered_frames a) in
  _ ← assert_ (covered <=? length table)%nat;
  table ← foldM (record_boot a) table (seqZ 0 (Z.of_nat covered));
  Ok (with_table a (Some table)).

Definition label (a : BitmapFrameAllocator) (frame : PhysFrame) (purpose : FramePurpose)
    : may (bool * BitmapFrameAllocator) :=
  held ← is_held a frame;
  Ok (held, if held : bool then set_purpose a frame (Some purpose) else a).

(** ** Handing out and giving back *)

(** The search: [for offset in 0..words], from [next_word] on. *)
Fixpoint search (a : BitmapFrameAllocator) (offsets : list nat)
    : may (option PhysFrame * BitmapFrameAllocator) :=
  match offsets with
  | [] => Ok (None, a)
  | offset :: rest =>
      let index := ((next_word a + offset) mod length (bitmap a))%nat in
      word ← expect (bitmap a !! index);
      if word =? umax 64 then search a rest
      else
        let b := trailing_zeros 64 (not_w 64 word) in
        let a := with_bitmap a (<[index := Z.lor word (Z.shiftl 1 b)]> (bitmap a)) in
        let a := with_next (with_free a (free a - 1)) index in
        let frame := Z.of_nat index * BITS_PER_WORD + b in
        Ok (Some (Frame.containing_address (frame * FRAME_SIZE)), a)
  end.

Definition allocate (a : BitmapFrameAllocator)
    : may (option PhysFrame * BitmapFrameAllocator) :=
  if free a =? 0 then Ok (None, a) else search a (seq 0 (length (bitmap a))).

Definition allocate_for (a : BitmapFrameAllocator) (purpose : FramePurpose)
    : may (option PhysFrame * BitmapFrameAllocator) :=
  '(got, a) ← allocate a;
  match got with
  | Some frame => Ok (Some frame, set_purpose a frame (Some purpose))
  | None => Ok (None, a)
  end.

Definition deallocate_unchecked (a : BitmapFrameAllocator) (frame : PhysFrame)
    : res DeallocError BitmapFrameAllocator :=
  if negb (manages a frame) then Err NotManaged
  else
    held ← bit (bitmap a) (Frame.number frame);
    if negb held then Err NotAllocated
    else
      bm ← set_bit (bitmap a) (Frame.number frame) false;
      let a := set_purpose (with_bitmap a bm) frame None in
      Ok (with_free a (free a + 1)).

Definition deallocate_as (a : BitmapFrameAllocator) (frame : PhysFrame)
    (purpose : FramePurpose) : res DeallocError BitmapFrameAllocator :=
  let actual := purpose_of a frame in
  if bool_decide (is_Some (purposes a)) && negb (bool_decide (actual = Some purpose))
  then Err (WrongPurpose purpose actual)
  else deallocate_unchecked a frame.

(** [impl FrameAllocator for BitmapFrameAllocator]: what [arch] sees. *)
Definition allocate_frame (a : BitmapFrameAllocator)
    : may (option PhysFrame * BitmapFrameAllocator) := allocate_for a PageTable.

(** ** Reclaiming what the firmware left *)

(** The body of the inner loop, for one frame number. *)
Definition reclaim_frame {E} (st : Z * BitmapFrameAllocator) (number : Z)
    : res E (Z * BitmapFrameAllocator) :=
  let '(added, a) := st in
  held ← is_held a (Frame.containing_address (number * FRAME_SIZE));
  if held : bool
  then bm ← set_bit (bitmap a) number false; Ok (added + 1, with_bitmap a bm)
  else Ok (added, a).

Definition reclaim_region {E} (covered : Z) (st : Z * BitmapFrameAllocator) (r : MemoryRegion)
    : res E (Z * BitmapFrameAllocator) :=
  let range := inward_frames r in
  foldM reclaim_frame st (seqZ range.1 (Z.min range.2 covered - range.1)).

Definition reclaim_boot_services (a : BitmapFrameAllocator)
    : may (Z * BitmapFrameAllocator) :=
  if boot_services_reclaimed a then Ok (0, a)
  else
    let a := with_reclaimed a true in
    '(added, a) ← foldM (reclaim_region (covered_frames a)) (0, a)
        (filter (λ r, kind r = BootServices) (Map.iter (map a)));
    Ok (added, with_free a (free a + added)).

(** [move_off_firmware_memory] of [kernel/src/memory.rs], on the bitmap
    allocator: both heap copies have [FRAME_BITMAP_WORDS] words, and
    [copy_from_slice] panics when the lengths differ. *)
Definition FRAME_BITMAP_WORDS : nat := 1024.

Definition move_off_firmware_memory (frames : BitmapFrameAllocator) (m : Map.MemoryMap)
    : may BitmapFrameAllocator :=
  _ ← assert_ (length (bitmap frames) =? FRAME_BITMAP_WORDS)%nat;
  with_purposes (adopt (bitmap frames) m (boot_services_reclaimed frames))
    (replicate (FRAME_BITMAP_WORDS * 64) 0).

(** The order of [allocate_frame]'s bits, on a bitmap of one word whose
    frames 1 and 3 are free. *)
Definition example_map : Map.MemoryMap :=
  snd (Map.push Map.new {| start_phys_addr := 0x1000; page_count := 2; kind := Usable;
                           attributes := Map.attributes_none |}).
Example new_example :
  (a ← new [0] example_map; '(f, a) ← allocate a; Ok (f, free a))
  = Ok (Some {| frame_start := 0x1000 |}, 1).
Proof. vm_compute. reflexivity. Qed.
