(* ===== verification/FrameAllocProofs.v ===== *)
(** * The frame allocator: invariant and refinement

    The abstract state of the allocator is its pool, the finite set of the
    frame numbers whose bit is clear; [inv] says the pool holds managed
    frames only, that [free] counts it and that the purpose table agrees
    with it.  Every operation preserves [inv] and acts on the pool as a set
    operation; the theorems at the end run whole sequences of operations. *)

From S2P Require Import Prelude Words PhysMem FrameAlloc.
Local Open Scope Z_scope.

(** ** The bitmap as a set of bits *)
Definition isset (bm : list Z) (f : Z) : bool :=
  Z.testbit (default 0 (bm !! Z.to_nat (f / 64))) (f mod 64).

Definition cov (bm : list Z) : Z := Z.of_nat (length bm) * 64.

Definition words_ok (bm : list Z) : Prop := Forall (in_width 64) bm.

Definition pool (bm : list Z) : gset Z :=
  list_to_set (filter (λ f, isset bm f = false) (seqZ 0 (cov bm))).

Lemma elem_of_pool bm f : f ∈ pool bm ↔ 0 ≤ f < cov bm ∧ isset bm f = false.
Proof.
  unfold pool. rewrite elem_of_list_to_set, list_elem_of_filter, in_seqZ.
  naive_solver lia.
Qed.

Lemma word_index bm f :
  0 ≤ f < cov bm → (Z.to_nat (f / 64) < length bm)%nat.
Proof.
  unfold cov. intros Hf.
  assert (f / 64 < Z.of_nat (length bm)) by (apply Z.div_lt_upper_bound; lia).
  pose proof (Z.div_pos f 64). lia.
Qed.

Lemma bit_ok {E} bm f : 0 ≤ f < cov bm → bit (E:=E) bm f = Ok (isset bm f).
Proof.
  intros Hf. unfold bit, isset, BITS_PER_WORD.
  destruct (lookup_lt_is_Some_2 bm _ (word_index bm f Hf)) as [w ->]; simpl.
  rewrite land_mask_testbit; [done|]. apply Z.mod_pos_bound. lia.
Qed.

Lemma same_word f g : 0 ≤ f → 0 ≤ g →
  Z.to_nat (f / 64) = Z.to_nat (g / 64) → f mod 64 = g mod 64 → f = g.
Proof.
  intros Hf Hg H1 H2. pose proof (Z.div_pos f 64). pose proof (Z.div_pos g 64).
  rewrite (Z.div_mod f 64), (Z.div_mod g 64) by lia. lia.
Qed.

(** What writing a whole word does to the bits. *)
Lemma isset_insert bm i w g :
  (i < length bm)%nat →
  isset (<[i:=w]> bm) g =
    if decide (i = Z.to_nat (g / 64)) then Z.testbit w (g mod 64) else isset bm g.
Proof.
  intros Hi. unfold isset. destruct (decide (i = _)) as [->|Hne].
  - by rewrite list_lookup_insert_eq.
  - by rewrite list_lookup_insert_ne.
Qed.

(** [set_bit] changes exactly one bit. *)
Lemma set_bit_ok {E} bm f v :
  0 ≤ f < cov bm → words_ok bm →
  ∃ bm', set_bit (E:=E) bm f v = Ok bm' ∧ length bm' = length bm ∧ words_ok bm' ∧
    ∀ g, 0 ≤ g → isset bm' g = if decide (g = f) then v else isset bm g.
Proof.
  intros Hf Hok. unfold set_bit, BITS_PER_WORD.
  pose proof (word_index bm f Hf) as Hi.
  destruct (lookup_lt_is_Some_2 bm _ Hi) as [w Hw]. rewrite Hw; simpl.
  pose proof (Z.mod_pos_bound f 64 ltac:(lia)) as Hm.
  assert (in_width 64 w) as Hww by (eapply Forall_lookup_1 in Hok; done).
  pose proof (shiftl_1_in_width 64 _ Hm) as Hmask.
  eexists; split; [done|]. split; [by rewrite length_insert|]. split.
  { apply Forall_insert; [done|]. destruct v; [by apply lor_in_width|].
    apply land_in_width; [done..|]. by apply not_w_in_width. }
  intros g Hg. rewrite isset_insert by done.
  destruct (decide (Z.to_nat (f / 64) = Z.to_nat (g / 64))) as [He|Hne].
  2:{ destruct (decide (g = f)); [by subst|done]. }
  pose proof (Z.mod_pos_bound g 64 ltac:(lia)) as Hmg.
  assert (isset bm g = Z.testbit w (g mod 64)) as -> by (unfold isset; by rewrite <-He, Hw).
  destruct (decide (g = f)) as [->|Hgf].
  - destruct v; rewrite ?Z.lor_spec, ?Z.land_spec, ?testbit_not_w, ?testbit_shiftl_1 by (done || lia);
      rewrite bool_decide_eq_true_2 by done; [apply orb_true_r|apply andb_false_r].
  - assert (g mod 64 ≠ f mod 64) by (intros ?; apply Hgf; apply same_word; lia).
    destruct v; rewrite ?Z.lor_spec, ?Z.land_spec, ?testbit_not_w, ?testbit_shiftl_1 by (done || lia);
      rewrite bool_decide_eq_false_2 by done; [apply orb_false_r|apply andb_true_r].
Qed.

(** A whole range of bits. *)
Lemma set_range_ok {E} (v : bool) l bm :
  words_ok bm → (∀ f, f ∈ l → 0 ≤ f < cov bm) →
  ∃ bm', foldM (λ bm f, set_bit (E:=E) bm f v) bm l = Ok bm' ∧
    length bm' = length bm ∧ words_ok bm' ∧
    ∀ g, 0 ≤ g → (g ∈ l → isset bm' g = v) ∧ (g ∉ l → isset bm' g = isset bm g).
Proof.
  intros Hok Hl.
  apply (foldM_ind (λ pre bm', length bm' = length bm ∧ words_ok bm' ∧
    ∀ g, 0 ≤ g → (g ∈ pre → isset bm' g = v) ∧ (g ∉ pre → isset bm' g = isset bm g))).
  { split_and!; [done..|]. set_solver. }
  intros pre f post bm1 -> (Hlen & Hok1 & Hbits).
  destruct (set_bit_ok (E:=E) bm1 f v) as (bm2 & -> & ? & ? & Hb2).
  { unfold cov in *. rewrite Hlen. apply Hl. set_solver. }
  { done. }
  exists bm2; split_and!; [done|lia|done|]. intros g Hg. rewrite Hb2 by done.
  destruct (Hbits g Hg). destruct (decide (g = f)); set_solver.
Qed.

(** ** Counting *)
Lemma filter_bits_word bm w :
  length (filter (λ f, isset (bm ++ [w]) f = false) (seqZ (cov bm) 64))
  = length (filter (λ b, b = false) (bits 64 w)).
Proof.
  trans (length (filter (λ i, Z.testbit w i = false) (seqZ 0 64))).
  2:{ unfold bits. by apply length_filter_fmap. }
  rewrite <-(Z.add_0_l (cov bm)), <-fmap_add_seqZ'. symmetry.
  apply length_filter_fmap. intros i Hi%in_seqZ.
  unfold isset, cov. rewrite Z.div_add, Z.div_small, Z.mod_add, Z.mod_small by lia.
  replace (Z.to_nat _) with (length bm) by lia. by rewrite list_lookup_middle.
Qed.

Lemma isset_app_l bm bm' f :
  0 ≤ f < cov bm → isset (bm ++ bm') f = isset bm f.
Proof. intros Hf. unfold isset. rewrite lookup_app_l; [done|]. by apply word_index. Qed.

Lemma length_pool bm : size (pool bm) = length (filter (λ f, isset bm f = false) (seqZ 0 (cov bm))).
Proof.
  unfold pool. rewrite size_list_to_set; [done|]. apply NoDup_filter, NoDup_seqZ.
Qed.

Lemma count_free_snoc bm w : count_free (bm ++ [w]) = count_free bm + count_zeros 64 w.
Proof. unfold count_free. by rewrite foldl_app. Qed.

(** Counting the zeros of the words counts the pool. *)
Lemma count_free_pool bm : count_free bm = Z.of_nat (size (pool bm)).
Proof.
  induction bm as [|w bm IH] using rev_ind; [done|].
  rewrite count_free_snoc, IH, !length_pool. unfold count_zeros.
  rewrite <-(filter_bits_word bm).
  replace (cov (bm ++ [w])) with (cov bm + 64) by (unfold cov; rewrite length_app; simpl; lia).
  rewrite seqZ_app, filter_app, length_app, Nat2Z.inj_add by (unfold cov; lia).
  f_equal. f_equal. apply length_filter_ext. intros f Hf%in_seqZ.
  rewrite isset_app_l by lia. done.
Qed.

(** The pool after one bit changes. *)
Lemma pool_set bm bm' f :
  length bm' = length bm → 0 ≤ f < cov bm →
  (∀ g, 0 ≤ g → isset bm' g = if decide (g = f) then true else isset bm g) →
  pool bm' = pool bm ∖ {[f]}.
Proof.
  intros Hlen Hf H. apply set_eq. intros g.
  rewrite elem_of_difference, !elem_of_pool, elem_of_singleton. unfold cov. rewrite Hlen.
  split.
  - intros [Hg Hb]. rewrite H in Hb by lia. destruct (decide (g = f)); naive_solver.
  - intros [[Hg Hb] Hne]. rewrite H by lia. by destruct (decide (g = f)).
Qed.

Lemma pool_clear bm bm' f :
  length bm' = length bm → 0 ≤ f < cov bm →
  (∀ g, 0 ≤ g → isset bm' g = if decide (g = f) then false else isset bm g) →
  pool bm' = {[f]} ∪ pool bm.
Proof.
  intros Hlen Hf H. apply set_eq. intros g.
  rewrite elem_of_union, !elem_of_pool, elem_of_singleton. unfold cov in *. rewrite Hlen.
  split.
  - intros [Hg Hb]. rewrite H in Hb by lia. destruct (decide (g = f)); naive_solver.
  - intros [->|[Hg Hb]]; (split; [lia|]); rewrite H by lia; destruct (decide _); done.
Qed.

(** ** The invariant *)

(** Which bytes of the purpose table are meaningful: the frames of the pool
    carry none, and every byte is 0 or a purpose. *)
Definition table_ok (a : BitmapFrameAllocator) : Prop :=
  match purposes a with
  | None => True
  | Some table =>
      (Z.to_nat (cov (bitmap a)) ≤ length table)%nat ∧
      (∀ f, 0 ≤ f < cov (bitmap a) →
        manages a (Frame.containing_address (f * FRAME_SIZE)) = false ∨
          isset (bitmap a) f = false →
        table !! Z.to_nat f = Some 0)
  end.

Record inv (a : BitmapFrameAllocator) : Prop := {
  inv_words : words_ok (bitmap a);
  inv_small : cov (bitmap a) ≤ 2 ^ 52;
  inv_pool : ∀ f, f ∈ pool (bitmap a) →
    manages a (Frame.containing_address (f * FRAME_SIZE)) = true;
  inv_free : free a = Z.of_nat (size (pool (bitmap a)));
  inv_next : (next_word a < length (bitmap a))%nat ∨ bitmap a = [];
  inv_table : table_ok a
}.

Lemma manages_bounds a fr :
  Frame.valid fr → manages a fr = true → 0 < Frame.number fr < cov (bitmap a).
Proof.
  intros [[Hpos _] _]. unfold manages, covered_frames, BITS_PER_WORD. fold (cov (bitmap a)).
  assert (0 ≤ Frame.number fr) by (apply Z.div_pos; [done|unfold FRAME_SIZE; lia]).
  intros Hm. apply andb_prop in Hm as [[[?%negb_true_iff%Z.eqb_neq ?%Z.ltb_lt]%andb_prop _]%andb_prop _].
  lia.
Qed.

(** [manages] does not look at the bits. *)
Lemma manages_ext a a' fr :
  length (bitmap a') = length (bitmap a) → map a' = map a →
  boot_services_reclaimed a' = boot_services_reclaimed a →
  manages a' fr = manages a fr.
Proof.
  intros H1 H2 H3. unfold manages, covered_frames. by rewrite H1, H2, H3.
Qed.

(** ** Building the allocator *)
Lemma contains_range f r cov' :
  f ∈ seqZ r.1 (Z.min r.2 cov' - r.1) ↔ contains f r = true ∧ f < cov'.
Proof.
  unfold contains. rewrite in_seqZ, andb_true_iff, Z.leb_le, Z.ltb_lt. lia.
Qed.

Lemma inward_first_nonneg r : region_valid r → 0 ≤ (inward_frames r).1.
Proof. intros [[? _] _]. apply div_ceil_nonneg; [unfold FRAME_SIZE; lia|done]. Qed.

Lemma outward_first_nonneg r : region_valid r → 0 ≤ (outward_frames r).1.
Proof. intros [[? _] _]. apply Z.div_pos; [done|unfold FRAME_SIZE; lia]. Qed.

Lemma set_bits_ok {E} v a (r : Z * Z) :
  words_ok (bitmap a) → 0 ≤ r.1 →
  ∃ bm', set_bits (E:=E) v a r.1 (Z.min r.2 (cov (bitmap a))) = Ok (with_bitmap a bm') ∧
    length bm' = length (bitmap a) ∧ words_ok bm' ∧
    ∀ f, 0 ≤ f < cov (bitmap a) →
      isset bm' f = if contains f r then v else isset (bitmap a) f.
Proof.
  intros Hok Hr. unfold set_bits.
  destruct (set_range_ok (E:=E) v (seqZ r.1 (Z.min r.2 (cov (bitmap a)) - r.1)) (bitmap a))
    as (bm' & -> & Hlen & Hok' & Hb); [done|intros f Hf%in_seqZ; lia|].
  simpl. exists bm'; split_and!; [done..|]. intros f Hf.
  destruct (Hb f) as [Hin Hout]; [lia|].
  destruct (contains f r) eqn:Hc.
  - apply Hin, contains_range. split; [done|lia].
  - apply Hout. rewrite contains_range, Hc. naive_solver.
Qed.

(** What stays of an allocator while [new] runs its two passes. *)
Definition same_frame (a a' : BitmapFrameAllocator) : Prop :=
  length (bitmap a') = length (bitmap a) ∧ map a' = map a ∧
  boot_services_reclaimed a' = boot_services_reclaimed a ∧
  purposes a' = purposes a ∧ next_word a' = next_word a.

Lemma fresh_isset n f : 0 ≤ f < Z.of_nat n * 64 → isset (replicate n (umax 64)) f = true.
Proof.
  intros Hf. unfold isset. rewrite lookup_replicate_2; simpl.
  - apply umax_testbit, Z.mod_pos_bound. lia.
  - pose proof (word_index (replicate n (umax 64)) f) as H.
    rewrite length_replicate in H. apply H. unfold cov. by rewrite length_replicate.
Qed.

(** One pass of [new]: after it, the bits that some visited region contains
    are [v] and the others are as they were. *)
Lemma pass_ok {E} (v : bool) (frames : MemoryRegion → Z * Z) (step : BitmapFrameAllocator →
    MemoryRegion → res E BitmapFrameAllocator) rs a0 c :
  cov (bitmap a0) = c → words_ok (bitmap a0) →
  (∀ a r, r ∈ rs → same_frame a0 a → words_ok (bitmap a) → ∃ a' bm',
     step a r = Ok a' ∧ same_frame a a' ∧ bitmap a' = bm' ∧ words_ok bm' ∧
     ∀ f, 0 ≤ f < c → isset bm' f = if contains f (frames r) then v else isset (bitmap a) f) →
  ∃ a', foldM step a0 rs = Ok a' ∧ same_frame a0 a' ∧ words_ok (bitmap a') ∧
    ∀ f, 0 ≤ f < c → isset (bitmap a') f =
      if existsb (λ r, contains f (frames r)) rs then v else isset (bitmap a0) f.
Proof.
  intros Hc Hok Hstep.
  apply (foldM_ind (λ pre a', same_frame a0 a' ∧ words_ok (bitmap a') ∧
    ∀ f, 0 ≤ f < c → isset (bitmap a') f =
      if existsb (λ r, contains f (frames r)) pre then v else isset (bitmap a0) f)).
  { split_and!; [by unfold same_frame|done|done]. }
  intros pre r post a -> (Hsame & Hoka & Hb).
  destruct (Hstep a r) as (a' & bm' & -> & Hs' & <- & Hok' & Hb'); [set_solver|done|done|].
  exists a'; split_and!; [done| |done|].
  { destruct Hsame as (?&?&?&?&?), Hs' as (?&?&?&?&?). unfold same_frame. split_and!; congruence. }
  intros f Hf. rewrite Hb', Hb by done. rewrite existsb_app; simpl.
  destruct (contains f (frames r)); rewrite ?orb_true_r, ?orb_false_r; [|done].
  by destruct (existsb (λ r, contains f (frames r)) pre).
Qed.

(** Whether a frame number is allocatable, read off the memory map alone. *)
Definition mapped (reclaimed : bool) (m : Map.MemoryMap) (f : Z) : bool :=
  existsb (λ r, allocatable reclaimed (kind r) && contains f (inward_frames r)) (Map.iter m)
  && negb (existsb (λ r, negb (allocatable reclaimed (kind r)) && contains f (outward_frames r))
             (Map.iter m)).

Lemma manages_mapped a f :
  manages a (Frame.containing_address (f * FRAME_SIZE)) =
    negb (f =? 0) && (f <? cov (bitmap a)) && mapped (boot_services_reclaimed a) (map a) f.
Proof.
  unfold manages, mapped. rewrite Frame.number_containing.
  change (covered_frames a) with (cov (bitmap a)). by rewrite !andb_assoc.
Qed.

Lemma existsb_filter {A} (P : A → Prop) `{!∀ x, Decision (P x)} (p q : A → bool) l :
  (∀ x, q x = bool_decide (P x)) →
  existsb p (filter P l) = existsb (λ x, q x && p x) l.
Proof.
  intros Hq. induction l as [|x l IH]; [done|]. rewrite filter_cons; simpl. rewrite Hq.
  destruct (decide (P x)).
  - rewrite bool_decide_eq_true_2 by done. simpl. by rewrite IH.
  - rewrite bool_decide_eq_false_2 by done. simpl. by rewrite IH.
Qed.

Lemma allocatable_fresh k : allocatable false k = bool_decide (k = Usable).
Proof. unfold allocatable. by rewrite orb_false_r. Qed.

Lemma open_pass {E} rs a0 :
  words_ok (bitmap a0) → Forall region_valid rs →
  ∃ a', foldM (open_region (E:=E) (cov (bitmap a0))) a0 rs = Ok a' ∧ same_frame a0 a' ∧
    words_ok (bitmap a') ∧
    ∀ f, 0 ≤ f < cov (bitmap a0) → isset (bitmap a') f =
      if existsb (λ r, contains f (inward_frames r)) rs then false else isset (bitmap a0) f.
Proof.
  intros Hok Hrs. rewrite Forall_forall in Hrs. apply pass_ok; [done..|].
  intros a r Hr%Hrs Hsame Hoka. unfold open_region.
  assert (cov (bitmap a) = cov (bitmap a0)) as <- by (unfold cov; by rewrite (proj1 Hsame)).
  set (a1 := with_uncovered a _).
  destruct (set_bits_ok (E:=E) false a1 (inward_frames r)) as (bm' & Hset & Hb);
    [done|by apply inward_first_nonneg|].
  change (cov (bitmap a1)) with (cov (bitmap a)) in Hset. rewrite Hset.
  eexists _, bm'. unfold same_frame. naive_solver.
Qed.

Lemma withhold_pass {E} rs a0 :
  words_ok (bitmap a0) → Forall region_valid rs →
  ∃ a', foldM (withhold_region (E:=E) (cov (bitmap a0))) a0 rs = Ok a' ∧ same_frame a0 a' ∧
    words_ok (bitmap a') ∧
    ∀ f, 0 ≤ f < cov (bitmap a0) → isset (bitmap a') f =
      if existsb (λ r, contains f (outward_frames r)) rs then true else isset (bitmap a0) f.
Proof.
  intros Hok Hrs. rewrite Forall_forall in Hrs. apply pass_ok; [done..|].
  intros a r Hr%Hrs Hsame Hoka. unfold withhold_region.
  assert (cov (bitmap a) = cov (bitmap a0)) as <- by (unfold cov; by rewrite (proj1 Hsame)).
  destruct (set_bits_ok (E:=E) true a (outward_frames r)) as (bm' & Hset & Hb);
    [done|by apply outward_first_nonneg|].
  rewrite Hset. eexists _, bm'. unfold same_frame. naive_solver.
Qed.

(** Withholding frame 0, when the storage covers it. *)
Lemma withhold_zero {E} a :
  words_ok (bitmap a) →
  ∃ a', (if 0 <? cov (bitmap a)
         then bm ← set_bit (E:=E) (bitmap a) 0 true; Ok (with_bitmap a bm)
         else Ok a) = Ok a' ∧ same_frame a a' ∧ words_ok (bitmap a') ∧
    ∀ f, 0 ≤ f < cov (bitmap a) →
      isset (bitmap a') f = if f =? 0 then true else isset (bitmap a) f.
Proof.
  intros Hok. destruct (Z.ltb_spec 0 (cov (bitmap a))).
  - destruct (set_bit_ok (E:=E) (bitmap a) 0 true) as (bm & -> & Hlen & Hok' & Hb); [lia|done|].
    eexists; split; [done|]. split; [done|]. split; [done|].
    intros f Hf. simpl. rewrite Hb by lia. by destruct (decide (f = 0)), (Z.eqb_spec f 0).
  - exists a. unfold same_frame. split_and!; (done || lia).
Qed.

Lemma Forall_filter_valid (P : MemoryRegion → Prop) `{!∀ r, Decision (P r)} m :
  map_valid m → Forall region_valid (filter P (Map.iter m)).
Proof.
  unfold map_valid. rewrite !Forall_forall. intros Hv r [_ Hr]%list_elem_of_filter. by apply Hv.
Qed.

(** What [new] builds: it never panics, and the free frames are exactly the
    managed ones. *)
Lemma new_spec (storage : list Z) (m : Map.MemoryMap) :
  map_valid m →
  ∃ a, new storage m = Ok a ∧ length (bitmap a) = length storage ∧ map a = m ∧
    boot_services_reclaimed a = false ∧ purposes a = None ∧ next_word a = 0%nat ∧
    words_ok (bitmap a) ∧ free a = Z.of_nat (size (pool (bitmap a))) ∧
    (∀ f, 0 ≤ f < cov (bitmap a) →
      isset (bitmap a) f = negb (manages a (Frame.containing_address (f * FRAME_SIZE)))).
Proof.
  intros Hm. unfold new. set (a0 := {| bitmap := replicate (length storage) (umax 64) |}).
  change (covered_frames a0) with (cov (bitmap a0)).
  destruct (open_pass (E:=Empty_set) (filter (λ r, kind r = Usable) (Map.iter m)) a0)
    as (a1 & -> & Hs1 & Hok1 & Hb1).
  { apply Forall_replicate, umax_in_width; lia. } { by apply Forall_filter_valid. }
  cbn [mbind res_bind].
  assert (cov (bitmap a1) = cov (bitmap a0)) as Hc1 by (unfold cov; by rewrite (proj1 Hs1)).
  rewrite <-Hc1 in *.
  destruct (withhold_pass (E:=Empty_set) (filter (λ r, kind r ≠ Usable) (Map.iter m)) a1)
    as (a2 & -> & Hs2 & Hok2 & Hb2); [done|by apply Forall_filter_valid|].
  cbn [mbind res_bind].
  assert (cov (bitmap a2) = cov (bitmap a1)) as Hc2 by (unfold cov; by rewrite (proj1 Hs2)).
  rewrite <-Hc2 in *.
  destruct (withhold_zero (E:=Empty_set) a2) as (a3 & -> & Hs3 & Hok3 & Hb3); [done|].
  assert (cov (bitmap a3) = cov (bitmap a2)) as Hc3 by (unfold cov; by rewrite (proj1 Hs3)).
  simpl. eexists; split; [done|]. simpl.
  destruct Hs1 as (L1&M1&R1&P1&N1), Hs2 as (L2&M2&R2&P2&N2), Hs3 as (L3&M3&R3&P3&N3).
  simpl in *. rewrite length_replicate in L1. split_and!; [congruence..|done| |].
  { apply count_free_pool. }
  intros f Hf. rewrite Hc3 in Hf.
  rewrite manages_mapped; simpl. rewrite Hc3, R3, R2, R1, M3, M2, M1, Hb3, Hb2, Hb1 by lia.
  rewrite (existsb_filter (λ r, kind r = Usable) _ (λ r, allocatable false (kind r))) by (intros; apply allocatable_fresh).
  rewrite (existsb_filter (λ r, kind r ≠ Usable) _ (λ r, negb (allocatable false (kind r))))
    by (intros; rewrite allocatable_fresh; by destruct (kind x)).
  unfold mapped. rewrite fresh_isset by (unfold cov in *; lia).
  destruct (Z.eqb_spec f 0); [done|]. simpl. destruct (Z.ltb_spec f (cov (bitmap a2))); [|lia].
  simpl. destruct (existsb _ _), (existsb _ _); done.
Qed.

(** ** Preservation of the invariant, once and for all

    [same_env a a'] is what no operation but [reclaim_boot_services]
    changes. *)
Definition same_env (a a' : BitmapFrameAllocator) : Prop :=
  length (bitmap a') = length (bitmap a) ∧ map a' = map a ∧
  boot_services_reclaimed a' = boot_services_reclaimed a.

Lemma same_env_manages a a' fr : same_env a a' → manages a' fr = manages a fr.
Proof. intros (?&?&?). by apply manages_ext. Qed.

Lemma same_env_cov a a' : same_env a a' → cov (bitmap a') = cov (bitmap a).
Proof. intros (Hlen&_). unfold cov. by rewrite Hlen. Qed.

Definition frame_of (f : Z) : PhysFrame := Frame.containing_address (f * FRAME_SIZE).

Lemma frame_of_valid bm f : cov bm ≤ 2 ^ 52 → 0 ≤ f < cov bm → Frame.valid (frame_of f).
Proof. intros. apply Frame.containing_valid. lia. Qed.

Lemma frame_of_number fr : Frame.valid fr → frame_of (Frame.number fr) = fr.
Proof. apply Frame.containing_number. Qed.

Lemma number_frame_of f : Frame.number (frame_of f) = f.
Proof. apply Frame.number_containing. Qed.

(** Taking one frame out of the pool keeps the invariant. *)
Lemma inv_take a a' f :
  inv a → same_env a a' → purposes a' = purposes a → words_ok (bitmap a') →
  f ∈ pool (bitmap a) →
  (∀ g, 0 ≤ g → isset (bitmap a') g = if decide (g = f) then true else isset (bitmap a) g) →
  free a' = free a - 1 → (next_word a' < length (bitmap a'))%nat →
  inv a' ∧ pool (bitmap a') = pool (bitmap a) ∖ {[f]}.
Proof.
  intros [Hw Hs Hp Hf Hn Ht] Henv Hpur Hok Hin Hb Hfree Hnext.
  pose proof (same_env_cov a a' Henv) as Hcov.
  assert (pool (bitmap a') = pool (bitmap a) ∖ {[f]}) as Hpool.
  { apply pool_set; [apply Henv|by apply elem_of_pool|done]. }
  split; [|done]. split; [done|lia| | |by left|].
  - intros g Hg. rewrite (same_env_manages a a') by done. apply Hp. set_solver.
  - rewrite Hfree, Hf, Hpool, size_difference, size_singleton by set_solver.
    assert (size (pool (bitmap a)) ≠ 0%nat); [|lia].
    intros H0%size_empty_inv. set_solver.
  - unfold table_ok in *. rewrite Hpur, Hcov. destruct (purposes a) as [t|]; [|done].
    destruct Ht as [Hlt Ht]. split; [done|]. intros g Hg Hor. apply Ht; [done|].
    rewrite (same_env_manages a a') in Hor by done. destruct Hor as [|Hor]; [by left|].
    rewrite Hb in Hor by lia. destruct (decide (g = f)); [done|by right].
Qed.

(** ** [allocate] *)
Lemma clear_word_bit w :
  in_width 64 w → w ≠ umax 64 →
  0 ≤ trailing_zeros 64 (not_w 64 w) < 64 ∧
  Z.testbit w (trailing_zeros 64 (not_w 64 w)) = false.
Proof.
  intros Hw Hne. destruct (not_umax_clear_bit 64 w) as (i & Hi & Hb); [lia|done..|].
  destruct (trailing_zeros_spec 64 (not_w 64 w) i) as [Hr Ht]; [done| |].
  { rewrite testbit_not_w, Hb; done. }
  split; [done|]. rewrite testbit_not_w in Ht by done. by apply negb_true_iff.
Qed.

(** What a search that takes a frame did. *)
Record taken (a : BitmapFrameAllocator) (f : Z) (a' : BitmapFrameAllocator) : Prop := {
  taken_pool : f ∈ pool (bitmap a);
  taken_env : same_env a a';
  taken_table : purposes a' = purposes a;
  taken_words : words_ok (bitmap a');
  taken_bits : ∀ g, 0 ≤ g →
    isset (bitmap a') g = if decide (g = f) then true else isset (bitmap a) g;
  taken_free : free a' = free a - 1;
  taken_next : (next_word a' < length (bitmap a'))%nat
}.

Lemma search_spec a offsets :
  words_ok (bitmap a) → bitmap a ≠ [] →
  (search a offsets = Ok (None, a) ∧
   ∀ o, o ∈ offsets → bitmap a !! ((next_word a + o) mod length (bitmap a))%nat = Some (umax 64))
  ∨ (∃ f a', search a offsets = Ok (Some (frame_of f), a') ∧ taken a f a').
Proof.
  intros Hok Hne. induction offsets as [|o offsets IH]; simpl; [left; set_solver|].
  set (i := ((next_word a + o) mod length (bitmap a))%nat).
  assert (i < length (bitmap a))%nat as Hi.
  { apply Nat.mod_upper_bound. by destruct (bitmap a). }
  destruct (lookup_lt_is_Some_2 _ _ Hi) as [w Hw]. rewrite Hw; simpl.
  destruct (Z.eqb_spec w (umax 64)) as [->|Hfull].
  { destruct IH as [[-> IH]|IH]; [left|by right]. split; [done|]. set_solver. }
  right. assert (in_width 64 w) as Hww by (eapply Forall_lookup_1 in Hok; done).
  destruct (clear_word_bit w Hww Hfull) as [Hr Hclear].
  set (b := trailing_zeros 64 (not_w 64 w)) in *.
  set (f := Z.of_nat i * 64 + b).
  assert (f / 64 = Z.of_nat i ∧ f mod 64 = b) as [Hdiv Hmod].
  { unfold f. rewrite Z.add_comm, Z.div_add, Z.div_small, Z.mod_add, Z.mod_small; lia. }
  assert (Z.to_nat (f / 64) = i) as Hidx by lia.
  eexists f, _. split; [done|]. split; simpl.
  - apply elem_of_pool. unfold cov, isset. rewrite Hidx, Hw, Hmod. split; [lia|done].
  - unfold same_env; simpl. by rewrite length_insert.
  - done.
  - apply Forall_insert; [done|]. apply lor_in_width; [lia|done|by apply shiftl_1_in_width].
  - intros g Hg. rewrite isset_insert by done.
    destruct (decide (i = Z.to_nat (g / 64))) as [He|He].
    + rewrite Z.lor_spec, testbit_shiftl_1 by lia.
      destruct (decide (g = f)) as [->|Hgf].
      { rewrite Hmod, bool_decide_eq_true_2 by done. apply orb_true_r. }
      rewrite bool_decide_eq_false_2, orb_false_r.
      * unfold isset. by rewrite <-He, Hw.
      * intros Hgm. apply Hgf, same_word; lia.
    + destruct (decide (g = f)) as [->|]; [lia|done].
  - done.
  - by rewrite length_insert.
Qed.

(** The offsets of the search reach every word. *)
Lemma offsets_reach n k i : (i < n → ∃ o, o < n ∧ (k + o) mod n = i)%nat.
Proof.
  intros Hi. exists ((i + (n - k mod n)) mod n)%nat.
  pose proof (Nat.mod_upper_bound k n ltac:(lia)).
  split; [apply Nat.mod_upper_bound; lia|].
  rewrite Nat.Div0.add_mod_idemp_r.
  rewrite (Nat.div_mod_eq k n) at 1.
  replace (n * (k / n) + k mod n + (i + (n - k mod n)))%nat with (i + (k / n + 1) * n)%nat by nia.
  rewrite Nat.Div0.mod_add. by apply Nat.mod_small.
Qed.

Lemma allocate_spec a :
  inv a →
  ∃ got a', allocate a = Ok (got, a') ∧ inv a' ∧
    match got with
    | None => pool (bitmap a) = ∅ ∧ a' = a
    | Some fr => ∃ f, fr = frame_of f ∧ taken a f a' ∧
        pool (bitmap a') = pool (bitmap a) ∖ {[f]}
    end.
Proof.
  intros Hinv. unfold allocate. destruct (Z.eqb_spec (free a) 0) as [H0|H0].
  { eexists _, a. split; [done|]. split; [done|]. split; [|done].
    rewrite (inv_free a) in H0 by done. apply leibniz_equiv, size_empty_inv. lia. }
  assert (pool (bitmap a) ≠ ∅) as Hne.
  { intros He. apply H0. by rewrite (inv_free a), He. }
  apply set_choose_L in Hne as [f Hf].
  pose proof Hf as [Hfr Hfb]%elem_of_pool. pose proof (word_index _ _ Hfr) as Hidx.
  destruct (search_spec a (seq 0 (length (bitmap a)))) as [[_ Hfull]|(g & a' & -> & Ht)].
  - apply Hinv.
  - intros Hnil. unfold cov in Hfr. rewrite Hnil in Hfr. simpl in Hfr. lia.
  - destruct (offsets_reach _ (next_word a) _ Hidx) as (o & Ho & Hoi).
    specialize (Hfull o). rewrite Hoi in Hfull. unfold isset in Hfb.
    rewrite Hfull in Hfb by (apply elem_of_seq; lia). simpl in Hfb.
    rewrite umax_testbit in Hfb; [done|]. apply Z.mod_pos_bound. lia.
  - destruct Ht. destruct (inv_take a a' g) as [Hinv' Hpool]; [done..|].
    eexists _, a'. split; [done|]. split; [done|]. exists g. split_and!; done.
Qed.

(** ** Purposes *)
Lemma set_purpose_env a fr p :
  same_env a (set_purpose a fr p) ∧ bitmap (set_purpose a fr p) = bitmap a ∧
  free (set_purpose a fr p) = free a ∧ next_word (set_purpose a fr p) = next_word a.
Proof. unfold set_purpose, same_env. destruct (purposes a); done. Qed.

Lemma set_purpose_table a fr p :
  purposes (set_purpose a fr p) =
    (λ t, <[Z.to_nat (Frame.number fr) := default 0 (purpose_as_u8 <$> p)]> t) <$> purposes a.
Proof. unfold set_purpose. by destruct (purposes a) eqn:E. Qed.

(** Recording a purpose for a frame that is out of the pool, or erasing the
    purpose of any frame, keeps the table consistent. *)
Lemma inv_set_purpose a fr p :
  inv a → Frame.valid fr →
  p = None ∨ (manages a fr = true ∧ isset (bitmap a) (Frame.number fr) = true) →
  inv (set_purpose a fr p).
Proof.
  intros [Hw Hs Hp Hf Hn Ht] Hfr Hcase.
  destruct (set_purpose_env a fr p) as (Henv & Hbm & Hfree & Hnext).
  split; rewrite ?Hbm, ?Hfree, ?Hnext; [done..| | |done|].
  - intros f Hin. rewrite (same_env_manages a) by done. by apply Hp.
  - done.
  - unfold table_ok in *. rewrite set_purpose_table, Hbm.
    destruct (purposes a) as [t|]; simpl; [|done].
    destruct Ht as [Hlt Ht]. split; [by rewrite length_insert|].
    intros f Hfr' Hor. rewrite (same_env_manages a) in Hor by done.
    assert (0 ≤ Frame.number fr) by (apply Z.div_pos; [apply Hfr|unfold FRAME_SIZE; lia]).
    destruct (decide (f = Frame.number fr)) as [->|Hne].
    + destruct Hcase as [->|[Hm Hb]].
      * apply list_lookup_insert_eq. lia.
      * fold (frame_of (Frame.number fr)) in Hor. rewrite frame_of_number in Hor by done.
        destruct Hor; congruence.
    + rewrite list_lookup_insert_ne by lia. by apply Ht.
Qed.

Lemma allocate_for_spec a p :
  inv a →
  ∃ got a', allocate_for a p = Ok (got, a') ∧ inv a' ∧ same_env a a' ∧
    match got with
    | None => pool (bitmap a) = ∅ ∧ a' = a
    | Some fr => Frame.valid fr ∧ manages a fr = true ∧
        Frame.number fr ∈ pool (bitmap a) ∧
        pool (bitmap a') = pool (bitmap a) ∖ {[Frame.number fr]} ∧
        (is_Some (purposes a) → purpose_of a' fr = Some p)
    end.
Proof.
  intros Hinv. unfold allocate_for.
  destruct (allocate_spec a Hinv) as (got & a1 & -> & Hinv1 & Hgot). simpl.
  destruct got as [fr|].
  2:{ destruct Hgot as [Hp ->]. exists None, a. done. }
  destruct Hgot as (f & -> & [Hin Henv Htab Hw Hb Hfree Hnext] & Hpool).
  pose proof Hin as [Hr _]%elem_of_pool.
  pose proof (frame_of_valid _ f (inv_small a Hinv) Hr) as Hvalid.
  assert (manages a (frame_of f) = true) as Hm by by apply Hinv.
  destruct (set_purpose_env a1 (frame_of f) (Some p)) as (Henv2 & Hbm2 & _).
  eexists (Some _), _. split; [done|]. rewrite Hbm2, number_frame_of.
  split_and!; [| |done|done|done|done|].
  - apply inv_set_purpose; [done..|right]. rewrite number_frame_of. split.
    + by rewrite (same_env_manages a a1).
    + rewrite Hb by lia. by destruct (decide (f = f)).
  - destruct Henv as (?&?&?), Henv2 as (?&?&?). unfold same_env. split_and!; congruence.
  - intros [t Ht]. unfold purpose_of, set_purpose. rewrite Htab, Ht; simpl.
    rewrite number_frame_of.
    assert (Z.to_nat (cov (bitmap a)) ≤ length t)%nat.
    { pose proof (inv_table a Hinv) as Htb. unfold table_ok in Htb. rewrite Ht in Htb. apply Htb. }
    rewrite list_lookup_insert_eq by lia. simpl. by destruct p.
Qed.

(** ** Giving back *)
Lemma deallocate_unchecked_spec a fr :
  inv a → Frame.valid fr →
  let n := Frame.number fr in
  if negb (manages a fr) then deallocate_unchecked a fr = Err NotManaged
  else if bool_decide (n ∈ pool (bitmap a)) then deallocate_unchecked a fr = Err NotAllocated
  else ∃ a', deallocate_unchecked a fr = Ok a' ∧ inv a' ∧ same_env a a' ∧
       pool (bitmap a') = {[n]} ∪ pool (bitmap a) ∧
       (is_Some (purposes a) → purpose_of a' fr = None) ∧
       (is_Some (purposes a) ↔ is_Some (purposes a')).
Proof.
  intros Hinv Hfr n. unfold deallocate_unchecked.
  destruct (manages a fr) eqn:Hm; simpl; [|done].
  pose proof (manages_bounds a fr Hfr Hm) as Hr. fold n in Hr.
  rewrite bit_ok by (fold n; lia). simpl. fold n.
  destruct (isset (bitmap a) n) eqn:Hb; simpl.
  2:{ rewrite bool_decide_eq_true_2; [done|]. apply elem_of_pool. split; [lia|done]. }
  rewrite bool_decide_eq_false_2.
  2:{ intros [_ Hc]%elem_of_pool. congruence. }
  destruct (set_bit_ok (E:=DeallocError) (bitmap a) n false) as (bm & -> & Hlen & Hok & Hbits);
    [lia|apply Hinv|]. simpl.
  set (a1 := with_bitmap a bm).
  assert (pool bm = {[n]} ∪ pool (bitmap a)) as Hpool by (apply pool_clear; [done|lia|done]).
  destruct (set_purpose_env a1 fr None) as (Henv2 & Hbm2 & Hf2 & Hn2).
  assert (∀ k, same_env a (with_free (set_purpose a1 fr None) k)) as Henv.
  { intros k. destruct Henv2 as (E1 & E2 & E3). unfold same_env; simpl.
    rewrite E1, E2, E3. done. }
  eexists; split; [done|]. simpl. rewrite Hbm2, Hf2. simpl.
  destruct Hinv as [Hw Hs Hp Hf Hnx Ht].
  split_and!.
  - split; simpl; rewrite ?Hbm2, ?Hf2, ?Hn2; simpl; [done| | | | |].
    + unfold cov in *. by rewrite Hlen.
    + intros g Hg. rewrite (same_env_manages a) by done.
      rewrite Hpool in Hg. apply elem_of_union in Hg as [->%elem_of_singleton|Hg]; [|by apply Hp].
      fold (frame_of n). unfold n. by rewrite frame_of_number.
    + rewrite Hpool, size_union, size_singleton, Hf; [lia|].
      intros g ->%elem_of_singleton [_ Hg]%elem_of_pool. congruence.
    + destruct Hnx as [|Hnil]; [left; congruence|].
      destruct bm; [by right|]. by rewrite Hnil in Hlen.
    + unfold table_ok in *. simpl. rewrite set_purpose_table, Hbm2. simpl.
      destruct (purposes a) as [t|]; simpl; [|done].
      destruct Ht as [Hlt Ht]. unfold cov in *. rewrite Hlen.
      split; [by rewrite length_insert|]. intros g Hg Hor. fold n.
      rewrite (same_env_manages a) in Hor by done.
      destruct (decide (g = n)) as [->|Hne]; [apply list_lookup_insert_eq; lia|].
      rewrite list_lookup_insert_ne by lia. apply Ht; [done|].
      rewrite Hbits in Hor by lia. destruct (decide (g = n)); [done|exact Hor].
  - apply Henv.
  - done.
  - intros [t Et]. unfold purpose_of, set_purpose; simpl. rewrite Et; simpl. fold n.
    unfold table_ok in Ht. rewrite Et in Ht. rewrite list_lookup_insert_eq by lia. done.
  - simpl. rewrite set_purpose_table. simpl. rewrite fmap_is_Some. done.
Qed.

(** ** Reclaiming boot-services memory *)

Lemma existsb_elem {A} (p : A → bool) l : existsb p l = true ↔ ∃ x, x ∈ l ∧ p x = true.
Proof. rewrite existsb_exists. by setoid_rewrite list_elem_of_In. Qed.

Lemma mapped_true reclaimed m f :
  mapped reclaimed m f = true ↔
    (∃ r, r ∈ Map.iter m ∧ allocatable reclaimed (kind r) = true ∧
       contains f (inward_frames r) = true) ∧
    (∀ r, r ∈ Map.iter m → contains f (outward_frames r) = true →
       allocatable reclaimed (kind r) = true).
Proof.
  unfold mapped. rewrite andb_true_iff, negb_true_iff, <-not_true_iff_false, !existsb_elem.
  split.
  - intros [(r & Hr & [Ha Hc]%andb_prop) H2]. split; [by exists r|].
    intros r' Hr' Hc'. destruct (allocatable reclaimed (kind r')) eqn:E; [done|].
    destruct H2. exists r'. by rewrite E, Hc'.
  - intros [(r & Hr & Ha & Hc) H2]. split; [exists r; by rewrite Ha, Hc|].
    intros (r' & Hr' & [Hn Hc']%andb_prop). by rewrite (H2 r' Hr' Hc') in Hn.
Qed.

Lemma allocatable_mono k : allocatable false k = true → allocatable true k = true.
Proof. unfold allocatable. rewrite andb_false_l, orb_false_r. by intros ->. Qed.

Lemma mapped_mono m f : mapped false m f = true → mapped true m f = true.
Proof.
  rewrite !mapped_true. intros [(r & Hr & Ha & Hc) Hout].
  split; [|by auto using allocatable_mono]. eauto using allocatable_mono.
Qed.

Lemma inward_in_outward f r :
  contains f (inward_frames r) = true → contains f (outward_frames r) = true.
Proof.
  unfold contains, inward_frames, outward_frames; simpl.
  rewrite !andb_true_iff, !Z.leb_le, !Z.ltb_lt, div_ceil_spec, lt_div_ceil, lt_div, div_le
    by (unfold FRAME_SIZE; lia). unfold FRAME_SIZE. lia.
Qed.

Lemma is_held_ok {E} a f :
  0 ≤ f < cov (bitmap a) →
  is_held (E:=E) a (frame_of f) = Ok (manages a (frame_of f) && isset (bitmap a) f).
Proof.
  intros Hf. unfold is_held. rewrite number_frame_of, bit_ok by done.
  by destruct (manages a (frame_of f)).
Qed.

(** The frames the loop of [reclaim_boot_services] visits. *)
Definition boot_frames (a : BitmapFrameAllocator) : list Z :=
  concat ((λ r, seqZ (inward_frames r).1
                  (Z.min (inward_frames r).2 (cov (bitmap a)) - (inward_frames r).1))
          <$> filter (λ r, kind r = BootServices) (Map.iter (map a))).

Lemma elem_of_boot_frames a f :
  f ∈ boot_frames a ↔ f < cov (bitmap a) ∧
    ∃ r, r ∈ Map.iter (map a) ∧ kind r = BootServices ∧ contains f (inward_frames r) = true.
Proof.
  unfold boot_frames. rewrite elem_of_concat. setoid_rewrite list_elem_of_fmap.
  setoid_rewrite list_elem_of_filter. split.
  - intros (l & (r & -> & Hk & Hr) & Hf). apply contains_range in Hf. naive_solver.
  - intros [Hf (r & Hr & Hk & Hc)]. eexists. split; [by exists r|].
    by apply contains_range.
Qed.

Lemma boot_frames_bounds a f :
  map_valid (map a) → f ∈ boot_frames a → 0 ≤ f < cov (bitmap a).
Proof.
  intros Hm (Hf & r & Hr & _ & Hc)%elem_of_boot_frames. split; [|done].
  unfold map_valid in Hm. rewrite Forall_forall in Hm.
  pose proof (inward_first_nonneg r (Hm r Hr)).
  unfold contains in Hc. apply andb_prop in Hc as [?%Z.leb_le _]. lia.
Qed.

(** The state of the loop after visiting [pre]. *)
Record reclaiming (a0 : BitmapFrameAllocator) (pre : list Z)
    (st : Z * BitmapFrameAllocator) : Prop := {
  rc_env : same_env a0 st.2;
  rc_table : purposes st.2 = purposes a0;
  rc_free : free st.2 = free a0;
  rc_next : next_word st.2 = next_word a0;
  rc_words : words_ok (bitmap st.2);
  rc_bits : ∀ f, 0 ≤ f → isset (bitmap st.2) f = false ↔
    isset (bitmap a0) f = false ∨ f ∈ pre ∧ manages a0 (frame_of f) = true;
  rc_added : st.1 = Z.of_nat (size (pool (bitmap st.2))) - Z.of_nat (size (pool (bitmap a0)))
}.

Lemma reclaim_step a0 pre f added a :
  0 ≤ f < cov (bitmap a0) → reclaiming a0 pre (added, a) →
  ∃ st', reclaim_frame (E:=Empty_set) (added, a) f = Ok st' ∧ reclaiming a0 (pre ++ [f]) st'.
Proof.
  intros Hf [Henv Htab Hfree Hnext Hw Hb Hadd]; simpl in *.
  assert (cov (bitmap a) = cov (bitmap a0)) as Hcov by by apply same_env_cov.
  unfold reclaim_frame. fold (frame_of f).
  rewrite is_held_ok by lia. rewrite (same_env_manages a0 a) by done. simpl.
  destruct (manages a0 (frame_of f)) eqn:Hm; simpl.
  2:{ eexists; split; [done|]. split; simpl; [done..| |done].
      intros g Hg. rewrite Hb by done. rewrite elem_of_app, list_elem_of_singleton.
      naive_solver congruence. }
  destruct (isset (bitmap a) f) eqn:Hs; simpl.
  2:{ eexists; split; [done|]. split; simpl; [done..| |done].
      intros g Hg. rewrite Hb by done. rewrite elem_of_app, list_elem_of_singleton.
      apply Hb in Hs; [|lia]. naive_solver. }
  destruct (set_bit_ok (E:=Empty_set) (bitmap a) f false) as (bm & -> & Hlen & Hok & Hbits);
    [lia|done|]. simpl.
  eexists; split; [done|]. split; simpl; [|done..| |].
  - destruct Henv as (?&?&?). unfold same_env; simpl. split_and!; congruence.
  - intros g Hg. rewrite Hbits by done. rewrite elem_of_app, list_elem_of_singleton.
    destruct (decide (g = f)) as [->|]; [naive_solver|]. rewrite Hb by done. naive_solver.
  - rewrite (pool_clear (bitmap a) bm f) by (done || lia).
    rewrite size_union, size_singleton; [lia|].
    intros g ->%elem_of_singleton [_ Hg]%elem_of_pool. congruence.
Qed.

Lemma reclaim_loop a :
  words_ok (bitmap a) → map_valid (map a) →
  ∃ st, foldM (reclaim_region (E:=Empty_set) (covered_frames a)) (0, a)
          (filter (λ r, kind r = BootServices) (Map.iter (map a))) = Ok st ∧
    reclaiming a (boot_frames a) st.
Proof.
  intros Hw Hm.
  unfold reclaim_region. rewrite (foldM_concat reclaim_frame
    (λ r, seqZ (inward_frames r).1 (Z.min (inward_frames r).2 (cov (bitmap a)) - (inward_frames r).1))).
  apply (foldM_ind (reclaiming a)).
  - split; simpl; [done..| |lia]. set_solver.
  - intros pre f post [added a'] Hl Hst. apply reclaim_step; [|done].
    apply boot_frames_bounds; [done|]. fold (boot_frames a) in Hl. rewrite Hl.
    apply elem_of_app. right. left.
Qed.

Lemma reclaim_spec a :
  inv a → map_valid (map a) → boot_services_reclaimed a = false →
  ∃ added a', reclaim_boot_services a = Ok (added, a') ∧ inv a' ∧
    boot_services_reclaimed a' = true ∧ map a' = map a ∧ purposes a' = purposes a ∧
    length (bitmap a') = length (bitmap a) ∧
    added = Z.of_nat (size (pool (bitmap a'))) - Z.of_nat (size (pool (bitmap a))) ∧
    (∀ f, f ∈ pool (bitmap a') ↔ f ∈ pool (bitmap a) ∨
      f ∈ boot_frames a ∧ f ≠ 0 ∧ mapped true (map a) f = true).
Proof.
  intros Hinv Hm Hrec. unfold reclaim_boot_services. rewrite Hrec.
  set (a1 := with_reclaimed a true).
  destruct (reclaim_loop a1) as ([added a2] & -> & [Henv Htab Hfree Hnext Hw Hb Hadd]);
    [apply Hinv|done|]. simpl in *.
  destruct Hinv as [Hw0 Hs Hp Hf Hn Ht].
  assert (cov (bitmap a2) = cov (bitmap a)) as Hcov by exact (same_env_cov _ _ Henv).
  destruct Henv as (Hlen & Hmap & Hr2). simpl in *.
  assert (∀ f, manages (with_free a2 (free a2 + added)) (frame_of f) = manages a1 (frame_of f)) as Hme.
  { intros f. apply manages_ext; done. }
  assert (∀ f, manages a (frame_of f) = true → manages a1 (frame_of f) = true) as Hmono.
  { intros f. unfold frame_of. rewrite !manages_mapped; simpl. rewrite Hrec.
    intros [H1 H2%mapped_mono]%andb_prop. by rewrite H1, H2. }
  assert (∀ f, f ∈ pool (bitmap a2) ↔ f ∈ pool (bitmap a) ∨
      f ∈ boot_frames a1 ∧ f ≠ 0 ∧ mapped true (map a) f = true) as Hpool.
  { intros f. rewrite !elem_of_pool, Hcov. split.
    - intros [Hr [|[Hin Hman]]%Hb]; [by left|right|lia]. split; [done|].
      unfold frame_of in Hman. rewrite manages_mapped in Hman. simpl in Hman.
      apply andb_prop in Hman as [[H1%negb_true_iff%Z.eqb_neq _]%andb_prop H2]. done.
    - intros [[Hr H]|(Hin & Hne & Hmm)].
      + split; [done|]. apply Hb; [lia|by left].
      + pose proof (boot_frames_bounds a1 f Hm Hin) as Hr. simpl in Hr. split; [done|].
        apply Hb; [lia|]. right. split; [done|]. unfold frame_of. rewrite manages_mapped; simpl.
        rewrite Hmm. destruct (Z.eqb_spec f 0); [done|]. by destruct (Z.ltb_spec f (cov (bitmap a))); [|lia]. }
  eexists _, _. split; [done|]. simpl. split_and!; [|done..|exact Hpool].
  split; simpl; [done|lia| | | |].
  - intros f Hin. fold (frame_of f). rewrite Hme. apply Hpool in Hin as [Hin|(Hin & Hne & Hmm)].
    + by apply Hmono, Hp.
    + pose proof (boot_frames_bounds a1 f Hm Hin) as Hr. simpl in Hr.
      unfold frame_of. rewrite manages_mapped; simpl. rewrite Hmm.
      destruct (Z.eqb_spec f 0); [done|]. by destruct (Z.ltb_spec f (cov (bitmap a))); [|lia].
  - rewrite Hadd, Hfree, Hf. lia.
  - rewrite Hnext, Hlen. destruct Hn as [|Hnil]; [by left|right].
    destruct (bitmap a2); [done|]. by rewrite Hnil in Hlen.
  - unfold table_ok in *. simpl. rewrite Htab, Hcov. destruct (purposes a) as [t|]; [|done].
    destruct Ht as [Hlt Ht]. split; [done|]. intros f Hr Hor. apply Ht; [done|].
    fold (frame_of f) in *. rewrite Hme in Hor.
    destruct (manages a (frame_of f)) eqn:Hma; [|by left]. right.
    destruct Hor as [Hc|Hor]; [by rewrite (Hmono f Hma) in Hc|].
    apply Hb in Hor as [|[Hin _]]; [done| |lia].
    exfalso. apply elem_of_boot_frames in Hin as (_ & r & Hrin & Hk & Hc).
    unfold frame_of in Hma. rewrite manages_mapped, Hrec in Hma.
    apply andb_prop in Hma as [_ [_ Hma]%mapped_true].
    specialize (Hma r Hrin (inward_in_outward f r Hc)). by rewrite Hk in Hma.
Qed.

(** ** [deallocate_as], [label], and moving the bookkeeping *)
Lemma deallocate_as_spec a fr p :
  inv a → Frame.valid fr →
  let n := Frame.number fr in
  match deallocate_as a fr p with
  | Ok a' => manages a fr = true ∧ n ∉ pool (bitmap a) ∧
      (is_Some (purposes a) → purpose_of a fr = Some p ∧ purpose_of a' fr = None) ∧
      inv a' ∧ same_env a a' ∧ pool (bitmap a') = {[n]} ∪ pool (bitmap a) ∧
      free a' = free a + 1
  | Err NotManaged => manages a fr = false
  | Err NotAllocated => manages a fr = true ∧ n ∈ pool (bitmap a)
  | Err (WrongPurpose e actual) => e = p ∧ actual = purpose_of a fr ∧
      is_Some (purposes a) ∧ actual ≠ Some p
  | _ => False
  end.
Proof.
  intros Hinv Hfr n. unfold deallocate_as.
  destruct (bool_decide (is_Some (purposes a)) && negb (bool_decide (purpose_of a fr = Some p)))
    eqn:Hc.
  { apply andb_prop in Hc as [?%bool_decide_eq_true ?%negb_true_iff%bool_decide_eq_false]. done. }
  assert (is_Some (purposes a) → purpose_of a fr = Some p) as Hp.
  { intros Hs. rewrite bool_decide_eq_true_2 in Hc by done. simpl in Hc.
    by apply negb_false_iff, bool_decide_eq_true in Hc. }
  pose proof (deallocate_unchecked_spec a fr Hinv Hfr) as H. cbv zeta in H. fold n in H.
  destruct (manages a fr) eqn:Hm; simpl in H; [|by rewrite H].
  case_bool_decide as Hin; [by rewrite H|].
  destruct H as (a' & -> & Hinv' & Henv & Hpool & Hpur & _).
  split_and!; try done; [naive_solver..|].
  rewrite (inv_free a'), (inv_free a), Hpool, size_union, size_singleton by (done || set_solver).
  lia.
Qed.

Lemma label_spec a fr p :
  inv a → Frame.valid fr →
  ∃ held a', label a fr p = Ok (held, a') ∧ inv a' ∧ same_env a a' ∧ bitmap a' = bitmap a ∧
    held = manages a fr && bool_decide (Frame.number fr ∉ pool (bitmap a)) ∧
    (held = false → a' = a).
Proof.
  intros Hinv Hfr. unfold label.
  assert (is_held (E:=Empty_set) a fr =
    Ok (manages a fr && bool_decide (Frame.number fr ∉ pool (bitmap a)))) as ->.
  { unfold is_held. destruct (manages a fr) eqn:Hm; [|done].
    pose proof (manages_bounds a fr Hfr Hm) as Hb. rewrite bit_ok by lia. simpl. f_equal.
    destruct (isset (bitmap a) (Frame.number fr)) eqn:Hs; symmetry.
    - apply bool_decide_eq_true. rewrite elem_of_pool. intros [_ ?]; congruence.
    - apply bool_decide_eq_false. rewrite elem_of_pool. intros Hn. apply Hn. split; [lia|done]. }
  simpl. set (held := manages a fr && _).
  destruct (set_purpose_env a fr (Some p)) as (Henv & Hbm & _).
  destruct held eqn:Hh; eexists _, _; (split; [done|]); split_and!; try done.
  apply inv_set_purpose; [done..|right]. unfold held in Hh.
  apply andb_prop in Hh as [Hm Hn%bool_decide_eq_true]. split; [done|].
  pose proof (manages_bounds a fr Hfr Hm). rewrite elem_of_pool in Hn.
  destruct (isset (bitmap a) (Frame.number fr)) eqn:E; [done|]. destruct Hn. split; [lia|done].
Qed.

Lemma adopt_inv a :
  inv a → inv (adopt (bitmap a) (map a) (boot_services_reclaimed a)).
Proof.
  intros [Hw Hs Hp Hf Hn Ht]. split; simpl; [done..| | | |].
  - intros f Hin. rewrite <-(Hp f Hin). apply manages_ext; done.
  - apply count_free_pool.
  - destruct (bitmap a); [by right|left; simpl; lia].
  - done.
Qed.

Lemma with_purposes_spec a table :
  inv a → (Z.to_nat (cov (bitmap a)) ≤ length table)%nat →
  ∃ table', with_purposes a table = Ok (with_table a (Some table')) ∧
    inv (with_table a (Some table')) ∧ length table' = length table ∧
    ∀ f, 0 ≤ f < cov (bitmap a) → table' !! Z.to_nat f =
      Some (if manages a (frame_of f) && isset (bitmap a) f then 1 else 0).
Proof.
  intros Hinv Hlen. unfold with_purposes. change (covered_frames a) with (cov (bitmap a)).
  destruct (Nat.leb_spec (Z.to_nat (cov (bitmap a))) (length table)); [simpl|lia].
  assert (0 ≤ cov (bitmap a)) by (unfold cov; lia). rewrite Z2Nat.id by done.
  destruct (foldM_ind (E:=Empty_set) (λ pre t, length t = length table ∧ ∀ f, f ∈ pre →
      t !! Z.to_nat f = Some (if manages a (frame_of f) && isset (bitmap a) f then 1 else 0))
    (record_boot a) (seqZ 0 (cov (bitmap a))) table) as (table' & -> & Hl & Ht).
  { split; [done|set_solver]. }
  { intros pre f post t Heq [Hl Ht].
    assert (0 ≤ f < cov (bitmap a)) as Hf.
    { assert (f ∈ seqZ 0 (cov (bitmap a))) as ?%in_seqZ; [|lia].
      rewrite Heq. apply elem_of_app. right. left. }
    unfold record_boot. fold (frame_of f). rewrite is_held_ok by done. simpl.
    eexists; split; [done|]. split; [by rewrite length_insert|]. intros g Hg.
    destruct (decide (g = f)) as [->|Hne]; [rewrite list_lookup_insert_eq; [done|lia]|].
    assert (g ∈ pre) as Hgp by set_solver.
    assert (0 ≤ g) by (assert (g ∈ seqZ 0 (cov (bitmap a))) as ?%in_seqZ by (rewrite Heq; set_solver); lia).
    rewrite list_lookup_insert_ne by lia. by apply Ht. }
  simpl. exists table'. split; [done|].
  assert (∀ f, 0 ≤ f < cov (bitmap a) → table' !! Z.to_nat f =
      Some (if manages a (frame_of f) && isset (bitmap a) f then 1 else 0)) as Htab.
  { intros f Hf. apply Ht, in_seqZ. lia. }
  split_and!; [|done..]. destruct Hinv as [Hw Hs Hp Hf Hn _]. split; simpl; [done..| | | |].
  - intros f Hin. rewrite (same_env_manages a) by done. by apply Hp.
  - done.
  - done.
  - unfold table_ok; simpl. split; [lia|]. intros f Hfr Hor. rewrite Htab by done.
    rewrite (same_env_manages a) in Hor by done. unfold frame_of.
    destruct Hor as [-> | ->]; [done|by rewrite andb_false_r].
Qed.

Lemma new_inv storage m a :
  map_valid m → Z.of_nat (length storage) * 64 ≤ 2 ^ 52 → new storage m = Ok a → inv a.
Proof.
  intros Hm Hs E.
  destruct (new_spec storage m Hm) as (a' & E' & Hlen & Hmap & Hrec & Hpur & Hnext & Hw & Hf & Hb).
  rewrite E in E'. injection E' as <-. split; [done| | |done| |].
  - unfold cov. by rewrite Hlen.
  - intros f [Hr Hs0]%elem_of_pool. rewrite Hb in Hs0 by done. by apply negb_false_iff in Hs0.
  - destruct (bitmap a) eqn:Eb; [by right|left]. rewrite Hnext. simpl; lia.
  - unfold table_ok. by rewrite Hpur.
Qed.
