(* ===== verification/FrameAllocThms.v ===== *)
(** * The frame allocator: what it promises

    Whole sequences of operations ([run]) and the properties of
    [kernel/src/memory/frame_allocator.rs], each with an instance on the
    memory map of [example_map]. *)

From S2P Require Import Prelude Words PhysMem FrameAlloc FrameAllocProofs.
Local Open Scope Z_scope.

(** ** Sequences of operations

    The allocator together with the frames its clients hold, newest first. *)
Inductive frame_op :=
| OpAllocate (p : FramePurpose)
| OpDeallocate (fr : PhysFrame) (p : FramePurpose)
| OpLabel (fr : PhysFrame) (p : FramePurpose)
| OpReclaim
| OpMove.

Definition client := (BitmapFrameAllocator * list Z)%type.

Definition run_op (st : client) (op : frame_op) : may client :=
  let '(a, held) := st in
  match op with
  | OpAllocate p =>
      '(got, a') ← allocate_for a p;
      Ok (a', match got with Some fr => Frame.number fr :: held | None => held end)
  | OpDeallocate fr p =>
      match deallocate_as a fr p with
      | Ok a' => Ok (a', filter (λ f, f ≠ Frame.number fr) held)
      | Err _ => Ok (a, held)
      | Panic => Panic
      | Diverge => Diverge
      end
  | OpLabel fr p => '(_, a') ← label a fr p; Ok (a', held)
  | OpReclaim => '(_, a') ← reclaim_boot_services a; Ok (a', held)
  | OpMove => a' ← move_off_firmware_memory a (map a); Ok (a', held)
  end.

(** The frames the clients pass are frames, and the bookkeeping is only
    moved when it has the size the kernel gives it. *)
Definition op_valid (n : nat) (op : frame_op) : Prop :=
  match op with
  | OpDeallocate fr _ | OpLabel fr _ => Frame.valid fr
  | OpMove => n = FRAME_BITMAP_WORDS
  | _ => True
  end.

(** What holds between any two operations. *)
Record consistent (n : nat) (st : client) : Prop := {
  co_inv : inv st.1;
  co_map : map_valid (map st.1);
  co_len : length (bitmap st.1) = n;
  co_nodup : NoDup st.2;
  co_held : ∀ f, f ∈ st.2 → manages st.1 (frame_of f) = true ∧ f ∉ pool (bitmap st.1)
}.

Lemma held_range n st f : consistent n st → f ∈ st.2 → 0 < f < cov (bitmap st.1).
Proof.
  intros Hc Hf. destruct (co_held _ _ Hc f Hf) as [Hm _].
  unfold frame_of in Hm. rewrite manages_mapped in Hm.
  apply andb_prop in Hm as [[H1%negb_true_iff%Z.eqb_neq H2%Z.ltb_lt]%andb_prop [Hi _]%mapped_true].
  destruct Hi as (r & Hr & _ & Hcn). split; [|done].
  pose proof (co_map _ _ Hc) as Hmv. unfold map_valid in Hmv. rewrite Forall_forall in Hmv.
  pose proof (inward_first_nonneg r (Hmv r Hr)).
  unfold contains in Hcn. apply andb_prop in Hcn as [?%Z.leb_le _]. lia.
Qed.

Lemma move_spec a :
  inv a → length (bitmap a) = FRAME_BITMAP_WORDS →
  ∃ a', move_off_firmware_memory a (map a) = Ok a' ∧ inv a' ∧ same_env a a' ∧
    bitmap a' = bitmap a ∧ free a' = free a ∧
    ∀ fr, Frame.valid fr → purpose_of a' fr =
      if manages a fr && isset (bitmap a) (Frame.number fr) then Some Boot else None.
Proof.
  intros Hinv Hlen. unfold move_off_firmware_memory. rewrite Hlen. cbn [assert_ Nat.eqb mbind res_bind].
  set (a0 := adopt (bitmap a) (map a) (boot_services_reclaimed a)).
  destruct (with_purposes_spec a0 (replicate (FRAME_BITMAP_WORDS * 64) 0)) as (t & Ht & Hi & Hlent & Htab).
  { by apply adopt_inv. }
  { rewrite length_replicate. unfold cov, a0; simpl bitmap. rewrite Hlen. unfold FRAME_BITMAP_WORDS. lia. }
  change (assert_ (E:=Empty_set) (FRAME_BITMAP_WORDS =? FRAME_BITMAP_WORDS)%nat) with (@Ok Empty_set () ()).
  cbn [mbind res_bind]. rewrite Ht. eexists; split; [done|]. split_and!; [done..| |].
  { simpl. rewrite count_free_pool. symmetry. apply Hinv. }
  intros fr Hfr. unfold purpose_of; simpl.
  assert (0 ≤ Frame.number fr) by (apply Z.div_pos; [apply Hfr|unfold FRAME_SIZE; lia]).
  assert (manages a0 fr = manages a fr) as Hm by done.
  destruct (decide (Frame.number fr < cov (bitmap a))) as [Hlt|Hge].
  - rewrite Htab by done. rewrite frame_of_number by done. rewrite Hm. simpl.
    by destruct (manages a fr && _).
  - destruct (manages a fr) eqn:E.
    { pose proof (manages_bounds a fr Hfr E). lia. }
    simpl. rewrite (lookup_ge_None_2 t); [done|].
    rewrite Hlent, length_replicate. unfold cov in Hge. rewrite Hlen in Hge. lia.
Qed.

Lemma run_op_consistent n st op :
  consistent n st → op_valid n op → ∃ st', run_op st op = Ok st' ∧ consistent n st'.
Proof.
  destruct st as [a held]. intros Hc Hop. pose proof Hc as [Hinv Hm Hlen Hnd Hh]; simpl in *.
  assert (∀ a' held', inv a' → same_env a a' → NoDup held' →
    (∀ f, f ∈ held' → manages a (frame_of f) = true ∧ f ∉ pool (bitmap a')) →
    consistent n (a', held')) as Hmk.
  { intros a' held' Hi Henv Hnd' Hh'. pose proof Henv as (E1 & E2 & E3). split; simpl; [done| |lia|done|].
    - by rewrite E2.
    - intros f Hf. rewrite (same_env_manages a a') by done. by apply Hh'. }
  destruct op as [p|fr p|fr p| |]; simpl in *.
  - destruct (allocate_for_spec a p Hinv) as (got & a' & -> & Hi & Henv & Hgot). simpl.
    eexists; split; [done|]. destruct got as [fr|].
    + destruct Hgot as (Hv & Hman & Hin & Hpool & _). apply Hmk; [done..| |].
      * apply NoDup_cons. split; [|done]. intros Hf. by apply Hh in Hf as [_ ?].
      * intros f. rewrite Hpool, elem_of_cons. intros [->|Hf].
        { rewrite frame_of_number by done. set_solver. }
        destruct (Hh f Hf). set_solver.
    + destruct Hgot as [_ ->]. by apply Hmk.
  - pose proof (deallocate_as_spec a fr p Hinv Hop) as Hd. cbv zeta in Hd.
    destruct (deallocate_as a fr p) as [a'|e| |]; [|by eauto|done..].
    destruct Hd as (Hman & Hin & _ & Hi & Henv & Hpool & _).
    eexists; split; [done|]. apply Hmk; [done..|by apply NoDup_filter|].
    intros f [Hne Hf]%list_elem_of_filter. rewrite Hpool. destruct (Hh f Hf). set_solver.
  - destruct (label_spec a fr p Hinv Hop) as (b & a' & -> & Hi & Henv & Hbm & _). simpl.
    eexists; split; [done|]. apply Hmk; [done..|]. by rewrite Hbm.
  - destruct (boot_services_reclaimed a) eqn:Hr.
    { unfold reclaim_boot_services. rewrite Hr. simpl. eauto. }
    destruct (reclaim_spec a Hinv Hm Hr) as (added & a' & -> & Hi & Hr' & Hm' & _ & Hl' & _ & Hp).
    simpl. eexists; split; [done|]. split; simpl; [done|by rewrite Hm'|lia|done|].
    intros f Hf. destruct (Hh f Hf) as [Hman Hnp].
    pose proof (held_range _ _ _ Hc Hf) as Hrg. simpl in Hrg.
    unfold frame_of in *. rewrite manages_mapped in *. rewrite Hr', Hm'. rewrite Hr in Hman.
    replace (cov (bitmap a')) with (cov (bitmap a)) by (unfold cov; lia).
    apply andb_prop in Hman as [H1 H2]. rewrite H1, (mapped_mono _ _ H2). split; [done|].
    rewrite Hp. intros [|(Hb & _)]; [done|].
    apply elem_of_boot_frames in Hb as (_ & r & Hrin & Hk & Hcn).
    apply mapped_true in H2 as [_ H2].
    specialize (H2 r Hrin (inward_in_outward f r Hcn)). by rewrite Hk in H2.
  - destruct (move_spec a Hinv) as (a' & -> & Hi & Henv & Hbm & _); [lia|]. simpl.
    eexists; split; [done|]. apply Hmk; [done..|]. by rewrite Hbm.
Qed.

(** ** Frames as ranges of bytes *)

(** Frame [f] lies wholly inside a region, or shares a byte with one. *)
Definition inside (f : Z) (r : MemoryRegion) : Prop :=
  start_phys_addr r ≤ f * FRAME_SIZE ∧ (f + 1) * FRAME_SIZE ≤ region_end r.
Definition touches (f : Z) (r : MemoryRegion) : Prop :=
  start_phys_addr r < (f + 1) * FRAME_SIZE ∧ f * FRAME_SIZE < region_end r.

Lemma contains_inward f r : contains f (inward_frames r) = true ↔ inside f r.
Proof.
  unfold contains, inward_frames, inside; simpl.
  rewrite andb_true_iff, Z.leb_le, Z.ltb_lt, div_ceil_spec, lt_div by (unfold FRAME_SIZE; lia). done.
Qed.

Lemma contains_outward f r : contains f (outward_frames r) = true ↔ touches f r.
Proof.
  unfold contains, outward_frames, touches; simpl.
  rewrite andb_true_iff, Z.leb_le, Z.ltb_lt, lt_div_ceil, div_le by (unfold FRAME_SIZE; lia). done.
Qed.

Definition example_storage : list Z := [0].
Definition example_alloc : BitmapFrameAllocator :=
  match new example_storage example_map with Ok a => a | _ => adopt [] example_map false end.

Lemma example_map_valid : map_valid example_map.
Proof. refine (bool_decide_unpack _ _). vm_compute. exact I. Qed.

Lemma example_new : new example_storage example_map = Ok example_alloc.
Proof. vm_compute. reflexivity. Qed.

Lemma example_inv : inv example_alloc.
Proof.
  apply (new_inv example_storage example_map); [apply example_map_valid|vm_compute; discriminate|].
  apply example_new.
Qed.

(** ** Properties *)

(** C9: building the allocator never panics, whatever the firmware map says,
    and afterwards the free frames are exactly those that lie wholly inside
    a [Usable] region, share no byte with any other region, are covered by
    the storage and are not frame 0; [free_frames] counts them. *)
Theorem frame_new_exact (storage : list Z) (m : Map.MemoryMap) :
  map_valid m →
  ∃ a, new storage m = Ok a ∧
    (∀ f, f ∈ pool (bitmap a) ↔
      0 < f < Z.of_nat (length storage) * BITS_PER_WORD ∧
      (∃ r, r ∈ Map.iter m ∧ kind r = Usable ∧ inside f r) ∧
      (∀ r, r ∈ Map.iter m → kind r ≠ Usable → ¬ touches f r)) ∧
    free_frames a = Z.of_nat (size (pool (bitmap a))).
Proof.
  intros Hm. destruct (new_spec storage m Hm)
    as (a & E & Hlen & Hmap & Hrec & _ & _ & _ & Hf & Hb).
  exists a. split_and!; [done| |done]. intros f.
  assert (cov (bitmap a) = Z.of_nat (length storage) * BITS_PER_WORD) as Hc
    by (unfold cov; by rewrite Hlen).
  rewrite elem_of_pool, Hc. split.
  - intros [Hr Hs]. rewrite Hb in Hs by lia. apply negb_false_iff in Hs.
    rewrite manages_mapped, Hrec, Hmap in Hs.
    apply andb_prop in Hs as [[H1%negb_true_iff%Z.eqb_neq _]%andb_prop [H2 H3]%mapped_true].
    split_and!; [lia|lia| |].
    + destruct H2 as (r & Hr2 & Ha & Hcn%contains_inward). exists r.
      rewrite allocatable_fresh in Ha. by apply bool_decide_eq_true in Ha.
    + intros r Hrin Hk Ht%contains_outward. specialize (H3 r Hrin Ht).
      rewrite allocatable_fresh in H3. by apply bool_decide_eq_true in H3.
  - intros (Hr & (r & Hrin & Hk & Hin) & Hout). split; [lia|]. rewrite Hb by lia.
    apply negb_false_iff. rewrite manages_mapped, Hrec, Hmap, Hc.
    destruct (Z.eqb_spec f 0); [lia|]. destruct (Z.ltb_spec f (Z.of_nat (length storage) * BITS_PER_WORD)); [|lia].
    apply mapped_true. split.
    + exists r. rewrite allocatable_fresh, contains_inward. by rewrite bool_decide_eq_true_2.
    + intros r' Hr' Ht%contains_outward. rewrite allocatable_fresh.
      apply bool_decide_eq_true. destruct (decide (kind r' = Usable)); [done|]. by destruct (Hout r').
Qed.

Lemma frame_new_exact_witness :
  map_valid example_map ∧ ∃ a, new [0] example_map = Ok a ∧ free_frames a = 2.
Proof.
  split; [exact example_map_valid|].
  destruct (frame_new_exact [0] example_map) as (a & E & _ & _); [exact example_map_valid|].
  exists a. split; [exact E|].
  assert (Ok a = Ok (E:=Empty_set) example_alloc) as [= ->] by (rewrite <-E; exact example_new).
  vm_compute. reflexivity.
Defined.

(** C10: [allocate_for] never panics and refines taking an arbitrary element
    out of a set: it answers [None] exactly when the pool is empty (and then
    changes nothing), and otherwise a managed frame of the pool, which leaves
    the pool while every other frame stays as it was and whose purpose is
    recorded when purposes are recorded at all. *)
Theorem frame_allocate_refines (a : BitmapFrameAllocator) (p : FramePurpose) :
  inv a →
  ∃ got a', allocate_for a p = Ok (got, a') ∧ inv a' ∧ same_env a a' ∧
    (got = None ↔ pool (bitmap a) = ∅) ∧
    match got with
    | None => a' = a
    | Some fr => Frame.valid fr ∧ manages a fr = true ∧
        Frame.number fr ∈ pool (bitmap a) ∧
        pool (bitmap a') = pool (bitmap a) ∖ {[Frame.number fr]} ∧
        (is_Some (purposes a) → purpose_of a' fr = Some p)
    end.
Proof.
  intros Hinv. destruct (allocate_for_spec a p Hinv) as (got & a' & E & Hi & Henv & Hg).
  exists got, a'. split_and!; [done..| |].
  - destruct got; naive_solver set_solver.
  - destruct got; naive_solver.
Qed.

Lemma frame_allocate_refines_witness :
  inv example_alloc ∧
  ∃ a', allocate_for example_alloc Heap = Ok (Some {| frame_start := 4096 |}, a') ∧ inv a'.
Proof.
  split; [exact example_inv|].
  destruct (frame_allocate_refines example_alloc Heap example_inv) as (got & a' & E & Hi & _).
  exists a'. split; [|exact Hi]. rewrite E.
  assert (got = Some {| frame_start := 4096 |}) as ->; [|reflexivity].
  apply (f_equal (fmap fst)) in E. vm_compute in E. congruence.
Defined.

(** giving a frame back, on every branch.  [deallocate_as] never panics;
    a frame in use for something else, a frame the allocator does not manage
    and a frame that is already free are each refused with their own error
    and nothing changes; otherwise exactly that frame joins the pool, loses
    its purpose, and [free_frames] grows by one. *)
Theorem frame_deallocate_exact (a : BitmapFrameAllocator) (fr : PhysFrame) (p : FramePurpose) :
  inv a → Frame.valid fr →
  if bool_decide (is_Some (purposes a) ∧ purpose_of a fr ≠ Some p)
  then deallocate_as a fr p = Err (WrongPurpose p (purpose_of a fr))
  else if negb (manages a fr) then deallocate_as a fr p = Err NotManaged
  else if bool_decide (Frame.number fr ∈ pool (bitmap a))
  then deallocate_as a fr p = Err NotAllocated
  else ∃ a', deallocate_as a fr p = Ok a' ∧ inv a' ∧ same_env a a' ∧
       pool (bitmap a') = {[Frame.number fr]} ∪ pool (bitmap a) ∧
       (is_Some (purposes a) → purpose_of a' fr = None) ∧
       free_frames a' = free_frames a + 1.
Proof.
  intros Hinv Hfr. pose proof (deallocate_as_spec a fr p Hinv Hfr) as H. cbv zeta in H.
  case_bool_decide as Hw.
  { unfold deallocate_as. destruct Hw.
    rewrite (bool_decide_eq_true_2 (is_Some (purposes a))) by done.
    by rewrite (bool_decide_eq_false_2 (purpose_of a fr = Some p)). }
  destruct (deallocate_as a fr p) as [a'|[| |e act]| |]; [| | |naive_solver|done..].
  - destruct H as (-> & Hn & Hp & Hi & Henv & Hpool & Hfree). simpl.
    rewrite bool_decide_eq_false_2 by done. exists a'. naive_solver.
  - by rewrite H.
  - destruct H as [-> Hin]. simpl. by rewrite bool_decide_eq_true_2.
Qed.

Lemma frame_deallocate_exact_witness :
  inv example_alloc ∧ Frame.valid {| frame_start := 4096 |} ∧
  deallocate_as example_alloc {| frame_start := 4096 |} Heap = Err NotAllocated.
Proof.
  assert (Frame.valid {| frame_start := 4096 |}) as Hv by (vm_compute; repeat split; discriminate).
  split; [exact example_inv|]. split; [exact Hv|].
  pose proof (frame_deallocate_exact example_alloc {| frame_start := 4096 |} Heap example_inv Hv) as H.
  vm_compute in H. vm_compute. exact H.
Defined.

(** [reclaim_boot_services] never panics and adds to the pool exactly the
    covered frames, other than frame 0, that lie wholly inside a
    boot-services region and touch no region that is neither boot services
    nor usable; it answers how many frames the pool gained, keeps what was
    free free, and a second call adds nothing. *)
Theorem frame_reclaim_exact (a : BitmapFrameAllocator) :
  inv a → map_valid (map a) → boot_services_reclaimed a = false →
  ∃ added a', reclaim_boot_services a = Ok (added, a') ∧ inv a' ∧
    (∀ f, f ∈ pool (bitmap a') ↔ f ∈ pool (bitmap a) ∨
      0 < f < covered_frames a ∧
      (∃ r, r ∈ Map.iter (map a) ∧ kind r = BootServices ∧ inside f r) ∧
      (∀ r, r ∈ Map.iter (map a) → touches f r → kind r = Usable ∨ kind r = BootServices)) ∧
    added = free_frames a' - free_frames a ∧
    reclaim_boot_services a' = Ok (0, a').
Proof.
  intros Hinv Hm Hr.
  destruct (reclaim_spec a Hinv Hm Hr) as (added & a' & E & Hi & Hr' & Hm' & _ & Hl & Hadd & Hp).
  exists added, a'. split_and!; [done..| | |].
  - intros f. rewrite Hp. apply or_iff_compat_l. rewrite mapped_true.
    assert (∀ k, allocatable true k = true ↔ k = Usable ∨ k = BootServices) as Hk.
    { intros k. unfold allocatable. rewrite orb_true_iff, andb_true_iff, !bool_decide_eq_true. naive_solver. }
    setoid_rewrite Hk. split.
    + intros (Hb & Hne & _ & Hout). pose proof (boot_frames_bounds a f Hm Hb) as Hrg.
      apply elem_of_boot_frames in Hb as (_ & r & Hrin & Hkr & Hc%contains_inward).
      split; [change (covered_frames a) with (cov (bitmap a)); lia|].
      split; [by exists r|]. intros r' Hr2 Ht%contains_outward. by apply Hout.
    + intros (Hrg & (r & Hrin & Hkr & Hc) & Hout).
      change (covered_frames a) with (cov (bitmap a)) in Hrg. split.
      { apply elem_of_boot_frames. split; [lia|]. exists r. by rewrite contains_inward. }
      split; [lia|]. split; [exists r; rewrite contains_inward; naive_solver|].
      intros r' Hr2 Ht%contains_outward. by apply Hout.
  - unfold free_frames. rewrite (inv_free a'), (inv_free a) by done. exact Hadd.
  - unfold reclaim_boot_services. by rewrite Hr'.
Qed.

Definition boot_map : Map.MemoryMap :=
  snd (Map.push example_map {| start_phys_addr := 0x3000; page_count := 3; kind := BootServices;
                               attributes := Map.attributes_none |}).
Definition boot_alloc : BitmapFrameAllocator :=
  match new example_storage boot_map with Ok a => a | _ => adopt [] boot_map false end.

Lemma boot_inv : inv boot_alloc ∧ map_valid (map boot_alloc).
Proof.
  assert (map_valid boot_map) as Hm by (refine (bool_decide_unpack _ _); vm_compute; exact I).
  split; [|exact Hm]. apply (new_inv example_storage boot_map); [done|vm_compute; discriminate|].
  vm_compute. reflexivity.
Qed.

Lemma frame_reclaim_exact_witness :
  inv boot_alloc ∧ map_valid (map boot_alloc) ∧
  ∃ a', reclaim_boot_services boot_alloc = Ok (3, a') ∧ inv a'.
Proof.
  destruct boot_inv as [Hi Hm]. split; [exact Hi|]. split; [exact Hm|].
  destruct (frame_reclaim_exact boot_alloc Hi Hm ltac:(vm_compute; reflexivity))
    as (added & a' & E & Hi' & _).
  exists a'. split; [|exact Hi']. rewrite E.
  apply (f_equal (fmap fst)) in E. vm_compute in E. congruence.
Defined.

(** Moving the bookkeeping off the firmware's memory keeps every frame
    that was handed out handed out: with the bitmap size the kernel boots
    with, [move_off_firmware_memory] never panics, the bitmap, the pool and
    the count of free frames are unchanged, and from then on exactly the
    frames that were held are recorded, as [Boot]. *)
Theorem frame_move_exact (a : BitmapFrameAllocator) :
  inv a → length (bitmap a) = FRAME_BITMAP_WORDS →
  ∃ a', move_off_firmware_memory a (map a) = Ok a' ∧ inv a' ∧ same_env a a' ∧
    bitmap a' = bitmap a ∧ free_frames a' = free_frames a ∧
    ∀ fr, Frame.valid fr → purpose_of a' fr =
      if manages a fr && isset (bitmap a) (Frame.number fr) then Some Boot else None.
Proof. apply move_spec. Qed.

Definition full_storage : list Z := replicate FRAME_BITMAP_WORDS 0.
Definition full_alloc : BitmapFrameAllocator :=
  match new full_storage boot_map with Ok a => a | _ => adopt [] boot_map false end.

Lemma full_new : new full_storage boot_map = Ok full_alloc.
Proof. vm_compute. reflexivity. Qed.

Lemma full_inv : inv full_alloc ∧ length (bitmap full_alloc) = FRAME_BITMAP_WORDS.
Proof.
  split; [|vm_compute; reflexivity].
  apply (new_inv full_storage boot_map); [apply boot_inv|vm_compute; discriminate|apply full_new].
Qed.

Lemma frame_move_exact_witness :
  inv full_alloc ∧ length (bitmap full_alloc) = FRAME_BITMAP_WORDS ∧
  ∃ a', move_off_firmware_memory full_alloc (map full_alloc) = Ok a' ∧ inv a'.
Proof.
  destruct full_inv as [Hi Hl]. split; [exact Hi|]. split; [exact Hl|].
  destruct (frame_move_exact full_alloc Hi Hl) as (a' & E & Hi' & _).
  exists a'. split; [exact E|exact Hi'].
Defined.

(** C8: no frame is ever shared.  Whatever the firmware map and whatever
    sequence of operations the kernel runs on a fresh allocator (allocating,
    giving back rightly or wrongly, labelling, reclaiming boot-services
    memory, moving the bookkeeping), nothing panics, the frames held are
    pairwise different, each is managed and out of the pool, and the next
    frame handed out is none of them. *)
Theorem frames_never_shared (storage : list Z) (m : Map.MemoryMap) (ops : list frame_op) :
  map_valid m → Z.of_nat (length storage) * BITS_PER_WORD ≤ 2 ^ 52 →
  Forall (op_valid (length storage)) ops →
  ∃ a0 a held, new storage m = Ok a0 ∧ foldM run_op (a0, []) ops = Ok (a, held) ∧
    NoDup held ∧
    (∀ f, f ∈ held → manages a (frame_of f) = true ∧ f ∉ pool (bitmap a)) ∧
    (∀ p, ∃ got a', allocate_for a p = Ok (got, a') ∧
       ∀ fr, got = Some fr → Frame.number fr ∉ held).
Proof.
  intros Hm Hs Hops. rewrite Forall_forall in Hops.
  destruct (new_spec storage m Hm) as (a0 & E & Hlen & Hmap & _).
  pose proof (new_inv storage m a0 Hm Hs E) as Hinv.
  destruct (foldM_ind (E:=Empty_set) (λ _ st, consistent (length storage) st) run_op ops (a0, []))
    as ([a held] & Erun & Hc).
  - split; simpl; [done|by rewrite Hmap|done|constructor|set_solver].
  - intros pre op post st -> Hst. apply run_op_consistent; [done|]. apply Hops. set_solver.
  - exists a0, a, held. pose proof Hc as [Hi _ _ Hnd Hh]. split_and!; [done..|].
    intros p. destruct (allocate_for_spec a p Hi) as (got & a' & Ea & _ & _ & Hgot).
    exists got, a'. split; [done|]. intros fr -> Hf. destruct Hgot as (_ & _ & Hin & _).
    by apply (Hh _ Hf).
Qed.

Lemma frames_never_shared_witness :
  map_valid boot_map ∧
  ∃ a0 a held, new example_storage boot_map = Ok a0 ∧
    foldM run_op (a0, []) [OpAllocate Heap; OpReclaim; OpAllocate Stack] = Ok (a, held) ∧ NoDup held.
Proof.
  split; [exact (proj2 boot_inv)|].
  destruct (frames_never_shared example_storage boot_map [OpAllocate Heap; OpReclaim; OpAllocate Stack])
    as (a0 & a & held & E & Er & Hnd & _).
  - exact (proj2 boot_inv).
  - vm_compute. discriminate.
  - repeat constructor.
  - exists a0, a, held. split; [exact E|]. split; [exact Er|exact Hnd].
Defined.
