(* ===== verification/FreeList.v ===== *)
(** * The kernel heap: an address-ordered free list

    Models [kernel/src/memory/heap/free_list.rs].  A hole keeps its header
    ([Hole]) in its own first granule, so the state of the heap is the five
    fields of [FreeListHeap] together with the memory the headers live in
    ([mem]: the header stored at an address).  A [usize] is 64 bits wide;
    additions the code does not check are wrapped ([wrap 64]).  The walks
    over the list are loops with fuel: [FreeListProofs] shows how much is
    enough.  Pointer provenance is not modelled. *)

From S2P Require Import Prelude.
From Stdlib Require Import String.
Local Open Scope Z_scope.

Definition GRANULE : Z := 16.

Record Hole := { size : Z; next : Z }.

(** [core::alloc::Layout]: a size and a power-of-two alignment. *)
Record Layout := { layout_size : Z; layout_align : Z }.

Record HeapCorruption := { what : string; at_ : Z }.

Record HeapStats := {
  stats_size : Z; stats_free : Z; stats_holes : Z; largest_hole : Z
}.

(** [base] is the address of the region given to [init], 0 before it. *)
Record FreeListHeap := {
  base : Z; start : Z; end_ : Z; head : Z; free : Z
}.

Record state := { heap : FreeListHeap; mem : Z → Hole }.

Definition empty : FreeListHeap :=
  {| base := 0; start := 0; end_ := 0; head := 0; free := 0 |}.

Definition with_head (st : state) (h : Z) : state :=
  {| heap := {| base := base (heap st); start := start (heap st); end_ := end_ (heap st);
                head := h; free := free (heap st) |}; mem := mem st |}.
Definition with_free (st : state) (f : Z) : state :=
  {| heap := {| base := base (heap st); start := start (heap st); end_ := end_ (heap st);
                head := head (heap st); free := f |}; mem := mem st |}.

(** [hole_ptr]: the assertion every header access goes through. *)
Definition hole_ptr {E} (h : FreeListHeap) (addr : Z) : res E Z :=
  _ ← assert_ (is_multiple_of addr GRANULE && (start h <=? addr) &&
               match checked_add 64 addr GRANULE with
               | Some e => e <=? end_ h
               | None => false
               end);
  Ok addr.

Definition read_hole {E} (st : state) (addr : Z) : res E Hole :=
  p ← hole_ptr (heap st) addr; Ok (mem st p).

Definition write_hole {E} (st : state) (addr : Z) (hole : Hole) : res E state :=
  p ← hole_ptr (heap st) addr;
  Ok {| heap := heap st; mem := <[p := hole]> (mem st) |}.

Definition link {E} (st : state) (prev nxt : Z) : res E state :=
  if prev =? 0 then Ok (with_head st nxt)
  else hole ← read_hole st prev; write_hole st prev {| size := size hole; next := nxt |}.

Definition block_size (layout : Layout) : option Z :=
  checked_next_multiple_of 64 (Z.max (layout_size layout) 1) GRANULE.

Definition init (st : state) (start_ptr region : Z) : may state :=
  _ ← assert_ (base (heap st) =? 0);
  first ← expect (checked_next_multiple_of 64 start_ptr GRANULE);
  last ← expect (checked_add 64 start_ptr region);
  let e := Z.max (last / GRANULE * GRANULE) first in
  let st := {| heap := {| base := start_ptr; start := first; end_ := e;
                          head := head (heap st); free := free (heap st) |};
               mem := mem st |} in
  if GRANULE <=? e - first
  then st ← write_hole st first {| size := e - first; next := 0 |};
       Ok (with_free (with_head st first) (e - first))
  else Ok st.

(** ** Allocation *)

(** Where a block fits in the hole at [current], if it does: the
    [if let ... && let ... && ...] of [allocate]. *)
Definition fits (current hole_end bsize align : Z) : option (Z * Z) :=
  block ← checked_next_multiple_of 64 current align;
  block_end ← checked_add 64 block bsize;
  if block_end <=? hole_end then Some (block, block_end) else None.

(** What is left behind and in front of the block stays free; answers the
    address the list goes on at. *)
Definition leave_remains {E} (st : state) (current hole_end block block_end : Z) (hole : Hole)
    : res E (state * Z) :=
  '(st, rest) ← (if block_end <? hole_end
     then st ← write_hole st block_end {| size := hole_end - block_end; next := next hole |};
          Ok (st, block_end)
     else Ok (st, next hole));
  if current <? block
  then st ← write_hole st current {| size := block - current; next := rest |};
       Ok (st, current)
  else Ok (st, rest).

(** Carving the block out of the hole at [current]. *)
Definition carve (st : state) (prev current hole_end block block_end : Z) (hole : Hole)
    (bsize : Z) : may (option Z * state) :=
  '(st, rest) ← leave_remains st current hole_end block block_end hole;
  st ← link st prev rest;
  let st := with_free st (wrap 64 (free (heap st) - bsize)) in
  Ok (if block =? 0 then None else Some block, st).

Fixpoint allocate_loop (fuel : nat) (st : state) (bsize align prev current : Z)
    : may (option Z * state) :=
  match fuel with
  | O => Diverge
  | S fuel =>
      if current =? 0 then Ok (None, st)
      else
        hole ← read_hole st current;
        let hole_end := wrap 64 (current + size hole) in
        match fits current hole_end bsize align with
        | Some (block, block_end) =>
            carve st prev current hole_end block block_end hole bsize
        | None => allocate_loop fuel st bsize align current (next hole)
        end
  end.

Definition allocate (fuel : nat) (st : state) (layout : Layout) : may (option Z * state) :=
  match block_size layout with
  | None => Ok (None, st)
  | Some bsize =>
      allocate_loop fuel st bsize (Z.max (layout_align layout) GRANULE) 0 (head (heap st))
  end.

(** ** Deallocation *)

(** [while current != 0 && current < block]: the holes around the block. *)
Fixpoint find_around (fuel : nat) (st : state) (block prev current : Z) : may (Z * Z) :=
  match fuel with
  | O => Diverge
  | S fuel =>
      if negb (current =? 0) && (current <? block)
      then hole ← read_hole st current; find_around fuel st block current (next hole)
      else Ok (prev, current)
  end.

Definition deallocate (fuel : nat) (st : state) (block : Z) (layout : Layout) : may state :=
  bsize ← expect (block_size layout);
  block_end ← expect (
    e ← checked_add 64 block bsize;
    if (start (heap st) <=? block) && (e <=? end_ (heap st)) && is_multiple_of block GRANULE
    then Some e else None);
  '(prev, current) ← find_around fuel st block 0 (head (heap st));
  prev_hole ← (if prev =? 0 then Ok None else hole ← read_hole st prev; Ok (Some hole));
  let overlaps_prev :=
    match prev_hole with
    | Some hole => block <? wrap 64 (prev + size hole)
    | None => false
    end in
  let overlaps_next := negb (current =? 0) && (current <? block_end) in
  _ ← assert_ (negb overlaps_prev && negb overlaps_next);
  merged ← (if negb (current =? 0) && (block_end =? current)
     then next_hole ← read_hole st current;
          Ok {| size := wrap 64 (bsize + size next_hole); next := next next_hole |}
     else Ok {| size := bsize; next := current |});
  st ← match prev_hole with
       | Some hole =>
           if wrap 64 (prev + size hole) =? block
           then write_hole st prev
                  {| size := wrap 64 (size hole + size merged); next := next merged |}
           else st ← write_hole st block merged; link st prev block
       | None => st ← write_hole st block merged; link st prev block
       end;
  Ok (with_free st (wrap 64 (free (heap st) + bsize))).

(** ** The self-check *)
Definition corrupt {A} (what : string) (at_ : Z) : res HeapCorruption A :=
  Err {| what := what; at_ := at_ |}.

(** The walk of [check]: [free], [holes], [largest_hole], [previous_end]. *)
Fixpoint check_loop (fuel : nat) (st : state) (max_holes free holes largest : Z)
    (previous_end : option Z) (current : Z) : res HeapCorruption (Z * Z * Z) :=
  match fuel with
  | O => Diverge
  | S fuel =>
      if current =? 0 then Ok (free, holes, largest)
      else if max_holes <=? holes
      then corrupt "free list longer than the heap can hold" current
      else if negb (is_multiple_of current GRANULE) || (current <? start (heap st))
              || (end_ (heap st) <=? current)
      then corrupt "hole outside the heap or misaligned" current
      else if match previous_end with Some e => current <=? e | None => false end
      then corrupt "holes out of order, overlapping or not merged" current
      else
        hole ← read_hole st current;
        if (size hole <? GRANULE) || negb (is_multiple_of (size hole) GRANULE)
           || (end_ (heap st) - current <? size hole)
        then corrupt "hole with an impossible size" current
        else check_loop fuel st max_holes (free + size hole) (holes + 1)
               (Z.max largest (size hole)) (Some (current + size hole)) (next hole)
  end.

Definition check (st : state) : res HeapCorruption HeapStats :=
  let max_holes := (end_ (heap st) - start (heap st)) / GRANULE in
  '(f, holes, largest) ←
    check_loop (S (Z.to_nat max_holes)) st max_holes 0 0 0 None (head (heap st));
  if negb (f =? free (heap st))
  then corrupt "free byte count does not match the free list" 0
  else Ok {| stats_size := end_ (heap st) - start (heap st); stats_free := f;
             stats_holes := holes; largest_hole := largest |}.
