(* ===== verification/FreeListProofs.v ===== *)
(** * The kernel heap: the list of holes it represents

    [inv st l] says that the memory of [st] holds the free list [l], a list
    of (address, size) pairs in address order, granule-aligned, inside the
    heap, never overlapping and never touching.  [allocate] and
    [deallocate] are shown to compute the list functions [take_hole] and
    [give_hole]; what those do to the set of free bytes is at the end. *)

From S2P Require Import Prelude Words FreeList.
Local Open Scope Z_scope.

Definition holes := list (Z * Z).

(** The list of holes from [cur] to [tl] in memory. *)
Fixpoint seg (m : Z → Hole) (cur : Z) (l : holes) (tl : Z) : Prop :=
  match l with
  | [] => cur = tl
  | (a, s) :: l => cur = a ∧ size (m a) = s ∧ seg m (next (m a)) l tl
  end.

(** In order, apart, aligned, within [(lo, hi]]. *)
Fixpoint ordered (lo hi : Z) (l : holes) : Prop :=
  match l with
  | [] => lo ≤ hi
  | (a, s) :: l =>
      lo < a ∧ a mod GRANULE = 0 ∧ GRANULE ≤ s ∧ s mod GRANULE = 0 ∧
      a + s ≤ hi ∧ ordered (a + s) hi l
  end.

Definition total (l : holes) : Z := foldr (λ h acc, h.2 + acc) 0 l.

Definition last_end (lo : Z) (l : holes) : Z := foldl (λ _ h, h.1 + h.2) lo l.

Definition prev_of (l : holes) : Z := match last l with Some (a, _) => a | None => 0 end.

Record inv (st : state) (l : holes) : Prop := {
  inv_base : base (heap st) ≠ 0;
  inv_start : GRANULE ≤ start (heap st) ∧ start (heap st) mod GRANULE = 0;
  inv_end : start (heap st) ≤ end_ (heap st) < 2 ^ 64 ∧ end_ (heap st) mod GRANULE = 0;
  inv_seg : seg (mem st) (head (heap st)) l 0;
  inv_ordered : ordered (start (heap st) - 1) (end_ (heap st)) l;
  inv_free : free (heap st) = total l
}.

(** ** Segments *)
Lemma seg_app m cur l1 l2 tl :
  seg m cur (l1 ++ l2) tl ↔ ∃ mid, seg m cur l1 mid ∧ seg m mid l2 tl.
Proof.
  revert cur; induction l1 as [|[a s] l1 IH]; intros cur; simpl; [naive_solver|].
  rewrite IH. naive_solver.
Qed.

Lemma seg_ext m m' cur l tl :
  (∀ a s, (a, s) ∈ l → m' a = m a) → seg m cur l tl → seg m' cur l tl.
Proof.
  revert cur; induction l as [|[a s] l IH]; intros cur Hext; simpl; [done|].
  intros (-> & Hs & Hl). rewrite (Hext a s) by set_solver.
  split_and!; [done..|]. apply IH; [|done]. set_solver.
Qed.

Lemma ordered_app lo hi l1 l2 :
  ordered lo hi (l1 ++ l2) ↔ ordered lo hi l1 ∧ ordered (last_end lo l1) hi l2.
Proof.
  revert lo; induction l1 as [|[a s] l1 IH]; intros lo; simpl.
  - destruct l2 as [|[b t] l2]; simpl; [naive_solver|].
    split; [|naive_solver]. intros H. split; [|done].
    destruct H as (?&?&?&?&?&_). unfold GRANULE in *. lia.
  - rewrite IH. naive_solver.
Qed.

Lemma ordered_bounds lo hi l a s :
  ordered lo hi l → (a, s) ∈ l →
  lo < a ∧ GRANULE ≤ s ∧ a + s ≤ hi ∧ a mod GRANULE = 0 ∧ s mod GRANULE = 0.
Proof.
  revert lo; induction l as [|[b t] l IH]; intros lo; simpl; [set_solver|].
  intros (?&?&?&?&?&Hl) [[= -> ->]|Hin]%elem_of_cons; [done|].
  destruct (IH _ Hl Hin) as (?&?&?&?&?). unfold GRANULE in *. split_and!; lia.
Qed.

Lemma ordered_lo_hi lo hi l : ordered lo hi l → lo ≤ hi.
Proof. destruct l as [|[a s] l]; simpl; unfold GRANULE; [done|lia]. Qed.

Lemma last_end_le lo hi l : ordered lo hi l → lo ≤ last_end lo l ≤ hi.
Proof.
  revert lo; induction l as [|[a s] l IH]; intros lo; simpl; [lia|].
  intros (?&?&?&?&?&Hl). specialize (IH _ Hl). unfold last_end in *. simpl.
  unfold GRANULE in *. lia.
Qed.

(** Addresses before and after a split of the list. *)
Lemma before_last_end lo hi l a s :
  ordered lo hi l → (a, s) ∈ l → a + s ≤ last_end lo l.
Proof.
  revert lo; induction l as [|[b t] l IH]; intros lo; simpl; [set_solver|].
  intros (?&?&?&?&?&Hl) [[= -> ->]|Hin]%elem_of_cons.
  - apply (last_end_le _ _ _ Hl).
  - by apply (IH (b + t)).
Qed.

Lemma last_end_snoc lo l a s : last_end lo (l ++ [(a, s)]) = a + s.
Proof. unfold last_end. by rewrite foldl_app. Qed.

Lemma prev_of_snoc l a s : prev_of (l ++ [(a, s)]) = a.
Proof. unfold prev_of. by rewrite last_snoc. Qed.

Lemma total_app l1 l2 : total (l1 ++ l2) = total l1 + total l2.
Proof. induction l1 as [|h l1 IH]; simpl; lia. Qed.

Lemma total_bound lo hi l : ordered lo hi l → 0 ≤ total l ≤ hi - lo.
Proof.
  revert lo; induction l as [|[a s] l IH]; intros lo; simpl; [lia|].
  intros (?&?&?&?&?&Hl). specialize (IH _ Hl). unfold GRANULE in *. lia.
Qed.

(** How many holes fit: what makes the fuel enough. *)
Lemma ordered_length lo hi l : ordered lo hi l → Z.of_nat (length l) * GRANULE ≤ hi - lo.
Proof.
  revert lo; induction l as [|[a s] l IH]; intros lo; cbn [ordered length]; [lia|].
  intros (?&?&?&?&?&Hl). specialize (IH _ Hl). unfold GRANULE in *. lia.
Qed.

(** ** Header accesses *)
Section access.
  Context (st : state) (l : holes) (Hinv : inv st l).

Lemma hole_ptr_ok {E} addr :
  addr mod GRANULE = 0 → start (heap st) ≤ addr → addr + GRANULE ≤ end_ (heap st) →
  hole_ptr (E:=E) (heap st) addr = Ok addr.
Proof.
  intros H1 H2 H3. destruct Hinv as [_ _ [? _] _ _ _].
  unfold hole_ptr, is_multiple_of, checked_add.
  rewrite (proj2 (Z.eqb_eq _ _) H1). destruct (Z.leb_spec (start (heap st)) addr); [|lia].
  destruct (Z.ltb_spec (addr + GRANULE) (2 ^ 64)); [|lia].
  by destruct (Z.leb_spec (addr + GRANULE) (end_ (heap st))); [|lia].
Qed.

Lemma read_ok {E} a s : (a, s) ∈ l → read_hole (E:=E) st a = Ok (mem st a).
Proof.
  intros Hin. unfold read_hole.
  destruct (ordered_bounds _ _ _ _ _ (inv_ordered _ _ Hinv) Hin) as (?&?&?&?&?).
  rewrite hole_ptr_ok by lia. done.
Qed.

Lemma write_ok {E} addr h :
  addr mod GRANULE = 0 → start (heap st) ≤ addr → addr + GRANULE ≤ end_ (heap st) →
  write_hole (E:=E) st addr h = Ok {| heap := heap st; mem := <[addr := h]> (mem st) |}.
Proof. intros. unfold write_hole. by rewrite hole_ptr_ok. Qed.

Lemma hole_nonzero a s : (a, s) ∈ l → a ≠ 0.
Proof.
  intros Hin. destruct (ordered_bounds _ _ _ _ _ (inv_ordered _ _ Hinv) Hin) as (?&_).
  pose proof (inv_start _ _ Hinv) as [? _]. unfold GRANULE in *. lia.
Qed.

Lemma fuel_enough : (length l < S (Z.to_nat ((end_ (heap st) - start (heap st)) / GRANULE)))%nat.
Proof.
  pose proof (ordered_length _ _ _ (inv_ordered _ _ Hinv)) as H. pose proof (inv_end _ _ Hinv) as [H1 H2].
  pose proof (inv_start _ _ Hinv) as [_ H3].
  assert (Z.of_nat (length l) ≤ (end_ (heap st) - start (heap st)) / GRANULE); [|lia].
  apply Z.div_le_lower_bound; [unfold GRANULE; lia|].
  assert ((end_ (heap st) - start (heap st)) mod GRANULE = 0).
  { rewrite Zminus_mod, H2, H3. done. }
  unfold GRANULE in *. Z.div_mod_to_equations. lia.
Qed.
End access.

(** ** [block_size] and the alignment arithmetic *)
Definition next_multiple (a align : Z) : Z := a + (- a) mod align.

Lemma next_multiple_spec a align :
  0 < align →
  next_multiple a align mod align = 0 ∧ a ≤ next_multiple a align < a + align ∧
  ∀ b, a ≤ b → b mod align = 0 → next_multiple a align ≤ b.
Proof.
  intros Ha. unfold next_multiple. pose proof (Z.mod_pos_bound (- a) align Ha).
  assert ((a + (- a) mod align) mod align = 0) as H0.
  { rewrite Zplus_mod_idemp_r. by rewrite Z.add_opp_diag_r, Z.mod_0_l by lia. }
  split_and!; [done|lia|lia|]. intros b Hb Hmod.
  destruct (Z.le_gt_cases (a + (- a) mod align) b) as [|Hlt]; [done|exfalso].
  assert ((a + (- a) mod align - b) mod align = 0) as E by (rewrite Zminus_mod, H0, Hmod; done).
  rewrite Z.mod_small in E; lia.
Qed.

Lemma checked_next_multiple a align :
  0 < align → 0 ≤ a < 2 ^ 64 →
  checked_next_multiple_of 64 a align =
    if next_multiple a align <? 2 ^ 64 then Some (next_multiple a align) else None.
Proof.
  intros Hal Ha. unfold checked_next_multiple_of, next_multiple, checked_add.
  destruct (Z.eqb_spec align 0); [lia|].
  pose proof (Z.mod_pos_bound a align Hal).
  destruct (Z.eqb_spec (a mod align) 0) as [E|E].
  - rewrite Z.mod_opp_l_z by lia. rewrite Z.add_0_r. destruct (Z.ltb_spec a (2 ^ 64)); [done|lia].
  - rewrite Z.mod_opp_l_nz by lia. done.
Qed.

(** What a layout of the [GlobalAlloc] contract looks like. *)
Definition layout_valid (layout : Layout) : Prop :=
  0 ≤ layout_size layout < 2 ^ 63 ∧ 0 < layout_align layout < 2 ^ 63 ∧
  ∃ k, 0 ≤ k ∧ layout_align layout = 2 ^ k.

Definition bsize_of (layout : Layout) : Z := next_multiple (Z.max (layout_size layout) 1) GRANULE.
Definition align_of (layout : Layout) : Z := Z.max (layout_align layout) GRANULE.

Lemma block_size_ok layout :
  layout_valid layout → block_size layout = Some (bsize_of layout) ∧
  GRANULE ≤ bsize_of layout ∧ bsize_of layout mod GRANULE = 0 ∧
  layout_size layout ≤ bsize_of layout < 2 ^ 63 + GRANULE.
Proof.
  intros [Hs _]. unfold block_size, bsize_of. set (n := Z.max (layout_size layout) 1).
  destruct (next_multiple_spec n GRANULE ltac:(unfold GRANULE; lia)) as (H1 & H2 & _).
  rewrite checked_next_multiple by (unfold GRANULE, n in *; lia).
  assert (GRANULE ≤ next_multiple n GRANULE).
  { unfold GRANULE in *. assert (1 ≤ n) by lia. Z.div_mod_to_equations. lia. }
  destruct (Z.ltb_spec (next_multiple n GRANULE) (2 ^ 64)); unfold GRANULE, n in *; [|lia].
  split_and!; (done || lia).
Qed.

Lemma align_of_granule layout :
  layout_valid layout → 0 < align_of layout ∧ align_of layout mod GRANULE = 0 ∧
    align_of layout mod layout_align layout = 0.
Proof.
  intros (_ & Ha & k & Hk & E). unfold align_of, GRANULE. rewrite E in *.
  destruct (Z.le_gt_cases 4 k) as [H4|H4].
  - replace k with (4 + (k - 4)) in * by lia. rewrite Z.pow_add_r by lia.
    assert (0 < 2 ^ (k - 4)) by (apply Z.pow_pos_nonneg; lia).
    rewrite Z.max_l by lia. change (2 ^ 4) with 16. split_and!; [lia| |apply Z.mod_same; lia].
    rewrite Z.mul_comm. apply Z.mod_mul. lia.
  - assert (k = 0 ∨ k = 1 ∨ k = 2 ∨ k = 3) as [-> | [-> | [-> | ->]]] by lia; done.
Qed.

Lemma aligned_granule b align : 0 < align → align mod GRANULE = 0 → b mod align = 0 → b mod GRANULE = 0.
Proof.
  intros Hal H1 H2. apply Z.mod_divide in H1; [|unfold GRANULE; lia].
  apply Z.mod_divide in H2; [|lia]. apply Z.mod_divide; [unfold GRANULE; lia|].
  by apply Z.divide_trans with align.
Qed.

Lemma fits_spec a s bsize align :
  0 ≤ a → a + s < 2 ^ 64 → 0 ≤ bsize → 0 < align →
  fits a (a + s) bsize align =
    if next_multiple a align + bsize <=? a + s
    then Some (next_multiple a align, next_multiple a align + bsize) else None.
Proof.
  intros Ha Hs Hb Hal. unfold fits.
  destruct (next_multiple_spec a align Hal) as (_ & H2 & _).
  destruct (Z.leb_spec (next_multiple a align + bsize) (a + s)) as [Hle|Hgt].
  - rewrite checked_next_multiple by lia.
    destruct (Z.ltb_spec (next_multiple a align) (2 ^ 64)); [|lia]. simpl. unfold checked_add.
    destruct (Z.ltb_spec (next_multiple a align + bsize) (2 ^ 64)); [|lia]. simpl.
    by destruct (Z.leb_spec (next_multiple a align + bsize) (a + s)); [|lia].
  - destruct (decide (a < 2 ^ 64)).
    + rewrite checked_next_multiple by lia.
      destruct (next_multiple a align <? 2 ^ 64); [|done]. simpl. unfold checked_add.
      destruct (_ <? 2 ^ 64); [|done]. simpl.
      by destruct (Z.leb_spec (next_multiple a align + bsize) (a + s)); [lia|].
    + unfold checked_next_multiple_of. destruct (align =? 0); [done|].
      destruct (a mod align =? 0) eqn:E; simpl; unfold checked_add.
      * destruct (Z.ltb_spec (a + bsize) (2 ^ 64)); [lia|done].
      * pose proof (Z.mod_pos_bound a align Hal).
        destruct (Z.ltb_spec (a + (align - a mod align)) (2 ^ 64)); [lia|done].
Qed.

(** ** The free bytes

    What the heap means: the set of bytes its holes cover.  Lists that are
    [ordered] are determined by it ([ordered_unique]), so a statement about
    the free bytes says everything about the list. *)
Definition free_at (l : holes) (x : Z) : Prop := ∃ a s, (a, s) ∈ l ∧ a ≤ x < a + s.

Definition in_block (b n x : Z) : Prop := b ≤ x < b + n.

Lemma free_at_cons a s l x : free_at ((a, s) :: l) x ↔ in_block a s x ∨ free_at l x.
Proof.
  unfold free_at, in_block. setoid_rewrite elem_of_cons. split.
  - intros (b & t & [[= -> ->]|Hin] & ?); [by left|right; eauto].
  - intros [?|(b & t & ? & ?)]; eauto 10.
Qed.

Lemma free_at_nil x : free_at [] x ↔ False.
Proof. unfold free_at. set_solver. Qed.

Lemma free_at_app l1 l2 x : free_at (l1 ++ l2) x ↔ free_at l1 x ∨ free_at l2 x.
Proof. unfold free_at. setoid_rewrite elem_of_app. naive_solver. Qed.

Lemma free_at_bounds lo hi l x : ordered lo hi l → free_at l x → lo < x < hi.
Proof.
  intros Ho (a & s & Hin & Hx). destruct (ordered_bounds _ _ _ _ _ Ho Hin) as (?&?&?&_). lia.
Qed.

(** A run of free bytes lies in one hole: holes never touch. *)
Lemma run_in_hole lo hi l b n :
  ordered lo hi l → 0 < n → (∀ x, in_block b n x → free_at l x) →
  ∃ a s, (a, s) ∈ l ∧ a ≤ b ∧ b + n ≤ a + s.
Proof.
  intros Ho Hn. revert lo Ho. induction l as [|[a s] l IH]; intros lo Ho Hrun.
  { destruct (proj1 (free_at_nil b)). apply Hrun. unfold in_block; lia. }
  simpl in Ho. destruct Ho as (_ & _ & Hs & _ & _ & Ho). unfold GRANULE in *.
  assert (∀ x, free_at l x → a + s < x) as Htail.
  { intros x Hx. by destruct (free_at_bounds _ _ _ _ Ho Hx). }
  pose proof (Hrun b ltac:(unfold in_block; lia)) as [Hb|Hb]%free_at_cons.
  - unfold in_block in Hb. destruct (Z.le_gt_cases (b + n) (a + s)) as [|Hgt].
    { exists a, s. split_and!; [by left|lia..]. }
    pose proof (Hrun (a + s) ltac:(unfold in_block; lia)) as [Hc|Hc%Htail]%free_at_cons;
      unfold in_block in *; lia.
  - pose proof (Htail _ Hb). destruct (IH _ Ho) as (c & t & Hin & ? & ?).
    + intros x Hx. pose proof (Hrun x Hx) as [Hc|Hc]%free_at_cons; [|done].
      unfold in_block in *; lia.
    + exists c, t. split_and!; [by right|done..].
Qed.

Lemma ordered_head_le lo lo' hi a s b t l l' :
  ordered lo hi ((a, s) :: l) → ordered lo' hi ((b, t) :: l') →
  (∀ x, free_at ((a, s) :: l) x ↔ free_at ((b, t) :: l') x) → b ≤ a ∧ a + s ≤ b + t.
Proof.
  intros Ho Ho' Heq. pose proof Ho as (_ & _ & Hs & _ & _ & Hl).
  pose proof Ho' as (_ & _ & Ht & _ & _ & Hl'). unfold GRANULE in *.
  assert (∀ x, free_at l' x → b + t < x) as Htl
    by (intros x Hx; by destruct (free_at_bounds _ _ _ _ Hl' Hx)).
  assert (∀ x, free_at l x → a + s < x) as Htl'
    by (intros x Hx; by destruct (free_at_bounds _ _ _ _ Hl Hx)).
  destruct (run_in_hole _ _ _ a s Ho' ltac:(lia)) as (c & u & Hin & ? & ?).
  { intros x Hx. apply Heq, free_at_cons. by left. }
  assert (free_at ((a, s) :: l) b) as Hb by (apply Heq, free_at_cons; left; unfold in_block; lia).
  apply free_at_cons in Hb as [Hb|Hb%Htl']; unfold in_block in *;
    apply elem_of_cons in Hin as [[= -> ->]|Hin]; try lia.
  all: assert (free_at l' c) as Hc by (exists c, u; split; [done|];
    destruct (ordered_bounds _ _ _ _ _ Hl' Hin) as (_&?&_); unfold GRANULE in *; lia);
    apply Htl in Hc; lia.
Qed.

Lemma ordered_unique lo lo' hi l l' :
  ordered lo hi l → ordered lo' hi l' → (∀ x, free_at l x ↔ free_at l' x) → l = l'.
Proof.
  revert lo lo' l'. induction l as [|[a s] l IH]; intros lo lo' [|[b t] l'] Ho Ho' Heq; [done| | |].
  - simpl in Ho'. destruct (proj1 (free_at_nil b)). apply Heq, free_at_cons. left.
    unfold in_block, GRANULE in *. lia.
  - simpl in Ho. destruct (proj1 (free_at_nil a)). apply Heq, free_at_cons. left.
    unfold in_block, GRANULE in *. lia.
  - destruct (ordered_head_le _ _ _ _ _ _ _ _ _ Ho Ho' Heq).
    destruct (ordered_head_le _ _ _ _ _ _ _ _ _ Ho' Ho) as [? ?].
    { intros x. symmetry. apply Heq. }
    assert (a = b) as -> by lia. assert (s = t) as -> by lia. f_equal.
    pose proof Ho as (_ & _ & _ & _ & _ & Hl). pose proof Ho' as (_ & _ & _ & _ & _ & Hl').
    apply (IH (b + t) (b + t)); [done..|]. intros x. specialize (Heq x).
    rewrite !free_at_cons in Heq. unfold in_block in Heq.
    split; intros Hx; [destruct (free_at_bounds _ _ _ _ Hl Hx)|destruct (free_at_bounds _ _ _ _ Hl' Hx)];
      naive_solver lia.
Qed.

(** ** [link] *)
Definition same_bounds (h h' : FreeListHeap) : Prop :=
  base h' = base h ∧ start h' = start h ∧ end_ h' = end_ h.

Lemma prev_of_elem pre : pre = [] ∨ ∃ pre' a s, pre = pre' ++ [(a, s)] ∧ prev_of pre = a.
Proof.
  destruct pre as [|[a s] pre' _] using rev_ind; [by left|right].
  exists pre', a, s. by rewrite prev_of_snoc.
Qed.

(** Hanging [nxt] after the holes of [pre], whose headers are as they were. *)
Lemma link_ok {E} st st1 pre post nxt :
  inv st (pre ++ post) → heap st1 = heap st →
  (∀ a s, (a, s) ∈ pre → mem st1 a = mem st a) →
  ∃ st2, link (E:=E) st1 (prev_of pre) nxt = Ok st2 ∧
    seg (mem st2) (head (heap st2)) pre nxt ∧
    (∀ x, ¬ free_at pre x → mem st2 x = mem st1 x) ∧
    same_bounds (heap st) (heap st2) ∧ free (heap st2) = free (heap st).
Proof.
  intros Hinv Hh Hm. destruct (prev_of_elem pre) as [->|(pre' & a & s & -> & Hp)].
  - unfold link; simpl. eexists; split; [done|]. unfold same_bounds; simpl. by rewrite Hh.
  - rewrite Hp. unfold link.
    assert ((a, s) ∈ (pre' ++ [(a, s)]) ++ post) as Hin by set_solver.
    destruct (Z.eqb_spec a 0) as [->|_]; [by destruct (hole_nonzero _ _ Hinv 0 s)|].
    destruct (ordered_bounds _ _ _ _ _ (inv_ordered _ _ Hinv) Hin) as (?&?&?&?&?).
    unfold read_hole, write_hole. rewrite Hh, !(hole_ptr_ok st _ Hinv) by lia. simpl.
    eexists; split; [done|]. simpl. split; [|split; [|done]].
    2:{ intros b Hb. rewrite fn_lookup_insert_ne; [done|]. intros <-. apply Hb.
      exists a, s. split; [set_solver|unfold GRANULE in *; lia]. }
    pose proof (inv_seg _ _ Hinv) as (? & (mid & Hpre & -> & Hs & _)%seg_app & _)%seg_app.
    apply seg_app. exists a. split; simpl.
    + eapply seg_ext; [|exact Hpre]. intros b t Hb. rewrite fn_lookup_insert_ne.
      { apply (Hm b t). set_solver. }
      pose proof (inv_ordered _ _ Hinv) as Ho. rewrite <-app_assoc, ordered_app in Ho.
      destruct Ho as [Ho1 Ho2]. pose proof (before_last_end _ _ _ _ _ Ho1 Hb).
      destruct (ordered_bounds _ _ _ _ _ Ho1 Hb) as (?&?&_).
      simpl in Ho2. unfold GRANULE in *. lia.
    + rewrite fn_lookup_insert. simpl. split_and!; [done| |done].
      rewrite (Hm a s) by set_solver. done.
Qed.

(** ** Carving a block out of a hole *)
Definition remains (a s b e : Z) : holes :=
  (if a <? b then [(a, b - a)] else []) ++ (if e <? a + s then [(e, a + s - e)] else []).

Lemma mod_sub_granule x y : x mod GRANULE = 0 → y mod GRANULE = 0 → (x - y) mod GRANULE = 0.
Proof. intros H1 H2. by rewrite Zminus_mod, H1, H2. Qed.
Lemma mod_add_granule x y : x mod GRANULE = 0 → y mod GRANULE = 0 → (x + y) mod GRANULE = 0.
Proof. intros H1 H2. by rewrite Zplus_mod, H1, H2. Qed.

Lemma granule_gap x : x mod GRANULE = 0 → 0 < x → GRANULE ≤ x.
Proof. unfold GRANULE. intros. Z.div_mod_to_equations. lia. Qed.

Lemma remains_ordered lo hi a s b e l :
  ordered lo hi ((a, s) :: l) → a ≤ b → b + GRANULE ≤ e → e ≤ a + s →
  b mod GRANULE = 0 → e mod GRANULE = 0 →
  ordered lo hi (remains a s b e ++ l) ∧ total (remains a s b e ++ l) = total ((a, s) :: l) - (e - b).
Proof.
  simpl. intros (Hlo & Ham & Hs & Hsm & Hhi & Hl) Hab Hbe Hes Hbm Hem. unfold remains.
  pose proof (mod_sub_granule b a Hbm Ham) as Hm1. pose proof (mod_add_granule a s Ham Hsm) as Hm2.
  pose proof (mod_sub_granule (a + s) e Hm2 Hem) as Hm3.
  pose proof (granule_gap (b - a) Hm1). pose proof (granule_gap (a + s - e) Hm3).
  assert (∀ lo', lo' < e → a + s = e → ordered lo' hi l) as Hweak.
  { intros lo' ? ?. destruct l as [|[c t] l]; simpl in *; [lia|]. naive_solver lia. }
  assert (0 < GRANULE) by done.
  destruct (Z.ltb_spec a b), (Z.ltb_spec e (a + s)); simpl;
    replace (a + (b - a)) with b by lia; replace (e + (a + s - e)) with (a + s) by lia;
    (split; [|lia]); split_ands; try done; try lia; apply Hweak; lia.
Qed.

Lemma leave_remains_ok {E} st l a s post b e :
  inv st l → start (heap st) ≤ a → a + s ≤ end_ (heap st) →
  a mod GRANULE = 0 → s mod GRANULE = 0 → a ≤ b → b + GRANULE ≤ e → e ≤ a + s →
  b mod GRANULE = 0 → e mod GRANULE = 0 →
  (∀ x t, (x, t) ∈ post → a + s < x) →
  seg (mem st) (next (mem st a)) post 0 →
  ∃ st1 rest, leave_remains (E:=E) st a (a + s) b e (mem st a) = Ok (st1, rest) ∧
    heap st1 = heap st ∧ seg (mem st1) rest (remains a s b e ++ post) 0 ∧
    (∀ x, ¬ (a ≤ x < a + s) → mem st1 x = mem st x).
Proof.
  intros Hinv Hsa Hae Ham Hsm Hab Hbe Hes Hbm Hem Hpost Hseg.
  pose proof (granule_gap (b - a) (mod_sub_granule b a Hbm Ham)).
  pose proof (granule_gap (a + s - e) (mod_sub_granule (a + s) e (mod_add_granule a s Ham Hsm) Hem)).
  assert (0 < GRANULE) by done. unfold leave_remains, remains.
  destruct (Z.ltb_spec e (a + s)), (Z.ltb_spec a b);
    rewrite ?(write_ok st _ Hinv) by lia; simpl;
    unfold write_hole; simpl; rewrite ?(hole_ptr_ok st _ Hinv) by lia; simpl;
    (eexists _, _; split; [done|]; split; [done|]; split; simpl).
  all: try (intros x Hx; rewrite ?fn_lookup_insert_ne by lia; done).
  all: repeat split; rewrite ?fn_lookup_insert; simpl;
    rewrite ?(fn_lookup_insert_ne _ a e) by lia; rewrite ?fn_lookup_insert; simpl;
    try done; try lia.
  all: eapply seg_ext; [|exact Hseg]; intros x t Hx%Hpost; rewrite ?fn_lookup_insert_ne by lia; done.
Qed.

Lemma remains_elem a s b e x t :
  (x, t) ∈ remains a s b e → a ≤ b ≤ e → a ≤ x.
Proof.
  unfold remains. rewrite elem_of_app. destruct (a <? b), (e <? a + s); set_solver by lia.
Qed.

Lemma carve_ok st pre a s post b bsize :
  inv st (pre ++ (a, s) :: post) → a ≤ b → b mod GRANULE = 0 →
  GRANULE ≤ bsize → bsize mod GRANULE = 0 → b + bsize ≤ a + s →
  ∃ st', carve st (prev_of pre) a (a + s) b (b + bsize) (mem st a) bsize = Ok (Some b, st') ∧
    inv st' (pre ++ remains a s b (b + bsize) ++ post) ∧ same_bounds (heap st) (heap st') ∧
    (∀ x, ¬ free_at (pre ++ (a, s) :: post) x → mem st' x = mem st x).
Proof.
  intros Hinv Hab Hb Hbs Hbm He. assert (0 < GRANULE) as HG by done.
  pose proof (mod_add_granule b bsize Hb Hbm) as Hem.
  pose proof Hinv as [Hbase [Hst1 Hst2] [Hen1 Hen2] Hseg Hord Hfree].
  pose proof Hord as [Hord1 Hord2]%ordered_app.
  destruct (remains_ordered _ _ _ _ b (b + bsize) _ Hord2) as [Hord2' Htot]; [lia..|done|done|].
  simpl in Hord2. destruct Hord2 as (Hlo & Ham & Hsz & Hsm & Hhi & Hpost).
  apply seg_app in Hseg as (mid & Hpre & -> & Hsize & Hnext).
  assert (∀ x t, (x, t) ∈ pre → x < a) as Hprelt.
  { intros x t Hx. pose proof (before_last_end _ _ _ _ _ Hord1 Hx).
    destruct (ordered_bounds _ _ _ _ _ Hord1 Hx) as (?&?&_). unfold GRANULE in *. lia. }
  destruct (ordered_bounds _ _ _ a s Hord) as (Hsta & _); [set_solver|].
  destruct (leave_remains_ok (E:=Empty_set) st _ a s post b (b + bsize) Hinv)
    as (st1 & rest & Hlr & Hh1 & Hseg1 & Hm1); try done; try lia.
  { intros x t Hx. by destruct (ordered_bounds _ _ _ _ _ Hpost Hx). }
  unfold carve. rewrite Hlr. cbn [mbind res_bind].
  destruct (link_ok (E:=Empty_set) st st1 pre ((a, s) :: post) rest Hinv Hh1)
    as (st2 & Hl2 & Hs2 & Hm2 & Hb2 & Hf2).
  { intros x t Hx. apply Hm1. specialize (Hprelt _ _ Hx). lia. }
  rewrite Hl2. cbn [mbind res_bind].
  destruct (Z.eqb_spec b 0); [unfold GRANULE in *; lia|]. eexists; split; [done|].
  destruct Hb2 as (E1 & E2 & E3). split; [|split; [by unfold same_bounds|]].
  2:{ intros x Hx. rewrite free_at_app, free_at_cons in Hx. unfold in_block in Hx. simpl.
      rewrite Hm2 by tauto. apply Hm1. tauto. }
  assert (total (pre ++ remains a s b (b + bsize) ++ post) = free (heap st) - bsize) as Htotal.
  { rewrite total_app, Htot, Hfree, total_app. lia. }
  assert (ordered (start (heap st) - 1) (end_ (heap st)) (pre ++ remains a s b (b + bsize) ++ post))
    as Hord' by (apply ordered_app; split; done).
  split; simpl; rewrite ?E1, ?E2, ?E3; [done..| |done|].
  - apply seg_app. exists rest. split; [done|]. eapply seg_ext; [|exact Hseg1].
    intros x t Hx. apply Hm2. intros (y & u & Hy & Hyx).
    assert (a ≤ x) as Hge.
    { apply elem_of_app in Hx as [Hx|Hx]; [apply (remains_elem _ _ _ _ _ _ Hx); lia|].
      destruct (ordered_bounds _ _ _ _ _ Hpost Hx) as (?&_). unfold GRANULE in *; lia. }
    pose proof (before_last_end _ _ _ _ _ Hord1 Hy). lia.
  - rewrite Hf2, Htotal. unfold wrap. rewrite Hfree in *. pose proof (total_bound _ _ _ Hord').
    apply Z.mod_small. unfold GRANULE in *. lia.
Qed.

Lemma remains_free a s b n x :
  a ≤ b → b + n ≤ a + s → 0 ≤ n →
  free_at (remains a s b (b + n)) x ↔ in_block a s x ∧ ¬ in_block b n x.
Proof.
  intros. unfold remains. rewrite free_at_app. unfold in_block.
  destruct (Z.ltb_spec a b), (Z.ltb_spec (b + n) (a + s));
    rewrite ?free_at_cons, ?free_at_nil; unfold in_block; lia.
Qed.

(** ** [allocate] is first fit: the lowest address that will do *)
Definition can_place (l : holes) (n align b : Z) : Prop :=
  b mod align = 0 ∧ ∀ x, in_block b n x → free_at l x.

Definition no_fit (n align : Z) (l : holes) : Prop :=
  ∀ a s, (a, s) ∈ l → a + s < next_multiple a align + n.

Lemma no_fit_place lo hi l n align b :
  ordered lo hi l → 0 < n → 0 < align → no_fit n align l → ¬ can_place l n align b.
Proof.
  intros Ho Hn Ha Hno [Hb Hrun].
  destruct (run_in_hole _ _ _ _ _ Ho Hn Hrun) as (a & s & Hin & ? & ?).
  pose proof (Hno _ _ Hin).
  destruct (next_multiple_spec a align Ha) as (_ & _ & Hleast).
  specialize (Hleast b ltac:(lia) Hb). lia.
Qed.

(** What a successful allocation of [n] bytes at [b] leaves behind. *)
Record taken (st : state) (l : holes) (n b : Z) (st' : state) (l' : holes) : Prop := {
  taken_inv : inv st' l';
  taken_bounds : same_bounds (heap st) (heap st');
  taken_free : ∀ x, free_at l' x ↔ free_at l x ∧ ¬ in_block b n x;
  taken_total : total l' = total l - n;
  taken_frame : ∀ x, ¬ free_at l x → mem st' x = mem st x
}.

Lemma allocate_loop_ok fuel st pre post cur n align :
  inv st (pre ++ post) → seg (mem st) cur post 0 → (length post < fuel)%nat →
  GRANULE ≤ n → n mod GRANULE = 0 → 0 < align → align mod GRANULE = 0 →
  no_fit n align pre →
  (∃ b st' l', allocate_loop fuel st n align (prev_of pre) cur = Ok (Some b, st') ∧
     taken st (pre ++ post) n b st' l' ∧ can_place (pre ++ post) n align b ∧
     ∀ b', can_place (pre ++ post) n align b' → b ≤ b') ∨
  (allocate_loop fuel st n align (prev_of pre) cur = Ok (None, st) ∧ no_fit n align (pre ++ post)).
Proof.
  intros Hinv Hseg Hfuel Hn Hnm Hal Halm. assert (0 < GRANULE) as HG by done.
  revert pre cur fuel Hinv Hseg Hfuel.
  induction post as [|[a s] post IH]; intros pre cur [|fuel] Hinv Hseg Hfuel Hno;
    simpl in Hfuel; try lia; simpl in Hseg.
  { right. subst cur. rewrite app_nil_r. done. }
  destruct Hseg as (-> & Hs & Hnext). cbn [allocate_loop].
  assert ((a, s) ∈ pre ++ (a, s) :: post) as Hin by set_solver.
  destruct (Z.eqb_spec a 0) as [|_]; [by destruct (hole_nonzero _ _ Hinv _ _ Hin)|].
  rewrite (read_ok _ _ Hinv a s Hin). cbn [mbind res_bind].
  pose proof (ordered_bounds _ _ _ _ _ (inv_ordered _ _ Hinv) Hin) as (Hlo & Hsz & Hhi & Ham & _).
  pose proof (inv_start _ _ Hinv) as [? _]. pose proof (inv_end _ _ Hinv) as [[_ ?] _].
  rewrite Hs. replace (wrap 64 (a + s)) with (a + s) by (symmetry; apply Z.mod_small; lia).
  rewrite fits_spec by lia. destruct (next_multiple_spec a align Hal) as (Hb1 & Hb2 & Hb3).
  set (b := next_multiple a align) in *.
  destruct (Z.leb_spec (b + n) (a + s)) as [Hfit|Hnofit].
  - left. destruct (carve_ok st pre a s post b n Hinv) as (st' & Hc & Hinv' & Hb & Hfr);
      [lia|by apply (aligned_granule _ align)|done..|].
    eexists b, st', _. split; [exact Hc|].
    assert (∀ x, in_block b n x → in_block a s x) as Hsub by (unfold in_block; lia).
    pose proof (inv_ordered _ _ Hinv) as [Ho1 Ho2]%ordered_app.
    split_and!.
    + split; [done..| | |done].
      2:{ destruct (remains_ordered _ _ _ _ b (b + n) _ Ho2) as [_ Ht]; [lia..| | |].
          - by apply (aligned_granule _ align).
          - apply mod_add_granule; [by apply (aligned_granule _ align)|done].
          - rewrite (total_app pre), Ht, total_app. simpl. lia. }
      intros x. rewrite !free_at_app, free_at_cons, remains_free by lia.
      destruct Ho2 as (Hle & _ & _ & _ & _ & Ho2).
      assert (free_at pre x → x < a).
      { intros (c & t & Hc' & ?). pose proof (before_last_end _ _ _ _ _ Ho1 Hc'). lia. }
      assert (free_at post x → a + s < x) by (intros Hx; by destruct (free_at_bounds _ _ _ _ Ho2 Hx)).
      specialize (Hsub x). unfold in_block in *. naive_solver lia.
    + split; [done|]. intros x Hx%Hsub. rewrite free_at_app, free_at_cons. by right; left.
    + intros b' [Hb'1 Hb'2].
      destruct (run_in_hole _ _ _ b' n (inv_ordered _ _ Hinv) ltac:(lia) Hb'2)
        as (c & t & Hc' & ? & ?).
      apply elem_of_app in Hc' as [Hc'|[[= -> ->]|Hc']%elem_of_cons].
      * pose proof (Hno _ _ Hc'). destruct (next_multiple_spec c align Hal) as (_ & _ & Hleast).
        specialize (Hleast b' ltac:(lia) Hb'1). lia.
      * apply Hb3; [lia|done].
      * destruct Ho2 as (_ & _ & _ & _ & _ & Ho2).
        destruct (ordered_bounds _ _ _ _ _ Ho2 Hc') as (?&?&_). lia.
  - pose proof (prev_of_snoc pre a s) as Hp.
    replace (pre ++ (a, s) :: post) with ((pre ++ [(a, s)]) ++ post) in * by by rewrite <-app_assoc.
    destruct (IH (pre ++ [(a, s)]) (next (mem st a)) fuel) as [Hok|Hok]; [done..|lia| | |];
      [|rewrite Hp in Hok; by left|rewrite Hp in Hok; by right].
    intros c t [Hc|[= -> ->]%list_elem_of_singleton]%elem_of_app; [by apply Hno|done].
Qed.

Lemma allocate_ok fuel st l layout :
  inv st l → layout_valid layout → (length l < fuel)%nat →
  (∃ b st' l', allocate fuel st layout = Ok (Some b, st') ∧
     taken st l (bsize_of layout) b st' l' ∧
     can_place l (bsize_of layout) (align_of layout) b ∧
     ∀ b', can_place l (bsize_of layout) (align_of layout) b' → b ≤ b') ∨
  (allocate fuel st layout = Ok (None, st) ∧
     ∀ b, ¬ can_place l (bsize_of layout) (align_of layout) b).
Proof.
  intros Hinv Hlay Hfuel. unfold allocate.
  destruct (block_size_ok layout Hlay) as (-> & Hn & Hnm & _).
  destruct (align_of_granule layout Hlay) as (Ha & Ham & _).
  destruct (allocate_loop_ok fuel st [] l (head (heap st)) (bsize_of layout) (align_of layout))
    as [Hl|[Hl Hno]]; try done.
  { apply (inv_seg _ _ Hinv). }
  { intros a s Hc. set_solver. }
  - by left.
  - right. split; [done|]. intros b.
    apply (no_fit_place _ _ _ _ _ _ (inv_ordered _ _ Hinv)); [unfold GRANULE in *; lia|done..].
Qed.

(** ** [deallocate]: the walk to the neighbours of the block *)
Definition head_of (l : holes) : Z := match l with (a, _) :: _ => a | [] => 0 end.

Lemma seg_head m cur l : seg m cur l 0 → cur = head_of l.
Proof. destruct l as [|[a s] l]; simpl; naive_solver. Qed.

Lemma find_around_ok fuel st pre post block :
  inv st (pre ++ post) → (length post < fuel)%nat → (∀ a s, (a, s) ∈ pre → a < block) →
  ∃ pre' post', pre ++ post = pre' ++ post' ∧
    find_around fuel st block (prev_of pre) (head_of post) = Ok (prev_of pre', head_of post') ∧
    (∀ a s, (a, s) ∈ pre' → a < block) ∧ (∀ a s, (a, s) ∈ post' → block ≤ a).
Proof.
  revert pre fuel. induction post as [|[a s] post IH]; intros pre [|fuel] Hinv Hfuel Hpre;
    simpl in Hfuel; try lia; simpl.
  { exists pre, []. split_and!; [done..|]. set_solver. }
  assert ((a, s) ∈ pre ++ (a, s) :: post) as Hin by set_solver.
  destruct (Z.eqb_spec a 0) as [|_]; [by destruct (hole_nonzero _ _ Hinv _ _ Hin)|]. simpl.
  destruct (Z.ltb_spec a block) as [Hlt|Hge]; simpl.
  - rewrite (read_ok _ _ Hinv a s Hin). cbn [mbind res_bind].
    pose proof (inv_seg _ _ Hinv) as (mid & _ & -> & _ & Hnext%seg_head)%seg_app. rewrite Hnext.
    replace (pre ++ (a, s) :: post) with ((pre ++ [(a, s)]) ++ post) in * by by rewrite <-app_assoc.
    destruct (IH (pre ++ [(a, s)]) fuel Hinv) as (pre' & post' & ? & Hf & ? & ?); [lia| |].
    { intros b t [Hb|[= -> ->]%list_elem_of_singleton]%elem_of_app; [by apply (Hpre b t)|done]. }
    rewrite prev_of_snoc in Hf. by exists pre', post'.
  - exists pre, ((a, s) :: post). split_and!; [done..|].
    pose proof (inv_ordered _ _ Hinv) as [_ (_ & _ & ? & _ & _ & Ho)]%ordered_app.
    intros b t [[= -> ->]|Hb]%elem_of_cons; [done|].
    destruct (ordered_bounds _ _ _ _ _ Ho Hb) as (?&_). unfold GRANULE in *. lia.
Qed.

(** ** Merging with the next and the previous hole *)
Lemma ordered_lo lo lo' hi l :
  ordered lo hi l → (∀ a s, (a, s) ∈ l → lo' < a) → lo' ≤ hi → ordered lo' hi l.
Proof.
  destruct l as [|[a s] l]; simpl; [done|]. intros (?&?&?&?&?&?) Hlo ?.
  split_and!; try done. apply (Hlo a s). by left.
Qed.

Definition absorb_next (block n : Z) (post : holes) : Z * holes :=
  match post with
  | (c, t) :: post' => if block + n =? c then (n + t, post') else (n, post)
  | [] => (n, [])
  end.

Definition absorb_prev (pre : holes) (block m : Z) (rest : holes) : holes :=
  match last pre with
  | Some (p, ps) =>
      if p + ps =? block then removelast pre ++ (p, ps + m) :: rest
      else pre ++ (block, m) :: rest
  | None => (block, m) :: rest
  end.

Lemma absorb_next_ok lo hi post block n :
  ordered lo hi post → block mod GRANULE = 0 → GRANULE ≤ n → n mod GRANULE = 0 →
  block + n ≤ hi → (∀ a s, (a, s) ∈ post → block + n ≤ a) →
  ordered (block - 1) hi ((block, (absorb_next block n post).1) :: (absorb_next block n post).2) ∧
  total ((block, (absorb_next block n post).1) :: (absorb_next block n post).2) = n + total post ∧
  (∀ x, free_at ((block, (absorb_next block n post).1) :: (absorb_next block n post).2) x ↔
        in_block block n x ∨ free_at post x).
Proof.
  intros Ho Hb Hn Hnm Hhi Hpost. assert (0 < GRANULE) by done.
  destruct post as [|[c t] post]; simpl.
  { split_and!; [lia|done..|lia|lia|intros x; by rewrite free_at_cons]. }
  pose proof (Hpost c t ltac:(by left)) as Hc. simpl in Ho.
  destruct Ho as (Hlo & Hcm & Ht & Htm & Hct & Ho).
  destruct (Z.eqb_spec (block + n) c) as [<-|Hne]; simpl.
  - split; [split_and!; [lia|done|lia|by apply mod_add_granule|lia|]|split; [lia|]].
    { replace (block + (n + t)) with (block + n + t) by lia. done. }
    intros x. rewrite !free_at_cons. unfold in_block. pose proof (free_at_bounds _ _ _ x Ho).
    naive_solver lia.
  - split; [split_and!; try done; lia|split; [lia|]]. intros x. by rewrite !free_at_cons.
Qed.

Lemma absorb_prev_ok lo hi pre block m rest :
  ordered lo hi pre → ordered (block - 1) hi ((block, m) :: rest) → lo < block →
  (pre = [] ∨ last_end lo pre ≤ block) →
  ordered lo hi (absorb_prev pre block m rest) ∧
  total (absorb_prev pre block m rest) = total pre + total ((block, m) :: rest) ∧
  (∀ x, free_at (absorb_prev pre block m rest) x ↔ free_at pre x ∨ free_at ((block, m) :: rest) x).
Proof.
  intros Ho Hr Hlo Hle. assert (0 < GRANULE) by done. pose proof Hr as (_ & Hbm & Hm & Hmm & Hhi & Hrest).
  destruct pre as [|[p ps] pre _] using rev_ind.
  { unfold absorb_prev; simpl. split; [naive_solver|split; [done|]].
    intros x. rewrite free_at_nil. tauto. }
  unfold absorb_prev. rewrite last_snoc, removelast_last. rewrite last_end_snoc in Hle.
  destruct Hle as [Hle|Hle]; [by destruct pre|].
  pose proof Ho as [Ho1 (Hp & Hpm & Hps & Hpsm & Hphi & _)]%ordered_app.
  destruct (Z.eqb_spec (p + ps) block) as [Heq|Hne].
  - rewrite ordered_app, !total_app. simpl. subst block.
    split; [|split; [lia|]].
    { split_ands; try done; try lia; [by apply mod_add_granule|]. by replace (p + (ps + m)) with (p + ps + m) by lia. }
    intros x. rewrite !free_at_app, !free_at_cons, free_at_nil. unfold in_block. naive_solver lia.
  - rewrite ordered_app, !total_app, last_end_snoc. split; [|split; [simpl; lia|]].
    + split; [done|]. simpl. split_and!; try done. lia.
    + intros x. by rewrite !free_at_app.
Qed.

(** ** The checks of [deallocate] *)
Definition hits_prev (pre : holes) (block : Z) : bool :=
  match last pre with Some (p, ps) => block <? p + ps | None => false end.
Definition hits_next (post : holes) (block_end : Z) : bool :=
  match post with (c, _) :: _ => c <? block_end | [] => false end.

(** Looking at the two neighbours is looking at every hole. *)
Lemma neighbours_disjoint lo hi pre post block n :
  ordered lo hi (pre ++ post) → 0 < n →
  (∀ a s, (a, s) ∈ pre → a < block) → (∀ a s, (a, s) ∈ post → block ≤ a) →
  hits_prev pre block = false ∧ hits_next post (block + n) = false ↔
  ∀ x, in_block block n x → ¬ free_at (pre ++ post) x.
Proof.
  intros Ho Hn Hpre Hpost. assert (0 < GRANULE) by done. pose proof Ho as [Ho1 Ho2]%ordered_app.
  split.
  - intros [Hp Hq] x Hx (a & s & [Ha|Ha]%elem_of_app & Hax); unfold in_block in *.
    + destruct pre as [|[p ps] pre' _] using rev_ind; [set_solver|].
      unfold hits_prev in Hp. rewrite last_snoc in Hp. apply Z.ltb_ge in Hp.
      pose proof (before_last_end _ _ _ _ _ Ho1 Ha) as Hl. rewrite last_end_snoc in Hl. lia.
    + destruct post as [|[c t] post']; [set_solver|]. simpl in Hq. apply Z.ltb_ge in Hq.
      apply elem_of_cons in Ha as [[= -> ->]|Ha]; [lia|].
      destruct Ho2 as (_ & _ & ? & _ & _ & Ho2). destruct (ordered_bounds _ _ _ _ _ Ho2 Ha). lia.
  - intros Hdis. split.
    + destruct pre as [|[p ps] pre' _] using rev_ind; [done|].
      unfold hits_prev. rewrite last_snoc. apply Z.ltb_ge.
      assert ((p, ps) ∈ pre' ++ [(p, ps)]) as Hin by set_solver. pose proof (Hpre _ _ Hin).
      destruct (Z.le_gt_cases (p + ps) block) as [|Hgt]; [done|].
      destruct (Hdis block); [unfold in_block; lia|]. exists p, ps. split; [set_solver|lia].
    + destruct post as [|[c t] post']; [done|]. simpl. apply Z.ltb_ge.
      pose proof (Hpost c t ltac:(by left)). destruct Ho2 as (_ & _ & ? & _).
      destruct (Z.le_gt_cases (block + n) c) as [|Hgt]; [done|].
      destruct (Hdis c); [unfold in_block; lia|]. exists c, t. split; [set_solver|lia].
Qed.

Section neighbours.
  Context (st : state) (pre post : holes) (Hinv : inv st (pre ++ post)).

Lemma read_prev {E} :
  (if prev_of pre =? 0 then Ok None
   else hole ← read_hole (E:=E) st (prev_of pre); Ok (Some hole)) =
  Ok ((λ h, {| size := h.2; next := head_of post |}) <$> last pre).
Proof.
  pose proof (inv_seg _ _ Hinv) as Hs. destruct pre as [|[p ps] pre' _] using rev_ind; [done|].
  rewrite prev_of_snoc, last_snoc. simpl.
  assert ((p, ps) ∈ (pre' ++ [(p, ps)]) ++ post) as Hin by set_solver.
  destruct (Z.eqb_spec p 0) as [->|_]; [by destruct (hole_nonzero _ _ Hinv _ _ Hin)|].
  rewrite (read_ok _ _ Hinv _ _ Hin). simpl.
  apply seg_app in Hs as (mid & (? & _ & -> & Hsz & Hn)%seg_app & Hpost%seg_head).
  simpl in Hn. rewrite <-Hpost, <-Hn, <-Hsz. by destruct (mem st p).
Qed.

Lemma read_next {E} block n :
  0 ≤ n → 0 ≤ block → block + n ≤ end_ (heap st) →
  (if negb (head_of post =? 0) && (block + n =? head_of post)
   then next_hole ← read_hole (E:=E) st (head_of post);
        Ok {| size := wrap 64 (n + size next_hole); next := next next_hole |}
   else Ok {| size := n; next := head_of post |}) =
  Ok {| size := (absorb_next block n post).1; next := head_of (absorb_next block n post).2 |}.
Proof.
  intros Hn Hb Hend. pose proof (inv_seg _ _ Hinv) as (mid & _ & Hs)%seg_app.
  destruct post as [|[c t] post']; [done|]. simpl.
  assert ((c, t) ∈ pre ++ (c, t) :: post') as Hin by set_solver.
  destruct (Z.eqb_spec c 0) as [->|_]; [by destruct (hole_nonzero _ _ Hinv _ _ Hin)|]. simpl.
  destruct (Z.eqb_spec (block + n) c) as [Hc|]; [|done].
  rewrite (read_ok _ _ Hinv _ _ Hin). simpl. destruct Hs as (_ & -> & ->%seg_head).
  destruct (ordered_bounds _ _ _ _ _ (inv_ordered _ _ Hinv) Hin) as (_ & ? & ? & _).
  pose proof (inv_end _ _ Hinv) as [[_ ?] _]. do 2 f_equal. apply Z.mod_small.
  unfold GRANULE in *. lia.
Qed.

Lemma prev_end p ps : last pre = Some (p, ps) → wrap 64 (p + ps) = p + ps.
Proof.
  intros Hl. assert ((p, ps) ∈ pre ++ post) as Hin.
  { apply elem_of_app. left. apply last_Some in Hl as [l ->]. set_solver. }
  destruct (ordered_bounds _ _ _ _ _ (inv_ordered _ _ Hinv) Hin) as (? & ? & ? & _).
  pose proof (inv_end _ _ Hinv) as [[_ ?] _]. pose proof (inv_start _ _ Hinv) as [? _].
  apply Z.mod_small. unfold GRANULE in *. lia.
Qed.
End neighbours.

(** Writing the merged hole and hanging it behind [pre]. *)
Section hook.
  Context {E : Type}.
  Context (st : state) (pre post rest : holes) (block m : Z) (Hinv : inv st (pre ++ post)).
  Context (Hrest : seg (mem st) (head_of rest) rest 0).
  Context (Hbm : block mod GRANULE = 0) (Hsb : start (heap st) ≤ block).
  Context (Hbe : block + GRANULE ≤ end_ (heap st)).
  Context (Hpre : ∀ a s, (a, s) ∈ pre → a + s ≤ block).
  Context (Hpost : ∀ a s, (a, s) ∈ rest → block < a).

Lemma hook_plain :
  ∃ st2, (st ← write_hole (E:=E) st block {| size := m; next := head_of rest |};
          link st (prev_of pre) block) = Ok st2 ∧
    seg (mem st2) (head (heap st2)) (pre ++ (block, m) :: rest) 0 ∧
    same_bounds (heap st) (heap st2) ∧ free (heap st2) = free (heap st) ∧
    (∀ x, ¬ free_at pre x → x ≠ block → mem st2 x = mem st x).
Proof.
  pose proof (inv_ordered _ _ Hinv) as [Ho _]%ordered_app. assert (0 < GRANULE) as HG by done.
  rewrite (write_ok st _ Hinv) by done. cbn [mbind res_bind].
  assert (¬ free_at pre block) as Hnot.
  { intros (c & t & Hc & ?). pose proof (Hpre _ _ Hc). lia. }
  destruct (link_ok (E:=E) st {| heap := heap st;
      mem := <[block := {| size := m; next := head_of rest |}]> (mem st) |} pre post block Hinv)
    as (st2 & Hl & Hs2 & Hm2 & Hb2 & Hf2); [done| |].
  { intros c t Hc. simpl. rewrite fn_lookup_insert_ne; [done|]. intros <-.
    apply Hnot. exists block, t. split; [done|].
    destruct (ordered_bounds _ _ _ _ _ Ho Hc). lia. }
  exists st2. split; [done|]. split_and!; [|done..|].
  - apply seg_app. exists block. split; [done|]. simpl.
    rewrite Hm2 by done. simpl. rewrite fn_lookup_insert. simpl. split_and!; [done..|].
    eapply seg_ext; [|exact Hrest]. intros c t Hc. pose proof (Hpost _ _ Hc).
    rewrite Hm2; simpl; [rewrite fn_lookup_insert_ne by lia; done|].
    intros (d & u & Hd & ?). pose proof (Hpre _ _ Hd). lia.
  - intros x Hx Hne. rewrite Hm2 by done. simpl. by rewrite fn_lookup_insert_ne.
Qed.

(** The last part of [deallocate], whichever neighbour it merges with. *)
Lemma hook_ok :
  0 ≤ m → block + m ≤ end_ (heap st) →
  ∃ st2,
    match (λ h, {| size := h.2; next := head_of post |}) <$> last pre with
    | Some hole =>
        if wrap 64 (prev_of pre + size hole) =? block
        then write_hole (E:=E) st (prev_of pre)
               {| size := wrap 64 (size hole + m); next := head_of rest |}
        else st ← write_hole st block {| size := m; next := head_of rest |};
             link st (prev_of pre) block
    | None => st ← write_hole st block {| size := m; next := head_of rest |};
              link st (prev_of pre) block
    end = Ok st2 ∧
    seg (mem st2) (head (heap st2)) (absorb_prev pre block m rest) 0 ∧
    same_bounds (heap st) (heap st2) ∧ free (heap st2) = free (heap st) ∧
    (∀ x, ¬ free_at pre x → x ≠ block → mem st2 x = mem st x).
Proof.
  intros Hm Hbend. pose proof hook_plain as Hplain. assert (0 < GRANULE) as HG by done.
  pose proof (inv_seg _ _ Hinv) as (mid & Hpseg & _)%seg_app.
  pose proof (inv_ordered _ _ Hinv) as [Ho _]%ordered_app.
  pose proof (inv_end _ _ Hinv) as [[_ ?] _]. pose proof (inv_start _ _ Hinv) as [? _].
  unfold absorb_prev. destruct (last pre) as [[p ps]|] eqn:Hlast; simpl.
  2:{ apply last_None in Hlast. rewrite Hlast in *. exact Hplain. }
  rewrite (prev_end st pre post Hinv) by (unfold prev_of; by rewrite Hlast).
  unfold prev_of in *. rewrite Hlast in *.
  destruct (Z.eqb_spec (p + ps) block) as [Heq|Hne]; [|exact Hplain]. clear Hplain.
  apply last_Some in Hlast as [pre' Hpre']. rewrite Hpre' in *. rewrite removelast_last.
  assert ((p, ps) ∈ pre' ++ [(p, ps)]) as Hin by set_solver.
  destruct (ordered_bounds _ _ _ _ _ Ho Hin) as (? & ? & ? & ? & ?).
  rewrite (write_ok st _ Hinv) by lia. eexists; split; [done|]. simpl.
  apply seg_app in Hpseg as (? & Hpseg & <- & _ & _).
  apply ordered_app in Ho as [Ho' Ho'']. simpl in Ho''.
  split_and!; [|done..|].
  - apply seg_app. exists x. split.
    + eapply seg_ext; [|exact Hpseg]. intros c t Hc.
      pose proof (before_last_end _ _ _ _ _ Ho' Hc). destruct (ordered_bounds _ _ _ _ _ Ho' Hc).
      by rewrite fn_lookup_insert_ne by lia.
    + simpl. rewrite fn_lookup_insert. simpl. split_and!; [done| |].
      { apply Z.mod_small. lia. }
      eapply seg_ext; [|exact Hrest]. intros c t Hc. pose proof (Hpost _ _ Hc).
      by rewrite fn_lookup_insert_ne by lia.
  - intros y Hy _. rewrite fn_lookup_insert_ne; [done|]. intros <-. apply Hy.
    exists x, ps. split; [done|lia].
Qed.
End hook.

(** ** [deallocate] gives the block back, or panics *)
Definition owned (st : state) (l : holes) (block n : Z) : Prop :=
  start (heap st) ≤ block ∧ block + n ≤ end_ (heap st) ∧ block mod GRANULE = 0 ∧
  ∀ x, in_block block n x → ¬ free_at l x.

Record given (st : state) (l : holes) (n b : Z) (st' : state) (l' : holes) : Prop := {
  given_inv : inv st' l';
  given_bounds : same_bounds (heap st) (heap st');
  given_free : ∀ x, free_at l' x ↔ free_at l x ∨ in_block b n x;
  given_total : total l' = total l + n;
  given_frame : ∀ x, ¬ free_at l x → ¬ in_block b n x → mem st' x = mem st x
}.

Section deallocate.
  Context (st : state) (l : holes) (layout : Layout) (fuel : nat) (block : Z).
  Context (Hinv : inv st l) (Hlay : layout_valid layout) (Hfuel : (length l < fuel)%nat).
  Context (Hb : 0 ≤ block).

Definition in_range : bool :=
  (start (heap st) <=? block) && (block + bsize_of layout <=? end_ (heap st))
  && is_multiple_of block GRANULE.

Definition hook (pre post : holes) : may state :=
  let m := (absorb_next block (bsize_of layout) post).1 in
  let nxt := head_of (absorb_next block (bsize_of layout) post).2 in
  match (λ h, {| size := h.2; next := head_of post |}) <$> last pre with
  | Some hole =>
      if wrap 64 (prev_of pre + size hole) =? block
      then write_hole st (prev_of pre) {| size := wrap 64 (size hole + m); next := nxt |}
      else st ← write_hole st block {| size := m; next := nxt |}; link st (prev_of pre) block
  | None => st ← write_hole st block {| size := m; next := nxt |}; link st (prev_of pre) block
  end.

(** The body, once the walk has found where the block goes. *)
Lemma deallocate_eq :
  ∃ pre post, l = pre ++ post ∧ (∀ a s, (a, s) ∈ pre → a < block) ∧ (∀ a s, (a, s) ∈ post → block ≤ a) ∧
    deallocate fuel st block layout =
      if negb in_range || hits_prev pre block || hits_next post (block + bsize_of layout) then Panic
      else st2 ← hook pre post; Ok (with_free st2 (wrap 64 (free (heap st2) + bsize_of layout))).
Proof.
  destruct (find_around_ok fuel st [] l block Hinv Hfuel) as (pre & post & Hl & Hf & Hpre & Hpost).
  { set_solver. }
  simpl in Hl. subst l. exists pre, post. split_and!; [done..|]. simpl in Hf.
  rewrite <-(seg_head _ _ _ (inv_seg _ _ Hinv)) in Hf.
  pose proof (inv_end _ _ Hinv) as [[_ Hend] _].
  unfold deallocate. destruct (block_size_ok layout Hlay) as (-> & Hn & Hnm & _).
  cbn [mbind res_bind expect]. unfold in_range, checked_add.
  destruct (Z.ltb_spec (block + bsize_of layout) (2 ^ 64)); cbn [mbind option_bind];
    destruct (Z.leb_spec (start (heap st)) block), (Z.leb_spec (block + bsize_of layout) (end_ (heap st)));
    try lia; cbn [andb negb orb expect mbind res_bind]; try done.
  destruct (is_multiple_of block GRANULE); cbn [andb negb orb expect mbind res_bind]; [|done].
  change (prev_of []) with 0 in Hf. rewrite Hf. cbn [mbind res_bind]. rewrite (read_prev st pre post Hinv). cbn [mbind res_bind].
  rewrite (read_next st pre post Hinv) by (unfold GRANULE in *; lia).
  assert (negb (head_of post =? 0) && (head_of post <? block + bsize_of layout) =
          hits_next post (block + bsize_of layout)) as ->.
  { destruct post as [|[c t] post']; [done|]. simpl.
    destruct (Z.eqb_spec c 0) as [->|]; [|done].
    destruct (hole_nonzero _ _ Hinv 0 t); [set_solver|done]. }
  assert (match (λ h : Z * Z, {| size := h.2; next := head_of post |}) <$> last pre with
          | Some hole => block <? wrap 64 (prev_of pre + size hole) | None => false end
          = hits_prev pre block) as ->.
  { unfold hits_prev. pose proof (prev_end st pre post Hinv) as Hpe. unfold prev_of.
    destruct (last pre) as [[p ps]|]; [|done]. simpl. by rewrite (Hpe p ps). }
  by destruct (hits_prev pre block), (hits_next post _).
Qed.

Lemma in_range_true :
  in_range = true ↔ start (heap st) ≤ block ∧ block + bsize_of layout ≤ end_ (heap st) ∧
                    block mod GRANULE = 0.
Proof.
  unfold in_range, is_multiple_of. rewrite !andb_true_iff, !Z.leb_le, Z.eqb_eq. tauto.
Qed.

(** The guards: a block outside the heap, or one that overlaps free memory. *)
Lemma deallocate_panics :
  ¬ owned st l block (bsize_of layout) → deallocate fuel st block layout = Panic.
Proof.
  intros Hno. destruct deallocate_eq as (pre & post & Hl & Hpre & Hpost & ->).
  destruct (block_size_ok layout Hlay) as (_ & Hn & _).
  destruct in_range eqn:Hr; [|done]. apply in_range_true in Hr as (?&?&?).
  destruct (hits_prev pre block) eqn:Hp; [done|].
  destruct (hits_next post (block + bsize_of layout)) eqn:Hq; [done|].
  destruct Hno. split_and!; [done..|]. rewrite Hl in *.
  apply (neighbours_disjoint _ _ _ _ _ _ (inv_ordered _ _ Hinv)); [unfold GRANULE in *; lia|done..].
Qed.

Lemma hits_false pre post n :
  l = pre ++ post → (∀ a s, (a, s) ∈ pre → a < block) →
  hits_prev pre block = false → hits_next post (block + n) = false →
  (pre = [] ∨ last_end (start (heap st) - 1) pre ≤ block) ∧
  (∀ a s, (a, s) ∈ pre → a + s ≤ block) ∧ (∀ a s, (a, s) ∈ post → block + n ≤ a).
Proof.
  intros -> Hpre Hp Hq. pose proof (inv_ordered _ _ Hinv) as [Ho1 Ho2]%ordered_app.
  assert (pre = [] ∨ last_end (start (heap st) - 1) pre ≤ block) as Hle.
  { destruct pre as [|[p ps] pre' _] using rev_ind; [by left|right].
    unfold hits_prev in Hp. rewrite last_snoc in Hp. rewrite last_end_snoc. by apply Z.ltb_ge. }
  split_and!; [done| |].
  - intros a s Ha. pose proof (before_last_end _ _ _ _ _ Ho1 Ha). destruct Hle as [->|]; [set_solver|lia].
  - intros a s Ha. destruct post as [|[c t] post']; [set_solver|]. simpl in Hq. apply Z.ltb_ge in Hq.
    apply elem_of_cons in Ha as [[= -> ->]|Ha]; [done|].
    destruct Ho2 as (_ & _ & ? & _ & _ & Ho2). destruct (ordered_bounds _ _ _ _ _ Ho2 Ha).
    unfold GRANULE in *. lia.
Qed.

Lemma deallocate_gives :
  owned st l block (bsize_of layout) →
  ∃ st' l', deallocate fuel st block layout = Ok st' ∧ given st l (bsize_of layout) block st' l'.
Proof.
  intros (H1 & H2 & H3 & Hdis). destruct deallocate_eq as (pre & post & Hl & Hpre & Hpost & ->).
  destruct (block_size_ok layout Hlay) as (_ & Hn & Hnm & _). set (n := bsize_of layout) in *.
  assert (0 < GRANULE) by done. pose proof (hits_false pre post n Hl Hpre) as Hhits. rewrite Hl in *.
  pose proof (inv_ordered _ _ Hinv) as Ho. pose proof Ho as [Ho1 Ho2]%ordered_app.
  destruct (proj2 (neighbours_disjoint _ _ _ _ block n Ho ltac:(lia) Hpre Hpost) Hdis) as [Hp Hq].
  rewrite (proj2 in_range_true), Hp, Hq by done. cbn [negb orb].
  destruct Hhits as (Hle & Hpre' & Hpost'); [done..|].
  destruct (absorb_next_ok _ _ post block n Ho2) as (Hn1 & Hn2 & Hn3); [done..|].
  unfold hook. fold n. destruct (absorb_next block n post) as [m rest] eqn:Habs. cbn [fst snd] in *.
  pose proof Hn1 as (_ & _ & Hm & _ & Hme & Hrest).
  destruct (hook_ok (E:=Empty_set) st pre post rest block m Hinv) as (st2 & -> & Hs & Hb2 & Hf2 & Hfr);
    try done; try lia.
  { pose proof (inv_seg _ _ Hinv) as (mid & _ & Hs)%seg_app. pose proof (seg_head _ _ _ Hs) as ->.
    destruct post as [|[c t] post']; simpl in Habs; simplify_eq; [done|].
    destruct Hs as (_ & ? & Hs). destruct (block + n =? c); simplify_eq; [|done].
    by rewrite (seg_head _ _ _ Hs) in Hs. }
  { intros a s Ha. destruct (ordered_bounds _ _ _ _ _ Hrest Ha). lia. }
  cbn [mbind res_bind]. eexists _, _. split; [done|].
  destruct (absorb_prev_ok _ _ pre block m rest Ho1 Hn1) as (Ha1 & Ha2 & Ha3); [lia|done|].
  destruct Hb2 as (E1 & E2 & E3). split.
  - destruct Hinv as [? [? ?] [? ?] _ _ Hfree]. split; simpl; rewrite ?E1, ?E2, ?E3; try done.
    rewrite Hf2, Ha2, Hn2, Hfree, total_app. unfold wrap. rewrite Z.mod_small; [lia|].
    rewrite Hn2 in Ha2. pose proof (total_bound _ _ _ Ha1). rewrite Ha2 in *. lia.
  - done.
  - intros x. rewrite Ha3, free_at_app, Hn3. tauto.
  - rewrite Ha2, Hn2, total_app. lia.
  - intros x Hx Hxb. simpl. rewrite free_at_app in Hx. apply Hfr; [tauto|].
    intros ->. apply Hxb. unfold in_block. lia.
Qed.
End deallocate.
