(* ===== verification/FreeListThms.v ===== *)
(** * The kernel heap: what it guarantees

    [init] establishes the invariant; [check] accepts a heap exactly when
    some list of holes satisfies it; a client that allocates, frees and
    writes to its own blocks in any order never makes the heap panic, never
    shares a byte between two blocks, and loses none. *)

From S2P Require Import Prelude Words FreeList FreeListProofs.
Local Open Scope Z_scope.

(** ** [init] *)
Definition first_of (start_ptr : Z) : Z := next_multiple start_ptr GRANULE.
Definition last_of (start_ptr region : Z) : Z :=
  Z.max ((start_ptr + region) / GRANULE * GRANULE) (first_of start_ptr).

Definition initial_holes (start_ptr region : Z) : holes :=
  if first_of start_ptr <? last_of start_ptr region
  then [(first_of start_ptr, last_of start_ptr region - first_of start_ptr)] else [].

Lemma init_ok m start_ptr region :
  0 < start_ptr → 0 ≤ region → start_ptr + region + GRANULE < 2 ^ 64 →
  ∃ st, init {| heap := empty; mem := m |} start_ptr region = Ok st ∧
    inv st (initial_holes start_ptr region) ∧
    start (heap st) = first_of start_ptr ∧ end_ (heap st) = last_of start_ptr region.
Proof.
  intros Hs Hr Hlt. assert (0 < GRANULE) as HG by done. unfold init. simpl.
  rewrite checked_next_multiple by (unfold GRANULE in *; lia). fold (first_of start_ptr).
  destruct (next_multiple_spec start_ptr GRANULE HG) as (Hf1 & Hf2 & _). fold (first_of start_ptr) in *.
  destruct (Z.ltb_spec (first_of start_ptr) (2 ^ 64)); [|lia]. simpl.
  unfold checked_add. destruct (Z.ltb_spec (start_ptr + region) (2 ^ 64)); [|lia]. simpl.
  fold (last_of start_ptr region).
  assert (last_of start_ptr region mod GRANULE = 0) as Hlm.
  { unfold last_of. destruct (Z.max_spec ((start_ptr + region) / GRANULE * GRANULE) (first_of start_ptr))
      as [[_ ->]|[_ ->]]; [done|]. apply Z.mod_mul. lia. }
  assert (first_of start_ptr ≤ last_of start_ptr region < 2 ^ 64) as Hle.
  { unfold last_of. pose proof (Z.mul_div_le (start_ptr + region) GRANULE HG). lia. }
  assert (GRANULE ≤ first_of start_ptr) as HGf by (apply granule_gap; [done|lia]).
  pose proof (mod_sub_granule _ _ Hlm Hf1) as Hgm.
  unfold initial_holes. destruct (Z.ltb_spec (first_of start_ptr) (last_of start_ptr region)) as [Hlt'|Hge].
  - pose proof (granule_gap _ Hgm ltac:(lia)) as Hgap. destruct (Z.leb_spec GRANULE (last_of start_ptr region - first_of start_ptr)); [|lia].
    unfold write_hole, hole_ptr, is_multiple_of, checked_add. simpl. rewrite Hf1. simpl.
    rewrite Z.leb_refl. destruct (Z.ltb_spec (first_of start_ptr + GRANULE) (2 ^ 64)); [|lia].
    destruct (Z.leb_spec (first_of start_ptr + GRANULE) (last_of start_ptr region)); [|lia]. simpl.
    eexists; split; [done|]. split; [|done].
    split; simpl; rewrite ?fn_lookup_insert; simpl; split_ands; try done; lia.
  - destruct (Z.leb_spec GRANULE (last_of start_ptr region - first_of start_ptr)); [lia|].
    eexists; split; [done|]. split; [|done]. split; simpl; try done; lia.
Qed.

(** ** [check] *)
Record bounds_wf (st : state) : Prop := {
  wf_base : base (heap st) ≠ 0;
  wf_start : GRANULE ≤ start (heap st) ∧ start (heap st) mod GRANULE = 0;
  wf_end : start (heap st) ≤ end_ (heap st) < 2 ^ 64 ∧ end_ (heap st) mod GRANULE = 0
}.

Definition largest_of (l : holes) : Z := foldr (λ h acc, Z.max h.2 acc) 0 l.

Definition stats_of (st : state) (l : holes) : HeapStats :=
  {| stats_size := end_ (heap st) - start (heap st); stats_free := total l;
     stats_holes := Z.of_nat (length l); largest_hole := largest_of l |}.

Lemma wf_hole_ptr {E} st a :
  bounds_wf st → a mod GRANULE = 0 → start (heap st) ≤ a → a < end_ (heap st) →
  a + GRANULE ≤ end_ (heap st) ∧ read_hole (E:=E) st a = Ok (mem st a).
Proof.
  intros [_ _ [? Hem]] Ha Hs He.
  assert (a + GRANULE ≤ end_ (heap st)) as Hle.
  { pose proof (granule_gap (end_ (heap st) - a) (mod_sub_granule _ _ Hem Ha)). lia. }
  split; [done|]. unfold read_hole, hole_ptr, is_multiple_of, checked_add. rewrite Ha. simpl.
  destruct (Z.leb_spec (start (heap st)) a); [|lia].
  destruct (Z.ltb_spec (a + GRANULE) (2 ^ 64)); [|lia].
  by destruct (Z.leb_spec (a + GRANULE) (end_ (heap st))); [|lia].
Qed.

(** A hole the walk accepts after [lo]. *)
Definition good_hole (st : state) (lo cur : Z) : Prop :=
  lo < cur ∧ cur mod GRANULE = 0 ∧ GRANULE ≤ size (mem st cur) ∧
  size (mem st cur) mod GRANULE = 0 ∧ cur + size (mem st cur) ≤ end_ (heap st).

#[export] Instance good_hole_dec st lo cur : Decision (good_hole st lo cur).
Proof. unfold good_hole. apply _. Defined.

Definition after (st : state) (pe : option Z) (lo : Z) : Prop :=
  start (heap st) - 1 ≤ lo ∧ (pe = Some lo ∨ pe = None ∧ lo = start (heap st) - 1).

Lemma check_step st fuel mx f n lg pe lo cur :
  bounds_wf st → after st pe lo → cur ≠ 0 → n < mx →
  if decide (good_hole st lo cur)
  then check_loop (S fuel) st mx f n lg pe cur =
       check_loop fuel st mx (f + size (mem st cur)) (n + 1) (Z.max lg (size (mem st cur)))
         (Some (cur + size (mem st cur))) (next (mem st cur))
  else ∃ e, check_loop (S fuel) st mx f n lg pe cur = Err e.
Proof.
  intros Hwf [Hlo Hpe] Hcur Hn. cbn [check_loop]. unfold corrupt, is_multiple_of.
  rewrite (proj2 (Z.eqb_neq _ _) Hcur). destruct (Z.leb_spec mx n); [lia|].
  assert ((match pe with Some e => cur <=? e | None => false end) = true → cur ≤ lo) as Hord.
  { destruct Hpe as [-> | [-> _]]; [intros; by apply Z.leb_le|done]. }
  assert (start (heap st) ≤ cur → (match pe with Some e => cur <=? e | None => false end) = false → lo < cur) as Hord'.
  { destruct Hpe as [-> | [-> ->]]; intros ? ?; [by apply Z.leb_gt|lia]. }
  assert (0 < GRANULE) by done.
  destruct (decide (good_hole st lo cur)) as [(H1 & H2 & H3 & H4 & H5)|Hbad].
  - destruct (wf_hole_ptr (E:=HeapCorruption) st cur Hwf) as [_ Hread]; [done|lia|lia|].
    rewrite H2. simpl. destruct (Z.ltb_spec cur (start (heap st))), (Z.leb_spec (end_ (heap st)) cur); try lia.
    simpl. destruct (match pe with Some _ => _ | None => _ end); [lia|].
    rewrite Hread. cbn [mbind res_bind]. rewrite H4. simpl.
    destruct (Z.ltb_spec (size (mem st cur)) GRANULE); [lia|].
    by destruct (Z.ltb_spec (end_ (heap st) - cur) (size (mem st cur))); [lia|].
  - destruct (Z.eqb_spec (cur mod GRANULE) 0); [|by eexists].
    destruct (Z.ltb_spec cur (start (heap st))); [by eexists|].
    destruct (Z.leb_spec (end_ (heap st)) cur); [by eexists|]. simpl.
    destruct (match pe with Some _ => _ | None => _ end); [by eexists|].
    destruct (wf_hole_ptr (E:=HeapCorruption) st cur Hwf) as [_ Hread]; [done|lia|lia|].
    rewrite Hread. cbn [mbind res_bind].
    destruct (Z.ltb_spec (size (mem st cur)) GRANULE); [by eexists|].
    destruct (Z.eqb_spec (size (mem st cur) mod GRANULE) 0); [|by eexists].
    destruct (Z.ltb_spec (end_ (heap st) - cur) (size (mem st cur))); [by eexists|].
    destruct Hbad. split_and!; try done; [naive_solver|lia].
Qed.

(** What the walk of [check] answers, from any point of it. *)
Definition list_from (st : state) (mx n lo cur : Z) (l : holes) : Prop :=
  seg (mem st) cur l 0 ∧ ordered lo (end_ (heap st)) l ∧ n + Z.of_nat (length l) ≤ mx.

Lemma check_loop_answer st fuel mx f n lg pe lo cur :
  bounds_wf st → n ≤ mx → mx < n + Z.of_nat fuel → lo ≤ end_ (heap st) → after st pe lo → 0 ≤ lg →
  (∃ l, list_from st mx n lo cur l ∧ check_loop fuel st mx f n lg pe cur =
      Ok (f + total l, n + Z.of_nat (length l), Z.max lg (largest_of l))) ∨
  ((∃ e, check_loop fuel st mx f n lg pe cur = Err e) ∧ ∀ l, ¬ list_from st mx n lo cur l).
Proof.
  intros Hwf. assert (0 < GRANULE) as HG by done. revert f n lg pe lo cur.
  induction fuel as [|fuel IH]; intros f n lg pe lo cur Hn Hfuel Hlo Hafter Hlg; [lia|].
  destruct (Z.eqb_spec cur 0) as [->|Hcur].
  { left. exists []. unfold list_from. simpl. rewrite !Z.add_0_r, Z.max_l by lia.
    split_and!; (done || lia). }
  assert (∀ l, list_from st mx n lo cur l → n < mx ∧ good_hole st lo cur ∧ ∃ l',
    l = (cur, size (mem st cur)) :: l' ∧
    list_from st mx (n + 1) (cur + size (mem st cur)) (next (mem st cur)) l') as Hcons.
  { intros [|[a s] l'] [Hs [Ho Hl]]; simpl in *; [done|]. destruct Hs as (<- & <- & Hs).
    unfold good_hole, list_from. destruct Ho as (?&?&?&?&?&?).
    split_and!; try done; [lia|]. eexists. split_and!; (done || lia). }
  destruct (Z.leb_spec mx n).
  { right. split; [|intros l Hl%Hcons; lia]. cbn [check_loop]. unfold corrupt.
    rewrite (proj2 (Z.eqb_neq _ _) Hcur). destruct (Z.leb_spec mx n); [by eexists|lia]. }
  pose proof (check_step st fuel mx f n lg pe lo cur Hwf Hafter Hcur) as Hstep.
  destruct (decide (good_hole st lo cur)) as [Hgood|Hbad].
  2:{ right. split; [apply Hstep; lia|]. intros l (_ & ? & _)%Hcons. done. }
  rewrite Hstep by lia. destruct Hgood as (?&?&?&?&?). destruct Hafter as [? _].
  destruct (IH (f + size (mem st cur)) (n + 1) (Z.max lg (size (mem st cur)))
    (Some (cur + size (mem st cur))) (cur + size (mem st cur)) (next (mem st cur)))
    as [(l & (Hl1 & Hl2 & Hl3) & ->)|[He Hno]]; try lia.
  - split; [lia|by left].
  - left. exists ((cur, size (mem st cur)) :: l). unfold list_from.
    cbn [seg ordered length total largest_of foldr fst snd]. fold (total l). fold (largest_of l).
    split; [split_and!; (done || lia)|]. do 2 f_equal; [f_equal; lia|lia].
  - right. split; [done|]. intros l (_ & _ & l' & -> & Hl')%Hcons. by apply (Hno l').
Qed.

Lemma seg_unique m cur lo hi l l' :
  0 ≤ lo → seg m cur l 0 → seg m cur l' 0 → ordered lo hi l → ordered lo hi l' → l = l'.
Proof.
  revert cur lo l'. induction l as [|[a s] l IH]; intros cur lo [|[b t] l'] Hlo; simpl;
    [done|lia|lia|].
  intros (-> & <- & Hs) (<- & <- & Hs') (?&?&?&?&?&Ho) (_&_&_&_&_&Ho').
  f_equal. eapply IH; [|done..]. assert (0 < GRANULE) by done. lia.
Qed.

Lemma list_from_inv st l :
  bounds_wf st → free (heap st) = total l →
  list_from st ((end_ (heap st) - start (heap st)) / GRANULE) 0 (start (heap st) - 1) (head (heap st)) l ↔
  inv st l.
Proof.
  intros [] Hf. split; [intros (?&?&?); by split|]. intros Hinv. pose proof Hinv as [].
  split_and!; try done. pose proof (fuel_enough _ _ Hinv).
  assert (0 ≤ (end_ (heap st) - start (heap st)) / GRANULE) by (apply Z.div_pos; [lia|done]). lia.
Qed.

Lemma check_decides st :
  bounds_wf st →
  (∀ stats, check st = Ok stats ↔ ∃ l, inv st l ∧ stats = stats_of st l) ∧
  ((¬ ∃ l, inv st l) ↔ ∃ e, check st = Err e).
Proof.
  intros Hwf. pose proof Hwf as [_ [? _] [[? ?] _]]. assert (0 < GRANULE) by done.
  set (mx := (end_ (heap st) - start (heap st)) / GRANULE).
  assert (0 ≤ mx) by (apply Z.div_pos; lia).
  assert (∀ l, inv st l → list_from st mx 0 (start (heap st) - 1) (head (heap st)) l) as Hfrom.
  { intros l Hinv. apply list_from_inv; [done|apply Hinv|done]. }
  unfold check. fold mx.
  destruct (check_loop_answer st (S (Z.to_nat mx)) mx 0 0 0 None (start (heap st) - 1)
    (head (heap st)) Hwf) as [(l & Hl & ->)|[[e ->] Hno]]; try lia.
  { split; [lia|by right]. }
  - cbn [mbind res_bind]. rewrite !Z.add_0_l. destruct (Z.eqb_spec (total l) (free (heap st))) as [Hf|Hf].
    + assert (inv st l) as Hinv by (by apply list_from_inv). cbn [negb].
      assert (Z.max 0 (largest_of l) = largest_of l) as ->.
      { apply Z.max_r. clear. unfold largest_of. induction l; simpl; lia. }
      split; [|split; [intros []; by exists l|by intros [? ?]]]. intros stats. split; [intros [= <-]; by exists l|].
      intros (l' & Hinv' & ->). assert (l' = l) as ->; [|done].
      pose proof (Hfrom _ Hinv') as (?&?&_). destruct Hl as (?&?&_).
      eapply (seg_unique _ _ (start (heap st) - 1)); [lia|done..].
    + assert (¬ ∃ l, inv st l) as Hnone.
      { intros (l' & Hinv'). apply Hf. rewrite (inv_free _ _ Hinv'). f_equal.
        pose proof (Hfrom _ Hinv') as (?&?&_). destruct Hl as (?&?&_).
        eapply (seg_unique _ _ (start (heap st) - 1)); [lia|done..]. }
      cbn [negb]. unfold corrupt. split; [|split; [by eexists|done]].
      intros stats. split; [done|]. intros (l' & ? & _). destruct Hnone. eauto.
  - cbn [mbind res_bind]. assert (¬ ∃ l, inv st l) as Hnone by (intros (l & Hl%Hfrom); by apply (Hno l)).
    split; [|split; [by eexists|done]]. intros stats. split; [done|].
    intros (l' & ? & _). destruct Hnone. eauto.
Qed.

Lemma inv_wf st l : inv st l → bounds_wf st.
Proof. by intros []. Qed.

Lemma check_inv st l : inv st l → check st = Ok (stats_of st l).
Proof. intros Hinv. apply check_decides; [by eapply inv_wf|]. eauto. Qed.

(** C13: The self-check of the heap is sound and complete, on every memory:
    for a heap whose bounds are those [init] sets, [check] answers
    statistics exactly when the memory holds a free list satisfying every
    invariant of the heap, and then they are the statistics of that list; on
    any other memory, however corrupted, it answers an error, and neither
    panics nor runs forever. *)
Theorem heap_check_decides st :
  bounds_wf st →
  (∀ stats, check st = Ok stats ↔ ∃ l, inv st l ∧ stats = stats_of st l) ∧
  ((¬ ∃ l, inv st l) ↔ ∃ e, check st = Err e).
Proof. apply check_decides. Qed.

(** ** Clients of the heap *)

(** What a program does with its heap; [Store] writes through a pointer
    into block number [i]. *)
Inductive heap_op :=
| Alloc (layout : Layout)
| Free (i : nat)
| Store (i : nat) (addr : Z) (word : Hole).

Definition client : Type := state * list (Z * Layout).

Definition heap_fuel (st : state) : nat :=
  S (Z.to_nat ((end_ (heap st) - start (heap st)) / GRANULE)).

Definition do_op (c : client) (o : heap_op) : may client :=
  let '(st, live) := c in
  match o with
  | Alloc layout =>
      '(r, st) ← allocate (heap_fuel st) st layout;
      Ok (st, match r with Some b => live ++ [(b, layout)] | None => live end)
  | Free i =>
      match live !! i with
      | Some (b, layout) =>
          st ← deallocate (heap_fuel st) st b layout; Ok (st, delete i live)
      | None => Ok c
      end
  | Store i addr word =>
      match live !! i with
      | Some (b, layout) =>
          if (b <=? addr) && (addr <? b + bsize_of layout)
          then Ok ({| heap := heap st; mem := <[addr := word]> (mem st) |}, live)
          else Ok c
      | None => Ok c
      end
  end.

Definition op_valid (o : heap_op) : Prop :=
  match o with Alloc layout => layout_valid layout | _ => True end.

Definition block_of (c : Z * Layout) (x : Z) : Prop := in_block c.1 (bsize_of c.2) x.
Definition live_bytes (live : list (Z * Layout)) : Z := foldr (λ c acc, bsize_of c.2 + acc) 0 live.

(** The holes and the live blocks share the heap out between them. *)
Record client_ok (lo hi : Z) (c : client) (l : holes) : Prop := {
  co_inv : inv c.1 l;
  co_start : start (heap c.1) = lo;
  co_end : end_ (heap c.1) = hi;
  co_valid : ∀ b layout, (b, layout) ∈ c.2 →
    layout_valid layout ∧ b mod layout_align layout = 0 ∧ b mod GRANULE = 0 ∧
    lo ≤ b ∧ b + bsize_of layout ≤ hi;
  co_disjoint : ∀ i j p q x, c.2 !! i = Some p → c.2 !! j = Some q →
    block_of p x → block_of q x → i = j;
  co_apart : ∀ p x, p ∈ c.2 → block_of p x → ¬ free_at l x;
  co_cover : ∀ x, lo ≤ x < hi → free_at l x ∨ ∃ p, p ∈ c.2 ∧ block_of p x;
  co_total : total l + live_bytes c.2 = hi - lo
}.

Lemma live_bytes_app l1 l2 : live_bytes (l1 ++ l2) = live_bytes l1 + live_bytes l2.
Proof. induction l1; simpl; lia. Qed.

Lemma live_bytes_delete live i p :
  live !! i = Some p → live_bytes (delete i live) = live_bytes live - bsize_of p.2.
Proof.
  intros Hi. rewrite delete_take_drop. rewrite <-(take_drop_middle _ _ _ Hi) at 3.
  rewrite !live_bytes_app. simpl. lia.
Qed.

Lemma delete_lookup {A} (l : list A) i j p :
  delete i l !! j = Some p → ∃ k, k ≠ i ∧ l !! k = Some p ∧ k = (if decide (j < i)%nat then j else S j).
Proof.
  destruct (decide (j < i)%nat) as [Hlt|Hge]; intros Hj.
  - rewrite list_lookup_delete_lt in Hj by done. exists j. split_and!; (done || lia).
  - rewrite list_lookup_delete_ge in Hj by lia. exists (S j). split_and!; (done || lia).
Qed.

Section client_steps.
  Context (lo hi : Z) (st : state) (live : list (Z * Layout)) (l : holes).
  Context (Hok : client_ok lo hi (st, live) l).

Lemma client_fuel : (length l < heap_fuel st)%nat.
Proof. apply (fuel_enough st l (co_inv _ _ _ _ Hok)). Qed.

Lemma client_alloc st' b l' layout :
  layout_valid layout → taken st l (bsize_of layout) b st' l' →
  can_place l (bsize_of layout) (align_of layout) b →
  client_ok lo hi (st', live ++ [(b, layout)]) l'.
Proof.
  intros Hlay [Hinv' (E1 & E2 & E3) Hfree Htot Hframe] [Hba Hplace]. destruct Hok as [Hinv Hs He Hv Hd Ha Hc Ht].
  simpl in *. destruct (block_size_ok layout Hlay) as (_ & Hn & _).
  destruct (align_of_granule layout Hlay) as (Hal1 & Hal2 & Hal3). assert (0 < GRANULE) as HG by done.
  assert (lo ≤ b ∧ b + bsize_of layout ≤ hi) as [Hlo Hhi].
  { pose proof (inv_ordered _ _ Hinv) as Ho. rewrite Hs, He in Ho.
    pose proof (free_at_bounds _ _ _ _ Ho (Hplace b ltac:(unfold in_block; lia))).
    pose proof (free_at_bounds _ _ _ _ Ho (Hplace (b + bsize_of layout - 1) ltac:(unfold in_block; lia))). lia. }
  assert (∀ p x, p ∈ live → block_of p x → ¬ block_of (b, layout) x) as Hnew.
  { intros p x Hp Hx Hb. by apply (Ha p x Hp Hx), Hplace. }
  split; simpl; [done|congruence..| | | | |].
  - intros c lc [Hc'|[= -> ->]%list_elem_of_singleton]%elem_of_app; [by apply Hv|].
    split_and!; [done| |by apply (aligned_granule _ (align_of layout))|done..].
    destruct Hlay as (_ & ? & _). apply Z.mod_divide; [lia|].
    apply Z.divide_trans with (align_of layout); apply Z.mod_divide; (done || lia).
  - intros i j p q x [Hi|[? Hi]]%lookup_app_Some [Hj|[? Hj]]%lookup_app_Some Hp Hq.
    + by eapply Hd.
    + apply list_lookup_singleton_Some in Hj as [? <-].
      destruct (Hnew p x); [by eapply list_elem_of_lookup_2|done..].
    + apply list_lookup_singleton_Some in Hi as [? <-].
      destruct (Hnew q x); [by eapply list_elem_of_lookup_2|done..].
    + apply list_lookup_singleton_Some in Hi as [? _]. apply list_lookup_singleton_Some in Hj as [? _]. lia.
  - intros p x [Hp| ->%list_elem_of_singleton]%elem_of_app Hx; rewrite Hfree; [|tauto].
    intros [? _]. by apply (Ha p x).
  - intros x Hx. destruct (Hc x Hx) as [Hf|(p & Hp & Hpx)].
    + destruct (decide (b ≤ x < b + bsize_of layout)) as [Hin|Hout].
      * right. exists (b, layout). split; [set_solver|done].
      * left. apply Hfree. done.
    + right. exists p. split; [set_solver|done].
  - rewrite Htot, live_bytes_app. simpl. lia.
Qed.

Lemma client_owned i b layout :
  live !! i = Some (b, layout) → layout_valid layout ∧ 0 ≤ b ∧ owned st l b (bsize_of layout).
Proof.
  intros Hi. destruct Hok as [Hinv Hs He Hv Hd Ha Hc Ht]. simpl in *.
  assert ((b, layout) ∈ live) as Hin by by eapply list_elem_of_lookup_2.
  destruct (Hv _ _ Hin) as (?&?&?&?&?). pose proof (inv_start _ _ Hinv) as [? _].
  assert (0 < GRANULE) by done. split_and!; [done|lia|]. split_and!; try done; try lia.
  intros x Hx. by apply (Ha (b, layout)).
Qed.

Lemma client_free i st' b l' layout :
  live !! i = Some (b, layout) → given st l (bsize_of layout) b st' l' →
  client_ok lo hi (st', delete i live) l'.
Proof.
  intros Hi [Hinv' (E1 & E2 & E3) Hfree Htot Hframe]. destruct Hok as [Hinv Hs He Hv Hd Ha Hc Ht].
  simpl in *.
  assert (∀ p, p ∈ delete i live → ∃ k, k ≠ i ∧ live !! k = Some p) as Hdel.
  { intros p (j & Hj)%list_elem_of_lookup_1. apply delete_lookup in Hj as (k & ? & ? & _). eauto. }
  split; simpl; [done|congruence..| | | | |].
  - intros c lc (k & _ & Hk)%Hdel. apply Hv. by eapply list_elem_of_lookup_2.
  - intros j k p q x Hj Hk Hp Hq. apply delete_lookup in Hj as (j' & _ & Hj' & ->).
    apply delete_lookup in Hk as (k' & _ & Hk' & ->). pose proof (Hd _ _ _ _ _ Hj' Hk' Hp Hq).
    destruct (decide (j < i)%nat), (decide (k < i)%nat); lia.
  - intros p x (k & Hne & Hk)%Hdel Hx. rewrite Hfree. intros [Hf|Hb].
    + apply (Ha p x); [by eapply list_elem_of_lookup_2|done..].
    + apply Hne. by apply (Hd _ _ _ _ x Hk Hi).
  - intros x Hx. destruct (Hc x Hx) as [Hf|(p & (k & Hk)%list_elem_of_lookup_1 & Hpx)].
    + left. apply Hfree. by left.
    + destruct (decide (k = i)) as [->|Hne].
      { left. apply Hfree. right. rewrite Hi in Hk. by simplify_eq. }
      right. exists p. split; [|done]. rewrite delete_take_drop. apply elem_of_app.
      destruct (decide (k < i)%nat).
      * left. apply list_elem_of_lookup_2 with k. by rewrite lookup_take_lt.
      * right. apply list_elem_of_lookup_2 with (k - S i)%nat. rewrite lookup_drop.
        by replace (S i + (k - S i))%nat with k by lia.
  - rewrite Htot, (live_bytes_delete _ _ _ Hi). simpl. lia.
Qed.

Lemma client_store i b layout addr word :
  live !! i = Some (b, layout) → in_block b (bsize_of layout) addr →
  client_ok lo hi ({| heap := heap st; mem := <[addr := word]> (mem st) |}, live) l.
Proof.
  intros Hi Hin. destruct Hok as [Hinv Hs He Hv Hd Ha Hc Ht]. split; try done. simpl in *.
  pose proof Hinv as []. split; try done. simpl. eapply seg_ext; [|done].
  intros a s Has. rewrite fn_lookup_insert_ne; [done|]. intros ->.
  apply (Ha (b, layout) a); [by eapply list_elem_of_lookup_2|done|]. exists a, s.
  split; [done|]. destruct (ordered_bounds _ _ _ _ _ (FreeListProofs.inv_ordered _ _ Hinv) Has) as (_&?&_).
  assert (0 < GRANULE) by done. lia.
Qed.
End client_steps.

(** No operation of a client panics, diverges or breaks the sharing. *)
Lemma do_op_ok lo hi c l o :
  client_ok lo hi c l → op_valid o → ∃ c' l', do_op c o = Ok c' ∧ client_ok lo hi c' l'.
Proof.
  destruct c as [st live]. intros Hok Ho. pose proof (co_inv _ _ _ _ Hok) as Hinv.
  pose proof (client_fuel _ _ _ _ _ Hok) as Hfuel. destruct o as [layout|i|i addr word]; simpl in *.
  - destruct (allocate_ok _ st l layout Hinv Ho Hfuel) as [(b & st' & l' & -> & Ht & Hp & _)|[-> _]];
      eexists _, _; (split; [done|]); [by eapply client_alloc|done].
  - destruct (live !! i) as [[b layout]|] eqn:Hi; [|by eexists _, _].
    destruct (client_owned _ _ _ _ _ Hok _ _ _ Hi) as (Hlay & Hb & Hown).
    destruct (deallocate_gives st l layout _ b Hinv Hlay Hfuel Hb Hown) as (st' & l' & -> & Hg).
    eexists _, _. split; [done|]. by eapply client_free.
  - destruct (live !! i) as [[b layout]|] eqn:Hi; [|by eexists _, _].
    destruct (Z.leb_spec b addr), (Z.ltb_spec addr (b + bsize_of layout)); simpl;
      eexists _, _; (split; [done|]); try done. by eapply client_store.
Qed.

(** C11: For every sequence of allocations, frees and writes of a client
    through its own blocks, starting from [init] on any region: no call
    panics or runs forever; the blocks the client holds are inside the
    region, aligned as their layouts ask, pairwise without a common byte and
    apart from the free memory; every byte of the heap is free or in one of
    them, and the byte counts add up; the self-check accepts the heap; and
    once everything is freed the heap is one hole again. *)
Theorem heap_clients_safe m start_ptr region ops :
  0 < start_ptr → 0 ≤ region → start_ptr + region + GRANULE < 2 ^ 64 →
  Forall op_valid ops →
  ∃ st0 c l,
    init {| heap := empty; mem := m |} start_ptr region = Ok st0 ∧
    foldM do_op (st0, []) ops = Ok c ∧
    client_ok (first_of start_ptr) (last_of start_ptr region) c l ∧
    check c.1 = Ok (stats_of c.1 l) ∧
    (c.2 = [] → l = initial_holes start_ptr region).
Proof.
  intros Hs Hr Hlt Hops. assert (0 < GRANULE) as HG by done.
  destruct (init_ok m start_ptr region Hs Hr Hlt) as (st0 & Hinit & Hinv & Hs0 & He0).
  assert (first_of start_ptr ≤ last_of start_ptr region) as Hle by (unfold last_of; lia).
  assert (∀ x, free_at (initial_holes start_ptr region) x ↔ first_of start_ptr ≤ x < last_of start_ptr region)
    as Hfree0.
  { intros x. unfold initial_holes. destruct (Z.ltb_spec (first_of start_ptr) (last_of start_ptr region));
      rewrite ?free_at_cons, free_at_nil; unfold in_block; lia. }
  assert (client_ok (first_of start_ptr) (last_of start_ptr region) (st0, []) (initial_holes start_ptr region))
    as Hok0.
  { split; simpl; try done; try set_solver.
    - unfold initial_holes. destruct (Z.ltb_spec (first_of start_ptr) (last_of start_ptr region)); simpl; lia. }
  exists st0.
  destruct (foldM_ind (E:=Empty_set) (λ _ c, ∃ l, client_ok (first_of start_ptr) (last_of start_ptr region) c l)
    do_op ops (st0, [])) as (c & Hc & l & Hl).
  { eauto. }
  { intros pre o post c Hsplit [l Hl]. rewrite Hsplit in Hops. apply Forall_app in Hops as [_ Ho].
    apply Forall_cons in Ho as [Ho _]. destruct (do_op_ok _ _ _ _ _ Hl Ho) as (c' & l' & ? & ?). eauto. }
  exists c, l. pose proof Hl as [Hcinv Hcs Hce _ _ _ Hcover _].
  split; [done|]. split; [done|]. split; [done|]. split.
  - by apply check_inv.
  - intros Hnil. pose proof (inv_ordered _ _ Hcinv) as Ho. rewrite Hcs, Hce in Ho.
    pose proof (inv_ordered _ _ Hinv) as Ho0. rewrite Hs0, He0 in Ho0.
    apply (ordered_unique _ _ _ _ _ Ho Ho0). intros x. rewrite Hfree0. split.
    + intros Hx%(free_at_bounds _ _ _ _ Ho). lia.
    + intros Hx. destruct (Hcover x Hx) as [|(p & Hp & _)]; [done|]. rewrite Hnil in Hp. set_solver.
Qed.

(** C12: Allocation is exact first fit: it returns the lowest address that is
    aligned as the layout asks and whose whole block is free, and takes
    precisely that block out of the free memory, writing no header outside
    what was free; it answers [None], changing nothing, exactly when no
    address will do.  With fuel for one more hole than there are it always
    answers. *)
Theorem heap_allocate_first_fit fuel st l layout :
  inv st l → layout_valid layout → (length l < fuel)%nat →
  (∃ b st' l', allocate fuel st layout = Ok (Some b, st') ∧
     taken st l (bsize_of layout) b st' l' ∧
     can_place l (bsize_of layout) (align_of layout) b ∧
     ∀ b', can_place l (bsize_of layout) (align_of layout) b' → b ≤ b') ∨
  (allocate fuel st layout = Ok (None, st) ∧
     ∀ b, ¬ can_place l (bsize_of layout) (align_of layout) b).
Proof. apply allocate_ok. Qed.

(** Deallocation is exact: a block inside the heap, on a granule and
    wholly outside the free memory is added to the free memory, merged with
    the holes it touches so that the list stays canonical, and no header
    outside free memory and the block is written; any other block (outside
    the heap, misaligned, or overlapping a hole, as a double free does)
    panics. *)
Theorem heap_deallocate_exact fuel st l layout block :
  inv st l → layout_valid layout → (length l < fuel)%nat → 0 ≤ block →
  (owned st l block (bsize_of layout) →
     ∃ st' l', deallocate fuel st block layout = Ok st' ∧ given st l (bsize_of layout) block st' l') ∧
  (¬ owned st l block (bsize_of layout) → deallocate fuel st block layout = Panic).
Proof.
  intros Hinv Hlay Hfuel Hb. split.
  - by apply deallocate_gives.
  - by apply (deallocate_panics st l).
Qed.

(** A block that was just taken can be given back. *)
Lemma taken_owned st l layout b st1 l1 :
  inv st l → layout_valid layout → taken st l (bsize_of layout) b st1 l1 →
  can_place l (bsize_of layout) (align_of layout) b →
  0 ≤ b ∧ owned st1 l1 b (bsize_of layout).
Proof.
  intros Hinv Hlay [Hinv1 (E1 & E2 & E3) Hf1 Ht1 _] [Hba Hp].
  destruct (block_size_ok layout Hlay) as (_ & Hn & _). assert (0 < GRANULE) as HG by done.
  pose proof (inv_ordered _ _ Hinv) as Ho.
  pose proof (free_at_bounds _ _ _ _ Ho (Hp b ltac:(unfold in_block; lia))) as Hlo.
  pose proof (free_at_bounds _ _ _ _ Ho (Hp (b + bsize_of layout - 1) ltac:(unfold in_block; lia))) as Hhi.
  destruct (align_of_granule layout Hlay) as (Ha1 & Ha2 & _).
  pose proof (inv_start _ _ Hinv) as [? _]. split; [lia|].
  split_and!; [lia|lia|by apply (aligned_granule _ (align_of layout))|].
  intros x Hx. rewrite Hf1. tauto.
Qed.

(** Allocating a block and freeing it brings back the very same list of
    holes, so the same statistics; and freeing it a second time panics. *)
Theorem heap_alloc_free_roundtrip fuel st l layout b st1 :
  inv st l → layout_valid layout → (heap_fuel st ≤ fuel)%nat →
  allocate fuel st layout = Ok (Some b, st1) →
  ∃ st2, deallocate fuel st1 b layout = Ok st2 ∧ inv st2 l ∧ check st2 = check st ∧
    deallocate fuel st2 b layout = Panic.
Proof.
  intros Hinv Hlay Hfuel0 Hal. pose proof (fuel_enough _ _ Hinv) as Hfuel. fold (heap_fuel st) in Hfuel.
  destruct (block_size_ok layout Hlay) as (_ & Hn & _). assert (0 < GRANULE) as HG by done.
  destruct (allocate_ok fuel st l layout Hinv Hlay) as [(b' & st' & l1 & Heq & Ht & Hplace & _)|[Heq _]];
    [lia| |congruence].
  rewrite Heq in Hal. simplify_eq.
  destruct (taken_owned _ _ _ _ _ _ Hinv Hlay Ht Hplace) as [Hb Hown].
  destruct Ht as [Hinv1 (E1 & E2 & E3) Hf1 Ht1 _]. destruct Hplace as [Hba Hp].
  assert (length l1 < fuel)%nat as Hfuel1.
  { pose proof (fuel_enough _ _ Hinv1). unfold heap_fuel in *. rewrite E2, E3 in *. lia. }
  destruct (deallocate_gives st1 l1 layout fuel b Hinv1 Hlay Hfuel1 Hb Hown)
    as (st2 & l2 & Hd & [Hinv2 (F1 & F2 & F3) Hf2 Ht2 _]).
  assert (l2 = l) as ->.
  { pose proof (inv_ordered _ _ Hinv2) as Ho2. rewrite F3, E3 in Ho2.
    apply (ordered_unique _ _ _ _ _ Ho2 (inv_ordered _ _ Hinv)). intros x. rewrite Hf2, Hf1.
    destruct (decide (b ≤ x < b + bsize_of layout)) as [Hin|]; [|unfold in_block; tauto].
    specialize (Hp x Hin). unfold in_block. tauto. }
  exists st2. split_and!; [done..| |].
  - rewrite (check_inv _ _ Hinv), (check_inv _ _ Hinv2). unfold stats_of. congruence.
  - apply (deallocate_panics st2 l); [done..|lia|lia|]. intros (_ & _ & _ & Hdis).
    apply (Hdis b); [unfold in_block; lia|]. apply Hp. unfold in_block; lia.
Qed.

(** ** Instances *)
Definition example_heap : state :=
  {| heap := {| base := 4104; start := 4112; end_ := 5120; head := 4112; free := 1008 |};
     mem := λ _, {| size := 1008; next := 0 |} |}.
Definition example_layout : Layout := {| layout_size := 100; layout_align := 64 |}.

Lemma heap_example_inv : inv example_heap [(4112, 1008)].
Proof. by split. Defined.
Lemma heap_layout_valid : layout_valid example_layout.
Proof. split; [done|]. split; [done|]. by exists 6. Defined.

(** Allocates the second aligned address, with a hole left on each side. *)
Definition example_alloc : may (option Z * state) := allocate 64 example_heap example_layout.
Definition example_after : state :=
  match example_alloc with Ok (_, st) => st | _ => example_heap end.

Lemma heap_check_decides_witness :
  bounds_wf example_heap ∧ ∃ stats, check example_heap = Ok stats ∧ stats_free stats = 1008.
Proof.
  assert (bounds_wf example_heap) as Hwf by by split. split; [exact Hwf|].
  destruct (heap_check_decides example_heap Hwf) as [Hd _].
  exists (stats_of example_heap [(4112, 1008)]). split; [|reflexivity].
  apply Hd. exists [(4112, 1008)]. split; [exact heap_example_inv|reflexivity].
Defined.

Definition example_ops : list heap_op :=
  [Alloc example_layout; Alloc example_layout; Store 0 4160 {| size := 7; next := 7 |};
   Free 0; Alloc example_layout; Free 0; Free 0].

Lemma heap_clients_safe_witness :
  Forall op_valid example_ops ∧
  ∃ st0 c l, init {| heap := empty; mem := λ _, {| size := 0; next := 0 |} |} 4104 1024 = Ok st0 ∧
    foldM do_op (st0, []) example_ops = Ok c ∧ client_ok 4112 5120 c l.
Proof.
  assert (Forall op_valid example_ops) as Hv.
  { repeat (apply Forall_cons; split; [first [exact heap_layout_valid|exact I]|]). apply Forall_nil; exact I. }
  split; [exact Hv|].
  destruct (heap_clients_safe (λ _, {| size := 0; next := 0 |}) 4104 1024 example_ops)
    as (st0 & c & l & H1 & H2 & H3 & _); [lia|lia|reflexivity|exact Hv|].
  exists st0, c, l. split; [exact H1|]. split; [exact H2|]. exact H3.
Defined.

Lemma heap_allocate_first_fit_witness :
  ∃ b st' l', allocate 64 example_heap example_layout = Ok (Some b, st') ∧
    taken example_heap [(4112, 1008)] 112 b st' l'.
Proof.
  destruct (heap_allocate_first_fit 64 example_heap [(4112, 1008)] example_layout
    heap_example_inv heap_layout_valid ltac:(simpl; lia)) as [(b & st' & l' & H1 & H2 & _)|[H1 _]].
  - exists b, st', l'. split; [exact H1|exact H2].
  - exfalso. vm_compute in H1. discriminate H1.
Defined.

Lemma heap_deallocate_exact_witness :
  ¬ owned example_heap [(4112, 1008)] 4160 112 ∧
  deallocate 64 example_heap 4160 example_layout = Panic.
Proof.
  assert (¬ owned example_heap [(4112, 1008)] 4160 112) as Hno.
  { intros (_ & _ & _ & Hdis). apply (Hdis 4160); [unfold in_block; lia|].
    exists 4112, 1008. split; [by left|lia]. }
  split; [exact Hno|].
  destruct (heap_deallocate_exact 64 example_heap [(4112, 1008)] example_layout 4160
    heap_example_inv heap_layout_valid ltac:(simpl; lia) ltac:(lia)) as [_ Hp].
  apply Hp. exact Hno.
Defined.

Lemma heap_alloc_free_roundtrip_witness :
  ∃ st2, deallocate 64 example_after 4160 example_layout = Ok st2 ∧ check st2 = check example_heap.
Proof.
  destruct (heap_alloc_free_roundtrip 64 example_heap [(4112, 1008)] example_layout 4160 example_after
    heap_example_inv heap_layout_valid) as (st2 & H1 & _ & H2 & _).
  - vm_compute. lia.
  - reflexivity.
  - exists st2. split; [exact H1|exact H2].
Defined.
