(* ===== verification/Bytes.v ===== *)
(** * Byte slices and little-endian numbers

    Bytes are [Z]s between 0 and 255, slices are lists.  [slice] and
    [copy_at] are [&l[a..b]] and [l[a..b].copy_from_slice(src)]: [None]
    where Rust panics. *)

From S2P Require Import Prelude Words.
Local Open Scope Z_scope.

Definition len {A} (l : list A) : Z := Z.of_nat (length l).

Definition slice {A} (l : list A) (a b : Z) : option (list A) :=
  if (0 <=? a) && (a <=? b) && (b <=? len l)
  then Some (take (Z.to_nat (b - a)) (drop (Z.to_nat a) l)) else None.

(** The list with [src] written over it at [a]. *)
Definition splice {A} (l : list A) (a : nat) (src : list A) : list A :=
  take a l ++ src ++ drop (a + length src) l.

Definition copy_at {A} (l : list A) (a b : Z) (src : list A) : option (list A) :=
  if (0 <=? a) && (a <=? b) && (b <=? len l) && (len src =? b - a)
  then Some (splice l (Z.to_nat a) src) else None.

Definition index {A} (l : list A) (i : Z) : option A :=
  if i <? 0 then None else l !! Z.to_nat i.

Definition set_index {A} (l : list A) (i : Z) (a : A) : option (list A) :=
  if (0 <=? i) && (i <? len l) then Some (<[Z.to_nat i := a]> l) else None.

Definition bytes_ok (l : list Z) : Prop := Forall (λ b, 0 ≤ b < 256) l.

#[export] Instance bytes_ok_dec l : Decision (bytes_ok l).
Proof. unfold bytes_ok. apply _. Defined.

(** [uN::from_le_bytes] and [to_le_bytes]. *)
Fixpoint le_decode (l : list Z) : Z :=
  match l with [] => 0 | b :: l => b + 256 * le_decode l end.

Fixpoint le_encode (n : nat) (z : Z) : list Z :=
  match n with O => [] | S n => z mod 256 :: le_encode n (z / 256) end.

(** ** Slices *)
Lemma len_nonneg {A} (l : list A) : 0 ≤ len l.
Proof. unfold len. lia. Qed.
Lemma len_app {A} (l1 l2 : list A) : len (l1 ++ l2) = len l1 + len l2.
Proof. unfold len. rewrite length_app. lia. Qed.
Lemma len_cons {A} (a : A) l : len (a :: l) = 1 + len l.
Proof. unfold len. simpl. lia. Qed.
Lemma len_replicate {A} n (a : A) : len (replicate n a) = Z.of_nat n.
Proof. unfold len. by rewrite length_replicate. Qed.
Lemma len_splice {A} (l : list A) a src :
  (a + length src ≤ length l)%nat → len (splice l a src) = len l.
Proof. intros. unfold len, splice. rewrite !length_app, length_take, length_drop. lia. Qed.

Lemma slice_Some {A} (l : list A) a b :
  0 ≤ a ≤ b → b ≤ len l → slice l a b = Some (take (Z.to_nat (b - a)) (drop (Z.to_nat a) l)).
Proof.
  intros. unfold slice. destruct (Z.leb_spec 0 a), (Z.leb_spec a b), (Z.leb_spec b (len l)); try lia. done.
Qed.

Lemma slice_prefix {A} (l : list A) b : 0 ≤ b ≤ len l → slice l 0 b = Some (take (Z.to_nat b) l).
Proof. intros Hb. rewrite slice_Some by lia. by rewrite Z.sub_0_r. Qed.

Lemma slice_inv {A} (l l' : list A) a b :
  slice l a b = Some l' → 0 ≤ a ≤ b ∧ b ≤ len l ∧ len l' = b - a ∧
    l' = take (Z.to_nat (b - a)) (drop (Z.to_nat a) l).
Proof.
  unfold slice. destruct (Z.leb_spec 0 a), (Z.leb_spec a b), (Z.leb_spec b (len l)); intros; simplify_eq/=.
  split_and!; try done. unfold len in *. rewrite length_take, length_drop. lia.
Qed.

Lemma slice_lookup {A} (l l' : list A) a b i :
  slice l a b = Some l' → (i < Z.to_nat (b - a))%nat → l' !! i = l !! (Z.to_nat a + i)%nat.
Proof.
  intros (_ & _ & _ & ->)%slice_inv Hi. rewrite lookup_take_lt by done. by rewrite lookup_drop.
Qed.

Lemma copy_at_Some {A} (l : list A) a b src :
  0 ≤ a → b = a + len src → b ≤ len l → copy_at l a b src = Some (splice l (Z.to_nat a) src).
Proof.
  intros ? -> ?. pose proof (len_nonneg src). unfold copy_at.
  destruct (Z.leb_spec 0 a), (Z.leb_spec a (a + len src)), (Z.leb_spec (a + len src) (len l)),
    (Z.eqb_spec (len src) (a + len src - a)); try lia. done.
Qed.

Lemma splice_lookup {A} (l : list A) a src i :
  (a + length src ≤ length l)%nat →
  splice l a src !! i =
    if decide (a ≤ i < a + length src)%nat then src !! (i - a)%nat else l !! i.
Proof.
  intros Hl. unfold splice. destruct (decide (i < a)%nat).
  - rewrite lookup_app_l by (rewrite length_take; lia). rewrite lookup_take_lt by done.
    by rewrite decide_False by lia.
  - rewrite lookup_app_r by (rewrite length_take; lia). rewrite length_take.
    replace (i - a `min` length l)%nat with (i - a)%nat by lia. case_decide.
    + by rewrite lookup_app_l by lia.
    + rewrite lookup_app_r by lia. rewrite lookup_drop. f_equal. lia.
Qed.

(** Reading back what was written. *)
Lemma take_splice_0 {A} (l src : list A) : take (length src) (splice l 0 src) = src.
Proof. unfold splice. simpl. by rewrite take_app_length. Qed.

Lemma bytes_ok_splice l a src : bytes_ok l → bytes_ok src → bytes_ok (splice l a src).
Proof.
  intros Hl Hs. unfold bytes_ok, splice. apply Forall_app; split; [by apply Forall_take|].
  apply Forall_app; split; [done|by apply Forall_drop].
Qed.

Lemma bytes_ok_slice l a b l' : bytes_ok l → slice l a b = Some l' → bytes_ok l'.
Proof. intros Hl (_ & _ & _ & ->)%slice_inv. by apply Forall_take, Forall_drop. Qed.

(** ** Little-endian numbers *)
Lemma length_le_encode n z : length (le_encode n z) = n.
Proof. revert z; induction n; intros; simpl; auto. Qed.

Lemma le_encode_ok n z : bytes_ok (le_encode n z).
Proof.
  revert z; induction n as [|n IH]; intros z; simpl; [constructor|].
  constructor; [by apply Z.mod_pos_bound|apply IH].
Qed.

Lemma le_decode_encode n z : 0 ≤ z < 2 ^ (8 * Z.of_nat n) → le_decode (le_encode n z) = z.
Proof.
  revert z; induction n as [|n IH]; intros z Hz; simpl.
  { change (2 ^ (8 * Z.of_nat 0)) with 1 in Hz. lia. }
  rewrite IH.
  - rewrite (Z.div_mod z 256) at 3 by done. lia.
  - replace (8 * Z.of_nat (S n)) with (8 + 8 * Z.of_nat n) in Hz by lia.
    rewrite Z.pow_add_r in Hz by lia. change (2 ^ 8) with 256 in Hz.
    split; [apply Z.div_pos; lia|apply Z.div_lt_upper_bound; lia].
Qed.

Lemma le_decode_bound l : bytes_ok l → 0 ≤ le_decode l < 2 ^ (8 * len l).
Proof.
  induction 1 as [|b l Hb Hl IH]; [done|]. cbn [le_decode]. rewrite len_cons.
  replace (8 * (1 + len l)) with (8 + 8 * len l) by lia.
  pose proof (len_nonneg l). rewrite Z.pow_add_r by lia. change (2 ^ 8) with 256. lia.
Qed.

Lemma le_encode_decode l : bytes_ok l → le_encode (length l) (le_decode l) = l.
Proof.
  induction 1 as [|b l Hb Hl IH]; [done|]. cbn [length le_encode le_decode].
  rewrite (Z.mul_comm 256). f_equal.
  - rewrite Z_mod_plus_full. by apply Z.mod_small.
  - rewrite Z_div_plus_full by done. rewrite Z.div_small by done. done.
Qed.
