(* ===== verification/Ipc.v ===== *)
(** * Mailboxes

    Models [kernel/src/ipc.rs]: a mailbox holds at most one message.  A
    byte is a [Z]; the sender's slot and the lengths are [usize]s. *)

From S2P Require Import Prelude Words Bytes.
Local Open Scope Z_scope.

Definition CAPACITY : Z := 64.

Record Delivery := { from : Z; dlen : Z }.

#[export] Instance Delivery_eq_dec : EqDecision Delivery.
Proof. solve_decision. Defined.

Inductive DeliverError :=
| DeliverBusy
| DeliverTooLong (capacity : Z)
| DeliverEmpty.

Inductive TakeError :=
| TakeNothing
| TakeTooLong (len : Z).

Record Mailbox := { bytes : list Z; waiting : option Delivery }.

Definition new : Mailbox :=
  {| bytes := replicate (Z.to_nat CAPACITY) 0; waiting := None |}.

Definition is_empty (m : Mailbox) : bool := negb (bool_decide (is_Some (waiting m))).

(** An error leaves the mailbox as it was. *)
Definition deliver (m : Mailbox) (frm : Z) (message : list Z) : res DeliverError (Delivery * Mailbox) :=
  if len message =? 0 then Err DeliverEmpty
  else if CAPACITY <? len message then Err (DeliverTooLong CAPACITY)
  else if negb (is_empty m) then Err DeliverBusy
  else
    b ← expect (copy_at (bytes m) 0 (len message) message);
    let delivery := {| from := frm; dlen := len message |} in
    Ok (delivery, {| bytes := b; waiting := Some delivery |}).

(** Answers the delivery, what the buffer holds afterwards and the mailbox. *)
Definition take_into (m : Mailbox) (into : list Z) : res TakeError (Delivery * list Z * Mailbox) :=
  match waiting m with
  | None => Err TakeNothing
  | Some delivery =>
      if len into <? dlen delivery then Err (TakeTooLong (dlen delivery))
      else
        src ← expect (slice (bytes m) 0 (dlen delivery));
        into ← expect (copy_at into 0 (dlen delivery) src);
        Ok (delivery, into, {| bytes := bytes m; waiting := None |})
  end.

(** ** What a mailbox stands for: the message in it, with who sent it *)
Definition content (m : Mailbox) : option (Z * list Z) :=
  d ← waiting m; Some (from d, take (Z.to_nat (dlen d)) (bytes m)).

Record wf (m : Mailbox) : Prop := {
  wf_bytes : len (bytes m) = CAPACITY;
  wf_waiting : ∀ d, waiting m = Some d → 0 < dlen d ≤ CAPACITY
}.

Lemma mailbox_new_wf : wf new.
Proof. by split. Qed.

Lemma content_len m frm msg :
  wf m → content m = Some (frm, msg) → waiting m = Some {| from := frm; dlen := len msg |} ∧ 0 < len msg ≤ CAPACITY.
Proof.
  intros [Hb Hw]. unfold content. destruct (waiting m) as [d|] eqn:E; [|done]. simpl. intros [= <- <-].
  specialize (Hw d eq_refl). unfold len in *. rewrite length_take.
  replace (Z.of_nat (Z.to_nat (dlen d) `min` length (bytes m))) with (dlen d) by (unfold CAPACITY in *; lia).
  by destruct d.
Qed.

(** The contract, branch by branch, in terms of [content]. *)
Lemma deliver_spec m frm msg :
  wf m →
  match deliver m frm msg with
  | Ok (d, m') => d = {| from := frm; dlen := len msg |} ∧ 0 < len msg ≤ CAPACITY ∧
      content m = None ∧ content m' = Some (frm, msg) ∧ wf m'
  | Err DeliverEmpty => msg = []
  | Err (DeliverTooLong c) => c = CAPACITY ∧ CAPACITY < len msg
  | Err DeliverBusy => 0 < len msg ≤ CAPACITY ∧ content m ≠ None
  | Panic | Diverge => False
  end.
Proof.
  intros [Hb Hw]. unfold deliver, is_empty. pose proof (len_nonneg msg).
  destruct (Z.eqb_spec (len msg) 0) as [E|E].
  { unfold len in E. destruct msg; [done|simpl in E; lia]. }
  destruct (Z.ltb_spec CAPACITY (len msg)); [done|].
  destruct (waiting m) as [d|] eqn:Ew; simpl.
  { split; [lia|]. unfold content. by rewrite Ew. }
  rewrite copy_at_Some by lia. simpl. split_and!; try done; try lia.
  - unfold content. by rewrite Ew.
  - unfold content. simpl. unfold len at 1. by rewrite Nat2Z.id, take_splice_0.
  - split; simpl; [|intros d [= <-]; simpl; lia].
    rewrite len_splice; [done|]. unfold len in *. simpl. lia.
Qed.

Lemma take_spec m into :
  wf m →
  match take_into m into with
  | Ok (d, into', m') => ∃ msg, content m = Some (from d, msg) ∧ dlen d = len msg ∧
      len msg ≤ len into ∧ into' = msg ++ drop (length msg) into ∧ content m' = None ∧ wf m'
  | Err TakeNothing => content m = None
  | Err (TakeTooLong n) => ∃ frm msg, content m = Some (frm, msg) ∧ n = len msg ∧ len into < n
  | Panic | Diverge => False
  end.
Proof.
  intros Hwf. pose proof Hwf as [Hb Hw]. unfold take_into.
  destruct (waiting m) as [d|] eqn:Ew; [|unfold content; by rewrite Ew].
  specialize (Hw d eq_refl).
  assert (content m = Some (from d, take (Z.to_nat (dlen d)) (bytes m))) as Hc
    by (unfold content; by rewrite Ew).
  assert (len (take (Z.to_nat (dlen d)) (bytes m)) = dlen d) as Hl.
  { unfold len in *. rewrite length_take. lia. }
  destruct (Z.ltb_spec (len into) (dlen d)).
  { eexists _, _. split; [done|]. by rewrite Hl. }
  rewrite slice_Some by lia. cbn [expect mbind res_bind]. rewrite Z.sub_0_r, drop_0.
  rewrite copy_at_Some by lia. cbn [expect mbind res_bind]. eexists. split; [done|].
  split_and!; try done; lia.
Qed.

(** ** Any sequence of calls *)
Inductive mail_op := Deliver (frm : Z) (msg : list Z) | Take (into : list Z).

(** The mailbox, the messages accepted so far and the ones taken so far. *)
Definition mail_log : Type := Mailbox * list (Z * list Z) * list (Z * list Z).

Definition mail_step (s : mail_log) (o : mail_op) : may mail_log :=
  let '(m, accepted, taken) := s in
  match o with
  | Deliver frm msg =>
      match deliver m frm msg with
      | Ok (_, m) => Ok (m, accepted ++ [(frm, msg)], taken)
      | Err _ => Ok s
      | Panic => Panic
      | Diverge => Diverge
      end
  | Take into =>
      match take_into m into with
      | Ok (d, into, m) => Ok (m, accepted, taken ++ [(from d, take (Z.to_nat (dlen d)) into)])
      | Err _ => Ok s
      | Panic => Panic
      | Diverge => Diverge
      end
  end.

(** A mailbox delivers exactly once and in order: after any sequence of
    deliveries and takes, none of which panics, the messages accepted are,
    byte for byte and with their senders, the messages taken followed by the
    one still waiting, if any. *)
Theorem mailbox_exactly_once ops :
  ∃ m accepted taken,
    foldM mail_step (new, [], []) ops = Ok (m, accepted, taken) ∧
    accepted = taken ++ option_list (content m).
Proof.
  destruct (foldM_ind (E:=Empty_set)
    (λ _ s, wf s.1.1 ∧ s.1.2 = s.2 ++ option_list (content s.1.1)) mail_step ops (new, [], []))
    as ([[m acc] tk] & Hrun & _ & Heq).
  - split; [exact mailbox_new_wf|done].
  - intros _ o _ [[m acc] tk] _ [Hwf Heq]. simpl in Heq. destruct o as [frm msg|into]; simpl.
    + pose proof (deliver_spec m frm msg Hwf) as Hd.
      destruct (deliver m frm msg) as [[d m']|e| |]; [| |done..].
      * destruct Hd as (_ & _ & Hc & Hc' & Hwf'). eexists. split; [done|]. split; [done|].
        simpl. rewrite Hc', Heq, Hc. by rewrite app_nil_r.
      * by eexists.
    + pose proof (take_spec m into Hwf) as Ht.
      destruct (take_into m into) as [[[d into'] m']|e| |]; [| |done..].
      * destruct Ht as (msg & Hc & Hl & _ & -> & Hc' & Hwf'). eexists. split; [done|]. split; [done|].
        simpl. rewrite Hc', Heq, Hc. simpl. rewrite Hl. unfold len. rewrite Nat2Z.id, take_app_length.
        by rewrite app_nil_r.
      * by eexists.
  - by exists m, acc, tk.
Qed.

(** Every branch of [deliver] and [take_into] is the one documented:
    the three refusals of a delivery and the two of a taking happen exactly
    in their cases; a delivery that is accepted fills an empty mailbox with
    exactly that message; a taking hands over the whole message at the front
    of the buffer, leaves the rest of the buffer alone and empties the
    mailbox.  Neither ever panics. *)
Theorem mailbox_calls_exact m frm msg into :
  wf m →
  (match deliver m frm msg with
   | Ok (d, m') => d = {| from := frm; dlen := len msg |} ∧ 0 < len msg ≤ CAPACITY ∧
       content m = None ∧ content m' = Some (frm, msg) ∧ wf m'
   | Err DeliverEmpty => msg = []
   | Err (DeliverTooLong c) => c = CAPACITY ∧ CAPACITY < len msg
   | Err DeliverBusy => 0 < len msg ≤ CAPACITY ∧ content m ≠ None
   | Panic | Diverge => False
   end) ∧
  (match take_into m into with
   | Ok (d, into', m') => ∃ msg, content m = Some (from d, msg) ∧ dlen d = len msg ∧
       len msg ≤ len into ∧ into' = msg ++ drop (length msg) into ∧ content m' = None ∧ wf m'
   | Err TakeNothing => content m = None
   | Err (TakeTooLong n) => ∃ frm msg, content m = Some (frm, msg) ∧ n = len msg ∧ len into < n
   | Panic | Diverge => False
   end).
Proof. intros Hwf. split; [by apply deliver_spec|by apply take_spec]. Qed.

(** A waiting message of three bytes, and a buffer of five. *)
Lemma mailbox_calls_exact_witness :
  ∃ d m, deliver new 2 [7; 8; 9] = Ok (d, m) ∧ wf m ∧
    ∃ d' m', take_into m [0; 0; 0; 0; 1] = Ok (d', [7; 8; 9; 0; 1], m').
Proof.
  pose proof (mailbox_calls_exact new 2 [7; 8; 9] [] mailbox_new_wf) as [Hd _].
  destruct (deliver new 2 [7; 8; 9]) as [[d m]| | |] eqn:E; [|vm_compute in E; discriminate E..].
  exists d, m. split; [reflexivity|]. destruct Hd as (_ & _ & _ & _ & Hwf). split; [exact Hwf|].
  vm_compute in E. injection E as <- <-. eexists _, _. vm_compute. reflexivity.
Defined.
