(* ===== verification/Memory.v ===== *)
(** * Physical memory

    Bytes by physical address, and the translations the processor may have
    cached.  [read64] and [write64] are the little-endian accesses of
    [PhysAccess] in [arch/x86_64/src/paging.rs], reached where the window
    promises them. *)

From S2P Require Import Prelude Words Bytes PhysMem.
Local Open Scope Z_scope.

(** What a cached translation of a page says: the frame and the rights. *)
Record Leaf := { l_frame : Z; l_writable : bool; l_user : bool; l_execute : bool }.

#[export] Instance Leaf_eq_dec : EqDecision Leaf.
Proof. solve_decision. Defined.

Record Mem := { ram : gmap Z Z; tlb : gmap Z Leaf }.

Module Ram.
Definition byte (m : Mem) (p : Z) : Z := default 0 (ram m !! p).
Definition bytes (m : Mem) (p : Z) (n : nat) : list Z := (λ i, byte m (p + Z.of_nat i)) <$> seq 0 n.
Fixpoint put (r : gmap Z Z) (p : Z) (l : list Z) : gmap Z Z :=
  match l with [] => r | b :: l => put (<[p := b]> r) (p + 1) l end.
(** Writes [l] from [p] on: [copy_nonoverlapping]. *)
Definition write (m : Mem) (p : Z) (l : list Z) : Mem := {| ram := put (ram m) p l; tlb := tlb m |}.

Definition read64 (m : Mem) (p : Z) : Z := le_decode (bytes m p 8).
Definition write64 (m : Mem) (p v : Z) : Mem := write m p (le_encode 8 v).

(** [write_bytes(0, FRAME_SIZE)]. *)
Definition zero_frame (m : Mem) (p : Z) : Mem := write m p (replicate (Z.to_nat FRAME_SIZE) 0).

Definition flush (m : Mem) (va : Z) : Mem := {| ram := ram m; tlb := delete (va / FRAME_SIZE) (tlb m) |}.
Definition flush_all (m : Mem) : Mem := {| ram := ram m; tlb := ∅ |}.

(** Every cell holds a byte. *)
Definition wf (m : Mem) : Prop := map_Forall (λ _ b, 0 ≤ b < 256) (ram m).

Lemma put_lookup r p l q :
  put r p l !! q = if decide (p ≤ q < p + len l) then l !! Z.to_nat (q - p) else r !! q.
Proof.
  revert r p; induction l as [|b l IH]; intros r p; cbn [put].
  { rewrite decide_False by (unfold len; cbn [length]; lia). done. }
  rewrite IH, len_cons. pose proof (len_nonneg l). destruct (decide (q = p)) as [-> | Hq].
  - rewrite decide_False by lia. rewrite decide_True by lia. rewrite lookup_insert_eq, Z.sub_diag. done.
  - rewrite lookup_insert_ne by done. case_decide; case_decide; try lia; [|done].
    replace (Z.to_nat (q - p)) with (S (Z.to_nat (q - (p + 1)))) by lia. done.
Qed.

Lemma byte_write m p l q :
  byte (write m p l) q = if decide (p ≤ q < p + len l) then default 0 (l !! Z.to_nat (q - p)) else byte m q.
Proof. unfold byte, write. cbn [ram]. rewrite put_lookup. by case_decide. Qed.

Lemma length_bytes m p n : length (bytes m p n) = n.
Proof. unfold bytes. by rewrite length_fmap, length_seq. Qed.

Lemma bytes_lookup m p n i : (i < n)%nat → bytes m p n !! i = Some (byte m (p + Z.of_nat i)).
Proof. intros. unfold bytes. by rewrite list_lookup_fmap, lookup_seq_lt. Qed.

(** What was written is there, and nothing else has changed. *)
Lemma bytes_write_same m p l : bytes (write m p l) p (length l) = l.
Proof.
  apply list_eq. intros i. destruct (decide (i < length l)%nat) as [Hi|Hi].
  - rewrite bytes_lookup by done. rewrite byte_write, decide_True by (unfold len; lia).
    destruct (lookup_lt_is_Some_2 l i Hi) as [x Hx].
    replace (Z.to_nat (p + Z.of_nat i - p)) with i by lia. by rewrite Hx.
  - rewrite !lookup_ge_None_2; [done|lia|rewrite length_bytes; lia].
Qed.

Lemma bytes_ext m m' p n : (∀ i, (i < n)%nat → byte m (p + Z.of_nat i) = byte m' (p + Z.of_nat i)) →
  bytes m p n = bytes m' p n.
Proof.
  intros H. unfold bytes. apply list_fmap_ext. intros k x [-> Hk]%lookup_seq. by apply H.
Qed.

Lemma bytes_write_other m p l q n : q + Z.of_nat n ≤ p ∨ p + len l ≤ q →
  bytes (write m p l) q n = bytes m q n.
Proof.
  intros H. apply bytes_ext. intros i Hi. rewrite byte_write, decide_False; [done|]. lia.
Qed.

Lemma bytes_byte_ok m p n : wf m → bytes_ok (bytes m p n).
Proof.
  intros Hm. apply Forall_fmap, Forall_forall. intros i _. cbn. unfold byte.
  destruct (ram m !! _) eqn:Hr; cbn; [by apply (Hm _ _ Hr)|lia].
Qed.

Lemma write_wf m p l : wf m → bytes_ok l → wf (write m p l).
Proof.
  intros Hm Hl q b. unfold write. cbn [ram]. rewrite put_lookup. case_decide; [|apply Hm].
  intros Hb. unfold bytes_ok in Hl; rewrite Forall_forall in Hl. apply Hl. by eapply list_elem_of_lookup_2.
Qed.

(** ** Words *)
Lemma read64_range m p : wf m → in_width 64 (read64 m p).
Proof.
  intros Hm. unfold read64, in_width. pose proof (le_decode_bound (bytes m p 8) (bytes_byte_ok m p 8 Hm)) as H.
  unfold len in H. rewrite length_bytes in H. exact H.
Qed.

Lemma read64_write64_same m p v : in_width 64 v → read64 (write64 m p v) p = v.
Proof.
  intros Hv. unfold read64, write64. replace 8%nat with (length (le_encode 8 v)) at 2 by apply length_le_encode.
  rewrite bytes_write_same. by apply le_decode_encode.
Qed.

Lemma read64_write64_other m p q v : q + 8 ≤ p ∨ p + 8 ≤ q → read64 (write64 m p v) q = read64 m q.
Proof.
  intros Hpq. unfold read64, write64. rewrite bytes_write_other; [done|].
  unfold len. rewrite length_le_encode. lia.
Qed.

Lemma write64_wf m p v : wf m → wf (write64 m p v).
Proof. intros. apply write_wf; [done|apply le_encode_ok]. Qed.

Lemma zero_frame_wf m p : wf m → wf (zero_frame m p).
Proof. intros. unfold zero_frame. generalize (Z.to_nat FRAME_SIZE). intros n. apply write_wf; [done|].
  unfold bytes_ok. apply Forall_replicate. lia. Qed.
End Ram.
