(* ===== verification/HalPaging.v ===== *)
(** * The virtual memory surface, and frames that arrive zeroed

    Models [hal/src/paging.rs], the [FrameAllocator] trait of
    [hal/src/frame.rs] and [kernel/src/memory/zeroed_frames.rs].  The two
    traits are classes: [FrameAllocator] is what page tables take their
    frames from, [PageMapper] what the kernel asks of the architecture. *)

From S2P Require Import Prelude Words PhysMem FrameAlloc Bytes Memory.
Local Open Scope Z_scope.

(** ** [hal/src/paging.rs] *)
Record MappedRange := {
  m_range : PhysRange; m_writable : bool; m_executable : bool; m_cache : CachePolicy
}.

Module MappedRanges.
Definition read_only_code (range : PhysRange) : MappedRange :=
  {| m_range := range; m_writable := false; m_executable := true; m_cache := WriteBack |}.
Definition writable_code (range : PhysRange) (cache : CachePolicy) : MappedRange :=
  {| m_range := range; m_writable := true; m_executable := true; m_cache := cache |}.
Definition data (range : PhysRange) (cache : CachePolicy) : MappedRange :=
  {| m_range := range; m_writable := true; m_executable := false; m_cache := cache |}.
End MappedRanges.

Definition PAGE_SIZE : Z := FRAME_SIZE.

Record Page := { page_start : Z }.

Module Pages.
Definition from_start_address (addr : Z) : option Page :=
  if Addr.is_aligned_to addr PAGE_SIZE then Some {| page_start := addr |} else None.
(** [addr.align_down(PAGE_SIZE)], which never panics: the divisor is a
    constant. *)
Definition containing_address (addr : Z) : Page := {| page_start := addr - addr mod PAGE_SIZE |}.
End Pages.

Record PageFlags := { f_writable : bool; f_executable : bool; f_user : bool; f_cache : CachePolicy }.

Module Flags.
Definition kernel (writable executable : bool) : PageFlags :=
  {| f_writable := writable; f_executable := executable; f_user := false; f_cache := WriteBack |}.
Definition user (writable executable : bool) : PageFlags :=
  {| f_writable := writable; f_executable := executable; f_user := true; f_cache := WriteBack |}.
Definition cached_as (f : PageFlags) (cache : CachePolicy) : PageFlags :=
  {| f_writable := f_writable f; f_executable := f_executable f; f_user := f_user f; f_cache := cache |}.
End Flags.

Inductive MapError :=
| OutsideKernelSpace | AlreadyMapped | OutOfFrames | TableFrameNotWritable | HugePageInTheWay.

Inductive UnmapError := UnmapOutsideKernelSpace | NotMapped | UnmapHugePageInTheWay.

(** ** The traits *)
Class FrameAllocator (F : Type) := allocate_frame : dev (Mem * F) Empty_set (option PhysFrame).

Class PageMapper (P F : Type) := {
  map_page : P → Page → PhysFrame → PageFlags → dev (Mem * F) MapError ();
  unmap_page : P → Page → dev Mem UnmapError PhysFrame;
  translate_address : P → Mem → Z → option Z
}.

(** ** [kernel/src/memory/zeroed_frames.rs] *)
Record PhysWindow := { w_base : Z }.

Module Window.
Definition identity : PhysWindow := {| w_base := 0 |}.
(** The address through the window; what it reaches is the frame itself. *)
Definition frame_ptr {E} (w : PhysWindow) (frame : PhysFrame) : res E Z :=
  expect (checked_add 64 (w_base w) (frame_start frame)).
Definition zero (w : PhysWindow) (frame : PhysFrame) (m : Mem) : may Mem :=
  _ ← frame_ptr w frame;
  Ok (Ram.zero_frame m (frame_start frame)).
End Window.

Record ZeroedFrames (A : Type) := { inner : A; window : PhysWindow; zeroed : Z }.
Arguments inner {A} _.
Arguments window {A} _.
Arguments zeroed {A} _.

Definition with_inner {A B} (z : ZeroedFrames A) (a : B) : ZeroedFrames B :=
  {| inner := a; window := window z; zeroed := zeroed z |}.

Abbreviation KernelFrames := (ZeroedFrames BitmapFrameAllocator).

Module Zeroed.
Definition new {A} (a : A) (w : PhysWindow) : ZeroedFrames A := {| inner := a; window := w; zeroed := 0 |}.
Definition set_window {A} (z : ZeroedFrames A) (w : PhysWindow) : ZeroedFrames A :=
  {| inner := inner z; window := w; zeroed := zeroed z |}.

Definition on_the_way_out {A} (frame : PhysFrame) : dev (Mem * ZeroedFrames A) Empty_set PhysFrame :=
  λ '(m, z),
    match Window.zero (window z) frame m with
    | Ok m' => (Ok frame, (m', {| inner := inner z; window := window z; zeroed := wrap 64 (zeroed z + 1) |}))
    | Err e => (Err e, (m, z))
    | Panic => (Panic, (m, z))
    | Diverge => (Diverge, (m, z))
    end.

(** [self.inner.f(..)] for an [f] of the bitmap that answers a value, and
    for one that answers a [Result]. *)
Definition with_bitmap {A B} (f : A → may (B * A)) : dev (Mem * ZeroedFrames A) Empty_set B :=
  λ '(m, z),
    match f (inner z) with
    | Ok (b, a) => (Ok b, (m, with_inner z a))
    | Err e => (Err e, (m, z))
    | Panic => (Panic, (m, z))
    | Diverge => (Diverge, (m, z))
    end.

Definition label (frame : PhysFrame) (purpose : FramePurpose) : dev (Mem * KernelFrames) Empty_set bool :=
  with_bitmap (λ a, FrameAlloc.label a frame purpose).

Definition allocate_for (purpose : FramePurpose) : dev (Mem * KernelFrames) Empty_set (option PhysFrame) :=
  got ← with_bitmap (λ a, FrameAlloc.allocate_for a purpose);
  match got with
  | Some frame => frame ← on_the_way_out frame; mret (Some frame)
  | None => mret None
  end.

Definition allocate : dev (Mem * KernelFrames) Empty_set (option PhysFrame) := allocate_for Kernel.

Definition deallocate_as (frame : PhysFrame) (purpose : FramePurpose) : dev (Mem * KernelFrames) DeallocError () :=
  λ '(m, z),
    match FrameAlloc.deallocate_as (inner z) frame purpose with
    | Ok a => (Ok (), (m, with_inner z a))
    | Err e => (Err e, (m, z))
    | Panic => (Panic, (m, z))
    | Diverge => (Diverge, (m, z))
    end.

Definition purpose_of (z : KernelFrames) (frame : PhysFrame) : option FramePurpose :=
  FrameAlloc.purpose_of (inner z) frame.
Definition frames_for (z : KernelFrames) (purpose : FramePurpose) : Z := FrameAlloc.frames_for (inner z) purpose.
Definition with_purposes (z : KernelFrames) (table : list Z) : may KernelFrames :=
  a ← FrameAlloc.with_purposes (inner z) table; Ok (with_inner z a).
Definition manages (z : KernelFrames) (frame : PhysFrame) : bool := FrameAlloc.manages (inner z) frame.
Definition free_frames (z : KernelFrames) : Z := FrameAlloc.free_frames (inner z).
Definition covered_frames (z : KernelFrames) : Z := FrameAlloc.covered_frames (inner z).
Definition uncovered_usable_frames (z : KernelFrames) : Z := FrameAlloc.uncovered_usable_frames (inner z).
Definition bitmap (z : KernelFrames) : list Z := FrameAlloc.bitmap (inner z).
Definition boot_services_reclaimed (z : KernelFrames) : bool := FrameAlloc.boot_services_reclaimed (inner z).
Definition reclaim_boot_services : dev (Mem * KernelFrames) Empty_set Z :=
  with_bitmap FrameAlloc.reclaim_boot_services.
End Zeroed.

(** [impl FrameAllocator for ZeroedFrames<A>]. *)
#[export] Instance kernel_frames : FrameAllocator KernelFrames :=
  got ← Zeroed.with_bitmap FrameAlloc.allocate_frame;
  match got with
  | Some frame => frame ← Zeroed.on_the_way_out frame; mret (Some frame)
  | None => mret None
  end.
