(* ===== verification/PageTables.v ===== *)
(** * x86_64 four-level page tables

    Models [arch/x86_64/src/paging.rs]: walking, mapping, unmapping and
    building the kernel's tables, over physical memory ([Memory]).  A table
    at physical [p] is reached at [base + p] ([PhysAccess]); what is there
    is the table itself, which is the contract of the window.  Reading and
    writing the control registers is the processor's: [take_over] takes
    what it read of them as an argument. *)

From S2P Require Import Prelude Words PhysMem FrameAlloc Bytes Memory HalPaging.
Local Open Scope Z_scope.

Definition KERNEL_SPACE_BASE : Z := 0xFFFF800000000000.
Definition KERNEL_HEAP_START : Z := KERNEL_SPACE_BASE + Z.shiftl 1 39.
Definition KERNEL_STACKS_START : Z := KERNEL_SPACE_BASE + 2 * Z.shiftl 1 39.
Definition KERNEL_IMAGE_START : Z := KERNEL_SPACE_BASE + 3 * Z.shiftl 1 39.
Definition KERNEL_PHYSMAP_START : Z := KERNEL_SPACE_BASE + 4 * Z.shiftl 1 39.
Definition KERNEL_RUNTIME_START : Z := KERNEL_SPACE_BASE + 5 * Z.shiftl 1 39.
Definition KERNEL_DEVICES_START : Z := KERNEL_SPACE_BASE + 6 * Z.shiftl 1 39.

Definition ENTRIES : Z := 512.
Definition PAGE : Z := 4096.
Definition LARGE_PAGE : Z := 2 * 1024 * 1024.
Definition GIB : Z := 1024 * 1024 * 1024.
Definition DEFAULT_IDENTITY_LIMIT : Z := 4 * GIB.

Definition PRESENT : Z := 0x1.
Definition WRITABLE : Z := 0x2.
Definition USER : Z := 0x4.
Definition WRITE_THROUGH : Z := 0x8.
Definition CACHE_DISABLE : Z := 0x10.
Definition HUGE : Z := 0x80.
Definition NO_EXECUTE : Z := 0x8000000000000000.
Definition ADDRESS_MASK : Z := 0x000FFFFFFFFFF000.

Definition CR3_FLAGS : Z := 0x18.
Definition CR4_PCIDE : Z := 0x20000.
Definition CR4_LA57 : Z := 0x1000.
Definition EFER_NXE : Z := 0x800.

(** Whether a flag is set: [entry & FLAG != 0]. *)
Definition has (flag entry : Z) : bool := negb (Z.land entry flag =? 0).

Definition table_indices (va : Z) : list Z := (λ shift, Z.land (Z.shiftr va shift) 0x1FF) <$> [39; 30; 21; 12].

Definition is_canonical (va : Z) : bool := (Z.shiftr va 47 =? 0) || (Z.shiftr va 47 =? 0x1FFFF).

Inductive PagingError :=
| FiveLevelPaging | PcidEnabled | NoExecuteDisabled | NotIdentityMapped | KernelSpaceInUse
| PagingOutOfFrames | PagingTableFrameNotWritable | BadIdentityLimit | RequiredRangeOutsideIdentityMap
| WindowOutsideKernelSpace | WindowSlotTaken.

Record IdentityMapStats := { s_tables : Z; s_limit : Z; s_executable_pages : Z; s_read_only_pages : Z }.

Definition cache_bits (policy : CachePolicy) : Z :=
  match policy with
  | WriteBack | Unspecified => 0
  | WriteThrough => WRITE_THROUGH
  | WriteCombining | Uncacheable => Z.lor CACHE_DISABLE WRITE_THROUGH
  end.

(** ** [PhysAccess] *)
Definition entry_at (table index : Z) : Z := table + 8 * index.
Definition read_entry (m : Mem) (table index : Z) : Z := Ram.read64 m (entry_at table index).
Definition write_entry (m : Mem) (table index value : Z) : Mem := Ram.write64 m (entry_at table index) value.

Record Translation := { phys : Z; t_writable : bool; page_size : Z }.

#[export] Instance Translation_eq_dec : EqDecision Translation.
Proof. solve_decision. Defined.

Record PageTables := { root : Z; base : Z }.

Definition to_paging (e : MapError) : PagingError :=
  match e with OutOfFrames => PagingOutOfFrames | _ => PagingTableFrameNotWritable end.

Module Tables.
(** [for (level, index) in table_indices(va)]: [level] counts from 0. *)
Fixpoint translate_from (m : Mem) (va level : Z) (indices : list Z) (table : Z) (writable : bool)
    : option Translation :=
  match indices with
  | [] => None
  | index :: rest =>
      let entry := read_entry m table index in
      if negb (has PRESENT entry) || ((level =? 0) && has HUGE entry) then None
      else
        let writable := writable && has WRITABLE entry in
        if (level =? 3) || has HUGE entry then
          let size := Z.shiftl 1 (39 - 9 * level) in
          let base := Z.land (Z.land entry ADDRESS_MASK) (not_w 64 (size - 1)) in
          Some {| phys := base + Z.land va (size - 1); t_writable := writable; page_size := size |}
        else translate_from m va (level + 1) rest (Z.land entry ADDRESS_MASK) writable
  end.

Definition translate (t : PageTables) (m : Mem) (va : Z) : option Translation :=
  if negb (is_canonical va) then None else translate_from m va 0 (table_indices va) (root t) true.

Section tables.
  Context {F : Type} `{!FrameAllocator F}.
  Local Abbreviation St := (Mem * F)%type.

(** [access.read], [access.write], [access.flush] and [flush_all]. *)
Definition read {E} (table index : Z) : dev St E Z := λ s, (Ok (read_entry s.1 table index), s).
Definition write {E} (table index value : Z) : dev St E () :=
  modify (λ s, (write_entry s.1 table index value, s.2)).
Definition flush {E} (va : Z) : dev St E () := modify (λ s, (Ram.flush s.1 va, s.2)).
Definition flush_all {E} : dev St E () := modify (λ s, (Ram.flush_all s.1, s.2)).

Definition new_table (t : PageTables) : dev St MapError Z :=
  got ← infallible allocate_frame;
  frame ← lift (ok_or OutOfFrames (frame_start <$> got));
  s ← get;
  match translate t s.1 (wrap 64 (base t + frame)) with
  | Some tr =>
      if (phys tr =? frame) && t_writable tr then
        _ ← for_in (seqZ 0 ENTRIES) (λ _ index, write frame index 0) ();
        mret frame
      else lift (Err TableFrameNotWritable)
  | None => lift (Err TableFrameNotWritable)
  end.

(** One level of the walk of [map]: the table below, and whether a table's
    entry had to be opened to ring 3. *)
Definition map_level (t : PageTables) (user : bool) (st : Z * bool) (index : Z) : dev St MapError (Z * bool) :=
  let '(table, upgraded) := st in
  entry ← read table index;
  let reachable := if user then Z.lor (Z.lor PRESENT WRITABLE) USER else Z.lor PRESENT WRITABLE in
  if negb (has PRESENT entry) then
    new ← new_table t;
    _ ← write table index (Z.lor new reachable);
    mret (new, upgraded)
  else if has HUGE entry then lift (Err HugePageInTheWay)
  else
    upgraded ← (if user && negb (has USER entry)
                then _ ← write table index (Z.lor entry USER); mret true
                else mret upgraded);
    mret (Z.land entry ADDRESS_MASK, upgraded).

Definition leaf_of (frame : PhysFrame) (flags : PageFlags) : Z :=
  let leaf := Z.lor (Z.lor (frame_start frame) PRESENT) (cache_bits (f_cache flags)) in
  let leaf := if f_writable flags then Z.lor leaf WRITABLE else leaf in
  let leaf := if negb (f_executable flags) then Z.lor leaf NO_EXECUTE else leaf in
  if f_user flags then Z.lor leaf USER else leaf.

Definition map (t : PageTables) (page : Z) (frame : PhysFrame) (flags : PageFlags) : dev St MapError () :=
  if negb (Bool.eqb (f_user flags) (page <? KERNEL_SPACE_BASE)) then lift (Err OutsideKernelSpace)
  else
    let indices := table_indices page in
    '(table, upgraded) ← for_in (take 3 indices) (map_level t (f_user flags)) (root t, false);
    last ← lift (expect (index indices 3));
    old ← read table last;
    if has PRESENT old then lift (Err AlreadyMapped)
    else
      _ ← write table last (leaf_of frame flags);
      _ ← flush page;
      if upgraded : bool then flush_all else mret ().
End tables.

(** ** Unmapping *)
Definition unmap_level (table index : Z) : dev Mem UnmapError Z :=
  m ← get;
  let entry := read_entry m table index in
  if negb (has PRESENT entry) then lift (Err NotMapped)
  else if has HUGE entry then lift (Err UnmapHugePageInTheWay)
  else mret (Z.land entry ADDRESS_MASK).

Definition unmap (t : PageTables) (page : Z) : dev Mem UnmapError PhysFrame :=
  if page <? KERNEL_SPACE_BASE then lift (Err UnmapOutsideKernelSpace)
  else
    let indices := table_indices page in
    table ← for_in (take 3 indices) unmap_level (root t);
    last ← lift (expect (index indices 3));
    m ← get;
    let leaf := read_entry m table last in
    if negb (has PRESENT leaf) then lift (Err NotMapped)
    else
      _ ← modify (λ m, write_entry m table last 0);
      _ ← modify (λ m, Ram.flush m page);
      mret (Frame.containing_address (Z.land leaf ADDRESS_MASK)).

Section builders.
  Context {F : Type} `{!FrameAllocator F}.
  Local Abbreviation St := (Mem * F)%type.

(** [new_table(..).map_err(to_paging)]. *)
Definition new_table_p (t : PageTables) : dev St PagingError Z := dev_map_err to_paging (new_table t).

Definition kernel_slots : list Z := seqZ 256 256.
Definition lower_slots : list Z := seqZ 0 256.

(** [adopt]: a fresh copy of the firmware's root. *)
Definition adopt (base old_root : Z) : dev St PagingError PageTables :=
  s ← get;
  if existsb (λ slot, has PRESENT (read_entry s.1 old_root slot)) kernel_slots then lift (Err KernelSpaceInUse)
  else
    new_root ← new_table_p {| root := old_root; base := base |};
    _ ← for_in (seqZ 0 ENTRIES) (λ _ slot, entry ← read old_root slot; write new_root slot entry) ();
    mret {| root := new_root; base := base |}.

(** ** The identity map *)
Definition overlaps_page (r : PhysRange) (page size : Z) : bool := Range.overlaps r page (page + size).

Definition runs_code (executable : list MappedRange) (page : Z) : bool :=
  existsb (λ c, m_executable c && overlaps_page (m_range c) page PAGE) executable.

Definition only_code (executable : list MappedRange) (page : Z) : bool :=
  existsb (λ c, Range.contains (m_range c) page && (page + PAGE <=? Range.end_ (m_range c))) executable &&
  negb (existsb (λ c, m_writable c && overlaps_page (m_range c) page PAGE) executable).

Definition small_entry (executable : list MappedRange) (page : Z) : Z :=
  let flags := PRESENT in
  let flags := if negb (only_code executable page) then Z.lor flags WRITABLE else flags in
  let flags := if negb (runs_code executable page) then Z.lor flags NO_EXECUTE else flags in
  Z.lor page flags.

(** One 4 KiB page of a fine-grained 2 MiB; the counters are the pages left
    executable and read-only. *)
Definition identity_page (executable : list MappedRange) (base table : Z) (st : Z * Z) (index : Z)
    : dev St PagingError (Z * Z) :=
  let '(executable_pages, read_only_pages) := st in
  let page := base + index * PAGE in
  if page =? 0 then mret (executable_pages, read_only_pages)
  else
    _ ← write table index (small_entry executable page);
    mret (executable_pages + Z.b2z (runs_code executable page), read_only_pages + Z.b2z (only_code executable page)).

Definition fine_grained (executable : list MappedRange) (base : Z) : bool :=
  (base =? 0) || existsb (λ c, overlaps_page (m_range c) base LARGE_PAGE) executable.

Definition large_entry (base : Z) : Z := Z.lor base (Z.lor (Z.lor (Z.lor PRESENT WRITABLE) HUGE) NO_EXECUTE).
Definition table_entry (table : Z) : Z := Z.lor (Z.lor table PRESENT) WRITABLE.

(** One 2 MiB entry of a directory. *)
Definition identity_entry (t : PageTables) (executable : list MappedRange) (slot directory : Z)
    (st : Z * Z * Z) (entry : Z) : dev St PagingError (Z * Z * Z) :=
  let '(tables, executable_pages, read_only_pages) := st in
  let base := slot * GIB + entry * LARGE_PAGE in
  if negb (fine_grained executable base) then
    _ ← write directory entry (large_entry base);
    mret (tables, executable_pages, read_only_pages)
  else
    table ← new_table_p t;
    '(executable_pages, read_only_pages) ←
      for_in (seqZ 0 ENTRIES) (identity_page executable base table) (executable_pages, read_only_pages);
    _ ← write directory entry (table_entry table);
    mret (tables + 1, executable_pages, read_only_pages).

Definition identity_slot (t : PageTables) (executable : list MappedRange) (pdpt : Z)
    (st : Z * Z * Z) (slot : Z) : dev St PagingError (Z * Z * Z) :=
  let '(tables, executable_pages, read_only_pages) := st in
  directory ← new_table_p t;
  st ← for_in (seqZ 0 ENTRIES) (identity_entry t executable slot directory)
              (tables + 1, executable_pages, read_only_pages);
  _ ← write pdpt slot (table_entry directory);
  mret st.

Definition bad_limit (limit : Z) : bool :=
  (limit =? 0) || negb (is_multiple_of limit GIB) || (512 * GIB <? limit).

(** [for slot in 1..256 { write(root, slot, 0) }]. *)
Definition clear_lower (t : PageTables) : dev St PagingError () :=
  for_in (seqZ 1 255) (λ _ slot, write (root t) slot 0) ().

Definition rebuild_identity (t : PageTables) (limit : Z) (executable : list MappedRange)
    : dev St PagingError IdentityMapStats :=
  if bad_limit limit then lift (Err BadIdentityLimit)
  else if existsb (λ c, let r := m_range c in
         (range_len r =? 0) || (limit <=? range_start r) ||
         bool_decide (Addr.checked_add (range_start r) (range_len r) = None) ||
         (limit <? Range.end_ r)) executable
  then lift (Err RequiredRangeOutsideIdentityMap)
  else
    pdpt ← new_table_p t;
    '(tables, executable_pages, read_only_pages) ←
      for_in (seqZ 0 (limit / GIB)) (identity_slot t executable pdpt) (1, 0, 0);
    _ ← write (root t) 0 (table_entry pdpt);
    _ ← clear_lower t;
    _ ← flush_all;
    mret {| s_tables := tables; s_limit := limit; s_executable_pages := executable_pages;
            s_read_only_pages := read_only_pages |}.

(** ** The window onto physical memory *)
Definition window_slot (t : PageTables) (pdpt : Z) (tables slot : Z) : dev St PagingError Z :=
  directory ← new_table_p t;
  _ ← for_in (seqZ 0 ENTRIES)
        (λ _ entry, write directory entry (large_entry (slot * GIB + entry * LARGE_PAGE))) ();
  _ ← write pdpt slot (table_entry directory);
  mret (tables + 1).

Definition map_physical_window (t : PageTables) (base limit : Z) : dev St PagingError Z :=
  if bad_limit limit then lift (Err BadIdentityLimit)
  else if (base <? KERNEL_SPACE_BASE) || negb (is_multiple_of base (512 * GIB))
  then lift (Err WindowOutsideKernelSpace)
  else
    root_slot ← lift (expect (index (table_indices base) 0));
    entry ← read (root t) root_slot;
    if has PRESENT entry then lift (Err WindowSlotTaken)
    else
      pdpt ← new_table_p t;
      tables ← for_in (seqZ 0 (limit / GIB)) (window_slot t pdpt) 1;
      _ ← write (root t) root_slot (table_entry pdpt);
      _ ← flush_all;
      mret tables.

(** ** What is left of the lower half *)
Definition keep_level (t : PageTables) (st : Z * Z) (index : Z) : dev St PagingError (Z * Z) :=
  let '(table, tables) := st in
  entry ← read table index;
  if negb (has PRESENT entry) then
    new ← new_table_p t;
    _ ← write table index (table_entry new);
    mret (new, tables + 1)
  else mret (Z.land entry ADDRESS_MASK, tables).

Definition keep_leaf (code : MappedRange) (page : Z) : Z :=
  let leaf := Z.lor (Z.lor page PRESENT) (cache_bits (m_cache code)) in
  let leaf := if m_writable code then Z.lor leaf WRITABLE else leaf in
  if negb (m_executable code) then Z.lor leaf NO_EXECUTE else leaf.

Definition keep_page (t : PageTables) (pdpt : Z) (code : MappedRange) (tables page : Z) : dev St PagingError Z :=
  let indices := table_indices page in
  '(table, tables) ← for_in (take 2 (drop 1 indices)) (keep_level t) (pdpt, tables);
  last ← lift (expect (index indices 3));
  _ ← write table last (keep_leaf code page);
  mret tables.

(** [(first..=last).step_by(PAGE)]. *)
Definition pages_of (r : PhysRange) : list Z :=
  let first := range_start r / PAGE in
  let last := (Range.end_ r - 1) / PAGE in
  (λ n, n * PAGE) <$> seqZ first (last - first + 1).

Definition keep_only (t : PageTables) (keep : list MappedRange) : dev St PagingError Z :=
  if existsb (λ c, let r := m_range c in
       (range_len r =? 0) || (512 * GIB <=? range_start r) || (512 * GIB <? Range.end_ r)) keep
  then lift (Err RequiredRangeOutsideIdentityMap)
  else
    pdpt ← new_table_p t;
    tables ← for_in keep (λ tables code, for_in (pages_of (m_range code)) (keep_page t pdpt code) tables) 1;
    _ ← write (root t) 0 (Z.lor (table_entry pdpt) USER);
    _ ← clear_lower t;
    _ ← flush_all;
    mret tables.

(** ** Spaces *)
Definition new_process_space (t : PageTables) : dev St MapError PageTables :=
  new ← new_table t;
  _ ← for_in kernel_slots (λ _ slot, entry ← read (root t) slot; write new slot entry) ();
  mret {| root := new; base := base t |}.
End builders.

Section free.
  Context {G : Type}.
  Local Abbreviation St := (Mem * G)%type.
  (** The closure [give_back], with what it captures as its state. *)
  Context (give_back : PhysFrame → dev St Empty_set bool).

Definition hand_back (freed addr : Z) : dev St Empty_set Z :=
  accepted ← give_back (Frame.containing_address addr);
  mret (if accepted : bool then freed + 1 else freed).

(** A table's entry, unless it is absent or a large page. *)
Definition free_directory (directory freed index : Z) : dev St Empty_set Z :=
  entry ← read directory index;
  if negb (has PRESENT entry) || has HUGE entry then mret freed
  else hand_back freed (Z.land entry ADDRESS_MASK).

Definition free_pointers (pointers freed index : Z) : dev St Empty_set Z :=
  entry ← read pointers index;
  if negb (has PRESENT entry) || has HUGE entry then mret freed
  else
    let directory := Z.land entry ADDRESS_MASK in
    freed ← for_in (seqZ 0 ENTRIES) (free_directory directory) freed;
    hand_back freed directory.

Definition free_slot (root freed slot : Z) : dev St Empty_set Z :=
  entry ← read root slot;
  if negb (has PRESENT entry) then mret freed
  else
    let pointers := Z.land entry ADDRESS_MASK in
    freed ← for_in (seqZ 0 ENTRIES) (free_pointers pointers) freed;
    freed ← hand_back freed pointers;
    _ ← write root slot 0;
    mret freed.

Definition free_lower_half (t : PageTables) : dev St Empty_set Z :=
  freed ← for_in lower_slots (free_slot (root t)) 0;
  hand_back freed (root t).
End free.
End Tables.

(** ** [KernelPageTable] and [AddressSpace] *)
Module KernelTables.
Section kernel.
  Context {F : Type} `{!FrameAllocator F}.

(** The registers as the processor holds them, and the address of the
    caller's stack. *)
Record Registers := { cr3 : Z; cr4 : Z; efer : Z; stack_addr : Z }.

(** [active_identity_writable_run]: under the tables CR3 names. *)
Definition active_identity_writable_run (r : Registers) (m : Mem) (frame : PhysFrame) : option Z :=
  let t := {| root := Z.land (cr3 r) ADDRESS_MASK; base := 0 |} in
  let addr := frame_start frame in
  match Tables.translate t m addr with
  | Some tr =>
      if t_writable tr && (phys tr =? addr) then Some (page_size tr - Z.land addr (page_size tr - 1)) else None
  | None => None
  end.

(** Answers the tables and what CR3 is loaded with. *)
Definition take_over (r : Registers) : dev (Mem * F) PagingError (PageTables * Z) :=
  if has CR4_LA57 (cr4 r) then lift (Err FiveLevelPaging)
  else if has CR4_PCIDE (cr4 r) then lift (Err PcidEnabled)
  else if negb (has EFER_NXE (efer r)) then lift (Err NoExecuteDisabled)
  else
    let firmware := {| root := Z.land (cr3 r) ADDRESS_MASK; base := 0 |} in
    s ← get;
    if existsb (λ addr, bool_decide (phys <$> Tables.translate firmware s.1 addr ≠ Some addr))
         [root firmware; stack_addr r]
    then lift (Err NotIdentityMapped)
    else
      tables ← Tables.adopt 0 (root firmware);
      mret (tables, Z.lor (root tables) (Z.land (cr3 r) CR3_FLAGS)).

Definition use_physical_window (t : PageTables) (window_base : Z) : PageTables :=
  {| root := root t; base := window_base |}.

Definition new_address_space (t : PageTables) : dev (Mem * F) PagingError PageTables :=
  dev_map_err to_paging (Tables.new_process_space t).
End kernel.
End KernelTables.

(** [impl PageMapper for KernelPageTable], and [AddressSpace::map] and
    [translate], which are the same. *)
#[export] Instance kernel_mapper {F} `{!FrameAllocator F} : PageMapper PageTables F := {
  map_page t page frame flags := Tables.map t (page_start page) frame flags;
  unmap_page t page := Tables.unmap t (page_start page);
  translate_address t m addr := phys <$> Tables.translate t m addr
}.
