(* ===== verification/PageWalk.v ===== *)
(** * Walking page tables: what a tree of tables means

    [access] is the processor's walk: where an address leads and what may
    be done there, every level's rights taken together.  It is stated on a
    reading function [rd table index], so that what a write does is the
    update of a function.  [subtables] are the tables under a table; a tree
    whose tables are all different ([NoDup]) is what every operation on page
    tables keeps, and what makes a write in one of them change one entry of
    one walk only. *)

From S2P Require Import Prelude Words PhysMem Bytes Memory HalPaging PageTables.
Local Open Scope Z_scope.

(** ** Bits of an entry *)
Definition table_ok (t : Z) : Prop := 0 ≤ t < 2 ^ 52 ∧ t mod 4096 = 0.

#[export] Instance table_ok_dec t : Decision (table_ok t).
Proof. unfold table_ok. apply _. Defined.

(** Clearing the low bits of an address rounds it down to its page. *)
Lemma land_page_mask a : in_width 64 a → Z.land a (not_w 64 (PAGE_SIZE - 1)) = 4096 * (a / 4096).
Proof.
  intros Ha. change 4096 with (2 ^ 12). rewrite <-Z.shiftr_div_pow2, Z.mul_comm, <-Z.shiftl_mul_pow2 by done.
  apply Z.bits_inj'. intros i Hi. rewrite Z.land_spec, Z.shiftl_spec by done.
  destruct (decide (i < 64)) as [H64|H64].
  - change (PAGE_SIZE - 1) with (Z.ones 12). rewrite testbit_not_w by (unfold in_width; done || lia).
    destruct (decide (i < 12)).
    + rewrite Z.ones_spec_low, (Z.testbit_neg_r (Z.shiftr a 12)) by lia. by rewrite andb_false_r.
    + rewrite Z.ones_spec_high, Z.shiftr_spec by lia. rewrite andb_true_r. f_equal. lia.
  - rewrite (testbit_high 64 a) by (done || lia). rewrite Z.shiftr_spec by lia. rewrite (testbit_high 64 a); [done|done|lia].
Qed.

Lemma address_mask_testbit i : Z.testbit ADDRESS_MASK i = (12 <=? i) && (i <? 52).
Proof.
  change ADDRESS_MASK with (Z.shiftl (Z.ones 40) 12). destruct (Z.ltb_spec i 0).
  { rewrite Z.testbit_neg_r by done. by destruct (Z.leb_spec 12 i); [lia|]. }
  rewrite Z.shiftl_spec by done. rewrite Z.testbit_ones by lia.
  destruct (Z.leb_spec 0 (i - 12)), (Z.ltb_spec (i - 12) 40), (Z.leb_spec 12 i), (Z.ltb_spec i 52); try lia; done.
Qed.

Lemma aligned_low t i : t mod 4096 = 0 → 0 ≤ i < 12 → Z.testbit t i = false.
Proof.
  intros Ht Hi. rewrite <-(Z.mod_pow2_bits_low t 12 i) by lia. change (2 ^ 12) with 4096.
  by rewrite Ht, Z.bits_0.
Qed.

Lemma table_bits t i : table_ok t → Z.testbit t i = true → 12 ≤ i < 52.
Proof.
  intros [[H0 H1] Ha] Hi. destruct (Z.ltb_spec i 0); [by rewrite Z.testbit_neg_r in Hi by done|].
  split.
  - destruct (Z.leb_spec 12 i); [done|]. rewrite aligned_low in Hi by (done || lia). done.
  - destruct (Z.ltb_spec i 52); [done|]. rewrite (testbit_high 52) in Hi; [done|split; lia|lia].
Qed.

Lemma land_mask_table t : table_ok t → Z.land t ADDRESS_MASK = t.
Proof.
  intros Ht. apply Z.bits_inj'. intros i Hi. rewrite Z.land_spec, address_mask_testbit.
  destruct (Z.testbit t i) eqn:Hb; [|done]. apply (table_bits t i Ht) in Hb.
  destruct (Z.leb_spec 12 i), (Z.ltb_spec i 52); (done || lia).
Qed.

(** A flag is a bit outside the address. *)
Definition flag_ok (f : Z) : Prop := Z.land ADDRESS_MASK f = 0.

Lemma land_table_flag t f : table_ok t → flag_ok f → Z.land t f = 0.
Proof.
  intros Ht Hf. rewrite <-(land_mask_table t Ht). rewrite <-Z.land_assoc.
  unfold flag_ok in Hf. by rewrite Hf, Z.land_0_r.
Qed.

Lemma has_lor f a b : has f (Z.lor a b) = has f a || has f b.
Proof.
  unfold has. rewrite Z.land_lor_distr_l.
  destruct (Z.eqb_spec (Z.land a f) 0) as [-> | Ha]; cbn [negb orb]; [done|].
  destruct (Z.eqb_spec (Z.lor (Z.land a f) (Z.land b f)) 0) as [H|H]; [|done].
  apply Z.lor_eq_0_iff in H. tauto.
Qed.

Lemma has_table f t : table_ok t → flag_ok f → has f t = false.
Proof. intros Ht Hf. unfold has. by rewrite land_table_flag. Qed.

Lemma has_0 f : has f 0 = false.
Proof. unfold has. by rewrite Z.land_0_l. Qed.

Lemma mask_lor_flag a f : flag_ok f → Z.land (Z.lor a f) ADDRESS_MASK = Z.land a ADDRESS_MASK.
Proof.
  intros Hf. unfold flag_ok in Hf. rewrite Z.land_lor_distr_l, (Z.land_comm f), Hf. apply Z.lor_0_r.
Qed.

Lemma mask_table_ok e : table_ok (Z.land e ADDRESS_MASK).
Proof.
  split.
  - split; [apply Z.land_nonneg; right; done|].
    assert (in_width 52 (Z.land e ADDRESS_MASK)) as [_ ?]; [|done]. apply in_width_testbit; [done|..].
    + apply Z.land_nonneg. by right.
    + intros i Hi. rewrite Z.land_spec, address_mask_testbit. destruct (Z.ltb_spec i 52); [lia|].
      by rewrite andb_false_r, andb_false_r.
  - change 4096 with (2 ^ 12). apply Z.bits_inj'. intros i Hi. rewrite Z.bits_0.
    destruct (Z.ltb_spec i 12).
    + rewrite Z.mod_pow2_bits_low by lia. rewrite Z.land_spec, address_mask_testbit.
      destruct (Z.leb_spec 12 i); [lia|]. by rewrite andb_false_r.
    + by rewrite Z.mod_pow2_bits_high by lia.
Qed.

(** ** Trees *)
Abbreviation reading := (Z → Z → Z).

Definition slots : list Z := seqZ 0 512.

Lemma in_slots i : i ∈ slots ↔ 0 ≤ i < 512.
Proof. unfold slots. rewrite in_seqZ. lia. Qed.

Lemma NoDup_slots : NoDup slots.
Proof. apply NoDup_seqZ. Qed.

(** The table an entry leads to. *)
Definition child (rd : reading) (t i : Z) : option Z :=
  let e := rd t i in if has PRESENT e && negb (has HUGE e) then Some (Z.land e ADDRESS_MASK) else None.

Fixpoint subtables (rd : reading) (n : nat) (t : Z) : list Z :=
  t :: match n with
       | O => []
       | S n => concat ((λ i, match child rd t i with Some c => subtables rd n c | None => [] end) <$> slots)
       end.

(** The tables under entry [i] of [t], and the tables of [t] under the
    entries [S] only. *)
Definition under (rd : reading) (n : nat) (t i : Z) : list Z :=
  match child rd t i with Some c => subtables rd n c | None => [] end.

Definition tree (rd : reading) (S : list Z) (n : nat) (t : Z) : list Z :=
  t :: match n with O => [] | Datatypes.S n => concat (under rd n t <$> S) end.

Lemma tree_slots rd n t : tree rd slots n t = subtables rd n t.
Proof. by destruct n. Qed.

(** ** Rights *)
Record Access := { a_base : Z; a_size : Z; a_writable : bool; a_user : bool; a_execute : bool }.

#[export] Instance Access_eq_dec : EqDecision Access.
Proof. solve_decision. Defined.

Definition restrict (e : Z) (a : Access) : Access :=
  {| a_base := a_base a; a_size := a_size a; a_writable := has WRITABLE e && a_writable a;
     a_user := has USER e && a_user a; a_execute := negb (has NO_EXECUTE e) && a_execute a |}.

(** The size of the page an entry maps at [n] levels from the last. *)
Definition size_of (n : nat) : Z := 2 ^ (12 + 9 * Z.of_nat n).

Definition last_access (n : nat) (e : Z) : Access :=
  {| a_base := Z.land (Z.land e ADDRESS_MASK) (not_w 64 (size_of n - 1)); a_size := size_of n;
     a_writable := has WRITABLE e; a_user := has USER e; a_execute := negb (has NO_EXECUTE e) |}.

(** [n] levels of tables below [t]; [v] is an index for each level. *)
Fixpoint access (rd : reading) (n : nat) (v : list Z) (t : Z) : option Access :=
  match v with
  | [] => None
  | i :: v =>
      let e := rd t i in
      if negb (has PRESENT e) then None
      else
        match n with
        | O => Some (last_access 0 e)
        | S n' =>
            if has HUGE e then if (n =? 3)%nat then None else Some (last_access n e)
            else restrict e <$> access rd n' v (Z.land e ADDRESS_MASK)
        end
  end.

Definition indices_ok (n : nat) (v : list Z) : Prop := length v = n ∧ Forall (λ i, 0 ≤ i < 512) v.

Lemma indices_ok_cons n i v : indices_ok (S n) (i :: v) ↔ 0 ≤ i < 512 ∧ indices_ok n v.
Proof. unfold indices_ok. rewrite Forall_cons. cbn [length]. naive_solver lia. Qed.

Lemma access_step rd n i v t :
  access rd (S n) (i :: v) t =
    if has PRESENT (rd t i) && has HUGE (rd t i) then (if (S n =? 3)%nat then None else Some (last_access (S n) (rd t i)))
    else match child rd t i with Some c => restrict (rd t i) <$> access rd n v c | None => None end.
Proof.
  cbn [access]. unfold child. destruct (has PRESENT (rd t i)), (has HUGE (rd t i)); reflexivity.
Qed.

(** ** What is read decides *)
Lemma child_ext (rd rd' : reading) t i : rd' t i = rd t i → child rd' t i = child rd t i.
Proof. unfold child. by intros ->. Qed.

Lemma child_ok rd t i c : child rd t i = Some c → table_ok c.
Proof. unfold child. destruct (_ && _); [|done]. intros [= <-]. apply mask_table_ok. Qed.

Lemma child_Some rd t i c : child rd t i = Some c →
  has PRESENT (rd t i) = true ∧ has HUGE (rd t i) = false ∧ c = Z.land (rd t i) ADDRESS_MASK.
Proof. unfold child. destruct (has PRESENT (rd t i)), (has HUGE (rd t i)); cbn; naive_solver. Qed.

Lemma in_under rd n t i x S : x ∈ under rd n t i → i ∈ S → x ∈ tree rd S (Datatypes.S n) t.
Proof.
  intros Hx Hi. right. apply elem_of_concat. exists (under rd n t i). split; [|done].
  by apply list_elem_of_fmap_2.
Qed.

Lemma in_tree rd n t x S :
  x ∈ tree rd S (Datatypes.S n) t ↔ x = t ∨ ∃ i, i ∈ S ∧ x ∈ under rd n t i.
Proof.
  unfold tree. rewrite elem_of_cons, elem_of_concat. split; (intros [? | Hx]; [by left|right]).
  - destruct Hx as (l & (i & -> & Hi)%list_elem_of_fmap & Hx). eauto.
  - destruct Hx as (i & Hi & Hx). exists (under rd n t i). split; [by apply list_elem_of_fmap_2|done].
Qed.

Lemma subtables_child rd n t i c : child rd t i = Some c → subtables rd n c = under rd n t i.
Proof. unfold under. intros Hc. by rewrite Hc. Qed.

Lemma subtables_self rd n t : t ∈ subtables rd n t.
Proof. destruct n; left. Qed.

Lemma tables_ok_under rd n t i x : x ∈ under rd n t i → table_ok x.
Proof.
  revert t i x; induction n as [|n IH]; intros t i x; unfold under; destruct (child rd t i) as [c|] eqn:Hc;
    try (by intros ?%not_elem_of_nil); apply child_ok in Hc.
  - by intros ->%list_elem_of_singleton.
  - rewrite <-tree_slots, in_tree. intros [-> | (j & _ & Hj)]; [done|by eapply IH].
Qed.

Section ext.
  Context (rd rd' : reading).

Lemma subtables_ext n t :
  (∀ x i, x ∈ subtables rd n t → 0 ≤ i < 512 → rd' x i = rd x i) → subtables rd' n t = subtables rd n t.
Proof.
  revert t; induction n as [|n IH]; intros t H; [done|]. cbn [subtables]. f_equal. f_equal.
  apply list_fmap_ext. intros k i Hk%list_elem_of_lookup_2%in_slots.
  rewrite (child_ext rd rd' t i) by (apply H; [left|done]). destruct (child rd t i) as [c|] eqn:Hc; [|done].
  apply IH. intros x j Hx Hj. apply H; [|done]. rewrite <-tree_slots. eapply (in_under _ _ _ i); [|by apply in_slots].
  unfold under. by rewrite Hc.
Qed.

Lemma access_ext n v t : indices_ok (S n) v →
  (∀ x i, x ∈ subtables rd n t → 0 ≤ i < 512 → rd' x i = rd x i) → access rd' n v t = access rd n v t.
Proof.
  revert v t; induction n as [|n IH]; intros v t Hv H; destruct v as [|i v]; try (by destruct Hv);
    apply indices_ok_cons in Hv as [Hi Hv].
  - cbn [access]. rewrite H by (done || left). done.
  - rewrite !access_step. rewrite (H t i) by (done || apply subtables_self).
    rewrite (child_ext rd rd' t i) by (apply H; [apply subtables_self|done]).
    destruct (child rd t i) as [c|] eqn:Hc; [|done]. rewrite (IH v c Hv); [done|].
    intros x j Hx Hj. apply H; [|done]. rewrite <-tree_slots. eapply (in_under _ _ _ i); [|by apply in_slots].
    unfold under. by rewrite Hc.
Qed.
End ext.

(** ** Replacing what is under one entry *)
Section segments.
  Context {A B : Type}.

Lemma NoDup_concat_fmap (f : A → list B) S : NoDup S →
  NoDup (concat (f <$> S)) ↔
    (∀ j, j ∈ S → NoDup (f j)) ∧ (∀ j k x, j ∈ S → k ∈ S → j ≠ k → x ∈ f j → x ∉ f k).
Proof.
  induction 1 as [|i S Hi HS IH]; cbn.
  { split; [|intros; constructor]. intros _. split; [by intros ? ?%not_elem_of_nil|by intros ? ? ? ?%not_elem_of_nil]. }
  rewrite NoDup_app, IH. setoid_rewrite elem_of_concat. setoid_rewrite list_elem_of_fmap. split.
  - intros (H1 & H2 & H3 & H4). split.
    + intros j [-> | Hj]%elem_of_cons; [done|by apply H3].
    + assert (∀ k x, k ∈ S → x ∈ f i → x ∉ f k) as Hik by (intros k x Hk Hx Hx'; eapply (H2 x Hx); exists (f k); eauto).
      intros j k x [-> | Hj]%elem_of_cons [-> | Hk]%elem_of_cons Hne Hx Hx'; try done;
        [exact (Hik _ _ Hk Hx Hx')|exact (Hik _ _ Hj Hx' Hx)|exact (H4 _ _ _ Hj Hk Hne Hx Hx')].
  - intros (H1 & H2). split_and!.
    + apply H1. left.
    + intros x Hx (l & (k & -> & Hk) & Hx'). eapply (H2 i k x); try done; [left|by right|congruence].
    + intros j Hj. apply H1. by right.
    + intros j k x Hj Hk. apply H2; by right.
Qed.

Lemma NoDup_replace `{EqDecision A} (f g : A → list B) S i (fresh : B → Prop) : NoDup S →
  NoDup (concat (f <$> S)) →
  (∀ j, j ∈ S → j ≠ i → g j = f j) →
  NoDup (g i) → (∀ x, x ∈ g i → x ∈ f i ∨ fresh x) →
  (∀ x, x ∈ concat (f <$> S) → ¬ fresh x) → i ∈ S →
  NoDup (concat (g <$> S)) ∧
  (∀ x, x ∈ concat (g <$> S) → x ∈ concat (f <$> S) ∨ (x ∈ g i ∧ fresh x)).
Proof.
  intros HS Hf Hg Hi Hsub Hfresh HiS. apply NoDup_concat_fmap in Hf as [Hf1 Hf2]; [|done].
  assert (∀ j x, j ∈ S → x ∈ f j → x ∈ concat (f <$> S)) as Hin.
  { intros j x Hj Hx. apply elem_of_concat. exists (f j). split; [by apply list_elem_of_fmap_2|done]. }
  split.
  - apply NoDup_concat_fmap; [done|]. split.
    + intros j Hj. destruct (decide (j = i)) as [-> | Hne]; [done|]. rewrite Hg by done. by apply Hf1.
    + intros j k x Hj Hk Hne Hx Hx'. destruct (decide (j = i)) as [-> | Hji], (decide (k = i)) as [-> | Hki]; try done.
      * rewrite Hg in Hx' by done. destruct (Hsub x Hx) as [?|Hfr]; [by eapply (Hf2 i k)|]. by eapply Hfresh; eauto.
      * rewrite Hg in Hx by done. destruct (Hsub x Hx') as [?|Hfr]; [by eapply (Hf2 j i)|]. by eapply Hfresh; eauto.
      * rewrite Hg in Hx, Hx' by done. by eapply (Hf2 j k).
  - intros x (l & (j & -> & Hj)%list_elem_of_fmap & Hx)%elem_of_concat.
    destruct (decide (j = i)) as [-> | Hne]; [|left; rewrite Hg in Hx by done; by eapply Hin].
    destruct (Hsub x Hx); [left; by eapply Hin|by right].
Qed.
End segments.

(** ** Flags of the entries the code writes *)
Definition link (user : bool) (c : Z) : Z :=
  Z.lor c (if user then Z.lor (Z.lor PRESENT WRITABLE) USER else Z.lor PRESENT WRITABLE).

Lemma link_spec user c : table_ok c →
  has PRESENT (link user c) = true ∧ has HUGE (link user c) = false ∧ has USER (link user c) = user ∧
  has WRITABLE (link user c) = true ∧ has NO_EXECUTE (link user c) = false ∧
  Z.land (link user c) ADDRESS_MASK = c ∧ in_width 64 (link user c).
Proof.
  intros Hc. unfold link.
  assert (flag_ok (if user then Z.lor (Z.lor PRESENT WRITABLE) USER else Z.lor PRESENT WRITABLE)) as Hf by (by destruct user).
  rewrite !has_lor, mask_lor_flag, land_mask_table by done.
  rewrite !(has_table _ c) by done. split_and!; try (by destruct user). apply lor_in_width; [done| |by destruct user].
  destruct Hc as [? _]. split; lia.
Qed.

(** A table's entry restricts nothing but ring 3. *)
Definition open_link (e : Z) : Prop := has WRITABLE e = true ∧ has NO_EXECUTE e = false.

Lemma upgrade_spec e : in_width 64 e →
  has PRESENT (Z.lor e USER) = has PRESENT e ∧ has HUGE (Z.lor e USER) = has HUGE e ∧
  has USER (Z.lor e USER) = true ∧ Z.land (Z.lor e USER) ADDRESS_MASK = Z.land e ADDRESS_MASK ∧
  in_width 64 (Z.lor e USER) ∧ (open_link e → open_link (Z.lor e USER)) ∧
  (∀ a, has USER e = true ∨ a_user a = false → restrict (Z.lor e USER) a = restrict e a).
Proof.
  intros He. rewrite !has_lor, mask_lor_flag by done.
  change (has PRESENT USER) with false. change (has HUGE USER) with false. change (has USER USER) with true.
  rewrite !orb_false_r, orb_true_r. split_and!; try done; [by apply lor_in_width| |].
  { intros [HW HX]. split; rewrite has_lor; [by rewrite HW|by rewrite HX]. }
  intros a Ha. unfold restrict. rewrite !has_lor. change (has WRITABLE USER) with false.
  change (has NO_EXECUTE USER) with false. change (has USER USER) with true.
  rewrite !orb_false_r, orb_true_r. f_equal. destruct Ha as [-> | ->]; [done|by rewrite !andb_false_r].
Qed.

(** ** User rights go all the way up

    Where a table's entry denies ring 3, so does every page below it: then
    opening that entry to ring 3 opens no page that was closed.  And a
    table's entry denies nothing else. *)
Definition no_user (rd : reading) (n : nat) (t : Z) : Prop :=
  ∀ v a, indices_ok (S n) v → access rd n v t = Some a → a_user a = false.

Fixpoint user_ok (rd : reading) (n : nat) (t : Z) : Prop :=
  match n with
  | O => True
  | S n => ∀ i c, i ∈ slots → child rd t i = Some c →
             user_ok rd n c ∧ open_link (rd t i) ∧ (has USER (rd t i) = false → no_user rd n c)
  end.

Definition user_in (rd : reading) (S : list Z) (n : nat) (t : Z) : Prop :=
  match n with
  | O => True
  | Datatypes.S n => ∀ i c, i ∈ S → child rd t i = Some c →
             user_ok rd n c ∧ open_link (rd t i) ∧ (has USER (rd t i) = false → no_user rd n c)
  end.

Lemma user_in_slots rd n t : user_in rd slots n t ↔ user_ok rd n t.
Proof. by destruct n. Qed.

Lemma no_user_ext (rd rd' : reading) n t :
  (∀ v, indices_ok (S n) v → access rd' n v t = access rd n v t) → no_user rd n t → no_user rd' n t.
Proof. intros H Hn v a Hv Ha. rewrite H in Ha by done. by eapply Hn. Qed.

Lemma user_ok_ext (rd rd' : reading) n t :
  (∀ x i, x ∈ subtables rd n t → 0 ≤ i < 512 → rd' x i = rd x i) → user_ok rd n t → user_ok rd' n t.
Proof.
  revert t; induction n as [|n IH]; intros t H Hu; [done|]. intros i c Hi Hc.
  assert (0 ≤ i < 512) as Hi' by (by apply in_slots).
  assert (rd' t i = rd t i) as He by (apply H; [apply subtables_self|done]).
  rewrite (child_ext rd rd' t i He) in Hc. rewrite He. destruct (Hu i c Hi Hc) as (H1 & HL & H2).
  assert (∀ x j, x ∈ subtables rd n c → 0 ≤ j < 512 → rd' x j = rd x j) as Hsub.
  { intros x j Hx Hj. apply H; [|done]. rewrite <-tree_slots. eapply (in_under _ _ _ i); [|done].
    unfold under. by rewrite Hc. }
  split; [by apply IH|]. split; [done|]. intros Hn. eapply no_user_ext; [|by apply H2]. intros v Hv. by apply access_ext.
Qed.

(** A table of zeros leads nowhere. *)
Section zeros.
  Context (rd : reading) (t : Z).
  Hypothesis Hz : ∀ j, 0 ≤ j < 512 → rd t j = 0.

Lemma child_zero j : 0 ≤ j < 512 → child rd t j = None.
Proof. intros Hj. unfold child. rewrite Hz by done. by rewrite has_0. Qed.

Lemma subtables_zero n : subtables rd n t = [t].
Proof.
  destruct n as [|n]; [done|]. cbn [subtables]. f_equal. apply elem_of_nil_inv. intros x Hx.
  apply elem_of_concat in Hx as (l & (j & -> & Hj%in_slots)%list_elem_of_fmap & Hx).
  rewrite child_zero in Hx by done. by apply elem_of_nil in Hx.
Qed.

Lemma access_zero n v : indices_ok (S n) v → access rd n v t = None.
Proof.
  intros Hv. destruct v as [|j v]; [by destruct Hv|]. apply indices_ok_cons in Hv as [Hj _]. destruct n; cbn [access]; rewrite Hz by done; by rewrite has_0.
Qed.

Lemma user_ok_zero n : user_ok rd n t.
Proof. destruct n as [|n]; [done|]. intros j c Hj%in_slots. by rewrite child_zero. Qed.
End zeros.

(** The table at the end of a path, and whether ring 3 may go down it. *)
Fixpoint path (rd : reading) (t : Z) (v : list Z) : option Z :=
  match v with
  | [] => Some t
  | i :: v => match child rd t i with Some c => path rd c v | None => None end
  end.

Fixpoint path_user (rd : reading) (t : Z) (v : list Z) : Prop :=
  match v with
  | [] => True
  | i :: v => has USER (rd t i) = true ∧
              match child rd t i with Some c => path_user rd c v | None => False end
  end.
