(* ===== verification/PageTree.v ===== *)
(** * Going down the page tables

    What one write to memory does to what is read, what a frame allocator
    promises the page tables ([FrameAllocatorLaws]), and what the walk of
    [map] does on its way to the last table: new tables are zeroed and fresh,
    the tree stays a tree, and no address translates differently. *)

From S2P Require Import Prelude Words PhysMem Bytes Memory HalPaging PageTables PageWalk.
Local Open Scope Z_scope.

(** ** Entries in memory *)
Abbreviation look m := (read_entry m).

Lemma table_ok_add t u : table_ok t → table_ok u → t ≠ u → t + 4096 ≤ u ∨ u + 4096 ≤ t.
Proof.
  intros [_ Ht] [_ Hu] Hne. apply Z.mod_divide in Ht as [a ->]; [|done]. apply Z.mod_divide in Hu as [b ->]; [|done].
  assert (a ≠ b) by congruence. lia.
Qed.

Lemma look_write m t i v u j :
  table_ok t → table_ok u → 0 ≤ i < 512 → 0 ≤ j < 512 → in_width 64 v →
  look (write_entry m t i v) u j = if decide (t = u ∧ i = j) then v else look m u j.
Proof.
  intros Ht Hu Hi Hj Hv. unfold read_entry, write_entry, entry_at. case_decide as H.
  - destruct H as [<- <-]. by apply Ram.read64_write64_same.
  - apply Ram.read64_write64_other. destruct (decide (t = u)) as [<- | Hne].
    + assert (i ≠ j) by tauto. lia.
    + destruct (table_ok_add t u Ht Hu Hne); lia.
Qed.

Lemma look_zero_frame m t u j : table_ok t → table_ok u → t ≠ u → 0 ≤ j < 512 →
  look (Ram.zero_frame m t) u j = look m u j.
Proof.
  intros Ht Hu Hne Hj. unfold read_entry, entry_at, Ram.zero_frame, Ram.read64. f_equal.
  apply Ram.bytes_write_other. rewrite len_replicate. unfold FRAME_SIZE.
  destruct (table_ok_add t u Ht Hu Hne); lia.
Qed.

Lemma look_range m t i : Ram.wf m → in_width 64 (look m t i).
Proof. apply Ram.read64_range. Qed.

(** ** What the page tables need of an allocator *)
Class FrameAllocatorLaws (F : Type) `{!FrameAllocator F} := {
  fa_ok : F → Prop;
  (** The frames it may hand out. *)
  fa_pool : F → Z → Prop;
  allocate_law m f : fa_ok f → Ram.wf m →
    ∃ got m' f', allocate_frame (m, f) = (Ok got, (m', f')) ∧ fa_ok f' ∧ Ram.wf m' ∧ tlb m' = tlb m ∧
      (∀ x, fa_pool f' x → fa_pool f x) ∧
      match got with
      | None => m' = m
      | Some fr =>
          table_ok (frame_start fr) ∧ fa_pool f (frame_start fr) ∧ ¬ fa_pool f' (frame_start fr) ∧
          ∀ u j, table_ok u → u ≠ frame_start fr → 0 ≤ j < 512 → look m' u j = look m u j
      end
}.

Section walk.
  Context {F : Type} `{FrameAllocatorLaws F}.
  Local Abbreviation St := (Mem * F)%type.

Definition good (s : St) : Prop := fa_ok s.2 ∧ Ram.wf s.1.

(** From [s] to [s']: nothing but the tables [W] and frames that were free
    has been written, and frames have only been taken. *)
Record evolves (W : Z → Prop) (s s' : St) : Prop := {
  ev_good : good s';
  ev_tlb : tlb s'.1 = tlb s.1;
  ev_pool x : fa_pool s'.2 x → fa_pool s.2 x;
  ev_same u j : table_ok u → 0 ≤ j < 512 → ¬ W u → ¬ fa_pool s.2 u → look s'.1 u j = look s.1 u j
}.

Lemma evolves_refl W s : good s → evolves W s s.
Proof. by split. Qed.

Lemma evolves_trans W s s1 s2 : evolves W s s1 → evolves W s1 s2 → evolves W s s2.
Proof.
  intros [G1 T1 P1 S1] [G2 T2 P2 S2]. split; [done|congruence|auto|].
  intros u j Hu Hj Hw Hp. rewrite S2, S1; auto.
Qed.

Lemma evolves_weaken (W W' : Z → Prop) s s' : (∀ x, W x → W' x) → evolves W s s' → evolves W' s s'.
Proof. intros HW [G T P S]. split; auto. Qed.

(** One write to one of the tables. *)
Lemma evolves_write (W : Z → Prop) s t i v : good s → table_ok t → 0 ≤ i < 512 → in_width 64 v → W t →
  evolves W s (write_entry s.1 t i v, s.2).
Proof.
  intros [Hf Hm] Ht Hi Hv HW. split; cbn [fst snd]; [split; [done|by apply Ram.write64_wf]|done|auto|].
  intros u j Hu Hj Hnw Hp. rewrite look_write by done. rewrite decide_False; [done|]. intros [-> _]. done.
Qed.

(** Zeroing a table, entry by entry. *)
Lemma zero_loop (E : Type) l s t : Forall (λ i, 0 ≤ i < 512) l → table_ok t → good s →
  ∃ s', for_in (E:=E) l (λ _ index, Tables.write t index 0) () s = (Ok (), s') ∧
    s'.2 = s.2 ∧ good s' ∧ tlb s'.1 = tlb s.1 ∧
    (∀ u j, table_ok u → 0 ≤ j < 512 → look s'.1 u j = if decide (u = t ∧ j ∈ l) then 0 else look s.1 u j).
Proof.
  intros Hl Ht. revert s. induction Hl as [|i l Hi Hl IH]; intros s Hs; cbn [for_in].
  { eexists. split; [reflexivity|]. split_and!; try done. intros u j Hu Hj. rewrite decide_False; [done|].
    intros [_ Hin]. by apply elem_of_nil in Hin. }
  set (s1 := (write_entry s.1 t i 0, s.2)). assert (good s1) as Hs1.
  { destruct Hs. split; cbn; [done|by apply Ram.write64_wf]. }
  destruct (IH s1 Hs1) as (s' & E1 & E2 & E3 & E4 & E5). exists s'. split; [exact E1|].
  split_and!; [by rewrite E2|done|by rewrite E4|]. intros u j Hu Hj. rewrite E5 by done. unfold s1. cbn [fst].
  rewrite look_write by (done || (unfold in_width; lia)).
  repeat case_decide; set_solver.
Qed.

(** [new_table]: a fresh table of zeros, or an error. *)
Lemma new_table_spec (T : PageTables) s : good s →
  ∃ r s', Tables.new_table T s = (r, s') ∧
    match r with
    | Ok c => evolves (λ _, False) s s' ∧ table_ok c ∧ fa_pool s.2 c ∧ ¬ fa_pool s'.2 c ∧
              (∀ u j, table_ok u → u ≠ c → 0 ≤ j < 512 → look s'.1 u j = look s.1 u j) ∧
              (∀ j, 0 ≤ j < 512 → look s'.1 c j = 0)
    | Err e => evolves (λ _, False) s s' ∧ (e = OutOfFrames ∨ e = TableFrameNotWritable)
    | _ => False
    end.
Proof.
  intros Hs. destruct s as [m f], Hs as [Hf Hm]. cbn in Hf, Hm. unfold Tables.new_table.
  destruct (allocate_law m f Hf Hm) as (got & m1 & f1 & E & Hf1 & Hm1 & Htlb & Hpool & Hgot).
  rewrite (dev_bind_Ok _ _ _ _ _ (infallible_run _ _ _ _ E)), dev_bind_run.
  destruct got as [[c]|]; cbn [fmap option_fmap option_map ok_or lift frame_start].
  2:{ subst m1. eexists _, _. split; [reflexivity|]. split; [|by left]. split; try done. }
  cbn [frame_start] in Hgot. destruct Hgot as (Hc & Hin & Hout & Hsame).
  assert (evolves (λ _, False) (m, f) (m1, f1)) as Hev.
  { split; [done|done|done|]. cbn. intros u j Hu Hj _ Hp. apply Hsame; [done| |done]. by intros ->. }
  rewrite dev_bind_run. cbn [get fst]. destruct (Tables.translate T m1 (wrap 64 (base T + c))) as [tr|].
  2:{ eexists _, _. split; [reflexivity|]. split; [exact Hev|by right]. }
  destruct ((phys tr =? c) && t_writable tr).
  2:{ eexists _, _. split; [reflexivity|]. split; [exact Hev|by right]. }
  assert (Forall (λ i, 0 ≤ i < 512) (seqZ 0 ENTRIES)) as Hl by (apply Forall_forall; intros i Hi%in_seqZ; unfold ENTRIES in Hi; lia).
  destruct (zero_loop MapError _ (m1, f1) c Hl Hc) as (s' & Ez & E2 & E3 & E4 & E5); [done|].
  rewrite (dev_bind_Ok _ _ _ _ _ Ez). eexists _, _. split; [reflexivity|]. cbn in E2.
  assert (∀ u j, table_ok u → u ≠ c → 0 ≤ j < 512 → look s'.1 u j = look m u j) as Hu.
  { intros u j Hu Hne Hj. rewrite E5 by done. rewrite decide_False by tauto. by apply Hsame. }
  split_and!; [|done|done|by rewrite E2|done|].
  - split; [done|cbn; by rewrite E4|cbn; rewrite E2; auto|]. cbn. intros u j Hu' Hj _ Hp. apply Hu; [done| |done].
    by intros ->.
  - intros j Hj. rewrite E5 by done. rewrite decide_True; [done|]. split; [done|]. apply in_seqZ. unfold ENTRIES. lia.
Qed.

(** One level of [map]'s walk. *)
Lemma level_spec (T : PageTables) user up s t i :
  good s → table_ok t → ¬ fa_pool s.2 t → 0 ≤ i < 512 →
  ∃ r s1, Tables.map_level T user (t, up) i s = (r, s1) ∧
    match r with
    | Ok (c, up1) =>
        evolves (eq t) s s1 ∧ child (look s1.1) t i = Some c ∧
        (user = true → has USER (look s1.1 t i) = true) ∧
        (∀ u j, table_ok u → u ≠ c → 0 ≤ j < 512 → ¬ (u = t ∧ j = i) → look s1.1 u j = look s.1 u j) ∧
        ((has PRESENT (look s.1 t i) = false ∧ has USER (look s1.1 t i) = user ∧ open_link (look s1.1 t i) ∧ fa_pool s.2 c ∧ ¬ fa_pool s1.2 c ∧
          ∀ j, 0 ≤ j < 512 → look s1.1 c j = 0) ∨
         (child (look s.1) t i = Some c ∧ (∀ j, c ≠ t → 0 ≤ j < 512 → look s1.1 c j = look s.1 c j) ∧
          (look s1.1 t i = look s.1 t i ∨
           user = true ∧ look s1.1 t i = Z.lor (look s.1 t i) USER)))
    | Err e => evolves (λ _, False) s s1 ∧ e ∈ [OutOfFrames; TableFrameNotWritable; HugePageInTheWay]
    | _ => False
    end.
Proof.
  intros Hs Ht Hp Hi. unfold Tables.map_level. rewrite dev_bind_run. unfold Tables.read at 1.
  destruct (has PRESENT (look s.1 t i)) eqn:HP; cbn [negb].
  - destruct (has HUGE (look s.1 t i)) eqn:HH.
    { eexists _, _. split; [reflexivity|]. split; [by apply evolves_refl|set_solver]. }
    assert (child (look s.1) t i = Some (Z.land (look s.1 t i) ADDRESS_MASK)) as Hc by (unfold child; by rewrite HP, HH).
    pose proof (look_range s.1 t i (proj2 Hs)) as Hw.
    destruct (upgrade_spec _ Hw) as (U1 & U2 & U3 & U4 & U5 & _ & _).
    destruct (user && negb (has USER (look s.1 t i))) eqn:Hup.
    + apply andb_true_iff in Hup as [-> _].
      eexists _, _. split; [reflexivity|]. cbn [fst snd].
      assert (look (write_entry s.1 t i (Z.lor (look s.1 t i) USER)) t i = Z.lor (look s.1 t i) USER) as Hn.
      { rewrite look_write by done. by rewrite decide_True. }
      split_and!; [by apply evolves_write| | | |].
      * unfold child. by rewrite Hn, U1, U2, U4, HP, HH.
      * intros _. by rewrite Hn.
      * intros u j Hu Huc Hj Hne. rewrite look_write by done. by rewrite decide_False by naive_solver.
      * right. split; [exact Hc|]. split; [|right; by rewrite Hn].
        intros j Hct Hj. pose proof (mask_table_ok (look s.1 t i)). rewrite look_write by done. by rewrite decide_False by naive_solver.
    + eexists _, _. split; [reflexivity|]. split; [by apply evolves_refl|]. split; [done|].
      split; [intros ->; cbn [andb] in Hup; by apply negb_false_iff in Hup|]. split; [done|].
      right. split; [done|]. split; [done|by left].
  - destruct (new_table_spec T s Hs) as (r & s1 & E & Hr). rewrite dev_bind_run, E.
    destruct r as [c|e| |]; [|eexists _, _; split; [reflexivity|]; destruct Hr as [? [-> | ->]]; set_solver|done|done].
    destruct Hr as (Hev & Hc & Hpin & Hpout & Hsame & Hz). eexists _, _. split; [reflexivity|]. cbn [fst snd].
    fold (link user c). destruct (link_spec user c Hc) as (L1 & L2 & L3 & L6 & L7 & L4 & L5).
    assert (t ≠ c) as Htc by (intros ->; done).
    assert (look (write_entry s1.1 t i (link user c)) t i = link user c) as Hn.
    { rewrite look_write by done. by rewrite decide_True. }
    split_and!.
    + eapply evolves_trans; [eapply evolves_weaken; [|exact Hev]; done|].
      apply evolves_write; try done. apply Hev.
    + unfold child. by rewrite Hn, L1, L2, L4.
    + intros ->. by rewrite Hn.
    + intros u j Hu Huc Hj Hne. rewrite look_write by done. rewrite decide_False by naive_solver. by apply Hsame.
    + left. split; [done|]. rewrite Hn. split; [done|]. split; [done|]. split; [done|]. split; [done|].
      intros j Hj. rewrite look_write by done.
      rewrite decide_False by naive_solver. by apply Hz.
Qed.

(** ** Trees that only grow

    [sound]: a tree of tables none of which is free.  [same_tree]: from [s]
    to [s'] it has grown, by fresh tables only, and no walk through the
    entries [Sl] of its first table ends elsewhere. *)
Definition first_in (Sl v : list Z) : Prop := match v with i :: _ => i ∈ Sl | [] => False end.

Record sound (Sl : list Z) (n : nat) (t : Z) (s : St) : Prop := {
  so_good : good s;
  so_table : table_ok t;
  so_nodup : NoDup (tree (look s.1) Sl n t);
  so_pool x : x ∈ tree (look s.1) Sl n t → ¬ fa_pool s.2 x;
  so_user : user_in (look s.1) Sl n t
}.

Record same_tree (Sl : list Z) (n : nat) (t : Z) (s s' : St) : Prop := {
  st_ev : evolves (λ x, x ∈ tree (look s.1) Sl n t) s s';
  st_root j : j ∉ Sl → 0 ≤ j < 512 → look s'.1 t j = look s.1 t j;
  st_nodup : NoDup (tree (look s'.1) Sl n t);
  st_sub x : x ∈ tree (look s'.1) Sl n t → x ∈ tree (look s.1) Sl n t ∨ (fa_pool s.2 x ∧ ¬ fa_pool s'.2 x);
  st_access v : indices_ok (S n) v → first_in Sl v → access (look s'.1) n v t = access (look s.1) n v t;
  st_user : user_in (look s'.1) Sl n t
}.

Lemma same_tree_sound Sl n t s s' : sound Sl n t s → same_tree Sl n t s s' → sound Sl n t s'.
Proof.
  intros Hs Hst. split; [apply Hst|apply Hs|apply Hst| |apply Hst].
  intros x [Hx|[_ Hx]]%(st_sub _ _ _ _ _ Hst); [|done]. intros Hp. eapply so_pool; [exact Hs|exact Hx|].
  by apply (ev_pool _ _ _ (st_ev _ _ _ _ _ Hst)).
Qed.

(** Frames were taken and nothing else happened. *)
Lemma same_tree_idle Sl n t s s' : Forall (λ i, 0 ≤ i < 512) Sl → sound Sl n t s →
  evolves (λ _, False) s s' → same_tree Sl n t s s'.
Proof.
  intros HSl Hs Hev.
  assert (∀ x j, x ∈ tree (look s.1) Sl n t → table_ok x → 0 ≤ j < 512 → look s'.1 x j = look s.1 x j) as Hx.
  { intros x j Hx Hok Hj. apply (ev_same _ _ _ Hev); [done|done|by intros []|by apply (so_pool _ _ _ _ Hs)]. }
  assert (t ∈ tree (look s.1) Sl n t) as Ht by (destruct n; left). pose proof (so_table _ _ _ _ Hs) as Hok.
  assert (∀ j, 0 ≤ j < 512 → look s'.1 t j = look s.1 t j) as Hroot by (intros; by apply Hx).
  destruct n as [|n].
  { split; [eapply evolves_weaken; [|exact Hev]; done|auto|apply NoDup_singleton|by left| |done].
    intros v Hv _. apply access_ext; [done|]. intros x j ->%list_elem_of_singleton Hj. by apply Hroot. }
  assert (∀ i c x j, i ∈ Sl → child (look s.1) t i = Some c → x ∈ subtables (look s.1) n c → 0 ≤ j < 512 →
            look s'.1 x j = look s.1 x j) as Hsub.
  { intros i c x j Hi Hc Hin Hj. rewrite (subtables_child _ _ _ _ _ Hc) in Hin.
    apply Hx; [by eapply in_under|by eapply tables_ok_under|done]. }
  assert (∀ i, i ∈ Sl → 0 ≤ i < 512 ∧ child (look s'.1) t i = child (look s.1) t i) as Hch.
  { intros i Hi. rewrite Forall_forall in HSl. split; [by apply HSl|]. apply child_ext, Hroot. by apply HSl. }
  assert (tree (look s'.1) Sl (S n) t = tree (look s.1) Sl (S n) t) as Htree.
  { unfold tree. do 2 f_equal. apply list_fmap_ext. intros k i Hi%list_elem_of_lookup_2. unfold under.
    destruct (Hch i Hi) as [_ ->]. destruct (child (look s.1) t i) as [c|] eqn:Hc; [|done].
    apply subtables_ext. intros x j. by apply (Hsub i c). }
  split; [eapply evolves_weaken; [|exact Hev]; done|auto|by rewrite Htree; apply Hs|rewrite Htree; by left| |].
  - intros [|i v] Hv Hi; [done|]. apply indices_ok_cons in Hv as [Hir Hv]. rewrite !access_step, Hroot by done.
    destruct (Hch i Hi) as [_ ->]. destruct (child (look s.1) t i) as [c|] eqn:Hc; [|done].
    rewrite (access_ext (look s.1) (look s'.1)); [done|done|]. intros x j. by apply (Hsub i c).
  - intros i c Hi Hc. destruct (Hch i Hi) as [Hir Hce]. rewrite Hce in Hc. rewrite Hroot by done.
    destruct (so_user _ _ _ _ Hs i c Hi Hc) as (H1 & HL & H2).
    split; [eapply user_ok_ext; [|done]; intros x j; by apply (Hsub i c)|]. split; [done|].
    intros Hu. eapply no_user_ext; [|by apply H2]. intros v Hv. apply access_ext; [done|]. intros x j. by apply (Hsub i c).
Qed.

(** ** One level, then the levels below it *)
Section step.
  #[local] Set Default Proof Using "All".
  Context (Sl : list Z) (n : nat) (t i c : Z) (user : bool) (s s1 : St).
  Hypothesis HSl : Forall (λ i, 0 ≤ i < 512) Sl.
  Hypothesis HNd : NoDup Sl.
  Hypothesis Hi : i ∈ Sl.
  Hypothesis Hs : sound Sl (S n) t s.
  Hypothesis Lev : evolves (eq t) s s1.
  Hypothesis Lc : child (look s1.1) t i = Some c.
  Hypothesis Lsame : ∀ u j, table_ok u → u ≠ c → 0 ≤ j < 512 → ¬ (u = t ∧ j = i) → look s1.1 u j = look s.1 u j.
  Hypothesis Lcase :
    (has PRESENT (look s.1 t i) = false ∧ has USER (look s1.1 t i) = user ∧ open_link (look s1.1 t i) ∧ fa_pool s.2 c ∧ ¬ fa_pool s1.2 c ∧
      ∀ j, 0 ≤ j < 512 → look s1.1 c j = 0) ∨
    (child (look s.1) t i = Some c ∧ (∀ j, c ≠ t → 0 ≤ j < 512 → look s1.1 c j = look s.1 c j) ∧
      (look s1.1 t i = look s.1 t i ∨ user = true ∧ look s1.1 t i = Z.lor (look s.1 t i) USER)).

Lemma step_range j : j ∈ Sl → 0 ≤ j < 512.
Proof. intros Hj. rewrite Forall_forall in HSl. by apply HSl. Qed.

Lemma step_c : table_ok c.
Proof. by eapply child_ok. Qed.

Lemma step_t : t ∈ tree (look s.1) Sl (S n) t ∧ ¬ fa_pool s.2 t.
Proof. assert (t ∈ tree (look s.1) Sl (S n) t) by left. split; [done|]. by apply (so_pool _ _ _ _ Hs). Qed.

Lemma step_under j x : j ∈ Sl → x ∈ under (look s.1) n t j →
  x ∈ tree (look s.1) Sl (S n) t ∧ table_ok x ∧ ¬ fa_pool s.2 x ∧ x ≠ t.
Proof.
  intros Hj Hx. assert (x ∈ tree (look s.1) Sl (S n) t) as Hin by (by eapply in_under).
  split; [done|]. split; [by eapply tables_ok_under|]. split; [by apply (so_pool _ _ _ _ Hs)|]. intros ->.
  pose proof (so_nodup _ _ _ _ Hs) as [Hn _]%NoDup_cons. apply Hn. apply elem_of_concat.
  exists (under (look s.1) n t j). split; [by apply list_elem_of_fmap_2|done].
Qed.

Lemma step_disjoint j k x : j ∈ Sl → k ∈ Sl → j ≠ k → x ∈ under (look s.1) n t j → x ∉ under (look s.1) n t k.
Proof.
  intros Hj Hk Hne. pose proof (so_nodup _ _ _ _ Hs) as [_ Hn]%NoDup_cons.
  apply NoDup_concat_fmap in Hn as [_ Hd]; [|done]. by apply Hd.
Qed.

(** What hangs under the entry after the step. *)
Lemma step_subtables :
  (fa_pool s.2 c ∧ ¬ fa_pool s1.2 c ∧ subtables (look s1.1) n c = [c]) ∨
  (child (look s.1) t i = Some c ∧ subtables (look s1.1) n c = under (look s.1) n t i ∧
   ∀ x j, x ∈ subtables (look s.1) n c → 0 ≤ j < 512 → look s1.1 x j = look s.1 x j).
Proof.
  pose proof (id Lcase) as [(_ & _ & _ & Hp & Hp' & Hz)|(Hc & Hcsame & _)].
  { left. split_and!; [done|done|]. by apply subtables_zero. }
  right. split; [done|].
  assert (∀ x j, x ∈ subtables (look s.1) n c → 0 ≤ j < 512 → look s1.1 x j = look s.1 x j) as Hx.
  { intros x j Hx Hj. rewrite (subtables_child _ _ _ _ _ Hc) in Hx. destruct (step_under i x Hi Hx) as (_ & Hok & _ & Hne).
    destruct (decide (x = c)) as [-> | Hxc]; [by apply Hcsame|]. apply Lsame; try done. naive_solver. }
  split; [|done]. rewrite (subtables_ext (look s.1) (look s1.1)) by done. by apply subtables_child.
Qed.

Lemma step_in_subtables x : x ∈ subtables (look s1.1) n c →
  (x = c ∧ fa_pool s.2 c ∧ ¬ fa_pool s1.2 c) ∨ x ∈ under (look s.1) n t i.
Proof.
  destruct step_subtables as [(H1 & H2 & ->)|(_ & -> & _)]; [|by right].
  intros ->%list_elem_of_singleton. by left.
Qed.

Lemma step_child_sound : sound slots n c s1.
Proof.
  split; [apply Lev|apply step_c|..].
  - rewrite tree_slots. destruct step_subtables as [(_ & _ & ->)|(_ & -> & _)]; [apply NoDup_singleton|].
    pose proof (so_nodup _ _ _ _ Hs) as [_ Hn]%NoDup_cons. apply NoDup_concat_fmap in Hn as [Hn _]; [|done]. by apply Hn.
  - intros x Hx Hp. rewrite tree_slots in Hx. apply step_in_subtables in Hx as [(-> & _ & ?)|Hx]; [done|].
    destruct (step_under i x Hi Hx) as (_ & _ & Hnp & _). by apply Hnp, (ev_pool _ _ _ Lev).
  - apply user_in_slots. pose proof (id Lcase) as [(_ & _ & _ & _ & _ & Hz)|(Hc & _)]; [by apply user_ok_zero|].
    destruct step_subtables as [(Hp & _)|(_ & _ & Hx)].
    + destruct (step_under i c Hi) as (_ & _ & ? & _); [|done]. unfold under. rewrite Hc. apply subtables_self.
    + eapply user_ok_ext; [exact Hx|]. by apply (so_user _ _ _ _ Hs i c Hi).
Qed.

(** Walking below the entry: nothing before, or the same. *)
Lemma step_access v : indices_ok (S n) v →
  (has PRESENT (look s.1 t i) = false ∧ access (look s1.1) n v c = None) ∨
  (child (look s.1) t i = Some c ∧ access (look s1.1) n v c = access (look s.1) n v c).
Proof.
  intros Hv. pose proof (id Lcase) as [(Hp & _ & _ & _ & _ & Hz)|(Hc & _ & _)]; [left; split; [done|by apply access_zero]|].
  right. split; [done|]. apply access_ext; [done|]. intros x j Hx Hj.
  destruct step_subtables as [(Hp & _)|(_ & _ & Hsame)]; [|by apply Hsame].
  destruct (step_under i c Hi) as (_ & _ & ? & _); [|done]. unfold under. rewrite Hc. apply subtables_self.
Qed.

  Context (s2 : St).
  Hypothesis Hst : same_tree slots n c s1 s2.

Lemma step_entry j : 0 ≤ j < 512 → look s2.1 t j = look s1.1 t j.
Proof.
  intros Hj. pose proof step_t as [Ht Hp]. apply (ev_same _ _ _ (st_ev _ _ _ _ _ Hst)); [apply Hs|done|..].
  - rewrite tree_slots. intros [(-> & ? & _)|Hx]%step_in_subtables; [done|].
    by destruct (step_under i t Hi Hx) as (_ & _ & _ & ?).
  - intros Hp'. by apply Hp, (ev_pool _ _ _ Lev).
Qed.

Lemma step_entry_ne j : 0 ≤ j < 512 → j ≠ i → look s2.1 t j = look s.1 t j.
Proof.
  intros Hj Hne. rewrite step_entry by done. apply Lsame; [apply Hs| |done|naive_solver].
  intros Htc. destruct step_subtables as [(Hp & _ & _)|(Hc & _ & _)].
  - apply (proj2 step_t). by rewrite Htc.
  - destruct (step_under i c Hi) as (_ & _ & _ & ?); [|done]. unfold under. rewrite Hc. apply subtables_self.
Qed.

(** A table that is neither below the entry nor free keeps its entries. *)
Lemma step_frame x k : table_ok x → 0 ≤ k < 512 → x ≠ t → ¬ fa_pool s.2 x → x ∉ under (look s.1) n t i →
  look s2.1 x k = look s.1 x k.
Proof.
  intros Hx Hk Hne Hp Hu. rewrite (ev_same _ _ _ (st_ev _ _ _ _ _ Hst)); [|done|done|..].
  - apply (ev_same _ _ _ Lev); [done|done|by intros ->|done].
  - rewrite tree_slots. intros [(-> & ? & _)|?]%step_in_subtables; done.
  - intros Hp'. by apply Hp, (ev_pool _ _ _ Lev).
Qed.

Lemma step_other j d x k : j ∈ Sl → j ≠ i → child (look s.1) t j = Some d → x ∈ subtables (look s.1) n d →
  0 ≤ k < 512 → look s2.1 x k = look s.1 x k.
Proof.
  intros Hj Hne Hd Hx Hk. rewrite (subtables_child _ _ _ _ _ Hd) in Hx.
  destruct (step_under j x Hj Hx) as (_ & Hok & Hp & Hxt). apply step_frame; try done.
  intros Hx'. by eapply (step_disjoint j i).
Qed.

Lemma step_child j : j ∈ Sl → child (look s2.1) t j = if decide (j = i) then Some c else child (look s.1) t j.
Proof.
  intros Hj. pose proof (step_range j Hj). case_decide as Hd; [subst j|].
  - rewrite (child_ext (look s1.1)); [done|by apply step_entry].
  - apply child_ext. by apply step_entry_ne.
Qed.

Lemma step_under_ne j : j ∈ Sl → j ≠ i → under (look s2.1) n t j = under (look s.1) n t j.
Proof.
  intros Hj Hne. unfold under. rewrite step_child, decide_False by done.
  destruct (child (look s.1) t j) as [d|] eqn:Hd; [|done]. apply subtables_ext.
  intros x k. by apply (step_other j d).
Qed.

Lemma step_under_i x : x ∈ under (look s2.1) n t i →
  x ∈ under (look s.1) n t i ∨ (fa_pool s.2 x ∧ ¬ fa_pool s2.2 x).
Proof.
  unfold under at 1. rewrite step_child, decide_True by done. rewrite <-tree_slots. intros Hx.
  pose proof (ev_pool _ _ _ (st_ev _ _ _ _ _ Hst)) as Hp2. pose proof (ev_pool _ _ _ Lev) as Hp1.
  apply (st_sub _ _ _ _ _ Hst) in Hx as [Hx|[H1 H2]]; [|right; auto].
  rewrite tree_slots in Hx. apply step_in_subtables in Hx as [(-> & H1 & H2)|Hx]; [right; auto|by left].
Qed.

Lemma step_tree : NoDup (tree (look s2.1) Sl (S n) t) ∧
  ∀ x, x ∈ tree (look s2.1) Sl (S n) t → x ∈ tree (look s.1) Sl (S n) t ∨ (fa_pool s.2 x ∧ ¬ fa_pool s2.2 x).
Proof.
  pose proof (so_nodup _ _ _ _ Hs) as [Hnt Hnd]%NoDup_cons.
  destruct (NoDup_replace (under (look s.1) n t) (under (look s2.1) n t) Sl i
              (λ x, fa_pool s.2 x ∧ ¬ fa_pool s2.2 x)) as [H1 H2]; try done.
  - intros j Hj Hne. by apply step_under_ne.
  - unfold under. rewrite step_child, decide_True by done. rewrite <-tree_slots. apply Hst.
  - apply step_under_i.
  - intros x Hx [Hp _]. eapply (so_pool _ _ _ _ Hs); [|exact Hp]. by right.
  - split.
    + apply NoDup_cons. split; [|done]. intros [?|(_ & Hp & _)]%H2; [done|]. by apply (proj2 step_t).
    + intros x [-> | Hx]%elem_of_cons; [left; left|]. apply H2 in Hx as [Hx|[_ Hx]]; [left; by right|by right].
Qed.

Lemma step_evolves : evolves (λ x, x ∈ tree (look s.1) Sl (S n) t) s s2.
Proof.
  pose proof (st_ev _ _ _ _ _ Hst) as Hev2. split; [apply Hev2| | |].
  - rewrite (ev_tlb _ _ _ Hev2). apply Lev.
  - intros x Hx. by apply (ev_pool _ _ _ Lev), (ev_pool _ _ _ Hev2).
  - intros u j Hu Hj HW Hp. apply step_frame; try done; [intros ->; by apply HW, step_t|].
    intros Hx. apply HW. by apply (step_under i u Hi).
Qed.

Lemma step_walk v : indices_ok (S (S n)) v → first_in Sl v → access (look s2.1) (S n) v t = access (look s.1) (S n) v t.
Proof.
  destruct v as [|j v]; [done|]. intros [Hjr Hv]%indices_ok_cons Hj. rewrite !access_step. rewrite step_child by done.
  case_decide as Hd.
  2:{ rewrite step_entry_ne by done. destruct (child (look s.1) t j) as [d|] eqn:Hc; [|done].
      rewrite (access_ext (look s.1) (look s2.1)); [done|done|]. intros x k. by apply (step_other j d). }
  subst j. rewrite step_entry by done. rewrite (st_access _ _ _ _ _ Hst v Hv).
  2:{ destruct v; [by destruct Hv|]. apply indices_ok_cons in Hv as [? _]. by apply in_slots. }
  assert (has PRESENT (look s1.1 t i) && has HUGE (look s1.1 t i) = false) as ->.
  { destruct (child_Some _ _ _ _ Lc) as (-> & -> & _). done. }
  destruct (step_access v Hv) as [(Hp & ->)|(Hc & ->)].
  { rewrite Hp. cbn [andb]. unfold child. by rewrite Hp. }
  rewrite Hc. assert (has PRESENT (look s.1 t i) && has HUGE (look s.1 t i) = false) as ->.
  { destruct (child_Some _ _ _ _ Hc) as (-> & -> & _). done. }
  pose proof (id Lcase) as [(Hp & _)|(_ & _ & [-> | [_ ->]])]; [|done|].
  { destruct (child_Some _ _ _ _ Hc) as (Hp' & _). by rewrite Hp in Hp'. }
  destruct (access (look s.1) n v c) as [a|] eqn:Ha; [|done]. cbn. f_equal.
  destruct (upgrade_spec (look s.1 t i)) as (_ & _ & _ & _ & _ & _ & Hr); [apply look_range, Hs|]. apply Hr.
  destruct (has USER (look s.1 t i)) eqn:Hu; [by left|right].
  destruct (so_user _ _ _ _ Hs i c Hi Hc) as (_ & _ & Hno). by eapply Hno.
Qed.

Lemma step_links : open_link (look s1.1 t i) ∧
  ∀ v a, indices_ok (S n) v → has USER (look s1.1 t i) = false → access (look s1.1) n v c = Some a → a_user a = false.
Proof.
  pose proof (id Lcase) as [(Hp & _ & HL & _ & _ & Hz)|(Hc & _ & He)].
  { split; [done|]. intros v a Hv _. by rewrite access_zero. }
  destruct (so_user _ _ _ _ Hs i c Hi Hc) as (_ & HL & Hno).
  destruct (upgrade_spec (look s.1 t i)) as (_ & _ & HU & _ & _ & HL' & _); [apply look_range, Hs|].
  split; [destruct He as [-> | [_ ->]]; auto|]. intros v a Hv Hu Ha.
  destruct (step_access v Hv) as [(_ & Ha')|(_ & Ha')]; rewrite Ha' in Ha; [done|].
  eapply Hno; [|done|done]. destruct He as [He|[_ He]]; rewrite He in Hu; [done|by rewrite HU in Hu].
Qed.

Lemma step_user : user_in (look s2.1) Sl (S n) t.
Proof.
  intros j d Hj. rewrite step_child by done. pose proof (step_range j Hj) as Hjr. case_decide as Hd.
  2:{ intros Hc. rewrite step_entry_ne by done. destruct (so_user _ _ _ _ Hs j d Hj Hc) as (H1 & HL & H2).
      split; [eapply user_ok_ext; [|done]; intros x k; by apply (step_other j d)|]. split; [done|].
      intros Hu. eapply no_user_ext; [|by apply H2]. intros v Hv. apply access_ext; [done|]. intros x k. by apply (step_other j d). }
  subst j. intros [= <-]. split; [apply user_in_slots, Hst|]. rewrite step_entry by done.
  destruct step_links as [HL Hno]. split; [done|]. intros Hu v a Hv.
  rewrite (st_access _ _ _ _ _ Hst v Hv); [by apply Hno|].
  destruct v; [by destruct Hv|]. apply indices_ok_cons in Hv as [? _]. by apply in_slots.
Qed.

Lemma step_same_tree : same_tree Sl (S n) t s s2.
Proof.
  destruct step_tree as [H1 H2]. split; [apply step_evolves| |done|done|apply step_walk|apply step_user].
  intros j Hj Hjr. apply step_entry_ne; [done|]. by intros ->.
Qed.
End step.
End walk.
