(* ===== verification/PageMap.v ===== *)
(** * Writing one translation

    [descend]: the walk of [map] down to the last table.  [leaf_write]:
    what writing one entry of a last table changes, which is where the
    addresses of one page lead and nothing else.  Together they are [map]
    and [unmap]. *)

From S2P Require Import Prelude Words PhysMem Bytes Memory HalPaging PageTables PageWalk PageTree.
Local Open Scope Z_scope.

Section descend.
  Context {F : Type} `{FrameAllocatorLaws F}.
  Local Abbreviation St := (Mem * F)%type.

Lemma descend (T : PageTables) user n : ∀ Sl t idxs up s,
  Forall (λ i, 0 ≤ i < 512) Sl → NoDup Sl → sound Sl n t s → indices_ok n idxs → (n ≠ O → first_in Sl idxs) →
  ∃ r s', for_in idxs (Tables.map_level T user) (t, up) s = (r, s') ∧ same_tree Sl n t s s' ∧
    match r with
    | Ok (t', _) => path (look s'.1) t idxs = Some t' ∧ (user = true → path_user (look s'.1) t idxs)
    | Err e => e ∈ [OutOfFrames; TableFrameNotWritable; HugePageInTheWay]
    | _ => False
    end ∧
    (user = false → ∀ j, 0 ≤ j < 512 → has PRESENT (look s.1 t j) = true → look s'.1 t j = look s.1 t j).
Proof.
  induction n as [|n IH]; intros Sl t idxs up s HSl HNd Hs Hix Hf.
  { destruct idxs as [|i idxs]; [|by destruct Hix]. eexists _, _. split; [reflexivity|].
    split; [|by split]. apply same_tree_idle; [done|done|]. apply evolves_refl, Hs. }
  destruct idxs as [|i idxs]; [by destruct Hix|]. apply indices_ok_cons in Hix as [Hi Hix].
  specialize (Hf ltac:(done)). cbn [first_in] in Hf.
  assert (¬ fa_pool s.2 t) as Hp by (eapply so_pool; [exact Hs|left]).
  destruct (level_spec T user up s t i (so_good _ _ _ _ Hs) (so_table _ _ _ _ Hs) Hp Hi) as (r & s1 & E & Hr).
  cbn [for_in]. rewrite dev_bind_run, E.
  destruct r as [[c up1]|e| |]; [|destruct Hr as [Hev He]; eexists _, _; split; [reflexivity|];
    split; [by apply same_tree_idle|split; [done|]]|done|done].
  2:{ intros _ j Hj _. apply (ev_same _ _ _ Hev); [apply Hs|done|by intros []|done]. }
  destruct Hr as (Lev & Lc & Lu & Lsame & Lcase).
  pose proof (step_child_sound Sl n t i c user s s1 HSl HNd Hf Hs Lev Lc Lsame Lcase) as Hsc.
  assert (Forall (λ i, 0 ≤ i < 512) slots) as Hslots by (apply Forall_forall; intros j; apply in_slots).
  destruct (IH slots c idxs up1 s1 Hslots NoDup_slots Hsc Hix) as (r & s2 & E2 & Hst & Hr & _).
  { intros Hn. destruct idxs; [by destruct Hix; destruct n|].
    destruct n; [done|]. apply indices_ok_cons in Hix as [? _]. by apply in_slots. }
  exists r, s2. split; [exact E2|].
  split; [by apply (step_same_tree Sl n t i c user s s1 HSl HNd Hf Hs Lev Lc Lsame Lcase)|].
  split.
  2:{ intros -> j Hj Hjp. destruct (decide (j = i)) as [-> | Hne];
        [|by rewrite (step_entry_ne Sl n t i c false s s1 HSl HNd Hf Hs Lev Lc Lsame Lcase s2 Hst j)].
      rewrite (step_entry Sl n t i c false s s1 HSl HNd Hf Hs Lev Lc Lsame Lcase s2 Hst i Hi).
      destruct Lcase as [(Hnp & _)|(_ & _ & [He|[? _]])]; [by rewrite Hjp in Hnp|done|done]. }
  destruct r as [[t' up']|e| |]; try done. destruct Hr as [Hpath Huser]. cbn [path path_user].
  rewrite (step_child Sl n t i c user s s1 HSl HNd Hf Hs Lev Lc Lsame Lcase s2 Hst i Hf).
  rewrite decide_True by done. split; [done|]. intros Hu. split; [|by apply Huser].
  rewrite (step_entry Sl n t i c user s s1 HSl HNd Hf Hs Lev Lc Lsame Lcase s2 Hst i Hi). by apply Lu.
Qed.
End descend.

(** ** Writing a last entry *)
Section leaf.
  Context (rd rd' : reading) (t' i v : Z).
  Hypothesis Hw : ∀ u j, table_ok u → 0 ≤ j < 512 → rd' u j = if decide (u = t' ∧ j = i) then v else rd u j.
  Hypothesis Hi : 0 ≤ i < 512.

(** What a page allows once every table above it has had its say. *)
Fixpoint through (t : Z) (idxs : list Z) (a : Access) : Access :=
  match idxs with
  | [] => a
  | j :: idxs => match child rd t j with Some c => restrict (rd t j) (through c idxs a) | None => a end
  end.

Lemma leaf_path_in n Sl t idxs : path rd t idxs = Some t' → indices_ok n idxs → (n ≠ O → first_in Sl idxs) →
  t' ∈ tree rd Sl n t.
Proof.
  revert Sl t idxs; induction n as [|n IH]; intros Sl t idxs Hp Hix Hf.
  { destruct idxs; [|by destruct Hix]. injection Hp as Heq. rewrite <-Heq. left. }
  destruct idxs as [|j idxs]; [by destruct Hix|]. apply indices_ok_cons in Hix as [Hj Hix].
  cbn [path] in Hp. destruct (child rd t j) as [c|] eqn:Hc; [|done].
  eapply (in_under _ _ _ j); [|by apply Hf]. rewrite <-(subtables_child _ _ _ _ _ Hc), <-tree_slots.
  apply (IH slots c idxs); [done|done|]. intros Hn. destruct n; [done|]. destruct idxs as [|k idxs]; [by destruct Hix|].
  apply indices_ok_cons in Hix as [? _]. by apply in_slots.
Qed.

Lemma leaf_others n t : t' ∉ subtables rd n t → table_ok t →
  ∀ x k, x ∈ subtables rd n t → 0 ≤ k < 512 → rd' x k = rd x k.
Proof.
  intros Ht Hok x k Hx Hk. rewrite Hw; [|..|done].
  - rewrite decide_False; [done|]. intros [-> _]. done.
  - destruct n as [|n]; [by apply list_elem_of_singleton in Hx as ->|]. rewrite <-tree_slots, in_tree in Hx.
    destruct Hx as [-> | (m & _ & Hx)]; [done|]. by eapply tables_ok_under.
Qed.

Record leaf_written (Sl : list Z) (n : nat) (t : Z) (idxs : list Z) : Prop := {
  lw_tree : tree rd' Sl n t = tree rd Sl n t;
  lw_other w : indices_ok (S n) w → first_in Sl w → w ≠ idxs ++ [i] → access rd' n w t = access rd n w t;
  lw_this : access rd' n (idxs ++ [i]) t =
    if has PRESENT v then Some (through t idxs (last_access 0 v)) else None;
  lw_user : user_in rd' Sl n t
}.

Lemma through_user t idxs a : a_user a = false → a_user (through t idxs a) = false.
Proof.
  revert t; induction idxs as [|j idxs IH]; intros t Ha; [done|]. cbn [through].
  destruct (child rd t j); [|done]. cbn. rewrite IH by done. by rewrite andb_false_r.
Qed.

Lemma first_in_slots n w : indices_ok (S n) w → first_in slots w.
Proof. destruct w as [|k w]; [by intros [? _]|]. intros [Hk _]%indices_ok_cons. by apply in_slots. Qed.

(** One level up: entry [j] of [t] leads to [c]. *)
Section up.
  #[local] Set Default Proof Using "All".
  Context (n : nat) (Sl : list Z) (t j c : Z) (idxs : list Z).
  Hypothesis Ht : table_ok t.
  Hypothesis HNd : NoDup Sl.
  Hypothesis HSl : Forall (λ i, 0 ≤ i < 512) Sl.
  Hypothesis Hnd : NoDup (tree rd Sl (S n) t).
  Hypothesis Hj : j ∈ Sl.
  Hypothesis Hc : child rd t j = Some c.
  Hypothesis Hin : t' ∈ subtables rd n c.
  Hypothesis Hu : user_in rd Sl (S n) t.
  Hypothesis Hix : indices_ok n idxs.
  Hypothesis Hvu : has PRESENT v = true → has USER v = true → has USER (rd t j) = true.
  Hypothesis IH : leaf_written slots n c idxs.

Lemma up_root k : 0 ≤ k < 512 → rd' t k = rd t k.
Proof.
  intros Hk. rewrite Hw by done. rewrite decide_False; [done|]. intros [Htt _].
  pose proof Hnd as [Hn _]%NoDup_cons. apply Hn, elem_of_concat. exists (under rd n t j).
  split; [by apply list_elem_of_fmap_2|]. rewrite <-(subtables_child _ _ _ _ _ Hc), Htt. done.
Qed.

Lemma up_range k : k ∈ Sl → 0 ≤ k < 512.
Proof. intros Hk. pose proof HSl as HSl'. rewrite Forall_forall in HSl'. by apply HSl'. Qed.

Lemma up_child k : k ∈ Sl → child rd' t k = child rd t k.
Proof. intros Hk. apply child_ext, up_root. by apply up_range. Qed.

Lemma up_other k d : k ∈ Sl → k ≠ j → child rd t k = Some d →
  ∀ x m, x ∈ subtables rd n d → 0 ≤ m < 512 → rd' x m = rd x m.
Proof.
  intros Hk Hne Hd. apply leaf_others; [|by eapply child_ok].
  pose proof Hnd as [_ Hn]%NoDup_cons. apply NoDup_concat_fmap in Hn as [_ Hn]; [|done].
  rewrite (subtables_child _ _ _ _ _ Hd). apply (Hn j k t'); [done|done|done|].
  by rewrite <-(subtables_child _ _ _ _ _ Hc).
Qed.

Lemma up_tree : tree rd' Sl (S n) t = tree rd Sl (S n) t.
Proof.
  unfold tree. do 2 f_equal. apply list_fmap_ext. intros m k Hk%list_elem_of_lookup_2. unfold under.
  rewrite up_child by done. destruct (child rd t k) as [d|] eqn:Hd; [|done].
  destruct (decide (k = j)) as [Hkj | Hne]; [|by apply subtables_ext, (up_other k d)].
  rewrite Hkj in Hd. rewrite Hc in Hd. injection Hd as <-. rewrite <-!tree_slots. apply IH.
Qed.

Lemma up_access_other w : indices_ok (S (S n)) w → first_in Sl w → w ≠ (j :: idxs) ++ [i] →
  access rd' (S n) w t = access rd (S n) w t.
Proof.
  destruct w as [|k w]; [done|]. intros [Hk Hwi]%indices_ok_cons Hks Hne. rewrite !access_step, up_root by done.
  rewrite up_child by done. destruct (child rd t k) as [d|] eqn:Hd; [|done].
  destruct (decide (k = j)) as [Hkj | Hkne].
  - rewrite Hkj in *. rewrite Hc in Hd. injection Hd as <-.
    rewrite (lw_other _ _ _ _ IH w Hwi); [done|by eapply first_in_slots|]. intros ->. by apply Hne.
  - rewrite (access_ext rd rd'); [done|done|]. by apply (up_other k d).
Qed.

Lemma up_access_this : access rd' (S n) ((j :: idxs) ++ [i]) t =
  if has PRESENT v then Some (through t (j :: idxs) (last_access 0 v)) else None.
Proof.
  cbn [app]. rewrite access_step. pose proof (up_range j Hj). rewrite up_root, up_child, Hc by done.
  destruct (child_Some _ _ _ _ Hc) as (-> & -> & _). cbn [andb]. rewrite (lw_this _ _ _ _ IH).
  cbn [through]. rewrite Hc. by destruct (has PRESENT v).
Qed.

Lemma up_user : user_in rd' Sl (S n) t.
Proof.
  intros k d Hk. rewrite up_child by done. intros Hd. rewrite up_root by (by apply up_range).
  destruct (Hu k d Hk Hd) as (H1 & HL & H2). destruct (decide (k = j)) as [Hkj | Hne].
  2:{ pose proof (up_other k d Hk Hne Hd). split; [by eapply user_ok_ext|]. split; [done|].
      intros Hn. eapply no_user_ext; [|by apply H2]. intros w Hwi. by apply access_ext. }
  rewrite Hkj in *. rewrite Hc in Hd. injection Hd as <-. split; [apply user_in_slots, IH|]. split; [done|].
  intros Hn w a Hwi Ha. destruct (decide (w = idxs ++ [i])) as [-> | Hne].
  - rewrite (lw_this _ _ _ _ IH) in Ha. destruct (has PRESENT v) eqn:Hp; [|done]. injection Ha as <-.
    apply through_user. cbn. destruct (has USER v) eqn:HU; [|done]. by rewrite Hvu in Hn.
  - rewrite (lw_other _ _ _ _ IH w Hwi) in Ha; [by eapply H2|by eapply first_in_slots|done].
Qed.
End up.

Lemma leaf_write n : ∀ Sl t idxs, table_ok t → NoDup Sl → Forall (λ i, 0 ≤ i < 512) Sl → NoDup (tree rd Sl n t) →
  indices_ok n idxs → first_in Sl (idxs ++ [i]) → path rd t idxs = Some t' → user_in rd Sl n t →
  (has PRESENT v = true → has USER v = true → path_user rd t idxs) →
  leaf_written Sl n t idxs.
Proof.
  induction n as [|n IH]; intros Sl t idxs Ht HNd HSl Hnd Hix Hf Hp Hu Hvu.
  { destruct idxs; [|by destruct Hix]. injection Hp as <-. split; [done| | |done].
    - intros [|j w] Hwi Hj Hne; [done|]. apply indices_ok_cons in Hwi as [Hjr [Hl _]]. cbn [access].
      rewrite Hw by done. rewrite decide_False; [done|]. intros [_ ->]. apply Hne. by destruct w.
    - cbn [app access]. rewrite Hw, decide_True by done. by destruct (has PRESENT v). }
  destruct idxs as [|j idxs]; [by destruct Hix|]. apply indices_ok_cons in Hix as [Hj Hix].
  cbn [path] in Hp. destruct (child rd t j) as [c|] eqn:Hc; [|done]. cbn [first_in app] in Hf.
  destruct (Hu j c Hf Hc) as (Huc & _ & _).
  assert (Forall (λ i, 0 ≤ i < 512) slots) as Hsl by (apply Forall_forall; intros k; apply in_slots).
  assert (first_in slots (idxs ++ [i])) as Hfs.
  { apply (first_in_slots n). split; [rewrite length_app; cbn [length]; destruct Hix; lia|].
    apply Forall_app. split; [apply Hix|]. by constructor. }
  assert (leaf_written slots n c idxs) as Hlw.
  { apply IH; try done; [by eapply child_ok|exact NoDup_slots| |by apply user_in_slots|].
    - rewrite tree_slots, (subtables_child _ _ _ _ _ Hc). pose proof Hnd as [_ Hn]%NoDup_cons.
      apply NoDup_concat_fmap in Hn as [Hn _]; [|done]. by apply Hn.
    - intros HP HU. destruct (Hvu HP HU) as [_ Hpu]. by rewrite Hc in Hpu. }
  assert (t' ∈ subtables rd n c) as Hin.
  { rewrite <-tree_slots. apply (leaf_path_in n slots c idxs Hp Hix). intros Hn. destruct n; [done|].
    by eapply first_in_slots. }
  assert (has PRESENT v = true → has USER v = true → has USER (rd t j) = true) as Hvj by (intros HP HU; by destruct (Hvu HP HU)).
  split.
  - by apply (up_tree n Sl t j c idxs).
  - by apply (up_access_other n Sl t j c idxs).
  - by apply (up_access_this n Sl t j c idxs).
  - by apply (up_user n Sl t j c idxs).
Qed.
End leaf.

(** ** Reading along a path *)
Lemma access_path rd n : ∀ t idxs t' i, indices_ok n idxs → path rd t idxs = Some t' →
  access rd n (idxs ++ [i]) t = through rd t idxs <$> access rd 0 [i] t'.
Proof.
  induction n as [|n IH]; intros t idxs t' i Hix Hp.
  - destruct idxs; [|by destruct Hix]. injection Hp as <-. cbn [app through]. by destruct (access rd 0 [i] t).
  - destruct idxs as [|j idxs]; [by destruct Hix|]. apply indices_ok_cons in Hix as [Hj Hix].
    cbn [path] in Hp. destruct (child rd t j) as [c|] eqn:Hc; [|done]. cbn [app]. rewrite access_step, Hc.
    destruct (child_Some _ _ _ _ Hc) as (-> & -> & _). cbn [andb]. rewrite (IH c idxs t') by done.
    cbn [through]. rewrite Hc. by destruct (access rd 0 [i] t').
Qed.

(** Where the tables above restrict nothing, the page's own rights are what
    it allows. *)
Lemma through_open rd n : ∀ Sl t idxs t' a, user_in rd Sl n t → indices_ok n idxs → (n ≠ O → first_in Sl idxs) →
  path rd t idxs = Some t' → (a_user a = true → path_user rd t idxs) → through rd t idxs a = a.
Proof.
  induction n as [|n IH]; intros Sl t idxs t' a Hu Hix Hf Hp Ha.
  { destruct idxs; [done|by destruct Hix]. }
  destruct idxs as [|j idxs]; [by destruct Hix|]. apply indices_ok_cons in Hix as [Hj Hix].
  cbn [path through path_user] in *. destruct (child rd t j) as [c|] eqn:Hc; [|done].
  destruct (Hu j c (Hf ltac:(done)) Hc) as (Huc & [HW HX] & _). rewrite (IH slots c idxs t'); [|by apply user_in_slots|done| |done|].
  - unfold restrict. rewrite HW, HX. destruct a as [ab asz aw au ae]; cbn in *. f_equal.
    destruct au; [|by rewrite andb_false_r]. by rewrite (proj1 (Ha eq_refl)).
  - intros Hn. destruct n; [done|]. by eapply first_in_slots.
  - intros H. by apply Ha.
Qed.

(** ** The entry [map] writes *)
Lemma leaf_of_spec frame flags : table_ok (frame_start frame) →
  has PRESENT (Tables.leaf_of frame flags) = true ∧ has USER (Tables.leaf_of frame flags) = f_user flags ∧
  in_width 64 (Tables.leaf_of frame flags) ∧
  last_access 0 (Tables.leaf_of frame flags) =
    {| a_base := frame_start frame; a_size := 4096; a_writable := f_writable flags; a_user := f_user flags;
       a_execute := f_executable flags |}.
Proof.
  intros Hf. unfold last_access.
  assert (Z.land (frame_start frame) (not_w 64 (size_of 0 - 1)) = frame_start frame) as Hsz.
  { apply Z.bits_inj'. intros k Hk. rewrite Z.land_spec. destruct (Z.testbit (frame_start frame) k) eqn:Hb; [|done].
    apply (table_bits _ _ Hf) in Hb. unfold size_of. change (2 ^ (12 + 9 * Z.of_nat 0) - 1) with (Z.ones 12).
    rewrite testbit_not_w; [|split; done|lia]. rewrite Z.ones_spec_high by lia. done. }
  assert (in_width 64 (frame_start frame)) as Hw by (destruct Hf as [? _]; split; lia).
  unfold Tables.leaf_of. destruct flags as [w x u c]. cbn [f_writable f_executable f_user f_cache].
  destruct w, x, u, c; cbn [negb cache_bits];
    rewrite !has_lor, !(has_table _ (frame_start frame)) by done;
    rewrite !mask_lor_flag, land_mask_table, Hsz by done;
    (split; [reflexivity|]); (split; [reflexivity|]); (split; [|reflexivity]);
    repeat apply lor_in_width; try done.
Qed.
