(* ===== verification/PageMapThms.v ===== *)
(** * Mapping and unmapping: what the page tables promise

    [resolve] is the processor's walk from a root.  [page_map_exact] and
    [page_unmap_exact] say what [map] and [unmap] do to every address, on
    every branch. *)

From S2P Require Import Prelude Words PhysMem Bytes Memory HalPaging PageTables PageWalk PageTree PageMap.
Local Open Scope Z_scope.

(** ** Addresses and indices *)
Definition va_ok (va : Z) : Prop := in_width 64 va ∧ is_canonical va = true.

#[export] Instance va_ok_dec va : Decision (va_ok va).
Proof. unfold va_ok. apply _. Defined.

Definition half (va : Z) : list Z := if va <? KERNEL_SPACE_BASE then Tables.lower_slots else Tables.kernel_slots.

Lemma index_div va s : 0 ≤ s → Z.land (Z.shiftr va s) 0x1FF = (va / 2 ^ s) mod 512.
Proof. intros Hs. change 0x1FF with (Z.ones 9). rewrite Z.land_ones, Z.shiftr_div_pow2 by done. done. Qed.

Lemma table_indices_div va :
  table_indices va = [(va / 2 ^ 39) mod 512; (va / 2 ^ 30) mod 512; (va / 2 ^ 21) mod 512; (va / 2 ^ 12) mod 512].
Proof. unfold table_indices. cbn [fmap list_fmap]. by rewrite !index_div. Qed.

Lemma table_indices_ok va : indices_ok 4 (table_indices va).
Proof.
  rewrite table_indices_div. split; [done|]. repeat constructor; by apply Z.mod_pos_bound.
Qed.

(** The page number, out of the four indices. *)
Lemma page_number va : 0 ≤ va →
  va / 2 ^ 12 = ((((va / 2 ^ 39) * 512 + (va / 2 ^ 30) mod 512) * 512 + (va / 2 ^ 21) mod 512) * 512 + (va / 2 ^ 12) mod 512).
Proof.
  intros Hva.
  replace (2 ^ 39) with (2 ^ 30 * 512) by done. replace (2 ^ 30) with (2 ^ 21 * 512) by done.
  replace (2 ^ 21) with (2 ^ 12 * 512) by done. rewrite <-!Z.div_div by done. set (q := va / 2 ^ 12).
  pose proof (Z.div_mod q 512). pose proof (Z.div_mod (q / 512) 512). pose proof (Z.div_mod (q / 512 / 512) 512). lia.
Qed.

Lemma canonical_cases va : va_ok va → (0 ≤ va < 2 ^ 47) ∨ (KERNEL_SPACE_BASE ≤ va < 2 ^ 64).
Proof.
  intros [[H0 H1] Hc]. unfold is_canonical in Hc. rewrite Z.shiftr_div_pow2 in Hc by done.
  pose proof (Z.div_mod va (2 ^ 47)) as Hd. pose proof (Z.mod_pos_bound va (2 ^ 47)) as Hm.
  apply orb_true_iff in Hc as [Hc%Z.eqb_eq|Hc%Z.eqb_eq]; rewrite Hc in Hd; unfold KERNEL_SPACE_BASE; lia.
Qed.

(** The first index says which half, and how far into it. *)
Lemma first_index va : va_ok va →
  (va / 2 ^ 39) mod 512 = if va <? KERNEL_SPACE_BASE then va / 2 ^ 39 else va / 2 ^ 39 - 0x1FFFE00.
Proof.
  intros Hv. pose proof (Z.div_mod va (2 ^ 39)) as Hd. pose proof (Z.mod_pos_bound va (2 ^ 39)) as Hm.
  destruct (canonical_cases va Hv) as [Hl|Hl]; destruct (Z.ltb_spec va KERNEL_SPACE_BASE) as [Hk|Hk];
    unfold KERNEL_SPACE_BASE in *; try lia.
  - apply Z.mod_small. lia.
  - symmetry. apply (Z.mod_unique_pos _ _ 0xFFFF); lia.
Qed.

Lemma first_in_half va : va_ok va → first_in (half va) (table_indices va).
Proof.
  intros Hv. rewrite table_indices_div. cbn [first_in]. rewrite first_index by done. unfold half.
  pose proof (Z.div_mod va (2 ^ 39)) as Hd. pose proof (Z.mod_pos_bound va (2 ^ 39)) as Hm.
  destruct (canonical_cases va Hv) as [Hl|Hl]; destruct (Z.ltb_spec va KERNEL_SPACE_BASE) as [Hk|Hk];
    unfold KERNEL_SPACE_BASE, Tables.lower_slots, Tables.kernel_slots in *; try lia; rewrite in_seqZ; lia.
Qed.

(** Addresses of one half with the same indices are in the same page. *)
Lemma same_indices va va' : va_ok va → va_ok va' → half va = half va' →
  table_indices va = table_indices va' ↔ va / 4096 = va' / 4096.
Proof.
  intros Hv Hv' Hh. change 4096 with (2 ^ 12).
  assert (0 ≤ va) by apply Hv. assert (0 ≤ va') by apply Hv'. split; intros E.
  - rewrite !table_indices_div in E. injection E as E0 E1 E2 E3. rewrite !first_index in E0 by done.
    rewrite (page_number va), (page_number va') by done. rewrite E1, E2, E3.
    assert (va / 2 ^ 39 = va' / 2 ^ 39); [|congruence]. unfold half in Hh.
    destruct (va <? KERNEL_SPACE_BASE), (va' <? KERNEL_SPACE_BASE); try done; lia.
  - rewrite !table_indices_div.
    assert (∀ n, 0 ≤ n → va / 2 ^ (12 + n) = va' / 2 ^ (12 + n)) as Hn.
    { intros n Hn. rewrite !Z.pow_add_r by done. rewrite <-!Z.div_div by lia. by rewrite E. }
    assert (va / 2 ^ 39 = va' / 2 ^ 39) as -> by (by apply (Hn 27)).
    assert (va / 2 ^ 30 = va' / 2 ^ 30) as -> by (by apply (Hn 18)).
    assert (va / 2 ^ 21 = va' / 2 ^ 21) as -> by (by apply (Hn 9)). by rewrite E.
Qed.

Lemma half_range va : Forall (λ i, 0 ≤ i < 512) (half va).
Proof.
  apply Forall_forall. unfold half, Tables.lower_slots, Tables.kernel_slots. intros i.
  case_match; rewrite in_seqZ; lia.
Qed.

Lemma half_NoDup va : NoDup (half va).
Proof. unfold half. case_match; apply NoDup_seqZ. Qed.

(** ** Resolving an address *)
Definition resolve (root : Z) (m : Mem) (va : Z) : option Access :=
  if is_canonical va then access (look m) 3 (table_indices va) root else None.

Definition translation_of (va : Z) (a : Access) : Translation :=
  {| phys := a_base a + Z.land va (a_size a - 1); t_writable := a_writable a; page_size := a_size a |}.

Lemma translate_from_access m va n : ∀ v t w, length v = S n → (n ≤ 3)%nat →
  Tables.translate_from m va (3 - Z.of_nat n) v t w =
    (λ a, let tr := translation_of va a in
          {| phys := phys tr; t_writable := w && t_writable tr; page_size := page_size tr |}) <$> access (look m) n v t.
Proof.
  induction n as [|n IH]; intros v t w Hv Hn; destruct v as [|i v]; try done.
  - cbn [Tables.translate_from access]. destruct (has PRESENT (look m t i)); [|done]. cbn [negb orb andb].
    change (3 - Z.of_nat 0 =? 0) with false. change (3 - Z.of_nat 0 =? 3) with true. cbn [andb orb].
    change (39 - 9 * (3 - Z.of_nat 0)) with 12. cbn. done.
  - rewrite access_step. cbn [Tables.translate_from]. unfold child.
    destruct (has PRESENT (look m t i)); [|done]. cbn [negb orb andb].
    destruct (Z.eqb_spec (3 - Z.of_nat (S n)) 3); [lia|]. cbn [orb].
    destruct (has HUGE (look m t i)); cbn [andb negb].
    + destruct (Z.eqb_spec (3 - Z.of_nat (S n)) 0), (Nat.eqb_spec (S n) 3); try lia; [done|]. cbn [fmap option_fmap option_map].
      f_equal. unfold translation_of, last_access. cbn [a_base a_size a_writable phys t_writable page_size].
      unfold size_of. rewrite Z.shiftl_mul_pow2 by lia. rewrite Z.mul_1_l.
      replace (39 - 9 * (3 - Z.of_nat (S n))) with (12 + 9 * Z.of_nat (S n)) by lia. done.
    + replace ((3 - Z.of_nat (S n) =? 0) && false) with false by (by rewrite andb_false_r).
      replace (3 - Z.of_nat (S n) + 1) with (3 - Z.of_nat n) by lia. rewrite IH by (cbn [length] in Hv; lia).
      destruct (access (look m) n v _) as [a|]; [|done]. cbn. by rewrite andb_assoc.
Qed.

(** The code's [translate] is the processor's walk. *)
Lemma translate_resolve t m va : Tables.translate t m va = translation_of va <$> resolve (root t) m va.
Proof.
  unfold Tables.translate, resolve. destruct (is_canonical va); [|done]. cbn [negb].
  change 0 with (3 - Z.of_nat 3) at 1. rewrite translate_from_access; [|by destruct (table_indices_ok va)|done].
  by destruct (access _ _ _ _).
Qed.

(** What the processor may have cached is what the tables say, over the
    half of [page]. *)
Definition cached_of (va : Z) (a : Access) : Leaf :=
  {| l_frame := a_base a + Z.land (va / 4096 * 4096) (a_size a - 1); l_writable := a_writable a; l_user := a_user a;
     l_execute := a_execute a |}.

Definition coherent (root page : Z) (m : Mem) : Prop :=
  ∀ va l, va_ok va → half va = half page → tlb m !! (va / 4096) = Some l →
    ∃ a, resolve root m va = Some a ∧ cached_of va a = l.

Lemma coherent_same root page m m' (P : Z → Prop) :
  (∀ vp l, tlb m' !! vp = Some l → tlb m !! vp = Some l ∧ P vp) →
  (∀ va, va_ok va → half va = half page → P (va / 4096) → resolve root m' va = resolve root m va) →
  coherent root page m → coherent root page m'.
Proof.
  intros Ht Hr Hc va l Hv Hh Hl. destruct (Ht _ _ Hl) as [Hl' HP]. rewrite Hr by done. by apply Hc.
Qed.

Lemma take_last {A} (l : list A) (n : nat) : length l = S n → ∃ x, l = take n l ++ [x] ∧ l !! n = Some x.
Proof.
  intros Hl. destruct (lookup_lt_is_Some_2 l n) as [x Hx]; [lia|]. exists x. split; [|done].
  rewrite <-(take_drop n l) at 1. f_equal. rewrite (drop_S l x n Hx). by rewrite drop_ge by lia.
Qed.

(** The four indices of a page: three tables and an entry. *)
Lemma indices_split va : ∃ idxs i, table_indices va = idxs ++ [i] ∧ take 3 (table_indices va) = idxs ∧
  index (table_indices va) 3 = Some i ∧ indices_ok 3 idxs ∧ 0 ≤ i < 512.
Proof.
  rewrite table_indices_div. eexists [_; _; _], _. split; [reflexivity|]. split; [reflexivity|]. split; [reflexivity|].
  split; [split; [done|]; repeat constructor; by apply Z.mod_pos_bound|by apply Z.mod_pos_bound].
Qed.

Section map.
  Context {F : Type} `{FrameAllocatorLaws F}.
  Local Abbreviation St := (Mem * F)%type.
  Context (T : PageTables).

(** The half of [page] is a tree of the kernel's own tables. *)
Definition space_ok (page : Z) (s : St) : Prop := sound (half page) 3 (root T) s.

(** An entry of some table that is neither in that tree nor free. *)
Definition elsewhere (page : Z) (s : St) (u j : Z) : Prop :=
  table_ok u ∧ 0 ≤ j < 512 ∧ ¬ fa_pool s.2 u ∧
  (u ∉ tree (look s.1) (half page) 3 (root T) ∨ u = root T ∧ j ∉ half page).

Lemma same_tree_resolve page s s' va : same_tree (half page) 3 (root T) s s' → va_ok va → half va = half page →
  resolve (root T) s'.1 va = resolve (root T) s.1 va.
Proof.
  intros Hst Hv Hh. unfold resolve. destruct (is_canonical va); [|done].
  apply (st_access _ _ _ _ _ Hst); [apply table_indices_ok|]. rewrite <-Hh. by apply first_in_half.
Qed.

Lemma same_tree_elsewhere page s s' u j : same_tree (half page) 3 (root T) s s' → elsewhere page s u j →
  look s'.1 u j = look s.1 u j.
Proof.
  intros Hst (Hu & Hj & Hp & [Hn|[-> Hn]]); [by apply (ev_same _ _ _ (st_ev _ _ _ _ _ Hst))|].
  by apply (st_root _ _ _ _ _ Hst).
Qed.

Lemma same_tree_coherent page s s' : same_tree (half page) 3 (root T) s s' →
  coherent (root T) page s.1 → coherent (root T) page s'.1.
Proof.
  intros Hst. apply (coherent_same _ _ _ _ (λ _, True)).
  - rewrite (ev_tlb _ _ _ (st_ev _ _ _ _ _ Hst)). auto.
  - intros va Hv Hh _. by apply (same_tree_resolve page).
Qed.

(** The last table of a walk is not the root. *)
Lemma entry_not_root page s idxs i t' : va_ok page → space_ok page s → table_indices page = idxs ++ [i] →
  indices_ok 3 idxs → path (look s.1) (root T) idxs = Some t' → t' ≠ root T.
Proof.
  intros Hv Hs Hidx Hix Hp Heq. pose proof (so_nodup _ _ _ _ Hs) as [Hnt _]%NoDup_cons.
  pose proof (first_in_half page Hv) as Hef. rewrite Hidx in Hef. destruct idxs as [|k idxs']; [by destruct Hix|].
  apply indices_ok_cons in Hix as [Hk Hix']. cbn [path] in Hp.
  destruct (child (look s.1) (root T) k) as [c|] eqn:Hc; [|done].
  apply Hnt, elem_of_concat. exists (under (look s.1) 2 (root T) k). split; [by apply list_elem_of_fmap_2|].
  unfold under. rewrite Hc, <-Heq, <-tree_slots. apply (leaf_path_in _ t' 2 slots c idxs' Hp Hix').
  intros _. by eapply first_in_slots.
Qed.

(** What [map] and [unmap] keep, whatever they answer. *)
Record keeps (page : Z) (user : bool) (s s' : St) : Prop := {
  k_ok : space_ok page s';
  k_elsewhere u j : elsewhere page s u j → look s'.1 u j = look s.1 u j;
  k_coherent : coherent (root T) page s.1 → coherent (root T) page s'.1;
  k_pool x : fa_pool s'.2 x → fa_pool s.2 x;
  k_grow x : x ∈ tree (look s'.1) (half page) 3 (root T) → x ∈ tree (look s.1) (half page) 3 (root T) ∨ fa_pool s.2 x;
  k_root j : user = false → 0 ≤ j < 512 → has PRESENT (look s.1 (root T) j) = true →
    look s'.1 (root T) j = look s.1 (root T) j
}.

Lemma keeps_refl page user s : space_ok page s → keeps page user s s.
Proof. split; auto. Qed.

(** Writing the last entry of [page]'s walk. *)
Section entry.
  Context (page : Z) (s : St) (idxs : list Z) (i t' v : Z).
  Hypothesis Hv : va_ok page.
  Hypothesis Hs : space_ok page s.
  Hypothesis Hidx : table_indices page = idxs ++ [i].
  Hypothesis Hix : indices_ok 3 idxs.
  Hypothesis Hi : 0 ≤ i < 512.
  Hypothesis Hp : path (look s.1) (root T) idxs = Some t'.
  Hypothesis Hw : in_width 64 v.
  Hypothesis Hvu : has PRESENT v = true → has USER v = true → path_user (look s.1) (root T) idxs.
Let m' := write_entry s.1 t' i v.

Lemma entry_first : first_in (half page) (idxs ++ [i]).
Proof. rewrite <-Hidx. by apply first_in_half. Qed.

Lemma entry_in : t' ∈ tree (look s.1) (half page) 3 (root T).
Proof.
  apply (leaf_path_in _ t' 3 (half page) (root T) idxs Hp Hix). intros _. pose proof entry_first.
  destruct idxs; [by destruct Hix|done].
Qed.

Lemma entry_table : table_ok t'.
Proof. pose proof entry_in as [-> | (k & _ & Hk)]%in_tree; [apply Hs|by eapply tables_ok_under]. Qed.

Lemma entry_look u j : table_ok u → 0 ≤ j < 512 →
  look m' u j = if decide (u = t' ∧ j = i) then v else look s.1 u j.
Proof.
  intros Hu Hj. unfold m'. rewrite look_write by (done || apply entry_table).
  repeat case_decide; naive_solver.
Qed.

Lemma entry_written : leaf_written (look s.1) (look m') i v (half page) 3 (root T) idxs.
Proof.
  apply (leaf_write (look s.1) (look m') t' i v entry_look Hi); try done; try apply Hs;
    [apply half_NoDup|apply half_range|apply entry_first].
Qed.

Lemma entry_sound (m2 : Mem) : ram m2 = ram m' → space_ok page (m2, s.2).
Proof.
  intros Hm2. assert (look m2 = look m') as Hl by (unfold read_entry, Ram.read64, Ram.bytes, Ram.byte; by rewrite Hm2).
  destruct entry_written as [Htree _ _ Hu]. split; cbn [fst snd].
  - split; [apply Hs|]. unfold Ram.wf. cbn [fst]. rewrite Hm2. apply Ram.write64_wf, Hs.
  - apply Hs.
  - rewrite Hl, Htree. apply Hs.
  - intros x. rewrite Hl, Htree. apply Hs.
  - by rewrite Hl.
Qed.

Lemma entry_other va : va_ok va → half va = half page → va / 4096 ≠ page / 4096 →
  resolve (root T) m' va = resolve (root T) s.1 va.
Proof.
  intros Hva Hh Hne. unfold resolve. destruct (is_canonical va); [|done].
  apply (lw_other _ _ _ _ _ _ _ _ entry_written); [apply table_indices_ok|rewrite <-Hh; by apply first_in_half|].
  rewrite <-Hidx. rewrite same_indices by done. done.
Qed.

Lemma entry_this va : va_ok va → va / 4096 = page / 4096 →
  resolve (root T) m' va = if has PRESENT v then Some (through (look s.1) (root T) idxs (last_access 0 v)) else None.
Proof.
  intros Hva Hpg. unfold resolve. destruct Hva as [Hwd Hc] eqn:Hd. rewrite Hc.
  assert (half va = half page) as Hh.
  { pose proof (canonical_cases va ltac:(done)) as H1. pose proof (canonical_cases page Hv) as H2. unfold half.
    pose proof (Z.div_mod va 4096) as D1. pose proof (Z.mod_pos_bound va 4096) as B1.
    pose proof (Z.div_mod page 4096) as D2. pose proof (Z.mod_pos_bound page 4096) as B2.
    destruct (Z.ltb_spec va KERNEL_SPACE_BASE), (Z.ltb_spec page KERNEL_SPACE_BASE); try done;
      unfold KERNEL_SPACE_BASE in *; lia. }
  rewrite (proj2 (same_indices va page ltac:(done) Hv Hh) Hpg), Hidx. apply (lw_this _ _ _ _ _ _ _ _ entry_written).
Qed.

Lemma entry_elsewhere u j : elsewhere page s u j → look m' u j = look s.1 u j.
Proof.
  intros (Hu & Hj & Hpl & Hn). rewrite entry_look by done. rewrite decide_False; [done|]. intros [-> ->].
  destruct Hn as [Hn|[Hn1 Hn2]]; [by apply Hn, entry_in|].
  by apply (entry_not_root page s idxs i t').
Qed.
Lemma entry_keeps (m2 : Mem) : ram m2 = ram m' → (coherent (root T) page s.1 → coherent (root T) page m2) →
  keeps page false s (m2, s.2).
Proof.
  intros Hm2 Hcoh. assert (look m2 = look m') as Hl by (unfold read_entry, Ram.read64, Ram.bytes, Ram.byte; by rewrite Hm2).
  split; cbn [fst snd]; [by apply entry_sound| |done|done| |].
  - intros u j. rewrite Hl. apply entry_elsewhere.
  - intros x. rewrite Hl, (lw_tree _ _ _ _ _ _ _ _ entry_written). by left.
  - intros j _ Hj _. rewrite Hl, entry_look by (done || apply Hs). rewrite decide_False; [done|]. intros [Heq _].
    by apply (entry_not_root page s idxs i t' Hv Hs Hidx Hix Hp).
Qed.

End entry.

(** [va] is an address of the same half. *)
Definition same_half (page va : Z) : Prop := va_ok va ∧ half va = half page.

(** What [map] did, by what it answered. *)
Definition map_answer (page : Z) (frame : PhysFrame) (flags : PageFlags) (s s' : St) (r : res MapError ()) : Prop :=
  match r with
  | Ok () =>
      f_user flags = (page <? KERNEL_SPACE_BASE) ∧ resolve (root T) s.1 page = None ∧
      ∀ va, same_half page va → resolve (root T) s'.1 va =
        if decide (va / 4096 = page / 4096)
        then Some {| a_base := frame_start frame; a_size := 4096; a_writable := f_writable flags;
                     a_user := f_user flags; a_execute := f_executable flags |}
        else resolve (root T) s.1 va
  | Err e =>
      (∀ va, same_half page va → resolve (root T) s'.1 va = resolve (root T) s.1 va) ∧
      (e = OutsideKernelSpace ↔ f_user flags ≠ (page <? KERNEL_SPACE_BASE)) ∧
      (e = AlreadyMapped → resolve (root T) s.1 page ≠ None)
  | _ => False
  end.

(** A step that only grew the tree, and one after it. *)
Lemma keeps_same_tree page user s s1 : space_ok page s → same_tree (half page) 3 (root T) s s1 →
  (user = false → ∀ j, 0 ≤ j < 512 → has PRESENT (look s.1 (root T) j) = true → look s1.1 (root T) j = look s.1 (root T) j) →
  keeps page user s s1.
Proof.
  intros Hs Hst Hroot. split; [by eapply same_tree_sound|intros u j; by apply same_tree_elsewhere|by apply same_tree_coherent|..].
  - apply (ev_pool _ _ _ (st_ev _ _ _ _ _ Hst)).
  - intros x [?|[? _]]%(st_sub _ _ _ _ _ Hst); [by left|by right].
  - auto.
Qed.

Lemma keeps_trans page user s s1 s2 : keeps page user s s1 → keeps page false s1 s2 → keeps page user s s2.
Proof.
  intros [A1 A2 A3 A4 A5 A6] [B1 B2 B3 B4 B5 B6]. split; [done| |auto|auto| |].
  - intros u j Hel. rewrite B2; [by apply A2|]. destruct Hel as (Hu & Hj & Hnp & Hn).
    split; [done|]. split; [done|]. split; [auto|]. destruct Hn as [Hn|Hn]; [left|by right]. by intros [?|?]%A5.
  - intros x [Hx|Hx]%B5; [by apply A5|right; auto].
  - intros j Hu Hj Hp. rewrite B6; [by apply A6|done|done|]. by rewrite A6.
Qed.

(** A written entry and a page dropped from the cache leave it coherent. *)
Lemma entry_coherent page m m2 : (tlb m2 = delete (page / 4096) (tlb m) ∨ tlb m2 = ∅) →
  (∀ va, same_half page va → va / 4096 ≠ page / 4096 → resolve (root T) m2 va = resolve (root T) m va) →
  coherent (root T) page m → coherent (root T) page m2.
Proof.
  intros Htlb Hother. apply (coherent_same _ _ _ _ (λ vp, vp ≠ page / 4096)); [|by intros va Hva Hh; apply Hother].
  intros vp l Hl. destruct Htlb as [Ht|Ht]; rewrite Ht in Hl; [|by rewrite lookup_empty in Hl].
  apply lookup_delete_Some in Hl as [? ?]. done.
Qed.

(** The state [map] leaves when it has written its entry. *)
Lemma map_written page s s1 idxs i t' frame flags (m2 : Mem) : va_ok page → space_ok page s →
  table_indices page = idxs ++ [i] → indices_ok 3 idxs → 0 ≤ i < 512 → table_ok (frame_start frame) →
  same_tree (half page) 3 (root T) s s1 → keeps page (f_user flags) s s1 → path (look s1.1) (root T) idxs = Some t' →
  (f_user flags = true → path_user (look s1.1) (root T) idxs) →
  has PRESENT (look s1.1 t' i) = false → f_user flags = (page <? KERNEL_SPACE_BASE) →
  ram m2 = ram (write_entry s1.1 t' i (Tables.leaf_of frame flags)) →
  (tlb m2 = delete (page / 4096) (tlb s1.1) ∨ tlb m2 = ∅) →
  keeps page (f_user flags) s (m2, s1.2) ∧ map_answer page frame flags s (m2, s1.2) (Ok ()).
Proof.
  intros Hv Hs Hidx Hix Hi Hf Hst Hk Hp Hpu Hold Huser Hram Htlb. pose proof (k_ok _ _ _ _ Hk) as Hs1.
  destruct (leaf_of_spec frame flags Hf) as (LP & LU & LW & LA). set (v := Tables.leaf_of frame flags) in *.
  assert (has PRESENT v = true → has USER v = true → path_user (look s1.1) (root T) idxs) as Hvu.
  { intros _. rewrite LU. exact Hpu. }
  set (m' := write_entry s1.1 t' i v) in *.
  assert (∀ va, resolve (root T) m2 va = resolve (root T) m' va) as Hres.
  { intros va. unfold resolve, read_entry, Ram.read64, Ram.bytes, Ram.byte. by rewrite Hram. }
  assert (∀ va, same_half page va → va / 4096 ≠ page / 4096 → resolve (root T) m2 va = resolve (root T) s1.1 va) as Hother.
  { intros va [Hva Hh] Hne. by rewrite Hres, (entry_other page s1 idxs i t' v). }
  split.
  - eapply keeps_trans; [exact Hk|]. apply (entry_keeps page s1 idxs i t' v); try done. by apply entry_coherent.
  - cbn [map_answer fst]. split; [done|]. split.
    + rewrite <-(same_tree_resolve page s s1 page Hst Hv eq_refl). unfold resolve. rewrite (proj2 Hv), Hidx.
      rewrite (access_path _ 3 (root T) idxs t' i Hix Hp). cbn [access]. by rewrite Hold.
    + intros va [Hva Hh]. case_decide as Hpg; [|by rewrite Hother by done; apply (same_tree_resolve page)].
      rewrite Hres, (entry_this page s1 idxs i t' v), LP, LA by done. f_equal.
      apply (through_open _ 3 (half page) (root T) idxs t'); [apply Hs1|done| |done|done].
      intros _. pose proof (entry_first page idxs i Hv Hidx). by destruct idxs; [destruct Hix|].
Qed.

Lemma map_facts page frame flags s : va_ok page → page mod 4096 = 0 → table_ok (frame_start frame) → space_ok page s →
  ∃ r s', Tables.map T page frame flags s = (r, s') ∧ keeps page (f_user flags) s s' ∧ map_answer page frame flags s s' r.
Proof.
  intros Hv Hal Hf Hs. unfold Tables.map. destruct (Bool.eqb (f_user flags) (page <? KERNEL_SPACE_BASE)) eqn:Hu; cbn [negb].
  2:{ eexists _, _. split; [reflexivity|]. split; [by apply keeps_refl|]. split; [done|].
      apply Bool.eqb_false_iff in Hu. done. }
  apply Bool.eqb_prop in Hu. destruct (indices_split page) as (idxs & i & Hidx & Htake & Hlast & Hix & Hi).
  rewrite Htake.
  destruct (descend T (f_user flags) 3 (half page) (root T) idxs false s (half_range page) (half_NoDup page) Hs Hix)
    as (r & s1 & E & Hst & Hr & Hroot).
  { intros _. pose proof (entry_first page idxs i Hv Hidx). by destruct idxs; [destruct Hix|]. }
  rewrite dev_bind_run, E. pose proof (keeps_same_tree page (f_user flags) s s1 Hs Hst Hroot) as Hk.
  assert (∀ e, e ≠ OutsideKernelSpace → (e = AlreadyMapped → resolve (root T) s.1 page ≠ None) →
    ∃ r s', (Err e, s1) = (r, s') ∧ keeps page (f_user flags) s s' ∧ map_answer page frame flags s s' r) as Herr.
  { intros e He1 He2. eexists _, _. split; [reflexivity|]. split; [exact Hk|].
    split; [intros va [Hva Hh]; by apply (same_tree_resolve page)|]. by split. }
  destruct r as [[t' up]|e| |]; [|by apply Herr; set_solver|done|done].
  destruct Hr as [Hp Hpu]. rewrite Hlast. rewrite dev_bind_run. cbn [lift expect]. rewrite dev_bind_run. unfold Tables.read.
  destruct (has PRESENT (look s1.1 t' i)) eqn:Hold.
  - apply Herr; [done|]. intros _. rewrite <-(same_tree_resolve page s s1 page Hst Hv eq_refl). unfold resolve.
    rewrite (proj2 Hv), Hidx, (access_path _ 3 (root T) idxs t' i Hix Hp). cbn [access]. by rewrite Hold.
  - set (m' := write_entry s1.1 t' i (Tables.leaf_of frame flags)).
    exists (Ok ()), (if up then Ram.flush_all (Ram.flush m' page) else Ram.flush m' page, s1.2).
    split; [by destruct up|]. apply (map_written page s s1 idxs i t' frame flags); try done; destruct up; try done; [by right|by left].
Qed.

(** ** Unmapping *)
Lemma unmap_walk n : ∀ idxs t m, indices_ok n idxs → (n ≤ 3)%nat →
  (∃ t', for_in idxs Tables.unmap_level t m = (Ok t', m) ∧ path (look m) t idxs = Some t') ∨
  (for_in idxs Tables.unmap_level t m = (Err NotMapped, m) ∧ ∀ i, access (look m) n (idxs ++ [i]) t = None) ∨
  (for_in idxs Tables.unmap_level t m = (Err UnmapHugePageInTheWay, m) ∧
     ∀ i a, access (look m) n (idxs ++ [i]) t = Some a → a_size a ≠ 4096).
Proof.
  induction n as [|n IH]; intros idxs t m Hix Hn; destruct idxs as [|i idxs]; try (by destruct Hix).
  { left. by exists t. }
  apply indices_ok_cons in Hix as [Hi Hix]. cbn [for_in path app]. rewrite dev_bind_run.
  unfold Tables.unmap_level at 1 3 5. rewrite dev_bind_run. cbn [get].
  setoid_rewrite access_step. unfold child.
  destruct (has PRESENT (look m t i)); cbn [negb andb]; [|by right; left].
  destruct (has HUGE (look m t i)); cbn [negb].
  { right; right. split; [done|]. intros _ a. destruct (Nat.eqb_spec (S n) 3); [done|]. intros [= <-]. cbn [a_size last_access].
    unfold size_of. intros Heq. apply (Z.pow_inj_r 2 _ 12) in Heq; lia. }
  cbn [mret dev_ret]. destruct (IH idxs (Z.land (look m t i) ADDRESS_MASK) m Hix ltac:(lia)) as [(t' & -> & Hp)|[(-> & Ha)|(-> & Ha)]].
  - left. by exists t'.
  - right; left. split; [done|]. intros k. by rewrite Ha.
  - right; right. split; [done|]. intros k a. destruct (access _ _ _ _) as [a'|] eqn:Ha'; [|done]. cbn. intros [= <-].
    cbn. by apply (Ha k).
Qed.

(** What [unmap] did, by what it answered. *)
Definition unmap_answer (page : Z) (m m' : Mem) (r : res UnmapError PhysFrame) : Prop :=
  match r with
  | Ok frame =>
      (∃ a, resolve (root T) m page = Some a ∧ a_size a = 4096 ∧ a_base a = frame_start frame) ∧
      tlb m' !! (page / 4096) = None ∧
      ∀ va, same_half page va → resolve (root T) m' va =
        if decide (va / 4096 = page / 4096) then None else resolve (root T) m va
  | Err e =>
      m' = m ∧
      match e with
      | UnmapOutsideKernelSpace => page < KERNEL_SPACE_BASE
      | NotMapped => resolve (root T) m page = None
      | UnmapHugePageInTheWay => ∀ a, resolve (root T) m page = Some a → a_size a ≠ 4096
      end
  | _ => False
  end.

Lemma through_base rd t idxs a : a_base (through rd t idxs a) = a_base a ∧ a_size (through rd t idxs a) = a_size a.
Proof.
  revert t; induction idxs as [|i idxs IH]; intros t; [done|]. cbn [through]. destruct (child rd t i); [|done]. apply IH.
Qed.

Lemma last_frame e : Frame.containing_address (Z.land e ADDRESS_MASK) = {| frame_start := a_base (last_access 0 e) |}.
Proof.
  destruct (mask_table_ok e) as [Hr Ha]. unfold Frame.containing_address. f_equal. change FRAME_SIZE with 4096.
  rewrite Ha, Z.sub_0_r. cbn [a_base last_access]. symmetry.
  apply Z.bits_inj'. intros k Hk. rewrite Z.land_spec.
  destruct (Z.testbit (Z.land e ADDRESS_MASK) k) eqn:Hb; [|done].
  apply (table_bits _ _ (mask_table_ok e)) in Hb. unfold size_of. change (2 ^ (12 + 9 * Z.of_nat 0) - 1) with (Z.ones 12).
  rewrite testbit_not_w; [|split; done|lia]. rewrite Z.ones_spec_high by lia. done.
Qed.

Lemma unmap_facts page m (f : F) : va_ok page → space_ok page (m, f) →
  ∃ r m', Tables.unmap T page m = (r, m') ∧ keeps page false (m, f) (m', f) ∧ unmap_answer page m m' r.
Proof.
  intros Hv Hs. unfold Tables.unmap. pose proof (keeps_refl page false (m, f) Hs) as Hrefl.
  destruct (Z.ltb_spec page KERNEL_SPACE_BASE) as [Hk|Hk]; [by eexists _, _; split; [reflexivity|]|].
  destruct (indices_split page) as (idxs & i & Hidx & Htake & Hlast & Hix & Hi). rewrite Htake, dev_bind_run.
  assert (resolve (root T) m page = access (look m) 3 (idxs ++ [i]) (root T)) as Hres.
  { unfold resolve. by rewrite (proj2 Hv), Hidx. }
  destruct (unmap_walk 3 idxs (root T) m Hix ltac:(lia)) as [(t' & -> & Hp)|[(-> & Ha)|(-> & Ha)]].
  2:{ eexists _, _. split; [reflexivity|]. split; [done|]. split; [done|]. by rewrite Hres. }
  2:{ eexists _, _. split; [reflexivity|]. split; [done|]. split; [done|]. intros a. rewrite Hres. apply Ha. }
  rewrite Hlast, dev_bind_run. cbn [lift expect]. rewrite dev_bind_run. cbn [get].
  assert (access (look m) 3 (idxs ++ [i]) (root T) = through (look m) (root T) idxs <$>
    (if negb (has PRESENT (look m t' i)) then None else Some (last_access 0 (look m t' i)))) as Hacc.
  { by rewrite (access_path (look m) 3 (root T) idxs t' i Hix Hp). }
  destruct (has PRESENT (look m t' i)) eqn:Hpr; cbn [negb] in *.
  2:{ eexists _, _. split; [reflexivity|]. split; [done|]. split; [done|]. by rewrite Hres, Hacc. }
  set (m1 := write_entry m t' i 0). exists (Ok (Frame.containing_address (Z.land (look m t' i) ADDRESS_MASK))), (Ram.flush m1 page).
  split; [reflexivity|].
  assert (∀ va, same_half page va → va / 4096 ≠ page / 4096 → resolve (root T) (Ram.flush m1 page) va = resolve (root T) m va) as Hother.
  { intros va [Hva Hh] Hne. by apply (entry_other page (m, f) idxs i t' 0). }
  split.
  { apply (entry_keeps page (m, f) idxs i t' 0); try done. apply entry_coherent; [by left|done]. }
  cbn [unmap_answer]. rewrite last_frame. split; [|split].
  - rewrite Hres, Hacc. exists (through (look m) (root T) idxs (last_access 0 (look m t' i))). split; [done|].
    destruct (through_base (look m) (root T) idxs (last_access 0 (look m t' i))) as [-> ->]. done.
  - unfold Ram.flush. cbn [tlb]. apply lookup_delete_eq.
  - intros va [Hva Hh]. case_decide as Hpg; [|by apply Hother].
    change (resolve (root T) m1 va = None). by rewrite (entry_this page (m, f) idxs i t' 0).
Qed.
End map.
