(* ===== verification/FramesZeroed.v ===== *)
(** * The kernel's frames, as the page tables see them

    [KernelFrames], the bitmap allocator that zeroes what it hands out,
    keeps the promises page tables rely on ([FrameAllocatorLaws]).  *)

From S2P Require Import Prelude Words PhysMem FrameAlloc FrameAllocProofs FrameAllocThms Bytes Memory HalPaging PageTables PageWalk PageTree.
Local Open Scope Z_scope.

(** The bitmap is consistent, physical memory is within what a page-table
    entry can name, and the window reaches all of it. *)
Definition kernel_frames_ok (z : KernelFrames) : Prop :=
  inv (inner z) ∧ cov (FrameAlloc.bitmap (inner z)) ≤ 2 ^ 40 ∧ 0 ≤ w_base (window z) ∧
  w_base (window z) + cov (FrameAlloc.bitmap (inner z)) * FRAME_SIZE ≤ 2 ^ 64.

Definition kernel_pool (z : KernelFrames) (x : Z) : Prop :=
  ∃ f, f ∈ pool (FrameAlloc.bitmap (inner z)) ∧ x = f * FRAME_SIZE.

Lemma frame_address fr : Frame.valid fr → frame_start fr = Frame.number fr * FRAME_SIZE.
Proof.
  intros Hv. rewrite <-(Frame.containing_number fr Hv) at 1. unfold Frame.containing_address. cbn [frame_start].
  unfold FRAME_SIZE. rewrite Z.mod_mul by done. lia.
Qed.

(** A frame the bitmap hands out is within reach. *)
Lemma frame_in_reach (z : KernelFrames) fr : kernel_frames_ok z → Frame.valid fr →
  Frame.number fr ∈ pool (FrameAlloc.bitmap (inner z)) →
  PageWalk.table_ok (frame_start fr) ∧
  Window.frame_ptr (E:=Empty_set) (window z) fr = Ok (w_base (window z) + frame_start fr).
Proof.
  intros (Hi & H40 & Hb & Hw) Hv Hp. apply elem_of_pool in Hp as [Hr _].
  rewrite (frame_address fr Hv) in *. unfold FRAME_SIZE in *. split.
  - split; [|by apply Z.mod_mul]. nia.
  - unfold Window.frame_ptr, checked_add. rewrite (frame_address fr Hv). unfold FRAME_SIZE.
    destruct (Z.ltb_spec (w_base (window z) + Frame.number fr * 4096) (2 ^ 64)); [done|nia].
Qed.

(** Zeroing a frame on its way out. *)
Lemma on_the_way_out_run (z : KernelFrames) m fr : PageWalk.table_ok (frame_start fr) →
  Window.frame_ptr (E:=Empty_set) (window z) fr = Ok (w_base (window z) + frame_start fr) →
  Zeroed.on_the_way_out fr (m, z) =
    (Ok fr, (Ram.zero_frame m (frame_start fr), {| inner := inner z; window := window z; zeroed := wrap 64 (zeroed z + 1) |})).
Proof. intros _ Hp. unfold Zeroed.on_the_way_out, Window.zero. by rewrite Hp. Qed.

(** [allocate_for], whatever the frame is for. *)
Lemma kernel_allocate_spec (p : FramePurpose) m (z : KernelFrames) : kernel_frames_ok z → Ram.wf m →
  ∃ got m' z', Zeroed.allocate_for p (m, z) = (Ok got, (m', z')) ∧ kernel_frames_ok z' ∧ Ram.wf m' ∧ tlb m' = tlb m ∧
    window z' = window z ∧
    match got with
    | None => m' = m ∧ z' = z ∧ pool (FrameAlloc.bitmap (inner z)) = ∅
    | Some fr =>
        Frame.valid fr ∧ PageWalk.table_ok (frame_start fr) ∧ m' = Ram.zero_frame m (frame_start fr) ∧
        Frame.number fr ∈ pool (FrameAlloc.bitmap (inner z)) ∧
        pool (FrameAlloc.bitmap (inner z')) = pool (FrameAlloc.bitmap (inner z)) ∖ {[Frame.number fr]} ∧
        (is_Some (purposes (inner z)) → FrameAlloc.purpose_of (inner z') fr = Some p)
    end.
Proof.
  intros Hz Hm. destruct (allocate_for_spec (inner z) p (proj1 Hz)) as (got & a' & E & Hi & Henv & Hg).
  unfold Zeroed.allocate_for. rewrite dev_bind_run. unfold Zeroed.with_bitmap at 1. rewrite E.
  assert (cov (FrameAlloc.bitmap a') = cov (FrameAlloc.bitmap (inner z))) as Hcov by (by apply same_env_cov).
  assert (kernel_frames_ok (with_inner z a')) as Hz'.
  { destruct Hz as (_ & H40 & Hb & Hw). split; [done|]. cbn [inner window with_inner]. by rewrite Hcov. }
  destruct got as [fr|].
  2:{ destruct Hg as [Hg ->]. eexists _, _, _. split; [reflexivity|]. split; [done|]. split; [done|]. split; [done|].
      split; [done|]. split; [done|]. split; [by destruct z|done]. }
  destruct Hg as (Hv & _ & Hin & Hpool & Hpur). destruct (frame_in_reach z fr Hz Hv Hin) as [Hok Hptr].
  rewrite dev_bind_run, on_the_way_out_run by done. eexists _, _, _. split; [reflexivity|].
  split; [exact Hz'|]. split; [by apply Ram.zero_frame_wf|]. split; [done|]. split; [done|]. by split_and!.
Qed.

Lemma kernel_allocate_law m f : kernel_frames_ok f → Ram.wf m →
  ∃ got m' f', allocate_frame (m, f) = (Ok got, (m', f')) ∧ kernel_frames_ok f' ∧ Ram.wf m' ∧ tlb m' = tlb m ∧
    (∀ x, kernel_pool f' x → kernel_pool f x) ∧
    match got with
    | None => m' = m
    | Some fr =>
        PageWalk.table_ok (frame_start fr) ∧ kernel_pool f (frame_start fr) ∧ ¬ kernel_pool f' (frame_start fr) ∧
        ∀ u j, PageWalk.table_ok u → u ≠ frame_start fr → 0 ≤ j < 512 → read_entry m' u j = read_entry m u j
    end.
Proof.
  intros Hf Hm. destruct (kernel_allocate_spec PageTable m f Hf Hm) as (got & m' & f' & E & H1 & H2 & H3 & _ & Hg).
  exists got, m', f'. split; [exact E|]. split; [done|]. split; [done|]. split; [done|]. destruct got as [fr|].
  - destruct Hg as (Hv & Hok & -> & Hin & Hpool & _). split.
    { intros x (n & Hn & ->). exists n. split; [|done]. rewrite Hpool in Hn. set_solver. }
    split; [done|]. split; [exists (Frame.number fr); split; [done|by apply frame_address]|]. split.
    + intros (n & Hn & E'). rewrite Hpool in Hn. rewrite (frame_address fr Hv) in E'.
      assert (n = Frame.number fr) as -> by (unfold FRAME_SIZE in E'; lia). set_solver.
    + intros u j Hu Hne Hj. apply look_zero_frame; done.
  - destruct Hg as (-> & -> & _). done.
Qed.

#[export] Instance kernel_frames_laws : FrameAllocatorLaws KernelFrames := {
  fa_ok := kernel_frames_ok;
  fa_pool := kernel_pool;
  allocate_law := kernel_allocate_law
}.
