(* ===== verification/Spaces.v ===== *)
(** * Address spaces side by side

    The kernel's tables and the spaces of the processes, which share the
    kernel's half by copying its root's entries ([new_process_space]).
    [spaces_ok] is what holds between any two operations on any of them. *)

From S2P Require Import Prelude Words PhysMem Bytes Memory HalPaging PageTables PageWalk PageTree PageMap PageMapThms.
Local Open Scope Z_scope.

Lemma in_kernel_slots j : j ∈ Tables.kernel_slots ↔ 256 ≤ j < 512.
Proof. unfold Tables.kernel_slots. rewrite in_seqZ. lia. Qed.
Lemma in_lower_slots j : j ∈ Tables.lower_slots ↔ 0 ≤ j < 256.
Proof. unfold Tables.lower_slots. rewrite in_seqZ. lia. Qed.

Lemma half_kernel va : KERNEL_SPACE_BASE ≤ va → half va = Tables.kernel_slots.
Proof. intros Hk. unfold half. destruct (Z.ltb_spec va KERNEL_SPACE_BASE); [lia|done]. Qed.
Lemma half_lower va : va < KERNEL_SPACE_BASE → half va = Tables.lower_slots.
Proof. intros Hk. unfold half. destruct (Z.ltb_spec va KERNEL_SPACE_BASE); [done|lia]. Qed.

#[local] Opaque Tables.kernel_slots Tables.lower_slots.

Section spaces.
  Context {F : Type} `{FrameAllocatorLaws F}.
  Local Abbreviation St := (Mem * F)%type.
  Context (window : Z).

Definition at_root (r : Z) : PageTables := {| root := r; base := window |}.

(** ** A new space *)
Lemma copy_loop l s k c : Forall (λ i, 0 ≤ i < 512) l → table_ok k → table_ok c → k ≠ c → good s →
  ∃ s', for_in (E:=MapError) l (λ _ slot, entry ← Tables.read k slot; Tables.write c slot entry) () s = (Ok (), s') ∧
    s'.2 = s.2 ∧ good s' ∧ tlb s'.1 = tlb s.1 ∧
    ∀ u j, table_ok u → 0 ≤ j < 512 →
      look s'.1 u j = if decide (u = c ∧ j ∈ l) then look s.1 k j else look s.1 u j.
Proof.
  intros Hl Hk Hc Hne. revert s. induction Hl as [|i l Hi Hl IH]; intros s Hs; cbn [for_in].
  { eexists. split; [reflexivity|]. split_and!; try done. intros u j Hu Hj. rewrite decide_False; [done|].
    intros [_ Hin]. by apply elem_of_nil in Hin. }
  rewrite dev_bind_run. unfold Tables.read at 1. rewrite dev_bind_run. unfold Tables.write at 1, modify.
  set (s1 := (write_entry s.1 c i (look s.1 k i), s.2)).
  pose proof (look_range s.1 k i (proj2 Hs)) as Hw.
  assert (good s1) as Hs1 by (destruct Hs; split; cbn [fst snd]; [done|by apply Ram.write64_wf]).
  destruct (IH s1 Hs1) as (s' & E1 & E2 & E3 & E4 & E5). exists s'. split; [exact E1|].
  split; [by rewrite E2|]. split; [done|]. split; [by rewrite E4|]. intros u j Hu Hj. rewrite E5 by done.
  unfold s1. cbn [fst]. rewrite !look_write by done. rewrite (decide_False (P := c = k ∧ i = j)) by naive_solver.
  destruct (decide (u = c ∧ j ∈ l)) as [Hd|Hd]; [by rewrite decide_True by set_solver|].
  destruct (decide (c = u ∧ i = j)) as [[<- <-] | Hd']; [by rewrite decide_True by set_solver|].
  rewrite decide_False; [done|]. intros [-> [->|?]%elem_of_cons]; tauto.
Qed.

(** The space of a process that does not exist yet: nothing below, the
    kernel's entries above. *)
Lemma new_space_spec s k : good s → table_ok k → ¬ fa_pool s.2 k →
  ∃ r s', Tables.new_process_space (at_root k) s = (r, s') ∧
    match r with
    | Ok T => ∃ c, T = at_root c ∧ evolves (λ _, False) s s' ∧ table_ok c ∧ fa_pool s.2 c ∧ ¬ fa_pool s'.2 c ∧
        (∀ u j, table_ok u → u ≠ c → 0 ≤ j < 512 → look s'.1 u j = look s.1 u j) ∧
        (∀ j, 0 ≤ j < 512 → look s'.1 c j = if decide (j ∈ Tables.kernel_slots) then look s.1 k j else 0)
    | Err e => evolves (λ _, False) s s' ∧ (e = OutOfFrames ∨ e = TableFrameNotWritable)
    | _ => False
    end.
Proof.
  intros Hs Hk Hkp. unfold Tables.new_process_space. rewrite dev_bind_run.
  destruct (new_table_spec (at_root k) s Hs) as (r & s1 & -> & Hr).
  destruct r as [c|e| |]; [|by eexists _, _|done|done].
  destruct Hr as (Hev & Hc & Hin & Hout & Hsame & Hz). assert (k ≠ c) as Hne by (intros ->; done).
  destruct (copy_loop Tables.kernel_slots s1 k c) as (s2 & E & E2 & E3 & E4 & E5); [|exact Hk|exact Hc|exact Hne|apply Hev|].
  { apply Forall_forall. intros i. rewrite in_kernel_slots. lia. }
  rewrite dev_bind_run. cbn [root at_root]. rewrite E. eexists _, _. split; [reflexivity|]. exists c. split; [done|].
  split; [|split; [done|split; [done|split; [by rewrite E2|split]]]].
  - split; [done|rewrite E4; apply Hev|rewrite E2; apply Hev|]. intros u j Hu Hj _ Hp. rewrite E5 by done.
    rewrite decide_False; [apply (ev_same _ _ _ Hev u j Hu Hj); [by intros []|exact Hp]|]. intros [-> _]. by apply Hp.
  - intros u j Hu Huc Hj. rewrite E5 by done. rewrite decide_False by tauto. by apply Hsame.
  - intros j Hj. rewrite E5 by done. case_decide as Hd; case_decide as Hd'; try tauto; [|by apply Hz].
    by apply Hsame.
Qed.

(** ** All of them at once *)
Definition lower_tree (m : Mem) (p : Z) : list Z := tree (look m) Tables.lower_slots 3 p.

Record spaces_ok (k : Z) (ps : list Z) (s : St) : Prop := {
  sp_kernel : sound Tables.kernel_slots 3 k s;
  sp_lower p : p ∈ ps → sound Tables.lower_slots 3 p s;
  (** The tables of one are not the tables of another. *)
  sp_kernel_apart p x : p ∈ ps → x ∈ tree (look s.1) Tables.kernel_slots 3 k → x ∉ lower_tree s.1 p;
  sp_apart p q x : p ∈ ps → q ∈ ps → p ≠ q → x ∈ lower_tree s.1 p → x ∉ lower_tree s.1 q;
  (** An entry of the kernel's half leads where the kernel's leads. *)
  sp_shared p j : p ∈ ps → j ∈ Tables.kernel_slots → has PRESENT (look s.1 p j) = true →
    look s.1 p j = look s.1 k j
}.

Inductive space_op :=
| KernelMap (page : Z) (frame : PhysFrame) (flags : PageFlags)
| KernelUnmap (page : Z)
| NewSpace
| UserMap (p : Z) (page : Z) (frame : PhysFrame) (flags : PageFlags).

Definition op_ok (ps : list Z) (op : space_op) : Prop :=
  match op with
  | KernelMap page frame _ => va_ok page ∧ page mod 4096 = 0 ∧ KERNEL_SPACE_BASE ≤ page ∧ table_ok (frame_start frame)
  | KernelUnmap page => va_ok page ∧ KERNEL_SPACE_BASE ≤ page
  | NewSpace => True
  | UserMap p page frame _ =>
      p ∈ ps ∧ va_ok page ∧ page mod 4096 = 0 ∧ page < KERNEL_SPACE_BASE ∧ table_ok (frame_start frame)
  end.

(** The outcome is dropped: whatever it is, the state is what matters. *)
Definition run_op (k : Z) (op : space_op) (ps : list Z) : dev St Empty_set (list Z) :=
  let keep {E A} (ps : list Z) (m : dev St E A) : dev St Empty_set (list Z) := λ s,
    match m s with
    | (Ok _, s) | (Err _, s) => (Ok ps, s)
    | (Panic, s) => (Panic, s)
    | (Diverge, s) => (Diverge, s)
    end in
  match op with
  | KernelMap page frame flags => keep ps (Tables.map (at_root k) page frame flags)
  | KernelUnmap page => keep ps (λ s, let '(r, m) := Tables.unmap (at_root k) page s.1 in (r, (m, s.2)))
  | NewSpace => λ s,
      match Tables.new_process_space (at_root k) s with
      | (Ok T, s) => (Ok (root T :: ps), s)
      | (Err _, s) => (Ok ps, s)
      | (Panic, s) => (Panic, s)
      | (Diverge, s) => (Diverge, s)
      end
  | UserMap p page frame flags => keep ps (Tables.map (at_root p) page frame flags)
  end.

(** Whose translations an operation may change. *)
Definition touched (op : space_op) (r va : Z) : Prop :=
  match op with
  | KernelMap page _ _ | KernelUnmap page => KERNEL_SPACE_BASE ≤ va ∧ va / 4096 = page / 4096
  | NewSpace => False
  | UserMap p page _ _ => r = p ∧ va / 4096 = page / 4096
  end.

(** ** What nobody writes stays *)
Section frame.
  Context (Sl : list Z) (n : nat) (r : Z) (s s' : St).
  Hypothesis HSl : ∀ j, j ∈ Sl → 0 ≤ j < 512.
  Hypothesis Hs : sound Sl (S n) r s.
  Hypothesis Hg : good s'.
  Hypothesis Hp : ∀ x, fa_pool s'.2 x → fa_pool s.2 x.
  Hypothesis Hx : ∀ x j, x ∈ tree (look s.1) Sl (S n) r → 0 ≤ j < 512 → (x = r → j ∈ Sl) → look s'.1 x j = look s.1 x j.

Lemma frame_root j : j ∈ Sl → look s'.1 r j = look s.1 r j.
Proof. intros Hj. apply Hx; [left|by apply HSl|done]. Qed.

Lemma frame_sub i c x j : i ∈ Sl → child (look s.1) r i = Some c → x ∈ subtables (look s.1) n c → 0 ≤ j < 512 →
  look s'.1 x j = look s.1 x j.
Proof.
  intros Hi Hc Hin Hj. rewrite (subtables_child _ _ _ _ _ Hc) in Hin. apply Hx; [by eapply in_under|done|].
  intros ->. pose proof (so_nodup _ _ _ _ Hs) as [Hn _]%NoDup_cons. destruct Hn. apply elem_of_concat.
  exists (under (look s.1) n r i). split; [by apply list_elem_of_fmap_2|done].
Qed.

Lemma frame_tree : tree (look s'.1) Sl (S n) r = tree (look s.1) Sl (S n) r.
Proof.
  unfold tree. do 2 f_equal. apply list_fmap_ext. intros k i Hi%list_elem_of_lookup_2. unfold under.
  rewrite (child_ext (look s.1)) by (by apply frame_root). destruct (child (look s.1) r i) as [c|] eqn:Hc; [|done].
  apply subtables_ext. intros x j. by apply (frame_sub i c).
Qed.

Lemma frame_access v : indices_ok (S (S n)) v → first_in Sl v → access (look s'.1) (S n) v r = access (look s.1) (S n) v r.
Proof.
  destruct v as [|i v]; [done|]. intros [_ Hv]%indices_ok_cons Hi. rewrite !access_step, frame_root by done.
  rewrite (child_ext (look s.1)) by (by apply frame_root). destruct (child (look s.1) r i) as [c|] eqn:Hc; [|done].
  rewrite (access_ext (look s.1) (look s'.1)); [done|done|]. intros x j. by apply (frame_sub i c).
Qed.

Lemma frame_sound : sound Sl (S n) r s'.
Proof.
  split; [done|apply Hs|rewrite frame_tree; apply Hs| |].
  - intros x. rewrite frame_tree. intros Hin Hp'. by eapply so_pool; [exact Hs|exact Hin|apply Hp].
  - intros i c Hi. rewrite (child_ext (look s.1)), frame_root by (done || by apply frame_root). intros Hc.
    destruct (so_user _ _ _ _ Hs i c Hi Hc) as (H1 & HL & H2).
    split; [eapply user_ok_ext; [|done]; intros x j; by apply (frame_sub i c)|]. split; [done|].
    intros Hu. eapply no_user_ext; [|by apply H2]. intros v Hv. apply access_ext; [done|].
    intros x j. by apply (frame_sub i c).
Qed.
End frame.

Lemma kernel_range j : j ∈ Tables.kernel_slots → 0 ≤ j < 512.
Proof. rewrite in_kernel_slots. lia. Qed.
Lemma lower_range j : j ∈ Tables.lower_slots → 0 ≤ j < 512.
Proof. rewrite in_lower_slots. lia. Qed.

Lemma tree_ok r Sl n s x : sound Sl n r s → x ∈ tree (look s.1) Sl n r → table_ok x.
Proof.
  intros Hs Hx. destruct n as [|n]; [apply list_elem_of_singleton in Hx as ->; apply Hs|].
  apply in_tree in Hx as [-> | (i & _ & Hi)]; [apply Hs|by eapply tables_ok_under].
Qed.

(** What a process sees of the kernel's half: what the kernel sees, where
    the root's entry was there to be copied. *)
Lemma shared_access k ps s p v : spaces_ok k ps s → p ∈ ps → indices_ok 4 v → first_in Tables.kernel_slots v →
  access (look s.1) 3 v p =
    match v with
    | j :: _ => if has PRESENT (look s.1 p j) then access (look s.1) 3 v k else None
    | [] => None
    end.
Proof.
  intros Hs Hp Hv Hf. destruct v as [|j v]; [done|]. cbn [first_in] in Hf. rewrite !access_step. unfold child.
  destruct (has PRESENT (look s.1 p j)) eqn:He; [|done]. by rewrite <-(sp_shared _ _ _ Hs p j Hp Hf He), He.
Qed.

Lemma shared_resolve k ps s p va : spaces_ok k ps s → p ∈ ps → va_ok va → KERNEL_SPACE_BASE ≤ va →
  resolve p s.1 va =
    if has PRESENT (look s.1 p ((va / 2 ^ 39) mod 512)) then resolve k s.1 va else None.
Proof.
  intros Hs Hp Hv Hk. unfold resolve. rewrite (proj2 Hv).
  rewrite (shared_access k ps s p) by (done || apply table_indices_ok || (rewrite <-(half_kernel va Hk); by apply first_in_half)).
  by rewrite table_indices_div.
Qed.

(** ** One operation *)
Section one.
  Context (k : Z) (ps : list Z) (s : St).
  Hypothesis Hok : spaces_ok k ps s.

Lemma one_kernel_table x : x ∈ tree (look s.1) Tables.kernel_slots 3 k → table_ok x ∧ ¬ fa_pool s.2 x.
Proof. intros Hx. split; [by eapply tree_ok; [apply Hok|]|by eapply so_pool; [apply Hok|]]. Qed.

Lemma one_lower_table p x : p ∈ ps → x ∈ lower_tree s.1 p → table_ok x ∧ ¬ fa_pool s.2 x.
Proof. intros Hp Hx. pose proof (sp_lower _ _ _ Hok p Hp). split; [by eapply tree_ok|by eapply so_pool]. Qed.

Lemma one_self r Sl : r ∈ tree (look s.1) Sl 3 r.
Proof. left. Qed.

(** After an operation in space [q] (its lower half). *)
Section in_space.
  Context (q page : Z) (user : bool) (s' : St).
  Hypothesis Hq : q ∈ ps.
  Hypothesis Hpage : half page = Tables.lower_slots.
  Hypothesis Hk : keeps (at_root q) page user s s'.

Lemma in_space_else x j : table_ok x → 0 ≤ j < 512 → ¬ fa_pool s.2 x → x ∉ lower_tree s.1 q → look s'.1 x j = look s.1 x j.
Proof. intros Hx Hj Hp Hn. apply (k_elsewhere _ _ _ _ _ Hk). split; [done|]. split; [done|]. split; [done|]. left. by rewrite Hpage. Qed.

Lemma in_space_kernel x j : x ∈ tree (look s.1) Tables.kernel_slots 3 k → 0 ≤ j < 512 → look s'.1 x j = look s.1 x j.
Proof. intros Hx Hj. destruct (one_kernel_table x Hx). apply in_space_else; try done. by apply (sp_kernel_apart _ _ _ Hok). Qed.

Lemma in_space_lower p x j : p ∈ ps → p ≠ q → x ∈ lower_tree s.1 p → 0 ≤ j < 512 → look s'.1 x j = look s.1 x j.
Proof. intros Hp Hne Hx Hj. destruct (one_lower_table p x Hp Hx). apply in_space_else; try done. by eapply (sp_apart _ _ _ Hok p q). Qed.

Lemma in_space_entry p j : p ∈ ps → j ∈ Tables.kernel_slots → look s'.1 p j = look s.1 p j.
Proof.
  intros Hp Hj. pose proof (kernel_range j Hj). destruct (decide (p = q)) as [-> | Hne].
  - destruct (one_lower_table q q Hp (one_self _ _)). apply (k_elsewhere _ _ _ _ _ Hk). split; [done|]. split; [done|]. split; [done|]. right.
    split; [done|]. rewrite Hpage, in_lower_slots. apply in_kernel_slots in Hj. lia.
  - apply (in_space_lower p p); try done. apply one_self.
Qed.

Lemma in_space_tree_kernel : tree (look s'.1) Tables.kernel_slots 3 k = tree (look s.1) Tables.kernel_slots 3 k.
Proof. apply frame_tree; [apply kernel_range|apply Hok|]. intros x j Hx Hj _. by apply in_space_kernel. Qed.

Lemma in_space_tree p : p ∈ ps → p ≠ q → lower_tree s'.1 p = lower_tree s.1 p.
Proof.
  intros Hp Hne. apply frame_tree; [apply lower_range|by apply Hok|]. intros x j Hx Hj _. by apply (in_space_lower p).
Qed.

Lemma in_space_grow p x : p ∈ ps → x ∈ lower_tree s'.1 p → x ∈ lower_tree s.1 p ∨ p = q ∧ fa_pool s.2 x.
Proof.
  intros Hp Hx. destruct (decide (p = q)) as [-> | Hne]; [|left; by rewrite <-(in_space_tree p)].
  pose proof (k_grow _ _ _ _ _ Hk x) as Hg. rewrite Hpage in Hg. destruct (Hg Hx); [by left|by right].
Qed.

Lemma in_space_ok : spaces_ok k ps s'.
Proof.
  pose proof (k_pool _ _ _ _ _ Hk) as Hpool. assert (good s') as Hg by apply (k_ok _ _ _ _ _ Hk).
  assert (∀ p, p ∈ ps → sound Tables.lower_slots 3 p s') as Hlow.
  { intros p Hp. destruct (decide (p = q)) as [-> | Hne].
    - pose proof (k_ok _ _ _ _ _ Hk) as H1. unfold space_ok in H1. by rewrite Hpage in H1.
    - eapply frame_sound; try done; [apply lower_range|by apply Hok|]. intros x j Hx Hj _. by apply (in_space_lower p). }
  split; [|done|..].
  - eapply frame_sound; try done; [apply kernel_range|apply Hok|]. intros x j Hx Hj _. by apply in_space_kernel.
  - intros p x Hp. rewrite in_space_tree_kernel. intros Hx [Hx'|[_ Hx']]%in_space_grow; [|by destruct (one_kernel_table x Hx)|done].
    by apply (sp_kernel_apart _ _ _ Hok p x).
  - intros p p' x Hp Hp' Hne Hx Hx'. apply in_space_grow in Hx, Hx'; try done.
    destruct Hx as [Hx|[-> Hx]], Hx' as [Hx'|[-> Hx']]; try done.
    + by apply (sp_apart _ _ _ Hok p p' x).
    + by destruct (one_lower_table p x).
    + by destruct (one_lower_table p' x).
  - intros p j Hp Hj. rewrite in_space_entry by done. intros He.
    rewrite (in_space_kernel k j) by (apply one_self || by apply kernel_range). by apply (sp_shared _ _ _ Hok).
Qed.

Lemma in_space_kernel_resolve va : va_ok va → KERNEL_SPACE_BASE ≤ va → resolve k s'.1 va = resolve k s.1 va.
Proof.
  intros Hv Hva. unfold resolve. destruct (is_canonical va); [|done].
  eapply (frame_access Tables.kernel_slots); [apply kernel_range|apply Hok| |apply table_indices_ok|].
  - intros x j Hx Hj _. by apply in_space_kernel.
  - rewrite <-(half_kernel va Hva). by apply first_in_half.
Qed.

Lemma in_space_lower_resolve p va : p ∈ ps → p ≠ q → va_ok va → va < KERNEL_SPACE_BASE → resolve p s'.1 va = resolve p s.1 va.
Proof.
  intros Hp Hne Hv Hva. unfold resolve. destruct (is_canonical va); [|done].
  eapply (frame_access Tables.lower_slots); [apply lower_range|by apply Hok| |apply table_indices_ok|].
  - intros x j Hx Hj _. by apply (in_space_lower p).
  - rewrite <-(half_lower va Hva). by apply first_in_half.
Qed.

Lemma in_space_upper_resolve p va : p ∈ ps → va_ok va → KERNEL_SPACE_BASE ≤ va → resolve p s'.1 va = resolve p s.1 va.
Proof.
  intros Hp Hv Hva. rewrite (shared_resolve k ps s' p va in_space_ok Hp Hv Hva), (shared_resolve k ps s p va Hok Hp Hv Hva).
  rewrite in_space_kernel_resolve by done. rewrite in_space_entry; [done|done|].
  pose proof (first_in_half va Hv) as Hf. rewrite table_indices_div, (half_kernel va Hva) in Hf. exact Hf.
Qed.
End in_space.

(** After an operation in the kernel's half. *)
Section in_kernel.
  Context (page : Z) (s' : St).
  Hypothesis Hpage : half page = Tables.kernel_slots.
  Hypothesis Hk : keeps (at_root k) page false s s'.

Lemma in_kernel_else x j : table_ok x → 0 ≤ j < 512 → ¬ fa_pool s.2 x →
  x ∉ tree (look s.1) Tables.kernel_slots 3 k → look s'.1 x j = look s.1 x j.
Proof.
  intros Hx Hj Hp Hn. apply (k_elsewhere _ _ _ _ _ Hk). split; [done|]. split; [done|]. split; [done|].
  left. by rewrite Hpage.
Qed.

Lemma in_kernel_lower p x j : p ∈ ps → x ∈ lower_tree s.1 p → 0 ≤ j < 512 → look s'.1 x j = look s.1 x j.
Proof.
  intros Hp Hx Hj. destruct (one_lower_table p x Hp Hx). apply in_kernel_else; try done.
  intros Hx'. by apply (sp_kernel_apart _ _ _ Hok p x).
Qed.

Lemma in_kernel_tree p : p ∈ ps → lower_tree s'.1 p = lower_tree s.1 p.
Proof.
  intros Hp. apply frame_tree; [apply lower_range|by apply Hok|]. intros x j Hx Hj _. by apply (in_kernel_lower p).
Qed.

Lemma in_kernel_ok : spaces_ok k ps s'.
Proof.
  pose proof (k_pool _ _ _ _ _ Hk) as Hpool. assert (good s') as Hg by apply (k_ok _ _ _ _ _ Hk).
  split.
  - pose proof (k_ok _ _ _ _ _ Hk) as H1. unfold space_ok in H1. by rewrite Hpage in H1.
  - intros p Hp. eapply frame_sound; try done; [apply lower_range|by apply Hok|].
    intros x j Hx Hj _. by apply (in_kernel_lower p).
  - intros p x Hp Hx. rewrite in_kernel_tree by done. intros Hx'. pose proof (k_grow _ _ _ _ _ Hk x) as Hgr.
    rewrite Hpage in Hgr. destruct (Hgr Hx) as [Hx2|Hx2]; [by apply (sp_kernel_apart _ _ _ Hok p x)|].
    by destruct (one_lower_table p x).
  - intros p q x Hp Hq. rewrite !in_kernel_tree by done. by apply Hok.
  - intros p j Hp Hj. pose proof (kernel_range j Hj). rewrite (in_kernel_lower p p) by (done || apply one_self).
    intros He. pose proof (sp_shared _ _ _ Hok p j Hp Hj He) as Hsh.
    pose proof (k_root _ _ _ _ _ Hk j eq_refl (kernel_range j Hj)) as Hr. cbn [root at_root] in Hr.
    rewrite Hr by (by rewrite <-Hsh). done.
Qed.

Lemma in_kernel_lower_resolve p va : p ∈ ps → va_ok va → va < KERNEL_SPACE_BASE → resolve p s'.1 va = resolve p s.1 va.
Proof.
  intros Hp Hv Hva. unfold resolve. destruct (is_canonical va); [|done].
  eapply (frame_access Tables.lower_slots); [apply lower_range|by apply Hok| |apply table_indices_ok|].
  - intros x j Hx Hj _. by apply (in_kernel_lower p).
  - rewrite <-(half_lower va Hva). by apply first_in_half.
Qed.

Lemma in_kernel_upper_resolve p va : p ∈ ps → va_ok va → KERNEL_SPACE_BASE ≤ va →
  resolve k s'.1 va = resolve k s.1 va → resolve p s'.1 va = resolve p s.1 va.
Proof.
  intros Hp Hv Hva Heq. rewrite (shared_resolve k ps s' p va in_kernel_ok Hp Hv Hva), (shared_resolve k ps s p va Hok Hp Hv Hva).
  pose proof (first_in_half va Hv) as Hf. rewrite table_indices_div, (half_kernel va Hva) in Hf.
  rewrite Heq. rewrite (in_kernel_lower p p); [done|done|apply one_self|by apply kernel_range].
Qed.
End in_kernel.

(** After a new space was made. *)
Section new.
  Context (c : Z) (s' : St).
  Hypothesis Hev : evolves (λ _, False) s s'.
  Hypothesis Hc : table_ok c.
  Hypothesis Hin : fa_pool s.2 c.
  Hypothesis Hout : ¬ fa_pool s'.2 c.
  Hypothesis Hsame : ∀ u j, table_ok u → u ≠ c → 0 ≤ j < 512 → look s'.1 u j = look s.1 u j.
  Hypothesis Hroot : ∀ j, 0 ≤ j < 512 → look s'.1 c j = if decide (j ∈ Tables.kernel_slots) then look s.1 k j else 0.

Lemma new_same x j : table_ok x → ¬ fa_pool s.2 x → 0 ≤ j < 512 → look s'.1 x j = look s.1 x j.
Proof. intros Hx Hp Hj. apply Hsame; [done| |done]. by intros ->. Qed.

Lemma new_zero j : j ∈ Tables.lower_slots → child (look s'.1) c j = None.
Proof.
  intros Hj. unfold child. rewrite Hroot by (by apply lower_range). rewrite decide_False, has_0; [done|].
  rewrite in_kernel_slots. apply in_lower_slots in Hj. lia.
Qed.

Lemma new_tree : lower_tree s'.1 c = [c].
Proof.
  unfold lower_tree, tree. f_equal. apply elem_of_nil_inv. intros x Hx.
  apply elem_of_concat in Hx as (l & (j & -> & Hj)%list_elem_of_fmap & Hx).
  unfold under in Hx. rewrite new_zero in Hx by done. by apply elem_of_nil in Hx.
Qed.

Lemma new_old p : p ∈ ps → lower_tree s'.1 p = lower_tree s.1 p ∧ sound Tables.lower_slots 3 p s'.
Proof.
  intros Hp. assert (∀ x j, x ∈ tree (look s.1) Tables.lower_slots 3 p → 0 ≤ j < 512 →
    (x = p → j ∈ Tables.lower_slots) → look s'.1 x j = look s.1 x j) as Hx.
  { intros x j Hx Hj _. destruct (one_lower_table p x Hp Hx). by apply new_same. }
  split.
  - apply frame_tree; [apply lower_range|by apply Hok|exact Hx].
  - eapply frame_sound; [apply lower_range|by apply Hok|apply Hev|apply Hev|exact Hx].
Qed.

Lemma new_kernel : tree (look s'.1) Tables.kernel_slots 3 k = tree (look s.1) Tables.kernel_slots 3 k ∧
  sound Tables.kernel_slots 3 k s' ∧
  ∀ va, va_ok va → KERNEL_SPACE_BASE ≤ va → resolve k s'.1 va = resolve k s.1 va.
Proof.
  assert (∀ x j, x ∈ tree (look s.1) Tables.kernel_slots 3 k → 0 ≤ j < 512 →
    (x = k → j ∈ Tables.kernel_slots) → look s'.1 x j = look s.1 x j) as Hx.
  { intros x j Hx Hj _. destruct (one_kernel_table x Hx). by apply new_same. }
  split; [|split].
  - apply frame_tree; [apply kernel_range|by apply Hok|exact Hx].
  - eapply frame_sound; [apply kernel_range|by apply Hok|apply Hev|apply Hev|exact Hx].
  - intros va Hv Hva. unfold resolve. destruct (is_canonical va); [|done].
    eapply (frame_access Tables.kernel_slots); [apply kernel_range|apply Hok|exact Hx|apply table_indices_ok|].
    rewrite <-(half_kernel va Hva). by apply first_in_half.
Qed.

Lemma new_ok : spaces_ok k (c :: ps) s'.
Proof.
  destruct new_kernel as (Ht & Hsk & _).
  assert (∀ p, p ∈ c :: ps → lower_tree s'.1 p = [c] ∧ p = c ∨ lower_tree s'.1 p = lower_tree s.1 p ∧ p ∈ ps) as Hcase.
  { intros p [-> | Hp]%elem_of_cons; [left; by rewrite new_tree|right]. by rewrite (proj1 (new_old p Hp)). }
  split; [done|..].
  - intros p [-> | Hp]%elem_of_cons; [|by apply new_old]. pose proof new_tree as Hnt. unfold lower_tree in Hnt.
    split; [apply Hev|done|rewrite Hnt; apply NoDup_singleton|rewrite Hnt; by intros x ->%list_elem_of_singleton|].
    intros i d Hi. by rewrite new_zero.
  - intros p x Hp. rewrite Ht. intros Hx. destruct (Hcase p Hp) as [[-> ->]|[-> Hp']]; [|by apply Hok].
    intros ->%list_elem_of_singleton. by destruct (one_kernel_table c Hx).
  - intros p q x Hp Hq Hne. destruct (Hcase p Hp) as [[-> ->]|[-> Hp']], (Hcase q Hq) as [[-> ->]|[-> Hq']]; [done|..|by apply Hok].
    + intros ->%list_elem_of_singleton Hx. by destruct (one_lower_table q c Hq' Hx).
    + intros Hx ->%list_elem_of_singleton. by destruct (one_lower_table p c Hp' Hx).
  - intros p j Hp Hj. pose proof (kernel_range j Hj). destruct (one_kernel_table k (one_self _ _)) as [Hkt Hkp].
    rewrite (new_same k j) by done. destruct (Hcase p Hp) as [[_ ->]|[_ Hp']].
    + by rewrite Hroot, decide_True.
    + destruct (one_lower_table p p Hp' (one_self _ _)). rewrite new_same by done. by apply Hok.
Qed.

Lemma new_resolve p va : p ∈ ps → va_ok va → resolve p s'.1 va = resolve p s.1 va.
Proof.
  intros Hp Hv. destruct (decide (va < KERNEL_SPACE_BASE)) as [Hva|Hva].
  - unfold resolve. destruct (is_canonical va); [|done].
    eapply (frame_access Tables.lower_slots); [apply lower_range|by apply Hok| |apply table_indices_ok|].
    + intros x j Hx Hj _. destruct (one_lower_table p x Hp Hx). by apply new_same.
    + rewrite <-(half_lower va Hva). by apply first_in_half.
  - apply Z.nlt_ge in Hva. rewrite (shared_resolve k (c :: ps) s' p va new_ok) by (done || by right).
    rewrite (shared_resolve k ps s p va Hok Hp Hv Hva). destruct new_kernel as (_ & _ & ->); [|done|done].
    pose proof (first_in_half va Hv) as Hf. rewrite table_indices_div, (half_kernel va Hva) in Hf.
    destruct (one_lower_table p p Hp (one_self _ _)). rewrite new_same; [done|done|done|by apply kernel_range].
Qed.

(** What the new space sees. *)
Lemma new_view va : va_ok va →
  resolve c s'.1 va = if va <? KERNEL_SPACE_BASE then None else resolve k s.1 va.
Proof.
  intros Hv. destruct (Z.ltb_spec va KERNEL_SPACE_BASE) as [Hva|Hva].
  - unfold resolve. rewrite (proj2 Hv). pose proof (first_in_half va Hv) as Hf. rewrite (half_lower va Hva) in Hf.
    pose proof (table_indices_ok va) as Hix. destruct (table_indices va) as [|j v]; [done|].
    cbn [first_in] in Hf. cbn [access]. rewrite Hroot by (by apply lower_range). rewrite decide_False, has_0; [done|].
    rewrite in_kernel_slots. apply in_lower_slots in Hf. lia.
  - rewrite (shared_resolve k (c :: ps) s' c va new_ok) by (done || by left).
    pose proof (first_in_half va Hv) as Hf. rewrite table_indices_div, (half_kernel va Hva) in Hf. cbn [first_in] in Hf.
    rewrite Hroot, decide_True by (done || by apply kernel_range). destruct new_kernel as (_ & _ & ->); [|done|done].
    destruct (has PRESENT _) eqn:He; [done|]. unfold resolve. rewrite (proj2 Hv), table_indices_div. cbn [access].
    by rewrite He.
Qed.
End new.
End one.

(** ** What each operation leaves of the others *)
Definition isolated (k : Z) (ps : list Z) (op : space_op) (s : St) (out : res Empty_set (list Z) * St) : Prop :=
  ∃ ps' s', out = (Ok ps', s') ∧ spaces_ok k ps' s' ∧
    (ps' = ps ∨ op = NewSpace ∧ ∃ c, ps' = c :: ps ∧ ∀ va, va_ok va →
       resolve c s'.1 va = if va <? KERNEL_SPACE_BASE then None else resolve k s.1 va) ∧
    (∀ p va, p ∈ ps → va_ok va → ¬ touched op p va → resolve p s'.1 va = resolve p s.1 va) ∧
    (∀ va, va_ok va → KERNEL_SPACE_BASE ≤ va → ¬ touched op k va → resolve k s'.1 va = resolve k s.1 va).

Section isolated.
  Context (k : Z) (ps : list Z) (s : St).
  Hypothesis Hok : spaces_ok k ps s.

Lemma kernel_space page : KERNEL_SPACE_BASE ≤ page → space_ok (at_root k) page s.
Proof. intros Hpg. unfold space_ok. rewrite half_kernel by done. apply Hok. Qed.

(** An operation of the kernel's half, which every space shares. *)
Lemma isolated_kernel page s' op : KERNEL_SPACE_BASE ≤ page → keeps (at_root k) page false s s' →
  (∀ p va, KERNEL_SPACE_BASE ≤ va → ¬ touched op p va → ¬ touched op k va) →
  (∀ va, same_half page va → ¬ touched op k va → resolve k s'.1 va = resolve k s.1 va) →
  isolated k ps op s (Ok ps, s').
Proof.
  intros Hpg Hk Hto Hother. pose proof (half_kernel page Hpg) as Hh.
  assert (∀ va, va_ok va → KERNEL_SPACE_BASE ≤ va → ¬ touched op k va → resolve k s'.1 va = resolve k s.1 va) as Hrk.
  { intros va Hv Hva Hne. apply Hother; [|done]. split; [done|]. by rewrite half_kernel, Hh. }
  exists ps, s'. split; [done|]. split; [by apply (in_kernel_ok k ps s Hok page)|]. split; [by left|]. split; [|done].
  intros p va Hp Hv Hnt. destruct (decide (va < KERNEL_SPACE_BASE)) as [Hva|Hva].
  - by apply (in_kernel_lower_resolve k ps s Hok page).
  - apply Z.nlt_ge in Hva. apply (in_kernel_upper_resolve k ps s Hok page s' Hh Hk); try done. apply Hrk; eauto.
Qed.

Lemma isolated_kernel_map page frame flags : va_ok page → page mod 4096 = 0 → KERNEL_SPACE_BASE ≤ page →
  table_ok (frame_start frame) → isolated k ps (KernelMap page frame flags) s (run_op k (KernelMap page frame flags) ps s).
Proof.
  intros Hv Hal Hpg Hf. destruct (map_facts (at_root k) page frame flags s Hv Hal Hf (kernel_space page Hpg)) as (r & s' & E & Hk & Ha).
  cbn [run_op]. rewrite E. destruct (f_user flags) eqn:Hu.
  { assert (s' = s ∧ ∃ e, r = Err e) as [-> [e ->]].
    { unfold Tables.map in E. rewrite Hu in E. destruct (Z.ltb_spec page KERNEL_SPACE_BASE); [lia|]. cbn [Bool.eqb negb] in E.
      injection E as <- <-. split; [done|by eexists]. }
    exists ps, s. split; [done|]. split; [done|]. split; [by left|]. done. }
  destruct r as [[]|e| |]; try done; (apply (isolated_kernel page); [done|done|by cbn|]).
  - intros va Hva Hne. destruct Ha as (_ & _ & Ha). specialize (Ha va Hva). cbn [root at_root] in Ha. rewrite Ha.
    rewrite decide_False; [done|]. intros Heq. apply Hne. cbn. split; [|done]. destruct Hva as [Hva Hh].
    apply Z.nlt_ge. intros Hlt. rewrite (half_lower va Hlt), (half_kernel page Hpg) in Hh.
    assert (0 ∈ Tables.kernel_slots) as H0 by (rewrite <-Hh; by apply in_lower_slots). apply in_kernel_slots in H0. lia.
  - intros va Hva _. destruct Ha as (Ha & _). by apply Ha.
Qed.

Lemma isolated_kernel_unmap page : va_ok page → KERNEL_SPACE_BASE ≤ page →
  isolated k ps (KernelUnmap page) s (run_op k (KernelUnmap page) ps s).
Proof.
  intros Hv Hpg. pose proof (kernel_space page Hpg) as Hsp. pose proof isolated_kernel as Hik. destruct s as [m f].
  destruct (unmap_facts (at_root k) page m f Hv Hsp) as (r & m' & E & Hk & Ha). cbn [run_op fst snd]. rewrite E.
  destruct r as [fr|e| |]; try done; (apply (Hik page); [done|done|by cbn|]).
  - intros va Hva Hne. destruct Ha as (_ & _ & Ha). specialize (Ha va Hva). cbn [root at_root] in Ha. cbn [fst]. rewrite Ha.
    rewrite decide_False; [done|]. intros Heq. apply Hne. cbn. split; [|done]. destruct Hva as [Hva Hh].
    apply Z.nlt_ge. intros Hlt. rewrite (half_lower va Hlt), (half_kernel page Hpg) in Hh.
    assert (0 ∈ Tables.kernel_slots) as H0 by (rewrite <-Hh; by apply in_lower_slots). apply in_kernel_slots in H0. lia.
  - intros va Hva _. destruct Ha as (-> & _). done.
Qed.

Lemma isolated_new : isolated k ps NewSpace s (run_op k NewSpace ps s).
Proof.
  destruct (one_kernel_table k ps s Hok k (one_self _ _ _)) as [Hkt Hkp].
  destruct (new_space_spec s k (so_good _ _ _ _ (sp_kernel _ _ _ Hok)) Hkt Hkp) as (r & s' & E & Hr).
  cbn [run_op]. rewrite E. destruct r as [T|e| |]; try done.
  - destruct Hr as (c & -> & Hev & Hc & Hin & Hout & Hsame & Hroot). cbn [root at_root].
    exists (c :: ps), s'. split; [done|]. split; [by apply (new_ok k ps s Hok c)|]. split; [right; split; [done|]|split].
    + exists c. split; [done|]. intros va Hv. by apply (new_view k ps s Hok c).
    + intros p va Hp Hv _. by apply (new_resolve k ps s Hok c).
    + intros va Hv Hva _. by apply (new_kernel k ps s Hok c).
  - destruct Hr as [Hev _]. assert (KERNEL_SPACE_BASE ≤ KERNEL_SPACE_BASE) as Hpg by done.
    assert (same_tree (half KERNEL_SPACE_BASE) 3 k s s') as Hst.
    { apply same_tree_idle; [apply half_range|by apply kernel_space|done]. }
    apply (isolated_kernel KERNEL_SPACE_BASE); [done| |by cbn|].
    + apply (keeps_same_tree (at_root k)); [by apply kernel_space|exact Hst|]. intros _ j Hj _. cbn [root at_root].
      apply (ev_same _ _ _ Hev); [exact Hkt|exact Hj|by intros []|exact Hkp].
    + intros va [Hv Hh] _. by apply (same_tree_resolve (at_root k) KERNEL_SPACE_BASE).
Qed.

Lemma isolated_user_map q page frame flags : q ∈ ps → va_ok page → page mod 4096 = 0 → page < KERNEL_SPACE_BASE →
  table_ok (frame_start frame) → isolated k ps (UserMap q page frame flags) s (run_op k (UserMap q page frame flags) ps s).
Proof.
  intros Hq Hv Hal Hpg Hf. pose proof (half_lower page Hpg) as Hh.
  assert (space_ok (at_root q) page s) as Hsp by (unfold space_ok; rewrite Hh; by apply Hok).
  destruct (map_facts (at_root q) page frame flags s Hv Hal Hf Hsp) as (r & s' & E & Hk & Ha).
  assert (∀ va, va_ok va → va < KERNEL_SPACE_BASE → va / 4096 ≠ page / 4096 → resolve q s'.1 va = resolve q s.1 va) as Hrq.
  { intros va Hva Hlt Hne. assert (same_half page va) as Hsh by (split; [done|by rewrite half_lower, Hh]).
    destruct r as [[]|e| |]; try done.
    - destruct Ha as (_ & _ & Ha). specialize (Ha va Hsh). cbn [root at_root] in Ha. rewrite Ha. by rewrite decide_False.
    - destruct Ha as (Ha & _). by apply Ha. }
  assert (isolated k ps (UserMap q page frame flags) s (Ok ps, s')) as Hiso.
  { exists ps, s'. split; [done|]. split; [by apply (in_space_ok k ps s Hok q page (f_user flags))|]. split; [by left|]. split.
    - intros p va Hp Hva Hnt. cbn [touched] in Hnt. destruct (decide (va < KERNEL_SPACE_BASE)) as [Hlt|Hlt].
      + destruct (decide (p = q)) as [-> | Hne]; [apply Hrq; tauto|].
        by apply (in_space_lower_resolve k ps s Hok q page (f_user flags)).
      + apply Z.nlt_ge in Hlt. by apply (in_space_upper_resolve k ps s Hok q page (f_user flags)).
    - intros va Hva Hlt _. by apply (in_space_kernel_resolve k ps s Hok q page (f_user flags)). }
  cbn [run_op]. rewrite E. by destruct r.
Qed.
End isolated.
End spaces.
