(* ===== verification/PageThms.v ===== *)
(** * Page tables: what they promise

    The properties of mapping, unmapping and of address spaces side by
    side, with instances on a machine of one identity-mapped gigabyte and
    the kernel's own frame allocator. *)

From S2P Require Import Prelude Words PhysMem FrameAlloc FrameAllocProofs FrameAllocThms Bytes Memory HalPaging PageTables PageWalk PageTree PageMap PageMapThms FramesZeroed Spaces.
Local Open Scope Z_scope.

Abbreviation frame_ok := PageWalk.table_ok (only parsing).

(** ** A machine *)
Definition boot_map : Map.MemoryMap :=
  (Map.push Map.new {| kind := Usable; start_phys_addr := 0x100000; page_count := 16; attributes := Map.attributes_none |}).2.

Definition boot_frames : BitmapFrameAllocator :=
  match FrameAlloc.new (replicate 8 0) boot_map with Ok a => a | _ => adopt [] boot_map false end.

Lemma boot_frames_new : FrameAlloc.new (replicate 8 0) boot_map = Ok boot_frames.
Proof. vm_compute. reflexivity. Qed.

Lemma boot_frames_inv : inv boot_frames.
Proof.
  apply (new_inv (replicate 8 0) boot_map); [|vm_compute; discriminate|apply boot_frames_new].
  refine (bool_decide_unpack _ _). vm_compute. exact I.
Qed.

(** The firmware's root at 0x1000 and one gigabyte of identity map. *)
Definition boot_mem : Mem :=
  write_entry (write_entry {| ram := ∅; tlb := ∅ |} 0x1000 0 0x2003) 0x2000 0 0x83.
Definition boot : Mem * KernelFrames := (boot_mem, Zeroed.new boot_frames Window.identity).
Definition boot_tables : PageTables := {| root := 0x1000; base := 0 |}.

Lemma boot_good : good boot.
Proof.
  split.
  - split; [exact boot_frames_inv|]. vm_compute. done.
  - change (Ram.wf boot_mem). unfold boot_mem, write_entry. apply Ram.write64_wf. apply Ram.write64_wf. unfold Ram.wf. apply map_Forall_empty.
Qed.

Lemma boot_sound : sound Tables.kernel_slots 3 0x1000 boot.
Proof.
  assert (tree (look boot.1) Tables.kernel_slots 3 0x1000 = [0x1000]) as Ht by (vm_compute; reflexivity).
  split; [exact boot_good|split; [lia|reflexivity]|rewrite Ht; apply NoDup_singleton|..].
  - rewrite Ht. intros x ->%list_elem_of_singleton (f & Hf & He). unfold FRAME_SIZE in He.
    assert (f = 1) as -> by lia. revert Hf. apply (bool_decide_unpack (1 ∉ _)). vm_compute. exact I.
  - assert (Forall (λ i, child (look boot.1) 0x1000 i = None) Tables.kernel_slots) as Hc.
    { refine (bool_decide_unpack _ _). vm_compute. exact I. }
    rewrite Forall_forall in Hc. intros i c Hi Hch. by rewrite (Hc i Hi) in Hch.
Qed.

Definition is_ok {E A} (r : res E A) : bool := match r with Ok _ => true | _ => false end.

Section properties.
  Context {F : Type} `{FrameAllocatorLaws F}.

(** C20: mapping a page, on every branch: [map] always answers; when it
    answers [Ok], the page was not mapped before and now leads to the frame
    with exactly the rights asked for (ring 3 included), every other page of
    the half leads where it led with the same rights, and the cached
    translations stay true; when it fails, no page of the half leads
    elsewhere.  Either way the tables stay a tree of distinct tables, and no
    entry outside that tree and the free frames has been written. *)
Theorem page_map_exact (T : PageTables) page frame flags (s : Mem * F) :
  va_ok page → page mod 4096 = 0 → frame_ok (frame_start frame) → space_ok T page s →
  ∃ r s', map_page T {| page_start := page |} frame flags s = (r, s') ∧
    space_ok T page s' ∧
    (∀ u j, elsewhere T page s u j → read_entry s'.1 u j = read_entry s.1 u j) ∧
    (coherent (root T) page s.1 → coherent (root T) page s'.1) ∧
    map_answer T page frame flags s s' r.
Proof.
  intros Hv Hal Hf Hs. destruct (map_facts T page frame flags s Hv Hal Hf Hs) as (r & s' & E & Hk & Ha).
  exists r, s'. split; [exact E|]. split; [apply Hk|]. split; [apply Hk|]. split; [apply Hk|done].
Qed.

(** unmapping a page, on every branch: [unmap] always answers; [Ok] gives
    the frame the page led to, after which the page leads nowhere and its
    translation is not cached, while every other page of the half leads
    where it led; a page of the lower half, a page that is not mapped and a
    large page are each refused and nothing changes. *)
Theorem page_unmap_exact (T : PageTables) page m (f : F) :
  va_ok page → space_ok T page (m, f) →
  ∃ r m', Tables.unmap T page m = (r, m') ∧
    space_ok T page (m', f) ∧
    (∀ u j, elsewhere T page (m, f) u j → read_entry m' u j = read_entry m u j) ∧
    (coherent (root T) page m → coherent (root T) page m') ∧
    unmap_answer T page m m' r.
Proof.
  intros Hv Hs. destruct (unmap_facts T page m f Hv Hs) as (r & m' & E & Hk & Ha).
  exists r, m'. split; [exact E|]. split; [apply Hk|]. split; [apply Hk|]. split; [apply Hk|done].
Qed.

(** C19: address spaces are strangers to each other.  Whatever sequence of
    operations came before, one more (a mapping or unmapping in the
    kernel's half, a mapping in one process's half, a new space) never
    fails to answer, keeps the spaces apart and the kernel's half shared,
    and changes only the one translation it is about: in the space it is
    about, or for the kernel's half in every space that shares the entry.
    A new space sees nothing below and the kernel's half as it is. *)
Theorem spaces_isolated (window k : Z) (ps : list Z) (op : space_op) (s : Mem * F) :
  spaces_ok k ps s → op_ok ps op →
  ∃ ps' s', run_op window k op ps s = (Ok ps', s') ∧ spaces_ok k ps' s' ∧
    (ps' = ps ∨ op = NewSpace ∧ ∃ c, ps' = c :: ps ∧ ∀ va, va_ok va →
       resolve c s'.1 va = if va <? KERNEL_SPACE_BASE then None else resolve k s.1 va) ∧
    (∀ p va, p ∈ ps → va_ok va → ¬ touched op p va → resolve p s'.1 va = resolve p s.1 va) ∧
    (∀ va, va_ok va → KERNEL_SPACE_BASE ≤ va → ¬ touched op k va → resolve k s'.1 va = resolve k s.1 va).
Proof.
  intros Hok Hop. destruct op as [page frame flags|page| |q page frame flags]; cbn [op_ok run_op touched] in *.
  - destruct Hop as (Hv & Hal & Hpg & Hf). by apply (isolated_kernel_map window k ps s Hok).
  - destruct Hop as (Hv & Hpg). by apply (isolated_kernel_unmap window k ps s Hok).
  - by apply (isolated_new window k ps s Hok).
  - destruct Hop as (Hq & Hv & Hal & Hpg & Hf). by apply (isolated_user_map window k ps s Hok).
Qed.
End properties.

Lemma boot_space : space_ok boot_tables KERNEL_HEAP_START boot.
Proof. unfold space_ok. rewrite half_kernel by done. exact boot_sound. Qed.

Lemma page_map_exact_witness :
  let flags := Flags.kernel true false in
  let frame := {| frame_start := 0x5000 |} in
  va_ok KERNEL_HEAP_START ∧
  ∃ s', map_page boot_tables {| page_start := KERNEL_HEAP_START |} frame flags boot = (Ok (), s') ∧
    resolve 0x1000 s'.1 KERNEL_HEAP_START =
      Some {| a_base := 0x5000; a_size := 4096; a_writable := true; a_user := false; a_execute := false |}.
Proof.
  intros flags frame. assert (va_ok KERNEL_HEAP_START) as Hv by (refine (bool_decide_unpack _ _); vm_compute; exact I).
  split; [exact Hv|].
  destruct (page_map_exact boot_tables KERNEL_HEAP_START frame flags boot Hv) as (r & s' & E & _ & _ & _ & Ha).
  - vm_compute. reflexivity.
  - refine (bool_decide_unpack _ _). vm_compute. exact I.
  - exact boot_space.
  - exists s'. assert (r = Ok ()) as ->.
    { assert (is_ok r = true) as Hr.
      { change r with (r, s').1. rewrite <-E. vm_compute. reflexivity. }
      by destruct r as [[]|e| |]. }
    split; [exact E|]. destruct Ha as (_ & _ & Ha).
    specialize (Ha KERNEL_HEAP_START (conj Hv eq_refl)). rewrite decide_True in Ha by done. exact Ha.
Defined.

(** The same machine with one page of the heap mapped. *)
Definition mapped : Mem * KernelFrames :=
  (map_page boot_tables {| page_start := KERNEL_HEAP_START |} {| frame_start := 0x5000 |} (Flags.kernel true false) boot).2.

Lemma mapped_space : space_ok boot_tables KERNEL_HEAP_START mapped.
Proof.
  assert (va_ok KERNEL_HEAP_START) as Hv by (refine (bool_decide_unpack _ _); vm_compute; exact I).
  destruct (map_facts boot_tables KERNEL_HEAP_START {| frame_start := 0x5000 |} (Flags.kernel true false) boot Hv)
    as (r & s' & E & Hk & _).
  - vm_compute. reflexivity.
  - refine (bool_decide_unpack _ _). vm_compute. exact I.
  - exact boot_space.
  - unfold mapped. cbn [map_page kernel_mapper page_start]. rewrite E. apply Hk.
Qed.

Lemma page_unmap_exact_witness :
  va_ok KERNEL_HEAP_START ∧
  ∃ m', Tables.unmap boot_tables KERNEL_HEAP_START mapped.1 = (Ok {| frame_start := 0x5000 |}, m') ∧
    resolve 0x1000 m' KERNEL_HEAP_START = None.
Proof.
  assert (va_ok KERNEL_HEAP_START) as Hv by (refine (bool_decide_unpack _ _); vm_compute; exact I).
  split; [exact Hv|]. pose proof mapped_space as Hs. rewrite (surjective_pairing mapped) in Hs.
  destruct (page_unmap_exact boot_tables KERNEL_HEAP_START mapped.1 mapped.2 Hv Hs) as (r & m' & E & _ & _ & _ & Ha).
  exists m'. assert (r = Ok {| frame_start := 0x5000 |}) as ->.
  { assert (match r with Ok {| frame_start := f |} => f =? 0x5000 | _ => false end = true) as Hr.
    { change r with (r, m').1. rewrite <-E. vm_compute. reflexivity. }
    clear -Hr. destruct r as [[f]|e| |]; [|discriminate Hr..]. apply Z.eqb_eq in Hr. by rewrite Hr. }
  split; [exact E|]. destruct Ha as (_ & _ & Ha). specialize (Ha KERNEL_HEAP_START (conj Hv eq_refl)).
  rewrite decide_True in Ha by done. exact Ha.
Defined.

Lemma boot_spaces : spaces_ok 0x1000 [] boot.
Proof. split; [exact boot_sound|intros; exfalso; by eapply not_elem_of_nil..]. Qed.

Lemma spaces_isolated_witness :
  ∃ c s', run_op 0 0x1000 NewSpace [] boot = (Ok [c], s') ∧ spaces_ok 0x1000 [c] s' ∧
    resolve c s'.1 0x400000 = None.
Proof.
  destruct (spaces_isolated 0 0x1000 [] NewSpace boot boot_spaces I) as (ps' & s' & E & Hok & Hps & _).
  assert (length ps' = 1%nat) as Hl.
  { assert (match (Ok (E:=Empty_set) ps', s').1 with Ok l => length l | _ => 0%nat end = 1%nat) as Hr; [|exact Hr].
    rewrite <-E. vm_compute. reflexivity. }
  destruct Hps as [-> | [_ (c & -> & Hc)]]; [done|]. exists c, s'. split; [exact E|]. split; [exact Hok|].
  rewrite (Hc 0x400000); [done|]. refine (bool_decide_unpack _ _). vm_compute. exact I.
Defined.
