(* ===== verification/ElfThms.v ===== *)
(** * ELF64 programs: what is accepted

    [loads] reads the loadable program headers of a file with no checks at
    all; [acceptable] says what a file has to satisfy.  [elf_parse_exact]:
    the reader accepts exactly the acceptable files, and answers exactly
    their segments. *)

From S2P Require Import Prelude Words Bytes Elf.
Local Open Scope Z_scope.

Module ElfSpec.
Import Elf.

(** A little-endian field of [n] bytes. *)
Definition field (l : list Z) (at_ n : Z) : Z := le_decode (take (Z.to_nat n) (drop (Z.to_nat at_) l)).

Definition header_of (file : list Z) (i : Z) : list Z :=
  take (Z.to_nat 56) (drop (Z.to_nat (field file 32 8 + i * 56)) file).

Definition segment_of (h : list Z) : Segment :=
  {| file_offset := field h 8 8; file_size := field h 32 8; at_ := field h 16 8;
     memory_size := field h 40 8; flags := field h 4 4 |}.

Definition load_of (file : list Z) (i : Z) : option Segment :=
  let h := header_of file i in if field h 0 4 =? 1 then Some (segment_of h) else None.

Definition loads (file : list Z) : list Segment := omap (load_of file) (seqZ 0 (field file 56 2)).

(** Inside the file, no smaller in memory, not empty, below the kernel's
    half, and not both writable and executable. *)
Definition segment_ok (file_len user_space_end : Z) (s : Segment) : Prop :=
  file_offset s + file_size s ≤ file_len ∧
  file_size s ≤ memory_size s ∧
  0 < memory_size s ∧
  at_ s + memory_size s ≤ user_space_end ∧
  ¬ (writable s = true ∧ executable s = true).

#[export] Instance segment_ok_dec a b s : Decision (segment_ok a b s).
Proof. unfold segment_ok. apply _. Defined.

(** A linked 64-bit x86 executable whose program headers are in the file. *)
Definition header_ok (file : list Z) : Prop :=
  64 ≤ len file ∧ take 4 file = MAGIC ∧ field file 4 1 = 2 ∧ field file 5 1 = 1 ∧ field file 6 1 = 1 ∧
  field file 16 2 = 2 ∧ field file 18 2 = 0x3E ∧ field file 54 2 = 56 ∧ field file 56 2 ≠ 0 ∧
  field file 32 8 + field file 56 2 * 56 ≤ len file.

#[export] Instance header_ok_dec file : Decision (header_ok file).
Proof. unfold header_ok. apply _. Defined.

Definition in_segment (e : Z) (s : Segment) : Prop :=
  at_ s ≤ e < at_ s + memory_size s ∧ executable s = true.

Definition acceptable (file : list Z) (user_space_end : Z) : Prop :=
  header_ok file ∧
  Forall (segment_ok (len file) user_space_end) (loads file) ∧
  (1 ≤ length (loads file) ≤ MAX_SEGMENTS)%nat ∧
  Exists (in_segment (field file 24 8)) (loads file).

(** The table of eight: the segments, then empty slots. *)
Definition pad (l : list Segment) : list (option Segment) :=
  (Some <$> l) ++ replicate (MAX_SEGMENTS - length l) None.

Lemma segments_pad l : omap id (pad l) = l.
Proof.
  unfold pad. rewrite omap_app. replace (omap id (replicate _ None)) with (@nil Segment).
  - rewrite app_nil_r. induction l as [|s l IH]; [done|]. cbn. by rewrite IH.
  - induction (MAX_SEGMENTS - length l)%nat as [|n IH]; [done|]. cbn. exact IH.
Qed.

Lemma pad_snoc l s : (length l < MAX_SEGMENTS)%nat →
  set_index (pad l) (Z.of_nat (length l)) (Some s) = Some (pad (l ++ [s])).
Proof.
  intros Hl. unfold set_index, pad, len. rewrite length_app, length_fmap, length_replicate.
  destruct (Z.leb_spec 0 (Z.of_nat (length l))); [|lia].
  destruct (Z.ltb_spec (Z.of_nat (length l)) (Z.of_nat (length l + (MAX_SEGMENTS - length l)))); [|lia].
  cbn [andb]. f_equal. rewrite Nat2Z.id, length_app, fmap_app. cbn [length].
  replace (MAX_SEGMENTS - length l)%nat with (S (MAX_SEGMENTS - (length l + 1))) by lia.
  cbn [replicate]. rewrite <-app_assoc. rewrite insert_app_r_alt by (rewrite length_fmap; lia).
  rewrite length_fmap, Nat.sub_diag. done.
Qed.

(** ** Fields *)
Lemma field_ok l a n : bytes_ok l → 0 ≤ n → 0 ≤ field l a n < 2 ^ (8 * n).
Proof.
  intros Hl Hn. unfold field. destruct (le_decode_bound (take (Z.to_nat n) (drop (Z.to_nat a) l))) as [H1 H2].
  { by apply Forall_take, Forall_drop. }
  split; [done|]. eapply Z.lt_le_trans; [exact H2|]. apply Z.pow_le_mono_r; [lia|].
  unfold len. rewrite length_take. lia.
Qed.

Lemma slice_field l a n : 0 ≤ a → 0 ≤ n → a + n ≤ len l →
  le_decode <$> slice l a (a + n) = Some (field l a n).
Proof. intros. rewrite slice_Some by lia. cbn. unfold field. do 3 f_equal. lia. Qed.

Lemma index_field l a : bytes_ok l → 0 ≤ a → a + 1 ≤ len l → index l a = Some (field l a 1).
Proof.
  intros Hl Ha Hl'. unfold index, field. destruct (Z.ltb_spec a 0); [lia|].
  destruct (lookup_lt_is_Some_2 l (Z.to_nat a)) as [x Hx]; [unfold len in *; lia|].
  rewrite (drop_S l x) by done. rewrite Hx. change (Z.to_nat 1) with 1%nat. cbn [take le_decode]. rewrite take_0. f_equal. cbn. lia.
Qed.

Lemma u16_field {E} l a : 0 ≤ a → a + 2 ≤ len l → u16_at (E:=E) l a = Ok (field l a 2).
Proof. intros. unfold u16_at. by rewrite slice_field by lia. Qed.
Lemma u32_field {E} l a : 0 ≤ a → a + 4 ≤ len l → u32_at (E:=E) l a = Ok (field l a 4).
Proof. intros. unfold u32_at. by rewrite slice_field by lia. Qed.
Lemma u64_field {E} l a : 0 ≤ a → a + 8 ≤ len l → u64_at (E:=E) l a = Ok (field l a 8).
Proof. intros. unfold u64_at. by rewrite slice_field by lia. Qed.

(** ** One segment *)
Definition seg_width (s : Segment) : Prop :=
  0 ≤ file_offset s < 2 ^ 64 ∧ 0 ≤ file_size s < 2 ^ 64 ∧ 0 ≤ at_ s < 2 ^ 64 ∧ 0 ≤ memory_size s < 2 ^ 64.

Lemma check_segment_spec flen uend s : seg_width s → flen < 2 ^ 64 → uend < 2 ^ 64 →
  if bool_decide (segment_ok flen uend s) then check_segment flen uend s = Ok ()
  else ∃ e, check_segment flen uend s = Err e.
Proof.
  intros (Ho & Hf & Ha & Hm) Hl Hu. unfold check_segment, checked_add, segment_ok, writable, executable.
  case_bool_decide as Hok.
  - destruct Hok as (H1 & H2 & H3 & H4 & H5).
    destruct (Z.ltb_spec (file_offset s + file_size s) (2 ^ 64)); [|lia].
    destruct (Z.ltb_spec flen (file_offset s + file_size s)); [lia|]. cbn [mbind res_bind].
    destruct (Z.ltb_spec (memory_size s) (file_size s)); [lia|]. cbn [mbind res_bind].
    destruct (Z.eqb_spec (memory_size s) 0); [lia|]. cbn [mbind res_bind].
    destruct (Z.ltb_spec (at_ s + memory_size s) (2 ^ 64)); [|lia].
    destruct (Z.leb_spec (at_ s + memory_size s) uend); [|lia]. cbn [mbind res_bind].
    destruct (negb _), (negb _); try done. by destruct H5.
  - destruct (Z.ltb_spec (file_offset s + file_size s) (2 ^ 64)); [|by eexists].
    destruct (Z.ltb_spec flen (file_offset s + file_size s)); [by eexists|]. cbn [mbind res_bind].
    destruct (Z.ltb_spec (memory_size s) (file_size s)); [by eexists|]. cbn [mbind res_bind].
    destruct (Z.eqb_spec (memory_size s) 0); [by eexists|]. cbn [mbind res_bind].
    destruct (Z.ltb_spec (at_ s + memory_size s) (2 ^ 64)); [|by eexists].
    destruct (Z.leb_spec (at_ s + memory_size s) uend); [|by eexists]. cbn [mbind res_bind].
    destruct (negb (Z.land (flags s) FLAG_WRITE =? 0)), (negb (Z.land (flags s) FLAG_EXECUTE =? 0));
      cbn [andb]; try (by eexists); destruct Hok; split_and!; try lia; naive_solver.
Qed.

(** ** The loop *)
Section loop.
  Context (file : list Z) (uend : Z).
  Hypothesis Hok : bytes_ok file.
  Hypothesis Hlen : len file < 2 ^ 63.
  Hypothesis Huend : uend < 2 ^ 64.
Let table := field file 32 8.
Let count := field file 56 2.
  Hypothesis Htable : table + count * 56 ≤ len file.

Lemma segment_width h : bytes_ok h → seg_width (segment_of h).
Proof.
  intros Hh. unfold seg_width, segment_of. cbn [file_offset file_size at_ memory_size].
  split_and!; eapply (field_ok _ _ 8 Hh); lia.
Qed.

Lemma header_bytes i : bytes_ok (header_of file i).
Proof. by apply Forall_take, Forall_drop. Qed.

Lemma header_slice i : 0 ≤ i < count →
  slice file (wrap 64 (table + i * 56)) (wrap 64 (table + i * 56) + 56) = Some (header_of file i) ∧
  len (header_of file i) = 56.
Proof.
  intros Hi. pose proof (field_ok file 32 8 Hok) as Ht. fold table in Ht.
  assert (0 ≤ table + i * 56 ∧ table + i * 56 + 56 ≤ len file) by nia.
  unfold wrap. rewrite Z.mod_small by lia.
  rewrite slice_Some by lia. unfold header_of. fold table.
  replace (table + i * 56 + 56 - (table + i * 56)) with 56 by lia. split; [done|].
  unfold len in *. rewrite length_take, length_drop. lia.
Qed.

Lemma parse_header_spec acc i : 0 ≤ i < count → (length acc ≤ MAX_SEGMENTS)%nat →
  match load_of file i with
  | None => parse_header file uend table 56 (pad acc, length acc) i = Ok (pad acc, length acc)
  | Some s =>
      if bool_decide (segment_ok (len file) uend s ∧ (length acc < MAX_SEGMENTS)%nat)
      then parse_header file uend table 56 (pad acc, length acc) i = Ok (pad (acc ++ [s]), length (acc ++ [s]))
      else ∃ e, parse_header file uend table 56 (pad acc, length acc) i = Err e
  end.
Proof.
  intros Hi Hacc. destruct (header_slice i Hi) as [Hs Hl]. pose proof (header_bytes i) as Hb.
  unfold load_of, parse_header, PROGRAM_HEADER_BYTES. rewrite Hs. cbn [expect mbind res_bind].
  set (h := header_of file i) in *.
  unfold At.SEGMENT_TYPE, At.SEGMENT_FILE_OFFSET, At.SEGMENT_FILE_SIZE, At.SEGMENT_VIRTUAL_ADDRESS,
    At.SEGMENT_MEMORY_SIZE, At.SEGMENT_FLAGS.
  rewrite !u32_field, !u64_field by lia. cbn [mbind res_bind].
  unfold PT_LOAD. destruct (Z.eqb_spec (field h 0 4) 1) as [Hk|Hk]; cbn [negb]; [|done].
  fold (segment_of h). pose proof (check_segment_spec (len file) uend (segment_of h) (segment_width h Hb)) as Hc.
  specialize (Hc ltac:(lia) Huend). case_bool_decide as Hsok.
  - rewrite Hc. cbn [mbind res_bind]. destruct (Nat.eqb_spec (length acc) MAX_SEGMENTS) as [He|He].
    + rewrite bool_decide_false; [by eexists|]. intros [_ ?]. lia.
    + rewrite bool_decide_true; [|split; [done|lia]]. rewrite pad_snoc by lia. cbn [expect mbind res_bind].
      rewrite length_app. cbn [length]. do 2 f_equal. lia.
  - rewrite bool_decide_false by tauto. destruct Hc as [e ->]. by eexists.
Qed.

Lemma parse_headers_spec l acc : Forall (λ i, 0 ≤ i < count) l → (length acc ≤ MAX_SEGMENTS)%nat →
  let found := acc ++ omap (load_of file) l in
  if bool_decide (Forall (segment_ok (len file) uend) (omap (load_of file) l) ∧ (length found ≤ MAX_SEGMENTS)%nat)
  then foldM (parse_header file uend table 56) (pad acc, length acc) l = Ok (pad found, length found)
  else ∃ e, foldM (parse_header file uend table 56) (pad acc, length acc) l = Err e.
Proof.
  intros Hl. revert acc. induction Hl as [|i l Hi Hl IH]; intros acc Hacc; cbn [foldM].
  { cbn. rewrite app_nil_r. by rewrite bool_decide_true. }
  pose proof (parse_header_spec acc i Hi Hacc) as Hh. cbn [omap list_omap]. destruct (load_of file i) as [s|] eqn:Hs.
  - destruct (decide (segment_ok (len file) uend s ∧ (length acc < MAX_SEGMENTS)%nat)) as [Hd|Hd].
    + rewrite (bool_decide_true _ Hd) in Hh. rewrite Hh. cbn [mbind res_bind]. destruct Hd as [Hd1 Hd2].
      specialize (IH (acc ++ [s])). rewrite length_app in IH at 1. cbn [length] in IH.
      specialize (IH ltac:(lia)). rewrite <-!app_assoc in IH. cbn [app] in IH.
      rewrite (bool_decide_ext _ (Forall (segment_ok (len file) uend) (omap (load_of file) l)
        ∧ (length (acc ++ s :: omap (load_of file) l) ≤ MAX_SEGMENTS)%nat)); [exact IH|]. rewrite Forall_cons. naive_solver.
    + rewrite (bool_decide_false _ Hd) in Hh. destruct Hh as [e ->].
      rewrite bool_decide_false; [by eexists|].
      rewrite Forall_cons, length_app. cbn [length]. intros [[? _] ?]. apply Hd. split; [done|lia].
  - rewrite Hh. cbn [mbind res_bind]. apply IH. lia.
Qed.
End loop.

#[export] Instance in_segment_dec e s : Decision (in_segment e s).
Proof. unfold in_segment. apply _. Defined.
#[export] Instance acceptable_dec file uend : Decision (acceptable file uend).
Proof. unfold acceptable. apply _. Defined.

Lemma loads_width file : bytes_ok file → Forall seg_width (loads file).
Proof.
  intros Hok. apply Forall_forall. intros s (i & _ & Hi)%list_elem_of_omap. unfold load_of in Hi.
  destruct (_ =? 1); [|done]. injection Hi as <-. by apply segment_width, header_bytes.
Qed.

Lemma entry_inside_spec flen uend e s : seg_width s → uend < 2 ^ 64 → segment_ok flen uend s →
  entry_inside e s = true ↔ in_segment e s.
Proof.
  intros (_ & _ & Ha & Hm) Hu (_ & _ & _ & He & _). unfold entry_inside, in_segment, end_, wrap.
  rewrite Z.mod_small by lia. rewrite !andb_true_iff, Z.leb_le, Z.ltb_lt. naive_solver.
Qed.

Lemma existsb_entry file uend e : bytes_ok file → uend < 2 ^ 64 →
  Forall (segment_ok (len file) uend) (loads file) →
  existsb (entry_inside e) (loads file) = bool_decide (Exists (in_segment e) (loads file)).
Proof.
  intros Hok Hu Hs. apply eq_true_iff_eq. rewrite bool_decide_eq_true, existsb_exists, Exists_exists.
  pose proof (loads_width file Hok) as Hw. rewrite !Forall_forall in *.
  setoid_rewrite <-list_elem_of_In. split; intros (s & Hin & He); exists s; (split; [done|]).
  - by eapply entry_inside_spec in He; eauto.
  - by eapply entry_inside_spec; eauto.
Qed.

(** The checks before the loop, all at once. *)
Lemma parse_headers_first file uend (k : res ElfError Program) :
  bytes_ok file → len file < 2 ^ 63 →
  (header_ok file →
     ('(segs, found) ← foldM (parse_header file uend (field file 32 8) 56)
                         (replicate MAX_SEGMENTS None, O) (seqZ 0 (field file 56 2));
      if (found =? 0)%nat then Err NoSegments
      else if negb (existsb (entry_inside (field file 24 8)) (omap id segs))
      then Err (EntryOutsideSegments (field file 24 8))
      else Ok {| entry := field file 24 8; segment_table := segs |}) = k) →
  if bool_decide (header_ok file) then parse file uend = k else ∃ e, parse file uend = Err e.
Proof.
  intros Hok Hlen Hk. unfold parse, HEADER_BYTES, PROGRAM_HEADER_BYTES, CLASS_64, DATA_LITTLE_ENDIAN,
    VERSION_CURRENT, TYPE_EXECUTABLE, MACHINE_X86_64 in *.
  unfold At.CLASS, At.DATA, At.VERSION, At.TYPE, At.MACHINE, At.ENTRY, At.PROGRAM_HEADER_OFFSET,
    At.PROGRAM_HEADER_ENTRY_SIZE, At.PROGRAM_HEADER_COUNT.
  destruct (Z.ltb_spec (len file) 64) as [Hs|Hs]; cbn [orb].
  { rewrite bool_decide_false by (intros (? & _); lia). by eexists. }
  destruct (decide (take 4 file = MAGIC)) as [Hm|Hm].
  2:{ rewrite (bool_decide_false (take 4 file = MAGIC)) by done.
      rewrite bool_decide_false by (intros (_ & ? & _); done). by eexists. }
  rewrite (bool_decide_true (take 4 file = MAGIC)) by done. cbn [negb].
  rewrite !index_field, !u16_field, !u64_field by (done || lia). cbn [expect mbind res_bind].
  destruct (Z.eqb_spec (field file 4 1) 2), (Z.eqb_spec (field file 5 1) 1), (Z.eqb_spec (field file 6 1) 1);
    cbn [negb orb]; try (rewrite bool_decide_false by (by intros (_ & _ & ? & ? & ? & _)); by eexists).
  destruct (Z.eqb_spec (field file 16 2) 2); cbn [negb];
    [|rewrite bool_decide_false by (by intros (_ & _ & _ & _ & _ & ? & _)); by eexists].
  destruct (Z.eqb_spec (field file 18 2) 0x3E); cbn [negb];
    [|rewrite bool_decide_false by (by intros (_ & _ & _ & _ & _ & _ & ? & _)); by eexists].
  destruct (Z.eqb_spec (field file 54 2) 56) as [Hes|]; cbn [negb orb];
    [|rewrite bool_decide_false by (by intros (_ & _ & _ & _ & _ & _ & _ & ? & _)); by eexists].
  destruct (Z.eqb_spec (field file 56 2) 0); cbn [negb orb].
  { rewrite bool_decide_false by (by intros (_ & _ & _ & _ & _ & _ & _ & _ & ? & _)); by eexists. }
  unfold saturating_add, umax. rewrite Hes. pose proof (field_ok file 56 2 Hok). pose proof (field_ok file 32 8 Hok).
  destruct (Z.ltb_spec (len file) ((field file 32 8 + field file 56 2 * 56) `min` (2 ^ 64 - 1))).
  { rewrite bool_decide_false by (intros (_ & _ & _ & _ & _ & _ & _ & _ & _ & ?); lia). by eexists. }
  rewrite bool_decide_true by (split_and!; try done; lia).
  rewrite <-Hk by (split_and!; try done; lia). done.
Qed.

(** What the reader answers, to be used by the loader. *)
Lemma parse_decides file user_space_end :
  bytes_ok file → len file < 2 ^ 63 → user_space_end < 2 ^ 64 →
  if bool_decide (acceptable file user_space_end)
  then parse file user_space_end = Ok {| entry := field file 24 8; segment_table := pad (loads file) |}
  else ∃ e, parse file user_space_end = Err e.
Proof.
  intros Hok Hlen Hu.
  pose proof (λ k, parse_headers_first file user_space_end k Hok Hlen) as Hp.
  destruct (decide (header_ok file)) as [Hh|Hh].
  2:{ specialize (Hp Panic). rewrite (bool_decide_false _ Hh) in Hp.
      rewrite bool_decide_false by (intros [? _]; done). apply Hp. done. }
  rewrite (bool_decide_true _ Hh) in Hp. pose proof Hh as (_ & _ & _ & _ & _ & _ & _ & _ & _ & Ht).
  pose proof (parse_headers_spec file user_space_end Hok Hlen Hu Ht (seqZ 0 (field file 56 2)) []) as Hl.
  cbn [app] in Hl. change (omap (load_of file) (seqZ 0 (field file 56 2))) with (loads file) in Hl.
  specialize (Hl ltac:(apply Forall_forall; intros i Hi%in_seqZ; lia) ltac:(cbn; lia)). cbv zeta in Hl.
  change (pad [], length []) with (replicate MAX_SEGMENTS (@None Segment), O) in Hl.
  destruct (decide (Forall (segment_ok (len file) user_space_end) (loads file) ∧
                    (length (loads file) ≤ MAX_SEGMENTS)%nat)) as [Hs|Hs].
  - rewrite (bool_decide_true _ Hs) in Hl. destruct Hs as [Hs Hlen8]. specialize (λ k H, Hp k (λ _, H)) as Hp'.
    rewrite Hl in Hp'. cbn [mbind res_bind] in Hp'. rewrite segments_pad in Hp'.
    destruct (Nat.eqb_spec (length (loads file)) 0) as [H0|H0].
    { rewrite bool_decide_false by (intros (_ & _ & [? _] & _); lia). eexists. by apply Hp'. }
    rewrite (existsb_entry _ user_space_end) in Hp' by done. case_bool_decide as Hex; cbn [negb] in Hp'.
    + rewrite bool_decide_true by (split_and!; try done; lia). by apply Hp'.
    + rewrite bool_decide_false by (intros (_ & _ & _ & ?); done). eexists. by apply Hp'.
  - rewrite (bool_decide_false _ Hs) in Hl. destruct Hl as [e Hl].
    rewrite bool_decide_false by (intros (_ & ? & [_ ?] & _); tauto). exists e. apply Hp. intros _. by rewrite Hl.
Qed.

(** C23: For every file of bytes, the ELF reader neither panics nor fails to
    answer: it accepts exactly the linked 64-bit x86 executables whose
    program headers, and the contents of whose loadable segments, lie in the
    file, whose one to eight segments are not empty, end below the kernel's
    half, are not smaller in memory than in the file and not both writable
    and executable, and whose entry point lies in an executable one; what it
    answers is the entry point and exactly the loadable segments in order. *)
Theorem elf_parse_exact file user_space_end :
  bytes_ok file → len file < 2 ^ 63 → user_space_end < 2 ^ 64 →
  if bool_decide (acceptable file user_space_end)
  then parse file user_space_end = Ok {| entry := field file 24 8; segment_table := pad (loads file) |}
  else ∃ e, parse file user_space_end = Err e.
Proof. apply parse_decides. Qed.

(** A linked executable with one read-only code segment of one byte at
    4 MiB, entered at its start. *)
Definition tiny : list Z :=
  [0x7F; 0x45; 0x4C; 0x46; 2; 1; 1; 0] ++ replicate 8 0 ++ le_encode 2 2 ++ le_encode 2 0x3E ++ le_encode 4 1 ++
  le_encode 8 0x400000 ++ le_encode 8 64 ++ replicate 14 0 ++ le_encode 2 56 ++ le_encode 2 1 ++ replicate 6 0 ++
  le_encode 4 1 ++ le_encode 4 5 ++ le_encode 8 120 ++ le_encode 8 0x400000 ++ replicate 8 0 ++
  le_encode 8 1 ++ le_encode 8 1 ++ replicate 8 0 ++ [0xC3].

Lemma elf_parse_exact_witness :
  parse tiny 0x800000000000 =
    Ok {| entry := 0x400000;
          segment_table := Some {| file_offset := 120; file_size := 1; at_ := 0x400000; memory_size := 1; flags := 5 |}
                           :: replicate 7 None |} ∧
  ∃ e, parse tiny 0x400000 = Err e.
Proof.
  split.
  - refine (elf_parse_exact tiny 0x800000000000 _ _ _).
    1: refine (bool_decide_unpack _ _); vm_compute; exact I. all: reflexivity.
  - refine (elf_parse_exact tiny 0x400000 _ _ _).
    1: refine (bool_decide_unpack _ _); vm_compute; exact I. all: reflexivity.
Defined.
End ElfSpec.
