(* ===== verification/FatFormat.v ===== *)
(** * FAT32: the boot sector, table entries and directory entries

    Models the pure half of [hal/src/fat.rs]: [BootSector::parse] and the
    cluster arithmetic, [Entry::decode], [decode_slot] and [encode_name].
    A sector is a list of 512 bytes; a [&str] is the list of its bytes.
    [u32] arithmetic the code does not check is wrapped at 32 bits. *)

From S2P Require Import Prelude Words Bytes.
Local Open Scope Z_scope.

Definition SECTOR_BYTES : Z := 512.
Definition FIRST_DATA_CLUSTER : Z := 2.
Definition FAT32_MINIMUM_CLUSTERS : Z := 65525.

Inductive BootSectorError :=
| NoSignature (found : Z)
| SectorSize (found : Z)
| SectorsPerCluster (found : Z)
| ReservedSectors (found : Z)
| FatCount (found : Z)
| NotFat32 (sixteen_bit_fat_size : Z)
| FatSize (found : Z)
| RootCluster (found : Z)
| NoDataRegion
| TooFewClusters (found : Z)
| FatTooSmall (entries clusters : Z).

Record VolumeId := { serial : Z; vlabel : list Z }.

Record BootSector := {
  bytes_per_sector : Z; sectors_per_cluster : Z; reserved_sectors : Z; fat_count : Z;
  total_sectors : Z; sectors_per_fat : Z; root_cluster : Z; fs_info_sector : Z;
  backup_boot_sector : Z; clusters : Z; volume_id : option VolumeId
}.

(** ** Text *)

(** [core::str::from_utf8] accepts exactly the well-formed sequences of the
    Unicode standard: no overlong forms, no surrogates, nothing above
    U+10FFFF. *)
Definition in_range (lo hi b : Z) : bool := (lo <=? b) && (b <=? hi).

Definition utf8_head (b : Z) : option (list (Z * Z)) :=
  if in_range 0 127 b then Some []
  else if in_range 194 223 b then Some [(128, 191)]
  else if b =? 224 then Some [(160, 191); (128, 191)]
  else if in_range 225 236 b || in_range 238 239 b then Some [(128, 191); (128, 191)]
  else if b =? 237 then Some [(128, 159); (128, 191)]
  else if b =? 240 then Some [(144, 191); (128, 191); (128, 191)]
  else if in_range 241 243 b then Some [(128, 191); (128, 191); (128, 191)]
  else if b =? 244 then Some [(128, 143); (128, 191); (128, 191)]
  else None.

Fixpoint utf8_from (expected : list (Z * Z)) (l : list Z) : bool :=
  match l, expected with
  | [], [] => true
  | [], _ => false
  | b :: l, (lo, hi) :: expected => in_range lo hi b && utf8_from expected l
  | b :: l, [] => match utf8_head b with Some e => utf8_from e l | None => false end
  end.

(** [from_utf8(bytes).unwrap_or("")]. *)
Definition text_or_empty (l : list Z) : list Z := if utf8_from [] l then l else [].

Definition to_ascii_uppercase (b : Z) : Z := if in_range 97 122 b then b - 32 else b.
Definition eq_ignore_ascii_case (a b : Z) : bool :=
  to_ascii_uppercase a =? to_ascii_uppercase b.

(** [str::split_once('.')]. *)
Fixpoint split_once (sep : Z) (l : list Z) : option (list Z * list Z) :=
  match l with
  | [] => None
  | b :: l =>
      if b =? sep then Some ([], l)
      else match split_once sep l with
           | Some (x, y) => Some (b :: x, y)
           | None => None
           end
  end.

(** ** The boot sector *)
Module Boot.
Definition byte_at (sector : list Z) (at_ : Z) : Z := nth (Z.to_nat at_) sector 0.
Definition u16_at (sector : list Z) (at_ : Z) : Z :=
  le_decode [byte_at sector at_; byte_at sector (at_ + 1)].
Definition u32_at (sector : list Z) (at_ : Z) : Z :=
  le_decode [byte_at sector at_; byte_at sector (at_ + 1);
             byte_at sector (at_ + 2); byte_at sector (at_ + 3)].

Definition BYTES_PER_SECTOR : Z := 11.
Definition SECTORS_PER_CLUSTER : Z := 13.
Definition RESERVED_SECTORS : Z := 14.
Definition FAT_COUNT : Z := 16.
Definition SIXTEEN_BIT_FAT_SIZE : Z := 22.
Definition TOTAL_SECTORS : Z := 32.
Definition SECTORS_PER_FAT : Z := 36.
Definition ROOT_CLUSTER : Z := 44.
Definition FS_INFO_SECTOR : Z := 48.
Definition BACKUP_BOOT_SECTOR : Z := 50.
Definition EXTENDED_SIGNATURE : Z := 66.
Definition VOLUME_SERIAL : Z := 67.
Definition VOLUME_LABEL : Z := 71.
Definition SIGNATURE : Z := 510.

(** [u8::is_power_of_two]. *)
Definition is_power_of_two (b : Z) : bool := existsb (λ k, b =? 2 ^ k) (seqZ 0 8).

Definition volume_id_of (sector : list Z) : option VolumeId :=
  if byte_at sector EXTENDED_SIGNATURE =? 0x29
  then Some {| serial := u32_at sector VOLUME_SERIAL;
               vlabel := take 11 (drop (Z.to_nat VOLUME_LABEL) sector) |}
  else None.

Definition parse (sector : list Z) : res BootSectorError BootSector :=
  let signature := u16_at sector SIGNATURE in
  if negb (signature =? 0xAA55) then Err (NoSignature signature) else
  let bps := u16_at sector BYTES_PER_SECTOR in
  if negb (bps =? SECTOR_BYTES) then Err (SectorSize bps) else
  let spc := byte_at sector SECTORS_PER_CLUSTER in
  if (spc =? 0) || negb (is_power_of_two spc) then Err (SectorsPerCluster spc) else
  let reserved := u16_at sector RESERVED_SECTORS in
  if reserved =? 0 then Err (ReservedSectors reserved) else
  let fats := byte_at sector FAT_COUNT in
  if (fats =? 0) || (4 <? fats) then Err (FatCount fats) else
  let fat16 := u16_at sector SIXTEEN_BIT_FAT_SIZE in
  if negb (fat16 =? 0) then Err (NotFat32 fat16) else
  let spf := u32_at sector SECTORS_PER_FAT in
  if spf =? 0 then Err (FatSize spf) else
  let root := u32_at sector ROOT_CLUSTER in
  if root <? FIRST_DATA_CLUSTER then Err (RootCluster root) else
  let total := u32_at sector TOTAL_SECTORS in
  let before_data := reserved + fats * spf in
  if total <=? before_data then Err NoDataRegion else
  let n := wrap 32 ((total - before_data) / spc) in
  if n <? FAT32_MINIMUM_CLUSTERS then Err (TooFewClusters n) else
  let entries := spf * bps / 4 in
  if entries <? n + FIRST_DATA_CLUSTER then Err (FatTooSmall entries n) else
  Ok {| bytes_per_sector := bps; sectors_per_cluster := spc; reserved_sectors := reserved;
        fat_count := fats; total_sectors := total; sectors_per_fat := spf;
        root_cluster := root; fs_info_sector := u16_at sector FS_INFO_SECTOR;
        backup_boot_sector := u16_at sector BACKUP_BOOT_SECTOR; clusters := n;
        volume_id := volume_id_of sector |}.

Definition first_fat_sector (b : BootSector) : Z := reserved_sectors b.
Definition first_data_sector (b : BootSector) : Z :=
  wrap 32 (reserved_sectors b + wrap 32 (fat_count b * sectors_per_fat b)).

(** [cluster < 2 || cluster >= 2 + clusters], negated. *)
Definition has_cluster (b : BootSector) (cluster : Z) : bool :=
  negb ((cluster <? FIRST_DATA_CLUSTER) || (wrap 32 (FIRST_DATA_CLUSTER + clusters b) <=? cluster)).

Definition sector_of_cluster (b : BootSector) (cluster : Z) : option Z :=
  if has_cluster b cluster
  then Some (wrap 32 (first_data_sector b +
                      wrap 32 ((cluster - FIRST_DATA_CLUSTER) * sectors_per_cluster b)))
  else None.

Definition cluster_bytes (b : BootSector) : Z :=
  wrap 32 (bytes_per_sector b * sectors_per_cluster b).

(** [VolumeId::label]: [rposition] of the last byte that is not a space. *)
Definition rposition_not_space (l : list Z) : nat :=
  fst (foldl (λ '(last, i) b, (if b =? 32 then last else S i, S i)) (O, O) l).
Definition label (v : VolumeId) : list Z :=
  text_or_empty (take (rposition_not_space (vlabel v)) (vlabel v)).
End Boot.

(** ** The allocation table *)
Definition ENTRY_MASK : Z := 0x0FFFFFFF.

Inductive Entry := EntryFree | EntryReserved | EntryNext (cluster : Z) | EntryBad | EntryEnd.

#[export] Instance Entry_eq_dec : EqDecision Entry.
Proof. solve_decision. Defined.

Definition decode (raw : Z) : Entry :=
  let e := Z.land raw ENTRY_MASK in
  if e =? 0 then EntryFree
  else if e =? 1 then EntryReserved
  else if e =? 0x0FFFFFF7 then EntryBad
  else if 0x0FFFFFF8 <=? e then EntryEnd
  else EntryNext e.

(** ** Directory entries *)
Definition DIRECTORY_ENTRY_BYTES : Z := 32.
Definition ENTRY_NEVER_USED : Z := 0x00.
Definition ENTRY_DELETED : Z := 0xE5.
Definition ATTR_LONG_NAME : Z := 0x0F.
Definition ATTR_VOLUME_LABEL : Z := 0x08.
Definition ATTR_DIRECTORY : Z := 0x10.
Definition ATTR_ARCHIVE : Z := 0x20.

Record DirectoryEntry := {
  ename : list Z; name_len : Z; attributes : Z; first_cluster : Z; esize : Z
}.

#[export] Instance DirectoryEntry_eq_dec : EqDecision DirectoryEntry.
Proof. solve_decision. Defined.

Definition is_directory (e : DirectoryEntry) : bool :=
  negb (Z.land (attributes e) ATTR_DIRECTORY =? 0).

Definition name (e : DirectoryEntry) : list Z :=
  text_or_empty (take (Z.to_nat (name_len e)) (ename e)).

Definition is_named (e : DirectoryEntry) (other : list Z) : bool :=
  (len (name e) =? len other) &&
  forallb (λ '(a, b), eq_ignore_ascii_case a b) (zip (name e) other).

Inductive Slot := SlotEntry (e : DirectoryEntry) | SlotSkip | SlotEnd.

(** [for byte in ... { if *byte == b' ' { break; } ... }]. *)
Fixpoint until_space (l : list Z) : list Z :=
  match l with [] => [] | b :: l => if b =? 32 then [] else b :: until_space l end.

(** The name as [decode_slot] puts it back together, before the padding. *)
Definition slot_name (bytes : list Z) : list Z :=
  until_space (take 8 bytes) ++
  (if Boot.byte_at bytes 8 =? 32 then []
   else 46 :: until_space (take 3 (drop 8 bytes))).

Definition decode_slot (bytes : list Z) : Slot :=
  let b0 := Boot.byte_at bytes 0 in
  if b0 =? ENTRY_NEVER_USED then SlotEnd
  else if b0 =? ENTRY_DELETED then SlotSkip
  else
    let attrs := Boot.byte_at bytes 11 in
    if (Z.land attrs ATTR_LONG_NAME =? ATTR_LONG_NAME)
       || negb (Z.land attrs ATTR_VOLUME_LABEL =? 0) then SlotSkip
    else
      let n := slot_name bytes in
      SlotEntry {| ename := n ++ replicate (12 - length n) 0; name_len := len n;
                   attributes := attrs;
                   first_cluster := Z.lor (Z.shiftl (Boot.u16_at bytes 20) 16) (Boot.u16_at bytes 26);
                   esize := Boot.u32_at bytes 28 |}.

(** The bytes the format reserves: quote, star, slash, colon, angle
    brackets, question mark, backslash, bar, plus, comma, semicolon, equals,
    square brackets and space. *)
Definition RESERVED : list Z := [34; 42; 47; 58; 60; 62; 63; 92; 124; 43; 44; 59; 61; 91; 93; 32].

Definition allowed_in_a_name (byte : Z) : option Z :=
  if negb (byte <? 128) || (byte <? 0x20) || (byte =? 0x7F) || existsb (Z.eqb byte) RESERVED
  then None else Some (to_ascii_uppercase byte).

Definition encode_name (nm : list Z) : option (list Z) :=
  let '(base, extension) :=
    match split_once 46 nm with Some (b, e) => (b, e) | None => (nm, []) end in
  if (len base =? 0) || (8 <? len base) || (3 <? len extension) then None
  else
    base ← mapM allowed_in_a_name base;
    extension ← mapM allowed_in_a_name extension;
    let encoded := base ++ replicate (8 - length base) 32
                   ++ extension ++ replicate (3 - length extension) 32 in
    if Boot.byte_at encoded 0 =? ENTRY_DELETED then None else Some encoded.
