(* ===== verification/FatVolume.v ===== *)
(** * FAT32: a volume over whatever can hand it sectors

    Models [Volume] of [hal/src/fat.rs], reading and writing.  [Sectors] is
    the trait of that name as a class: a source of sectors with a state of
    its own.  An operation of the volume takes that state and answers an
    outcome and the state afterwards, also when it fails half way.  The boot
    sector never changes after [mount], so it is a parameter.

    The loops over chains have fuel; the code's own [ChainLoops] guard,
    which counts up to the number of clusters, is what makes
    [clusters + 2] rounds enough. *)

From S2P Require Import Prelude Words Bytes FatFormat.
Local Open Scope Z_scope.

(** [as_chunks::<n>], of which the rest is empty here. *)
Fixpoint chunks_fuel {A} (fuel : nat) (n : nat) (l : list A) : list (list A) :=
  match fuel with
  | O => []
  | S fuel => if (length l <? n)%nat then [] else take n l :: chunks_fuel fuel n (drop n l)
  end.
Definition as_chunks {A} (n : nat) (l : list A) : list (list A) := chunks_fuel (length l) n l.

(** ** The trait *)
Class Sectors (S E : Type) := {
  read_sector : Z → dev S E (list Z);
  write_sector : Z → list Z → dev S E ()
}.

Inductive VolumeError (E : Type) :=
| Device (e : E)
| InBootSector (e : BootSectorError)
| BadCluster (cluster : Z)
| BrokenChain (cluster : Z) (entry : Entry)
| ChainLoops
| TooBig (size : Z).
Arguments Device {E} e.
Arguments InBootSector {E} e.
Arguments BadCluster {E} cluster.
Arguments BrokenChain {E} cluster entry.
Arguments ChainLoops {E}.
Arguments TooBig {E} size.

Inductive WriteError (E : Type) :=
| Reading (e : VolumeError E)
| WDevice (e : E)
| BadName
| TooManyClusters (needed : Z)
| Full (needed free : Z)
| DirectoryFull
| IsADirectory.
Arguments Reading {E} e.
Arguments WDevice {E} e.
Arguments BadName {E}.
Arguments TooManyClusters {E} needed.
Arguments Full {E} needed free.
Arguments DirectoryFull {E}.
Arguments IsADirectory {E}.

Definition MAX_FILE_CLUSTERS : Z := 64.
Definition FS_INFO_LEAD : Z := 0x41615252.
Definition FS_INFO_STRUCTURE : Z := 0x61417272.
Definition END_OF_CHAIN : Z := 0x0FFFFFFF.

Section volume.
  Context {S E : Type} `{Sectors S E}.

(** [Volume::mount]: the volume is its sectors and this boot sector. *)
Definition mount : dev S (VolumeError E) BootSector :=
  first ← dev_map_err Device (read_sector 0);
  lift (map_err InBootSector (Boot.parse first)).

  Context (boot : BootSector).

Definition sector_of {X} (f : VolumeError E → X) (cluster : Z) : dev S X Z :=
  lift (ok_or (f (BadCluster cluster)) (Boot.sector_of_cluster boot cluster)).
Definition read {X} (f : VolumeError E → X) (sector : Z) : dev S X (list Z) :=
  dev_map_err (λ e, f (Device e)) (read_sector sector).
Definition write (sector : Z) (bytes : list Z) : dev S (WriteError E) () :=
  dev_map_err WDevice (write_sector sector bytes).
Definition fuel_for_chain : nat := Datatypes.S (Datatypes.S (Z.to_nat (clusters boot))).
Definition cluster_offsets : list Z := seqZ 0 (sectors_per_cluster boot).

Definition next_cluster (cluster : Z) : dev S (VolumeError E) Entry :=
  if negb (Boot.has_cluster boot cluster) then lift (Err (BadCluster cluster))
  else
    let per_sector := bytes_per_sector boot / 4 in
    let sector := wrap 32 (Boot.first_fat_sector boot + cluster / per_sector) in
    let offset := cluster mod per_sector * 4 in
    bytes ← read id sector;
    mret (decode (Boot.u32_at bytes offset)).

(** *** Reading *)
Section read_root.
  Context {T : Type} (each : T → DirectoryEntry → T * bool).

Definition root_slot (t : T) (slot : list Z) : dev S (VolumeError E) (T + T) :=
  match decode_slot slot with
  | SlotEnd => mret (inr t)
  | SlotSkip => mret (inl t)
  | SlotEntry entry => let '(t, on) := each t entry in mret (if on then inl t else inr t)
  end.

Definition root_sector (first : Z) (t : T) (offset : Z) : dev S (VolumeError E) (T + T) :=
  bytes ← read id (wrap 32 (first + offset));
  for_until (as_chunks (Z.to_nat DIRECTORY_ENTRY_BYTES) bytes) root_slot t.

Fixpoint read_root_loop (fuel : nat) (cluster seen : Z) (t : T) : dev S (VolumeError E) T :=
  match fuel with
  | O => lift Diverge
  | Datatypes.S fuel =>
      first ← sector_of id cluster;
      x ← for_until cluster_offsets (root_sector first) t;
      match x with
      | inr t => mret t
      | inl t =>
          let seen := seen + 1 in
          if clusters boot <? seen then lift (Err ChainLoops)
          else
            entry ← next_cluster cluster;
            match entry with
            | EntryNext next => read_root_loop fuel next seen t
            | EntryEnd => mret t
            | entry => lift (Err (BrokenChain cluster entry))
            end
      end
  end.

Definition read_root (t : T) : dev S (VolumeError E) T :=
  read_root_loop fuel_for_chain (root_cluster boot) 0 t.
End read_root.

Definition find (nm : list Z) : dev S (VolumeError E) (option DirectoryEntry) :=
  read_root (λ found entry, if is_named entry nm then (Some entry, false) else (found, true)) None.

(** A sector's worth into the buffer; nothing once the file is all there. *)
Definition read_file_sector (size first : Z) (acc : Z * list Z) (offset : Z)
    : dev S (VolumeError E) (Z * list Z) :=
  let '(written, into) := acc in
  if written =? size then mret acc
  else
    bytes ← read id (wrap 32 (first + offset));
    let taking := Z.min (size - written) (len bytes) in
    src ← lift (expect (slice bytes 0 taking));
    into ← lift (expect (copy_at into written (written + taking) src));
    mret (written + taking, into).

Fixpoint read_file_loop (fuel : nat) (size cluster seen written : Z) (into : list Z)
    : dev S (VolumeError E) (Z * list Z) :=
  match fuel with
  | O => lift Diverge
  | Datatypes.S fuel =>
      if negb (written <? size) then mret (written, into)
      else
        first ← sector_of id cluster;
        '(written, into) ← for_in cluster_offsets (read_file_sector size first) (written, into);
        if written =? size then mret (written, into)
        else
          let seen := seen + 1 in
          if clusters boot <? seen then lift (Err ChainLoops)
          else
            entry ← next_cluster cluster;
            match entry with
            | EntryNext next => read_file_loop fuel size next seen written into
            | entry => lift (Err (BrokenChain cluster entry))
            end
  end.

(** Answers how many bytes there were, and what the buffer holds then. *)
Definition read_file (entry : DirectoryEntry) (into : list Z) : dev S (VolumeError E) (Z * list Z) :=
  let size := esize entry in
  if len into <? size then lift (Err (TooBig size))
  else read_file_loop fuel_for_chain size (first_cluster entry) 0 0 into.

(** The walk of [read_at] to the cluster holding the offset. *)
Definition skip_cluster (acc : Z * Z) (_ : nat) : dev S (VolumeError E) (Z * Z) :=
  let '(cluster, seen) := acc in
  let seen := seen + 1 in
  if clusters boot <? seen then lift (Err ChainLoops)
  else
    entry ← next_cluster cluster;
    match entry with
    | EntryNext next => mret (next, seen)
    | entry => lift (Err (BrokenChain cluster entry))
    end.

(** [while written < want && sector < sectors_per_cluster]. *)
Fixpoint read_at_sectors (fuel : nat) (want first sector within written : Z) (into : list Z)
    : dev S (VolumeError E) (Z * list Z) :=
  match fuel with
  | O => lift Diverge
  | Datatypes.S fuel =>
      if (written <? want) && (sector <? sectors_per_cluster boot)
      then
        bytes ← read id (wrap 32 (first + sector));
        let taking := Z.min (want - written) (512 - within) in
        src ← lift (expect (slice bytes within (within + taking)));
        into ← lift (expect (copy_at into written (written + taking) src));
        read_at_sectors fuel want first (sector + 1) 0 (written + taking) into
      else mret (written, into)
  end.

Fixpoint read_at_loop (fuel : nat) (want cluster seen inside written : Z) (into : list Z)
    : dev S (VolumeError E) (Z * list Z) :=
  match fuel with
  | O => lift Diverge
  | Datatypes.S fuel =>
      if negb (written <? want) then mret (written, into)
      else
        first ← sector_of id cluster;
        let sector := inside / SECTOR_BYTES in
        let within := inside mod SECTOR_BYTES in
        '(written, into) ←
          read_at_sectors (Datatypes.S (Z.to_nat (sectors_per_cluster boot)))
            want first sector within written into;
        if written =? want then mret (written, into)
        else
          let seen := seen + 1 in
          if clusters boot <? seen then lift (Err ChainLoops)
          else
            entry ← next_cluster cluster;
            match entry with
            | EntryNext next => read_at_loop fuel want next seen 0 written into
            | entry => lift (Err (BrokenChain cluster entry))
            end
  end.

Definition read_at (entry : DirectoryEntry) (offset : Z) (into : list Z)
    : dev S (VolumeError E) (Z * list Z) :=
  if esize entry <=? offset then mret (0, into)
  else
    let want := Z.min (esize entry - offset) (len into) in
    if want =? 0 then mret (0, into)
    else
      let per_cluster := wrap 32 (sectors_per_cluster boot * SECTOR_BYTES) in
      '(cluster, seen) ←
        for_in (seq 0 (Z.to_nat (offset / per_cluster))) skip_cluster (first_cluster entry, 0);
      read_at_loop fuel_for_chain want cluster seen (offset mod per_cluster) 0 into.

(** *** Writing *)
Definition set_in_table (cluster entry table_no : Z) : dev S (WriteError E) () :=
  let per_sector := bytes_per_sector boot / 4 in
  let offset := cluster mod per_sector * 4 in
  let sector := wrap 32 (wrap 32 (Boot.first_fat_sector boot + wrap 32 (table_no * sectors_per_fat boot))
                         + cluster / per_sector) in
  bytes ← read Reading sector;
  let kept := Z.land (Boot.u32_at bytes offset) (not_w 32 ENTRY_MASK) in
  bytes ← lift (expect (copy_at bytes offset (offset + 4)
                         (le_encode 4 (Z.lor kept (Z.land entry ENTRY_MASK)))));
  write sector bytes.

Definition set_next_cluster (cluster entry : Z) : dev S (WriteError E) () :=
  if negb (Boot.has_cluster boot cluster) then lift (Err (Reading (BadCluster cluster)))
  else for_in (seqZ 0 (fat_count boot)) (λ _ table_no, set_in_table cluster entry table_no) ().

(** [while at < count && cluster < 2 + clusters]. *)
Fixpoint free_clusters_loop (fuel : nat) (count at_ cluster : Z) (found : list Z)
    : dev S (WriteError E) (Z * list Z) :=
  match fuel with
  | O => lift Diverge
  | Datatypes.S fuel =>
      if (at_ <? count) && (cluster <? wrap 32 (FIRST_DATA_CLUSTER + clusters boot))
      then
        entry ← dev_map_err Reading (next_cluster cluster);
        if decide (entry = EntryFree)
        then found ← lift (expect (set_index found at_ cluster));
             free_clusters_loop fuel count (at_ + 1) (cluster + 1) found
        else free_clusters_loop fuel count at_ (cluster + 1) found
      else mret (at_, found)
  end.

Definition free_clusters (count : Z) : dev S (WriteError E) (list Z) :=
  if MAX_FILE_CLUSTERS <? count then lift (Err (TooManyClusters count))
  else
    '(at_, found) ← free_clusters_loop fuel_for_chain count 0 FIRST_DATA_CLUSTER
                      (replicate (Z.to_nat MAX_FILE_CLUSTERS) 0);
    if at_ <? count then lift (Err (Full count at_)) else mret found.

Definition write_cluster_sector (contents : list Z) (index_ first : Z) (_ : ()) (offset : Z)
    : dev S (WriteError E) () :=
  let at_ := index_ * Boot.cluster_bytes boot + offset * 512 in
  if len contents <=? at_ then mret ()
  else
    let taking := Z.min (len contents - at_) 512 in
    src ← lift (expect (slice contents at_ (at_ + taking)));
    bytes ← lift (expect (copy_at (replicate 512 0) 0 taking src));
    write (wrap 32 (first + offset)) bytes.

Definition write_clusters (chain contents : list Z) : dev S (WriteError E) () :=
  for_in (zip (seqZ 0 (len chain)) chain)
    (λ _ '(index_, cluster),
      first ← sector_of Reading cluster;
      for_in cluster_offsets (write_cluster_sector contents index_ first) ()) ().

(** *** The directory *)
Definition slot_place : Type := Z * Z * option DirectoryEntry.

Definition names_slot (slot nm : list Z) : bool :=
  forallb (λ '(a, b), eq_ignore_ascii_case a b) (zip (take 11 slot) nm).

Definition directory_slot_slot (nm : list Z) (sector : Z) (free : option (Z * Z))
    (x : Z * list Z) : dev S (WriteError E) (option (Z * Z) + slot_place) :=
  let '(index_, slot) := x in
  let at_ := index_ * DIRECTORY_ENTRY_BYTES in
  match decode_slot slot with
  | SlotEntry entry =>
      mret (if names_slot slot nm then inr (sector, at_, Some entry) else inl free)
  | SlotSkip =>
      mret (inl (if bool_decide (free = None) && (Boot.byte_at slot 0 =? ENTRY_DELETED)
                 then Some (sector, at_) else free))
  | SlotEnd =>
      mret (inr (fst (default (sector, at_) free), snd (default (sector, at_) free), None))
  end.

Definition directory_slot_sector (nm : list Z) (first : Z) (free : option (Z * Z)) (offset : Z)
    : dev S (WriteError E) (option (Z * Z) + slot_place) :=
  let sector := wrap 32 (first + offset) in
  bytes ← read Reading sector;
  let slots := as_chunks (Z.to_nat DIRECTORY_ENTRY_BYTES) bytes in
  for_until (zip (seqZ 0 (len slots)) slots) (directory_slot_slot nm sector) free.

Fixpoint directory_slot_loop (fuel : nat) (nm : list Z) (cluster seen : Z) (free : option (Z * Z))
    : dev S (WriteError E) slot_place :=
  match fuel with
  | O => lift Diverge
  | Datatypes.S fuel =>
      first ← sector_of Reading cluster;
      x ← for_until cluster_offsets (directory_slot_sector nm first) free;
      match x with
      | inr place => mret place
      | inl free =>
          let seen := seen + 1 in
          if clusters boot <? seen then lift (Err (Reading ChainLoops))
          else
            entry ← dev_map_err Reading (next_cluster cluster);
            match entry with
            | EntryNext next => directory_slot_loop fuel nm next seen free
            | _ => match free with
                   | Some (sector, at_) => mret (sector, at_, None)
                   | None => lift (Err DirectoryFull)
                   end
            end
      end
  end.

Definition directory_slot (nm : list Z) : dev S (WriteError E) slot_place :=
  directory_slot_loop fuel_for_chain nm (root_cluster boot) 0 None.

(** *** FSInfo *)

(** [free] and [first_free] after the 128 entries of one table sector. *)
Definition count_entries (last sector : Z) (acc : Z * Z) (entry_bytes : list Z) : Z * Z :=
  foldl (λ '(free, first_free) '(at_, entry),
    let cluster := wrap 32 (wrap 32 (sector * 128) + at_) in
    if (cluster <? FIRST_DATA_CLUSTER) || (last <? cluster) then (free, first_free)
    else if Z.land (le_decode entry) ENTRY_MASK =? 0
    then (wrap 32 (free + 1), if first_free =? 0 then cluster else first_free)
    else (free, first_free)) acc
    (zip (seqZ 0 (len (as_chunks 4 entry_bytes))) (as_chunks 4 entry_bytes)).

Definition update_fs_info : dev S (WriteError E) () :=
  let sector := fs_info_sector boot in
  if (sector =? 0) || (reserved_sectors boot <=? sector) then mret ()
  else
    bytes ← read Reading sector;
    if negb (Boot.u32_at bytes 0 =? FS_INFO_LEAD)
       || negb (Boot.u32_at bytes 484 =? FS_INFO_STRUCTURE) then mret ()
    else
      let last := wrap 32 (FIRST_DATA_CLUSTER + clusters boot - 1) in
      let table := Boot.first_fat_sector boot in
      '(free, first_free) ←
        for_in (seqZ (FIRST_DATA_CLUSTER / 128) (last / 128 - FIRST_DATA_CLUSTER / 128 + 1))
          (λ acc s, entry_bytes ← read Reading (wrap 32 (table + s));
                    mret (count_entries last s acc entry_bytes)) (0, 0);
      bytes ← lift (expect (copy_at bytes 488 492 (le_encode 4 free)));
      bytes ← lift (expect (copy_at bytes 492 496 (le_encode 4 first_free)));
      write sector bytes.

Fixpoint free_chain_loop (fuel : nat) (keep : list Z) (cluster seen : Z) : dev S (WriteError E) () :=
  match fuel with
  | O => lift Diverge
  | Datatypes.S fuel =>
      next ← dev_map_err Reading (next_cluster cluster);
      if bool_decide (next = EntryFree) || bool_decide (cluster ∈ keep) then mret ()
      else
        _ ← set_next_cluster cluster 0;
        let seen := seen + 1 in
        if clusters boot <? seen then lift (Err (Reading ChainLoops))
        else
          match next with
          | EntryNext next => free_chain_loop fuel keep next seen
          | _ => mret ()
          end
  end.

Definition free_chain (first : Z) (keep : list Z) : dev S (WriteError E) () :=
  free_chain_loop fuel_for_chain keep first 0.

(** The links of the chain, in order: each cluster to the next, the last
    one to the end. *)
Definition write_links (chain : list Z) : dev S (WriteError E) () :=
  for_in (zip (seq 0 (length chain)) chain)
    (λ _ '(index_, cluster),
      set_next_cluster cluster
        (match chain !! Datatypes.S index_ with Some next => next | None => END_OF_CHAIN end)) ().

(** The thirty-two bytes of a file's entry. *)
Definition encode_entry (encoded : list Z) (first size : Z) : list Z :=
  encoded ++ [ATTR_ARCHIVE] ++ replicate 8 0 ++ le_encode 2 (wrap 16 (Z.shiftr first 16))
  ++ replicate 4 0 ++ le_encode 2 (wrap 16 first) ++ le_encode 4 (wrap 32 size).

Definition write_file (nm contents : list Z) : dev S (WriteError E) DirectoryEntry :=
  encoded ← lift (ok_or BadName (encode_name nm));
  let per_cluster := Boot.cluster_bytes boot in
  let needed := div_ceil (len contents) per_cluster in
  '(sector, offset, existing) ← directory_slot encoded;
  if match existing with Some entry => is_directory entry | None => false end
  then lift (Err IsADirectory)
  else
    found ← free_clusters needed;
    chain ← lift (expect (slice found 0 needed));
    _ ← write_clusters chain contents;
    _ ← write_links chain;
    bytes ← read Reading sector;
    _ ← lift (expect (slice bytes offset (offset + DIRECTORY_ENTRY_BYTES)));
    let first := default 0 (head chain) in
    bytes ← lift (expect (copy_at bytes offset (offset + DIRECTORY_ENTRY_BYTES)
                            (encode_entry encoded first (len contents))));
    _ ← write sector bytes;
    _ ← match existing with
        | Some entry =>
            if negb (first_cluster entry =? 0) then free_chain (first_cluster entry) chain else mret ()
        | None => mret ()
        end;
    _ ← update_fs_info;
    written ← lift (expect (slice bytes offset (offset + DIRECTORY_ENTRY_BYTES)));
    match decode_slot written with
    | SlotEntry entry => mret entry
    | _ => lift (Err BadName)
    end.
End volume.
