(* ===== verification/FatFormatThms.v ===== *)
(** * FAT32 formats: what the checks guarantee

    The geometry a boot sector that [parse] accepts describes
    ([geometry]), where clusters and table entries then lie, and the names
    of directory entries. *)

From S2P Require Import Prelude Words Bytes FatFormat FatVolume.
Local Open Scope Z_scope.

(** ** The geometry of an accepted volume *)
Record geometry (b : BootSector) : Prop := {
  geo_bps : bytes_per_sector b = 512;
  geo_spc : 1 ≤ sectors_per_cluster b ≤ 128;
  geo_pow : ∃ k, 0 ≤ k ∧ sectors_per_cluster b = 2 ^ k;
  geo_reserved : 1 ≤ reserved_sectors b < 2 ^ 16;
  geo_fats : 1 ≤ fat_count b ≤ 4;
  geo_spf : 1 ≤ sectors_per_fat b;
  geo_root : 2 ≤ root_cluster b < 2 ^ 32;
  geo_total : total_sectors b < 2 ^ 32;
  geo_clusters : FAT32_MINIMUM_CLUSTERS ≤ clusters b;
  geo_data : reserved_sectors b + fat_count b * sectors_per_fat b
             + clusters b * sectors_per_cluster b ≤ total_sectors b;
  geo_most : total_sectors b < reserved_sectors b + fat_count b * sectors_per_fat b
             + (clusters b + 1) * sectors_per_cluster b;
  geo_tables : clusters b + FIRST_DATA_CLUSTER ≤ sectors_per_fat b * 128
}.

Lemma byte_at_bound sector i : bytes_ok sector → 0 ≤ Boot.byte_at sector i < 256.
Proof.
  intros Hb. unfold Boot.byte_at. destruct (decide (Z.to_nat i < length sector)%nat) as [Hlt|Hge].
  - apply nth_In with (d := 0) in Hlt. apply list_elem_of_In in Hlt.
    unfold bytes_ok in Hb. rewrite Forall_forall in Hb. by apply Hb.
  - rewrite nth_overflow by lia. lia.
Qed.

Lemma u16_at_bound sector i : bytes_ok sector → 0 ≤ Boot.u16_at sector i < 2 ^ 16.
Proof.
  intros Hb. unfold Boot.u16_at. apply (le_decode_bound [_; _]).
  repeat constructor; by apply byte_at_bound.
Qed.

Lemma u32_at_bound sector i : bytes_ok sector → 0 ≤ Boot.u32_at sector i < 2 ^ 32.
Proof.
  intros Hb. unfold Boot.u32_at. apply (le_decode_bound [_; _; _; _]).
  repeat constructor; by apply byte_at_bound.
Qed.

Lemma is_power_of_two_spec z : Boot.is_power_of_two z = true → 1 ≤ z ≤ 128 ∧ ∃ k, 0 ≤ k ∧ z = 2 ^ k.
Proof.
  unfold Boot.is_power_of_two. rewrite existsb_exists. intros (k & Hk & Hz).
  apply list_elem_of_In, elem_of_seqZ in Hk. apply Z.eqb_eq in Hz. subst z.
  split; [|exists k; split; [lia|done]]. split.
  - change 1 with (2 ^ 0). apply Z.pow_le_mono_r; lia.
  - change 128 with (2 ^ 7). apply Z.pow_le_mono_r; lia.
Qed.

Lemma parse_geometry sector b : bytes_ok sector → Boot.parse sector = Ok b → geometry b.
Proof.
  intros Hb. unfold Boot.parse. repeat (case_match; [discriminate|]). intros [= <-].
  repeat match goal with
  | Hx : negb _ = false |- _ => apply negb_false_iff, Z.eqb_eq in Hx
  | Hx : (_ =? _) = false |- _ => apply Z.eqb_neq in Hx
  | Hx : (_ || _) = false |- _ => apply orb_false_iff in Hx as [? ?]
  | Hx : (_ <? _) = false |- _ => apply Z.ltb_ge in Hx
  | Hx : (_ <=? _) = false |- _ => apply Z.leb_gt in Hx
  end.
  pose proof (u16_at_bound sector Boot.RESERVED_SECTORS Hb).
  pose proof (u32_at_bound sector Boot.SECTORS_PER_FAT Hb).
  pose proof (u32_at_bound sector Boot.TOTAL_SECTORS Hb).
  pose proof (u32_at_bound sector Boot.ROOT_CLUSTER Hb).
  pose proof (byte_at_bound sector Boot.FAT_COUNT Hb).
  match goal with Hx : negb (Boot.is_power_of_two _) = false |- _ =>
    apply negb_false_iff, is_power_of_two_spec in Hx as [? ?] end.
  set (total := Boot.u32_at sector Boot.TOTAL_SECTORS) in *.
  set (before := _ + _ * _) in *.
  set (spc := Boot.byte_at sector Boot.SECTORS_PER_CLUSTER) in *.
  unfold FIRST_DATA_CLUSTER, FAT32_MINIMUM_CLUSTERS, SECTOR_BYTES in *.
  assert (0 ≤ before) by (unfold before; lia).
  pose proof (Z.mul_div_le (total - before) spc ltac:(lia)).
  pose proof (Z.mul_succ_div_gt (total - before) spc ltac:(lia)).
  assert (0 ≤ (total - before) / spc < 2 ^ 32) as Hq.
  { split; [apply Z.div_pos; lia|]. apply Z.div_lt_upper_bound; [lia|]. nia. }
  assert (wrap 32 ((total - before) / spc) = (total - before) / spc) as Hw by (by apply Z.mod_small).
  rewrite Hw in *.
  split; simpl; try done; try lia.
  match goal with Hx : _ = 512, Hy : _ + 2 ≤ _ / 4 |- _ => rewrite Hx in Hy; revert Hy end.
  replace (Boot.u32_at sector Boot.SECTORS_PER_FAT * 512)
    with (Boot.u32_at sector Boot.SECTORS_PER_FAT * 128 * 4) by lia.
  rewrite Z.div_mul by lia. unfold FIRST_DATA_CLUSTER. lia.
Qed.

(** ** Where things are *)
Section geometry.
  Context (b : BootSector) (Hg : geometry b).

Lemma data_start :
  Boot.first_data_sector b = reserved_sectors b + fat_count b * sectors_per_fat b.
Proof.
  destruct Hg as [? ? _ ? ? ? ? ? ? ? ? ?]. unfold Boot.first_data_sector, FAT32_MINIMUM_CLUSTERS in *.
  assert (0 ≤ fat_count b * sectors_per_fat b) by nia.
  assert (0 ≤ clusters b * sectors_per_cluster b) by nia.
  unfold wrap. rewrite (Z.mod_small (fat_count b * _)) by lia. apply Z.mod_small. lia.
Qed.

Lemma clusters_bound : 65525 ≤ clusters b < 2 ^ 32 ∧ clusters b + 2 < 2 ^ 32.
Proof. destruct Hg as [? ? _ ? ? ? ? ? ? ? ? ?]. unfold FAT32_MINIMUM_CLUSTERS in *. nia. Qed.

Lemma has_cluster_spec c :
  Boot.has_cluster b c = true ↔ FIRST_DATA_CLUSTER ≤ c < FIRST_DATA_CLUSTER + clusters b.
Proof.
  pose proof clusters_bound. unfold Boot.has_cluster, wrap. rewrite Z.mod_small by (unfold FIRST_DATA_CLUSTER; lia).
  rewrite negb_true_iff, orb_false_iff, Z.ltb_ge, Z.leb_gt. done.
Qed.

Definition cluster_start (c : Z) : Z :=
  reserved_sectors b + fat_count b * sectors_per_fat b + (c - FIRST_DATA_CLUSTER) * sectors_per_cluster b.

Lemma cluster_start_bounds c :
  FIRST_DATA_CLUSTER ≤ c < FIRST_DATA_CLUSTER + clusters b →
  reserved_sectors b + fat_count b * sectors_per_fat b ≤ cluster_start c ∧
  cluster_start c + sectors_per_cluster b ≤ total_sectors b.
Proof. destruct Hg as [? ? _ ? ? ? ? ? ? ? ? ?]. unfold cluster_start. intros. nia. Qed.

Lemma sector_of_cluster_spec c :
  Boot.sector_of_cluster b c =
    if decide (FIRST_DATA_CLUSTER ≤ c < FIRST_DATA_CLUSTER + clusters b)
    then Some (cluster_start c) else None.
Proof.
  unfold Boot.sector_of_cluster. destruct (decide _) as [Hc|Hc].
  - rewrite (proj2 (has_cluster_spec c)) by done. rewrite data_start. f_equal.
    destruct (cluster_start_bounds c Hc). destruct Hg as [? ? _ ? ? ? ? ? ? ? ? ?].
    unfold cluster_start in *. assert (0 ≤ fat_count b * sectors_per_fat b) by nia.
    assert (0 ≤ (c - FIRST_DATA_CLUSTER) * sectors_per_cluster b) by nia.
    unfold wrap. rewrite (Z.mod_small ((c - _) * _)) by lia. apply Z.mod_small. lia.
  - destruct (Boot.has_cluster b c) eqn:E; [|done]. by apply has_cluster_spec in E.
Qed.

(** Where the entry of [c] is, in table number [t]. *)
Definition table_sector (t c : Z) : Z := reserved_sectors b + t * sectors_per_fat b + c / 128.

Lemma table_sector_bounds t c :
  0 ≤ t < fat_count b → FIRST_DATA_CLUSTER ≤ c < FIRST_DATA_CLUSTER + clusters b →
  0 ≤ c / 128 < sectors_per_fat b ∧
  reserved_sectors b ≤ table_sector t c < reserved_sectors b + fat_count b * sectors_per_fat b.
Proof.
  destruct Hg as [? ? _ ? ? ? ? ? ? ? ? Htab]. unfold table_sector, FIRST_DATA_CLUSTER in *. intros Ht Hc.
  assert (0 ≤ c / 128 < sectors_per_fat b) as Hd.
  { split; [apply Z.div_pos; lia|]. apply Z.div_lt_upper_bound; lia. }
  split; [done|]. nia.
Qed.

Lemma cluster_bytes_spec : Boot.cluster_bytes b = 512 * sectors_per_cluster b.
Proof.
  destruct Hg as [Hb ? _ ? ? ? ? ? ? ? ? ?]. unfold Boot.cluster_bytes. rewrite Hb.
  apply Z.mod_small. lia.
Qed.

Lemma has_cluster_true c :
  FIRST_DATA_CLUSTER ≤ c < FIRST_DATA_CLUSTER + clusters b → Boot.has_cluster b c = true.
Proof. apply has_cluster_spec. Qed.

Lemma has_cluster_false c :
  ¬ FIRST_DATA_CLUSTER ≤ c < FIRST_DATA_CLUSTER + clusters b → Boot.has_cluster b c = false.
Proof. intros Hc. destruct (Boot.has_cluster b c) eqn:E; [|done]. by apply has_cluster_spec in E. Qed.
End geometry.

(** ** Names *)
Definition upper : list Z → list Z := map to_ascii_uppercase.

(** A byte [encode_name] can produce. *)
Definition stored (b : Z) : Prop := 32 < b < 127 ∧ to_ascii_uppercase b = b.

Lemma upper_idem b : to_ascii_uppercase (to_ascii_uppercase b) = to_ascii_uppercase b.
Proof.
  unfold to_ascii_uppercase, in_range.
  destruct (Z.leb_spec 97 b), (Z.leb_spec b 122); simpl; try done;
    destruct (Z.leb_spec 97 (b - 32)), (Z.leb_spec (b - 32) 122), (Z.leb_spec 97 b), (Z.leb_spec b 122);
    simpl; lia.
Qed.

Lemma upper_dot b : 0 ≤ b → to_ascii_uppercase b = 46 ↔ b = 46.
Proof. unfold to_ascii_uppercase, in_range. destruct (Z.leb_spec 97 b), (Z.leb_spec b 122); simpl; lia. Qed.

Lemma allowed_spec b b' : allowed_in_a_name b = Some b' → b' = to_ascii_uppercase b ∧ stored b' ∧ 0 ≤ b.
Proof.
  unfold allowed_in_a_name. destruct (negb _ || _ || _ || _) eqn:E; [done|]. intros [= <-].
  rewrite !orb_false_iff, negb_false_iff, Z.ltb_lt, Z.ltb_ge, Z.eqb_neq in E.
  destruct E as [[[H1 H2] H3] H4]. assert (b ≠ 32) as H5.
  { intros ->. done. }
  split; [done|]. split; [|lia]. split; [|apply upper_idem].
  unfold to_ascii_uppercase, in_range. destruct (Z.leb_spec 97 b), (Z.leb_spec b 122); simpl; lia.
Qed.

Lemma mapM_allowed l l' :
  mapM allowed_in_a_name l = Some l' → l' = upper l ∧ Forall stored l' ∧ Forall (λ b, 0 ≤ b) l.
Proof.
  rewrite mapM_Some. induction 1 as [|b b' l l' Hb Hl (-> & ? & ?)]; [done|].
  destruct (allowed_spec _ _ Hb) as (-> & ? & ?). split; [done|]. split; by constructor.
Qed.

Lemma split_once_spec l x y : split_once 46 l = Some (x, y) → l = x ++ 46 :: y ∧ 46 ∉ x.
Proof.
  revert x; induction l as [|b l IH]; intros x H; simpl in H; [done|].
  destruct (Z.eqb_spec b 46) as [->|Hne]; simplify_eq/=; [split; [done|set_solver]|].
  destruct (split_once 46 l) as [[x' y']|]; simplify_eq/=.
  destruct (IH x') as [-> ?]; [done|]. split; [done|set_solver].
Qed.

Lemma split_once_None l : split_once 46 l = None → 46 ∉ l.
Proof.
  induction l as [|b l IH]; simpl; [set_solver|]. destruct (Z.eqb_spec b 46); [done|].
  destruct (split_once 46 l) as [[? ?]|]; [done|]. set_solver.
Qed.

(** The two halves a name is stored as, and the text they are read back as. *)
Definition padded (base ext : list Z) : list Z :=
  base ++ replicate (8 - length base) 32 ++ ext ++ replicate (3 - length ext) 32.
Definition dotted (base ext : list Z) : list Z :=
  base ++ match ext with [] => [] | _ => 46 :: ext end.

(** A name that ends in the dot that separates nothing: [FILE.]. *)
Definition bare_dot (nm : list Z) : bool :=
  match split_once 46 nm with Some (_, []) => true | _ => false end.

Record halves (nm base ext : list Z) : Prop := {
  halves_base : (1 ≤ length base ≤ 8)%nat;
  halves_ext : (length ext ≤ 3)%nat;
  halves_stored : Forall stored base ∧ Forall stored ext;
  halves_dot : 46 ∉ base;
  halves_name : if bare_dot nm then ext = [] ∧ upper nm = base ++ [46] else upper nm = dotted base ext
}.

Lemma upper_no_dot l : Forall (λ b, 0 ≤ b) l → 46 ∉ l → 46 ∉ upper l.
Proof.
  intros Hl Hn (b & Hb & Hin)%list_elem_of_fmap. apply Hn.
  rewrite Forall_forall in Hl. specialize (Hl _ Hin). symmetry in Hb.
  by apply upper_dot in Hb as ->.
Qed.

Lemma encode_halves nm enc :
  encode_name nm = Some enc → ∃ base ext, enc = padded base ext ∧ halves nm base ext.
Proof.
  unfold encode_name. intros H.
  set (be := match split_once 46 nm with Some (b, e) => (b, e) | None => (nm, []) end) in H.
  assert (46 ∉ be.1 ∧ if bare_dot nm then be.2 = [] ∧ nm = be.1 ++ [46] else nm = dotted be.1 be.2)
    as [Hdot Hnm].
  { unfold be, bare_dot, dotted. destruct (split_once 46 nm) as [[b e]|] eqn:E; simpl.
    - apply split_once_spec in E as [-> ?]. split; [done|]. by destruct e.
    - split; [by apply split_once_None|by rewrite app_nil_r]. }
  destruct be as [base ext]; simpl in *. destruct (_ || _) eqn:El; [done|].
  rewrite !orb_false_iff, Z.eqb_neq, !Z.ltb_ge in El. destruct El as [[L1 L2] L3]. unfold len in *.
  destruct (mapM allowed_in_a_name base) as [B|] eqn:EB; simpl in H; [|done].
  destruct (mapM allowed_in_a_name ext) as [X|] eqn:EX; simpl in H; [|done].
  destruct (_ =? ENTRY_DELETED); simplify_eq.
  destruct (mapM_allowed _ _ EB) as (-> & HsB & HnB). destruct (mapM_allowed _ _ EX) as (-> & HsX & _).
  exists (upper base), (upper ext). split; [done|].
  assert (length (upper base) = length base ∧ length (upper ext) = length ext) as [E1 E2]
    by (unfold upper; by rewrite !length_map).
  split; rewrite ?E1, ?E2; try lia; [done| |].
  - by apply upper_no_dot.
  - destruct (bare_dot nm); [destruct Hnm as [-> ->]|rewrite Hnm]; unfold upper, dotted;
      rewrite map_app; [done|]. by destruct ext.
Qed.

Lemma until_space_app l r : Forall stored l → until_space (l ++ 32 :: r) = l.
Proof.
  induction 1 as [|b l [Hb _] Hl IH]; [done|]. simpl. destruct (Z.eqb_spec b 32); [lia|]. by rewrite IH.
Qed.

Lemma until_space_pad l n : Forall stored l → until_space (l ++ replicate n 32) = l.
Proof.
  destruct n; simpl; [|apply until_space_app]. rewrite app_nil_r.
  induction 1 as [|b l [Hb _] Hl IH]; [done|]. simpl. destruct (Z.eqb_spec b 32); [lia|]. by rewrite IH.
Qed.

Lemma padded_length base ext :
  (length base ≤ 8)%nat → (length ext ≤ 3)%nat → length (padded base ext) = 11%nat.
Proof. intros. unfold padded. rewrite !length_app, !length_replicate. lia. Qed.

(** What a stored name reads back as. *)
Lemma slot_name_padded nm base ext r :
  halves nm base ext → slot_name (padded base ext ++ r) = dotted base ext.
Proof.
  intros [Hb He [Hsb Hse] _ _]. unfold slot_name, padded.
  set (p := base ++ replicate (8 - length base) 32).
  assert (length p = 8%nat) as Hp by (unfold p; rewrite length_app, length_replicate; lia).
  rewrite !app_assoc. fold p. rewrite <-!app_assoc.
  rewrite take_app_le, (take_ge p) by lia. unfold p at 1. rewrite until_space_pad by done.
  unfold dotted. f_equal.
  assert (Boot.byte_at (p ++ ext ++ replicate (3 - length ext) 32 ++ r) 8
    = nth 0 (ext ++ replicate (3 - length ext) 32 ++ r) 0) as ->.
  { unfold Boot.byte_at. change (Z.to_nat 8) with 8%nat. rewrite app_nth2 by lia. by rewrite Hp. }
  rewrite drop_app_ge, Hp, drop_0 by lia.
  destruct ext as [|b ext]; simpl; [done|].
  apply Forall_cons in Hse as [[? ?] Hse]. destruct (Z.eqb_spec b 32); [lia|]. f_equal.
  rewrite app_assoc. simpl in He.
  rewrite take_app_le by (simpl; rewrite length_app, length_replicate; lia).
  rewrite take_ge by (simpl; rewrite length_app, length_replicate; lia).
  by rewrite until_space_pad.
Qed.

Lemma utf8_ascii l : Forall (λ b, 0 ≤ b < 128) l → utf8_from [] l = true.
Proof.
  induction 1 as [|b l Hb Hl IH]; [done|]. simpl. unfold utf8_head, in_range.
  destruct (Z.leb_spec 0 b), (Z.leb_spec b 127); try lia. done.
Qed.

Lemma dotted_stored nm base ext : halves nm base ext → Forall (λ b, 32 < b < 127 ∧ to_ascii_uppercase b = b) (dotted base ext).
Proof.
  intros [_ _ [Hb He] _ _]. unfold dotted. apply Forall_app. split; [done|].
  destruct ext; [done|]. constructor; [done|done].
Qed.

Lemma dotted_length nm base ext : halves nm base ext → (length (dotted base ext) ≤ 12)%nat.
Proof. intros [? ? _ _ _]. unfold dotted. rewrite length_app. destruct ext; simpl in *; lia. Qed.

(** The entry a written name and its numbers read back as. *)
Definition file_entry (base ext : list Z) (first size : Z) : DirectoryEntry :=
  {| ename := dotted base ext ++ replicate (12 - length (dotted base ext)) 0;
     name_len := len (dotted base ext); attributes := ATTR_ARCHIVE;
     first_cluster := first; esize := size |}.

Lemma file_entry_name nm base ext first size :
  halves nm base ext → name (file_entry base ext first size) = dotted base ext.
Proof.
  intros Hh. unfold name. simpl. unfold len. rewrite Nat2Z.id, take_app_length.
  unfold text_or_empty. rewrite utf8_ascii; [done|].
  eapply Forall_impl; [by eapply dotted_stored|]. simpl. lia.
Qed.

Lemma eq_ic_upper (l l' : list Z) :
  length l = length l' →
  forallb (λ '(a, b), eq_ignore_ascii_case a b) (zip l l') = true ↔ upper l = upper l'.
Proof.
  revert l'; induction l as [|a l IH]; intros [|b l'] Hl; simpl in Hl; try done.
  simpl. rewrite andb_true_iff, IH by lia. unfold eq_ignore_ascii_case. rewrite Z.eqb_eq.
  split; [intros [-> ->]; done|intros [= -> ->]; done].
Qed.

Lemma is_named_upper e nm : is_named e nm = true ↔ upper (name e) = upper nm.
Proof.
  unfold is_named, len. rewrite andb_true_iff, Z.eqb_eq. split.
  - intros [Hl Hf]. apply eq_ic_upper; [lia|done].
  - intros Hu. assert (length (name e) = length nm) as Hl.
    { apply (f_equal length) in Hu. unfold upper in Hu. by rewrite !length_map in Hu. }
    split; [lia|]. by apply eq_ic_upper.
Qed.

Lemma upper_stored l : Forall (λ b, 32 < b < 127 ∧ to_ascii_uppercase b = b) l → upper l = l.
Proof. induction 1 as [|b l [_ Hb] _ IH]; [done|]. simpl. by rewrite Hb, IH. Qed.

Lemma dot_split (a b x y : list Z) : 46 ∉ a → 46 ∉ b → a ++ 46 :: x = b ++ 46 :: y → a = b ∧ x = y.
Proof.
  revert b; induction a as [|c a IH]; intros [|d b] Ha Hb; simpl; intros Heq; simplify_eq; try set_solver.
  destruct (IH b) as [-> ->]; [set_solver..|done|done].
Qed.

(** The stored form determines the two halves. *)
Lemma padded_inj nm nm' base ext base' ext' :
  halves nm base ext → halves nm' base' ext' → padded base ext = padded base' ext' →
  base = base' ∧ ext = ext'.
Proof.
  intros Hh Hh' Heq. pose proof (slot_name_padded _ _ _ [] Hh) as H1.
  pose proof (slot_name_padded _ _ _ [] Hh') as H2. rewrite Heq, H2 in H1. unfold dotted in H1.
  destruct Hh as [_ _ _ Hd _], Hh' as [_ _ _ Hd' _].
  destruct ext as [|x ext], ext' as [|x' ext']; rewrite ?app_nil_r in H1.
  - done.
  - subst base. set_solver.
  - subst base'. set_solver.
  - apply dot_split in H1 as [-> [= -> ->]]; done.
Qed.

Lemma dotted_inj nm nm' base ext base' ext' :
  halves nm base ext → halves nm' base' ext' → dotted base ext = dotted base' ext' →
  base = base' ∧ ext = ext'.
Proof.
  intros [_ _ _ Hd _] [_ _ _ Hd' _] H1. unfold dotted in H1.
  destruct ext as [|x ext], ext' as [|x' ext']; rewrite ?app_nil_r in H1.
  - done.
  - subst base. set_solver.
  - subst base'. set_solver.
  - apply dot_split in H1 as [-> [= -> ->]]; done.
Qed.

(** A file is found under a name exactly when that name has the same stored
    form and does not end in a dot that separates nothing. *)
Lemma named_iff nm base ext nm' base' ext' first size :
  halves nm base ext → halves nm' base' ext' →
  is_named (file_entry base ext first size) nm' = true ↔
  padded base ext = padded base' ext' ∧ bare_dot nm' = false.
Proof.
  intros Hh Hh'. rewrite is_named_upper, (file_entry_name nm) by done.
  rewrite upper_stored by by eapply dotted_stored.
  pose proof Hh' as [_ _ _ Hd' Hn]. pose proof Hh as [_ _ _ Hd _].
  destruct (bare_dot nm'); [destruct Hn as [-> Hn]|]; rewrite Hn; split; try naive_solver.
  - unfold dotted. destruct ext as [|x ext]; rewrite ?app_nil_r; [intros ->; set_solver|].
    intros [_ ?]%dot_split; done.
  - intros Heq. destruct (dotted_inj _ _ _ _ _ _ Hh Hh' Heq) as [-> ->]. done.
  - intros [Heq _]. by destruct (padded_inj _ _ _ _ _ _ Hh Hh' Heq) as [-> ->].
Qed.

(** ** Entries *)
Lemma lor_halves hi lo : 0 ≤ lo < 2 ^ 16 → Z.lor (Z.shiftl hi 16) lo = hi * 2 ^ 16 + lo.
Proof.
  intros Hlo. rewrite <-Z.shiftl_mul_pow2 by lia. rewrite <-Z.add_lor_land.
  assert (Z.land (Z.shiftl hi 16) lo = 0) as ->; [|lia].
  apply Z.bits_inj'. intros n Hn. rewrite Z.land_spec, Z.bits_0.
  destruct (Z.lt_ge_cases n 16).
  - rewrite Z.shiftl_spec_low by done. done.
  - rewrite (Z.bits_above_log2 lo n), andb_false_r; [done|lia|].
    destruct (decide (lo = 0)) as [->|]; [simpl; lia|]. apply Z.log2_lt_pow2; [lia|].
    apply Z.lt_le_trans with (2 ^ 16); [lia|]. apply Z.pow_le_mono_r; lia.
Qed.

Lemma le_decode_2 z : 0 ≤ z < 2 ^ 16 → z mod 256 + 256 * (z / 256 mod 256 + 256 * 0) = z.
Proof. intros. apply (le_decode_encode 2 z). done. Qed.
Lemma le_decode_4 z :
  0 ≤ z < 2 ^ 32 →
  z mod 256 + 256 * (z / 256 mod 256 + 256 * (z / 256 / 256 mod 256
    + 256 * (z / 256 / 256 / 256 mod 256 + 256 * 0))) = z.
Proof. intros. apply (le_decode_encode 4 z). done. Qed.

Lemma decode_encode_entry nm base ext first size :
  halves nm base ext → 0 ≤ first < 2 ^ 32 → 0 ≤ size < 2 ^ 32 →
  decode_slot (encode_entry (padded base ext) first size) = SlotEntry (file_entry base ext first size).
Proof.
  intros Hh Hf Hs. pose proof (dotted_length _ _ _ Hh) as Hdl.
  pose proof Hh as [Hb He [Hsb _] _ _]. unfold encode_entry.
  pose proof (padded_length base ext ltac:(lia) ltac:(lia)) as Hl.
  assert (32 < Boot.byte_at (padded base ext) 0 < 127) as H0.
  { destruct base as [|b base]; [simpl in Hb; lia|]. apply Forall_cons in Hsb as [[? _] _]. done. }
  assert (0 ≤ Z.shiftr first 16 < 2 ^ 16) as Hhi.
  { rewrite Z.shiftr_div_pow2 by lia. split; [apply Z.div_pos; lia|]. apply Z.div_lt_upper_bound; lia. }
  pose proof (slot_name_padded _ _ _ ([ATTR_ARCHIVE] ++ replicate 8 0 ++ le_encode 2 (wrap 16 (Z.shiftr first 16))
    ++ replicate 4 0 ++ le_encode 2 (wrap 16 first) ++ le_encode 4 (wrap 32 size)) Hh) as Hname.
  unfold decode_slot, file_entry. rewrite Hname.
  destruct (padded base ext) as [|x0 [|x1 [|x2 [|x3 [|x4 [|x5 [|x6 [|x7 [|x8 [|x9 [|x10 [|]]]]]]]]]]]];
    try (simpl in Hl; lia). clear Hl Hname.
  unfold Boot.byte_at in H0. simpl in H0.
  unfold Boot.u16_at, Boot.u32_at, Boot.byte_at, ENTRY_NEVER_USED, ENTRY_DELETED.
  cbn [app nth Z.to_nat Pos.to_nat Pos.iter_op Init.Nat.add Z.add Pos.add Pos.succ le_encode replicate ATTR_ARCHIVE].
  simpl. rewrite le_decode_2, le_decode_2, le_decode_4 by (by apply Z.mod_pos_bound).
  unfold wrap. rewrite (Z.mod_small (Z.shiftr first 16)), (Z.mod_small size) by done.
  rewrite lor_halves by (by apply Z.mod_pos_bound).
  rewrite Z.shiftr_div_pow2 by lia. rewrite (Z.mul_comm (first / 2 ^ 16)), <-Z.div_mod by lia.
  by rewrite (proj2 (Z.eqb_neq x0 0)), (proj2 (Z.eqb_neq x0 229)) by lia.
Qed.

(** ** Properties *)

(** C14: A boot sector that [parse] accepts can be used without looking back:
    nothing in the arithmetic of clusters wraps or divides by zero; every
    cluster the volume has begins a run of sectors inside the volume and
    after the tables, and a number that is no cluster has none; two clusters
    share no sector; and the entry of a cluster lies inside each copy of the
    table, never in another table, the reserved sectors or the data. *)
Theorem fat_boot_sector_sound sector b :
  length sector = 512%nat → bytes_ok sector → Boot.parse sector = Ok b →
  geometry b ∧ Boot.cluster_bytes b = 512 * sectors_per_cluster b ∧
  (∀ c, ¬ 2 ≤ c < 2 + clusters b → Boot.sector_of_cluster b c = None) ∧
  (∀ c, 2 ≤ c < 2 + clusters b → ∃ s, Boot.sector_of_cluster b c = Some s ∧
     reserved_sectors b + fat_count b * sectors_per_fat b ≤ s ∧
     s + sectors_per_cluster b ≤ total_sectors b) ∧
  (∀ c c' s s' i i', Boot.sector_of_cluster b c = Some s → Boot.sector_of_cluster b c' = Some s' →
     0 ≤ i < sectors_per_cluster b → 0 ≤ i' < sectors_per_cluster b → s + i = s' + i' →
     c = c' ∧ i = i') ∧
  (∀ t c, 0 ≤ t < fat_count b → 2 ≤ c < 2 + clusters b →
     reserved_sectors b + t * sectors_per_fat b ≤ table_sector b t c
       < reserved_sectors b + (t + 1) * sectors_per_fat b).
Proof.
  intros _ Hb Hp. pose proof (parse_geometry _ _ Hb Hp) as Hg.
  split_and!; [done|by apply cluster_bytes_spec| | | |].
  - intros c Hc. rewrite sector_of_cluster_spec by done. by rewrite decide_False.
  - intros c Hc. rewrite sector_of_cluster_spec by done. rewrite decide_True by done.
    eexists. split; [done|]. by apply cluster_start_bounds.
  - intros c c' s s' i i'. rewrite !sector_of_cluster_spec by done.
    do 2 (case_decide; [|done]). intros [= <-] [= <-]. unfold cluster_start.
    destruct Hg as [? ? _ ? ? ? ? ? ? ? ? ?]. intros Hi Hi' Heq.
    assert (c = c') as -> by nia. split; [done|lia].
  - intros t c Ht Hc. destruct (table_sector_bounds b Hg t c Ht Hc) as [Hd _].
    unfold table_sector. lia.
Qed.

(** A 33 MB volume: 512-byte sectors, one per cluster, 32 reserved sectors,
    two tables of 520 sectors. *)
Definition example_sector : list Z :=
  replicate 11 0 ++ le_encode 2 512 ++ [1] ++ le_encode 2 32 ++ [2] ++ replicate 15 0
  ++ le_encode 4 67000 ++ le_encode 4 520 ++ replicate 4 0 ++ le_encode 4 2
  ++ le_encode 2 1 ++ le_encode 2 6 ++ replicate 458 0 ++ [0x55; 0xAA].

Definition example_boot : BootSector :=
  match Boot.parse example_sector with Ok b => b | _ =>
    {| bytes_per_sector := 0; sectors_per_cluster := 0; reserved_sectors := 0; fat_count := 0;
       total_sectors := 0; sectors_per_fat := 0; root_cluster := 0; fs_info_sector := 0;
       backup_boot_sector := 0; clusters := 0; volume_id := None |} end.

Lemma fat_boot_sector_sound_witness :
  Boot.parse example_sector = Ok example_boot ∧ geometry example_boot ∧ clusters example_boot = 65928.
Proof.
  assert (Boot.parse example_sector = Ok example_boot) as Hp by (vm_compute; reflexivity).
  split; [exact Hp|]. split; [|vm_compute; reflexivity].
  apply (fat_boot_sector_sound example_sector example_boot); [vm_compute; reflexivity| |exact Hp].
  refine (bool_decide_unpack _ _). vm_compute. exact I.
Defined.

(** Writing a name and reading it back agree: a name [encode_name]
    accepts is stored as an entry that is live, is a plain file, carries
    exactly the cluster and size written, and is found under another
    acceptable name exactly when that one has the same stored form and does
    not end in a bare dot.  So different names never collide, and the case
    of letters never matters. *)
Theorem fat_name_roundtrip nm enc nm' enc' first size :
  encode_name nm = Some enc → encode_name nm' = Some enc' →
  0 ≤ first < 2 ^ 32 → 0 ≤ size < 2 ^ 32 →
  length (encode_entry enc first size) = 32%nat ∧
  ∃ e, decode_slot (encode_entry enc first size) = SlotEntry e ∧
    first_cluster e = first ∧ esize e = size ∧ is_directory e = false ∧
    (is_named e nm' = true ↔ enc = enc' ∧ bare_dot nm' = false).
Proof.
  intros (base & ext & -> & Hh)%encode_halves (base' & ext' & -> & Hh')%encode_halves Hf Hs.
  split.
  { destruct Hh as [? ? _ _ _]. unfold encode_entry. rewrite !length_app, padded_length by lia. done. }
  eexists. split; [by eapply decode_encode_entry|]. split_and!; try done.
  by eapply named_iff.
Qed.

(** [abc.t] and [ABC.T]. *)
Lemma fat_name_roundtrip_witness :
  ∃ enc e, encode_name [97; 98; 99; 46; 116] = Some enc ∧
    decode_slot (encode_entry enc 70000 5) = SlotEntry e ∧ is_named e [65; 66; 67; 46; 84] = true.
Proof.
  destruct (encode_name [97; 98; 99; 46; 116]) as [enc|] eqn:E; [|vm_compute in E; discriminate E].
  destruct (fat_name_roundtrip [97; 98; 99; 46; 116] enc [65; 66; 67; 46; 84] enc 70000 5)
    as (_ & e & He & _ & _ & _ & Hn); [exact E| |lia|lia|].
  { rewrite <-E. vm_compute. reflexivity. }
  exists enc, e. split; [reflexivity|]. split; [exact He|].
  apply Hn. split; [reflexivity|vm_compute; reflexivity].
Defined.

(** The two ways the kernel compares names disagree on a bare dot: [A.] is
    written over the file [A], which is then not found under that name. *)
Lemma bare_dot_overwrites :
  encode_name [65; 46] = encode_name [65] ∧
  ∀ e, name e = [65] → is_named e [65] = true ∧ is_named e [65; 46] = false.
Proof.
  split; [reflexivity|]. intros e He. unfold is_named. rewrite He. done.
Qed.
