(* ===== verification/FatDisk.v ===== *)
(** * Devices that keep what is written on them, and may fail

    What the volume code relies on from its [Sectors]: the class [Disk].  A
    device has a content; a read answers the sector or an error, a write
    changes that sector or fails, having changed it or not.  [Image] is the
    device that never fails and remembers every write in order.

    [follows] relates an operation on any [Disk] to the same operation on
    the [Image] with the same content: either they end alike, or the device
    failed, and then the device holds what the image held after some prefix
    of the writes.  So a statement about every prefix of the writes of an
    operation is a statement about every moment it can be cut short. *)

From S2P Require Import Prelude Words Bytes FatFormat FatVolume.
Local Open Scope Z_scope.

Notation content := (Z → list Z).

Class Disk (S E : Type) `{Sectors S E} := {
  view : S → content;
  read_law n s : ∃ r s', read_sector n s = (r, s') ∧ view s' = view s ∧
    (r = Ok (view s n) ∨ ∃ e, r = Err e);
  write_law n bytes s : ∃ r s', write_sector n bytes s = (r, s') ∧
    ((r = Ok () ∧ view s' = <[n := bytes]> (view s)) ∨
     (∃ e, r = Err e ∧ (view s' = view s ∨ view s' = <[n := bytes]> (view s))))
}.

(** ** The image *)
Record Image := { origin : content; log : list (Z * list Z) }.

Definition replay (d : content) (l : list (Z * list Z)) : content :=
  foldl (λ d w, <[w.1 := w.2]> d) d l.

Definition now (i : Image) : content := replay (origin i) (log i).

#[export] Instance image_sectors E : Sectors Image E := {
  read_sector n i := (Ok (now i n), i);
  write_sector n bytes i := (Ok (), {| origin := origin i; log := log i ++ [(n, bytes)] |})
}.

(** [i'] is [i] after some more writes. *)
Definition later (i i' : Image) : Prop := origin i' = origin i ∧ log i `prefix_of` log i'.

#[export] Instance later_preorder : PreOrder later.
Proof.
  split; [done|]. intros i j k [E1 P1] [E2 P2]. split; [congruence|by transitivity (log j)].
Qed.

Lemma replay_app d l l' : replay d (l ++ l') = replay (replay d l) l'.
Proof. apply foldl_app. Qed.

Lemma now_write i n bytes :
  now {| origin := origin i; log := log i ++ [(n, bytes)] |} = <[n := bytes]> (now i).
Proof. unfold now. simpl. by rewrite replay_app. Qed.

Lemma later_write i n bytes : later i {| origin := origin i; log := log i ++ [(n, bytes)] |}.
Proof. split; simpl; [done|by apply prefix_app_r]. Qed.

(** ** Following *)
(** The device's own failures, wherever the volume code puts them. *)
Definition vol_device {E} (e : VolumeError E) : Prop := ∃ x, e = Device x.
Definition write_device {E} (e : WriteError E) : Prop :=
  (∃ x, e = WDevice x) ∨ ∃ x, e = Reading (Device x).

Section follows.
  Context {S E : Type} `{Disk S E}.

Definition follows {X A} (failed : X → Prop) (m : dev S X A) (p : dev Image X A) : Prop :=
  (∀ i, later i (p i).2) ∧
  ∀ s i, view s = now i →
    ∃ r s', m s = (r, s') ∧
      ((r = (p i).1 ∧ view s' = now (p i).2) ∨
       (∃ e j, r = Err e ∧ failed e ∧ later i j ∧ later j (p i).2 ∧ view s' = now j)).

Section rules.
  Context {X : Type} (failed : X → Prop).

Lemma follows_lift {A} (r : res X A) : follows failed (lift r) (lift r).
Proof. split; [done|]. intros s i Hs. eexists _, _. split; [done|by left]. Qed.

Lemma follows_ret {A} (a : A) : follows failed (mret a) (mret a).
Proof. apply (follows_lift (Ok a)). Qed.

Lemma follows_bind {A B} (m : dev S X A) p (f : A → dev S X B) g :
  follows failed m p → (∀ a, follows failed (f a) (g a)) → follows failed (m ≫= f) (p ≫= g).
Proof.
  intros [Hlm Hm] Hf.
  assert (∀ i, later i ((p ≫= g) i).2 ∧ later (p i).2 ((p ≫= g) i).2) as Hlater.
  { intros i. unfold mbind, dev_bind. specialize (Hlm i). destruct (p i) as [rp i']; simpl in *.
    destruct rp as [a| | |]; try done. destruct (Hf a) as [Hl _]. split; [|apply Hl].
    transitivity i'; [done|apply Hl]. }
  split; [apply Hlater|]. intros s i Hs. destruct (Hlater i) as [_ Hrest].
  destruct (Hm s i Hs) as (r & s' & Em & [[-> Hs']|(e & j & -> & He & Hj1 & Hj2 & Hs')]).
  - unfold mbind, dev_bind in *. rewrite Em. specialize (Hlm i). destruct (p i) as [rp i']; simpl in *.
    destruct rp as [a|e| |]; try (eexists _, _; split; [done|by left]).
    destruct (Hf a) as [Hl Hfa]. destruct (Hfa s' i' Hs') as (r & s'' & -> & Hcase).
    eexists _, _. split; [done|]. destruct Hcase as [?|(e & j & ? & ? & ? & ? & ?)]; [by left|right].
    exists e, j. split_and!; try done. by transitivity i'.
  - eexists (Err e), s'. split; [unfold mbind, dev_bind; by rewrite Em|].
    right. exists e, j. split_and!; try done. by transitivity (p i).2.
Qed.

Lemma follows_for_in {A B} (l : list A) (f : B → A → dev S X B) g b :
  (∀ b a, follows failed (f b a) (g b a)) → follows failed (for_in l f b) (for_in l g b).
Proof.
  intros Hf. revert b; induction l as [|a l IH]; intros b; simpl; [apply follows_ret|].
  apply follows_bind; [apply Hf|apply IH].
Qed.

Lemma follows_for_until {A B R} (l : list A) (f : B → A → dev S X (B + R)) g b :
  (∀ b a, follows failed (f b a) (g b a)) → follows failed (for_until l f b) (for_until l g b).
Proof.
  intros Hf. revert b; induction l as [|a l IH]; intros b; simpl; [apply follows_ret|].
  apply follows_bind; [apply Hf|]. intros [b'|r]; [apply IH|apply follows_ret].
Qed.

Lemma follows_if {A} (c : bool) (m m' : dev S X A) p p' :
  follows failed m p → follows failed m' p' →
  follows failed (if c then m else m') (if c then p else p').
Proof. by destruct c. Qed.
End rules.

Lemma follows_map_err {X Y A} (failed : X → Prop) (failed' : Y → Prop) (f : X → Y) (m : dev S X A) p :
  (∀ e, failed e → failed' (f e)) → follows failed m p →
  follows failed' (dev_map_err f m) (dev_map_err f p).
Proof.
  intros Hf [Hl Hm]. split.
  - intros i. unfold dev_map_err. specialize (Hl i). by destruct (p i).
  - intros s i Hs. unfold dev_map_err.
    destruct (Hm s i Hs) as (r & s' & -> & [[-> ?]|(e & j & -> & ? & ? & ? & ?)]).
    + eexists _, _. split; [done|]. left. by destruct (p i).
    + eexists _, _. split; [done|]. right. exists (f e), j. split_and!; auto. by destruct (p i).
Qed.

Lemma follows_read_sector n : follows (λ _, True) (read_sector n) (read_sector n).
Proof.
  split; [done|]. intros s i Hs. destruct (read_law n s) as (r & s' & -> & Hv & Hr).
  eexists _, _. split; [done|]. simpl. rewrite <-Hs. destruct Hr as [->|[e ->]]; [by left|right].
  exists e, i. split_and!; try done. by rewrite Hv.
Qed.

Lemma follows_write_sector n bytes : follows (λ _, True) (write_sector n bytes) (write_sector n bytes).
Proof.
  split; [intros i; apply later_write|]. intros s i Hs.
  destruct (write_law n bytes s) as (r & s' & -> & Hr). eexists _, _. split; [done|].
  change (write_sector n bytes i).2 with {| origin := origin i; log := log i ++ [(n, bytes)] |}.
  rewrite now_write, <-Hs. destruct Hr as [[-> Hv]|(e & -> & [Hv|Hv])]; [by left|right..].
  - exists e, i. split_and!; try done; [apply later_write|by rewrite Hv].
  - eexists e, _. split_and!; [done..|apply later_write|done|]. by rewrite now_write, <-Hs.
Qed.
End follows.

(** ** Every operation of a volume *)
Create HintDb follows.

Ltac follow1 :=
  first
    [ solve [eauto with follows]
    | apply follows_lift | apply follows_ret
    | apply follows_bind; [|intros ?]
    | apply follows_for_in; intros ? ?
    | apply follows_for_until; intros ? ?
    | match goal with |- follows _ (if decide ?c then _ else _) _ => destruct (decide c) end
    | match goal with |- follows _ (if ?c then _ else _) (if ?c then _ else _) => destruct c end
    | match goal with |- follows _ (match ?x with _ => _ end) _ => destruct x end ].
Ltac follow := repeat follow1.

Section volume.
  Context {S E : Type} `{Disk S E} (boot : BootSector).
  Notation vf := (@vol_device E).
  Notation wf := (@write_device E).

Lemma follows_read n : follows vf (read (S:=S) id n) (read id n).
Proof. apply (follows_map_err (λ _, True)); [by eexists|apply follows_read_sector]. Qed.
Lemma follows_wread n : follows wf (read (S:=S) Reading n) (read Reading n).
Proof. apply (follows_map_err (λ _, True)); [right; by eexists|apply follows_read_sector]. Qed.
Lemma follows_write n bytes : follows wf (write (S:=S) (E:=E) n bytes) (write n bytes).
Proof. apply (follows_map_err (λ _, True)); [left; by eexists|apply follows_write_sector]. Qed.
Lemma follows_reading {A} (m : dev S (VolumeError E) A) p :
  follows vf m p → follows wf (dev_map_err Reading m) (dev_map_err Reading p).
Proof. apply follows_map_err. intros e [x ->]. right. by eexists. Qed.
Hint Resolve follows_read follows_wread follows_write follows_reading : follows.

Lemma follows_sector_of {X} (failed : X → Prop) f c :
  follows failed (sector_of (S:=S) (E:=E) boot f c) (sector_of boot f c).
Proof. apply follows_lift. Qed.
Hint Resolve follows_sector_of : follows.

Lemma follows_next_cluster c :
  follows vf (next_cluster (S:=S) (E:=E) boot c) (next_cluster boot c).
Proof. unfold next_cluster. follow. Qed.
Hint Resolve follows_next_cluster : follows.

Lemma follows_read_root {T} (each : T → DirectoryEntry → T * bool) t :
  follows vf (read_root (S:=S) (E:=E) boot each t) (read_root boot each t).
Proof.
  unfold read_root. generalize (fuel_for_chain boot) (root_cluster boot) 0. intros fuel.
  revert t. induction fuel as [|fuel IH]; intros t c n; cbn [read_root_loop].
  { apply follows_lift. }
  follow1; [apply follows_sector_of|]. follow1.
  { apply follows_for_until. intros. unfold root_sector, root_slot. follow. }
  destruct a0; [|apply follows_ret]. follow.
Qed.
Hint Resolve follows_read_root : follows.

Lemma follows_read_file_loop fuel size c n w b :
  follows vf (read_file_loop (S:=S) (E:=E) boot fuel size c n w b) (read_file_loop boot fuel size c n w b).
Proof.
  revert c n w b. induction fuel as [|fuel IH]; intros c n w b; cbn [read_file_loop]; [apply follows_lift|].
  apply follows_if; [apply follows_ret|]. follow1; [apply follows_sector_of|]. follow1.
  { apply follows_for_in. intros [? ?] ?. unfold read_file_sector. follow. }
  destruct a0 as [w' b']. follow.
Qed.
Hint Resolve follows_read_file_loop : follows.

Lemma follows_read_file entry into :
  follows vf (read_file (S:=S) (E:=E) boot entry into) (read_file boot entry into).
Proof. unfold read_file. follow. Qed.

Lemma follows_read_at_sectors fuel want first sector within written into :
  follows vf (read_at_sectors (S:=S) (E:=E) boot fuel want first sector within written into)
    (read_at_sectors boot fuel want first sector within written into).
Proof.
  revert sector within written into.
  induction fuel as [|fuel IH]; intros; cbn [read_at_sectors]; [apply follows_lift|].
  follow.
Qed.
Hint Resolve follows_read_at_sectors : follows.

Lemma follows_read_at_loop fuel want c n inside w b :
  follows vf (read_at_loop (S:=S) (E:=E) boot fuel want c n inside w b)
    (read_at_loop boot fuel want c n inside w b).
Proof.
  revert c n inside w b.
  induction fuel as [|fuel IH]; intros c n inside w b; cbn [read_at_loop]; [apply follows_lift|].
  apply follows_if; [apply follows_ret|]. follow1; [apply follows_sector_of|].
  follow1; [apply follows_read_at_sectors|]. destruct a0 as [w' b']. follow.
Qed.
Hint Resolve follows_read_at_loop : follows.

Lemma follows_read_at entry offset into :
  follows vf (read_at (S:=S) (E:=E) boot entry offset into) (read_at boot entry offset into).
Proof.
  unfold read_at. apply follows_if; [apply follows_ret|]. cbv zeta. apply follows_if; [apply follows_ret|].
  follow1; [|destruct a; follow].
  apply follows_for_in. intros [? ?] ?. unfold skip_cluster. follow.
Qed.

Lemma follows_set_next_cluster c v :
  follows wf (set_next_cluster (S:=S) (E:=E) boot c v) (set_next_cluster boot c v).
Proof. unfold set_next_cluster, set_in_table. follow. Qed.
Hint Resolve follows_set_next_cluster : follows.

Lemma follows_free_clusters n :
  follows wf (free_clusters (S:=S) (E:=E) boot n) (free_clusters boot n).
Proof.
  unfold free_clusters. apply follows_if; [apply follows_lift|]. follow1.
  - generalize (fuel_for_chain boot) 0 FIRST_DATA_CLUSTER (replicate (Z.to_nat MAX_FILE_CLUSTERS) 0).
    intros fuel. induction fuel as [|fuel IH]; intros; cbn [free_clusters_loop]; [apply follows_lift|].
    follow.
  - destruct a. follow.
Qed.
Hint Resolve follows_free_clusters : follows.

Lemma follows_write_clusters chain contents :
  follows wf (write_clusters (S:=S) (E:=E) boot chain contents) (write_clusters boot chain contents).
Proof.
  unfold write_clusters. apply follows_for_in. intros _ [i c]. follow1; [apply follows_sector_of|].
  apply follows_for_in. intros. unfold write_cluster_sector. follow.
Qed.

Lemma follows_directory_slot nm :
  follows wf (directory_slot (S:=S) (E:=E) boot nm) (directory_slot boot nm).
Proof.
  unfold directory_slot. generalize (fuel_for_chain boot) (root_cluster boot) 0 (@None (Z * Z)). intros fuel.
  induction fuel as [|fuel IH]; intros c n fr; cbn [directory_slot_loop]; [apply follows_lift|].
  follow1; [apply follows_sector_of|]. follow1.
  { apply follows_for_until. intros. unfold directory_slot_sector. follow1; [apply follows_wread|].
    apply follows_for_until. intros ? [? ?]. unfold directory_slot_slot. follow. }
  destruct a0; [|apply follows_ret]. follow.
Qed.

Lemma follows_free_chain c keep :
  follows wf (free_chain (S:=S) (E:=E) boot c keep) (free_chain boot c keep).
Proof.
  unfold free_chain. generalize (fuel_for_chain boot) c 0. intros fuel.
  induction fuel as [|fuel IH]; intros; cbn [free_chain_loop]; [apply follows_lift|].
  follow.
Qed.

Hint Resolve follows_free_chain : follows.

Lemma follows_update_fs_info : follows wf (update_fs_info (S:=S) (E:=E) boot) (update_fs_info boot).
Proof. unfold update_fs_info. follow. Qed.

Lemma follows_write_links chain :
  follows wf (write_links (S:=S) (E:=E) boot chain) (write_links boot chain).
Proof. unfold write_links. apply follows_for_in. intros _ [? ?]. follow. Qed.

Lemma follows_write_file nm contents :
  follows wf (write_file (S:=S) (E:=E) boot nm contents) (write_file boot nm contents).
Proof.
  unfold write_file. follow1; [apply follows_lift|]. follow1; [apply follows_directory_slot|].
  destruct a0 as [[sector offset] existing]. apply follows_if; [apply follows_lift|].
  follow1; [apply follows_free_clusters|]. follow1; [apply follows_lift|].
  follow1; [apply follows_write_clusters|]. follow1; [apply follows_write_links|].
  follow1; [apply follows_wread|]. do 2 (follow1; [apply follows_lift|]).
  follow1; [apply follows_write|]. follow1.
  { destruct existing; follow. }
  follow1; [apply follows_update_fs_info|]. follow.
Qed.
End volume.

(** ** A device that dies after a number of requests *)
Record Dying := { disk : content; left : nat }.

#[export] Instance dying_sectors : Sectors Dying () := {
  read_sector n s :=
    match left s with
    | O => (Err (), s)
    | S k => (Ok (disk s n), {| disk := disk s; left := k |})
    end;
  write_sector n bytes s :=
    match left s with
    | O => (Err (), s)
    | S k => (Ok (), {| disk := <[n := bytes]> (disk s); left := k |})
    end
}.

#[export] Program Instance dying_disk : Disk Dying () := {| view := disk |}.
Next Obligation.
  intros n [d [|k]]; simpl; eexists _, _; (split; [done|]); split; try done; [right; by eexists|by left].
Qed.
Next Obligation.
  intros n bytes [d [|k]]; simpl; eexists _, _; (split; [done|]); [right; eexists; split; [done|by left]|by left].
Qed.
