(* ===== verification/FatRead.v ===== *)
(** * FAT32: what reading computes

    On the image of a volume ([Image]) every reading operation is a pure
    function of the content.  [walk] is the reference definition of a chain
    of clusters, [data] the bytes of a cluster. *)

From S2P Require Import Prelude Words Bytes FatFormat FatVolume FatFormatThms FatDisk.
Local Open Scope Z_scope.

(** Sectors hold 512 bytes. *)
Definition disk_ok (d : content) : Prop := ∀ n, length (d n) = 512%nat ∧ bytes_ok (d n).

(** A buffer whose front has been filled. *)
Definition fill {A} (pre into : list A) : list A := pre ++ drop (length pre) into.

Lemma len_fill {A} (pre into : list A) : len pre ≤ len into → len (fill pre into) = len into.
Proof. unfold len, fill. intros. rewrite length_app, length_drop. lia. Qed.

Lemma fill_more {A} (pre src into : list A) :
  len pre + len src ≤ len into →
  copy_at (fill pre into) (len pre) (len pre + len src) src = Some (fill (pre ++ src) into).
Proof.
  intros Hl. pose proof (len_nonneg pre). pose proof (len_nonneg src).
  rewrite copy_at_Some; [|lia|done|rewrite len_fill; lia].
  f_equal. unfold splice, fill, len. rewrite Nat2Z.id.
  rewrite take_app_length, drop_app_ge by lia. rewrite drop_drop, <-app_assoc. do 3 f_equal.
  rewrite length_app. lia.
Qed.

Lemma take_take_app {A} n (x y : list A) : take n (take n x ++ y) = take n (x ++ y).
Proof.
  destruct (decide (n ≤ length x)%nat).
  - rewrite take_app_le by (rewrite length_take; lia). rewrite take_take, Nat.min_id.
    by rewrite take_app_le by done.
  - by rewrite (take_ge x) by lia.
Qed.

(** ** The reference: chains of clusters *)
Section volume.
  Context {E : Type} (boot : BootSector) (Hg : geometry boot).

Definition has (c : Z) : Prop := FIRST_DATA_CLUSTER ≤ c < FIRST_DATA_CLUSTER + clusters boot.

#[local] Instance has_dec c : Decision (has c).
Proof. unfold has. apply _. Defined.

(** What table number [t] says of [c]; the first table is the one read. *)
Definition raw (t : Z) (d : content) (c : Z) : Z :=
  Boot.u32_at (d (table_sector boot t c)) (c mod 128 * 4).
Definition fat (d : content) (c : Z) : Entry := decode (raw 0 d c).

Definition data (d : content) (c : Z) : list Z :=
  concat (d <$> seqZ (cluster_start boot c) (sectors_per_cluster boot)).

(** [n] clusters of the chain that starts at [c]. *)
Fixpoint walk (d : content) (n : nat) (c : Z) : res (VolumeError E) (list Z) :=
  match n with
  | O => Ok []
  | S n =>
      if decide (has c) then
        match n with
        | O => Ok [c]
        | S _ =>
            match fat d c with
            | EntryNext c' => rest ← walk d n c'; Ok (c :: rest)
            | e => Err (BrokenChain c e)
            end
        end
      else Err (BadCluster c)
  end.

(** ** The primitives *)
Lemma read_run {X} (f : VolumeError E → X) n i : read f n i = (Ok (now i n), i).
Proof. done. Qed.

Lemma sector_of_run {X} (f : VolumeError E → X) c (i : Image) :
  sector_of boot f c i =
    if decide (has c) then (Ok (cluster_start boot c), i) else (Err (f (BadCluster c)), i).
Proof.
  unfold sector_of, lift. rewrite sector_of_cluster_spec by done.
  destruct (decide (has c)); [by rewrite decide_True by done|by rewrite decide_False by done].
Qed.

Lemma table_sector_small c : has c → wrap 32 (Boot.first_fat_sector boot + c / 128) = table_sector boot 0 c.
Proof.
  intros Hc. assert (0 ≤ 0 < fat_count boot) as Ht by (pose proof (geo_fats _ Hg); lia).
  destruct (table_sector_bounds boot Hg 0 c Ht Hc) as [Hd Hb].
  unfold Boot.first_fat_sector, table_sector in *. rewrite Z.mul_0_l, Z.add_0_r in *.
  apply Z.mod_small. destruct Hg as [? ? _ ? ? ? ? ? ? ? ? ?]. unfold FAT32_MINIMUM_CLUSTERS in *.
  assert (0 ≤ clusters boot * sectors_per_cluster boot) by nia. lia.
Qed.

Lemma next_cluster_run c (i : Image) :
  next_cluster (E:=E) boot c i =
    if decide (has c) then (Ok (fat (now i) c), i) else (Err (BadCluster c), i).
Proof.
  unfold next_cluster. case_decide as Hc.
  - rewrite (has_cluster_true boot Hg) by done. simpl.
    rewrite (geo_bps _ Hg). change (512 / 4) with 128.
    rewrite table_sector_small by done. done.
  - by rewrite (has_cluster_false boot Hg).
Qed.

Lemma offset_small c o : has c → 0 ≤ o < sectors_per_cluster boot → wrap 32 (cluster_start boot c + o) = cluster_start boot c + o.
Proof.
  intros Hc Ho. destruct (cluster_start_bounds boot Hg c Hc).
  apply Z.mod_small. destruct Hg as [? ? _ ? ? ? ? ? ? ? ? ?]. nia.
Qed.

Lemma length_sectors d l : disk_ok d → length (concat (d <$> l)) = (length l * 512)%nat.
Proof.
  intros Hd. induction l as [|n l IH]; [done|]. rewrite fmap_cons. cbn [concat length].
  rewrite length_app, IH. destruct (Hd n) as [-> _]. lia.
Qed.

Lemma length_data d c : disk_ok d → len (data d c) = 512 * sectors_per_cluster boot.
Proof.
  intros Hd. unfold len, data. rewrite length_sectors, length_seqZ by done.
  pose proof (geo_spc _ Hg). lia.
Qed.

(** ** [read_file] *)

(** A run of the sectors [offs] of a cluster. *)
Lemma read_file_sectors_run d c size offs pre (into : list Z) (i : Image) :
  now i = d → disk_ok d → has c → 0 ≤ size ≤ len into → len pre ≤ size →
  (∀ o, o ∈ offs → 0 ≤ o < sectors_per_cluster boot) →
  let pre' := take (Z.to_nat size) (pre ++ concat (d <$> (Z.add (cluster_start boot c) <$> offs))) in
  for_in (E:=VolumeError E) offs (read_file_sector size (cluster_start boot c)) (len pre, fill pre into) i =
    (Ok (len pre', fill pre' into), i).
Proof.
  intros Hi Hd Hc Hsz. revert pre. induction offs as [|o offs IH]; intros pre Hpre Ho pre'; simpl in *.
  { unfold pre'. rewrite app_nil_r, take_ge by (unfold len in *; lia). done. }
  set (bytes := d (cluster_start boot c + o)).
  assert (length bytes = 512%nat) as Hb by apply Hd.
  assert (read_file_sector (E:=E) size (cluster_start boot c) (len pre, fill pre into) o i =
    (Ok (len (take (Z.to_nat size) (pre ++ bytes)), fill (take (Z.to_nat size) (pre ++ bytes)) into), i)) as Hstep.
  { unfold read_file_sector. destruct (Z.eqb_spec (len pre) size) as [Heq|Hne].
    { rewrite take_app_le, take_ge by (unfold len in *; lia). done. }
    erewrite dev_bind_Ok; [|apply read_run]. rewrite offset_small, Hi by (done || set_solver).
    fold bytes. set (taking := Z.min (size - len pre) (len bytes)).
    assert (0 ≤ taking ≤ len bytes) by (unfold taking, len in *; lia).
    rewrite slice_Some by lia. erewrite dev_bind_Ok; [|done].
    set (src := take _ _). assert (src = take (Z.to_nat taking) bytes) as Hsrc by (unfold src; by rewrite Z.sub_0_r).
    assert (len src = taking) as Hls by (rewrite Hsrc; unfold len in *; rewrite length_take; lia).
    rewrite <-Hls, fill_more by (rewrite Hls; unfold taking; lia). erewrite dev_bind_Ok; [|done].
    assert (take (Z.to_nat size) (pre ++ bytes) = pre ++ src) as ->.
    { rewrite take_app. rewrite take_ge by (unfold len in *; lia). rewrite Hsrc. f_equal.
      unfold taking, len. destruct (decide (size - Z.of_nat (length pre) ≤ Z.of_nat (length bytes))).
      - rewrite Z.min_l by done. f_equal. lia.
      - rewrite Z.min_r by lia. rewrite !take_ge by lia. done. }
    by rewrite len_app, Hls. }
  erewrite dev_bind_Ok; [|exact Hstep]. rewrite IH.
  - unfold pre'. rewrite take_take_app, <-app_assoc. done.
  - unfold len. rewrite length_take. lia.
  - set_solver.
Qed.

Lemma cluster_offsets_data d c :
  concat (d <$> (Z.add (cluster_start boot c) <$> cluster_offsets boot)) = data d c.
Proof.
  unfold data, cluster_offsets. do 2 f_equal.
  pose proof (fmap_add_seqZ (cluster_start boot c) 0 (sectors_per_cluster boot)) as ->. by rewrite Z.add_0_r.
Qed.

Lemma read_cluster_run d c size pre (into : list Z) (i : Image) :
  now i = d → disk_ok d → has c → 0 ≤ size ≤ len into → len pre ≤ size →
  let pre' := take (Z.to_nat size) (pre ++ data d c) in
  for_in (E:=VolumeError E) (cluster_offsets boot) (read_file_sector size (cluster_start boot c))
    (len pre, fill pre into) i = (Ok (len pre', fill pre' into), i).
Proof.
  intros Hi Hd Hc Hsz Hpre pre'. unfold pre'. rewrite <-cluster_offsets_data.
  apply read_file_sectors_run; try done. intros o. unfold cluster_offsets. rewrite elem_of_seqZ. lia.
Qed.

Notation cb := (512 * sectors_per_cluster boot).

(** How the answer follows from the clusters of the chain. *)
Definition file_answer (d : content) (seen size c : Z) (pre into : list Z)
    : res (VolumeError E) (Z * list Z) :=
  let needed := div_ceil (size - len pre) cb in
  let allowed := clusters boot + 1 - seen in
  cl ← walk d (Z.to_nat (Z.min needed allowed)) c;
  if needed <=? allowed
  then Ok (size, fill (take (Z.to_nat size) (pre ++ concat (data d <$> cl))) into)
  else Err ChainLoops.

Lemma div_ceil_step x : cb < x → div_ceil x cb = 1 + div_ceil (x - cb) cb.
Proof.
  intros Hx. pose proof (geo_spc _ Hg). unfold div_ceil.
  replace x with ((x - cb) + 1 * cb) at 1 2 by lia.
  rewrite Z.div_add, Z_mod_plus_full by lia. lia.
Qed.

Lemma div_ceil_one x : 0 < x ≤ cb → div_ceil x cb = 1.
Proof.
  intros Hx. unfold div_ceil. destruct (decide (x = cb)) as [->|].
  - rewrite Z.div_same, Z.mod_same by lia. done.
  - rewrite Z.div_small, Z.mod_small by lia. destruct (Z.eqb_spec x 0); [lia|done].
Qed.
Lemma walk_S d n c :
  walk d (S (S n)) c =
    if decide (has c) then
      match fat d c with
      | EntryNext c' => rest ← walk d (S n) c'; Ok (c :: rest)
      | e => Err (BrokenChain c e)
      end
    else Err (BadCluster c).
Proof. done. Qed.

Lemma read_file_loop_run fuel d size c seen pre (into : list Z) (i : Image) :
  now i = d → disk_ok d → 0 ≤ size ≤ len into → len pre < size →
  0 ≤ seen ≤ clusters boot → clusters boot + 1 - seen < Z.of_nat fuel →
  read_file_loop (E:=E) boot fuel size c seen (len pre) (fill pre into) i =
    (file_answer d seen size c pre into, i).
Proof.
  intros Hi Hd Hsz. pose proof (geo_spc _ Hg) as Hspc. pose proof (clusters_bound boot Hg) as Hcl.
  revert c seen pre. induction fuel as [|fuel IH]; intros c seen pre Hpre Hseen Hfuel; [lia|].
  cbn [read_file_loop]. destruct (Z.ltb_spec (len pre) size); [|lia]. cbn [negb].
  unfold file_answer. set (needed := div_ceil (size - len pre) cb). set (allowed := clusters boot + 1 - seen).
  assert (1 ≤ needed) as Hn.
  { unfold needed. destruct (decide (size - len pre ≤ cb)); [rewrite div_ceil_one by lia; done|].
    rewrite div_ceil_step by lia. pose proof (div_ceil_nonneg (size - len pre - cb) cb). lia. }
  assert (1 ≤ allowed) as Ha by (unfold allowed; lia).
  destruct (Z.to_nat (Z.min needed allowed)) as [|m] eqn:Em; [lia|].
  unfold mbind at 1, dev_bind at 1. rewrite sector_of_run.
  destruct (decide (has c)) as [Hc|Hc]; [|unfold walk; by rewrite decide_False].
  rewrite (dev_bind_Ok _ _ _ _ _ (read_cluster_run d c size pre into i Hi Hd Hc Hsz ltac:(lia))).
  set (pre' := take (Z.to_nat size) (pre ++ data d c)). cbv zeta.
  assert (len pre' = Z.min size (len pre + cb)) as Hpre'.
  { pose proof (length_data d c Hd). unfold pre', len in *. rewrite length_take, length_app. lia. }
  destruct (Z.eqb_spec (len pre') size) as [Heq|Hne].
  - assert (needed = 1) as Hn1 by (apply div_ceil_one; lia).
    assert (m = 0%nat) as -> by lia. unfold walk. rewrite decide_True by done. simpl.
    destruct (Z.leb_spec needed allowed); [|lia]. rewrite app_nil_r, Heq. done.
  - assert (pre' = pre ++ data d c) as Hpre1.
    { unfold pre'. apply take_ge. pose proof (length_data d c Hd). unfold len in *. rewrite length_app. lia. }
    assert (needed = 1 + div_ceil (size - len pre') cb) as Hn1.
    { unfold needed. rewrite div_ceil_step by lia. do 2 f_equal. lia. }
    assert (1 ≤ div_ceil (size - len pre') cb) as Hn2.
    { destruct (decide (size - len pre' ≤ cb)); [rewrite div_ceil_one by lia; done|].
      rewrite div_ceil_step by lia. pose proof (div_ceil_nonneg (size - len pre' - cb) cb). lia. }
    destruct (Z.ltb_spec (clusters boot) (seen + 1)) as [Hloop|Hloop].
    { assert (m = 0%nat) as -> by (unfold allowed in *; lia). unfold walk. rewrite decide_True by done.
      simpl. destruct (Z.leb_spec needed allowed); [unfold allowed in *; lia|done]. }
    destruct m as [|m]; [unfold allowed in *; lia|].
    rewrite walk_S, decide_True by done. unfold mbind at 1, dev_bind at 1.
    rewrite next_cluster_run, decide_True, Hi by done.
    destruct (fat d c) as [| |c'| |]; try done.
    rewrite IH by lia. unfold file_answer.
    replace (Z.min (div_ceil (size - len pre') cb) (clusters boot + 1 - (seen + 1)))
      with (Z.of_nat (S m)) by (unfold allowed in *; lia). rewrite Nat2Z.id.
    destruct (walk d (S m) c') as [cl|e| |]; try done. cbn [mbind res_bind].
    destruct (Z.leb_spec (div_ceil (size - len pre') cb) (clusters boot + 1 - (seen + 1))),
      (Z.leb_spec needed allowed); try (unfold allowed in *; lia); [|done].
    rewrite fmap_cons. cbn [concat]. rewrite Hpre1, app_assoc. done.
Qed.

Lemma read_file_run entry into (i : Image) :
  disk_ok (now i) → 0 ≤ esize entry →
  read_file (E:=E) boot entry into i =
    (if len into <? esize entry then Err (TooBig (esize entry))
     else if esize entry =? 0 then Ok (0, into)
     else file_answer (now i) 0 (esize entry) (first_cluster entry) [] into, i).
Proof.
  intros Hd Hs. unfold read_file. destruct (Z.ltb_spec (len into) (esize entry)); [done|].
  destruct (Z.eqb_spec (esize entry) 0) as [->|Hne]; [done|].
  pose proof (clusters_bound boot Hg) as Hcl. unfold fuel_for_chain.
  change 0 with (len (@nil Z)) at 2. change into with (fill [] into) at 1.
  apply read_file_loop_run; try done; unfold len in *; simpl in *; lia.
Qed.

(** ** [read_at] *)

(** [n] links of the chain, and the cluster they lead to. *)
Fixpoint hops (d : content) (n : nat) (c : Z) : res (VolumeError E) (list Z * Z) :=
  match n with
  | O => Ok ([], c)
  | S n =>
      if decide (has c) then
        match fat d c with
        | EntryNext c' => '(l, c'') ← hops d n c'; Ok (c :: l, c'')
        | e => Err (BrokenChain c e)
        end
      else Err (BadCluster c)
  end.

Lemma walk_hops d n m c :
  walk d (n + S m) c = ('(l, c') ← hops d n c; l' ← walk d (S m) c'; Ok (l ++ l')).
Proof.
  revert c; induction n as [|n IH]; intros c.
  - simpl hops. cbn [mbind res_bind app]. rewrite Nat.add_0_l. by destruct (walk d (S m) c).
  - replace (S n + S m)%nat with (S (S (n + m)))%nat by lia. rewrite walk_S. simpl hops.
    case_decide; [|done]. destruct (fat d c) as [| |c'| |]; try done.
    replace (S (n + m))%nat with (n + S m)%nat by lia. rewrite IH.
    destruct (hops d n c') as [[l c'']|e| |]; try done. cbn [mbind res_bind].
    by destruct (walk d (S m) c'').
Qed.

Lemma hops_length d n c l c' : hops d n c = Ok (l, c') → length l = n.
Proof.
  revert c l c'; induction n as [|n IH]; intros c l c'; simpl; [by intros [= <- _]|].
  case_decide; [|done]. destruct (fat d c) as [| |x| |]; try done.
  destruct (hops d n x) as [[l1 c1]|e| |] eqn:Hh; simpl; [|done..].
  intros [= <- <-]. simpl. by rewrite (IH _ _ _ Hh).
Qed.

Lemma walk_length d n c l : walk d n c = Ok l → length l = n.
Proof.
  revert c l; induction n as [|[|n] IH]; intros c l; [by intros [= <-]| |].
  - simpl. case_decide; [by intros [= <-]|done].
  - rewrite walk_S. case_decide; [|done]. destruct (fat d c) as [| |x| |]; try done.
    destruct (walk d (S n) x) as [l1|e| |] eqn:Hw; simpl; [|done..].
    intros [= <-]. cbn [length]. by rewrite (IH _ _ Hw).
Qed.

(** The walk of [read_at], as far as the code's own bound lets it. *)
Lemma skip_run d k c seen (i : Image) (l : list nat) :
  now i = d → length l = k → 0 ≤ seen → seen + Z.of_nat k ≤ clusters boot →
  for_in (E:=VolumeError E) l (skip_cluster boot) (c, seen) i =
    ('(_, c') ← hops d k c; Ok (c', seen + Z.of_nat k), i).
Proof.
  intros Hi. revert k c seen. induction l as [|x l IH]; intros [|k] c seen Hl Hs Hk; try done.
  { simpl. by rewrite Z.add_0_r. }
  cbn [for_in]. unfold mbind at 1, dev_bind at 1. unfold skip_cluster at 1.
  destruct (Z.ltb_spec (clusters boot) (seen + 1)); [lia|].
  unfold mbind at 1, dev_bind at 1. rewrite next_cluster_run, Hi. simpl hops.
  case_decide; [|done]. destruct (fat d c) as [| |c'| |]; try done. simpl.
  rewrite (IH k); [|simpl in Hl; lia|lia|lia]. destruct (hops d k c') as [[l1 c1]|e| |]; try done.
  cbn [mbind res_bind]. do 3 f_equal. lia.
Qed.

Lemma skip_loops d k c seen (i : Image) (l : list nat) :
  now i = d → length l = k → 0 ≤ seen ≤ clusters boot → clusters boot < seen + Z.of_nat k →
  ∃ e, for_in (E:=VolumeError E) l (skip_cluster boot) (c, seen) i = (Err e, i).
Proof.
  intros Hi. revert k c seen. induction l as [|x l IH]; intros [|k] c seen Hl Hs Hk; simpl in Hl; try lia.
  cbn [for_in]. unfold mbind at 1, dev_bind at 1. unfold skip_cluster at 1.
  destruct (Z.ltb_spec (clusters boot) (seen + 1)); [by eexists|].
  unfold mbind at 1, dev_bind at 1. rewrite next_cluster_run, Hi.
  case_decide; [|by eexists]. destruct (fat d c) as [| |c'| |]; try by eexists.
  apply (IH k); lia.
Qed.

(** The sectors of one cluster, from sector [sector] and byte [within]. *)
Lemma read_at_sectors_run fuel d c want sector within pre (into : list Z) (i : Image) :
  now i = d → disk_ok d → has c → want ≤ len into → len pre ≤ want →
  0 ≤ sector ≤ sectors_per_cluster boot → 0 ≤ within < 512 →
  sectors_per_cluster boot - sector < Z.of_nat fuel →
  let rest := concat (d <$> seqZ (cluster_start boot c + sector) (sectors_per_cluster boot - sector)) in
  let pre' := take (Z.to_nat want) (pre ++ drop (Z.to_nat within) rest) in
  read_at_sectors (E:=E) boot fuel want (cluster_start boot c) sector within (len pre) (fill pre into) i =
    (Ok (len pre', fill pre' into), i).
Proof.
  intros Hi Hd Hc Hw. revert sector within pre.
  induction fuel as [|fuel IH]; intros sector within pre Hpre Hs Hwi Hf; [lia|]. cbn [read_at_sectors].
  destruct (Z.ltb_spec (len pre) want) as [Hlt|Hge]; cbn [andb].
  2:{ cbv zeta. rewrite take_app_le, take_ge by (unfold len in *; lia). done. }
  destruct (Z.ltb_spec sector (sectors_per_cluster boot)) as [Hsec|Hend].
  2:{ replace (sectors_per_cluster boot - sector) with 0 by lia. cbv zeta. simpl.
      rewrite drop_nil, app_nil_r, take_ge by (unfold len in *; lia). done. }
  erewrite dev_bind_Ok; [|apply read_run]. rewrite offset_small, Hi by (done || lia).
  set (bytes := d (cluster_start boot c + sector)). destruct (Hd (cluster_start boot c + sector)) as [Hb _].
  fold bytes in Hb. set (taking := Z.min (want - len pre) (512 - within)).
  assert (0 < taking ≤ 512 - within) by (unfold taking; lia).
  rewrite slice_Some by (unfold len; lia). erewrite dev_bind_Ok; [|done].
  replace (within + taking - within) with taking by lia.
  set (src := take (Z.to_nat taking) (drop (Z.to_nat within) bytes)).
  assert (len src = taking) as Hls by (unfold src, len; rewrite length_take, length_drop; lia).
  rewrite <-Hls, fill_more by (rewrite Hls; unfold taking; lia). erewrite dev_bind_Ok; [|done].
  rewrite <-len_app, IH by (rewrite ?len_app, ?Hls; unfold taking; lia).
  cbv zeta. rewrite drop_0.
  replace (sectors_per_cluster boot - sector) with (Z.succ (sectors_per_cluster boot - (sector + 1))) by lia.
  rewrite (seqZ_cons (cluster_start boot c + sector)) by lia. rewrite Z.pred_succ, fmap_cons. cbn [concat]. fold bytes.
  replace (Z.succ (cluster_start boot c + sector)) with (cluster_start boot c + (sector + 1)) by lia.
  set (more := concat _). rewrite drop_app_le by lia.
  assert (take (Z.to_nat want) ((pre ++ src) ++ more) =
    take (Z.to_nat want) (pre ++ drop (Z.to_nat within) bytes ++ more)) as ->; [|done].
  rewrite <-!app_assoc. destruct (decide (512 - within ≤ want - len pre)) as [Hall|Hpart].
  - assert (src = drop (Z.to_nat within) bytes) as ->; [|done].
    unfold src. apply take_ge. rewrite length_drop. unfold taking. lia.
  - unfold len in *. rewrite (app_assoc pre src), take_app_le by (rewrite length_app; unfold taking in *; lia).
    rewrite (app_assoc pre), (take_app_le (pre ++ drop (Z.to_nat within) bytes)) by (rewrite length_app, length_drop; lia).
    rewrite !take_app, !(take_ge pre) by lia. f_equal. unfold src. rewrite take_take. f_equal.
    unfold taking. lia.
Qed.

Lemma data_drop d c inside :
  disk_ok d → 0 ≤ inside < cb →
  drop (Z.to_nat (inside mod 512))
    (concat (d <$> seqZ (cluster_start boot c + inside / 512) (sectors_per_cluster boot - inside / 512)))
  = drop (Z.to_nat inside) (data d c).
Proof.
  intros Hd Hin. unfold data.
  assert (0 ≤ inside / 512 < sectors_per_cluster boot) as Hq.
  { split; [apply Z.div_pos; lia|apply Z.div_lt_upper_bound; lia]. }
  replace (sectors_per_cluster boot) with (inside / 512 + (sectors_per_cluster boot - inside / 512)) at 2 by lia.
  rewrite seqZ_app by lia. rewrite fmap_app, concat_app.
  rewrite drop_app_ge.
  - f_equal. rewrite length_sectors, length_seqZ by done.
    pose proof (Z.div_mod inside 512). lia.
  - rewrite length_sectors, length_seqZ by done. pose proof (Z.div_mod inside 512).
    pose proof (Z.mod_pos_bound inside 512). lia.
Qed.

Lemma walk_cases d n c : (∃ l, walk d n c = Ok l) ∨ ∃ e, walk d n c = Err e.
Proof.
  revert c; induction n as [|[|n] IH]; intros c; [left; by eexists| |].
  - simpl. case_decide; [left|right]; by eexists.
  - rewrite walk_S. case_decide; [|right; by eexists].
    destruct (fat d c) as [| |x| |]; try (right; by eexists).
    destruct (IH x) as [[l ->]|[e ->]]; [left|right]; by eexists.
Qed.

Lemma walk_errors d n c e :
  walk d n c = Err e → (∃ x, e = BadCluster x) ∨ ∃ x y, e = BrokenChain x y.
Proof.
  revert c; induction n as [|[|n] IH]; intros c; [done| |].
  - simpl. case_decide; [done|]. intros [= <-]. left. by eexists.
  - rewrite walk_S. case_decide; [|intros [= <-]; left; by eexists].
    destruct (fat d c) as [| |x| |]; try (intros [= <-]; right; by eexists _, _).
    destruct (walk d (S n) x) as [l|e'| |] eqn:Hw; simpl; [done| |done..].
    intros [= <-]. by apply (IH x).
Qed.

Lemma walk_prefix d m n c l : (m ≤ n)%nat → walk d n c = Ok l → walk d m c = Ok (take m l).
Proof.
  revert n c l; induction m as [|[|m] IH]; intros n c l Hmn; [done| |].
  - destruct n as [|[|n]]; [lia| |].
    + simpl. case_decide; [by intros [= <-]|done].
    + rewrite walk_S. simpl walk at 2. case_decide; [|done]. destruct (fat d c) as [| |x| |]; try done.
      destruct (walk d (S n) x) as [l1|e| |]; simpl; try done. by intros [= <-].
  - destruct n as [|[|n]]; [lia..|]. rewrite !walk_S. case_decide; [|done].
    destruct (fat d c) as [| |x| |]; try done.
    destruct (walk d (S n) x) as [l1|e| |] eqn:Hw; cbn [mbind res_bind]; try done. intros [= <-].
    rewrite (IH (S n) x l1) by (done || lia). done.
Qed.

Lemma hops_cases d n c : (∃ l c', hops d n c = Ok (l, c')) ∨ ∃ e, hops d n c = Err e.
Proof.
  revert c; induction n as [|n IH]; intros c; simpl; [left; by eexists _, _|].
  case_decide; [|right; by eexists]. destruct (fat d c) as [| |x| |]; try (right; by eexists).
  destruct (IH x) as [(l & c' & ->)|[e ->]]; [left; by eexists _, _|right; by eexists].
Qed.

Definition at_answer (d : content) (seen inside want c : Z) (pre into : list Z)
    : res (VolumeError E) (Z * list Z) :=
  let needed := div_ceil (inside + want - len pre) cb in
  let allowed := clusters boot + 1 - seen in
  cl ← walk d (Z.to_nat (Z.min needed allowed)) c;
  if needed <=? allowed
  then Ok (want, fill (take (Z.to_nat want) (pre ++ drop (Z.to_nat inside) (concat (data d <$> cl)))) into)
  else Err ChainLoops.

Lemma div_ceil_pos x : 0 < x → 1 ≤ div_ceil x cb.
Proof.
  intros Hx. pose proof (geo_spc _ Hg). destruct (decide (x ≤ cb)); [rewrite div_ceil_one by lia; done|].
  rewrite div_ceil_step by lia. pose proof (div_ceil_nonneg (x - cb) cb). lia.
Qed.

Lemma read_at_loop_run fuel d want c seen inside pre (into : list Z) (i : Image) :
  now i = d → disk_ok d → want ≤ len into → len pre < want → 0 ≤ inside < cb →
  0 ≤ seen ≤ clusters boot → clusters boot + 1 - seen < Z.of_nat fuel →
  read_at_loop (E:=E) boot fuel want c seen inside (len pre) (fill pre into) i =
    (at_answer d seen inside want c pre into, i).
Proof.
  intros Hi Hd Hw. pose proof (geo_spc _ Hg) as Hspc. pose proof (clusters_bound boot Hg) as Hcl.
  revert c seen inside pre. induction fuel as [|fuel IH]; intros c seen inside pre Hpre Hin Hseen Hfuel; [lia|].
  cbn [read_at_loop]. destruct (Z.ltb_spec (len pre) want); [|lia]. cbn [negb].
  unfold at_answer. set (needed := div_ceil (inside + want - len pre) cb).
  set (allowed := clusters boot + 1 - seen).
  assert (1 ≤ needed) as Hn by (apply div_ceil_pos; lia).
  assert (1 ≤ allowed) as Ha by (unfold allowed; lia).
  destruct (Z.to_nat (Z.min needed allowed)) as [|m] eqn:Em; [lia|].
  unfold mbind at 1, dev_bind at 1. rewrite sector_of_run.
  destruct (decide (has c)) as [Hc|Hc]; [|unfold walk; by rewrite decide_False].
  change SECTOR_BYTES with 512.
  assert (0 ≤ inside / 512 < sectors_per_cluster boot) as Hq.
  { split; [apply Z.div_pos; lia|apply Z.div_lt_upper_bound; lia]. }
  rewrite (dev_bind_Ok _ _ _ _ _ (read_at_sectors_run (S (Z.to_nat (sectors_per_cluster boot))) d c want (inside / 512) (inside mod 512) pre into i
    Hi Hd Hc Hw ltac:(lia) ltac:(lia) ltac:(by apply Z.mod_pos_bound) ltac:(lia))).
  rewrite data_drop by done.
  set (pre' := take (Z.to_nat want) (pre ++ drop (Z.to_nat inside) (data d c))). cbv zeta.
  pose proof (length_data d c Hd) as Hdl.
  assert (len pre' = Z.min want (len pre + cb - inside)) as Hpre'.
  { unfold pre', len in *. rewrite length_take, length_app, length_drop. lia. }
  destruct (Z.eqb_spec (len pre') want) as [Heq|Hne].
  - assert (needed = 1) as Hn1 by (apply div_ceil_one; lia).
    assert (m = 0%nat) as -> by lia. unfold walk. rewrite decide_True by done. simpl.
    destruct (Z.leb_spec needed allowed); [|lia]. rewrite app_nil_r, Heq. done.
  - assert (pre' = pre ++ drop (Z.to_nat inside) (data d c)) as Hpre1.
    { unfold pre'. apply take_ge. unfold len in *. rewrite length_app, length_drop. lia. }
    assert (needed = 1 + div_ceil (0 + want - len pre') cb) as Hn1.
    { unfold needed. rewrite div_ceil_step by lia. do 2 f_equal. lia. }
    assert (1 ≤ div_ceil (0 + want - len pre') cb) as Hn2 by (apply div_ceil_pos; lia).
    destruct (Z.ltb_spec (clusters boot) (seen + 1)) as [Hloop|Hloop].
    { assert (m = 0%nat) as -> by (unfold allowed in *; lia). unfold walk. rewrite decide_True by done.
      simpl. destruct (Z.leb_spec needed allowed); [unfold allowed in *; lia|done]. }
    destruct m as [|m]; [unfold allowed in *; lia|].
    rewrite walk_S, decide_True by done. unfold mbind at 1, dev_bind at 1.
    rewrite next_cluster_run, decide_True, Hi by done.
    destruct (fat d c) as [| |c'| |]; try done.
    rewrite IH by lia. unfold at_answer.
    replace (Z.min (div_ceil (0 + want - len pre') cb) (clusters boot + 1 - (seen + 1)))
      with (Z.of_nat (S m)) by (unfold allowed in *; lia). rewrite Nat2Z.id.
    destruct (walk d (S m) c') as [cl|e| |]; try done. cbn [mbind res_bind].
    destruct (Z.leb_spec (div_ceil (0 + want - len pre') cb) (clusters boot + 1 - (seen + 1))),
      (Z.leb_spec needed allowed); try (unfold allowed in *; lia); [|done].
    rewrite fmap_cons. cbn [concat]. rewrite drop_app_le by (unfold len in *; lia).
    rewrite Hpre1, app_assoc, drop_0. done.
Qed.

Lemma length_datas d cl : disk_ok d → Z.of_nat (length (concat (data d <$> cl))) = Z.of_nat (length cl) * cb.
Proof.
  intros Hd. induction cl as [|c cl IH]; [done|]. rewrite fmap_cons. cbn [concat length].
  rewrite length_app. pose proof (length_data d c Hd). unfold len in *. lia.
Qed.

Lemma read_at_run entry offset into (i : Image) :
  disk_ok (now i) → 0 ≤ offset →
  let d := now i in
  let want := Z.min (esize entry - offset) (len into) in
  let needed := div_ceil (offset + want) cb in
  (want ≤ 0 → read_at (E:=E) boot entry offset into i = (Ok (0, into), i)) ∧
  (0 < want → needed ≤ clusters boot + 1 →
     read_at (E:=E) boot entry offset into i =
       (cl ← walk d (Z.to_nat needed) (first_cluster entry);
        Ok (want, fill (take (Z.to_nat want) (drop (Z.to_nat offset) (concat (data d <$> cl)))) into), i)) ∧
  (0 < want → clusters boot + 1 < needed → ∃ e, read_at (E:=E) boot entry offset into i = (Err e, i)).
Proof.
  intros Hd Ho d want needed. pose proof (geo_spc _ Hg) as Hspc.
  pose proof (clusters_bound boot Hg) as Hcl. pose proof (len_nonneg into). unfold read_at. fold want.
  split_and!.
  { intros Hw. destruct (Z.leb_spec (esize entry) offset); [done|].
    by destruct (Z.eqb_spec want 0); [|lia]. }
  all: intros Hw Hn; destruct (Z.leb_spec (esize entry) offset); [unfold want in *; lia|];
    destruct (Z.eqb_spec want 0); [lia|]; cbv zeta;
    assert (wrap 32 (sectors_per_cluster boot * SECTOR_BYTES) = cb) as ->
      by (unfold SECTOR_BYTES; rewrite Z.mul_comm; apply Z.mod_small; lia).
  all: assert (0 ≤ offset / cb) as Hk by (apply Z.div_pos; lia).
  all: pose proof (Z.mod_pos_bound offset cb ltac:(lia)) as Hm.
  all: pose proof (Z.div_mod offset cb ltac:(lia)) as Hdm.
  all: assert (needed = offset / cb + div_ceil (offset mod cb + want) cb) as Hneed
    by (unfold needed, div_ceil; replace (offset + want) with ((offset mod cb + want) + offset / cb * cb) by lia;
        rewrite Z.div_add, Z_mod_plus_full by lia; lia).
  all: pose proof (div_ceil_pos (offset mod cb + want) ltac:(lia)) as Hpos.
  - unfold mbind at 1, dev_bind at 1.
    rewrite (skip_run d (Z.to_nat (offset / cb))) by (try done; rewrite ?length_seq; lia).
    replace (Z.to_nat needed) with (Z.to_nat (offset / cb) + S (Z.to_nat (div_ceil (offset mod cb + want) cb - 1)))%nat by lia.
    rewrite walk_hops. destruct (hops d _ _) as [[l c']|e| |] eqn:Hh; try done. cbn [mbind res_bind].
    pose proof (read_at_loop_run (fuel_for_chain boot) d want c' (0 + Z.of_nat (Z.to_nat (offset / cb)))
      (offset mod cb) [] into i) as Hloop.
    change (len (@nil Z)) with 0 in Hloop. change (fill [] into) with into in Hloop.
    rewrite Hloop by (try done; unfold fuel_for_chain; lia). clear Hloop. unfold at_answer.
    change (len (@nil Z)) with 0. rewrite Z.sub_0_r.
    replace (Z.to_nat (Z.min (div_ceil (offset mod cb + want) cb) (clusters boot + 1 - (0 + Z.of_nat (Z.to_nat (offset / cb))))))
      with (S (Z.to_nat (div_ceil (offset mod cb + want) cb - 1))) by lia.
    destruct (walk d _ c') as [l'|e| |]; try done. cbn [mbind res_bind].
    destruct (Z.leb_spec (div_ceil (offset mod cb + want) cb) (clusters boot + 1 - (0 + Z.of_nat (Z.to_nat (offset / cb))))); [|lia].
    do 4 f_equal. cbn [app]. f_equal. rewrite fmap_app, concat_app, drop_app_ge.
    + f_equal. apply hops_length in Hh. pose proof (length_datas d l Hd). lia.
    + apply hops_length in Hh. pose proof (length_datas d l Hd). lia.
  - destruct (decide (offset / cb ≤ clusters boot)) as [Hle|Hgt].
    + unfold mbind at 1, dev_bind at 1.
      rewrite (skip_run d (Z.to_nat (offset / cb))) by (try done; rewrite ?length_seq; lia).
      destruct (hops_cases d (Z.to_nat (offset / cb)) (first_cluster entry)) as [(l & c' & ->)|[e ->]];
        [|by eexists]. cbn [mbind res_bind].
      pose proof (read_at_loop_run (fuel_for_chain boot) d want c' (0 + Z.of_nat (Z.to_nat (offset / cb)))
        (offset mod cb) [] into i) as Hloop.
      change (len (@nil Z)) with 0 in Hloop. change (fill [] into) with into in Hloop.
      rewrite Hloop by (try done; unfold fuel_for_chain; lia). unfold at_answer.
      change (len (@nil Z)) with 0. rewrite Z.sub_0_r.
      edestruct walk_cases as [[l' ->]|[e ->]]; [|by eexists]. cbn [mbind res_bind].
      destruct (Z.leb_spec (div_ceil (offset mod cb + want) cb) (clusters boot + 1 - (0 + Z.of_nat (Z.to_nat (offset / cb))))); [lia|].
      by eexists.
    + destruct (skip_loops d (Z.to_nat (offset / cb)) (first_cluster entry) 0 i (seq 0 (Z.to_nat (offset / cb))))
        as [e He]; [done|by rewrite length_seq|lia|lia|].
      eexists. erewrite dev_bind_Err; [done|exact He].
Qed.
End volume.
