(* ===== verification/FatReadThms.v ===== *)
(** * FAT32: reading files, on any device

    The same statements for every [Disk], whatever it fails at: the answers
    are the ones of the content, or a failure of the device itself. *)

From S2P Require Import Prelude Words Bytes FatFormat FatVolume FatFormatThms FatDisk FatRead.
Local Open Scope Z_scope.

Lemma later_antisym i j : later i j → later j i → j = i.
Proof.
  destruct i as [o l], j as [o' l']. intros [E1 P1] [_ P2]; simpl in *. subst. f_equal.
  destruct P1 as [k ->], P2 as [k' Hk]. rewrite <-app_assoc in Hk.
  rewrite <-(app_nil_r l) in Hk at 1. apply app_inv_head in Hk. by destruct k; rewrite ?app_nil_r.
Qed.

(** An operation that writes nothing on the image writes nothing anywhere. *)
Lemma follows_pure {S E X A} `{Disk S E} (failed : X → Prop) (m : dev S X A) p s (P : res X A → Prop) :
  follows failed m p →
  (∀ i, now i = view s → ∃ r, p i = (r, i) ∧ P r) →
  ∃ r' s', m s = (r', s') ∧ view s' = view s ∧ (P r' ∨ ∃ e, r' = Err e ∧ failed e).
Proof.
  intros [_ Hm] Hp. set (i := {| origin := view s; log := [] |}).
  destruct (Hm s i eq_refl) as (r' & s' & Hr & Hcase). destruct (Hp i eq_refl) as (r & Hpi & HP).
  rewrite Hpi in Hcase. simpl in Hcase.
  exists r', s'. split; [done|]. destruct Hcase as [[-> Hv]|(e & j & -> & He & Hj1 & Hj2 & Hv)].
  - split; [by rewrite Hv|by left].
  - rewrite (later_antisym _ _ Hj1 Hj2) in Hv. split; [by rewrite Hv|]. right. by exists e.
Qed.

Section volume.
  Context (boot : BootSector) (Hg : geometry boot).
  Context {S E : Type} `{Disk S E}.

(** The bytes of a file: its clusters, up to its size. *)
Definition file_content (d : content) (entry : DirectoryEntry) : option (list Z) :=
  let needed := div_ceil (esize entry) (512 * sectors_per_cluster boot) in
  if esize entry =? 0 then Some []
  else if clusters boot + 1 <? needed then None
  else match walk (E:=E) boot d (Z.to_nat needed) (first_cluster entry) with
       | Ok cl => Some (take (Z.to_nat (esize entry)) (concat (data boot d <$> cl)))
       | _ => None
       end.

Lemma file_content_answer d entry into :
  0 < esize entry →
  file_answer (E:=E) boot d 0 (esize entry) (first_cluster entry) [] into =
    match file_content d entry with
    | Some bytes => Ok (esize entry, fill bytes into)
    | None =>
        match walk boot d (Z.to_nat (Z.min (div_ceil (esize entry) (512 * sectors_per_cluster boot))
                (clusters boot + 1))) (first_cluster entry) with
        | Err e => Err e
        | _ => Err ChainLoops
        end
    end.
Proof.
  intros Hs. unfold file_answer, file_content. change (len (@nil Z)) with 0. rewrite !Z.sub_0_r.
  set (needed := div_ceil _ _). destruct (Z.eqb_spec (esize entry) 0); [lia|].
  destruct (Z.ltb_spec (clusters boot + 1) needed), (Z.leb_spec needed (clusters boot + 1)); try lia.
  - destruct (walk_cases (E:=E) boot d (Z.to_nat (Z.min needed (clusters boot + 1))) (first_cluster entry))
      as [[l ->]|[e ->]]; done.
  - rewrite Z.min_l by done.
    destruct (walk_cases (E:=E) boot d (Z.to_nat needed) (first_cluster entry)) as [[l ->]|[e ->]]; done.
Qed.

Lemma file_content_length d entry bytes :
  disk_ok d → 0 ≤ esize entry → file_content d entry = Some bytes → len bytes = esize entry.
Proof.
  intros Hd Hs. unfold file_content. destruct (Z.eqb_spec (esize entry) 0) as [->|]; [by intros [= <-]|].
  destruct (_ <? _); [done|]. set (needed := div_ceil _ _).
  destruct (walk boot d _ _) as [cl| | |] eqn:Hw; try done. intros [= <-].
  apply walk_length in Hw. pose proof (length_datas boot Hg d cl Hd) as Hl.
  pose proof (geo_spc _ Hg). unfold len. rewrite length_take.
  pose proof (proj1 (div_ceil_spec (esize entry) (512 * sectors_per_cluster boot) needed ltac:(lia)) ltac:(lia)).
  assert (0 ≤ needed) by (apply div_ceil_nonneg; lia).
  rewrite Hw, Z2Nat.id in Hl by lia. lia.
Qed.

(** C15: Reading a file is exact on any device, whatever state the volume is
    in: when the chain of the file is sound the answer is the number of its
    bytes and the buffer starts with exactly those bytes and is otherwise as
    it was; a buffer too small is [TooBig]; an answer of any other error
    means that the file's chain is broken, leaves the volume or never ends;
    and the device itself may fail.  It never panics, never runs forever,
    whatever the table says, and writes nothing. *)
Theorem fat_read_file_exact s entry into :
  disk_ok (view s) → 0 ≤ esize entry →
  ∃ r s', read_file (E:=E) boot entry into s = (r, s') ∧ view s' = view s ∧
    match r with
    | Ok (n, into') => n = esize entry ∧
        ∃ bytes, file_content (view s) entry = Some bytes ∧ len bytes = n ∧ into' = fill bytes into
    | Err (TooBig size) => size = esize entry ∧ len into < esize entry
    | Err (Device _) => True
    | Err _ => file_content (view s) entry = None
    | Panic | Diverge => False
    end.
Proof.
  intros Hd Hs.
  destruct (follows_pure vol_device _ _ s (λ r, r =
    if len into <? esize entry then Err (TooBig (esize entry))
     else if esize entry =? 0 then Ok (0, into)
     else file_answer (E:=E) boot (view s) 0 (esize entry) (first_cluster entry) [] into)
    (follows_read_file boot entry into)) as (r & s' & Hr & Hv & Hcase).
  { intros i Hi. eexists. split; [apply (read_file_run boot Hg); by rewrite ?Hi|by rewrite Hi]. }
  exists r, s'. split; [done|]. split; [done|]. destruct Hcase as [->|(e & -> & x & ->)]; [|done].
  destruct (Z.ltb_spec (len into) (esize entry)); [done|].
  destruct (Z.eqb_spec (esize entry) 0) as [He|He].
  { split; [done|]. exists []. unfold file_content. by rewrite He. }
  rewrite file_content_answer by lia.
  destruct (file_content (view s) entry) as [bytes|] eqn:Hc.
  { split; [done|]. exists bytes. split; [done|]. split; [by eapply file_content_length|done]. }
  clear Hc. match goal with |- context [walk boot ?d ?n ?c] =>
    destruct (walk_cases (E:=E) boot d n c) as [[l ->]|[e Hw]]; [done|] end.
  rewrite Hw. by destruct (walk_errors _ _ _ _ _ Hw) as [[c ->]|(c & x & ->)].
Qed.

(** Reading in pieces is reading: whatever the offset and the buffer,
    [read_at] puts at the front of the buffer exactly the bytes of the file
    from that offset that fit in it, answers how many there were (zero at or
    past the end), and leaves the rest of the buffer alone, or the device
    failed.  On a broken chain it may answer an error, but never panics and
    never runs forever. *)
Theorem fat_read_at_slices s entry offset into :
  disk_ok (view s) → 0 ≤ esize entry → 0 ≤ offset →
  ∃ r s', read_at (E:=E) boot entry offset into s = (r, s') ∧ view s' = view s ∧
    match r with
    | Ok (n, into') =>
        n = Z.max 0 (Z.min (esize entry - offset) (len into)) ∧
        (∀ bytes, file_content (view s) entry = Some bytes →
           into' = fill (take (Z.to_nat n) (drop (Z.to_nat offset) bytes)) into)
    | Err (Device _) => True
    | Err _ => file_content (view s) entry = None
    | Panic | Diverge => False
    end.
Proof.
  intros Hd Hs Ho. pose proof (len_nonneg into). pose proof (geo_spc _ Hg).
  set (want := Z.min (esize entry - offset) (len into)).
  set (needed := div_ceil (offset + want) (512 * sectors_per_cluster boot)).
  assert (0 < want → ∀ bytes, file_content (view s) entry = Some bytes →
    needed ≤ clusters boot + 1 ∧ ∃ cl, walk (E:=E) boot (view s) (Z.to_nat needed) (first_cluster entry) = Ok cl ∧
      take (Z.to_nat want) (drop (Z.to_nat offset) (concat (data boot (view s) <$> cl))) =
      take (Z.to_nat want) (drop (Z.to_nat offset) bytes)) as Hpart.
  { intros Hw bytes. unfold file_content.
    set (whole := div_ceil (esize entry) (512 * sectors_per_cluster boot)).
    destruct (Z.eqb_spec (esize entry) 0); [unfold want in *; lia|].
    assert (0 ≤ needed) by (apply div_ceil_nonneg; lia).
    assert (needed ≤ whole) as Hle.
    { apply div_ceil_spec; [lia|]. pose proof (proj1 (div_ceil_spec (esize entry) (512 * sectors_per_cluster boot) whole ltac:(lia)) ltac:(lia)). unfold want. lia. }
    destruct (Z.ltb_spec (clusters boot + 1) whole); [done|].
    destruct (walk boot (view s) (Z.to_nat whole) (first_cluster entry)) as [cl| | |] eqn:Hwalk; try done.
    intros [= <-]. split; [lia|]. exists (take (Z.to_nat needed) cl).
    split; [eapply walk_prefix; [|done]; lia|]. apply walk_length in Hwalk.
    rewrite fmap_take. pose proof (length_datas boot Hg (view s) (take (Z.to_nat needed) cl) Hd) as Hl.
    pose proof (proj1 (div_ceil_spec (offset + want) (512 * sectors_per_cluster boot) needed ltac:(lia)) ltac:(lia)).
    rewrite fmap_take, length_take in Hl.
    rewrite <-(take_drop (Z.to_nat needed) (data boot (view s) <$> cl)) at 2. rewrite concat_app.
    rewrite !take_drop_commute, take_take. f_equal.
    rewrite Nat.min_l by (unfold want; lia). rewrite take_app_le; [done|].
    replace (Z.of_nat (Z.to_nat needed `min` length cl)) with needed in Hl by lia. unfold want in *. lia. }
  destruct (follows_pure vol_device _ _ s (λ r, match r with
    | Ok (n, into') => n = Z.max 0 want ∧ (∀ bytes, file_content (view s) entry = Some bytes →
           into' = fill (take (Z.to_nat n) (drop (Z.to_nat offset) bytes)) into)
    | Err (Device _) => True
    | Err _ => file_content (view s) entry = None
    | Panic | Diverge => False end) (follows_read_at boot entry offset into)) as (r & s' & Hr & Hv & Hcase).
  2:{ exists r, s'. split; [done|]. split; [done|]. by destruct Hcase as [?|(e & -> & x & ->)]. }
  intros i Hi. destruct (read_at_run (E:=E) boot Hg entry offset into i) as (Hzero & Hok & Hbad);
    [by rewrite Hi|done|]. rewrite Hi in *. fold want needed in Hzero, Hok, Hbad.
  destruct (decide (0 < want)) as [Hw|Hw].
  2:{ eexists. split; [apply Hzero; lia|]. split; [lia|]. done. }
  destruct (decide (needed ≤ clusters boot + 1)) as [Hn|Hn].
  - eexists. split; [by apply Hok|].
    destruct (walk_cases (E:=E) boot (view s) (Z.to_nat needed) (first_cluster entry)) as [[cl Hwalk]|[e Hwalk]];
      rewrite Hwalk; cbn [mbind res_bind].
    + split; [lia|]. intros bytes Hc. destruct (Hpart Hw bytes Hc) as (_ & cl' & Hcl & Heq).
      rewrite Hwalk in Hcl. injection Hcl as <-. by rewrite Heq.
    + assert (file_content (view s) entry = None) as Hnone.
      { destruct (file_content (view s) entry) as [bytes|] eqn:Hc; [|done].
        destruct (Hpart Hw bytes eq_refl) as (_ & cl' & ? & _). congruence. }
      by destruct (walk_errors _ _ _ _ _ Hwalk) as [[c ->]|(c & x & ->)].
  - destruct Hbad as [e He]; [done|lia|]. eexists. split; [exact He|].
    assert (file_content (view s) entry = None) as Hnone.
    { destruct (file_content (view s) entry) as [bytes|] eqn:Hc; [|done].
      destruct (Hpart Hw bytes eq_refl) as [? _]. lia. }
    by destruct e.
Qed.
End volume.

(** ** Instances *)

(** A file of 700 bytes in clusters 3 and 4 of the example volume. *)
Definition example_disk : content := λ n,
  if n =? 32 then le_encode 4 0x0FFFFFF8 ++ le_encode 4 0x0FFFFFFF ++ le_encode 4 0x0FFFFFFF
                  ++ le_encode 4 4 ++ le_encode 4 0x0FFFFFFF ++ replicate 492 0
  else if n =? 1073 then replicate 512 65
  else if n =? 1074 then replicate 512 66
  else replicate 512 0.

Definition example_file : DirectoryEntry :=
  {| ename := [65; 0; 0; 0; 0; 0; 0; 0; 0; 0; 0; 0]; name_len := 1; attributes := 0x20;
     first_cluster := 3; esize := 700 |}.

Lemma example_disk_ok : disk_ok example_disk.
Proof.
  intros n. unfold example_disk. repeat case_match; (split; [vm_compute; reflexivity|]);
    refine (bool_decide_unpack _ _); vm_compute; exact I.
Defined.

Lemma example_geometry : geometry example_boot.
Proof.
  apply (parse_geometry example_sector); [|vm_compute; reflexivity].
  refine (bool_decide_unpack _ _). vm_compute. exact I.
Defined.

Lemma fat_read_file_exact_witness :
  ∃ r s', read_file example_boot example_file (replicate 1024 0) {| disk := example_disk; left := 100 |} = (r, s')
    ∧ view s' = example_disk.
Proof.
  destruct (fat_read_file_exact (E:=()) example_boot example_geometry
    {| disk := example_disk; left := 100 |} example_file (replicate 1024 0))
    as (r & s' & Hr & Hv & _).
  - exact example_disk_ok.
  - simpl. lia.
  - exists r, s'. split; [exact Hr|exact Hv].
Defined.

(** The file is really there, and read past the end of the first cluster. *)
Lemma fat_read_at_slices_witness :
  (∃ bytes, file_content (E:=()) example_boot example_disk example_file = Some bytes ∧
     take 2 (drop 511 bytes) = [65; 66]) ∧
  ∃ r s', read_at example_boot example_file 511 (replicate 2 0) {| disk := example_disk; left := 100 |} = (r, s')
    ∧ view s' = example_disk.
Proof.
  split.
  { destruct (file_content (E:=()) example_boot example_disk example_file) as [bytes|] eqn:E;
      [|vm_compute in E; discriminate E].
    exists bytes. split; [reflexivity|]. vm_compute in E. injection E as <-. reflexivity. }
  destruct (fat_read_at_slices (E:=()) example_boot example_geometry
    {| disk := example_disk; left := 100 |} example_file 511 (replicate 2 0))
    as (r & s' & Hr & Hv & _).
  - exact example_disk_ok.
  - simpl. lia.
  - lia.
  - exists r, s'. split; [exact Hr|exact Hv].
Defined.
