(* ===== verification/FatDir.v ===== *)
(** * FAT32: what the root directory holds

    On the image of a volume the two walks over the root directory
    ([read_root] and [directory_slot]) are scans of one list of slots
    ([dir]), each with its place on the volume. *)

From S2P Require Import Prelude Words Bytes FatFormat FatVolume FatFormatThms FatDisk FatRead.
Local Open Scope Z_scope.

(** ** Loops that return early, as pure scans *)
Fixpoint scan {A B R} (h : B → A → B + R) (l : list A) (b : B) : B + R :=
  match l with
  | [] => inl b
  | a :: l => match h b a with inl b => scan h l b | inr r => inr r end
  end.

Lemma scan_app {A B R} (h : B → A → B + R) l l' b :
  scan h (l ++ l') b = match scan h l b with inl b => scan h l' b | inr r => inr r end.
Proof. revert b; induction l as [|a l IH]; intros b; simpl; [done|]. destruct (h b a); [apply IH|done]. Qed.

Lemma scan_fmap {A A' B R} (h : B → A → B + R) (f : A' → A) l b :
  scan h (f <$> l) b = scan (λ b a, h b (f a)) l b.
Proof. revert b; induction l as [|a l IH]; intros b; [done|]. rewrite fmap_cons. cbn [scan].
  destruct (h b (f a)); [apply IH|done]. Qed.

Lemma for_until_scan {X A B R} (f : B → A → dev Image X (B + R)) h l b i :
  (∀ b a, a ∈ l → f b a i = (Ok (h b a), i)) → for_until l f b i = (Ok (scan h l b), i).
Proof.
  intros Hf. revert b; induction l as [|a l IH]; intros b; cbn [for_until scan]; [done|].
  rewrite (dev_bind_Ok _ _ _ _ _ (Hf b a ltac:(by left))).
  destruct (h b a); [|done]. apply IH. intros ? ? ?. apply Hf. by right.
Qed.

Lemma for_until_concat {X A B R T} (f : B → A → dev Image X (B + R)) (g : A → list T) (h : B → T → B + R) l b i :
  (∀ b a, a ∈ l → f b a i = (Ok (scan h (g a) b), i)) → for_until l f b i = (Ok (scan h (concat (g <$> l)) b), i).
Proof.
  intros Hf. rewrite (for_until_scan f (λ b a, scan h (g a) b)) by done. do 2 f_equal. clear Hf.
  revert b; induction l as [|a l IH]; intros b; [done|]. rewrite fmap_cons. cbn [scan concat].
  rewrite scan_app. destruct (scan h (g a) b); [apply IH|done].
Qed.

Section volume.
  Context {E : Type} (boot : BootSector) (Hg : geometry boot).

#[local] Existing Instance has_dec.

(** A slot and where it is: sector, offset, its 32 bytes. *)
Definition placed : Type := Z * Z * list Z.

Definition sector_slots (d : content) (n : Z) : list placed :=
  (λ x : Z * list Z, (n, x.1 * 32, x.2)) <$> zip (seqZ 0 (len (as_chunks 32 (d n)))) (as_chunks 32 (d n)).

Definition cluster_slots (d : content) (c : Z) : list placed :=
  concat (sector_slots d <$> seqZ (cluster_start boot c) (sectors_per_cluster boot)).

(** How the chain of a directory goes on after its last cluster. *)
Inductive dir_end := StopAt (c : Z) (e : Entry) | LeavesVolume (c : Z) | Endless.

Fixpoint dir (d : content) (n : nat) (c : Z) : list placed * dir_end :=
  match n with
  | O => ([], Endless)
  | S n =>
      if decide (has boot c) then
        match n with
        | O => (cluster_slots d c, Endless)
        | S _ =>
            match fat boot d c with
            | EntryNext c' => (cluster_slots d c ++ (dir d n c').1, (dir d n c').2)
            | e => (cluster_slots d c, StopAt c e)
            end
        end
      else ([], LeavesVolume c)
  end.

Definition root_dir (d : content) : list placed * dir_end :=
  dir d (Z.to_nat (clusters boot + 1)) (root_cluster boot).

Lemma dir_S d n c :
  dir d (S (S n)) c =
    if decide (has boot c) then
      match fat boot d c with
      | EntryNext c' => (cluster_slots d c ++ (dir d (S n) c').1, (dir d (S n) c').2)
      | e => (cluster_slots d c, StopAt c e)
      end
    else ([], LeavesVolume c).
Proof. done. Qed.

(** One cluster of either walk. *)
Lemma cluster_scan {X B R} (f : B → Z → dev Image X (B + R)) (h : B → placed → B + R) c b (i : Image) :
  has boot c →
  (∀ b o, 0 ≤ o < sectors_per_cluster boot →
     f b o i = (Ok (scan h (sector_slots (now i) (cluster_start boot c + o)) b), i)) →
  for_until (cluster_offsets boot) f b i = (Ok (scan h (cluster_slots (now i) c) b), i).
Proof.
  intros Hc Hf. unfold cluster_slots.
  rewrite (for_until_concat f (λ o, sector_slots (now i) (cluster_start boot c + o)) h).
  - do 3 f_equal. pose proof (fmap_add_seqZ (cluster_start boot c) 0 (sectors_per_cluster boot)) as Heq.
    rewrite Z.add_0_r in Heq. rewrite <-Heq, <-list_fmap_compose. done.
  - intros b' o Ho. apply Hf. unfold cluster_offsets in Ho. apply elem_of_seqZ in Ho. lia.
Qed.

(** ** [read_root] *)
Definition root_step {T} (each : T → DirectoryEntry → T * bool) (t : T) (x : placed) : T + T :=
  match decode_slot x.2 with
  | SlotEnd => inr t
  | SlotSkip => inl t
  | SlotEntry e => let '(t, on) := each t e in if on then inl t else inr t
  end.

Definition root_answer {T} (x : T + T) (fin : dir_end) : res (VolumeError E) T :=
  match x, fin with
  | inr t, _ => Ok t
  | inl t, StopAt c EntryEnd => Ok t
  | inl t, StopAt c e => Err (BrokenChain c e)
  | inl t, LeavesVolume c => Err (BadCluster c)
  | inl t, Endless => Err ChainLoops
  end.

Lemma scan_zip_snd {A B R} (h : B → A → B + R) (f : Z * A → A) ks (l : list A) b :
  length ks = length l → (∀ k a, f (k, a) = a) → scan (λ b x, h b (f x)) (zip ks l) b = scan h l b.
Proof.
  intros Hl Hf. revert ks b Hl. induction l as [|a l IH]; intros [|k ks] b Hl; simpl in Hl; try done.
  cbn [zip zip_with scan]. rewrite Hf. destruct (h b a); [apply IH; lia|done].
Qed.

Lemma root_sector_run {T} (each : T → DirectoryEntry → T * bool) c o t (i : Image) :
  has boot c → 0 ≤ o < sectors_per_cluster boot →
  root_sector (E:=E) each (cluster_start boot c) t o i =
    (Ok (scan (root_step each) (sector_slots (now i) (cluster_start boot c + o)) t), i).
Proof.
  intros Hc Ho. unfold root_sector. erewrite dev_bind_Ok; [|apply read_run].
  rewrite offset_small by done.
  rewrite (for_until_scan _ (λ t slot, root_step each t (0, 0, slot))).
  - do 2 f_equal. unfold sector_slots. rewrite scan_fmap. symmetry. simpl.
    apply (scan_zip_snd (λ t slot, root_step each t (0, 0, slot)) snd).
    + unfold len. rewrite length_seqZ. change (Z.to_nat DIRECTORY_ENTRY_BYTES) with 32%nat. lia.
    + done.
  - intros t' slot _. unfold root_slot, root_step. cbn [snd]. destruct (decode_slot slot); try done.
    by destruct (each t' e) as [? []].
Qed.

Lemma read_root_loop_run {T} (each : T → DirectoryEntry → T * bool) fuel c seen t (i : Image) :
  0 ≤ seen ≤ clusters boot → clusters boot + 1 - seen < Z.of_nat fuel →
  let '(l, fin) := dir (now i) (Z.to_nat (clusters boot + 1 - seen)) c in
  read_root_loop (E:=E) boot each fuel c seen t i = (root_answer (scan (root_step each) l t) fin, i).
Proof.
  revert c seen t. induction fuel as [|fuel IH]; intros c seen t Hseen Hfuel; [lia|].
  destruct (Z.to_nat (clusters boot + 1 - seen)) as [|n] eqn:En; [lia|].
  cbn [read_root_loop]. unfold mbind at 1, dev_bind at 1. rewrite sector_of_run by done.
  destruct (decide (has boot c)) as [Hc|Hc]; [|unfold dir; by rewrite decide_False].
  rewrite (dev_bind_Ok _ _ _ _ _ (cluster_scan _ (root_step each) c t i Hc
    (λ b o Ho, root_sector_run each c o b i Hc Ho))).
  destruct n as [|n].
  - unfold dir. rewrite decide_True by done.
    destruct (scan _ _ t) as [t'|t']; [|done]. by destruct (Z.ltb_spec (clusters boot) (seen + 1)); [|lia].
  - rewrite dir_S, decide_True by done.
    destruct (scan (root_step each) (cluster_slots (now i) c) t) as [t'|t'] eqn:Hscan.
    2:{ destruct (fat boot (now i) c); try (by rewrite Hscan). by rewrite scan_app, Hscan. }
    destruct (Z.ltb_spec (clusters boot) (seen + 1)); [lia|].
    unfold mbind at 1, dev_bind at 1. rewrite next_cluster_run, decide_True by done.
    destruct (fat boot (now i) c) as [| |c'| |]; rewrite ?Hscan; try done.
    specialize (IH c' (seen + 1) t' ltac:(lia) ltac:(lia)).
    replace (Z.to_nat (clusters boot + 1 - (seen + 1))) with (S n) in IH by lia.
    destruct (dir (now i) (S n) c') as [l fin]. cbn [fst snd]. by rewrite scan_app, Hscan.
Qed.

Lemma read_root_run {T} (each : T → DirectoryEntry → T * bool) t (i : Image) :
  read_root (E:=E) boot each t i =
    (root_answer (scan (root_step each) (root_dir (now i)).1 t) (root_dir (now i)).2, i).
Proof.
  pose proof (clusters_bound boot Hg). unfold read_root, root_dir.
  pose proof (read_root_loop_run each (fuel_for_chain boot) (root_cluster boot) 0 t i) as Hr.
  rewrite Z.sub_0_r in Hr. destruct (dir _ _ _) as [l fin]. cbn [fst snd]. apply Hr; unfold fuel_for_chain; lia.
Qed.

(** ** [directory_slot] *)
Definition place_step (nm : list Z) (free : option (Z * Z)) (x : placed) : option (Z * Z) + slot_place :=
  let '(sector, at_, slot) := x in
  match decode_slot slot with
  | SlotEntry e => if names_slot slot nm then inr (sector, at_, Some e) else inl free
  | SlotSkip =>
      inl (if bool_decide (free = None) && (Boot.byte_at slot 0 =? ENTRY_DELETED)
           then Some (sector, at_) else free)
  | SlotEnd => inr (fst (default (sector, at_) free), snd (default (sector, at_) free), None)
  end.

Definition place_answer (x : option (Z * Z) + slot_place) (fin : dir_end) : res (WriteError E) slot_place :=
  match x, fin with
  | inr p, _ => Ok p
  | inl _, LeavesVolume c => Err (Reading (BadCluster c))
  | inl _, Endless => Err (Reading ChainLoops)
  | inl (Some (sector, at_)), StopAt _ _ => Ok (sector, at_, None)
  | inl None, StopAt _ _ => Err DirectoryFull
  end.

Lemma place_sector_run nm c o free (i : Image) :
  has boot c → 0 ≤ o < sectors_per_cluster boot →
  directory_slot_sector (E:=E) nm (cluster_start boot c) free o i =
    (Ok (scan (place_step nm) (sector_slots (now i) (cluster_start boot c + o)) free), i).
Proof.
  intros Hc Ho. unfold directory_slot_sector. erewrite dev_bind_Ok; [|apply read_run].
  rewrite offset_small by done. unfold sector_slots. rewrite scan_fmap.
  apply for_until_scan. intros b [k slot] _. unfold directory_slot_slot, place_step.
  cbn [fst snd]. change DIRECTORY_ENTRY_BYTES with 32.
  destruct (decode_slot slot) as [e| |]; [|done..]. by destruct (names_slot slot nm).
Qed.

Lemma directory_slot_loop_run nm fuel c seen free (i : Image) :
  0 ≤ seen ≤ clusters boot → clusters boot + 1 - seen < Z.of_nat fuel →
  let '(l, fin) := dir (now i) (Z.to_nat (clusters boot + 1 - seen)) c in
  directory_slot_loop (E:=E) boot fuel nm c seen free i = (place_answer (scan (place_step nm) l free) fin, i).
Proof.
  revert c seen free. induction fuel as [|fuel IH]; intros c seen free Hseen Hfuel; [lia|].
  destruct (Z.to_nat (clusters boot + 1 - seen)) as [|n] eqn:En; [lia|].
  cbn [directory_slot_loop]. unfold mbind at 1, dev_bind at 1. rewrite sector_of_run by done.
  destruct (decide (has boot c)) as [Hc|Hc]; [|unfold dir; rewrite decide_False by done; by destruct free as [[? ?]|]].
  rewrite (dev_bind_Ok _ _ _ _ _ (cluster_scan _ (place_step nm) c free i Hc
    (λ b o Ho, place_sector_run nm c o b i Hc Ho))).
  destruct n as [|n].
  - unfold dir. rewrite decide_True by done.
    destruct (scan _ _ free) as [free'|p]; [|done]. destruct (Z.ltb_spec (clusters boot) (seen + 1)); [|lia].
    by destruct free' as [[? ?]|].
  - rewrite dir_S, decide_True by done.
    destruct (scan (place_step nm) (cluster_slots (now i) c) free) as [free'|p] eqn:Hscan.
    2:{ destruct (fat boot (now i) c); try (by rewrite Hscan). by rewrite scan_app, Hscan. }
    destruct (Z.ltb_spec (clusters boot) (seen + 1)); [lia|].
    unfold mbind at 1, dev_bind at 1. unfold dev_map_err. rewrite next_cluster_run, decide_True by done. cbn [map_err].
    destruct (fat boot (now i) c) as [| |c'| |]; rewrite ?Hscan; try by destruct free' as [[? ?]|].
    specialize (IH c' (seen + 1) free' ltac:(lia) ltac:(lia)).
    replace (Z.to_nat (clusters boot + 1 - (seen + 1))) with (S n) in IH by lia.
    destruct (dir (now i) (S n) c') as [l fin]. cbn [fst snd]. by rewrite scan_app, Hscan.
Qed.

Lemma directory_slot_run nm (i : Image) :
  directory_slot (E:=E) boot nm i =
    (place_answer (scan (place_step nm) (root_dir (now i)).1 None) (root_dir (now i)).2, i).
Proof.
  pose proof (clusters_bound boot Hg). unfold directory_slot, root_dir.
  pose proof (directory_slot_loop_run nm (fuel_for_chain boot) (root_cluster boot) 0 None i) as Hr.
  rewrite Z.sub_0_r in Hr. destruct (dir _ _ _) as [l fin]. cbn [fst snd]. apply Hr; unfold fuel_for_chain; lia.
Qed.
End volume.
