(* ===== verification/FatFrame.v ===== *)
(** * FAT32: what one sector write can change

    Each write of [write_file] is one [step]: a sector of a cluster being
    filled, the entry of one cluster in one table, or the FSInfo sector.
    Whatever is about other clusters stays as it was ([same_on]), so files
    and directories made of them do too.  [runs] says that a run of the
    image went through such steps, at every prefix of its writes. *)

From S2P Require Import Prelude Words Bytes FatFormat FatVolume FatFormatThms FatDisk FatRead FatReadThms FatDir.
Local Open Scope Z_scope.

(** ** Bytes of a sector *)
Lemma byte_at_splice l a src k :
  (a + length src ≤ length l)%nat → 0 ≤ k →
  Boot.byte_at (splice l a src) k =
    if decide (Z.of_nat a ≤ k < Z.of_nat a + len src) then nth (Z.to_nat k - a) src 0 else Boot.byte_at l k.
Proof.
  intros Hl Hk. unfold Boot.byte_at, len. rewrite !nth_lookup, splice_lookup by done.
  repeat case_decide; lia.
Qed.

Lemma u32_at_splice l o v :
  0 ≤ o → o + 4 ≤ len l → 0 ≤ v < 2 ^ 32 → Boot.u32_at (splice l (Z.to_nat o) (le_encode 4 v)) o = v.
Proof.
  intros Ho Hl Hv. unfold Boot.u32_at. unfold len in Hl.
  rewrite !byte_at_splice by (rewrite ?length_le_encode; lia).
  rewrite !decide_True by (unfold len; rewrite ?length_le_encode; lia).
  replace (Z.to_nat o - Z.to_nat o)%nat with 0%nat by lia.
  replace (Z.to_nat (o + 1) - Z.to_nat o)%nat with 1%nat by lia.
  replace (Z.to_nat (o + 2) - Z.to_nat o)%nat with 2%nat by lia.
  replace (Z.to_nat (o + 3) - Z.to_nat o)%nat with 3%nat by lia.
  apply (le_decode_encode 4 v). done.
Qed.

Lemma u32_at_splice_ne l o o' v :
  0 ≤ o → o + 4 ≤ len l → 0 ≤ o' → (o' + 4 ≤ o ∨ o + 4 ≤ o') →
  Boot.u32_at (splice l (Z.to_nat o) (le_encode 4 v)) o' = Boot.u32_at l o'.
Proof.
  intros Ho Hl Ho' Hne. unfold Boot.u32_at. unfold len in Hl.
  rewrite !byte_at_splice by (rewrite ?length_le_encode; lia).
  by rewrite !decide_False by (unfold len; rewrite ?length_le_encode; lia).
Qed.

(** ** Entries keep their reserved bits *)
Definition merge (old v : Z) : Z := Z.lor (Z.land old (not_w 32 ENTRY_MASK)) (Z.land v ENTRY_MASK).

Lemma mask_testbit n : 0 ≤ n → Z.testbit ENTRY_MASK n = (n <? 28).
Proof.
  intros Hn. change ENTRY_MASK with (Z.ones 28). destruct (Z.ltb_spec n 28).
  - by rewrite Z.ones_spec_low by lia.
  - by rewrite Z.ones_spec_high by lia.
Qed.

Lemma not_mask_testbit n : 0 ≤ n → Z.testbit (not_w 32 ENTRY_MASK) n = (28 <=? n) && (n <? 32).
Proof.
  intros Hn. change (not_w 32 ENTRY_MASK) with (Z.shiftl (Z.ones 4) 28).
  rewrite Z.shiftl_spec by done. destruct (Z.leb_spec 28 n); simpl.
  - destruct (Z.ltb_spec n 32); [by rewrite Z.ones_spec_low by lia|by rewrite Z.ones_spec_high by lia].
  - by rewrite Z.testbit_neg_r by lia.
Qed.

Lemma merge_low old v : Z.land (merge old v) ENTRY_MASK = Z.land v ENTRY_MASK.
Proof.
  apply Z.bits_inj'. intros n Hn. unfold merge.
  rewrite !Z.land_spec, Z.lor_spec, !Z.land_spec, mask_testbit, not_mask_testbit by done.
  destruct (Z.ltb_spec n 28), (Z.leb_spec 28 n), (Z.ltb_spec n 32); try lia;
    by destruct (Z.testbit old n), (Z.testbit v n).
Qed.

Lemma merge_high old v : 0 ≤ old < 2 ^ 32 → Z.land (merge old v) (not_w 32 ENTRY_MASK) = Z.land old (not_w 32 ENTRY_MASK).
Proof.
  intros Ho. apply Z.bits_inj'. intros n Hn. unfold merge.
  rewrite !Z.land_spec, Z.lor_spec, !Z.land_spec, mask_testbit, not_mask_testbit by done.
  destruct (Z.ltb_spec n 28), (Z.leb_spec 28 n), (Z.ltb_spec n 32); try lia;
    by destruct (Z.testbit old n), (Z.testbit v n).
Qed.

Lemma merge_bound old v : 0 ≤ merge old v < 2 ^ 32.
Proof.
  assert (0 ≤ merge old v) as H0.
  { unfold merge. apply Z.lor_nonneg. split; apply Z.land_nonneg; right; vm_compute; discriminate. }
  split; [done|]. destruct (decide (merge old v = 0)) as [->|]; [done|].
  apply Z.log2_lt_pow2; [lia|]. apply Z.nle_gt. intros Hlog.
  pose proof (Z.bit_log2 (merge old v) ltac:(lia)) as Hbit. unfold merge in Hbit at 1.
  rewrite Z.lor_spec, !Z.land_spec, mask_testbit, not_mask_testbit in Hbit by lia.
  destruct (Z.ltb_spec (Z.log2 (merge old v)) 28), (Z.leb_spec 28 (Z.log2 (merge old v))),
    (Z.ltb_spec (Z.log2 (merge old v)) 32); lia.
Qed.

Lemma decode_merge old v : decode (merge old v) = decode v.
Proof. unfold decode. by rewrite merge_low. Qed.

Lemma decode_next v : 2 ≤ v < 0x0FFFFFF7 → decode v = EntryNext v.
Proof.
  intros Hv. unfold decode. assert (Z.land v ENTRY_MASK = v) as ->.
  { change ENTRY_MASK with (Z.ones 28). rewrite Z.land_ones by done. apply Z.mod_small. lia. }
  destruct (Z.eqb_spec v 0), (Z.eqb_spec v 1), (Z.eqb_spec v 0x0FFFFFF7), (Z.leb_spec 0x0FFFFFF8 v); try lia. done.
Qed.

(** ** Steps *)
Section volume.
  Context (boot : BootSector) (Hg : geometry boot).

(** The sector of a table with the entry of [c] set. *)
Definition set_entry (bytes : list Z) (c v : Z) : list Z :=
  splice bytes (Z.to_nat (c mod 128 * 4)) (le_encode 4 (merge (Boot.u32_at bytes (c mod 128 * 4)) v)).

Definition table_no (t : Z) : Prop := 0 ≤ t < fat_count boot.
Definition cluster_sector (o : Z) : Prop := 0 ≤ o < sectors_per_cluster boot.
Definition sector_ok (bytes : list Z) : Prop := length bytes = 512%nat ∧ bytes_ok bytes.

Inductive step (new : list Z) (freed : Z → Prop) (d : content) : content → Prop :=
| StepData c o bytes :
    c ∈ new → has boot c → cluster_sector o → sector_ok bytes →
    step new freed d (<[cluster_start boot c + o := bytes]> d)
| StepTable c t v :
    c ∈ new ∨ freed c → has boot c → table_no t →
    step new freed d (<[table_sector boot t c := set_entry (d (table_sector boot t c)) c v]> d)
| StepInfo n bytes :
    0 < n < reserved_sectors boot → sector_ok bytes → step new freed d (<[n := bytes]> d).

Lemma step_mono new new' (freed freed' : Z → Prop) d d' :
  new ⊆ new' → (∀ c, freed c → freed' c) → step new freed d d' → step new' freed' d d'.
Proof.
  intros Hn Hf [c o bytes ? ? ? ?|c t v Hin ? ?|n bytes ? ?].
  - apply StepData; auto.
  - apply StepTable; [|done..]. destruct Hin; [left; by apply Hn|right; by apply Hf].
  - by apply StepInfo.
Qed.

Lemma set_entry_ok bytes c v : sector_ok bytes → sector_ok (set_entry bytes c v).
Proof.
  intros [Hl Hb]. pose proof (Z.mod_pos_bound c 128 ltac:(lia)). unfold set_entry. split.
  - unfold splice. rewrite !length_app, length_take, length_drop, length_le_encode. lia.
  - apply bytes_ok_splice; [done|apply le_encode_ok].
Qed.

Lemma insert_ok d n bytes : disk_ok d → sector_ok bytes → disk_ok (<[n := bytes]> d).
Proof.
  intros Hd Hb m. destruct (decide (m = n)) as [->|].
  - by rewrite fn_lookup_insert.
  - by rewrite fn_lookup_insert_ne.
Qed.

Lemma step_ok new freed d d' : disk_ok d → step new freed d d' → disk_ok d'.
Proof.
  intros Hd [c o bytes ? ? ? Hb|c t v ? ? ?|n bytes ? Hb]; apply insert_ok; try done.
  apply set_entry_ok, Hd.
Qed.

Lemma steps_ok new freed d d' : disk_ok d → rtc (step new freed) d d' → disk_ok d'.
Proof. intros Hd. induction 1; [done|]. eauto using step_ok. Qed.

(** Nothing about the clusters of [P] changed. *)
Definition same_on (P : Z → Prop) (d d' : content) : Prop :=
  ∀ c, has boot c → P c →
    (∀ t, table_no t → raw boot t d' c = raw boot t d c) ∧
    (∀ o, cluster_sector o → d' (cluster_start boot c + o) = d (cluster_start boot c + o)).

#[export] Instance same_on_preorder P : PreOrder (same_on P).
Proof.
  split; [done|]. intros d1 d2 d3 H1 H2 c Hc HP. destruct (H1 c Hc HP) as [A1 B1], (H2 c Hc HP) as [A2 B2].
  split; intros; [rewrite A2, A1|rewrite B2, B1]; done.
Qed.

Lemma same_on_mono (P Q : Z → Prop) d d' : (∀ c, Q c → P c) → same_on P d d' → same_on Q d d'.
Proof. intros HPQ Hs c Hc HQ. by apply Hs, HPQ. Qed.

Lemma table_not_data t c c' o : table_no t → has boot c → has boot c' → cluster_sector o →
  table_sector boot t c ≠ cluster_start boot c' + o.
Proof.
  intros Ht Hc Hc' Ho. destruct (table_sector_bounds boot Hg t c Ht Hc) as [_ Hb].
  destruct (cluster_start_bounds boot Hg c' Hc') as [? _]. unfold cluster_sector in Ho. lia.
Qed.

Lemma table_sector_inj t c t' c' : table_no t → table_no t' → has boot c → has boot c' →
  table_sector boot t c = table_sector boot t' c' → t = t' ∧ c / 128 = c' / 128.
Proof.
  intros Ht Ht' Hc Hc' Heq. destruct (table_sector_bounds boot Hg t c Ht Hc) as [Hd _].
  destruct (table_sector_bounds boot Hg t' c' Ht' Hc') as [Hd' _].
  pose proof (geo_spf _ Hg). unfold table_sector in Heq. assert (t = t') as -> by nia. split; [done|lia].
Qed.

Lemma cluster_start_inj c o c' o' : cluster_sector o → cluster_sector o' →
  cluster_start boot c + o = cluster_start boot c' + o' → c = c' ∧ o = o'.
Proof.
  unfold cluster_start, cluster_sector. intros Ho Ho' Heq. pose proof (geo_spc _ Hg).
  assert (c = c') as -> by nia. split; [done|lia].
Qed.

Lemma info_not_table n t c : 0 < n < reserved_sectors boot → table_no t → has boot c → n ≠ table_sector boot t c.
Proof. intros Hn Ht Hc. destruct (table_sector_bounds boot Hg t c Ht Hc) as [_ ?]. lia. Qed.

Lemma info_not_data n c o : 0 < n < reserved_sectors boot → has boot c → cluster_sector o → n ≠ cluster_start boot c + o.
Proof.
  intros Hn Hc Ho. destruct (cluster_start_bounds boot Hg c Hc) as [? _]. unfold cluster_sector in Ho.
  pose proof (geo_fats _ Hg). pose proof (geo_spf _ Hg). nia.
Qed.

(** Setting the entry of one cluster. *)
Lemma raw_set d t c v t' c' :
  disk_ok d → table_no t → table_no t' → has boot c → has boot c' →
  raw boot t' (<[table_sector boot t c := set_entry (d (table_sector boot t c)) c v]> d) c' =
    if decide (t' = t ∧ c' = c) then merge (raw boot t d c) v else raw boot t' d c'.
Proof.
  intros Hd Ht Ht' Hc Hc'. unfold raw. destruct (Hd (table_sector boot t c)) as [Hl Hb].
  pose proof (Z.mod_pos_bound c 128 ltac:(lia)). pose proof (Z.mod_pos_bound c' 128 ltac:(lia)).
  destruct (decide (table_sector boot t' c' = table_sector boot t c)) as [Heq|Hne].
  - destruct (table_sector_inj t' c' t c) as [-> Hdiv]; [done..|].
    rewrite Heq, fn_lookup_insert. unfold set_entry. case_decide as Hcc.
    + destruct Hcc as [_ ->]. apply u32_at_splice; [lia|unfold len; lia|apply merge_bound].
    + apply u32_at_splice_ne; [lia|unfold len; lia|lia|].
      assert (c' mod 128 ≠ c mod 128); [|lia]. intros Hm. destruct Hcc. split; [done|].
      rewrite (Z.div_mod c' 128), (Z.div_mod c 128) by done. congruence.
  - rewrite fn_lookup_insert_ne by done. rewrite decide_False; [done|]. intros [-> ->]. done.
Qed.

Lemma step_same new freed d d' :
  disk_ok d → step new freed d d' → same_on (λ c, c ∉ new ∧ ¬ freed c) d d'.
Proof.
  intros Hd Hstep c Hc [Hnew Hfreed].
  destruct Hstep as [c' o bytes Hin Hc' Ho Hb|c' t v Hin Hc' Ht|n bytes Hn Hb]; split.
  - intros t Ht. unfold raw. rewrite fn_lookup_insert_ne; [done|]. intros Heq.
    by apply (table_not_data t c c' o).
  - intros o' Ho'. rewrite fn_lookup_insert_ne; [done|]. intros Heq.
    destruct (cluster_start_inj c' o c o') as [-> _]; done.
  - intros t' Ht'. rewrite raw_set by done. rewrite decide_False; [done|]. intros [_ ->]. naive_solver.
  - intros o Ho. rewrite fn_lookup_insert_ne; [done|]. by apply table_not_data.
  - intros t Ht. unfold raw. rewrite fn_lookup_insert_ne; [done|]. by apply info_not_table.
  - intros o Ho. rewrite fn_lookup_insert_ne; [done|]. by apply info_not_data.
Qed.

Lemma steps_same new freed d d' :
  disk_ok d → rtc (step new freed) d d' → same_on (λ c, c ∉ new ∧ ¬ freed c) d d'.
Proof.
  intros Hd Hs. induction Hs as [|d d1 d' H1 H2 IH]; [done|].
  transitivity d1; [by apply step_same|]. apply IH. by eapply step_ok.
Qed.

(** ** What is preserved *)
Section same.
  Context (P : Z → Prop) (d d' : content) (Hsame : same_on P d d').

Lemma table_zero : table_no 0.
Proof. pose proof (geo_fats _ Hg). unfold table_no. lia. Qed.

Lemma same_fat c : has boot c → P c → fat boot d' c = fat boot d c.
Proof. intros Hc HP. unfold fat. destruct (Hsame c Hc HP) as [-> _]; [done|apply table_zero]. Qed.

Lemma same_data c : has boot c → P c → data boot d' c = data boot d c.
Proof.
  intros Hc HP. unfold data. f_equal. apply list_fmap_ext. intros k n Hn.
  apply lookup_seqZ in Hn as [-> Hk]. destruct (Hsame c Hc HP) as [_ ->]; [done|].
  unfold cluster_sector. lia.
Qed.

Lemma same_slots c : has boot c → P c → cluster_slots boot d' c = cluster_slots boot d c.
Proof.
  intros Hc HP. unfold cluster_slots. f_equal. apply list_fmap_ext. intros k n Hn.
  apply lookup_seqZ in Hn as [-> Hk]. unfold sector_slots.
  destruct (Hsame c Hc HP) as [_ ->]; [done|]. unfold cluster_sector. lia.
Qed.

Lemma same_walk {E} n c cl :
  walk (E:=E) boot d n c = Ok cl → Forall P cl → walk (E:=E) boot d' n c = Ok cl.
Proof.
  revert c cl; induction n as [|[|n] IH]; intros c cl; [done|done|].
  rewrite !walk_S. destruct (decide (has boot c)) as [Hc|]; [|done].
  destruct (fat boot d c) as [| |c'| |] eqn:Hf; try done.
  destruct (walk boot d (S n) c') as [l| | |] eqn:Hw; cbn [mbind res_bind]; try done.
  intros [= <-] [HP Hl]%Forall_cons. rewrite same_fat, Hf by done. rewrite (IH c' l) by done. done.
Qed.

Lemma walk_has {E} n c cl : walk (E:=E) boot d n c = Ok cl → Forall (has boot) cl.
Proof.
  revert c cl; induction n as [|[|n] IH]; intros c cl; [intros [= <-]; apply Forall_nil_2| |].
  - simpl. case_decide; [|done]. intros [= <-]. apply Forall_singleton. done.
  - rewrite walk_S. case_decide; [|done]. destruct (fat boot d c) as [| |c'| |]; try done.
    destruct (walk boot d (S n) c') as [l| | |] eqn:Hw; cbn [mbind res_bind]; try done.
    intros [= <-]. constructor; [done|]. by apply (IH c').
Qed.

Lemma same_datas cl : Forall (has boot) cl → Forall P cl → data boot d' <$> cl = data boot d <$> cl.
Proof.
  intros Hh HP. apply list_fmap_ext. intros k c Hk%list_elem_of_lookup_2.
  rewrite Forall_forall in Hh, HP. apply same_data; auto.
Qed.
End same.

(** ** Chains with an end *)
Inductive chain (d : content) : Z → list Z → Prop :=
| ChainEnd c : has boot c → fat boot d c = EntryEnd → chain d c [c]
| ChainNext c c' l : has boot c → fat boot d c = EntryNext c' → chain d c' l → chain d c (c :: l).

(** The clusters a walk over the links from [c] can come to. *)
Inductive reach (d : content) (c : Z) : Z → Prop :=
| ReachHere : reach d c c
| ReachNext x y : reach d c x → has boot x → fat boot d x = EntryNext y → reach d c y.

Lemma chain_has d c l : chain d c l → Forall (has boot) l.
Proof. induction 1; [by apply Forall_singleton|by apply Forall_cons_2]. Qed.

Lemma chain_taken d c l : chain d c l → Forall (λ x, fat boot d x ≠ EntryFree) l.
Proof.
  induction 1 as [c Hc Hf|c c' l Hc Hf Hl IH].
  - constructor; [by rewrite Hf|constructor].
  - constructor; [by rewrite Hf|done].
Qed.

Lemma chain_det d c l l' : chain d c l → chain d c l' → l = l'.
Proof.
  intros Hl. revert l'. induction Hl as [c Hc Hf|c c' l Hc Hf Hl IH]; intros l' Hl'; inversion Hl'; subst; try congruence.
  f_equal. apply IH. congruence.
Qed.

Lemma chain_suffix d c l1 x l2 : chain d c (l1 ++ x :: l2) → chain d x (x :: l2).
Proof.
  revert c. induction l1 as [|y l1 IH]; intros c Hl; simpl in Hl.
  - inversion Hl; subst; by econstructor.
  - inversion Hl; subst; [by destruct l1|]. by eapply IH.
Qed.

Lemma chain_nodup d c l : chain d c l → NoDup l.
Proof.
  intros Hl. apply NoDup_alt. intros i j x Hi Hj.
  assert (∀ i j, l !! i = Some x → l !! j = Some x → (i < j)%nat → False) as Hlt; [|
    destruct (Nat.lt_trichotomy i j) as [?|[?|?]]; [exfalso; eauto|done|exfalso; eauto] ].
  clear i j Hi Hj. intros i j Hi Hj Hij.
  pose proof (take_drop_middle _ _ _ Hi) as Ei. pose proof (take_drop_middle _ _ _ Hj) as Ej.
  rewrite <-Ei in Hl at 1. apply chain_suffix in Hl as H1.
  rewrite Ei in Hl. rewrite <-Ej in Hl. apply chain_suffix in Hl as H2.
  pose proof (chain_det _ _ _ _ H1 H2) as Heq. apply (f_equal length) in Heq. simpl in Heq.
  rewrite !length_drop in Heq. apply lookup_lt_Some in Hi, Hj. lia.
Qed.

Lemma chain_head d c l : chain d c l → ∃ l', l = c :: l'.
Proof. destruct 1; by eexists. Qed.

Lemma chain_reach d c l x : chain d c l → x ∈ l → reach d c x.
Proof.
  intros Hl. assert (∀ c0, reach d c0 c → x ∈ l → reach d c0 x) as Hgen.
  { induction Hl as [c Hc Hf|c c' l Hc Hf Hl IH]; intros c0 Hr.
    - by intros ->%list_elem_of_singleton.
    - intros [->|Hx]%elem_of_cons; [done|]. apply IH; [|done]. by econstructor. }
  apply Hgen. constructor.
Qed.

Lemma reach_chain d c l x : chain d c l → reach d c x → x ∈ l.
Proof.
  intros Hl. induction 1 as [|x y Hr IH Hx Hf].
  - destruct (chain_head _ _ _ Hl) as [? ->]. by left.
  - apply list_elem_of_split in IH as (l1 & l2 & ->). apply chain_suffix in Hl as Hs.
    inversion Hs as [? ? Hf'|? c' ? ? Hf' Hl']; subst; [congruence|].
    assert (c' = y) as -> by congruence. destruct (chain_head _ _ _ Hl') as [? ->]. set_solver.
Qed.

Lemma same_chain P d d' c l : same_on P d d' → chain d c l → Forall P l → chain d' c l.
Proof.
  intros Hs. induction 1 as [c Hc Hf|c c' l Hc Hf Hl IH]; intros [HP Hl']%Forall_cons.
  - constructor; [done|]. by rewrite (same_fat P d d').
  - econstructor; [done| |by apply IH]. by rewrite (same_fat P d d').
Qed.

(** A directory whose chain ends is the slots of its clusters. *)
Lemma dir_chain d n c l :
  chain d c l → (length l < n)%nat ∨ length l = n ∧ False →
  ∃ x, dir boot d n c = (concat (cluster_slots boot d <$> l), StopAt x EntryEnd).
Proof.
  intros Hl. revert n. induction Hl as [c Hc Hf|c c' l Hc Hf Hl IH]; intros n Hn.
  - destruct n as [|[|n]]; simpl in Hn; [lia..|]. rewrite dir_S, decide_True, Hf by done.
    exists c. rewrite fmap_cons. simpl. by rewrite app_nil_r.
  - destruct n as [|[|n]]; simpl in Hn; [lia..|]. rewrite dir_S, decide_True, Hf by done.
    destruct (IH (S n)) as [x ->]; [lia|]. exists x. done.
Qed.

Lemma chain_length d c l : chain d c l → Z.of_nat (length l) ≤ clusters boot.
Proof.
  intros Hl. pose proof (clusters_bound boot Hg).
  assert (l ⊆+ seqZ FIRST_DATA_CLUSTER (clusters boot)) as Hsub.
  { apply NoDup_submseteq; [by eapply chain_nodup|]. intros x Hx. apply elem_of_seqZ.
    pose proof (chain_has _ _ _ Hl) as Hh. rewrite Forall_forall in Hh. apply Hh in Hx. unfold has in Hx. lia. }
  apply submseteq_length in Hsub. rewrite length_seqZ in Hsub. lia.
Qed.

Lemma root_dir_chain d l :
  chain d (root_cluster boot) l →
  ∃ x, root_dir boot d = (concat (cluster_slots boot d <$> l), StopAt x EntryEnd).
Proof.
  intros Hl. apply dir_chain; [done|]. pose proof (chain_length _ _ _ Hl). lia.
Qed.
End volume.

(** ** Runs of the image *)
Definition written (i : Image) (n : Z) (bytes : list Z) : Image :=
  {| origin := origin i; log := log i ++ [(n, bytes)] |}.

Definition runs (R : content → content → Prop) (i i' : Image) : Prop :=
  later i i' ∧ ∀ j, later i j → later j i' → rtc R (now i) (now j).

Lemma runs_refl R i : runs R i i.
Proof. split; [done|]. intros j H1 H2. by rewrite (later_antisym _ _ H1 H2). Qed.

Lemma later_total i i' j k : later i j → later i k → later j i' → later k i' → later j k ∨ later k j.
Proof.
  destruct i as [o l], i' as [o' l'], j as [oj lj], k as [ok lk]. unfold later; simpl.
  intros [? _] [? _] [? Hj] [? Hk]. subst. destruct (prefix_weak_total lj lk l' Hj Hk); [left|right]; done.
Qed.

Lemma runs_trans R i i' i'' : runs R i i' → runs R i' i'' → runs R i i''.
Proof.
  intros [L1 R1] [L2 R2]. split; [by transitivity i'|]. intros j H1 H2.
  destruct (later_total i i'' j i' H1 L1 H2 L2) as [Hj|Hj]; [by apply R1|].
  transitivity (now i'); [by apply R1|by apply R2].
Qed.

Lemma runs_rtc R i i' : runs R i i' → rtc R (now i) (now i').
Proof. intros [L HR]. by apply HR. Qed.

Lemma runs_mono (R R' : content → content → Prop) i i' :
  (∀ d d', R d d' → R' d d') → runs R i i' → runs R' i i'.
Proof.
  intros Hsub [L HR]. split; [done|]. intros j H1 H2.
  eapply rtc_subrel; [exact Hsub|by apply HR].
Qed.

Lemma now_written i n bytes : now (written i n bytes) = <[n := bytes]> (now i).
Proof. apply now_write. Qed.

Lemma written_between i n bytes j :
  later i j → later j (written i n bytes) → j = i ∨ j = written i n bytes.
Proof.
  intros [E1 [k1 P1]] [E2 [k2 P2]]. destruct i as [o l], j as [o' l']; simpl in *. subst.
  rewrite <-app_assoc in P2. apply app_inv_head in P2.
  destruct k1 as [|x k1]; [left; by rewrite app_nil_r|]. injection P2 as <- Hk.
  destruct k1; [|by destruct k1]. right. by unfold written.
Qed.

Lemma runs_write (R : content → content → Prop) i n bytes :
  R (now i) (<[n := bytes]> (now i)) → runs R i (written i n bytes).
Proof.
  intros HR. split; [apply later_write|]. intros j H1 H2.
  destruct (written_between _ _ _ _ H1 H2) as [-> | ->]; [done|].
  apply rtc_once. by rewrite now_written.
Qed.
