(* ===== verification/FatWrite.v ===== *)
(** * FAT32: the parts of a write

    What each step of [write_file] does to the image of a volume, in the
    order the code takes them: finding free clusters, filling them, linking
    them, giving the old chain back, rewriting FSInfo. *)

From S2P Require Import Prelude Words Bytes FatFormat FatVolume FatFormatThms FatDisk FatRead FatReadThms FatDir FatFrame.
Local Open Scope Z_scope.

#[local] Existing Instance has_dec.

Section volume.
  Context {E : Type} (boot : BootSector) (Hg : geometry boot).

Notation cb := (512 * sectors_per_cluster boot).
Notation nothing := (λ _ : Z, False).

Lemma write_run n bytes (i : Image) : write (E:=E) n bytes i = (Ok (), written i n bytes).
Proof. done. Qed.

(** ** One entry of every table *)
Lemma set_in_table_run c v t (i : Image) :
  disk_ok (now i) → has boot c → table_no boot t →
  set_in_table (E:=E) boot c v t i =
    (Ok (), written i (table_sector boot t c) (set_entry (now i (table_sector boot t c)) c v)).
Proof.
  intros Hd Hc Ht. destruct (table_sector_bounds boot Hg t c Ht Hc) as [Hq Hb].
  pose proof (geo_data _ Hg). pose proof (geo_total _ Hg). pose proof (clusters_bound boot Hg).
  pose proof (geo_spc _ Hg). pose proof (geo_spf _ Hg). pose proof (geo_reserved _ Hg).
  pose proof (Z.mod_pos_bound c 128 ltac:(lia)).
  assert (0 ≤ t * sectors_per_fat boot ≤ fat_count boot * sectors_per_fat boot) by (unfold table_no in Ht; nia).
  assert (0 ≤ clusters boot * sectors_per_cluster boot) by nia.
  unfold set_in_table. rewrite (geo_bps _ Hg). change (512 / 4) with 128. unfold Boot.first_fat_sector.
  assert (wrap 32 (wrap 32 (reserved_sectors boot + wrap 32 (t * sectors_per_fat boot)) + c / 128)
    = table_sector boot t c) as ->.
  { unfold table_sector in *. unfold wrap. rewrite (Z.mod_small (t * _)) by lia.
    rewrite (Z.mod_small (reserved_sectors boot + _)) by lia. apply Z.mod_small. lia. }
  erewrite dev_bind_Ok; [|apply read_run]. destruct (Hd (table_sector boot t c)) as [Hl _].
  rewrite copy_at_Some; [|lia|unfold len; rewrite length_le_encode; lia|unfold len; lia].
  erewrite dev_bind_Ok; [|done]. apply write_run.
Qed.

(** Sectors of clusters, all untouched. *)
Definition data_same (d d' : content) : Prop :=
  ∀ c o, has boot c → cluster_sector boot o → d' (cluster_start boot c + o) = d (cluster_start boot c + o).

Lemma set_tables_run new freed c v ts (i : Image) :
  disk_ok (now i) → has boot c → Forall (table_no boot) ts → NoDup ts → c ∈ new ∨ freed c →
  ∃ i', for_in ts (λ _ t, set_in_table (E:=E) boot c v t) () i = (Ok (), i') ∧
    runs (step boot new freed) i i' ∧ data_same (now i) (now i') ∧
    (∀ t c', table_no boot t → has boot c' →
       raw boot t (now i') c' = if decide (t ∈ ts ∧ c' = c) then merge (raw boot t (now i) c) v else raw boot t (now i) c').
Proof.
  intros Hd Hc Hts Hnd Hin. revert i Hd. induction ts as [|t ts IH]; intros i Hd.
  { exists i. split; [done|]. split; [apply runs_refl|]. split; [done|]. intros. by rewrite decide_False by set_solver. }
  apply Forall_cons in Hts as [Ht Hts]. apply NoDup_cons in Hnd as [Hnt Hnd]. cbn [for_in].
  erewrite dev_bind_Ok; [|by apply set_in_table_run].
  assert (step boot new freed (now i) (now (written i (table_sector boot t c) (set_entry (now i (table_sector boot t c)) c v)))) as Hstep.
  { rewrite now_written. by constructor. }
  destruct (IH Hts Hnd (written i (table_sector boot t c) (set_entry (now i (table_sector boot t c)) c v)))
    as (i' & Hrun & Hruns & Hdata & Hraw); [by eapply step_ok|].
  exists i'. split; [done|]. split; [|split].
  - eapply runs_trans; [apply runs_write; by constructor|done].
  - intros c' o Hc' Ho. rewrite Hdata by done. rewrite now_written. rewrite fn_lookup_insert_ne; [done|].
    by apply table_not_data.
  - intros t' c' Ht' Hc'. rewrite Hraw by done. rewrite now_written, !raw_set by done.
    destruct (decide (t' = t)) as [->|Hne].
    + rewrite (decide_False (P := t ∈ ts ∧ c' = c)) by naive_solver.
      destruct (decide (c' = c)); [rewrite !decide_True by set_solver|rewrite !decide_False by naive_solver]; done.
    + rewrite (decide_False (P := t' = t ∧ c = c)), (decide_False (P := t' = t ∧ c' = c)) by naive_solver.
      destruct (decide (t' ∈ ts ∧ c' = c)); [rewrite decide_True by set_solver|rewrite decide_False by set_solver]; done.
Qed.

Lemma set_next_run new freed c v (i : Image) :
  disk_ok (now i) → has boot c → c ∈ new ∨ freed c →
  ∃ i', set_next_cluster (E:=E) boot c v i = (Ok (), i') ∧
    runs (step boot new freed) i i' ∧ data_same (now i) (now i') ∧
    (∀ t c', table_no boot t → has boot c' →
       raw boot t (now i') c' = if decide (c' = c) then merge (raw boot t (now i) c) v else raw boot t (now i) c').
Proof.
  intros Hd Hc Hin. unfold set_next_cluster. rewrite (has_cluster_true boot Hg) by done. cbn [negb].
  destruct (set_tables_run new freed c v (seqZ 0 (fat_count boot)) i Hd Hc)
    as (i' & Hrun & Hruns & Hdata & Hraw); [|apply NoDup_seqZ|done|].
  { apply Forall_forall. intros t Ht%elem_of_seqZ. unfold table_no. lia. }
  exists i'. split; [done|]. split; [done|]. split; [done|]. intros t c' Ht Hc'. rewrite Hraw by done.
  assert (t ∈ seqZ 0 (fat_count boot)) by (apply elem_of_seqZ; unfold table_no in Ht; lia).
  destruct (decide (c' = c)); [by rewrite decide_True|rewrite decide_False by naive_solver]; done.
Qed.

(** ** Finding free clusters *)
Definition free_list (d : content) : list Z :=
  filter (λ c, fat boot d c = EntryFree) (seqZ FIRST_DATA_CLUSTER (clusters boot)).

Lemma free_clusters_loop_run fuel count k c (pre found : list Z) (i : Image) :
  len pre = k → 0 ≤ k ≤ count → count ≤ len found → take (length pre) found = pre →
  FIRST_DATA_CLUSTER ≤ c ≤ FIRST_DATA_CLUSTER + clusters boot →
  FIRST_DATA_CLUSTER + clusters boot - c < Z.of_nat fuel →
  let rest := filter (λ c, fat boot (now i) c = EntryFree) (seqZ c (FIRST_DATA_CLUSTER + clusters boot - c)) in
  ∃ found', free_clusters_loop (E:=E) boot fuel count k c found i = (Ok (Z.min count (k + len rest), found'), i) ∧
    len found' = len found ∧
    take (Z.to_nat (Z.min count (k + len rest))) found' = take (Z.to_nat count) (pre ++ rest).
Proof.
  pose proof (clusters_bound boot Hg) as Hcl.
  assert (wrap 32 (FIRST_DATA_CLUSTER + clusters boot) = FIRST_DATA_CLUSTER + clusters boot) as Hw
    by (apply Z.mod_small; unfold FIRST_DATA_CLUSTER; lia).
  revert k c pre found. induction fuel as [|fuel IH]; intros k c pre found Hk Hkc Hlf Htk Hc Hfuel; [lia|].
  cbn [free_clusters_loop]. rewrite Hw. unfold len in *.
  destruct (Z.ltb_spec k count) as [Hlt|Hge]; cbn [andb].
  2:{ cbv zeta. exists found. rewrite Z.min_l by lia. split_and!; [|done|].
      - assert (k = count) as -> by lia. done.
      - assert (Z.to_nat count = length pre) as -> by lia. by rewrite Htk, take_app_length. }
  destruct (Z.ltb_spec c (FIRST_DATA_CLUSTER + clusters boot)) as [Hin|Hend].
  2:{ replace (FIRST_DATA_CLUSTER + clusters boot - c) with 0 by lia. cbv zeta. exists found.
      change (seqZ c 0) with (@nil Z). change (filter _ []) with (@nil Z).
      cbn [length]. rewrite app_nil_r. rewrite Z.min_r by lia. change (Z.of_nat 0) with 0. rewrite Z.add_0_r.
      split_and!; [done|done|]. replace (Z.to_nat k) with (length pre) by lia.
      rewrite Htk. by rewrite take_ge by lia. }
  unfold mbind at 1, dev_bind at 1. unfold dev_map_err. rewrite next_cluster_run by done.
  rewrite (decide_True (P := has boot c)) by (unfold has; lia). cbn [map_err].
  replace (FIRST_DATA_CLUSTER + clusters boot - c) with (Z.succ (FIRST_DATA_CLUSTER + clusters boot - (c + 1))) by lia.
  rewrite seqZ_cons, Z.pred_succ by lia. rewrite <-Z.add_1_r. rewrite filter_cons.
  destruct (decide (fat boot (now i) c = EntryFree)) as [Hfree|Hused].
  - assert (set_index found k c = Some (<[length pre := c]> found)) as ->.
    { unfold set_index, len. destruct (Z.leb_spec 0 k), (Z.ltb_spec k (Z.of_nat (length found))); try lia.
      simpl. do 2 f_equal. lia. }
    erewrite dev_bind_Ok; [|done].
    destruct (IH (k + 1) (c + 1) (pre ++ [c]) (<[length pre := c]> found)) as (found' & Hrun & Hlen & Htake);
      [rewrite length_app; simpl; lia|lia|rewrite length_insert; lia| |lia|lia|].
    { rewrite length_app, Nat.add_1_r. erewrite take_S_r; [|rewrite list_lookup_insert_eq; [done|lia]].
      rewrite take_insert_ge by lia. by rewrite Htk. }
    cbv zeta in *. exists found'. unfold len in *. rewrite Hrun. cbn [length].
    split_and!; [do 3 f_equal; lia|by rewrite Hlen, length_insert|].
    rewrite <-app_assoc in Htake. simpl in Htake. rewrite <-Htake. f_equal. lia.
  - destruct (IH k (c + 1) pre found) as (found' & Hrun & Hlen & Htake); try done; try lia.
    cbv zeta in *. exists found'. unfold len in *. rewrite Hrun. done.
Qed.

Lemma free_clusters_run count (i : Image) :
  0 ≤ count →
  ∃ r, free_clusters (E:=E) boot count i = (r, i) ∧
    match r with
    | Ok found => count ≤ MAX_FILE_CLUSTERS ∧ count ≤ len (free_list (now i)) ∧
        len found = MAX_FILE_CLUSTERS ∧ take (Z.to_nat count) found = take (Z.to_nat count) (free_list (now i))
    | Err e => (MAX_FILE_CLUSTERS < count ∧ e = TooManyClusters count) ∨
        (len (free_list (now i)) < count ≤ MAX_FILE_CLUSTERS ∧ e = Full count (len (free_list (now i))))
    | Panic | Diverge => False
    end.
Proof.
  intros Hc. unfold free_clusters. pose proof (clusters_bound boot Hg) as Hcl.
  destruct (Z.ltb_spec MAX_FILE_CLUSTERS count) as [Hmax|Hmax].
  { eexists. split; [done|]. left. done. }
  destruct (free_clusters_loop_run (fuel_for_chain boot) count 0 FIRST_DATA_CLUSTER []
    (replicate (Z.to_nat MAX_FILE_CLUSTERS) 0) i) as (found & Hrun & Hlen & Htake);
    [done|lia|rewrite len_replicate; lia|done|lia|unfold fuel_for_chain; lia|].
  replace (FIRST_DATA_CLUSTER + clusters boot - FIRST_DATA_CLUSTER) with (clusters boot) in * by lia.
  fold (free_list (now i)) in *. cbn [app] in Htake. rewrite Z.add_0_l in *.
  unfold mbind, dev_bind. rewrite Hrun. rewrite len_replicate in Hlen.
  destruct (Z.ltb_spec (Z.min count (len (free_list (now i)))) count).
  - eexists. split; [done|]. right. split; [lia|]. f_equal. lia.
  - eexists. split; [done|]. rewrite Z.min_l in Htake by lia. split_and!; [lia|lia|by rewrite Hlen|done].
Qed.

(** ** Filling clusters *)

(** What the sector of a file at byte [a] is written as. *)
Definition sector_image (contents : list Z) (a : Z) : list Z :=
  splice (replicate 512 0) 0 (take 512 (drop (Z.to_nat a) contents)).

Lemma sector_image_ok contents a : bytes_ok contents → sector_ok (sector_image contents a).
Proof.
  intros Hc. unfold sector_image. split.
  - assert (len (splice (replicate 512 0) 0 (take 512 (drop (Z.to_nat a) contents))) = 512) as Hl.
    { rewrite len_splice; [done|]. rewrite length_replicate, length_take. lia. }
    unfold len in Hl. lia.
  - apply bytes_ok_splice; [apply (Forall_replicate _ 512 0); lia|by apply Forall_take, Forall_drop].
Qed.

Lemma sector_image_prefix contents a : take 512 (drop (Z.to_nat a) contents) `prefix_of` sector_image contents a.
Proof. unfold sector_image, splice. rewrite take_0. by eexists. Qed.

Lemma write_cluster_sector_run contents k c o (i : Image) :
  has boot c → cluster_sector boot o → 0 ≤ k →
  write_cluster_sector (E:=E) boot contents k (cluster_start boot c) () o i =
    (Ok (), if len contents <=? k * cb + o * 512 then i
            else written i (cluster_start boot c + o) (sector_image contents (k * cb + o * 512))).
Proof.
  intros Hc Ho Hk. unfold cluster_sector in Ho. unfold write_cluster_sector. rewrite (cluster_bytes_spec boot Hg).
  set (a := k * cb + o * 512). assert (0 ≤ a) by (unfold a; nia).
  destruct (Z.leb_spec (len contents) a); [done|].
  rewrite slice_Some by lia. erewrite dev_bind_Ok; [|done].
  replace (a + Z.min (len contents - a) 512 - a) with (Z.min (len contents - a) 512) by lia.
  assert (take (Z.to_nat (Z.min (len contents - a) 512)) (drop (Z.to_nat a) contents)
    = take 512 (drop (Z.to_nat a) contents)) as ->.
  { destruct (Z.le_gt_cases (len contents - a) 512).
    - rewrite Z.min_l by lia. rewrite !take_ge; [done|rewrite length_drop; unfold len in *; lia..].
    - by rewrite Z.min_r by lia. }
  assert (len (take 512 (drop (Z.to_nat a) contents)) = Z.min (len contents - a) 512) as Hl.
  { unfold len in *. rewrite length_take, length_drop. lia. }
  rewrite copy_at_Some; [|done|by rewrite Hl|rewrite len_replicate; lia].
  erewrite dev_bind_Ok; [|done]. rewrite (offset_small boot Hg) by done. apply write_run.
Qed.

Lemma write_cluster_run contents k c offs (i : Image) :
  has boot c → Forall (cluster_sector boot) offs → NoDup offs → 0 ≤ k → bytes_ok contents →
  ∃ i', for_in offs (write_cluster_sector (E:=E) boot contents k (cluster_start boot c)) () i = (Ok (), i') ∧
    runs (step boot [c] nothing) i i' ∧
    (∀ t c', table_no boot t → has boot c' → raw boot t (now i') c' = raw boot t (now i) c') ∧
    (∀ o, cluster_sector boot o → now i' (cluster_start boot c + o) =
       if decide (o ∈ offs ∧ k * cb + o * 512 < len contents)
       then sector_image contents (k * cb + o * 512) else now i (cluster_start boot c + o)).
Proof.
  intros Hc Ho Hnd Hk Hb. revert i. induction offs as [|o offs IH]; intros i.
  { exists i. split; [done|]. split; [apply runs_refl|]. split; [done|]. intros. by rewrite decide_False by set_solver. }
  apply Forall_cons in Ho as [Ho Hos]. apply NoDup_cons in Hnd as [Hno Hnd]. cbn [for_in].
  erewrite dev_bind_Ok; [|by apply write_cluster_sector_run].
  destruct (Z.leb_spec (len contents) (k * cb + o * 512)) as [Hpast|Hin].
  - destruct (IH Hos Hnd i) as (i' & Hrun & Hruns & Hraw & Hdata). exists i'. split_and!; [done..|].
    intros o' Ho'. rewrite Hdata by done. apply decide_ext. rewrite elem_of_cons. naive_solver lia.
  - set (i1 := written _ _ _). destruct (IH Hos Hnd i1) as (i' & Hrun & Hruns & Hraw & Hdata).
    exists i'. split_and!; [done| | |].
    + eapply runs_trans; [|done]. apply runs_write. apply StepData; [by left|done..|by apply sector_image_ok].
    + intros t c' Ht Hc'. rewrite Hraw by done. unfold i1. unfold raw. rewrite now_written, fn_lookup_insert_ne; [done|].
      intros Heq. symmetry in Heq. by apply (table_not_data boot Hg t c' c o).
    + intros o' Ho'. rewrite Hdata by done. unfold i1. rewrite now_written.
      destruct (decide (o' = o)) as [->|Hne].
      * rewrite decide_False by naive_solver. rewrite decide_True by set_solver. apply fn_lookup_insert.
      * rewrite fn_lookup_insert_ne by lia. apply decide_ext. set_solver.
Qed.

(** Blocks that each start with their part of [l]. *)
Lemma prefix_blocks {A} (m : nat) (bs : list (list A)) (l : list A) :
  (∀ j b, bs !! j = Some b → length b = m ∧ take m (drop (j * m) l) `prefix_of` b) →
  take (m * length bs) l `prefix_of` concat bs.
Proof.
  revert l. induction bs as [|b bs IH]; intros l Hbs.
  { rewrite Nat.mul_0_r, take_0. apply prefix_nil. }
  destruct (Hbs 0%nat b eq_refl) as [Hlb Hpb]. rewrite drop_0 in Hpb. cbn [length concat].
  assert (take (m * length bs) (drop m l) `prefix_of` concat bs) as Hrest.
  { apply IH. intros j b' Hj. specialize (Hbs (S j) b' Hj). rewrite drop_drop.
    replace (m + j * m)%nat with (S j * m)%nat by lia. done. }
  destruct (decide (m ≤ length l)%nat) as [Hle|Hgt].
  - assert (take m l = b) as <-.
    { apply prefix_length_eq; [done|]. rewrite length_take. lia. }
    replace (m * S (length bs))%nat with (m + m * length bs)%nat by lia.
    rewrite <-take_take_drop. by apply prefix_app.
  - rewrite take_ge in Hpb by lia. rewrite take_ge by nia. by apply prefix_app_r.
Qed.

(** The cluster starts with its part of the file. *)
Definition holds_part (contents : list Z) (d : content) (k c : Z) : Prop :=
  take (Z.to_nat cb) (drop (Z.to_nat (k * cb)) contents) `prefix_of` data boot d c.

Lemma holds_part_written contents d k c :
  disk_ok d → 0 ≤ k →
  (∀ o, cluster_sector boot o → k * cb + o * 512 < len contents →
     d (cluster_start boot c + o) = sector_image contents (k * cb + o * 512)) →
  holds_part contents d k c.
Proof.
  intros Hd Hk Ho. pose proof (geo_spc _ Hg). unfold holds_part, data.
  set (bs := d <$> seqZ (cluster_start boot c) (sectors_per_cluster boot)).
  replace (Z.to_nat cb) with (512 * length bs)%nat by (unfold bs; rewrite length_fmap, length_seqZ; lia).
  apply prefix_blocks. intros j b Hj. unfold bs in Hj. apply list_lookup_fmap_Some in Hj as (n & -> & Hn).
  apply lookup_seqZ in Hn as [-> Hj]. split; [apply Hd|]. rewrite drop_drop.
  destruct (Z.lt_ge_cases (k * cb + Z.of_nat j * 512) (len contents)).
  - rewrite Ho; [|unfold cluster_sector; lia|done].
    replace (Z.to_nat (k * cb) + j * 512)%nat with (Z.to_nat (k * cb + Z.of_nat j * 512)) by nia.
    apply sector_image_prefix.
  - unfold len in *. rewrite drop_ge by nia. rewrite take_nil. apply prefix_nil.
Qed.

Lemma holds_part_same (P : Z → Prop) contents d d' k c :
  same_on boot P d d' → has boot c → P c → holds_part contents d k c → holds_part contents d' k c.
Proof. intros Hs Hc HP. unfold holds_part. by rewrite (same_data boot P d d'). Qed.

Lemma write_clusters_from_run contents cs k (i : Image) :
  disk_ok (now i) → Forall (has boot) cs → NoDup cs → 0 ≤ k → bytes_ok contents →
  ∃ i', for_in (zip (seqZ k (len cs)) cs)
      (λ _ '(index_, cluster),
        first ← sector_of (E:=E) boot Reading cluster;
        for_in (cluster_offsets boot) (write_cluster_sector (E:=E) boot contents index_ first) ()) () i = (Ok (), i') ∧
    runs (step boot cs nothing) i i' ∧
    (∀ t c, table_no boot t → has boot c → raw boot t (now i') c = raw boot t (now i) c) ∧
    (∀ j c, cs !! j = Some c → holds_part contents (now i') (k + Z.of_nat j) c).
Proof.
  intros Hd Hcs Hnd Hk Hb. revert k i Hd Hk. induction cs as [|c cs IH]; intros k i Hd Hk.
  { exists i. split; [done|]. split; [apply runs_refl|]. split; [done|]. intros j c Hj. by rewrite lookup_nil in Hj. }
  apply Forall_cons in Hcs as [Hc Hcs]. apply NoDup_cons in Hnd as [Hnc Hnd].
  rewrite len_cons. replace (1 + len cs) with (Z.succ (len cs)) by lia.
  rewrite seqZ_cons by (pose proof (len_nonneg cs); lia). rewrite Z.pred_succ. cbn [zip zip_with for_in].
  destruct (write_cluster_run contents k c (cluster_offsets boot) i Hc) as (i1 & Hrun & Hruns & Hraw & Hdata);
    [|apply NoDup_seqZ|done|done|].
  { apply Forall_forall. intros o Ho%elem_of_seqZ. unfold cluster_sector. lia. }
  assert (disk_ok (now i1)) as Hd1 by (eapply steps_ok; [exact Hd|by apply runs_rtc]).
  destruct (IH Hcs Hnd (Z.succ k) i1 Hd1) as (i' & Hrun' & Hruns' & Hraw' & Hparts); [lia|].
  exists i'. split_and!.
  - erewrite dev_bind_Ok; [exact Hrun'|]. erewrite dev_bind_Ok; [exact Hrun|].
    rewrite (sector_of_run boot Hg). by rewrite decide_True.
  - eapply runs_trans; (eapply runs_mono; [|done]); intros d1 d2 Hs; (eapply step_mono; [| |done]); set_solver.
  - intros t c' Ht Hc'. by rewrite Hraw', Hraw.
  - intros [|j] c' Hj; simpl in Hj.
    + injection Hj as <-. rewrite Z.add_0_r.
      eapply (holds_part_same (λ c, c ∉ cs ∧ ¬ nothing c)); [|done|naive_solver|].
      { eapply steps_same; [done|exact Hd1|by apply runs_rtc]. }
      apply holds_part_written; [done..|]. intros o Ho Hlt. rewrite Hdata by done. rewrite decide_True; [done|].
      split; [|done]. apply elem_of_seqZ. unfold cluster_sector in Ho. lia.
    + replace (k + Z.of_nat (S j)) with (Z.succ k + Z.of_nat j) by lia. by apply Hparts.
Qed.

Lemma write_clusters_run contents cs (i : Image) :
  disk_ok (now i) → Forall (has boot) cs → NoDup cs → bytes_ok contents →
  ∃ i', write_clusters (E:=E) boot cs contents i = (Ok (), i') ∧
    runs (step boot cs nothing) i i' ∧
    (∀ t c, table_no boot t → has boot c → raw boot t (now i') c = raw boot t (now i) c) ∧
    (∀ j c, cs !! j = Some c → holds_part contents (now i') (Z.of_nat j) c).
Proof. intros. by apply (write_clusters_from_run contents cs 0 i). Qed.

(** ** Linking them *)

(** What a cluster is linked to: the next of the chain, or the end. *)
Definition link_of (rest : list Z) : Z := match rest with c :: _ => c | [] => END_OF_CHAIN end.

Lemma write_links_from_run pre cs (i : Image) :
  disk_ok (now i) → Forall (has boot) cs → NoDup cs →
  Forall (λ c, c < 0x0FFFFFF7) cs →
  ∃ i', for_in (zip (seq (length pre) (length cs)) cs)
      (λ _ '(index_, cluster), set_next_cluster (E:=E) boot cluster
         (match (pre ++ cs) !! Datatypes.S index_ with Some next => next | None => END_OF_CHAIN end)) () i = (Ok (), i') ∧
    runs (step boot cs nothing) i i' ∧ data_same (now i) (now i') ∧
    match cs with [] => True | c :: _ => chain boot (now i') c cs end.
Proof.
  revert pre i. induction cs as [|c cs IH]; intros pre i Hd Hcs Hnd Hmax.
  { exists i. split_and!; [done|apply runs_refl|done..]. }
  apply Forall_cons in Hcs as [Hc Hcs]. apply NoDup_cons in Hnd as [Hnc Hnd]. apply Forall_cons in Hmax as [Hm Hmax].
  assert ((match (pre ++ c :: cs) !! Datatypes.S (length pre) with Some next => next | None => END_OF_CHAIN end)
    = link_of cs) as Hlink.
  { rewrite lookup_app_r by lia. replace (Datatypes.S (length pre) - length pre)%nat with 1%nat by lia. by destruct cs. }
  destruct (set_next_run [c] nothing c (link_of cs) i Hd Hc) as (i1 & Hrun & Hruns & Hdata & Hraw); [set_solver|].
  assert (disk_ok (now i1)) as Hd1 by (eapply steps_ok; [exact Hd|by apply runs_rtc]).
  destruct (IH (pre ++ [c]) i1 Hd1 Hcs Hnd Hmax) as (i' & Hrun' & Hruns' & Hdata' & Hchain).
  rewrite <-app_assoc in Hrun'. cbn [app] in Hrun'. rewrite length_app, Nat.add_1_r in Hrun'.
  exists i'. split_and!.
  - cbn [length seq zip zip_with for_in]. rewrite Hlink. erewrite dev_bind_Ok; [exact Hrun'|exact Hrun].
  - eapply runs_trans; (eapply runs_mono; [|done]); intros d1 d2 Hs; (eapply step_mono; [| |done]); set_solver.
  - intros c' o Hc' Ho. by rewrite Hdata', Hdata.
  - assert (fat boot (now i') c = decode (link_of cs)) as Hfat.
    { assert (fat boot (now i') c = fat boot (now i1) c) as ->.
      { eapply (same_fat boot Hg (λ c, c ∉ cs ∧ ¬ nothing c)); [|done|naive_solver].
        eapply steps_same; [done|exact Hd1|by apply runs_rtc]. }
      unfold fat. rewrite Hraw by (apply (table_zero boot Hg) || done). rewrite decide_True by done. by rewrite decode_merge. }
    destruct cs as [|c' cs]; [by apply ChainEnd|]. eapply ChainNext; [done| |exact Hchain].
    rewrite Hfat. cbn [link_of]. apply decode_next. apply Forall_cons in Hcs as [Hc' _]. apply Forall_cons in Hmax as [? _].
    unfold has, FIRST_DATA_CLUSTER in Hc'. lia.
Qed.

Lemma write_links_run cs (i : Image) :
  disk_ok (now i) → Forall (has boot) cs → NoDup cs → Forall (λ c, c < 0x0FFFFFF7) cs →
  ∃ i', write_links (E:=E) boot cs i = (Ok (), i') ∧
    runs (step boot cs nothing) i i' ∧ data_same (now i) (now i') ∧
    match cs with [] => True | c :: _ => chain boot (now i') c cs end.
Proof. intros. by apply (write_links_from_run [] cs i). Qed.

(** ** Giving the old clusters back *)

(** The clusters [free_chain] may free: on the way from [first], but none of
    the chain just written. *)
Definition given_back (d0 : content) (first : Z) (keep : list Z) (x : Z) : Prop :=
  reach boot d0 first x ∧ x ∉ keep.

(** Tables as they were but for the clusters freed so far. *)
Definition freed_tables (d0 : content) (keep freed : list Z) (d : content) : Prop :=
  ∀ x, has boot x → x ∉ keep → fat boot d x = if decide (x ∈ freed) then EntryFree else fat boot d0 x.

Lemma nodup_clusters l : NoDup l → Forall (has boot) l → len l ≤ clusters boot.
Proof.
  intros Hnd Hh. pose proof (clusters_bound boot Hg).
  assert (l ⊆+ seqZ FIRST_DATA_CLUSTER (clusters boot)) as Hsub.
  { apply NoDup_submseteq; [done|]. intros x Hx. apply elem_of_seqZ.
    rewrite Forall_forall in Hh. apply Hh in Hx. unfold has in Hx. lia. }
  apply submseteq_length in Hsub. rewrite length_seqZ in Hsub. unfold len. lia.
Qed.

Lemma freed_tables_set d0 keep freed d d' c :
  (∀ c', has boot c' → raw boot 0 d' c' = if decide (c' = c) then merge (raw boot 0 d c) 0 else raw boot 0 d c') →
  freed_tables d0 keep freed d → freed_tables d0 keep (c :: freed) d'.
Proof.
  intros Hraw Hf x Hx Hxk. unfold fat at 1. rewrite Hraw by done. destruct (decide (x = c)) as [->|Hne].
  - rewrite decode_merge. rewrite decide_True by (by left). done.
  - fold (fat boot d x). rewrite Hf by done. apply decide_ext. rewrite elem_of_cons. naive_solver.
Qed.

Lemma free_chain_loop_run fuel d0 keep first c seen freed (i : Image) :
  disk_ok (now i) → Forall (has boot) keep → freed_tables d0 keep freed (now i) →
  (c ∉ keep → reach boot d0 first c) →
  NoDup freed → Forall (has boot) freed → len freed = seen → clusters boot + 1 - seen < Z.of_nat fuel →
  ∃ r i' freed', free_chain_loop (E:=E) boot fuel keep c seen i = (r, i') ∧
    runs (step boot [] (given_back d0 first keep)) i i' ∧ data_same (now i) (now i') ∧
    freed_tables d0 keep freed' (now i') ∧ freed ⊆ freed' ∧
    (r = Ok () ∨ ∃ x, r = Err (Reading (BadCluster x)) ∧ reach boot d0 first x ∧ ¬ has boot x) ∧
    (∀ l, chain boot d0 c l → (∀ x, x ∈ l → x ∉ keep ∧ x ∉ freed) → r = Ok () ∧ l ⊆ freed').
Proof.
  intros Hd Hkeep. revert c seen freed i Hd. induction fuel as [|fuel IH]; intros c seen freed i Hd Hft Hc Hnd Hhf Hlen Hfuel.
  { pose proof (nodup_clusters freed Hnd Hhf). lia. }
  cbn [free_chain_loop]. unfold mbind at 1, dev_bind at 1. unfold dev_map_err. rewrite (next_cluster_run boot Hg).
  destruct (decide (has boot c)) as [Hhas|Hhas]; cbn [map_err].
  2:{ assert (c ∉ keep) as Hck by (intros Hin; rewrite Forall_forall in Hkeep; by apply Hhas, Hkeep).
      eexists _, i, freed. split_and!; [done|apply runs_refl|done|done|done| |].
      - right. exists c. split_and!; [done|by apply Hc|done].
      - intros l Hl _. pose proof (chain_has boot d0 c l Hl) as Hh. destruct (chain_head boot d0 c l Hl) as [l' ->].
        by apply Forall_cons in Hh as [? _]. }
  destruct (decide (c ∈ keep)) as [Hck|Hck].
  { rewrite (bool_decide_eq_true_2 (c ∈ keep)) by done. rewrite orb_true_r.
    eexists _, i, freed. split_and!; [done|apply runs_refl|done|done|done|by left|].
    intros l Hl Hdis. destruct (chain_head boot d0 c l Hl) as [l' ->]. by destruct (Hdis c ltac:(by left)). }
  rewrite (bool_decide_eq_false_2 (c ∈ keep)) by done. rewrite orb_false_r.
  case_bool_decide as Hfree.
  { eexists _, i, freed. split_and!; [done|apply runs_refl|done|done|done|by left|].
    intros l Hl Hdis. exfalso. destruct (chain_head boot d0 c l Hl) as [l' ->].
    destruct (Hdis c ltac:(by left)) as [_ Hcf]. rewrite Hft, decide_False in Hfree by done.
    pose proof (chain_taken boot d0 c _ Hl) as Ht. by apply Forall_cons in Ht as [? _]. }
  pose proof (Hft c Hhas Hck) as Hfat. destruct (decide (c ∈ freed)) as [|Hcf]; [done|].
  destruct (set_next_run [] (given_back d0 first keep) c 0 i Hd Hhas) as (i1 & Hrun & Hruns & Hdata & Hraw).
  { right. split; [by apply Hc|done]. }
  erewrite dev_bind_Ok; [|exact Hrun].
  assert (disk_ok (now i1)) as Hd1 by (eapply steps_ok; [exact Hd|by apply runs_rtc]).
  assert (freed_tables d0 keep (c :: freed) (now i1)) as Hft1.
  { eapply freed_tables_set; [|exact Hft]. intros c' Hc'. apply Hraw; [apply (table_zero boot Hg)|done]. }
  assert (NoDup (c :: freed)) as Hnd1 by (by constructor).
  assert (Forall (has boot) (c :: freed)) as Hhf1 by (by constructor).
  pose proof (nodup_clusters _ Hnd1 Hhf1) as Hbound. rewrite len_cons in Hbound.
  destruct (Z.ltb_spec (clusters boot) (seen + 1)); [lia|].
  destruct (fat boot (now i) c) as [| |c'| |] eqn:Hnow; try done.
  2:{ destruct (IH c' (seen + 1) (c :: freed) i1) as (r & i' & freed' & Hrun' & Hruns' & Hdata' & Hft' & Hsub & Hr & Hch);
        [done|done| |done|done|rewrite len_cons; lia|lia|].
      { intros _. eapply ReachNext; [by apply Hc|done|by rewrite <-Hfat]. }
      exists r, i', freed'. split_and!; [done|by eapply runs_trans| |done|set_solver|done|].
      - intros c2 o Hc2 Ho. by rewrite Hdata', Hdata.
      - intros l Hl Hdis. pose proof (chain_nodup boot d0 c l Hl) as Hndl. inversion Hl as [? ? Hf'|? c2 l2 ? Hf' Hl2]; subst; [congruence|].
        assert (c2 = c') as -> by congruence. apply NoDup_cons in Hndl as [Hcl _]. destruct (Hch l2 Hl2) as [-> Hsub2].
        + intros x Hx. destruct (Hdis x ltac:(by right)). split; [done|]. intros [->|?]%elem_of_cons; done.
        + split; [done|]. intros x [->|Hx]%elem_of_cons; [apply Hsub; by left|by apply Hsub2]. }
  all: eexists _, i1, (c :: freed); split_and!; [done|done|done|done|set_solver|by left|].
  all: intros l Hl Hdis; inversion Hl; subst; first [congruence|split; [done|set_solver]].
Qed.

Lemma free_chain_run d0 keep first (i : Image) :
  disk_ok (now i) → Forall (has boot) keep → freed_tables d0 keep [] (now i) →
  ∃ r i' freed', free_chain (E:=E) boot first keep i = (r, i') ∧
    runs (step boot [] (given_back d0 first keep)) i i' ∧ data_same (now i) (now i') ∧
    freed_tables d0 keep freed' (now i') ∧
    (r = Ok () ∨ ∃ x, r = Err (Reading (BadCluster x)) ∧ reach boot d0 first x ∧ ¬ has boot x) ∧
    (∀ l, chain boot d0 first l → (∀ x, x ∈ l → x ∉ keep) → r = Ok () ∧ l ⊆ freed').
Proof.
  intros Hd Hk Hft. pose proof (clusters_bound boot Hg).
  destruct (free_chain_loop_run (fuel_for_chain boot) d0 keep first first 0 [] i)
    as (r & i' & freed' & Hrun & Hruns & Hdata & Hft' & _ & Hr & Hch);
    [done..|intros _; constructor|constructor|constructor|done|unfold fuel_for_chain; lia|].
  exists r, i', freed'. split_and!; try done. intros l Hl Hdis. apply Hch; [done|].
  intros x Hx. split; [by apply Hdis|apply not_elem_of_nil].
Qed.
End volume.
