(* ===== verification/FatPlace.v ===== *)
(** * FAT32: FSInfo

    What [update_fs_info] counts: the free clusters of the first table and
    the first of them. *)

From S2P Require Import Prelude Words Bytes FatFormat FatVolume FatFormatThms FatDisk FatRead FatReadThms FatDir FatFrame FatWrite.
Local Open Scope Z_scope.

#[local] Existing Instance has_dec.

(** ** [as_chunks] *)
Lemma chunks_fuel_spec {A} fuel n (l : list A) k :
  (0 < n)%nat → length l = (k * n)%nat → (length l ≤ fuel)%nat →
  chunks_fuel fuel n l = (λ j, take n (drop (j * n) l)) <$> seq 0 k.
Proof.
  intros Hn. revert l k. induction fuel as [|fuel IH]; intros l k Hl Hf.
  { destruct k; [done|]. simpl in Hl. lia. }
  cbn [chunks_fuel]. destruct k as [|k]; [simpl in Hl; destruct (Nat.ltb_spec (length l) n); [done|lia]|].
  simpl in Hl. destruct (Nat.ltb_spec (length l) n); [lia|]. cbn [seq]. rewrite fmap_cons. f_equal.
  rewrite (IH _ k); [|rewrite length_drop; lia|rewrite length_drop; lia].
  rewrite <-(fmap_S_seq 0 k), <-list_fmap_compose. apply list_fmap_ext. intros i j _. simpl.
  by rewrite drop_drop.
Qed.

Lemma as_chunks_spec {A} n (l : list A) k :
  (0 < n)%nat → length l = (k * n)%nat → as_chunks n l = (λ j, take n (drop (j * n) l)) <$> seq 0 k.
Proof. intros. by apply chunks_fuel_spec. Qed.

Lemma as_chunks_app {A} n (l l' : list A) k k' : (0 < n)%nat → length l = (k * n)%nat → length l' = (k' * n)%nat →
  as_chunks n (l ++ l') = as_chunks n l ++ as_chunks n l'.
Proof.
  intros Hn Hl Hl'. rewrite (as_chunks_spec n (l ++ l') (k + k')) by (rewrite ?length_app; lia).
  rewrite (as_chunks_spec n l k), (as_chunks_spec n l' k') by done. rewrite seq_app, fmap_app. f_equal.
  - apply list_fmap_ext. intros i j [-> Hi]%lookup_seq. rewrite drop_app_le by nia. rewrite take_app_le; [done|]. rewrite length_drop. nia.
  - replace (seq (0 + k) k') with (Nat.add k <$> seq 0 k') by (rewrite fmap_add_seq; f_equal; lia). rewrite <-list_fmap_compose. apply list_fmap_ext. intros i j [-> Hi]%lookup_seq. simpl.
    rewrite drop_app_ge by nia. do 2 f_equal. nia.
Qed.

Lemma as_chunks_concat {A} n k (ls : list (list A)) : (0 < n)%nat → Forall (λ l, length l = (k * n)%nat) ls →
  as_chunks n (concat ls) = concat (as_chunks n <$> ls) ∧ length (concat ls) = (length ls * k * n)%nat.
Proof.
  intros Hn. induction 1 as [|l ls Hl _ [IH IHl]]; [done|]. rewrite fmap_cons. cbn [concat length].
  rewrite (as_chunks_app n l (concat ls) k (length ls * k)) by done. rewrite IH, length_app. split; [done|]. lia.
Qed.

Lemma as_chunks_blocks {A} n (ls : list (list A)) : (0 < n)%nat → Forall (λ l, length l = n) ls → as_chunks n (concat ls) = ls.
Proof.
  intros Hn Hls. destruct (as_chunks_concat n 1 ls Hn) as [-> _]; [eapply Forall_impl; [exact Hls|]; simpl; lia|].
  induction Hls as [|l ls Hl _ IH]; [done|]. rewrite fmap_cons. cbn [concat]. rewrite IH. rewrite (as_chunks_spec n l 1) by lia. cbn. rewrite take_ge; [done|]. rewrite drop_0. lia.
Qed.

Lemma zip_chunks {A} n (l : list A) k :
  (0 < n)%nat → length l = (k * n)%nat →
  zip (seqZ 0 (len (as_chunks n l))) (as_chunks n l) =
    (λ j, (Z.of_nat j, take n (drop (j * n) l))) <$> seq 0 k.
Proof.
  intros Hn Hl. rewrite (as_chunks_spec n l k) by done. unfold len. rewrite length_fmap, length_seq.
  unfold seqZ. rewrite Nat2Z.id. generalize (seq 0 k). intros js. induction js as [|j js IH]; [done|].
  rewrite !fmap_cons. cbn [zip zip_with]. rewrite IH. by rewrite Z.add_0_r.
Qed.

Lemma le_decode_chunk bytes j :
  (4 * j + 4 ≤ length bytes)%nat → le_decode (take 4 (drop (j * 4) bytes)) = Boot.u32_at bytes (Z.of_nat j * 4).
Proof.
  intros Hl. unfold Boot.u32_at, Boot.byte_at.
  replace (Z.to_nat (Z.of_nat j * 4)) with (j * 4 + 0)%nat by lia.
  replace (Z.to_nat (Z.of_nat j * 4 + 1)) with (j * 4 + 1)%nat by lia.
  replace (Z.to_nat (Z.of_nat j * 4 + 2)) with (j * 4 + 2)%nat by lia.
  replace (Z.to_nat (Z.of_nat j * 4 + 3)) with (j * 4 + 3)%nat by lia.
  rewrite !nth_lookup, <-!lookup_drop. assert (4 ≤ length (drop (j * 4) bytes))%nat as Hd by (rewrite length_drop; lia).
  destruct (drop (j * 4) bytes) as [|a [|b [|c [|e r]]]]; simpl in Hd; try lia. done.
Qed.

Section volume.
  Context {E : Type} (boot : BootSector) (Hg : geometry boot).

(** The clusters below [m] that count as free. *)
Definition free_below (d : content) (m : Z) : list Z :=
  filter (λ c, has boot c ∧ fat boot d c = EntryFree) (seqZ 0 m).

Definition counted (d : content) (m : Z) : Z * Z := (len (free_below d m), default 0 (head (free_below d m))).

Lemma free_below_S d m : 0 ≤ m →
  free_below d (m + 1) = free_below d m ++ (if decide (has boot m ∧ fat boot d m = EntryFree) then [m] else []).
Proof.
  intros Hm. unfold free_below. rewrite seqZ_app by lia. rewrite filter_app. f_equal.
Qed.

Lemma free_below_bound d m : 0 ≤ m → len (free_below d m) ≤ clusters boot.
Proof.
  intros Hm. apply (nodup_clusters boot Hg); [by apply NoDup_filter, NoDup_seqZ|].
  apply Forall_forall. intros x Hx. unfold free_below in Hx. by apply list_elem_of_filter in Hx as [[? _] _].
Qed.

Lemma decode_free_iff v : Z.land v ENTRY_MASK = 0 ↔ decode v = EntryFree.
Proof. unfold decode. split; [by intros ->|]. repeat case_match; try done. intros _. lia. Qed.

Lemma counted_step d m :
  0 ≤ m →
  counted d (m + 1) =
    if decide (has boot m ∧ fat boot d m = EntryFree)
    then (wrap 32 (len (free_below d m) + 1),
          if default 0 (head (free_below d m)) =? 0 then m else default 0 (head (free_below d m)))
    else counted d m.
Proof.
  intros Hm. pose proof (free_below_bound d (m + 1) ltac:(lia)) as Hb. pose proof (clusters_bound boot Hg).
  unfold counted. rewrite free_below_S in * by done. case_decide as Hc; [|by rewrite app_nil_r].
  rewrite len_app in *. change (len [m]) with 1 in *. pose proof (len_nonneg (free_below d m)).
  f_equal; [symmetry; apply Z.mod_small; lia|].
  destruct (free_below d m) as [|x l] eqn:El; [done|]. simpl.
  assert (x ∈ free_below d m) as Hx by (rewrite El; by left).
  unfold free_below in Hx. apply list_elem_of_filter in Hx as [[Hx _] _]. unfold has, FIRST_DATA_CLUSTER in Hx.
  destruct (Z.eqb_spec x 0); [lia|done].
Qed.

Lemma count_entries_run d s :
  disk_ok d → 0 ≤ s ≤ (FIRST_DATA_CLUSTER + clusters boot - 1) / 128 →
  count_entries (FIRST_DATA_CLUSTER + clusters boot - 1) s (counted d (s * 128)) (d (reserved_sectors boot + s)) =
    counted d ((s + 1) * 128).
Proof.
  intros Hd Hs. pose proof (clusters_bound boot Hg) as Hcl. destruct (Hd (reserved_sectors boot + s)) as [Hl _].
  unfold count_entries. rewrite (zip_chunks 4 _ 128) by (done || lia).
  rewrite foldl_fmap.
  match goal with |- foldl ?f _ _ = _ => set (count := f) end.
  assert (∀ k, (k ≤ 128)%nat → foldl count (counted d (s * 128)) (seq 0 k) = counted d (s * 128 + Z.of_nat k)) as Hgen.
  2:{ replace ((s + 1) * 128) with (s * 128 + Z.of_nat 128) by lia. by apply Hgen. }
  induction k as [|k IH]; intros Hk; [by rewrite Z.add_0_r|].
  rewrite seq_S, foldl_app, IH by lia. cbn [foldl Nat.add]. unfold count.
  replace (s * 128 + Z.of_nat (S k)) with (s * 128 + Z.of_nat k + 1) by lia. rewrite counted_step by lia.
  set (m := s * 128 + Z.of_nat k).
  assert (m / 128 = s ∧ m mod 128 = Z.of_nat k) as [Hdiv Hmod].
  { split; symmetry; [apply (Z.div_unique_pos _ _ _ (Z.of_nat k))|apply (Z.mod_unique_pos _ _ s)]; unfold m; lia. }
  pose proof (Z.mul_div_le (FIRST_DATA_CLUSTER + clusters boot - 1) 128 ltac:(lia)).
  assert (0 ≤ m < 2 ^ 32) as Hm.
  { unfold m, FIRST_DATA_CLUSTER in *. assert (s * 128 < 2 ^ 32) by lia.
    assert (s < 2 ^ 25) by lia. lia. }
  unfold counted at 1. cbn beta iota zeta.
  assert (wrap 32 (wrap 32 (s * 128) + Z.of_nat k) = m) as ->.
  { unfold wrap. rewrite (Z.mod_small (s * 128)) by (unfold m in *; lia). apply Z.mod_small. done. }
  rewrite le_decode_chunk by lia.
  assert (Boot.u32_at (d (reserved_sectors boot + s)) (Z.of_nat k * 4) = raw boot 0 d m) as ->.
  { unfold raw, table_sector. rewrite Hmod, Hdiv. do 2 f_equal. lia. }
  destruct (Z.ltb_spec m FIRST_DATA_CLUSTER) as [Hlo|Hlo]; cbn [orb].
  { rewrite decide_False by (unfold has; lia). done. }
  destruct (Z.ltb_spec (FIRST_DATA_CLUSTER + clusters boot - 1) m) as [Hhi|Hhi].
  { rewrite decide_False by (unfold has; lia). done. }
  destruct (Z.eqb_spec (Z.land (raw boot 0 d m) ENTRY_MASK) 0) as [Hz|Hz].
  - rewrite decide_True; [done|]. split; [unfold has; lia|]. by apply decode_free_iff.
  - rewrite decide_False; [done|]. intros [_ Hf]. by apply Hz, decode_free_iff.
Qed.

(** All the sectors of the table that say something about a cluster. *)
Lemma count_all_run last (i : Image) :
  disk_ok (now i) → last = FIRST_DATA_CLUSTER + clusters boot - 1 →
  for_in (seqZ 0 (last / 128 + 1))
    (λ acc s, entry_bytes ← read (E:=E) Reading (wrap 32 (reserved_sectors boot + s));
              mret (count_entries last s acc entry_bytes)) (0, 0) i =
  (Ok (counted (now i) ((last / 128 + 1) * 128)), i).
Proof.
  intros Hd ->. set (last := FIRST_DATA_CLUSTER + clusters boot - 1). pose proof (clusters_bound boot Hg).
  assert (0 ≤ last / 128) by (apply Z.div_pos; unfold last, FIRST_DATA_CLUSTER; lia).
  assert (last / 128 < sectors_per_fat boot) by (pose proof (geo_tables _ Hg); apply Z.div_lt_upper_bound; unfold last; lia).
  assert (∀ n s, 0 ≤ s → s + Z.of_nat n = last / 128 + 1 →
    for_in (seqZ s (Z.of_nat n))
      (λ acc s, entry_bytes ← read (E:=E) Reading (wrap 32 (reserved_sectors boot + s));
                mret (count_entries last s acc entry_bytes)) (counted (now i) (s * 128)) i =
    (Ok (counted (now i) ((last / 128 + 1) * 128)), i)) as Hgen.
  2:{ specialize (Hgen (Z.to_nat (last / 128 + 1)) 0 ltac:(lia) ltac:(lia)). rewrite Z2Nat.id in Hgen by lia. exact Hgen. }
  induction n as [|n IH]; intros s Hs Hn.
  { change (seqZ s (Z.of_nat 0)) with (@nil Z). cbn [for_in]. by replace (last / 128 + 1) with s by lia. }
  rewrite seqZ_cons by lia. replace (Z.pred (Z.of_nat (S n))) with (Z.of_nat n) by lia. cbn [for_in].
  assert (wrap 32 (reserved_sectors boot + s) = reserved_sectors boot + s) as Hw.
  { pose proof (geo_reserved _ Hg). pose proof (geo_tables _ Hg). pose proof (geo_data _ Hg). pose proof (geo_total _ Hg).
    pose proof (geo_fats _ Hg). pose proof (geo_spf _ Hg). pose proof (geo_spc _ Hg).
    assert (0 ≤ clusters boot * sectors_per_cluster boot) by nia.
    assert (s < sectors_per_fat boot) by lia.
    assert (sectors_per_fat boot ≤ fat_count boot * sectors_per_fat boot) by nia.
    apply Z.mod_small. lia. }
  erewrite dev_bind_Ok; [apply (IH (Z.succ s)); lia|].
  erewrite dev_bind_Ok; [|apply read_run]. rewrite Hw. unfold last.
  rewrite count_entries_run by (done || (unfold last in *; lia)). done.
Qed.

Lemma free_below_all d m : FIRST_DATA_CLUSTER + clusters boot ≤ m → free_below d m = free_list boot d.
Proof.
  intros Hm. pose proof (clusters_bound boot Hg). unfold free_below, free_list.
  replace m with (FIRST_DATA_CLUSTER + (clusters boot + (m - FIRST_DATA_CLUSTER - clusters boot))) at 1 by lia.
  rewrite !seqZ_app, !filter_app by (unfold FIRST_DATA_CLUSTER in *; lia).
  assert (∀ l, Forall (λ c, ¬ has boot c) l → filter (λ c, has boot c ∧ fat boot d c = EntryFree) l = []) as Hnone.
  { intros l Hl. induction Hl as [|c l Hc Hl IH]; [done|]. rewrite filter_cons, decide_False by naive_solver. done. }
  rewrite (Hnone (seqZ 0 FIRST_DATA_CLUSTER)), (Hnone (seqZ (0 + FIRST_DATA_CLUSTER + clusters boot) _)), app_nil_r.
  - cbn [app]. rewrite Z.add_0_l.
    assert (∀ l, Forall (has boot) l →
      filter (λ c, has boot c ∧ fat boot d c = EntryFree) l = filter (λ c, fat boot d c = EntryFree) l) as Hall.
    { intros l Hl. induction Hl as [|c l Hc Hl IH]; [done|]. rewrite !filter_cons, IH. apply decide_ext. naive_solver. }
    apply Hall, Forall_forall. intros c Hc%elem_of_seqZ. unfold has. lia.
  - apply Forall_forall. intros c Hc%elem_of_seqZ. unfold has. lia.
  - apply Forall_forall. intros c Hc%elem_of_seqZ. unfold has. lia.
Qed.

(** FSInfo with the counts of the table written into it. *)
Definition counted_info (d : content) (bytes : list Z) : list Z :=
  splice (splice bytes 488 (le_encode 4 (len (free_list boot d)))) 492
    (le_encode 4 (default 0 (head (free_list boot d)))).

Lemma counted_info_ok d bytes : sector_ok bytes → sector_ok (counted_info d bytes).
Proof.
  intros [Hl Hb]. unfold counted_info. split.
  - unfold splice. rewrite !length_app, !length_take, !length_drop, !length_app, !length_take, !length_drop,
      !length_le_encode. lia.
  - apply bytes_ok_splice; [apply bytes_ok_splice; [done|]|]; apply le_encode_ok.
Qed.

(** Whether the sector is an FSInfo sector at all. *)
Definition is_fs_info (d : content) : bool :=
  (0 <? fs_info_sector boot) && (fs_info_sector boot <? reserved_sectors boot)
  && (Boot.u32_at (d (fs_info_sector boot)) 0 =? FS_INFO_LEAD)
  && (Boot.u32_at (d (fs_info_sector boot)) 484 =? FS_INFO_STRUCTURE).

Lemma update_fs_info_run (i : Image) :
  disk_ok (now i) → 0 ≤ fs_info_sector boot →
  update_fs_info (E:=E) boot i =
    (Ok (), if is_fs_info (now i)
            then written i (fs_info_sector boot) (counted_info (now i) (now i (fs_info_sector boot))) else i).
Proof.
  intros Hd Hn. pose proof (clusters_bound boot Hg) as Hcl. unfold update_fs_info, is_fs_info.
  destruct (Z.eqb_spec (fs_info_sector boot) 0), (Z.ltb_spec 0 (fs_info_sector boot)); try lia; [done|].
  destruct (Z.leb_spec (reserved_sectors boot) (fs_info_sector boot)),
    (Z.ltb_spec (fs_info_sector boot) (reserved_sectors boot)); try lia; [done|]. cbn [orb andb].
  erewrite dev_bind_Ok; [|apply read_run].
  destruct (Boot.u32_at _ 0 =? FS_INFO_LEAD); cbn [negb orb andb]; [|done].
  destruct (Boot.u32_at _ 484 =? FS_INFO_STRUCTURE); cbn [negb orb andb]; [|done].
  assert (wrap 32 (FIRST_DATA_CLUSTER + clusters boot - 1) = FIRST_DATA_CLUSTER + clusters boot - 1) as ->
    by (apply Z.mod_small; unfold FIRST_DATA_CLUSTER; lia).
  change (FIRST_DATA_CLUSTER / 128) with 0. rewrite Z.sub_0_r. unfold Boot.first_fat_sector. cbv zeta.
  erewrite dev_bind_Ok; [|by apply count_all_run].
  set (last := FIRST_DATA_CLUSTER + clusters boot - 1).
  assert (counted (now i) ((last / 128 + 1) * 128)
    = (len (free_list boot (now i)), default 0 (head (free_list boot (now i))))) as ->.
  { unfold counted. rewrite free_below_all; [done|].
    pose proof (Z.mul_succ_div_gt last 128 ltac:(lia)). unfold last in *. lia. }
  destruct (Hd (fs_info_sector boot)) as [Hl _].
  rewrite copy_at_Some by (rewrite ?len_le_encode; unfold len in *; rewrite ?length_le_encode; lia).
  erewrite dev_bind_Ok; [|done].
  rewrite copy_at_Some.
  2:{ lia. }
  2:{ unfold len. rewrite length_le_encode. lia. }
  2:{ rewrite len_splice; [unfold len; lia|]. rewrite length_le_encode. lia. }
  erewrite dev_bind_Ok; [|done]. apply write_run.
Qed.
End volume.

(** * FAT32: the place of a file in the root directory

    Where [directory_slot] puts a file, and what the directory is once the
    thirty-two bytes there have been replaced. *)

(** ** Slots of a sector *)
Lemma list_fmap_concat {A B} (f : A → B) (ls : list (list A)) :
  (f <$> concat ls : list B) = concat ((λ l : list A, f <$> l : list B) <$> ls).
Proof. induction ls as [|l ls IH]; [done|]. rewrite fmap_cons. cbn [concat]. by rewrite fmap_app, IH. Qed.

Lemma sector_slots_alt d n :
  disk_ok d →
  sector_slots d n = (λ k, (n, Z.of_nat k * 32, take 32 (drop (k * 32) (d n)))) <$> seq 0 16.
Proof.
  intros Hd. unfold sector_slots. rewrite (zip_chunks 32 _ 16); [|lia|apply Hd].
  rewrite <-list_fmap_compose. done.
Qed.

(** A slot of the directory as it is on the disk. *)
Definition slot_at (d : content) (x : placed) : Prop :=
  ∃ k : nat, (k < 16)%nat ∧ x.1.2 = Z.of_nat k * 32 ∧ x.2 = take 32 (drop (k * 32) (d x.1.1)).

Lemma sector_slots_at d n x : disk_ok d → x ∈ sector_slots d n → slot_at d x ∧ x.1.1 = n.
Proof.
  intros Hd. rewrite sector_slots_alt by done. intros (k & -> & Hk)%list_elem_of_fmap.
  apply elem_of_seq in Hk. split; [|done]. exists k. split_and!; [lia|done|done].
Qed.

Lemma slot_at_det d x y : slot_at d x → slot_at d y → x.1 = y.1 → x.2 = y.2.
Proof.
  intros (k & _ & Hk & ->) (k' & _ & Hk' & ->) Heq. rewrite Heq in *. assert (k = k') as -> by lia. done.
Qed.

(** The directory with the slot at one place replaced. *)
Definition replace_at (s a : Z) (new : list Z) (x : placed) : placed :=
  if decide (x.1 = (s, a)) then (x.1, new) else x.

Lemma slot_of_splice (l : list Z) (k k' : nat) (new : list Z) :
  length l = 512%nat → length new = 32%nat → (k < 16)%nat → (k' < 16)%nat →
  take 32 (drop (k' * 32) (splice l (k * 32) new)) = if decide (k' = k) then new else take 32 (drop (k' * 32) l).
Proof.
  intros Hl Hn Hk Hk'. apply list_eq. intros i. destruct (decide (i < 32)%nat) as [Hi|Hi].
  - rewrite lookup_take_lt, lookup_drop, splice_lookup by lia. destruct (decide (k' = k)) as [->|Hne].
    + rewrite decide_True by lia. f_equal. lia.
    + rewrite decide_False by lia. by rewrite lookup_take_lt, lookup_drop by lia.
  - rewrite !lookup_ge_None_2; [done| |].
    + case_decide; rewrite ?length_take; lia.
    + rewrite length_take. lia.
Qed.

Section volume.
  Context {E : Type} (boot : BootSector) (Hg : geometry boot).

Section replaced.
  Context (d : content) (Hd : disk_ok d) (s : Z) (k : nat) (Hk : (k < 16)%nat).
  Context (new : list Z) (Hnew : length new = 32%nat) (Hok : bytes_ok new).

Definition put : content := <[s := splice (d s) (k * 32) new]> d.

Lemma put_ok : disk_ok put.
Proof.
  apply insert_ok; [done|]. destruct (Hd s) as [Hl Hb]. split.
  - unfold splice. rewrite !length_app, length_take, length_drop. lia.
  - by apply bytes_ok_splice.
Qed.

Lemma sector_slots_put n : sector_slots put n = replace_at s (Z.of_nat k * 32) new <$> sector_slots d n.
Proof.
  rewrite !sector_slots_alt by (done || apply put_ok). rewrite <-list_fmap_compose.
  apply list_fmap_ext. intros i k' [-> Hi]%lookup_seq. unfold compose, replace_at. cbn [fst].
  unfold put. destruct (decide (n = s)) as [->|Hne].
  - rewrite fn_lookup_insert. rewrite slot_of_splice by (try done; try apply Hd; lia).
    destruct (decide (0 + i = k)%nat) as [->|Hik].
    + by rewrite decide_True.
    + rewrite decide_False; [done|]. intros [= Heq]. lia.
  - rewrite fn_lookup_insert_ne by done. rewrite decide_False; [done|]. by intros [= ? ?].
Qed.

Lemma cluster_slots_put c : cluster_slots boot put c = replace_at s (Z.of_nat k * 32) new <$> cluster_slots boot d c.
Proof.
  unfold cluster_slots. rewrite list_fmap_concat, <-list_fmap_compose. f_equal.
  apply list_fmap_ext. intros i n _. apply sector_slots_put.
Qed.

Context (c : Z) (o : Z) (Hs : s = cluster_start boot c + o) (Hc : has boot c) (Ho : cluster_sector boot o).

Lemma raw_put t x : table_no boot t → has boot x → raw boot t put x = raw boot t d x.
Proof.
  intros Ht Hx. unfold raw, put. rewrite fn_lookup_insert_ne; [done|]. rewrite Hs. intros Heq.
  symmetry in Heq. by apply (table_not_data boot Hg t x c o).
Qed.

Lemma fat_put x : has boot x → fat boot put x = fat boot d x.
Proof. intros Hx. unfold fat. rewrite raw_put; [done|apply (table_zero boot Hg)|done]. Qed.

Lemma put_same : same_on boot (λ x, x ≠ c) d put.
Proof.
  intros x Hx Hne. split; [intros t Ht; by apply raw_put|]. intros o' Ho'. unfold put.
  rewrite fn_lookup_insert_ne; [done|]. rewrite Hs. intros Heq.
  by destruct (cluster_start_inj boot Hg c o x o').
Qed.

Lemma dir_put n x :
  dir boot put n x = (replace_at s (Z.of_nat k * 32) new <$> (dir boot d n x).1, (dir boot d n x).2).
Proof.
  revert x. induction n as [|[|n] IH]; intros x; [done| |].
  - unfold dir. case_decide; [|done]. by rewrite cluster_slots_put.
  - rewrite !dir_S. case_decide; [|done]. rewrite fat_put by done.
    destruct (fat boot d x) as [| |y| |]; rewrite cluster_slots_put; try done.
    rewrite IH. cbn [fst snd]. by rewrite fmap_app.
Qed.

Lemma root_dir_put :
  root_dir boot put = (replace_at s (Z.of_nat k * 32) new <$> (root_dir boot d).1, (root_dir boot d).2).
Proof. apply dir_put. Qed.
End replaced.

(** ** Every slot is somewhere *)
Lemma cluster_slots_at d c x :
  disk_ok d → x ∈ cluster_slots boot d c →
  slot_at d x ∧ ∃ o, cluster_sector boot o ∧ x.1.1 = cluster_start boot c + o.
Proof.
  intros Hd Hx. unfold cluster_slots in Hx. apply list_elem_of_In, in_concat in Hx as (l & Hl & Hx).
  apply list_elem_of_In, list_elem_of_fmap in Hl as (n & -> & Hn).
  apply list_elem_of_In in Hx. apply elem_of_seqZ in Hn.
  destruct (sector_slots_at d n x Hd Hx) as [Hat ->]. split; [done|].
  exists (n - cluster_start boot c). unfold cluster_sector. split; lia.
Qed.

Lemma dir_at d n c x :
  disk_ok d → x ∈ (dir boot d n c).1 →
  slot_at d x ∧ ∃ y o, reach boot d c y ∧ has boot y ∧ cluster_sector boot o ∧ x.1.1 = cluster_start boot y + o.
Proof.
  intros Hd. assert (∀ c0, reach boot d c0 c → x ∈ (dir boot d n c).1 →
    slot_at d x ∧ ∃ y o, reach boot d c0 y ∧ has boot y ∧ cluster_sector boot o ∧ x.1.1 = cluster_start boot y + o)
    as Hgen; [|apply Hgen, ReachHere].
  revert c. induction n as [|[|n] IH]; intros c c0 Hr; [set_solver| |].
  - unfold dir. case_decide; [|set_solver]. intros Hx. cbn [fst] in Hx.
    destruct (cluster_slots_at d c x Hd Hx) as [? (o & ? & ?)]. split; [done|]. by exists c, o.
  - rewrite dir_S. case_decide as Hc; [|set_solver].
    assert (x ∈ cluster_slots boot d c → slot_at d x ∧
      ∃ y o, reach boot d c0 y ∧ has boot y ∧ cluster_sector boot o ∧ x.1.1 = cluster_start boot y + o) as Hhere.
    { intros Hx. destruct (cluster_slots_at d c x Hd Hx) as [? (o & ? & ?)]. split; [done|]. by exists c, o. }
    destruct (fat boot d c) as [| |c'| |] eqn:Hf; cbn [fst]; try done.
    intros [Hx|Hx]%elem_of_app; [by apply Hhere|]. apply (IH c'); [|done]. by eapply ReachNext.
Qed.
End volume.

(** ** The place [directory_slot] chooses *)

(** A slot the walk goes past. *)
Definition passed (nm : list Z) (x : placed) : Prop :=
  decode_slot x.2 ≠ SlotEnd ∧ ∀ e, decode_slot x.2 = SlotEntry e → names_slot x.2 nm = false.

Definition deleted (slot : list Z) : Prop :=
  decode_slot slot = SlotSkip ∧ Boot.byte_at slot 0 = ENTRY_DELETED.

(** What is there now: the file of that name, or nothing. *)
Definition fits (nm slot : list Z) (existing : option DirectoryEntry) : Prop :=
  match existing with
  | Some e => decode_slot slot = SlotEntry e ∧ names_slot slot nm = true
  | None => decode_slot slot = SlotEnd ∨ deleted slot
  end.

(** The slots before the mark that ends a directory. *)
Fixpoint visible (l : list placed) : list placed :=
  match l with
  | [] => []
  | x :: l => match decode_slot x.2 with SlotEnd => [] | _ => x :: visible l end
  end.

Definition well_placed (nm : list Z) (l : list placed) (p : slot_place) : Prop :=
  ∃ l1 slot l2, l = l1 ++ (p.1, slot) :: l2 ∧ Forall (passed nm) l1 ∧
    Forall (λ x, x.2 ≠ slot) l1 ∧ fits nm slot p.2 ∧
    (p.2 = None → Forall (passed nm) (visible l)).

Lemma scan_place_free nm l p :
  match scan (place_step nm) l (Some p) with
  | inl free => free = Some p ∧ Forall (passed nm) (visible l)
  | inr (s, a, None) => (s, a) = p ∧ Forall (passed nm) (visible l)
  | inr (s, a, Some e) => well_placed nm l (s, a, Some e)
  end.
Proof.
  induction l as [|[[s a] slot] l IH]; [by repeat constructor|]. cbn [scan place_step visible snd].
  destruct (decode_slot slot) as [e| |] eqn:Hslot.
  - destruct (names_slot slot nm) eqn:Hn.
    + exists [], slot, l. by repeat constructor.
    + assert (passed nm (s, a, slot)) as Hp by (split; cbn [snd]; rewrite Hslot; [done|by intros ? [= <-]]).
      destruct (scan _ l _) as [free|[[s' a'] [e'|]]].
      * destruct IH as [-> ?]. split; [done|by constructor].
      * destruct IH as (l1 & slot' & l2 & -> & H1 & H2 & Hf & _). exists ((s, a, slot) :: l1), slot', l2.
        split_and!; [done|by constructor| |done|done]. constructor; [|done]. cbn [snd]. intros ->.
        destruct Hf as [? ?]. congruence.
      * destruct IH as [? ?]. split; [done|by constructor].
  - rewrite bool_decide_eq_false_2 by done. cbn [andb].
    assert (passed nm (s, a, slot)) as Hp by (split; cbn [snd]; rewrite Hslot; done).
    destruct (scan _ l _) as [free|[[s' a'] [e'|]]].
    * destruct IH as [-> ?]. split; [done|by constructor].
    * destruct IH as (l1 & slot' & l2 & -> & H1 & H2 & Hf & _). exists ((s, a, slot) :: l1), slot', l2.
      split_and!; [done|by constructor| |done|done]. constructor; [|done]. cbn [snd]. intros ->.
      destruct Hf as [? ?]. congruence.
    * destruct IH as [? ?]. split; [done|by constructor].
  - simpl. split; [by destruct p|constructor].
Qed.

Lemma well_placed_cons nm x l p :
  passed nm x → (∀ slot, fits nm slot p.2 → x.2 ≠ slot) → well_placed nm l p → well_placed nm (x :: l) p.
Proof.
  intros Hx Hne (l1 & slot & l2 & -> & H1 & H2 & Hf & Hv). exists (x :: l1), slot, l2.
  split_and!; [done|by constructor|constructor; [by apply Hne|done]|done|].
  intros Hp. specialize (Hv Hp). cbn [visible]. destruct Hx as [? ?].
  destruct (decode_slot x.2) eqn:Hd; try done; (constructor; [split; [by rewrite Hd|by rewrite Hd]|done]).
Qed.

Lemma scan_place nm l :
  match scan (place_step nm) l None with
  | inl None => Forall (passed nm) l
  | inl (Some p) => well_placed nm l (p, None)
  | inr p => well_placed nm l p
  end.
Proof.
  induction l as [|[[s a] slot] l IH]; [by constructor|]. cbn [scan place_step].
  destruct (decode_slot slot) as [e| |] eqn:Hslot.
  - destruct (names_slot slot nm) eqn:Hn.
    { exists [], slot, l. by repeat constructor. }
    assert (passed nm (s, a, slot)) as Hp by (split; cbn [snd]; rewrite Hslot; [done|by intros ? [= <-]]).
    assert (∀ ex slot', fits nm slot' ex → slot ≠ slot') as Hne.
    { intros [e'|] slot' Hf <-; [destruct Hf; congruence|]. destruct Hf as [?|[? _]]; congruence. }
    destruct (scan _ l None) as [[p|]|p]; [|by constructor|]; apply well_placed_cons; eauto.
  - cbn [andb]. rewrite bool_decide_eq_true_2 by done. cbn [andb].
    assert (passed nm (s, a, slot)) as Hp by (split; cbn [snd]; rewrite Hslot; done).
    destruct (Z.eqb_spec (Boot.byte_at slot 0) ENTRY_DELETED) as [Hdel|Hdel].
    + assert (Forall (passed nm) (visible l) →
        well_placed nm ((s, a, slot) :: l) (s, a, None)) as Hhere.
      { intros Hv. exists [], slot, l. split_and!; [done|constructor|constructor|by right|].
        intros _. cbn [visible snd]. rewrite Hslot. by constructor. }
      pose proof (scan_place_free nm l (s, a)) as Hfree.
      destruct (scan (place_step nm) l (Some (s, a))) as [free|[[s' a'] [e'|]]].
      * destruct Hfree as [-> Hv]. by apply Hhere.
      * apply well_placed_cons; [done| |done]. intros slot' [? _]; cbn [snd]; intros ->; congruence.
      * destruct Hfree as [[= -> ->] Hv]. by apply Hhere.
    + assert (∀ ex slot', fits nm slot' ex → slot ≠ slot') as Hne.
      { intros [e'|] slot' Hf <-; [destruct Hf; congruence|]. destruct Hf as [?|[_ ?]]; congruence. }
      destruct (scan _ l None) as [[p|]|p]; [|by constructor|]; apply well_placed_cons; eauto.
  - cbn [default fst snd]. exists [], slot, l. split_and!; [done|constructor|constructor|by left|].
    intros _. cbn [visible snd]. rewrite Hslot. constructor.
Qed.

Lemma visible_app l1 x l2 nm : Forall (passed nm) l1 → decode_slot x.2 ≠ SlotEnd → x ∈ visible (l1 ++ x :: l2).
Proof.
  intros Hl Hx. induction Hl as [|y l [Hy _] Hl IH]; cbn [app visible].
  - destruct (decode_slot x.2); [by left..|done].
  - destruct (decode_slot y.2); [by right..|done].
Qed.

(** Which file is there does not depend on how the place was found. *)
Lemma well_placed_det nm l p p' : well_placed nm l p → well_placed nm l p' → p.2 = p'.2.
Proof.
  assert (∀ p p' e, well_placed nm l p → well_placed nm l p' → p.2 = Some e → p'.2 = Some e) as Hgen.
  { clear p p'. intros p p' e (l1 & slot & l2 & Hl & H1 & _ & Hf & _) (l1' & slot' & l2' & Hl' & H1' & _ & Hf' & Hv) He.
    rewrite He in Hf. destruct Hf as [Hd Hn].
    destruct p'.2 as [e'|] eqn:He'.
    2:{ exfalso. specialize (Hv eq_refl). rewrite Hl in Hv.
        pose proof (visible_app l1 (p.1, slot) l2 nm H1 ltac:(cbn [snd]; congruence)) as Hin.
        rewrite Forall_forall in Hv. destruct (Hv _ Hin) as [_ Hp]. specialize (Hp e Hd). cbn [snd] in Hp. congruence. }
    destruct Hf' as [Hd' Hn'].
    assert (∀ k x, l !! k = Some x → (k < length l1)%nat → passed nm x) as P1.
    { intros k x Hk Hlt. rewrite Hl, lookup_app_l in Hk by done. rewrite Forall_forall in H1.
      by eapply H1, list_elem_of_lookup_2. }
    assert (∀ k x, l !! k = Some x → (k < length l1')%nat → passed nm x) as P1'.
    { intros k x Hk Hlt. rewrite Hl', lookup_app_l in Hk by done. rewrite Forall_forall in H1'.
      by eapply H1', list_elem_of_lookup_2. }
    assert (l !! length l1 = Some (p.1, slot)) as E1 by (rewrite Hl, lookup_app_r, Nat.sub_diag by done; done).
    assert (l !! length l1' = Some (p'.1, slot')) as E1' by (rewrite Hl', lookup_app_r, Nat.sub_diag by done; done).
    destruct (Nat.lt_trichotomy (length l1) (length l1')) as [Hlt|[Heq|Hlt]].
    - destruct (P1' _ _ E1 Hlt) as [_ Hp]. specialize (Hp e Hd). cbn [snd] in Hp. congruence.
    - rewrite Heq in E1. assert (slot = slot') as -> by congruence. congruence.
    - destruct (P1 _ _ E1' Hlt) as [_ Hp]. specialize (Hp e' Hd'). cbn [snd] in Hp. congruence. }
  intros Hp Hp'. destruct p.2 as [e|] eqn:E1; [symmetry; by apply (Hgen p)|].
  destruct p'.2 as [e'|] eqn:E2; [|done]. specialize (Hgen p' p e' Hp' Hp E2). congruence.
Qed.

Lemma visible_all l : Forall (λ x, decode_slot x.2 ≠ SlotEnd) l → visible l = l.
Proof. induction 1 as [|x l Hx Hl IH]; [done|]. cbn [visible]. rewrite IH. by destruct (decode_slot x.2). Qed.

Lemma place_answer_placed {E} nm l fin p :
  place_answer (E:=E) (scan (place_step nm) l None) fin = Ok p → well_placed nm l p.
Proof.
  pose proof (scan_place nm l) as Hp. destruct (scan _ l None) as [[[s a]|]|[[s a] ex]];
    destruct fin; intros [= <-]; done.
Qed.

Lemma place_answer_cases {E} nm l fin :
  (∃ p, place_answer (E:=E) (scan (place_step nm) l None) fin = Ok p) ∨
  ∃ e, place_answer (E:=E) (scan (place_step nm) l None) fin = Err e ∧
    (e = DirectoryFull ∧ Forall (passed nm) l ∨ e = Reading ChainLoops ∨ ∃ c, e = Reading (BadCluster c)).
Proof.
  pose proof (scan_place nm l) as Hp. destruct (scan _ l None) as [[[s a]|]|p]; [| |left; by eexists].
  - destruct fin; [left; by eexists|right..]; eexists; (split; [done|]); eauto.
  - destruct fin; right; eexists; (split; [done|]); eauto.
Qed.

(** ** Finding what was put there *)

(** A slot whose name is one [encode_name] could have written. *)
Definition plain (slot : list Z) : Prop :=
  ∀ e, decode_slot slot = SlotEntry e →
    ∃ nm base ext r, halves nm base ext ∧ slot = padded base ext ++ r.

Lemma upper_padded nm base ext : halves nm base ext → upper (padded base ext) = padded base ext.
Proof.
  intros [_ _ [Hb He] _ _]. unfold padded, upper. rewrite !map_app.
  assert (∀ n, map to_ascii_uppercase (replicate n 32) = replicate n 32) as Hsp
    by (intros n; induction n as [|n IH]; [done|]; simpl; by rewrite IH).
  rewrite !Hsp. fold (upper base) (upper ext). by rewrite (upper_stored base), (upper_stored ext).
Qed.

Lemma decode_slot_name slot e : decode_slot slot = SlotEntry e →
  ename e = slot_name slot ++ replicate (12 - length (slot_name slot)) 0 ∧ name_len e = len (slot_name slot).
Proof. unfold decode_slot. repeat (case_match; [done|]). by intros [= <-]. Qed.

Lemma plain_named slot e nm base' ext' :
  plain slot → decode_slot slot = SlotEntry e → halves nm base' ext' → bare_dot nm = false →
  is_named e nm = names_slot slot (padded base' ext').
Proof.
  intros Hp He Hh' Hdot. destruct (Hp e He) as (nm0 & base & ext & r & Hh & ->).
  destruct (decode_slot_name _ _ He) as [Hn Hl]. rewrite (slot_name_padded nm0) in Hn, Hl by done.
  assert (name e = dotted base ext) as Hname.
  { unfold name. rewrite Hn, Hl. unfold len. rewrite Nat2Z.id, take_app_length.
    unfold text_or_empty. rewrite utf8_ascii; [done|].
    eapply Forall_impl; [by eapply dotted_stored|]. simpl. lia. }
  pose proof Hh as [? ? _ _ _]. pose proof Hh' as [? ? _ _ Hnm]. rewrite Hdot in Hnm.
  apply eq_true_iff_eq. rewrite is_named_upper, Hname, Hnm, upper_stored by (by eapply dotted_stored).
  unfold names_slot. rewrite take_app_le, take_ge by (rewrite padded_length; lia).
  rewrite eq_ic_upper by (by rewrite !padded_length by lia). rewrite (upper_padded nm0), (upper_padded nm) by done. split.
  - intros Heq. by destruct (dotted_inj _ _ _ _ _ _ Hh Hh' Heq) as [-> ->].
  - intros Heq. by destruct (padded_inj _ _ _ _ _ _ Hh Hh' Heq) as [-> ->].
Qed.
