(* ===== verification/FatFile.v ===== *)
(** * FAT32: a whole write

    [write_file] on the image of a volume, step by step: nothing is written
    before every check has passed; then the free clusters are filled and
    linked, one sector of the directory is written, and what the file had
    before is given back. *)

From S2P Require Import Prelude Words Bytes FatFormat FatVolume FatFormatThms FatDisk FatRead FatReadThms FatDir FatFrame FatWrite FatPlace.
Local Open Scope Z_scope.

#[local] Existing Instance has_dec.


Section volume.
  Context {E : Type} (boot : BootSector) (Hg : geometry boot).
  Context (Hmax : FIRST_DATA_CLUSTER + clusters boot ≤ 0x0FFFFFF7) (Hinfo : 0 ≤ fs_info_sector boot).

Notation cb := (512 * sectors_per_cluster boot).
Notation nothing := (λ _ : Z, False).

Lemma data_same_data d d' c : data_same boot d d' → has boot c → data boot d' c = data boot d c.
Proof.
  intros Hs Hc. unfold data. f_equal. apply list_fmap_ext. intros k n Hn.
  apply lookup_seqZ in Hn as [-> Hk]. apply Hs; [done|]. unfold cluster_sector. lia.
Qed.

(** ** Free clusters *)
Lemma free_list_spec d c : c ∈ free_list boot d ↔ has boot c ∧ fat boot d c = EntryFree.
Proof.
  unfold free_list. rewrite list_elem_of_filter, elem_of_seqZ. unfold has. naive_solver.
Qed.

Lemma free_list_nodup d : NoDup (free_list boot d).
Proof. apply NoDup_filter, NoDup_seqZ. Qed.

(** ** Filling and linking *)
Record filled (contents cs : list Z) (i i1 : Image) : Prop := {
  fl_runs : runs (step boot cs nothing) i i1;
  fl_chain : match cs with [] => True | c :: _ => chain boot (now i1) c cs end;
  fl_parts : ∀ j c, cs !! j = Some c → holds_part boot contents (now i1) (Z.of_nat j) c
}.

Lemma fill_run contents cs (i : Image) :
  disk_ok (now i) → Forall (has boot) cs → NoDup cs → bytes_ok contents →
  ∃ i0 i1, write_clusters (E:=E) boot cs contents i = (Ok (), i0) ∧
    write_links (E:=E) boot cs i0 = (Ok (), i1) ∧ filled contents cs i i1.
Proof.
  intros Hd Hcs Hnd Hb.
  destruct (write_clusters_run (E:=E) boot Hg contents cs i Hd Hcs Hnd Hb) as (i0 & Hrun & Hruns & _ & Hparts).
  assert (disk_ok (now i0)) as Hd0 by (eapply steps_ok; [exact Hd|by apply runs_rtc]).
  destruct (write_links_run (E:=E) boot Hg cs i0 Hd0 Hcs Hnd) as (i1 & Hrun1 & Hruns1 & Hdata & Hchain).
  { eapply Forall_impl; [exact Hcs|]. intros c Hc. unfold has in Hc. lia. }
  exists i0, i1. split; [done|]. split; [done|]. split; [by eapply runs_trans|done|].
  intros j c Hj. unfold holds_part. rewrite (data_same_data (now i0)); [by apply Hparts|done|].
  rewrite Forall_forall in Hcs. apply Hcs. by eapply list_elem_of_lookup_2.
Qed.

(** The clusters of a filled chain hold the file. *)
Lemma filled_content contents cs d :
  disk_ok d → div_ceil (len contents) cb = len cs →
  (∀ j c, cs !! j = Some c → holds_part boot contents d (Z.of_nat j) c) →
  take (length contents) (concat (data boot d <$> cs)) = contents.
Proof.
  intros Hd Hn Hparts. pose proof (geo_spc _ Hg).
  assert (take (Z.to_nat cb * length (data boot d <$> cs)) contents `prefix_of` concat (data boot d <$> cs)) as Hp.
  { apply prefix_blocks. intros j b Hj. apply list_lookup_fmap_Some in Hj as (c & -> & Hc).
    pose proof (length_data boot Hg d c Hd) as Hl. unfold len in Hl. split; [lia|].
    specialize (Hparts j c Hc). unfold holds_part in Hparts.
    by replace (Z.to_nat (Z.of_nat j * cb)) with (j * Z.to_nat cb)%nat in Hparts by nia. }
  rewrite length_fmap in Hp. unfold len in Hn.
  pose proof (proj1 (div_ceil_spec (len contents) cb (Z.of_nat (length cs)) ltac:(lia)) ltac:(unfold len; lia)) as Hbound.
  unfold len in Hbound. rewrite take_ge in Hp by nia.
  destruct Hp as [r ->]. by rewrite take_app_length.
Qed.

(** ** Giving back and counting *)

(** The clusters of the file that was there before. *)
Definition old_chain (d0 : content) (existing : option DirectoryEntry) (x : Z) : Prop :=
  match existing with
  | Some e => first_cluster e ≠ 0 ∧ reach boot d0 (first_cluster e) x
  | None => False
  end.

Definition give_back (existing : option DirectoryEntry) (cs : list Z) : dev Image (WriteError E) () :=
  match existing with
  | Some entry =>
      if negb (first_cluster entry =? 0) then free_chain boot (first_cluster entry) cs else mret ()
  | None => mret ()
  end.

(** FSInfo, where there is one, says how many clusters are free and which is
    the first. *)
Definition info_exact (d : content) : Prop :=
  is_fs_info boot d = true →
  Boot.u32_at (d (fs_info_sector boot)) 488 = len (free_list boot d) ∧
  Boot.u32_at (d (fs_info_sector boot)) 492 = default 0 (head (free_list boot d)).

Record given_up (d0 : content) (cs : list Z) (existing : option DirectoryEntry)
    (r : res (WriteError E) ()) (i2 i' : Image) : Prop := {
  gu_runs : runs (step boot [] (λ x, old_chain d0 existing x ∧ x ∉ cs)) i2 i';
  gu_answer : r = Ok () ∨ ∃ x, r = Err (Reading (BadCluster x)) ∧ old_chain d0 existing x ∧ ¬ has boot x;
  gu_freed : ∀ e l, existing = Some e → first_cluster e ≠ 0 → chain boot d0 (first_cluster e) l →
    (∀ x, x ∈ l → x ∉ cs) → r = Ok () ∧ ∀ x, x ∈ l → fat boot (now i') x = EntryFree;
  gu_info : r = Ok () → info_exact (now i')
}.

Lemma give_back_run d0 cs existing (i : Image) :
  disk_ok (now i) → Forall (has boot) cs → freed_tables boot d0 cs [] (now i) →
  ∃ r i', give_back existing cs i = (r, i') ∧
    runs (step boot [] (λ x, old_chain d0 existing x ∧ x ∉ cs)) i i' ∧
    (r = Ok () ∨ ∃ x, r = Err (Reading (BadCluster x)) ∧ old_chain d0 existing x ∧ ¬ has boot x) ∧
    (∀ e l, existing = Some e → first_cluster e ≠ 0 → chain boot d0 (first_cluster e) l →
       (∀ x, x ∈ l → x ∉ cs) → r = Ok () ∧ ∀ x, x ∈ l → fat boot (now i') x = EntryFree).
Proof.
  intros Hd Hcs Hft. unfold give_back. destruct existing as [e|].
  2:{ exists (Ok ()), i. split_and!; [done|apply runs_refl|by left|done]. }
  destruct (Z.eqb_spec (first_cluster e) 0) as [H0|H0]; cbn [negb].
  { exists (Ok ()), i. split_and!; [done|apply runs_refl|by left|]. intros e' l [= <-] ?. done. }
  destruct (free_chain_run (E:=E) boot Hg d0 cs (first_cluster e) i Hd Hcs Hft)
    as (r & i' & freed & Hrun & Hruns & _ & Hft' & Hr & Hch).
  exists r, i'. split_and!; [done| | |].
  - eapply runs_mono; [|exact Hruns]. intros d1 d2 Hs. eapply step_mono; [done| |done].
    intros x [? ?]. done.
  - destruct Hr as [?|(x & ? & ? & ?)]; [by left|right]. exists x. done.
  - intros e' l [= <-] _ Hl Hdis. destruct (Hch l Hl Hdis) as [-> Hsub]. split; [done|]. intros x Hx.
    pose proof (chain_has boot d0 _ l Hl) as Hh. rewrite Forall_forall in Hh.
    rewrite Hft' by auto. rewrite decide_True by (by apply Hsub). done.
Qed.

(** Writing FSInfo changes no table entry and no cluster. *)
Lemma info_same d bytes :
  0 < fs_info_sector boot < reserved_sectors boot → same_on boot (λ _, True) d (<[fs_info_sector boot := bytes]> d).
Proof.
  intros Hn x Hx _. split; intros y Hy; unfold raw; rewrite fn_lookup_insert_ne; try done.
  - by apply (info_not_table boot Hg).
  - by apply (info_not_data boot Hg).
Qed.

Lemma free_list_same d d' : same_on boot (λ _, True) d d' → free_list boot d' = free_list boot d.
Proof.
  intros Hs. unfold free_list. assert (∀ l, Forall (has boot) l →
    filter (λ c, fat boot d' c = EntryFree) l = filter (λ c, fat boot d c = EntryFree) l) as Hall.
  { intros l Hl. induction Hl as [|c l Hc Hl IH]; [done|]. rewrite !filter_cons, IH.
    rewrite (same_fat boot Hg (λ _, True) d d') by done. done. }
  apply Hall, Forall_forall. intros c Hc%elem_of_seqZ. unfold has. lia.
Qed.

Lemma is_fs_info_bounds d : is_fs_info boot d = true → 0 < fs_info_sector boot < reserved_sectors boot.
Proof. unfold is_fs_info. rewrite !andb_true_iff, !Z.ltb_lt. lia. Qed.

Lemma counted_info_exact d :
  disk_ok d → is_fs_info boot d = true →
  info_exact (<[fs_info_sector boot := counted_info boot d (d (fs_info_sector boot))]> d).
Proof.
  intros Hd Hi _. pose proof (is_fs_info_bounds d Hi) as Hb. pose proof (clusters_bound boot Hg).
  rewrite (free_list_same d) by (by apply info_same). rewrite fn_lookup_insert.
  destruct (Hd (fs_info_sector boot)) as [Hl Hbytes]. unfold counted_info.
  assert (0 ≤ len (free_list boot d) < 2 ^ 32) as Hlen.
  { split; [apply len_nonneg|]. assert (len (free_list boot d) ≤ clusters boot); [|lia].
    apply (nodup_clusters boot Hg); [apply free_list_nodup|]. apply Forall_forall. intros x Hx%free_list_spec. tauto. }
  assert (0 ≤ default 0 (head (free_list boot d)) < 2 ^ 32) as Hhead.
  { destruct (free_list boot d) as [|x l] eqn:El; [simpl; lia|]. simpl.
    assert (x ∈ free_list boot d) as Hx by (rewrite El; by left). apply free_list_spec in Hx as [Hx _].
    unfold has, FIRST_DATA_CLUSTER in *. lia. }
  assert (len (splice (d (fs_info_sector boot)) 488 (le_encode 4 (len (free_list boot d)))) = 512) as Hl2.
  { rewrite len_splice; [unfold len; lia|]. rewrite length_le_encode. lia. }
  assert (len (d (fs_info_sector boot)) = 512) as Hl1 by (unfold len; lia).
  split.
  - rewrite (u32_at_splice_ne _ 492) by lia. apply (u32_at_splice _ 488); lia.
  - apply (u32_at_splice _ 492); lia.
Qed.

Lemma finish_run d0 cs existing (i : Image) :
  disk_ok (now i) → Forall (has boot) cs → freed_tables boot d0 cs [] (now i) →
  ∃ r i', (_ ← give_back existing cs; update_fs_info boot) i = (r, i') ∧ given_up d0 cs existing r i i'.
Proof.
  intros Hd Hcs Hft. destruct (give_back_run d0 cs existing i Hd Hcs Hft) as (r & i1 & Hrun & Hruns & Hr & Hfreed).
  assert (disk_ok (now i1)) as Hd1 by (eapply steps_ok; [exact Hd|by apply runs_rtc]).
  destruct Hr as [->|(x & -> & Hx & Hnh)].
  2:{ exists (Err (Reading (BadCluster x))), i1. split; [by apply dev_bind_Err|]. split; [done| |done|done].
      right. by exists x. }
  rewrite (dev_bind_Ok _ _ _ _ _ Hrun). rewrite (update_fs_info_run boot Hg) by done.
  eexists _, _. split; [done|]. destruct (is_fs_info boot (now i1)) eqn:Hi.
  2:{ split; [done|by left|done|]. intros _ Hi'. congruence. }
  pose proof (is_fs_info_bounds _ Hi) as Hb. split.
  - eapply runs_trans; [done|]. apply runs_write. apply StepInfo; [done|]. apply counted_info_ok, Hd1.
  - by left.
  - intros e l He H0 Hl Hdis. destruct (Hfreed e l He H0 Hl Hdis) as [_ Hf]. split; [done|].
    intros x Hx. rewrite now_written. pose proof (chain_has boot d0 _ l Hl) as Hh. rewrite Forall_forall in Hh.
    rewrite (same_fat boot Hg (λ _, True) (now i1)); auto. by apply info_same.
  - intros _. rewrite now_written. by apply counted_info_exact.
Qed.

(** ** The whole of it *)
Definition needed_for (contents : list Z) : Z := div_ceil (len contents) cb.

(** Why a write is refused before anything is written. *)
Definition refused (d0 : content) (nm contents : list Z) (e : WriteError E) : Prop :=
  match e with
  | BadName => encode_name nm = None
  | DirectoryFull => ∃ enc, encode_name nm = Some enc ∧ Forall (passed enc) (root_dir boot d0).1
  | IsADirectory => ∃ enc p old, encode_name nm = Some enc ∧ well_placed enc (root_dir boot d0).1 (p, Some old) ∧
      is_directory old = true
  | TooManyClusters n => n = needed_for contents ∧ MAX_FILE_CLUSTERS < n
  | Full n free => n = needed_for contents ∧ free = len (free_list boot d0) ∧ free < n
  | _ => False
  end.

(** The entry as it is written. *)
Definition new_slot (enc cs contents : list Z) : list Z := encode_entry enc (default 0 (head cs)) (len contents).

Record committed (nm contents : list Z) (i i1 i2 i' : Image) (enc cs : list Z) (s : Z) (k : nat)
    (existing : option DirectoryEntry) (e : DirectoryEntry) (r : res (WriteError E) ()) : Prop := {
  cm_name : encode_name nm = Some enc;
  cm_place : well_placed enc (root_dir boot (now i)).1 (s, Z.of_nat k * 32, existing);
  cm_slot : (k < 16)%nat;
  cm_file : match existing with Some old => is_directory old = false | None => True end;
  cm_few : needed_for contents ≤ MAX_FILE_CLUSTERS;
  cm_cs : cs = take (Z.to_nat (needed_for contents)) (free_list boot (now i));
  cm_len : len cs = needed_for contents;
  cm_filled : filled contents cs i i1;
  cm_put : i2 = written i1 s (splice (now i1 s) (k * 32) (new_slot enc cs contents));
  cm_entry : decode_slot (new_slot enc cs contents) = SlotEntry e;
  cm_given : given_up (now i) cs existing r i2 i'
}.

Lemma encode_entry_ok nm enc first size : encode_name nm = Some enc → bytes_ok (encode_entry enc first size).
Proof.
  intros (base & ext & -> & [_ _ [Hb He] _ _])%encode_halves. unfold encode_entry, padded.
  assert (∀ n x, 0 ≤ x < 256 → bytes_ok (replicate n x)) as Hrep by (intros n x Hx; by apply Forall_replicate).
  assert (∀ l, Forall stored l → bytes_ok l) as Hst
    by (intros l Hl; eapply Forall_impl; [exact Hl|]; intros x [? _]; lia).
  unfold bytes_ok in *. rewrite !Forall_app. split_and!; auto; try (apply Hrep; lia); try apply le_encode_ok.
  constructor; [done|constructor].
Qed.

Lemma new_slot_length nm enc cs contents : encode_name nm = Some enc → length (new_slot enc cs contents) = 32%nat.
Proof.
  intros (base & ext & -> & [? ? _ _ _])%encode_halves. unfold new_slot, encode_entry.
  rewrite !length_app, padded_length by lia. done.
Qed.

Lemma new_slot_decode nm enc cs contents :
  encode_name nm = Some enc → len contents < 2 ^ 32 → Forall (has boot) cs →
  ∃ e base ext, decode_slot (new_slot enc cs contents) = SlotEntry e ∧ enc = padded base ext ∧ halves nm base ext ∧
    e = file_entry base ext (default 0 (head cs)) (len contents).
Proof.
  intros (base & ext & -> & Hh)%encode_halves Hlen Hcs. pose proof (clusters_bound boot Hg).
  eexists _, base, ext. split_and!; [|done|done|done]. eapply decode_encode_entry; [done| |].
  - destruct cs as [|c cs]; simpl; [lia|]. apply Forall_cons in Hcs as [Hc _]. unfold has, FIRST_DATA_CLUSTER in Hc. lia.
  - pose proof (len_nonneg contents). lia.
Qed.

(** The place found is a slot of one of the directory's clusters. *)
Lemma well_placed_at d0 root_l enc s a existing :
  disk_ok d0 → chain boot d0 (root_cluster boot) root_l →
  well_placed enc (root_dir boot d0).1 (s, a, existing) →
  ∃ k y o, (k < 16)%nat ∧ a = Z.of_nat k * 32 ∧ y ∈ root_l ∧ has boot y ∧ cluster_sector boot o ∧
    s = cluster_start boot y + o.
Proof.
  intros Hd Hroot (l1 & slot & l2 & Heq & _).
  destruct (dir_at boot Hg d0 (Z.to_nat (clusters boot + 1)) (root_cluster boot) ((s, a), slot) Hd)
    as [(k & Hk & Ha & _) (y & o & Hr & Hy & Ho & Hs)].
  { fold (root_dir boot d0). rewrite Heq. set_solver. }
  exists k, y, o. split_and!; try done. by eapply reach_chain.
Qed.

(** The sector of the directory and the tables seen through the filling. *)
Lemma filled_same contents cs (i i1 : Image) :
  disk_ok (now i) → filled contents cs i i1 → disk_ok (now i1) ∧ same_on boot (λ c, c ∉ cs) (now i) (now i1).
Proof.
  intros Hd [Hruns _ _]. apply runs_rtc in Hruns. split; [by eapply steps_ok|].
  eapply same_on_mono; [|by eapply steps_same]. intros c Hc. split; [done|tauto].
Qed.

Lemma write_file_run nm contents (i : Image) root_l :
  disk_ok (now i) → bytes_ok contents → len contents < 2 ^ 32 → chain boot (now i) (root_cluster boot) root_l →
  ∃ r i', write_file (E:=E) boot nm contents i = (r, i') ∧
    ((i' = i ∧ ∃ e, r = Err e ∧ refused (now i) nm contents e) ∨
     ∃ i1 i2 enc cs s k existing e r0,
       committed nm contents i i1 i2 i' enc cs s k existing e r0 ∧ r = (_ ← r0; Ok e)).
Proof.
  intros Hd Hb Hlen Hroot. unfold write_file.
  destruct (encode_name nm) as [enc|] eqn:Henc; [|eexists _, i; split; [done|left; split; [done|by eexists]]].
  erewrite dev_bind_Ok; [|done]. unfold mbind at 1, dev_bind at 1. rewrite (directory_slot_run boot Hg).
  destruct (root_dir_chain boot Hg (now i) root_l Hroot) as [x Hdir].
  assert ((root_dir boot (now i)).2 = StopAt x EntryEnd) as Hfin by (by rewrite Hdir).
  rewrite Hfin. pose proof (scan_place enc (root_dir boot (now i)).1) as Hscan.
  assert ((∃ p, place_answer (E:=E) (scan (place_step enc) (root_dir boot (now i)).1 None) (StopAt x EntryEnd) = Ok p ∧
     well_placed enc (root_dir boot (now i)).1 p) ∨
    (place_answer (E:=E) (scan (place_step enc) (root_dir boot (now i)).1 None) (StopAt x EntryEnd) = Err DirectoryFull ∧
     Forall (passed enc) (root_dir boot (now i)).1)) as Hplace.
  { destruct (scan _ _ None) as [[[s a]|]|p]; [left; by eexists|right; done|left; by eexists]. }
  destruct Hplace as [([[s a] existing] & -> & Hp)|[-> Hpassed]].
  2:{ eexists _, i. split; [done|]. left. split; [done|]. eexists. split; [done|]. exists enc. done. }
  rewrite (cluster_bytes_spec boot Hg). fold (needed_for contents).
  destruct (match existing with Some entry => is_directory entry | None => false end) eqn:Hisdir.
  { eexists _, i. split; [done|]. left. split; [done|]. eexists. split; [done|].
    destruct existing as [old|]; [|done]. by exists enc, (s, a), old. }
  assert (0 ≤ needed_for contents) as Hn.
  { pose proof (geo_spc _ Hg). pose proof (len_nonneg contents). apply div_ceil_nonneg; lia. }
  destruct (free_clusters_run (E:=E) boot Hg (needed_for contents) i Hn) as (rf & Hrf & Hfree).
  unfold mbind at 1, dev_bind at 1. rewrite Hrf. destruct rf as [found|e| |]; try done.
  2:{ eexists _, i. split; [done|]. left. split; [done|]. exists e. split; [done|].
      destruct Hfree as [[? ->]|[? ->]]; [done|]. split_and!; [done..|lia]. }
  destruct Hfree as (Hfew & Henough & Hlf & Htake).
  rewrite slice_Some by lia. rewrite Z.sub_0_r. change (drop (Z.to_nat 0) found) with found. rewrite Htake.
  set (cs := take (Z.to_nat (needed_for contents)) (free_list boot (now i))).
  erewrite dev_bind_Ok; [|done].
  assert (∀ c, c ∈ cs → has boot c ∧ fat boot (now i) c = EntryFree) as Hcsf.
  { intros c Hc. apply free_list_spec. unfold cs in Hc. by apply elem_of_take in Hc as (? & Hc%list_elem_of_lookup_2 & _). }
  assert (Forall (has boot) cs) as Hcs by (apply Forall_forall; intros c Hc; by apply Hcsf).
  assert (NoDup cs) as Hnd.
  { pose proof (free_list_nodup (now i)) as Hnl.
    rewrite <-(take_drop (Z.to_nat (needed_for contents))) in Hnl. by apply NoDup_app in Hnl as [? _]. }
  destruct (fill_run contents cs i Hd Hcs Hnd Hb) as (i0 & i1 & Hr0 & Hr1 & Hfilled).
  erewrite dev_bind_Ok; [|exact Hr0]. erewrite dev_bind_Ok; [|exact Hr1].
  destruct (filled_same contents cs i i1 Hd Hfilled) as [Hd1 Hsame].
  destruct (well_placed_at (now i) root_l enc s a existing Hd Hroot Hp) as (k & y & o & Hk & -> & Hy & Hhy & Ho & Hs).
  erewrite dev_bind_Ok; [|apply read_run]. destruct (Hd1 s) as [Hl1 Hb1].
  change DIRECTORY_ENTRY_BYTES with 32.
  rewrite slice_Some by (unfold len; lia). erewrite dev_bind_Ok; [|done].
  fold (new_slot enc cs contents). pose proof (new_slot_length nm enc cs contents Henc) as Hnl.
  rewrite copy_at_Some by (unfold len; lia). erewrite dev_bind_Ok; [|done].
  replace (Z.to_nat (Z.of_nat k * 32)) with (k * 32)%nat by lia.
  erewrite dev_bind_Ok; [|apply write_run].
  set (i2 := written i1 s (splice (now i1 s) (k * 32) (new_slot enc cs contents))).
  assert (bytes_ok (new_slot enc cs contents)) as Hnb by (by eapply encode_entry_ok).
  assert (now i2 = put (now i1) s k (new_slot enc cs contents)) as Hi2 by apply now_written.
  assert (disk_ok (now i2)) as Hd2 by (rewrite Hi2; by apply put_ok).
  assert (freed_tables boot (now i) cs [] (now i2)) as Hft.
  { intros z Hz Hzc. rewrite decide_False by apply not_elem_of_nil.
    rewrite Hi2, (fat_put boot Hg _ _ _ _ y o) by done.
    by rewrite (same_fat boot Hg (λ c, c ∉ cs) (now i) (now i1)). }
  destruct (finish_run (now i) cs existing i2 Hd2 Hcs Hft) as (r0 & i' & Hfin' & Hgiven).
  destruct (new_slot_decode nm enc cs contents Henc Hlen Hcs) as (e & base & ext & Hdec & _).
  exists (_ ← r0; Ok e), i'. split.
  - fold (give_back existing cs). rewrite dev_bind_assoc. unfold mbind at 1, dev_bind at 1. rewrite Hfin'.
    destruct r0 as [[]|e0| |]; try done.
    rewrite slice_Some by (rewrite ?len_splice by lia; unfold len; lia). erewrite dev_bind_Ok; [|done].
    replace (Z.to_nat (Z.of_nat k * 32 + 32 - Z.of_nat k * 32)) with 32%nat by lia.
    replace (Z.to_nat (Z.of_nat k * 32)) with (k * 32)%nat by lia.
    rewrite slot_of_splice, decide_True by done. by rewrite Hdec.
  - right. exists i1, i2, enc, cs, s, k, existing, e, r0. split; [|done]. split; try done.
    + by destruct existing.
    + unfold cs, len. rewrite length_take. unfold len in Henough. lia.
Qed.
End volume.
