(* ===== verification/FatWriteThms.v ===== *)
(** * FAT32: writing a file is all or nothing

    [write_file] on any device, whenever that device stops answering. *)

From S2P Require Import Prelude Words Bytes FatFormat FatVolume FatFormatThms FatDisk FatRead FatReadThms FatDir FatFrame FatWrite FatPlace FatFile.
Local Open Scope Z_scope.

#[local] Existing Instance has_dec.

Section volume.
  Context (boot : BootSector) (Hg : geometry boot).
  Context (Hmax : FIRST_DATA_CLUSTER + clusters boot ≤ 0x0FFFFFF7) (Hinfo : 0 ≤ fs_info_sector boot).
  Context {S E : Type} `{Disk S E}.

Notation cb := (512 * sectors_per_cluster boot).

(** ** What a volume holds *)

(** The chain from [c], if it has an end, is still there with its bytes. *)
Definition intact (d0 d' : content) (l : list Z) : Prop :=
  ∀ c, chain boot d0 c l → chain boot d' c l ∧ data boot d' <$> l = data boot d0 <$> l.

(** Nothing has happened yet, as far as files and the directory go. *)
Definition before (d0 d' : content) : Prop :=
  root_dir boot d' = root_dir boot d0 ∧ ∀ l, intact d0 d' l.

(** The file is there: one slot of the directory is its entry now, the entry
    leads to the contents, and every chain is intact that is neither the
    directory's nor shares a cluster with what the file had before. *)
Definition after (d0 d' : content) (nm contents : list Z) (e : DirectoryEntry) : Prop :=
  ∃ enc s a existing new,
    encode_name nm = Some enc ∧
    well_placed enc (root_dir boot d0).1 (s, a, existing) ∧
    root_dir boot d' = (replace_at s a new <$> (root_dir boot d0).1, (root_dir boot d0).2) ∧
    decode_slot new = SlotEntry e ∧ is_directory e = false ∧ esize e = len contents ∧
    (∀ nm' enc', encode_name nm' = Some enc' → is_named e nm' = true ↔ enc' = enc ∧ bare_dot nm' = false) ∧
    file_content (E:=E) boot d' e = Some contents ∧
    ∀ l, (∀ x, x ∈ l → ¬ reach boot d0 (root_cluster boot) x ∧ ¬ old_chain boot d0 existing x) → intact d0 d' l.

(** A volume [write_file] can be trusted with: its root directory ends, and
    what a file of this name has now is not part of the directory. *)
Record writable (d0 : content) (nm : list Z) : Prop := {
  wr_disk : disk_ok d0;
  wr_root : ∃ root, chain boot d0 (root_cluster boot) root;
  wr_apart : ∀ enc p old x, encode_name nm = Some enc → well_placed enc (root_dir boot d0).1 (p, Some old) →
    old_chain boot d0 (Some old) x → ¬ reach boot d0 (root_cluster boot) x
}.

(** ** Lemmas on chains *)
Lemma chain_fat d d' c l : (∀ x, has boot x → fat boot d' x = fat boot d x) → chain boot d c l → chain boot d' c l.
Proof.
  intros Hf. induction 1 as [c Hc He|c c' l Hc He Hl IH]; [apply ChainEnd|eapply ChainNext]; try done; by rewrite Hf.
Qed.

Lemma chain_walk {X} d c l : chain boot d c l → walk (E:=X) boot d (length l) c = Ok l.
Proof.
  induction 1 as [c Hc He|c c' l Hc He Hl IH]; [simpl; by rewrite decide_True|].
  cbn [length]. destruct (chain_head boot d c' l Hl) as [l' ->]. cbn [length] in *.
  rewrite walk_S, decide_True, He by done. by rewrite IH.
Qed.

Lemma chain_dir_same P d d' n c l :
  same_on boot P d d' → chain boot d c l → Forall P l → dir boot d' n c = dir boot d n c.
Proof.
  intros Hs Hl. revert n. induction Hl as [c Hc He|c c' l Hc He Hl IH]; intros n HP; apply Forall_cons in HP as [HPc HPl].
  - destruct n as [|[|n]]; [done| |].
    + unfold dir. rewrite !decide_True by done. by rewrite (same_slots boot P d d').
    + rewrite !dir_S, !decide_True, (same_fat boot Hg P d d'), He, (same_slots boot P d d') by done. done.
  - destruct n as [|[|n]]; [done| |].
    + unfold dir. rewrite !decide_True by done. by rewrite (same_slots boot P d d').
    + rewrite !dir_S, !decide_True, (same_fat boot Hg P d d'), He, (same_slots boot P d d') by done.
      by rewrite IH.
Qed.

Lemma same_intact P d d' l : same_on boot P d d' → Forall P l → intact d d' l.
Proof.
  intros Hs HP c Hl. split; [by apply (same_chain boot Hg P d d')|].
  apply (same_datas boot P d d' Hs); [by eapply chain_has|done].
Qed.

Lemma same_before d0 d' (cs root : list Z) :
  chain boot d0 (root_cluster boot) root → (∀ c, c ∈ cs → fat boot d0 c = EntryFree) →
  same_on boot (λ c, c ∉ cs) d0 d' → before d0 d'.
Proof.
  intros Hroot Hcs Hs.
  assert (∀ c l, chain boot d0 c l → Forall (λ c, c ∉ cs) l) as Htaken.
  { intros c l Hl. eapply Forall_impl; [by eapply chain_taken|]. intros x Hx Hin. by apply Hx, Hcs. }
  split.
  - eapply chain_dir_same; [done|exact Hroot|by eapply Htaken].
  - intros l c Hl. by apply (same_intact _ _ _ _ Hs (Htaken c l Hl)).
Qed.

(** ** The two sides of the commit *)
Section committed.
  Context (nm contents : list Z) (i i1 i2 i' : Image) (enc cs : list Z) (s : Z) (k : nat).
  Context (existing : option DirectoryEntry) (e : DirectoryEntry) (r0 : res (WriteError E) ()).
  Context (Hcm : committed boot nm contents i i1 i2 i' enc cs s k existing e r0).
  Context (Hw : writable (now i) nm) (Hlen : len contents < 2 ^ 32).

Lemma cs_free c : c ∈ cs → has boot c ∧ fat boot (now i) c = EntryFree.
Proof.
  intros Hc. apply (free_list_spec boot). rewrite (cm_cs _ _ _ _ _ _ _ _ _ _ _ _ _ _ Hcm) in Hc.
  by apply elem_of_take in Hc as (? & Hc%list_elem_of_lookup_2 & _).
Qed.

Lemma commit_later : later i i1 ∧ later i1 i2 ∧ later i2 i'.
Proof.
  destruct Hcm as [_ _ _ _ _ _ _ [[? _] _ _] -> _ [[? _] _ _ _]]. split; [done|]. split; [apply later_write|done].
Qed.

Lemma between_before j : later i j → later j i1 → before (now i) (now j).
Proof.
  intros H1 H2. destruct (wr_root _ _ Hw) as [root Hroot]. eapply (same_before _ _ cs root); [done|by intros c [_ ?]%cs_free|].
  eapply same_on_mono; [|eapply (steps_same boot Hg cs (λ _, False))].
  - intros c Hc. split; [done|tauto].
  - apply Hw.
  - by apply (cm_filled _ _ _ _ _ _ _ _ _ _ _ _ _ _ Hcm).
Qed.

Lemma between_after j : later i2 j → later j i' → disk_ok (now j) ∧ after (now i) (now j) nm contents e.
Proof.
  intros H1 H2. pose proof cs_free as Hcsf. pose proof Hw as [Hd [root Hroot] Hapart].
  pose proof Hcm as [Hname Hplace Hk Hfile Hfew Hcs Hl Hfilled Hput Hentry [Hruns _ _ _]].
  destruct (filled_same boot Hg contents cs i i1 Hd Hfilled) as [Hd1 Hs1]. destruct Hfilled as [_ Hchain Hparts].
  destruct (well_placed_at boot Hg Hmax Hinfo (now i) root enc s _ existing Hd Hroot Hplace)
    as (k' & y & o & _ & Ha & Hy & Hhy & Ho & Hsec).
  assert (∀ c l, chain boot (now i) c l → Forall (λ c, c ∉ cs) l) as Htaken.
  { intros c l Hcl. eapply Forall_impl; [by eapply chain_taken|]. intros x Hx Hin. by apply Hx, Hcsf. }
  pose proof (new_slot_length nm enc cs contents Hname) as Hnl.
  assert (bytes_ok (new_slot enc cs contents)) as Hnb by (by eapply encode_entry_ok).
  assert (now i2 = put (now i1) s k (new_slot enc cs contents)) as Hi2 by (rewrite Hput; apply now_written).
  set (given := λ x, old_chain boot (now i) existing x ∧ x ∉ cs).
  assert (disk_ok (now i2)) as Hd2 by (rewrite Hi2; by apply put_ok).
  assert (same_on boot (λ x, ¬ given x) (now i2) (now j)) as Hs2.
  { eapply same_on_mono; [|eapply (steps_same boot Hg [] given); [done|by apply Hruns]].
    intros c Hc. split; [apply not_elem_of_nil|done]. }
  assert (same_on boot (λ x, x ≠ y) (now i1) (now i2)) as Hsput by (rewrite Hi2; by apply (put_same boot Hg _ _ _ _ y o)).
  assert (∀ x, has boot x → fat boot (now i2) x = fat boot (now i1) x) as Hfat2
    by (intros x Hx; rewrite Hi2; by apply (fat_put boot Hg _ _ _ _ y o)).
  assert (Forall (has boot) cs) as Hhcs by (apply Forall_forall; intros c Hc; by apply Hcsf).
  destruct (new_slot_decode boot Hg nm enc cs contents Hname Hlen Hhcs) as (e' & base & ext & Hdec & -> & Hh & Hee).
  assert (e' = e) as -> by congruence.
  split; [eapply steps_ok; [exact Hd2|by apply Hruns]|].
  exists (padded base ext), s, (Z.of_nat k * 32), existing, (new_slot (padded base ext) cs contents).
  split_and!; [done|done| |done|by subst e|by subst e| | |].
  - transitivity (root_dir boot (now i2)).
    + apply (chain_dir_same (λ x, ¬ given x)) with root; [done| |].
      * eapply chain_fat; [exact Hfat2|]. eapply (same_chain boot Hg); [exact Hs1|done|by eapply Htaken].
      * apply Forall_forall. intros x Hx [Hold _]. destruct existing as [old|]; [|done].
        eapply (Hapart _ _ old x Hname Hplace); [exact Hold|]. by eapply chain_reach.
    + rewrite Hi2. rewrite (root_dir_put boot Hg _ Hd1 s k Hk _ Hnl Hnb y o Hsec Hhy Ho).
      assert (root_dir boot (now i1) = root_dir boot (now i)) as ->; [|done].
      apply (chain_dir_same (λ c, c ∉ cs)) with root; [done|done|by eapply Htaken].
  - intros nm' enc' (base' & ext' & -> & Hh')%encode_halves. subst e. rewrite (named_iff nm) by done. naive_solver.
  - unfold file_content. subst e. cbn [esize first_cluster file_entry].
    change (div_ceil (len contents) cb) with (needed_for boot contents).
    destruct (Z.eqb_spec (len contents) 0) as [H0len|H0len]; [by destruct contents|].
    pose proof (clusters_bound boot Hg). unfold MAX_FILE_CLUSTERS in Hfew.
    destruct (Z.ltb_spec (clusters boot + 1) (needed_for boot contents)); [lia|].
    destruct cs as [|c cs']; [exfalso|].
    { pose proof (div_ceil_pos boot Hg (len contents) ltac:(pose proof (len_nonneg contents); lia)) as Hpos.
      unfold needed_for in Hl. change (len (@nil Z)) with 0 in Hl. lia. }
    assert (∀ x, x ∈ c :: cs' → x ≠ y) as Hney.
    { intros x Hx ->. destruct (Hcsf y Hx) as [_ Hfree]. pose proof (chain_taken boot (now i) _ _ Hroot) as Ht.
      rewrite Forall_forall in Ht. by apply (Ht y). }
    assert (chain boot (now j) c (c :: cs')) as Hcj.
    { eapply (same_chain boot Hg); [exact Hs2|by eapply chain_fat|].
      apply Forall_forall. intros x Hx [_ Hn]. done. }
    cbn [default head]. rewrite <-Hl. unfold len at 1. rewrite Nat2Z.id.
    rewrite (chain_walk _ _ _ Hcj). f_equal. unfold len at 1. rewrite Nat2Z.id.
    apply (filled_content boot Hg).
    + eapply steps_ok; [exact Hd2|]. by apply Hruns.
    + done.
    + intros m x Hx. assert (x ∈ c :: cs') as Hxin by (by eapply list_elem_of_lookup_2).
      assert (has boot x) as Hhx by (by apply Hcsf).
      eapply holds_part_same; [exact Hs2|done|intros [_ ?]; done|].
      eapply holds_part_same; [exact Hsput|done|by apply Hney|]. by apply Hparts.
  - intros l Hapartl c Hcl. pose proof (Htaken c l Hcl) as Ht.
    assert (Forall (λ x, x ≠ y) l) as Hny.
    { apply Forall_forall. intros x Hx ->. destruct (Hapartl y Hx) as [Hr _]. apply Hr. by eapply chain_reach. }
    assert (Forall (λ x, ¬ given x) l) as Hng.
    { apply Forall_forall. intros x Hx [Hold _]. by destruct (Hapartl x Hx) as [_ ?]. }
    destruct (same_intact _ _ _ _ Hs1 Ht c Hcl) as [Hc1 E1].
    destruct (same_intact _ _ _ _ Hsput Hny c Hc1) as [Hc2 E2].
    destruct (same_intact _ _ _ _ Hs2 Hng c Hc2) as [Hc3 E3]. split; [done|]. by rewrite E3, E2, E1.
Qed.
End committed.

Lemma image_of d : ∃ i, d = now i.
Proof. by exists {| origin := d; log := [] |}. Qed.

Lemma before_refl d : before d d.
Proof. split; [done|]. intros l c Hl. done. Qed.

(** Every moment of a write is before or after the commit. *)
Lemma committed_split nm contents i i1 i2 i' enc cs s k existing e r0 j :
  committed (E:=E) boot nm contents i i1 i2 i' enc cs s k existing e r0 →
  writable (now i) nm → len contents < 2 ^ 32 → later i j → later j i' →
  before (now i) (now j) ∨ after (now i) (now j) nm contents e.
Proof.
  intros Hcm Hw Hlen H1 H2. destruct (commit_later _ _ _ _ _ _ _ _ _ _ _ _ _ Hcm) as (L1 & L2 & L3).
  destruct (later_total i i' j i1) as [Hj|Hj]; [done..|by do 2 (etransitivity; [done|])| |].
  - left. by eapply between_before.
  - destruct (later_total i1 i' j i2) as [Hj2|Hj2]; [done..| |].
    + rewrite (cm_put _ _ _ _ _ _ _ _ _ _ _ _ _ _ Hcm) in Hj2.
      destruct (written_between _ _ _ _ Hj Hj2) as [-> | ->]; [left; by eapply between_before|].
      right. eapply between_after; [done..| |].
      * by rewrite (cm_put _ _ _ _ _ _ _ _ _ _ _ _ _ _ Hcm).
      * by rewrite <-(cm_put _ _ _ _ _ _ _ _ _ _ _ _ _ _ Hcm).
    + right. by eapply between_after.
Qed.

(** What a write comes to, whatever the device does. *)
Lemma write_file_moments s nm contents :
  writable (view s) nm → bytes_ok contents → len contents < 2 ^ 32 →
  ∃ r s', write_file (E:=E) boot nm contents s = (r, s') ∧
    match r with
    | Ok e => disk_ok (view s') ∧ after (view s) (view s') nm contents e
    | Err _ => before (view s) (view s') ∨ ∃ e, after (view s) (view s') nm contents e
    | Panic | Diverge => False
    end.
Proof.
  intros Hw Hb Hlen. destruct (image_of (view s)) as [i Hi]. rewrite Hi in Hw |- *.
  destruct (wr_root _ _ Hw) as [root Hroot].
  destruct (write_file_run (E:=E) boot Hg Hmax Hinfo nm contents i root) as (r & i' & Hrun & Hcase); [by apply Hw|done..|].
  destruct (follows_write_file (S:=S) (E:=E) boot nm contents) as [Hlater Hf]. specialize (Hlater i).
  destruct (Hf s i Hi) as (r' & s' & Hr' & Hs'). rewrite Hrun in *. cbn [fst snd] in *.
  exists r', s'. split; [done|]. destruct Hcase as [(-> & e & -> & _)|(i1 & i2 & enc & cs & p & k & ex & e & r0 & Hcm & ->)].
  - destruct Hs' as [[-> ->]|(e' & j & -> & _ & Hj1 & Hj2 & ->)].
    + left. apply before_refl.
    + left. rewrite (later_antisym _ _ Hj1 Hj2). apply before_refl.
  - destruct Hs' as [[-> ->]|(e' & j & -> & _ & Hj1 & Hj2 & ->)].
    + assert (disk_ok (now i') ∧ after (now i) (now i') nm contents e) as Hafter.
      { eapply between_after; [done..| |done]. by apply (commit_later _ _ _ _ _ _ _ _ _ _ _ _ _ Hcm). }
      destruct (gu_answer _ _ _ _ _ _ _ (cm_given _ _ _ _ _ _ _ _ _ _ _ _ _ _ Hcm)) as [->|(x & -> & _)]; [done|].
      right. eexists. by apply Hafter.
    + destruct (committed_split _ _ _ _ _ _ _ _ _ _ _ _ _ j Hcm Hw Hlen Hj1 Hj2); [by left|right; by eexists].
Qed.

Lemma write_file_after s nm contents e s1 :
  writable (view s) nm → bytes_ok contents → len contents < 2 ^ 32 →
  write_file (E:=E) boot nm contents s = (Ok e, s1) →
  disk_ok (view s1) ∧ after (view s) (view s1) nm contents e.
Proof.
  intros Hw Hb Hlen Hrun. destruct (write_file_moments s nm contents Hw Hb Hlen) as (r & s' & Hr & Hcase).
  rewrite Hrun in Hr. by injection Hr as <- <-.
Qed.

Lemma steps_data_same freed d d' : rtc (step boot [] freed) d d' → data_same boot d d'.
Proof.
  intros Hs c o Hc Ho. induction Hs as [|d d1 d' H1 _ IH]; [done|]. rewrite IH.
  destruct H1 as [c' o' bytes Hin _ _ _|c' t v Hin Hc' Ht|n bytes Hn Hb].
  - by apply not_elem_of_nil in Hin.
  - rewrite fn_lookup_insert_ne; [done|]. by apply (table_not_data boot Hg).
  - rewrite fn_lookup_insert_ne; [done|]. by apply (info_not_data boot Hg).
Qed.

(** Setting the entry of a cluster sets it in every copy of the table,
    keeps the four bits that are reserved, and touches nothing else: no other
    entry, no byte of any cluster.  A number that is no cluster of the volume
    is refused with nothing written, and when the device fails half way the
    damage is confined to that one entry. *)
Theorem fat_set_next_exact s c v :
  disk_ok (view s) → 2 ≤ v < 0x0FFFFFF7 ∨ v = 0 ∨ v = END_OF_CHAIN →
  ∃ r s', set_next_cluster (E:=E) boot c v s = (r, s') ∧
    match r with
    | Ok _ => has boot c ∧ data_same boot (view s) (view s') ∧
        fat boot (view s') c = (if v =? 0 then EntryFree else if v =? END_OF_CHAIN then EntryEnd else EntryNext v) ∧
        ∀ t c', table_no boot t → has boot c' →
          raw boot t (view s') c' =
            if decide (c' = c)
            then Z.lor (Z.land (raw boot t (view s) c) 0xF0000000) (Z.land v 0x0FFFFFFF)
            else raw boot t (view s) c'
    | Err (Reading (BadCluster x)) => x = c ∧ ¬ has boot c ∧ view s' = view s
    | Err (WDevice _) | Err (Reading (Device _)) =>
        data_same boot (view s) (view s') ∧
        ∀ t c', table_no boot t → has boot c' → c' ≠ c → raw boot t (view s') c' = raw boot t (view s) c'
    | _ => False
    end.
Proof.
  intros Hd Hv. destruct (image_of (view s)) as [i Hi]. rewrite Hi in Hd |- *.
  destruct (follows_set_next_cluster (S:=S) (E:=E) boot c v) as [Hlater Hf].
  destruct (Hf s i Hi) as (r & s' & Hr & Hcase). exists r, s'. split; [done|].
  destruct (decide (has boot c)) as [Hc|Hc].
  2:{ assert (set_next_cluster (E:=E) boot c v i = (Err (Reading (BadCluster c)), i)) as Hrun.
      { unfold set_next_cluster. by rewrite (has_cluster_false boot Hg). }
      rewrite Hrun in Hcase. cbn [fst snd] in Hcase.
      destruct Hcase as [[-> Hs]|(e & j & -> & He & L1 & L2 & Hs)]; [done|].
      rewrite (later_antisym _ _ L1 L2) in Hs. rewrite Hs. by destruct He as [[x ->]|[x ->]]. }
  destruct (set_next_run (E:=E) boot Hg [] (eq c) c v i Hd Hc ltac:(by right)) as (i' & Hrun & Hruns & Hdata & Hraw).
  rewrite Hrun in Hcase. cbn [fst snd] in Hcase. destruct Hcase as [[-> Hs]|(e & j & -> & He & L1 & L2 & Hs)].
  - rewrite Hs. split_and!; [done|done| |exact Hraw]. unfold fat. rewrite Hraw by (done || apply (table_zero boot Hg)).
    rewrite decide_True, decode_merge by done. destruct Hv as [Hv|[->| ->]]; [|done..].
    rewrite (decode_next v Hv). destruct (Z.eqb_spec v 0), (Z.eqb_spec v END_OF_CHAIN); unfold END_OF_CHAIN in *; lia || done.
  - assert (rtc (step boot [] (eq c)) (now i) (now j)) as Hsteps by (by apply Hruns).
    rewrite Hs. assert (data_same boot (now i) (now j) ∧ ∀ t c', table_no boot t → has boot c' → c' ≠ c →
      raw boot t (now j) c' = raw boot t (now i) c') as Hgoal.
    { split; [by eapply steps_data_same|]. intros t c' Ht Hc' Hne.
      apply (steps_same boot Hg [] (eq c) (now i) (now j) Hd Hsteps c'); [done| |done].
      split; [apply not_elem_of_nil|by intros ->]. }
    by destruct He as [[x ->]|[x ->]].
Qed.

(** C16: Writing a file is all or nothing, on any device, at whatever request
    that device fails or stops: the volume afterwards either has the root
    directory it had and every file intact, or has exactly one slot of the
    directory replaced by the entry of the new file, whose content is then
    exactly the bytes asked for, with every other file intact.  An answer of
    [Ok] is the second case, and [write_file] neither panics nor runs
    forever. *)
Theorem fat_write_file_atomic s nm contents :
  writable (view s) nm → bytes_ok contents → len contents < 2 ^ 32 →
  ∃ r s', write_file (E:=E) boot nm contents s = (r, s') ∧
    match r with
    | Ok e => after (view s) (view s') nm contents e
    | Err _ => before (view s) (view s') ∨ ∃ e, after (view s) (view s') nm contents e
    | Panic | Diverge => False
    end.
Proof.
  intros Hw Hb Hlen. destruct (write_file_moments s nm contents Hw Hb Hlen) as (r & s' & Hr & Hcase).
  exists r, s'. split; [done|]. by destruct r; [apply Hcase|..].
Qed.

(** C17: The answer of [write_file] says what happened, on any device: each
    refusal has its reason (the name, the directory full of other names, a
    directory of that name, too many clusters for one file, not enough free
    ones) and then nothing at all was written; after [Ok] the clusters of the
    replaced file are free again, provided its chain ended, and FSInfo counts
    the free clusters exactly; and the only other errors are the device's own
    and a link of the replaced file that leaves the volume, which says that
    the new file is in place all the same. *)
Theorem fat_write_file_answers s nm contents :
  writable (view s) nm → bytes_ok contents → len contents < 2 ^ 32 →
  ∃ r s', write_file (E:=E) boot nm contents s = (r, s') ∧
    match r with
    | Ok _ =>
        needed_for boot contents ≤ MAX_FILE_CLUSTERS ∧
        needed_for boot contents ≤ len (free_list boot (view s)) ∧
        info_exact boot (view s') ∧
        ∀ enc p old l, encode_name nm = Some enc →
          well_placed enc (root_dir boot (view s)).1 (p, Some old) →
          first_cluster old ≠ 0 → chain boot (view s) (first_cluster old) l →
          ∀ x, x ∈ l → fat boot (view s') x = EntryFree
    | Err (WDevice _) | Err (Reading (Device _)) => True
    | Err (Reading (BadCluster x)) =>
        (∃ e, after (view s) (view s') nm contents e) ∧ ¬ has boot x ∧
        ∃ enc p old, encode_name nm = Some enc ∧
          well_placed enc (root_dir boot (view s)).1 (p, Some old) ∧ old_chain boot (view s) (Some old) x
    | Err e => view s' = view s ∧ refused boot (view s) nm contents e
    | Panic | Diverge => False
    end.
Proof.
  intros Hw Hb Hlen. destruct (image_of (view s)) as [i Hi]. rewrite Hi in Hw |- *.
  destruct (wr_root _ _ Hw) as [root Hroot].
  destruct (write_file_run (E:=E) boot Hg Hmax Hinfo nm contents i root) as (r & i' & Hrun & Hcase); [by apply Hw|done..|].
  destruct (follows_write_file (S:=S) (E:=E) boot nm contents) as [_ Hf].
  destruct (Hf s i Hi) as (r' & s' & Hr' & Hs'). rewrite Hrun in *. cbn [fst snd] in *.
  exists r', s'. split; [done|].
  destruct Hs' as [[-> ->]|(e' & j & -> & [[x ->]|[x ->]] & _)]; [|done..].
  destruct Hcase as [(-> & e & -> & Href)|(i1 & i2 & enc & cs & p & k & ex & e & r0 & Hcm & ->)].
  { by destruct e as [[]| | | | | |]. }
  assert (disk_ok (now i') ∧ after (now i) (now i') nm contents e) as [_ Hafter].
  { eapply between_after; [done..| |done]. by apply (commit_later _ _ _ _ _ _ _ _ _ _ _ _ _ Hcm). }
  pose proof (cs_free _ _ _ _ _ _ _ _ _ _ _ _ _ Hcm) as Hcsf.
  destruct Hcm as [Hname Hplace Hk Hfile Hfew Hcs Hl Hfilled Hput Hentry [_ Hanswer Hfreed Hinf]].
  destruct Hanswer as [->|(x & -> & Hold & Hx)].
  - cbn [mbind res_bind]. split_and!; [done| |by apply Hinf|].
    + rewrite <-Hl, Hcs. unfold len. rewrite length_take. lia.
    + intros enc' q old l Hname' Hq H0' Hch. assert (enc' = enc) as -> by congruence.
      pose proof (well_placed_det _ _ _ _ Hplace Hq) as Hex. cbn [snd] in Hex. subst ex.
      eapply (Hfreed old l); [done..|]. intros x Hx Hxcs. destruct (Hcsf x Hxcs) as [_ Hfree].
      pose proof (chain_taken boot (now i) _ _ Hch) as Ht. rewrite Forall_forall in Ht. by apply (Ht x).
  - cbn [mbind res_bind]. split; [by eexists|]. split; [done|]. destruct ex as [old|]; [|done].
    exists enc, (p, Z.of_nat k * 32), old. done.
Qed.
End volume.

(** ** An example volume

    The one of the reading theorems, whose root directory now names its only
    file [A], in clusters 3 and 4. *)
Definition encoded_a : list Z := 65 :: replicate 10 32.

Definition written_disk : content := λ n,
  if n =? 1072 then encode_entry encoded_a 3 700 ++ replicate 480 0 else example_disk n.

Lemma written_disk_ok : disk_ok written_disk.
Proof.
  intros n. unfold written_disk. case_match; [|apply example_disk_ok].
  split; [vm_compute; reflexivity|]. refine (bool_decide_unpack _ _). vm_compute. exact I.
Defined.

Lemma example_has c : 2 ≤ c < 65930 → has example_boot c.
Proof. unfold has. change (clusters example_boot) with 65928. unfold FIRST_DATA_CLUSTER. lia. Qed.

Lemma written_root : chain example_boot written_disk (root_cluster example_boot) [2].
Proof. change (root_cluster example_boot) with 2. apply ChainEnd; [by apply example_has|by vm_compute]. Qed.

Lemma written_file_chain : chain example_boot written_disk 3 [3; 4].
Proof.
  eapply ChainNext; [by apply example_has|by vm_compute|]. apply ChainEnd; [by apply example_has|by vm_compute].
Qed.

Lemma written_slots :
  Forall (λ x, match decode_slot x.2 with SlotEntry e => first_cluster e = 3 ∧ x.2 = encode_entry encoded_a 3 700
               | SlotEnd => True | SlotSkip => False end)
    (root_dir example_boot written_disk).1.
Proof.
  assert (forallb (λ x, match decode_slot x.2 with
      SlotEntry e => bool_decide (first_cluster e = 3 ∧ x.2 = encode_entry encoded_a 3 700)
      | SlotEnd => true | SlotSkip => false end) (root_dir example_boot written_disk).1 = true) as Hall
    by (vm_compute; reflexivity).
  apply Forall_forall. intros x Hx. rewrite forallb_forall in Hall. specialize (Hall x).
  rewrite <-list_elem_of_In in Hall. specialize (Hall Hx).
  destruct (decode_slot x.2); [by apply bool_decide_eq_true in Hall|done|done].
Qed.

(** [A] is where the writer looks for it. *)
Lemma written_first : ∃ old p, first_cluster old = 3 ∧ well_placed encoded_a (root_dir example_boot written_disk).1 (p, Some old).
Proof.
  assert (snd <$> head (root_dir example_boot written_disk).1 = Some (encode_entry encoded_a 3 700)) as Hh by (vm_compute; reflexivity).
  destruct (root_dir example_boot written_disk).1 as [|[p slot] l2] eqn:El; [discriminate Hh|]. cbn in Hh. injection Hh as Hs. subst slot.
  destruct (decode_slot (encode_entry encoded_a 3 700)) as [e| |] eqn:Ed; [|vm_compute in Ed; discriminate Ed..].
  exists e, p. split; [vm_compute in Ed; injection Ed as <-; reflexivity|].
  exists [], (encode_entry encoded_a 3 700), l2. split; [reflexivity|]. split; [constructor|]. split; [constructor|].
  split; [|discriminate]. split; [exact Ed|vm_compute; reflexivity].
Qed.

Lemma example_writable nm : writable example_boot written_disk nm.
Proof.
  split; [apply written_disk_ok|exists [2]; apply written_root|].
  intros enc p old x _ (l1 & slot & l2 & Hl & _ & _ & [Hold _] & _) [_ Hx] Hr. cbn [fst snd] in *.
  pose proof written_slots as Hs. rewrite Hl in Hs. apply Forall_app in Hs as [_ [Hs _]%Forall_cons].
  cbn [snd] in Hs. rewrite Hold in Hs. destruct Hs as [Hs _]. rewrite Hs in Hx.
  pose proof (reach_chain _ example_geometry _ _ _ x written_file_chain Hx) as H34.
  pose proof (reach_chain _ example_geometry _ _ _ x written_root Hr) as H2.
  clear -H34 H2. set_solver.
Qed.

(** The device fails at its eighth request. *)
Lemma fat_write_file_atomic_witness :
  ∃ r s', write_file example_boot [97] [1; 2; 3] {| disk := written_disk; left := 7 |} = (r, s') ∧
    match r with
    | Ok e => after (E:=()) example_boot written_disk (view s') [97] [1; 2; 3] e
    | Err _ => before example_boot written_disk (view s') ∨
        ∃ e, after (E:=()) example_boot written_disk (view s') [97] [1; 2; 3] e
    | Panic | Diverge => False
    end.
Proof.
  refine (fat_write_file_atomic example_boot example_geometry _ _ (E:=())
    {| disk := written_disk; left := 7 |} [97] [1; 2; 3] _ _ _).
  - vm_compute. intros Hx. discriminate Hx.
  - vm_compute. intros Hx. discriminate Hx.
  - exact (example_writable [97]).
  - refine (bool_decide_unpack _ _). vm_compute. exact I.
  - vm_compute. reflexivity.
Defined.

(** [A], which is in the clusters 3 and 4, is replaced: both are free. *)
Lemma fat_write_file_answers_witness :
  ∃ e s', write_file (E:=()) example_boot [97] [1; 2; 3] {| disk := written_disk; left := 5000 |} = (Ok e, s') ∧
    info_exact example_boot (view s') ∧ fat example_boot (view s') 3 = EntryFree ∧ fat example_boot (view s') 4 = EntryFree.
Proof.
  destruct (fat_write_file_answers example_boot example_geometry ltac:(vm_compute; intros Hx; discriminate Hx)
    ltac:(vm_compute; intros Hx; discriminate Hx) (E:=())
    {| disk := written_disk; left := 5000 |} [97] [1; 2; 3]) as (r & s' & Hr & Hcase).
  - exact (example_writable [97]).
  - refine (bool_decide_unpack _ _). vm_compute. exact I.
  - vm_compute. reflexivity.
  - assert (match (write_file (E:=()) example_boot [97] [1; 2; 3] {| disk := written_disk; left := 5000 |}).1 with Ok _ => true | _ => false end = true) as Hok
      by (vm_compute; reflexivity).
    rewrite Hr in Hok. destruct r as [e| | |]; [|discriminate Hok..]. exists e, s'. split; [exact Hr|].
    destruct Hcase as (_ & _ & Hinfo & Hfree). split; [exact Hinfo|]. destruct written_first as (old & p & Hold & Hp).
    assert (∀ x, x ∈ [3; 4] → fat example_boot (view s') x = EntryFree) as Hboth.
    { apply (Hfree encoded_a p old [3; 4]); [vm_compute; reflexivity|exact Hp|by rewrite Hold|rewrite Hold; exact written_file_chain]. }
    split; apply Hboth; [left|right; left].
Defined.

Lemma fat_set_next_exact_witness :
  ∃ r s', set_next_cluster (E:=()) example_boot 9 4 {| disk := written_disk; left := 3 |} = (r, s').
Proof.
  destruct (fat_set_next_exact example_boot example_geometry (E:=()) {| disk := written_disk; left := 3 |} 9 4)
    as (r & s' & Hr & _).
  - exact written_disk_ok.
  - left. vm_compute. split; [intros Hx; discriminate Hx|reflexivity].
  - exists r, s'. exact Hr.
Defined.
