(* ===== verification/FatBack.v ===== *)
(** * FAT32: finding and reading what was written

    [find] and [read_file] after [write_file]. *)

From S2P Require Import Prelude Words Bytes FatFormat FatVolume FatFormatThms FatDisk FatRead FatReadThms FatDir FatFrame FatWrite FatPlace FatFile FatWriteThms.
Local Open Scope Z_scope.

#[local] Existing Instance has_dec.

(** One slot of [find]. *)
Definition find_step (nm : list Z) : option DirectoryEntry → placed → option DirectoryEntry + option DirectoryEntry :=
  root_step (λ found entry, if is_named entry nm then (Some entry, false) else (found, true)).

(** Once the end mark comes, there is nothing but end marks. *)
Fixpoint tidy (l : list placed) : Prop :=
  match l with
  | [] => True
  | x :: l => match decode_slot x.2 with SlotEnd => Forall (λ y, decode_slot y.2 = SlotEnd) l | _ => tidy l end
  end.

Lemma tidy_app l1 x l2 :
  tidy (l1 ++ x :: l2) → Forall (λ y, decode_slot y.2 ≠ SlotEnd) l1 → decode_slot x.2 = SlotEnd →
  Forall (λ y, decode_slot y.2 = SlotEnd) l2.
Proof.
  intros Ht Hl Hx. induction Hl as [|y l1 Hy Hl IH]; cbn [app tidy] in Ht; [by rewrite Hx in Ht|].
  apply IH. by destruct (decode_slot y.2).
Qed.

Lemma scan_ext {A B R} (h h' : B → A → B + R) l b :
  (∀ b a, a ∈ l → h b a = h' b a) → scan h l b = scan h' l b.
Proof.
  revert b; induction l as [|a l IH]; intros b Hh; [done|]. cbn [scan]. rewrite Hh by (by left).
  destruct (h' b a); [|done]. apply IH. intros; apply Hh. by right.
Qed.

(** A scan that finds nothing either way. *)
Lemma scan_nothing nm l :
  Forall (λ x, find_step nm None x = inl None ∨ find_step nm None x = inr None) l →
  scan (find_step nm) l None = inl None ∨ scan (find_step nm) l None = inr None.
Proof.
  induction 1 as [|x l Hx Hl IH]; [by left|]. cbn [scan]. destruct Hx as [-> | ->]; [done|by right].
Qed.

Section scans.
  Context (nm : list Z) (base ext : list Z) (Hh : halves nm base ext).
  Context (s a : Z) (slot new : list Z) (e : DirectoryEntry) (existing : option DirectoryEntry).
  Context (Hnew : decode_slot new = SlotEntry e).
  Context (l l1 l2 : list placed) (Hl : l = l1 ++ (s, a, slot) :: l2).
  Context (Hl1 : Forall (passed (padded base ext)) l1) (Hne : Forall (λ x, x.2 ≠ slot) l1).
  Context (Hfits : fits (padded base ext) slot existing).
  Context (Hat : ∀ x, x ∈ l → x.1 = (s, a) → x.2 = slot).
  Context (Hplain : Forall (λ x, plain x.2) l).

Lemma find_step_entry nm' found x e' : decode_slot x.2 = SlotEntry e' →
  find_step nm' found x = if is_named e' nm' then inr (Some e') else inl found.
Proof. intros Hx. unfold find_step, root_step. rewrite Hx. by destruct (is_named e' nm'). Qed.

Lemma passed_step found x : x ∈ l1 → bare_dot nm = false → find_step nm found x = inl found.
Proof.
  intros Hx Hdot. rewrite Forall_forall in Hl1, Hplain. destruct (Hl1 x Hx) as [Hend Hname].
  destruct (decode_slot x.2) as [e'| |] eqn:Hd; [|unfold find_step, root_step; by rewrite Hd|done].
  rewrite (find_step_entry nm found x e' Hd).
  rewrite (plain_named x.2 e' nm base ext); [by rewrite (Hname e' eq_refl)| |done..].
  apply (Hplain x). rewrite Hl. set_solver.
Qed.

Lemma l1_kept : replace_at s a new <$> l1 = l1.
Proof.
  rewrite <-(list_fmap_id l1) at 2. apply list_fmap_ext. intros i x Hx%list_elem_of_lookup_2. unfold replace_at.
  rewrite decide_False; [done|]. intros Heq. rewrite Forall_forall in Hne. apply (Hne x Hx), Hat; [|done].
  rewrite Hl. set_solver.
Qed.

(** The name itself leads to the new entry. *)
Lemma scan_finds :
  bare_dot nm = false → is_named e nm = true →
  scan (find_step nm) (replace_at s a new <$> l) None = inr (Some e).
Proof.
  intros Hdot Hnamed. rewrite Hl, fmap_app, l1_kept, scan_app.
  assert (scan (find_step nm) l1 None = inl None) as ->.
  { pose proof passed_step as Hp. clear -Hp Hdot. induction l1 as [|x l IH]; [done|]. cbn [scan].
    rewrite Hp by (done || by left). apply IH. intros; apply Hp; [by right|done]. }
  rewrite fmap_cons. cbn [scan]. unfold replace_at at 1. rewrite decide_True by done.
  rewrite (find_step_entry nm None _ e) by done. by rewrite Hnamed.
Qed.

(** Any other name leads where it did. *)
Lemma scan_other nm' base' ext' :
  halves nm' base' ext' → bare_dot nm' = false → padded base' ext' ≠ padded base ext →
  is_named e nm' = false → tidy l →
  scan (find_step nm') (replace_at s a new <$> l) None = scan (find_step nm') l None ∨
  (∀ x, x ∈ [scan (find_step nm') (replace_at s a new <$> l) None; scan (find_step nm') l None] → x = inl None ∨ x = inr None).
Proof.
  intros Hh' Hdot' Hdiff Hnamed Htidy.
  assert (∀ x, find_step nm' x (s, a, new) = inl x) as Hns.
  { intros x. rewrite (find_step_entry nm' x (s, a, new) e) by done. by rewrite Hnamed. }
  destruct (decode_slot slot) as [old| |] eqn:Hslot.
  3:{ (* the end mark *)
    rewrite Hl, fmap_app, l1_kept, !scan_app. destruct (scan (find_step nm') l1 None) as [[found|]|] eqn:Hscan1; [| |by left].
    { exfalso. clear -Hscan1. revert Hscan1. assert (∀ b, scan (find_step nm') l1 None = inl b → b = None) as Hn.
      { induction l1 as [|x l IH]; intros b; cbn [scan]; [by intros [= <-]|].
        unfold find_step at 1, root_step at 1. destruct (decode_slot x.2) as [e'| |]; [|apply IH|done].
        destruct (is_named e' nm'); [done|apply IH]. }
      by intros ?%Hn. }
    right. assert (Forall (λ y, decode_slot y.2 = SlotEnd) l2) as Hends.
    { eapply (tidy_app l1 (s, a, slot) l2); [by rewrite Hl in Htidy| |done]. eapply Forall_impl; [exact Hl1|]. by intros x [? _]. }
    assert (∀ x, decode_slot x.2 = SlotEnd → find_step nm' None x = inr None) as Hstep
      by (intros x Hx; unfold find_step, root_step; by rewrite Hx).
    intros x [->|[->|[]%elem_of_nil]%elem_of_cons]%elem_of_cons; [|right; cbn [scan]; by rewrite Hstep].
    apply scan_nothing. rewrite fmap_cons. constructor.
    - left. unfold replace_at. rewrite decide_True by done. apply Hns.
    - apply Forall_fmap. eapply Forall_impl; [exact Hends|]. intros y Hy. unfold compose, replace_at.
      case_decide as Heq; [|right; by apply Hstep]. left. rewrite Heq. apply Hns. }
  all: left; rewrite scan_fmap; apply scan_ext; intros b x Hx; unfold replace_at; case_decide as Heq; [|done].
  all: rewrite Heq, Hns; pose proof (Hat x Hx Heq) as Hxs; symmetry.
  - assert (names_slot slot (padded base ext) = true) as Hn.
    { destruct existing as [ex|]; [by destruct Hfits|]. destruct Hfits as [?|[? _]]; congruence. }
    rewrite (find_step_entry nm' b x old) by congruence. 
    rewrite (plain_named x.2 old nm' base' ext'); [| |congruence|done..].
    2:{ rewrite Forall_forall in Hplain. by apply (Hplain x). }
    destruct (names_slot x.2 (padded base' ext')) eqn:Hn'; [|done]. exfalso. apply Hdiff.
    rewrite Hxs in Hn'. unfold names_slot in Hn, Hn'.
    pose proof Hh as [? ? _ _ _]. pose proof Hh' as [? ? _ _ _].
    assert (plain slot) as Hps by (rewrite <-Hxs; rewrite Forall_forall in Hplain; by apply (Hplain x)).
    destruct (Hps old Hslot) as (nm0 & b0 & e0 & r & Hh0 & Hsl). pose proof Hh0 as [? ? _ _ _].
    rewrite Hsl, take_app_le, take_ge in Hn, Hn' by (rewrite padded_length; lia).
    rewrite eq_ic_upper in Hn, Hn' by (by rewrite !padded_length by lia).
    rewrite (upper_padded nm0), (upper_padded nm) in Hn by done.
    rewrite (upper_padded nm0), (upper_padded nm') in Hn' by done. congruence.
  - unfold find_step, root_step. by rewrite Hxs, Hslot.
Qed.
End scans.

Section volume.
  Context (boot : BootSector) (Hg : geometry boot).
  Context (Hmax : FIRST_DATA_CLUSTER + clusters boot ≤ 0x0FFFFFF7) (Hinfo : 0 ≤ fs_info_sector boot).
  Context {S E : Type} `{Disk S E}.

(** What [find] answers on a volume that holds [d]. *)
Definition lookup_name (d : content) (nm : list Z) : res (VolumeError E) (option DirectoryEntry) :=
  root_answer (scan (find_step nm) (root_dir boot d).1 None) (root_dir boot d).2.

Lemma find_on nm s :
  ∃ r s', find (E:=E) boot nm s = (r, s') ∧ view s' = view s ∧
    (r = lookup_name (view s) nm ∨ ∃ x, r = Err (Device x)).
Proof.
  destruct (follows_pure vol_device _ _ s (λ r, r = lookup_name (view s) nm)
    (follows_read_root (E:=E) boot (λ found entry, if is_named entry nm then (Some entry, false) else (found, true)) None))
    as (r & s' & Hr & Hv & Hcase).
  { intros i Hi. eexists. split; [by apply read_root_run|]. unfold lookup_name. by rewrite <-Hi. }
  exists r, s'. split; [done|]. split; [done|]. destruct Hcase as [->|(e & -> & x & ->)]; [by left|right; by eexists].
Qed.

Lemma root_slots_at d x : disk_ok d → x ∈ (root_dir boot d).1 → slot_at d x.
Proof. intros Hd Hx. by apply (dir_at boot Hg d (Z.to_nat (clusters boot + 1)) (root_cluster boot) x Hd). Qed.

Lemma after_lookup d0 d' nm contents e nm' enc enc' :
  writable boot d0 nm → Forall (λ x, plain x.2) (root_dir boot d0).1 → tidy (root_dir boot d0).1 →
  bare_dot nm = false → bare_dot nm' = false →
  encode_name nm = Some enc → encode_name nm' = Some enc' →
  after (E:=E) boot d0 d' nm contents e →
  lookup_name d' nm' = if decide (enc' = enc) then Ok (Some e) else lookup_name d0 nm'.
Proof.
  intros Hw Hplain Htidy Hdot Hdot' Henc Henc'
    (enc0 & s & a & existing & new & Henc0 & (l1 & slot & l2 & Hl & Hl1 & Hne & Hfits & _) & Hdir & Hnew & _ & _ & Hnamed & _).
  assert (enc0 = enc) as -> by congruence. cbn [fst snd] in *.
  destruct (encode_halves nm enc Henc) as (base & ext & -> & Hh).
  destruct (encode_halves nm' enc' Henc') as (base' & ext' & -> & Hh').
  assert (∀ x, x ∈ (root_dir boot d0).1 → x.1 = (s, a) → x.2 = slot) as Hat.
  { intros x Hx Heq. apply (slot_at_det d0 x ((s, a), slot)); [| |done].
    - apply root_slots_at; [apply Hw|done].
    - apply root_slots_at; [apply Hw|]. rewrite Hl. set_solver. }
  destruct (wr_root _ _ _ Hw) as [root Hroot]. destruct (root_dir_chain boot Hg d0 root Hroot) as [x Hfin].
  assert ((root_dir boot d0).2 = StopAt x EntryEnd) as Hend by (by rewrite Hfin).
  unfold lookup_name. rewrite Hdir. cbn [fst snd]. rewrite Hend. case_decide as Heq.
  - destruct (padded_inj _ _ _ _ _ _ Hh' Hh Heq) as [-> ->].
    rewrite (scan_finds nm' base ext Hh' s a slot new e existing Hnew _ l1 l2 Hl Hl1 Hne Hfits Hat Hplain Hdot'); [done|].
    by apply (Hnamed nm' (padded base ext)).
  - destruct (scan_other nm base ext Hh s a slot new e existing Hnew _ l1 l2 Hl Hl1 Hne Hfits Hat Hplain
      nm' base' ext' Hh' Hdot' Heq) as [->|Hnone]; [|done|done|].
    + destruct (is_named e nm') eqn:Hn; [|done]. by apply (Hnamed nm' (padded base' ext')) in Hn as [? _].
    + destruct (Hnone (scan (find_step nm') (replace_at s a new <$> (root_dir boot d0).1) None)) as [-> | ->]; [set_solver|..];
        destruct (Hnone (scan (find_step nm') (root_dir boot d0).1 None)) as [-> | ->]; set_solver || done.
Qed.

Lemma read_file_on s entry into :
  disk_ok (view s) → 0 ≤ esize entry ≤ len into →
  ∀ bytes, file_content (E:=E) boot (view s) entry = Some bytes →
  ∃ r s', read_file (E:=E) boot entry into s = (r, s') ∧ view s' = view s ∧
    (r = Ok (esize entry, fill bytes into) ∨ ∃ x, r = Err (Device x)).
Proof.
  intros Hd [Hs Hs2] bytes Hc.
  destruct (follows_pure vol_device _ _ s (λ r, r = Ok (esize entry, fill bytes into))
    (follows_read_file boot entry into)) as (r & s' & Hr & Hv & Hcase).
  { intros i Hi. eexists. split; [apply (read_file_run boot Hg); by rewrite ?Hi|]. rewrite Hi.
    destruct (Z.ltb_spec (len into) (esize entry)); [lia|].
    destruct (Z.eqb_spec (esize entry) 0) as [He|He].
    - unfold file_content in Hc. rewrite He in Hc. injection Hc as <-. by rewrite He.
    - rewrite file_content_answer by lia. by rewrite Hc. }
  exists r, s'. split; [done|]. split; [done|]. destruct Hcase as [->|(e & -> & x & ->)]; [by left|right; by eexists].
Qed.

(** C18: A file that [write_file] says is written can be had back: [find]
    under its name answers the entry that was returned, reading that entry
    into a large enough buffer gives exactly the bytes written, and every
    other name leads where it led before.  This holds for every name that
    does not end in a bare dot (a name that does is written over the file
    without the dot and then not found), and on a directory whose names are
    ones [write_file] could have stored and that has nothing after its end
    mark, as the format requires. *)
Theorem fat_write_read_roundtrip s nm contents e s1 nm' enc enc' into :
  writable boot (view s) nm → bytes_ok contents → len contents < 2 ^ 32 →
  Forall (λ x, plain x.2) (root_dir boot (view s)).1 → tidy (root_dir boot (view s)).1 →
  encode_name nm = Some enc → bare_dot nm = false →
  encode_name nm' = Some enc' → bare_dot nm' = false → len contents ≤ len into →
  write_file (E:=E) boot nm contents s = (Ok e, s1) →
  (∃ r s2, find (E:=E) boot nm' s1 = (r, s2) ∧ view s2 = view s1 ∧
     (r = (if decide (enc' = enc) then Ok (Some e) else lookup_name (view s) nm') ∨ ∃ x, r = Err (Device x))) ∧
  (∃ r s2, read_file (E:=E) boot e into s1 = (r, s2) ∧ view s2 = view s1 ∧
     (r = Ok (len contents, fill contents into) ∨ ∃ x, r = Err (Device x))).
Proof.
  intros Hw Hb Hlen Hplain Htidy Henc Hdot Henc' Hdot' Hinto Hrun.
  destruct (write_file_after boot Hg Hmax Hinfo s nm contents e s1 Hw Hb Hlen Hrun) as [Hd' Hafter]. split.
  - destruct (find_on nm' s1) as (r & s2 & Hf & Hv & Hcase). exists r, s2. split; [done|]. split; [done|].
    by rewrite (after_lookup (view s) (view s1) nm contents e nm' enc enc') in Hcase.
  - destruct Hafter as (_ & _ & _ & _ & _ & _ & _ & _ & _ & _ & Hsize & _ & Hcontent & _).
    pose proof (len_nonneg contents). destruct (read_file_on s1 e into Hd' ltac:(lia) contents Hcontent)
      as (r & s2 & Hr2 & Hv & Hcase).
    exists r, s2. split; [done|]. split; [done|]. by rewrite Hsize in Hcase.
Qed.
End volume.

(** [A] is replaced and read back, with the other name [B] not there. *)
Lemma fat_write_read_roundtrip_witness :
  ∃ e s1, write_file (E:=()) example_boot [97] [1; 2; 3] {| disk := written_disk; left := 5000 |} = (Ok e, s1) ∧
    ∃ r s2, find (E:=()) example_boot [65] s1 = (r, s2) ∧ (r = Ok (Some e) ∨ ∃ x, r = Err (Device x)).
Proof.
  destruct (write_file (E:=()) example_boot [97] [1; 2; 3] {| disk := written_disk; left := 5000 |})
    as [[e| | |] s1] eqn:Hrun.
  2,3,4: exfalso; assert (match (write_file (E:=()) example_boot [97] [1; 2; 3]
      {| disk := written_disk; left := 5000 |}).1 with Ok _ => true | _ => false end = true) as Hok
    by (vm_compute; reflexivity); rewrite Hrun in Hok; discriminate Hok.
  exists e, s1. split; [reflexivity|].
  destruct (fat_write_read_roundtrip example_boot example_geometry ltac:(vm_compute; intros Hx; discriminate Hx)
    ltac:(vm_compute; intros Hx; discriminate Hx)
    {| disk := written_disk; left := 5000 |} [97] [1; 2; 3] e s1 [65] encoded_a encoded_a [0; 0; 0; 0])
    as [(r & s2 & Hr & _ & Hcase) _].
  - exact (example_writable [97]).
  - refine (bool_decide_unpack _ _). vm_compute. exact I.
  - vm_compute. reflexivity.
  - eapply Forall_impl; [exact written_slots|]. intros x Hx e' He'. cbn beta in Hx, He'. rewrite He' in Hx. destruct Hx as [_ ->].
    destruct (encode_halves [65] encoded_a ltac:(vm_compute; reflexivity)) as (base & ext & -> & Hh).
    exists [65], base, ext. unfold encode_entry. eexists. split; [exact Hh|reflexivity].
  - vm_compute. repeat constructor.
  - vm_compute. reflexivity.
  - vm_compute. reflexivity.
  - vm_compute. reflexivity.
  - vm_compute. reflexivity.
  - vm_compute. intros Hx. discriminate Hx.
  - exact Hrun.
  - exists r, s2. split; [exact Hr|]. rewrite decide_True in Hcase by reflexivity. exact Hcase.
Defined.
