(* ===== verification/Stacks.v ===== *)
(** * Kernel stacks with guard pages

    Models [kernel/src/memory/stacks.rs], against the [PageMapper] the
    architecture implements.  [debug_assert!] is an assertion, as it is in
    the builds that are run. *)

From S2P Require Import Prelude Words PhysMem FrameAlloc Bytes Memory HalPaging.
Local Open Scope Z_scope.

Definition KERNEL_STACK_PAGES : Z := 16.
Definition DOUBLE_FAULT_STACK_PAGES : Z := 4.
Definition SYSCALL_STACK_PAGES : Z := 4.

Record KStack := { bottom : Z; top : Z }.

#[export] Instance KStack_eq_dec : EqDecision KStack.
Proof. solve_decision. Defined.

Module Stacks.
Definition size (s : KStack) : Z := Addr.saturating_sub (top s) (bottom s).

(** An operation that answers no [Result], inside one that does, and one on
    memory alone. *)
Definition lift_may {S E A} (r : may A) : dev S E A := infallible (lift r).
Definition on_mem {F E A} (m : dev Mem E A) : dev (Mem * F) E A :=
  λ s, let '(r, m) := m s.1 in (r, (m, s.2)).

(** Runs [undo] when [m] fails, and fails as it did. *)
Definition or_else {S E A} (m : dev S E A) (undo : dev S E ()) : dev S E A := λ s,
  match m s with
  | (Err err, s) => (_ ← undo; lift (Err err)) s
  | r => r
  end.

(** [if let Ok(a) = m { k(a) }]. *)
Definition if_ok {S E E' A} (m : dev S E' A) (k : A → dev S E ()) : dev S E () := λ s,
  match m s with
  | (Ok a, s) => k a s
  | (Err _, s) => (Ok (), s)
  | (Panic, s) => (Panic, s)
  | (Diverge, s) => (Diverge, s)
  end.

(** [debug_assert!(r.is_ok())]. *)
Definition must {S E E' A} (m : dev S E' A) : dev S E A := λ s,
  match m s with
  | (Ok a, s) => (Ok a, s)
  | (Err _, s) | (Panic, s) => (Panic, s)
  | (Diverge, s) => (Diverge, s)
  end.

(** [let _ = frames.deallocate_as(..)]: a refusal changes nothing and is
    ignored. *)
Definition give {E} (frame : PhysFrame) (purpose : FramePurpose) : dev (Mem * KernelFrames) E () :=
  if_ok (Zeroed.deallocate_as frame purpose) (λ _, mret ()).

Section stacks.
  Context {P : Type} `{!PageMapper P KernelFrames}.
  Local Abbreviation St := (Mem * KernelFrames)%type.

(** [Page::containing_address(bottom + index * PAGE_SIZE)]. *)
Definition page_of {E} (bottom index : Z) : dev St E Page :=
  address ← lift_may (Addr.add bottom (wrap 64 (index * PAGE_SIZE)));
  mret (Pages.containing_address address).

Definition rollback_page {E} (mapper : P) (bottom index : Z) : dev St E () :=
  page ← page_of bottom index;
  frame ← must (on_mem (unmap_page mapper page));
  must (Zeroed.deallocate_as frame Stack).

Definition rollback_stack {E} (mapper : P) (bottom mapped_pages : Z) : dev St E () :=
  for_in (seqZ 0 mapped_pages) (λ _ index, rollback_page mapper bottom index) ().

Definition unmap_stack {E} (mapper : P) (stack : KStack) : dev St E () :=
  rollback_stack mapper (bottom stack) (size stack / PAGE_SIZE).

Definition stack_flags : PageFlags := Flags.kernel true false.

(** One page of the stack; what was mapped before it is unmapped when it
    cannot be. *)
Definition stack_page (mapper : P) (bottom index : Z) : dev St MapError () :=
  page ← page_of bottom index;
  got ← infallible (Zeroed.allocate_for Stack);
  match got with
  | None => _ ← rollback_stack mapper bottom index; lift (Err OutOfFrames)
  | Some frame =>
      or_else (map_page mapper page frame stack_flags)
              (_ ← must (Zeroed.deallocate_as frame Stack); rollback_stack mapper bottom index)
  end.

Definition map_with_guard (mapper : P) (guard : Page) (pages : Z) : dev St MapError KStack :=
  bottom ← lift_may (Addr.add (page_start guard) PAGE_SIZE);
  _ ← for_in (seqZ 0 pages) (λ _ index, stack_page mapper bottom index) ();
  top ← lift_may (Addr.add bottom (wrap 64 (pages * PAGE_SIZE)));
  mret {| bottom := bottom; top := top |}.

(** [unmap]: how many frames came back. *)
Definition unmap {E} (mapper : P) (stack : KStack) : dev St E Z :=
  s ← get;
  _ ← unmap_stack mapper stack;
  s' ← get;
  mret (wrap 64 (Zeroed.free_frames s'.2 - Zeroed.free_frames s.2)).

Definition map_kernel_stacks (mapper : P) (base : Z) : dev St MapError (KStack * KStack * KStack) :=
  kernel ← map_with_guard mapper (Pages.containing_address base) KERNEL_STACK_PAGES;
  double_fault ← or_else (map_with_guard mapper (Pages.containing_address (top kernel)) DOUBLE_FAULT_STACK_PAGES)
                         (unmap_stack mapper kernel);
  syscall ← or_else (map_with_guard mapper (Pages.containing_address (top double_fault)) SYSCALL_STACK_PAGES)
                    (_ ← unmap_stack mapper double_fault; unmap_stack mapper kernel);
  mret (kernel, double_fault, syscall).
End stacks.
End Stacks.
