(* ===== verification/Process.v ===== *)
(** * Processes: what one owns

    Models [kernel/src/process.rs]: the table of open files, the ranges of
    memory every pointer from ring 3 is checked against, and the record a
    process is built in. *)

From S2P Require Import Prelude Words PhysMem FrameAlloc Bytes FatFormat Memory HalPaging PageTables Stacks.
Local Open Scope Z_scope.

Definition MAX_RANGES : nat := 9.
Definition MAX_FRAMES : nat := 32.
Definition MAX_OPEN : nat := 4.
Definition CODE_BASE : Z := 0x00400000.
Definition STACK_BASE : Z := 0x00500000.
Definition STACK_TOP : Z := 0x00501000.

(** ** Open files *)
Record OpenFile := { file : DirectoryEntry; position : Z }.

#[export] Instance OpenFile_eq_dec : EqDecision OpenFile.
Proof. solve_decision. Defined.

Module Files.
Abbreviation OpenFiles := (list (option OpenFile)).

Definition new : OpenFiles := replicate MAX_OPEN None.

(** [iter().position(Option::is_none)]. *)
Definition first_free (t : OpenFiles) : option nat := fst <$> list_find (λ f, f = None) t.

Definition open (t : OpenFiles) (f : OpenFile) : option Z * OpenFiles :=
  match first_free t with
  | Some at_ => (Some (Z.of_nat at_), <[at_ := Some f]> t)
  | None => (None, t)
  end.

(** [at] answers a [&mut]: [at_] reads through it and [set_at] writes. *)
Definition at_ (t : OpenFiles) (descriptor : Z) : option OpenFile := mjoin (index t descriptor).
Definition set_at (t : OpenFiles) (descriptor : Z) (f : OpenFile) : OpenFiles :=
  match at_ t descriptor with Some _ => <[Z.to_nat descriptor := Some f]> t | None => t end.

Definition close (t : OpenFiles) (descriptor : Z) : bool * OpenFiles :=
  match index t descriptor with
  | Some slot => (bool_decide (is_Some slot), <[Z.to_nat descriptor := None]> t)
  | None => (false, t)
  end.

Definition holds (t : OpenFiles) (nm : list Z) : bool :=
  existsb (λ slot, match slot with Some f => is_named (file f) nm | None => false end) t.

Definition close_everything (t : OpenFiles) : OpenFiles := replicate MAX_OPEN None.

Definition count (t : OpenFiles) : nat := length (filter (λ f, is_Some f) t).
End Files.

(** ** The memory a process may name *)
Definition fixed (ranges : list (option PhysRange)) : list PhysRange :=
  default {| range_start := 0; range_len := 0 |} <$> ranges.

Definition owned_by (ranges : list PhysRange) (ptr len : Z) : bool :=
  if len =? 0 then false
  else
    match checked_add 64 ptr len with
    | None => false
    | Some end_ =>
        existsb (λ r, (range_start r <=? ptr) && (end_ <=? Range.end_ r)) ranges
    end.

(** ** A process *)
Record Process := {
  space : PageTables;
  owned : list (option PhysRange);
  writable : list (option PhysRange);
  frames : list (option (PhysFrame * FramePurpose));
  entry : Z;
  kernel_stack : KStack;
  files : Files.OpenFiles
}.

Definition with_files (p : Process) (t : Files.OpenFiles) : Process :=
  {| space := space p; owned := owned p; writable := writable p; frames := frames p; entry := entry p;
     kernel_stack := kernel_stack p; files := t |}.

Module Proc.
Definition ranges (p : Process) : list PhysRange := fixed (owned p).
Definition writable_ranges (p : Process) : list PhysRange := fixed (writable p).
Definition owns (p : Process) (ptr len : Z) : bool := existsb (λ r, owned_by [r] ptr len) (ranges p).
Definition open_file (p : Process) (f : OpenFile) : option Z * Process :=
  let '(d, t) := Files.open (files p) f in (d, with_files p t).
Definition open_at (p : Process) (descriptor : Z) : option OpenFile := Files.at_ (files p) descriptor.
Definition close_file (p : Process) (descriptor : Z) : bool * Process :=
  let '(b, t) := Files.close (files p) descriptor in (b, with_files p t).
Definition has_open (p : Process) (nm : list Z) : bool := Files.holds (files p) nm.
Definition close_everything (p : Process) : Process := with_files p (Files.close_everything (files p)).
End Proc.

(** ** Building one *)
Inductive SpawnError :=
| OutOfMemory
| Space (e : PagingError)
| Mapping (e : MapError)
| ProgramTooBig
| TooManyRanges
| TooManyFrames
| SegmentsShareAPage (page : Z).

Record Building := {
  b_space : PageTables;
  b_owned : list (option PhysRange);
  b_writable : list (option PhysRange);
  b_frames : list (option (PhysFrame * FramePurpose));
  b_ranges : nat;
  b_taken : nat
}.

Module Build.
Definition new (space : PageTables) : Building :=
  {| b_space := space; b_owned := replicate MAX_RANGES None; b_writable := replicate MAX_RANGES None;
     b_frames := replicate MAX_FRAMES None; b_ranges := 0; b_taken := 0 |}.

Definition own (b : Building) (range : PhysRange) (w : bool) : res SpawnError Building :=
  if (b_ranges b =? MAX_RANGES)%nat then Err TooManyRanges
  else
    owned ← expect (set_index (b_owned b) (Z.of_nat (b_ranges b)) (Some range));
    writable ← (if w then expect (set_index (b_writable b) (Z.of_nat (b_ranges b)) (Some range))
                else Ok (b_writable b));
    Ok {| b_space := b_space b; b_owned := owned; b_writable := writable; b_frames := b_frames b;
          b_ranges := S (b_ranges b); b_taken := b_taken b |}.

Definition took (b : Building) (frame : PhysFrame) (purpose : FramePurpose) : res SpawnError Building :=
  if (b_taken b =? MAX_FRAMES)%nat then Err TooManyFrames
  else
    frames ← expect (set_index (b_frames b) (Z.of_nat (b_taken b)) (Some (frame, purpose)));
    Ok {| b_space := b_space b; b_owned := b_owned b; b_writable := b_writable b; b_frames := frames;
          b_ranges := b_ranges b; b_taken := S (b_taken b) |}.

Definition give_back {E} (b : Building) : dev (Mem * KernelFrames) E Building :=
  _ ← for_in (omap id (b_frames b)) (λ _ f, Stacks.give f.1 f.2) ();
  mret ({| b_space := b_space b; b_owned := b_owned b; b_writable := b_writable b;
         b_frames := replicate MAX_FRAMES None; b_ranges := b_ranges b; b_taken := 0 |}).

Definition finish (b : Building) (entry : Z) (kernel_stack : KStack) : Process :=
  {| space := b_space b; owned := b_owned b; writable := b_writable b; frames := b_frames b; entry := entry;
     kernel_stack := kernel_stack; files := Files.new |}.
End Build.

(** ** What the tables stand for *)
Section files.
  Import Files.

Definition files_ok (t : OpenFiles) : Prop := length t = MAX_OPEN.

(** The open descriptors, as a map. *)
Definition held (t : OpenFiles) : gmap nat OpenFile := omap id (map_seq 0 t : gmap nat (option OpenFile)).

Lemma held_lookup t (d : nat) : held t !! d = mjoin (t !! d).
Proof.
  unfold held. rewrite lookup_omap, lookup_map_seq_0. by destruct (t !! d) as [[f|]|].
Qed.

Lemma first_free_Some t d : first_free t = Some d →
  t !! d = Some None ∧ ∀ d', (d' < d)%nat → ∃ f, t !! d' = Some (Some f).
Proof.
  unfold first_free. destruct (list_find _ t) as [[i x]|] eqn:Hf; [|done]. intros [= <-].
  apply list_find_Some in Hf as (Hi & -> & Hlt). split; [done|]. intros d' Hd.
  destruct (lookup_lt_is_Some_2 t d') as [y Hy]; [apply lookup_lt_Some in Hi; lia|].
  destruct y as [f|]; [by exists f|]. by destruct (Hlt d' None Hy Hd).
Qed.

Lemma first_free_None t d : first_free t = None → (d < length t)%nat → ∃ f, t !! d = Some (Some f).
Proof.
  unfold first_free. destruct (list_find _ t) as [[i x]|] eqn:Hf; [done|]. intros _ Hd.
  apply list_find_None in Hf. destruct (lookup_lt_is_Some_2 t d Hd) as [y Hy].
  rewrite Forall_forall in Hf. destruct y as [f|]; [by exists f|].
  destruct (Hf None); [by eapply list_elem_of_lookup_2|done].
Qed.

Lemma holds_iff t nm : holds t nm = true ↔ ∃ d f, held t !! d = Some f ∧ is_named (file f) nm = true.
Proof.
  unfold holds. rewrite existsb_exists. split.
  - intros ([f|] & Hin & Hn); [|done]. apply list_elem_of_In, list_elem_of_lookup_1 in Hin as [d Hd].
    exists d, f. by rewrite held_lookup, Hd.
  - intros (d & f & Hd & Hn). rewrite held_lookup in Hd. destruct (t !! d) as [[f'|]|] eqn:Ht; simplify_eq/=.
    exists (Some f). split; [|done]. apply list_elem_of_In. by eapply list_elem_of_lookup_2.
Qed.
End files.

(** ** Ranges *)
Lemma owned_by_spec ranges ptr n :
  Forall Range.valid ranges → 0 ≤ ptr → 0 ≤ n →
  owned_by ranges ptr n = true ↔
    0 < n ∧ ptr + n < 2 ^ 64 ∧
    ∃ r, r ∈ ranges ∧ range_start r ≤ ptr ∧ ptr + n ≤ Z.min (range_start r + range_len r) (umax 64).
Proof.
  intros Hr Hp Hn. unfold owned_by, checked_add. destruct (Z.eqb_spec n 0); [lia|].
  destruct (Z.ltb_spec (ptr + n) (2 ^ 64)); [|lia].
  rewrite existsb_exists. setoid_rewrite <-list_elem_of_In. split.
  - intros (r & Hin & [Ha Hb]%andb_true_iff). split; [lia|]. split; [done|]. exists r.
    apply Z.leb_le in Ha, Hb. split; [done|]. split; [done|].
    unfold Range.end_, Addr.checked_add, checked_add in Hb. unfold umax in *.
    destruct (Z.ltb_spec (range_start r + range_len r) (2 ^ 64)); lia.
  - intros (_ & _ & r & Hin & Ha & Hb). exists r. split; [done|]. apply andb_true_iff.
    rewrite !Z.leb_le. split; [done|].
    unfold Range.end_, Addr.checked_add, checked_add. unfold umax in *.
    destruct (Z.ltb_spec (range_start r + range_len r) (2 ^ 64)); lia.
Qed.
