(* ===== verification/Load.v ===== *)
(** * Starting and ending a process

    Models [spawn], [spawn_elf], [load] and [destroy] of
    [kernel/src/process.rs].  An operation on a [Building] and on the
    machine carries both in its state, so that what a failed load had taken
    is known. *)

From S2P Require Import Prelude Words PhysMem FrameAlloc Bytes Elf Memory HalPaging PageTables Stacks Process.
Local Open Scope Z_scope.

Abbreviation Machine := (Mem * KernelFrames)%type.
Abbreviation Site := (Building * Machine)%type.

(** The machine's part of an operation, and the building's. *)
Definition on_machine {E A} (m : dev Machine E A) : dev Site E A := λ s,
  let '(r, m) := m s.2 in (r, (s.1, m)).
Definition on_building {E} (f : Building → res E Building) : dev Site E () := λ s,
  match f s.1 with
  | Ok b => (Ok (), (b, s.2))
  | Err e => (Err e, s)
  | Panic => (Panic, s)
  | Diverge => (Diverge, s)
  end.

(** [frames.allocate_for(purpose).ok_or(SpawnError::OutOfMemory)?] *)
Definition take_frame (purpose : FramePurpose) : dev Machine SpawnError PhysFrame :=
  got ← infallible (Zeroed.allocate_for purpose);
  lift (ok_or OutOfMemory got).

(** [copy_nonoverlapping(src, window.frame_ptr(frame).add(offset))]. *)
Definition copy_to_frame (frame : PhysFrame) (offset : Z) (src : list Z) : dev Machine SpawnError () :=
  s ← get;
  _ ← Stacks.lift_may (Window.frame_ptr (window s.2) frame);
  modify (λ s, (Ram.write s.1 (frame_start frame + offset) src, s.2)).

Module Loader.
(** [space.map(..)] of the space under construction. *)
Definition map_user (page : Z) (frame : PhysFrame) (flags : PageFlags) (err : MapError → SpawnError)
    : dev Site SpawnError () :=
  s ← get;
  on_machine (dev_map_err err
    (map_page (b_space (s : Site).1) (Pages.containing_address page) frame flags)).

Definition segment_error (page : Z) (e : MapError) : SpawnError :=
  match e with AlreadyMapped => SegmentsShareAPage page | other => Mapping other end.

(** What of the page at [page_at] the file carries. *)
Definition copy_segment (segment : Elf.Segment) (file : list Z) (page_at : Z) (frame : PhysFrame)
    : dev Machine SpawnError () :=
  let into_segment := saturating_sub page_at (Elf.at_ segment) in
  let skip_in_page := saturating_sub (Elf.at_ segment) page_at in
  if into_segment <? Elf.file_size segment then
    let from := wrap 64 (Elf.file_offset segment + into_segment) in
    let left := Elf.file_size segment - into_segment in
    let taking := Z.min left (wrap 64 (PAGE_SIZE - skip_in_page)) in
    src ← lift (expect (slice file from (from + taking)));
    copy_to_frame frame skip_in_page src
  else mret ().

(** One page of a segment. *)
Definition load_page (segment : Elf.Segment) (file : list Z) (page_at : Z) : dev Site SpawnError () :=
  frame ← on_machine (take_frame Kernel);
  _ ← on_building (λ b, Build.took b frame Kernel);
  _ ← on_machine (copy_segment segment file page_at frame);
  map_user page_at frame (Flags.user (Elf.writable segment) (Elf.executable segment)) (segment_error page_at).

(** [while page_at <= last { ..; page_at += PAGE_SIZE }]. *)
Fixpoint load_pages (fuel : nat) (segment : Elf.Segment) (file : list Z) (last page_at : Z)
    : dev Site SpawnError () :=
  match fuel with
  | O => lift Diverge
  | S fuel =>
      if page_at <=? last then
        _ ← load_page segment file page_at;
        load_pages fuel segment file last (wrap 64 (page_at + PAGE_SIZE))
      else mret ()
  end.

Definition page_down (address : Z) : Z := Z.land address (not_w 64 (PAGE_SIZE - 1)).

(** Enough turns for every page from [first] to [last]. *)
Definition page_fuel (first last : Z) : nat := Z.to_nat ((last - first) / PAGE_SIZE + 2).

Definition load_segment (file : list Z) (segment : Elf.Segment) : dev Site SpawnError () :=
  let first := page_down (Elf.at_ segment) in
  let last := page_down (wrap 64 (Elf.end_ segment - 1)) in
  _ ← load_pages (page_fuel first last) segment file last first;
  on_building (λ b, Build.own b {| range_start := Elf.at_ segment; range_len := Elf.memory_size segment |}
                              (Elf.writable segment)).

Definition stack_range : PhysRange := {| range_start := STACK_BASE; range_len := PAGE_SIZE |}.
Definition code_range : PhysRange := {| range_start := CODE_BASE; range_len := PAGE_SIZE |}.

Definition load (program : Elf.Program) (file : list Z) : dev Site SpawnError () :=
  _ ← for_in (Elf.segments program) (λ _ segment, load_segment file segment) ();
  stack_frame ← on_machine (take_frame Stack);
  _ ← on_building (λ b, Build.took b stack_frame Stack);
  _ ← map_user STACK_BASE stack_frame (Flags.user true false) Mapping;
  on_building (λ b, Build.own b stack_range true).

(** [mapper.new_address_space(frames).map_err(SpawnError::Space)]. *)
Definition new_space (mapper : PageTables) : dev Machine SpawnError PageTables :=
  dev_map_err Space (KernelTables.new_address_space mapper).

Definition spawn_elf (mapper : PageTables) (program : Elf.Program) (file : list Z) (kernel_stack : KStack)
    : dev Machine SpawnError Process := λ m,
  match new_space mapper m with
  | (Ok space, m) =>
      match load program file (Build.new space, m) with
      | (Ok _, (building, m)) => (Ok (Build.finish building (Elf.entry program) kernel_stack), m)
      | (Err err, (building, m)) => (_ ← Build.give_back building; lift (Err err)) m
      | (Panic, (_, m)) => (Panic, m)
      | (Diverge, (_, m)) => (Diverge, m)
      end
  | (Err e, m) => (Err e, m)
  | (Panic, m) => (Panic, m)
  | (Diverge, m) => (Diverge, m)
  end.

(** A flat program: one page of code and one of stack. *)
Definition spawn (mapper : PageTables) (program : list Z) (kernel_stack : KStack) : dev Machine SpawnError Process :=
  if PAGE_SIZE <? len program then lift (Err ProgramTooBig)
  else
    space ← new_space mapper;
    code_frame ← take_frame Kernel;
    stack_frame ← take_frame Stack;
    _ ← copy_to_frame code_frame 0 program;
    _ ← dev_map_err Mapping
          (map_page space (Pages.containing_address CODE_BASE) code_frame (Flags.user false true));
    _ ← dev_map_err Mapping
          (map_page space (Pages.containing_address STACK_BASE) stack_frame (Flags.user true false));
    lift (b ← Build.took (Build.new space) code_frame Kernel;
          b ← Build.took b stack_frame Stack;
          b ← Build.own b code_range false;
          b ← Build.own b stack_range true;
          Ok (Build.finish b CODE_BASE kernel_stack)).

(** [frames.deallocate_as(..).is_ok()], counted. *)
Definition returned (count : Z) (frame : PhysFrame) (purpose : FramePurpose) : dev Machine Empty_set Z := λ s,
  match Zeroed.deallocate_as frame purpose s with
  | (Ok _, s) => (Ok (count + 1), s)
  | (Err _, s) => (Ok count, s)
  | (Panic, s) => (Panic, s)
  | (Diverge, s) => (Diverge, s)
  end.

Definition give_table (frame : PhysFrame) : dev Machine Empty_set bool :=
  n ← returned 0 frame PageTable; mret (n =? 1).

Definition destroy (mapper : PageTables) (process : Process) : dev Machine Empty_set Z :=
  count ← for_in (omap id (frames process)) (λ count f, returned count f.1 f.2) 0;
  stack ← Stacks.unmap mapper (kernel_stack process);
  tables ← Tables.free_lower_half give_table (space process);
  mret (wrap 64 (wrap 64 (count + stack) + tables)).
End Loader.
