(* ===== verification/LoadProofs.v ===== *)
(** * What a space under construction holds

    [layout_ok k s0 root pages s]: since [s0] only frames that were free have
    been written, and the lower half of [root] is exactly [pages], each page
    leading to a frame of its own that holds given bytes.  Taking a frame,
    copying into it and mapping it keep the layout; loading a segment adds
    its pages. *)

From S2P Require Import Prelude Words PhysMem FrameAlloc FrameAllocProofs Bytes Elf Memory HalPaging PageTables PageWalk PageTree PageMap PageMapThms FramesZeroed Spaces Stacks Process Load.
Local Open Scope Z_scope.

#[local] Opaque Tables.kernel_slots Tables.lower_slots.

(** ** Bytes and entries *)
Lemma byte_same m m' u i : Ram.wf m → Ram.wf m' → (∀ j, 0 ≤ j < 512 → read_entry m' u j = read_entry m u j) →
  0 ≤ i < 4096 → Ram.byte m' (u + i) = Ram.byte m (u + i).
Proof.
  intros Hm Hm' Hsame Hi. pose proof (Z.div_mod i 8) as Hd. pose proof (Z.mod_pos_bound i 8) as Hb.
  assert (0 ≤ i / 8 < 512) as Hj by lia. specialize (Hsame (i / 8) Hj). unfold read_entry, Ram.read64, entry_at in Hsame.
  assert (Ram.bytes m' (u + 8 * (i / 8)) 8 = Ram.bytes m (u + 8 * (i / 8)) 8) as He.
  { rewrite <-(le_encode_decode (Ram.bytes m' _ 8)) by (by apply Ram.bytes_byte_ok).
    rewrite <-(le_encode_decode (Ram.bytes m _ 8)) by (by apply Ram.bytes_byte_ok).
    rewrite !Ram.length_bytes. by rewrite Hsame. }
  apply (f_equal (λ l, l !! Z.to_nat (i mod 8))) in He. rewrite !Ram.bytes_lookup in He by lia.
  injection He as He. replace (u + i) with (u + 8 * (i / 8) + Z.of_nat (Z.to_nat (i mod 8))) by lia. done.
Qed.

Lemma look_ram_write m u p l j : table_ok u → 0 ≤ j < 512 → u + 4096 ≤ p ∨ p + len l ≤ u →
  read_entry (Ram.write m p l) u j = read_entry m u j.
Proof.
  intros Hu Hj Hp. unfold read_entry, Ram.read64, entry_at. f_equal. apply Ram.bytes_write_other. lia.
Qed.

Lemma byte_zero_frame m u i : 0 ≤ i < 4096 → Ram.byte (Ram.zero_frame m u) (u + i) = 0.
Proof.
  intros Hi. unfold Ram.zero_frame. rewrite Ram.byte_write. rewrite len_replicate. unfold FRAME_SIZE.
  rewrite decide_True by lia. rewrite lookup_replicate_2; [done|lia].
Qed.

(** ** Layouts *)
Record PageInfo := { pi_frame : Z; pi_flags : PageFlags; pi_byte : Z → Z }.

Definition leads_to (x : PageInfo) : Access :=
  {| a_base := pi_frame x; a_size := 4096; a_writable := f_writable (pi_flags x); a_user := true;
     a_execute := f_executable (pi_flags x) |}.

(** Nothing in use at [s0] was written, and frames have only been taken. *)
Record untouched (s0 s : Machine) : Prop := {
  un_pool x : kernel_pool s.2 x → kernel_pool s0.2 x;
  un_same x j : table_ok x → ¬ kernel_pool s0.2 x → 0 ≤ j < 512 → read_entry s.1 x j = read_entry s0.1 x j
}.

Lemma untouched_refl s : untouched s s.
Proof. by split. Qed.

Lemma untouched_trans s s1 s2 : untouched s s1 → untouched s1 s2 → untouched s s2.
Proof. intros [A1 A2] [B1 B2]. split; [auto|]. intros x j Hx Hp Hj. rewrite B2, A2; auto. Qed.

Record layout_ok (k : Z) (s0 : Machine) (root : Z) (pages : gmap Z PageInfo) (s : Machine) : Prop := {
  lo_sound : sound Tables.lower_slots 3 root s;
  lo_untouched : untouched s0 s;
  lo_tables x : x ∈ lower_tree s.1 root → kernel_pool s0.2 x;
  (** Above, the kernel's entries, as [k]'s were. *)
  lo_upper j : j ∈ Tables.kernel_slots → read_entry s.1 root j = read_entry s0.1 k j;
  lo_resolve va : va_ok va → va < KERNEL_SPACE_BASE → resolve root s.1 va = leads_to <$> pages !! (va / 4096);
  lo_frame pg x : pages !! pg = Some x →
    table_ok (pi_frame x) ∧ kernel_pool s0.2 (pi_frame x) ∧ ¬ kernel_pool s.2 (pi_frame x) ∧ pi_frame x ∉ lower_tree s.1 root ∧
    ∀ i, 0 ≤ i < 4096 → Ram.byte s.1 (pi_frame x + i) = pi_byte x i;
  lo_inj pg pg' x x' : pages !! pg = Some x → pages !! pg' = Some x' → pi_frame x = pi_frame x' → pg = pg'
}.

(** A frame of the process: taken, not a table, and no page's. *)
Definition own_frame (s0 : Machine) (root : Z) (pages : gmap Z PageInfo) (s : Machine) (fr : Z) : Prop :=
  table_ok fr ∧ kernel_pool s0.2 fr ∧ ¬ kernel_pool s.2 fr ∧ fr ∉ lower_tree s.1 root ∧ ∀ pg x, pages !! pg = Some x → pi_frame x ≠ fr.

Lemma lower_va va : va_ok va → va < KERNEL_SPACE_BASE → first_in Tables.lower_slots (table_indices va).
Proof. intros Hv Hlt. rewrite <-(half_lower va Hlt). by apply first_in_half. Qed.

(** Something changed memory, but no table of the space and no page. *)
Lemma layout_frame k s0 root pages s s' : layout_ok k s0 root pages s → good s' →
  untouched s0 s' → (∀ x, kernel_pool s'.2 x → kernel_pool s.2 x) →
  (∀ x j, table_ok x → ¬ kernel_pool s.2 x → (x ∈ lower_tree s.1 root ∨ ∃ pg i, pages !! pg = Some i ∧ pi_frame i = x) →
     0 ≤ j < 512 → read_entry s'.1 x j = read_entry s.1 x j) →
  layout_ok k s0 root pages s'.
Proof.
  intros Hl Hg Hun Hp Hx. pose proof (lo_sound _ _ _ _ _ Hl) as Hs.
  assert (∀ x j, x ∈ tree (read_entry s.1) Tables.lower_slots 3 root → 0 ≤ j < 512 →
    (x = root → j ∈ Tables.lower_slots) → read_entry s'.1 x j = read_entry s.1 x j) as Htree.
  { intros x j Hin Hj _. apply Hx; [by eapply tree_ok|exact (so_pool _ _ _ _ Hs x Hin)|by left|done]. }
  assert (∀ j, 0 ≤ j < 512 → read_entry s'.1 root j = read_entry s.1 root j) as Htree'.
  { intros j Hj. assert (root ∈ lower_tree s.1 root) as Hin by apply one_self.
    apply Hx; [apply Hs|exact (so_pool _ _ _ _ Hs root Hin)|by left|done]. }
  assert (lower_tree s'.1 root = lower_tree s.1 root) as Ht.
  { apply frame_tree; [apply lower_range|exact Hs|exact Htree]. }
  split.
  - eapply frame_sound; [apply lower_range|exact Hs|exact Hg|exact Hp|exact Htree].
  - exact Hun.
  - intros x. rewrite Ht. apply Hl.
  - intros j Hj. rewrite <-(lo_upper _ _ _ _ _ Hl j Hj). apply Htree'; by apply kernel_range.
  - intros va Hv Hlt. rewrite <-(lo_resolve _ _ _ _ _ Hl va Hv Hlt). unfold resolve. rewrite (proj2 Hv).
    eapply (frame_access Tables.lower_slots); [apply lower_range|exact Hs|exact Htree|apply table_indices_ok|by apply lower_va].
  - intros pg x Hpg. destruct (lo_frame _ _ _ _ _ Hl pg x Hpg) as (H1 & H0 & H2 & H3 & H4). split; [done|]. split; [done|]. split; [auto|].
    split; [by rewrite Ht|]. intros i Hi. rewrite <-H4 by done. apply byte_same; [apply Hs|apply Hg| |done].
    intros j Hj. apply Hx; [done|done|right; eauto|done].
  - apply Hl.
Qed.

Lemma kernel_frames_pool (p : FramePurpose) m z got m' z' : kernel_frames_ok z → Ram.wf m →
  Zeroed.allocate_for p (m, z) = (Ok got, (m', z')) → ∀ x, kernel_pool z' x → kernel_pool z x.
Proof.
  intros Hz Hm E x (f & Hf & ->). destruct (kernel_allocate_spec p m z Hz Hm) as (got' & m2 & z2 & E' & _ & _ & _ & _ & Hg).
  rewrite E in E'. injection E' as <- <- <-. exists f. split; [|done]. destruct got as [fr|].
  - destruct Hg as (_ & _ & _ & _ & Hpool & _). rewrite Hpool in Hf. set_solver.
  - destruct Hg as (_ & -> & _). done.
Qed.

(** Taking a frame. *)
Lemma take_frame_spec p k s0 root pages s : layout_ok k s0 root pages s →
  ∃ r s', take_frame p s = (r, s') ∧ layout_ok k s0 root pages s' ∧ window s'.2 = window s.2 ∧
    match r with
    | Ok fr => own_frame s0 root pages s' (frame_start fr) ∧ Frame.valid fr ∧
               (∀ i, 0 ≤ i < 4096 → Ram.byte s'.1 (frame_start fr + i) = 0) ∧
               Window.frame_ptr (E:=Empty_set) (window s'.2) fr = Ok (w_base (window s'.2) + frame_start fr)
    | Err e => e = OutOfMemory
    | _ => False
    end.
Proof.
  intros Hl. destruct s as [m z]. pose proof (lo_sound _ _ _ _ _ Hl) as Hs. destruct (so_good _ _ _ _ Hs) as [Hz Hm].
  cbn [fst snd] in Hz, Hm. destruct (kernel_allocate_spec p m z Hz Hm) as (got & m' & z' & E & Hz' & Hm' & Htlb & Hw & Hg).
  pose proof (kernel_frames_pool p m z got m' z' Hz Hm E) as Hpool.
  unfold take_frame. rewrite (dev_bind_Ok _ _ _ _ _ (infallible_run _ _ _ _ E)).
  assert (untouched (m, z) (m', z')) as Hun.
  { split; [exact Hpool|]. cbn [fst snd]. intros x j Hx Hp Hj.
    destruct got as [fr|]; [|by destruct Hg as (-> & _)]. destruct Hg as (Hv & Hok & -> & Hin & _).
    apply look_zero_frame; try done. intros <-. apply Hp. exists (Frame.number fr). split; [done|by apply frame_address]. }
  assert (layout_ok k s0 root pages (m', z')) as Hl'.
  { apply (layout_frame k s0 root pages (m, z)); [done|by split|by eapply untouched_trans, Hun; apply Hl|exact Hpool|].
    intros x j Hx Hp _ Hj. by apply (un_same _ _ Hun). }
  eexists _, (m', z'). split; [reflexivity|]. split; [exact Hl'|]. split; [exact Hw|].
  destruct got as [fr|]; cbn [ok_or]; [|done]. destruct Hg as (Hv & Hok & Hm2 & Hin & Hpl & _).
  assert (kernel_pool z (frame_start fr)) as Hk by (exists (Frame.number fr); split; [done|by apply frame_address]).
  split; [|split; [done|split]].
  - split; [done|]. split; [apply (un_pool _ _ (lo_untouched _ _ _ _ _ Hl)); exact Hk|]. split; [|split].
    + intros (n & Hn & E'). cbn [snd] in Hn. rewrite Hpl in Hn. rewrite (frame_address fr Hv) in E'.
      assert (n = Frame.number fr) as -> by (unfold FRAME_SIZE in E'; lia). set_solver.
    + intros Hin'. assert (lower_tree m' root = lower_tree m root) as Ht.
      { apply (frame_tree Tables.lower_slots 2 root (m, z) (m', z')); [apply lower_range|exact Hs|]. intros x j Hx Hj _.
        cbn [fst]. subst m'. apply look_zero_frame; [done|exact (tree_ok _ _ _ _ _ Hs Hx)| |done].
        intros <-. exact (so_pool _ _ _ _ Hs _ Hx Hk). }
      cbn [fst] in Hin'. rewrite Ht in Hin'. exact (so_pool _ _ _ _ Hs _ Hin' Hk).
    + intros pg x Hpg Heq. destruct (lo_frame _ _ _ _ _ Hl pg x Hpg) as (_ & _ & Hnp & _). apply Hnp. by rewrite Heq.
  - intros i Hi. cbn [fst]. subst m'. by apply byte_zero_frame.
  - cbn [snd]. rewrite Hw. by apply frame_in_reach.
Qed.

(** Copying into an own frame. *)
Lemma copy_spec k s0 root pages s fr off src : layout_ok k s0 root pages s → own_frame s0 root pages s (frame_start fr) → bytes_ok src →
  0 ≤ off → off + len src ≤ 4096 →
  Window.frame_ptr (E:=Empty_set) (window s.2) fr = Ok (w_base (window s.2) + frame_start fr) →
  ∃ s', copy_to_frame fr off src s = (Ok (), s') ∧ layout_ok k s0 root pages s' ∧ s'.2 = s.2 ∧
    own_frame s0 root pages s' (frame_start fr) ∧
    ∀ i, 0 ≤ i < 4096 → Ram.byte s'.1 (frame_start fr + i) =
      if decide (off ≤ i < off + len src) then default 0 (src !! Z.to_nat (i - off)) else Ram.byte s.1 (frame_start fr + i).
Proof.
  intros Hl (Hok & Hfp & Hnp & Hnt & Hpg) Hsrc H0 H1 Hptr. destruct (lo_sound _ _ _ _ _ Hl) as [[Hz Hm] Hrt _ _ _].
  set (s' := (Ram.write s.1 (frame_start fr + off) src, s.2)). exists s'.
  assert (copy_to_frame fr off src s = (Ok (), s')) as E.
  { unfold copy_to_frame. rewrite dev_bind_run. cbn [get]. rewrite dev_bind_run. unfold Stacks.lift_may, infallible, dev_map_err, lift.
    by rewrite Hptr. }
  split; [exact E|].
  assert (layout_ok k s0 root pages s' ∧ lower_tree s'.1 root = lower_tree s.1 root) as [Hl' Ht].
  { assert (∀ x j, table_ok x → x ≠ frame_start fr → 0 ≤ j < 512 → read_entry s'.1 x j = read_entry s.1 x j) as Hx.
    { intros x j Hx Hne Hj. apply look_ram_write; [done|done|]. destruct (table_ok_add x (frame_start fr) Hx Hok Hne); lia. }
    split.
    - apply (layout_frame k s0 root pages s); [done|split; [done|by apply Ram.write_wf]| |done|].
      { destruct (lo_untouched _ _ _ _ _ Hl) as [U1 U2]. split; [done|]. intros x j Hx' Hp Hj. rewrite Hx; [by apply U2|done| |done].
        intros ->. done. }
      intros x j Hx' Hp Hcase Hj.
      apply Hx; [done| |done]. intros ->. destruct Hcase as [?|(pg & i & Hi & He)]; [done|by eapply Hpg].
    - apply (frame_tree Tables.lower_slots 2 root s s'); [apply lower_range|apply Hl|]. intros x j Hin Hj _.
      apply Hx; [exact (tree_ok _ _ _ _ _ (lo_sound _ _ _ _ _ Hl) Hin)| |done]. intros ->. by apply Hnt. }
  split; [done|]. split; [done|]. split; [split; [done|]; split; [done|]; split; [done|]; split; [by rewrite Ht|done]|].
  intros i Hi. unfold s'. cbn [fst]. rewrite Ram.byte_write.
  destruct (decide (off ≤ i < off + len src)).
  - rewrite decide_True by lia. do 2 f_equal. lia.
  - by rewrite decide_False by lia.
Qed.

(** Mapping an own frame at a free page. *)
Lemma map_spec k s0 window root pages s page fr flags : layout_ok k s0 root pages s → own_frame s0 root pages s (frame_start fr) →
  va_ok page → page mod 4096 = 0 → page < KERNEL_SPACE_BASE → f_user flags = true →
  ∃ r s', map_page {| root := root; base := window |} (Pages.containing_address page) fr flags s = (r, s') ∧
    match r with
    | Ok () => pages !! (page / 4096) = None ∧
        layout_ok k s0 root (<[page / 4096 := {| pi_frame := frame_start fr; pi_flags := flags;
                                            pi_byte := λ i, Ram.byte s.1 (frame_start fr + i) |}]> pages) s'
    | Err e => layout_ok k s0 root pages s' ∧ e ≠ OutsideKernelSpace
    | _ => False
    end.
Proof.
  intros Hl (Hok & Hfp & Hnp & Hnt & Hne) Hv Hal Hlt Hu. pose proof (lo_sound _ _ _ _ _ Hl) as Hs.
  set (T := {| root := root; base := window |}).
  assert (space_ok T page s) as Hsp by (unfold space_ok; by rewrite (half_lower page Hlt)).
  destruct (map_facts T page fr flags s Hv Hal Hok Hsp) as (r & s' & E & Hk & Ha).
  exists r, s'. split.
  { cbn [map_page kernel_mapper]. unfold Pages.containing_address. cbn [page_start]. change PAGE_SIZE with 4096.
    by rewrite Hal, Z.sub_0_r. }
  pose proof (k_ok _ _ _ _ _ Hk) as Hs'. unfold space_ok in Hs'. rewrite (half_lower page Hlt) in Hs'. cbn [PageTables.root T] in Hs'.
  assert (∀ x, table_ok x → ¬ kernel_pool s.2 x → x ∉ lower_tree s.1 root →
    (¬ kernel_pool s'.2 x) ∧ x ∉ lower_tree s'.1 root ∧ ∀ i, 0 ≤ i < 4096 → Ram.byte s'.1 (x + i) = Ram.byte s.1 (x + i)) as Hx.
  { intros x Hx Hp Ht. split; [intros Hp'; by apply Hp, (k_pool _ _ _ _ _ Hk)|]. split.
    - intros Ht'. pose proof (k_grow _ _ _ _ _ Hk x) as Hgr. rewrite (half_lower page Hlt) in Hgr. by destruct (Hgr Ht').
    - intros i Hi. apply byte_same; [apply Hs|apply Hs'| |done]. intros j Hj. apply (k_elsewhere _ _ _ _ _ Hk).
      split; [done|]. split; [done|]. split; [done|]. left. by rewrite (half_lower page Hlt). }
  assert (untouched s0 s') as Hun.
  { destruct (lo_untouched _ _ _ _ _ Hl) as [U1 U2]. split; [intros x Hx'; by apply U1, (k_pool _ _ _ _ _ Hk)|].
    intros x j Hx' Hp Hj. rewrite (k_elsewhere _ _ _ _ _ Hk); [by apply U2|]. split; [done|]. split; [done|].
    split; [intros Hp'; by apply Hp, U1|]. left. rewrite (half_lower page Hlt). intros Ht. by apply Hp, (lo_tables _ _ _ _ _ Hl). }
  assert (∀ x, x ∈ lower_tree s'.1 root → kernel_pool s0.2 x) as Htables.
  { intros x Ht. pose proof (k_grow _ _ _ _ _ Hk x) as Hgr. rewrite (half_lower page Hlt) in Hgr.
    destruct (Hgr Ht) as [Ht'|Hp']; [by apply (lo_tables _ _ _ _ _ Hl)|by apply (un_pool _ _ (lo_untouched _ _ _ _ _ Hl))]. }
  assert (∀ j, j ∈ Tables.kernel_slots → read_entry s'.1 root j = read_entry s0.1 k j) as Hup.
  { intros j Hj. rewrite <-(lo_upper _ _ _ _ _ Hl j Hj). apply (k_elsewhere _ _ _ _ _ Hk). split; [apply Hs|].
    split; [by apply kernel_range|]. split; [exact (so_pool _ _ _ _ Hs root (one_self _ _ _))|]. right. split; [done|].
    rewrite (half_lower page Hlt), in_lower_slots. apply in_kernel_slots in Hj. lia. }
  assert (∀ va, va_ok va → va < KERNEL_SPACE_BASE → same_half page va) as Hsame.
  { intros va Hva Hlva. split; [done|]. by rewrite !half_lower. }
  destruct r as [[]|e| |]; try done.
  - destruct Ha as (_ & Hres & Ha). cbn [PageTables.root T] in Ha, Hres. rewrite (lo_resolve _ _ _ _ _ Hl page Hv Hlt) in Hres.
    apply fmap_None in Hres. split; [done|]. split.
    + exact Hs'.
    + exact Hun.
    + exact Htables.
    + exact Hup.
    + intros va Hva Hlva. rewrite (Ha va (Hsame va Hva Hlva)). case_decide as Hpg.
      * rewrite Hpg, lookup_insert_eq. cbn. unfold leads_to. cbn. by rewrite Hu.
      * rewrite lookup_insert_ne by done. by apply Hl.
    + intros pg x. destruct (decide (pg = page / 4096)) as [-> | Hpg].
      * rewrite lookup_insert_eq. intros [= <-]. cbn [pi_frame pi_byte]. destruct (Hx (frame_start fr) Hok Hnp Hnt) as (? & ? & ?). done.
      * rewrite lookup_insert_ne by done. intros Hpgx. destruct (lo_frame _ _ _ _ _ Hl pg x Hpgx) as (H1 & H0 & H2 & H3 & H4).
        destruct (Hx _ H1 H2 H3) as (H5 & H6 & H7). split; [done|]. split; [done|]. split; [done|]. split; [done|]. intros i Hi. by rewrite H7, H4.
    + intros pg pg' x x'. destruct (decide (pg = page / 4096)) as [-> | Hpg], (decide (pg' = page / 4096)) as [-> | Hpg'];
        rewrite ?lookup_insert_eq, ?lookup_insert_ne by done; intros; simplify_eq/=; try done.
      * by destruct (Hne _ _ H0).
      * by destruct (Hne _ _ H).
      * by eapply (lo_inj _ _ _ _ _ Hl).
  - destruct Ha as (Ha & Hout & _). split.
    2:{ intros He. apply Hout in He. apply He. rewrite Hu. destruct (Z.ltb_spec page KERNEL_SPACE_BASE); [done|lia]. }
    split; [exact Hs'|exact Hun|exact Htables|exact Hup|..].
    + intros va Hva Hlva. specialize (Ha va (Hsame va Hva Hlva)). cbn [PageTables.root T] in Ha. rewrite Ha. by apply Hl.
    + intros pg x Hpgx. destruct (lo_frame _ _ _ _ _ Hl pg x Hpgx) as (H1 & H0 & H2 & H3 & H4).
      destruct (Hx _ H1 H2 H3) as (H5 & H6 & H7). split; [done|]. split; [done|]. split; [done|]. split; [done|]. intros i Hi. by rewrite H7, H4.
    + apply Hl.
Qed.
