(* ===== verification/LoadProgram.v ===== *)
(** * Loading the segments of a program

    [build_ok] is the bookkeeping of a process under construction; [loaded]
    what its space holds once some segments are in it.  [load_spec] is the
    whole of [load]. *)

From S2P Require Import Prelude Words PhysMem FrameAlloc FrameAllocProofs Bytes Memory HalPaging PageTables PageWalk PageTree PageMap PageMapThms FramesZeroed Spaces Elf ElfThms Stacks Process Load LoadProofs.
Local Open Scope Z_scope.

#[local] Opaque Tables.kernel_slots Tables.lower_slots.

(** ** Bookkeeping *)
(** A table of [n] slots of which the first are taken. *)
Definition filled {A B} (n : nat) (f : A → option B) (l : list A) : list (option B) :=
  (f <$> l) ++ replicate (n - length l) None.

Lemma filled_snoc {A B} n (f : A → option B) l a y : (length l < n)%nat → f a = Some y →
  set_index (filled n f l) (Z.of_nat (length l)) (Some y) = Some (filled n f (l ++ [a])).
Proof.
  intros Hl Hf. unfold set_index, filled, len. rewrite length_app, length_fmap, length_replicate.
  destruct (Z.leb_spec 0 (Z.of_nat (length l))); [|lia].
  destruct (Z.ltb_spec (Z.of_nat (length l)) (Z.of_nat (length l + (n - length l)))); [|lia].
  cbn [andb]. f_equal. rewrite Nat2Z.id, length_app, fmap_app. cbn [length].
  replace (n - length l)%nat with (S (n - (length l + 1))) by lia.
  cbn [replicate]. rewrite <-app_assoc. rewrite insert_app_r_alt by (rewrite length_fmap; lia).
  rewrite length_fmap, Nat.sub_diag. cbn. by rewrite Hf.
Qed.

Lemma filled_skip {A B} n (f : A → option B) l a : (length l < n)%nat → f a = None →
  filled n f (l ++ [a]) = filled n f l.
Proof.
  intros Hl Hf. unfold filled. rewrite fmap_app, length_app. cbn [length fmap list_fmap]. rewrite Hf.
  replace (n - length l)%nat with (S (n - (length l + 1))) by lia. cbn [replicate]. by rewrite <-app_assoc.
Qed.

Lemma filled_flat {A B} n (f : A → option B) l : omap id (filled n f l) = omap f l.
Proof.
  unfold filled. rewrite omap_app. replace (omap id (replicate (n - length l) (@None B))) with (@nil B).
  - rewrite app_nil_r. induction l as [|a l IH]; [done|]. cbn. destruct (f a); cbn; by rewrite IH.
  - induction (n - length l)%nat as [|k IH]; [done|exact IH].
Qed.

Lemma filled_all {A} n (l : list A) : omap id (filled n Some l) = l.
Proof. rewrite filled_flat. induction l as [|a l IH]; [done|]. cbn. by rewrite IH. Qed.

Definition writable_of (r : PhysRange * bool) : option PhysRange := if r.2 then Some r.1 else None.

Record build_ok (b : Building) (rs : list (PhysRange * bool)) (fs : list (PhysFrame * FramePurpose)) : Prop := {
  bk_owned : b_owned b = filled MAX_RANGES (λ r, Some r.1) rs;
  bk_writable : b_writable b = filled MAX_RANGES writable_of rs;
  bk_ranges : b_ranges b = length rs ∧ (length rs ≤ MAX_RANGES)%nat;
  bk_frames : b_frames b = filled MAX_FRAMES Some fs;
  bk_taken : b_taken b = length fs ∧ (length fs ≤ MAX_FRAMES)%nat;
  bk_valid : Forall (λ f, Frame.valid f.1) fs
}.

Lemma build_new space : build_ok (Build.new space) [] [].
Proof. split; try reflexivity; [split; [reflexivity|cbn; lia]..|constructor]. Qed.

Lemma own_spec b rs fs r w : build_ok b rs fs →
  match Build.own b r w with
  | Ok b' => build_ok b' (rs ++ [(r, w)]) fs ∧ b_space b' = b_space b
  | Err e => e = TooManyRanges
  | _ => False
  end.
Proof.
  intros [H1 H2 [H3 H4] H5 H6 H7]. unfold Build.own. rewrite H3.
  destruct (Nat.eqb_spec (length rs) MAX_RANGES) as [He|He]; [done|].
  rewrite H1, H2. rewrite (filled_snoc MAX_RANGES (λ r, Some r.1) rs (r, w) r) by (done || lia). cbn [expect mbind res_bind].
  assert (build_ok {| b_space := b_space b; b_owned := filled MAX_RANGES (λ r, Some r.1) (rs ++ [(r, w)]);
    b_writable := filled MAX_RANGES writable_of (rs ++ [(r, w)]); b_frames := b_frames b; b_ranges := S (length rs);
    b_taken := b_taken b |} (rs ++ [(r, w)]) fs) as Hok.
  { split; cbn; try done. rewrite length_app. cbn [length]. lia. }
  destruct w; cbn [mbind res_bind].
  - rewrite (filled_snoc MAX_RANGES writable_of rs (r, true) r) by (done || lia). by cbn [expect mbind res_bind].
  - by rewrite <-(filled_skip MAX_RANGES writable_of rs (r, false)) by (done || lia).
Qed.

Lemma took_spec b rs fs fr p : build_ok b rs fs → Frame.valid fr →
  match Build.took b fr p with
  | Ok b' => build_ok b' rs (fs ++ [(fr, p)]) ∧ b_space b' = b_space b
  | Err e => e = TooManyFrames
  | _ => False
  end.
Proof.
  intros [H1 H2 H3 H4 [H5 H6] H7] Hv. unfold Build.took. rewrite H5.
  destruct (Nat.eqb_spec (length fs) MAX_FRAMES) as [He|He]; [done|].
  rewrite H4, (filled_snoc MAX_FRAMES Some fs (fr, p) (fr, p)) by (done || lia). cbn [expect mbind res_bind].
  split; [|done]. split; cbn; try done; [rewrite length_app; cbn [length]; lia|]. apply Forall_app. split; [done|].
  by apply Forall_singleton.
Qed.

(** ** A site *)
Record site_ok (k : Z) (s0 : Machine) (space : PageTables) (pages : gmap Z PageInfo) (rs : list (PhysRange * bool))
    (fs : list (PhysFrame * FramePurpose)) (s : Site) : Prop := {
  si_space : b_space s.1 = space;
  si_layout : layout_ok k s0 (root space) pages s.2;
  si_build : build_ok s.1 rs fs;
  (** What it has taken was free. *)
  si_free : Forall (λ f, kernel_pool s0.2 (frame_start f.1)) fs
}.

(** The frames taken are the frames mapped. *)
Definition accounted (pages : gmap Z PageInfo) (fs : list (PhysFrame * FramePurpose)) : Prop :=
  ∀ a, (∃ f, f ∈ fs ∧ frame_start f.1 = a) ↔ (∃ pg x, pages !! pg = Some x ∧ pi_frame x = a).

Lemma accounted_insert pages fs pg x fr p : accounted pages fs → pages !! pg = None → pi_frame x = frame_start fr →
  accounted (<[pg := x]> pages) (fs ++ [(fr, p)]).
Proof.
  intros Ha Hn Hx a. specialize (Ha a). setoid_rewrite elem_of_app. setoid_rewrite list_elem_of_singleton. split.
  - intros (f & [Hf| ->] & He).
    + destruct (proj1 Ha) as (pg' & x' & Hpg & Hx'); [by exists f|]. exists pg', x'. split; [|done].
      rewrite lookup_insert_ne; [done|]. intros <-. by rewrite Hn in Hpg.
    + exists pg, x. split; [apply lookup_insert_eq|]. by rewrite Hx.
  - intros (pg' & x' & Hpg & He). destruct (decide (pg' = pg)) as [->|Hd].
    + rewrite lookup_insert_eq in Hpg. injection Hpg as <-. exists (fr, p). split; [by right|]. cbn [fst]. by rewrite <-He, Hx.
    + rewrite lookup_insert_ne in Hpg by done. destruct (proj2 Ha) as (f & Hf & Hfe); [by exists pg', x'|]. exists f. tauto.
Qed.

Definition seg_byte (file : list Z) (s : Elf.Segment) (va : Z) : Z :=
  let o := va - Elf.at_ s in
  if decide (0 ≤ o < Elf.file_size s) then default 0 (file !! Z.to_nat (Elf.file_offset s + o)) else 0.

Definition seg_flags (s : Elf.Segment) : PageFlags := Flags.user (Elf.writable s) (Elf.executable s).

Definition page_holds (file : list Z) (s : Elf.Segment) (pg : Z) (x : PageInfo) : Prop :=
  pi_flags x = seg_flags s ∧ ∀ i, 0 ≤ i < 4096 → pi_byte x i = seg_byte file s (pg * 4096 + i).

(** What [elf_parse_exact] promises of a segment, below the kernel's half. *)
Definition seg_fine (file : list Z) (s : Elf.Segment) : Prop :=
  ElfSpec.seg_width s ∧ ElfSpec.segment_ok (len file) (2 ^ 47) s.

Section page.
  Context (k : Z) (s0 : Machine) (space : PageTables) (file : list Z) (s : Elf.Segment).
  Hypothesis Hfile : bytes_ok file.
  Hypothesis Hlen : len file < 2 ^ 63.
  Hypothesis Hseg : seg_fine file s.

(** The file's part of one page, into a frame of zeros. *)
Lemma copy_segment_spec pages m page_at fr : layout_ok k s0 (root space) pages m → own_frame s0 (root space) pages m (frame_start fr) →
  Window.frame_ptr (E:=Empty_set) (window m.2) fr = Ok (w_base (window m.2) + frame_start fr) →
  (∀ i, 0 ≤ i < 4096 → Ram.byte m.1 (frame_start fr + i) = 0) →
  0 ≤ page_at < 2 ^ 47 → Elf.at_ s < page_at + 4096 →
  ∃ m', Loader.copy_segment s file page_at fr m = (Ok (), m') ∧ layout_ok k s0 (root space) pages m' ∧
    own_frame s0 (root space) pages m' (frame_start fr) ∧
    ∀ i, 0 ≤ i < 4096 → Ram.byte m'.1 (frame_start fr + i) = seg_byte file s (page_at + i).
Proof.
  intros Hl Hown Hptr Hz Hpg Hat. destruct Hseg as [(Ho & Hf & Ha & Hm) (H1 & H2 & H3 & H4 & _)].
  unfold Loader.copy_segment, saturating_sub. change PAGE_SIZE with 4096.
  set (into := Z.max 0 (page_at - Elf.at_ s)). set (skip := Z.max 0 (Elf.at_ s - page_at)).
  destruct (Z.ltb_spec into (Elf.file_size s)) as [Hin|Hin].
  2:{ exists m. split; [done|]. split; [done|]. split; [done|]. intros i Hi. rewrite Hz by done. unfold seg_byte.
      destruct (decide _); [lia|done]. }
  unfold wrap. rewrite (Z.mod_small (Elf.file_offset s + into)) by lia. rewrite (Z.mod_small (4096 - skip)) by lia.
  set (taking := Z.min (Elf.file_size s - into) (4096 - skip)).
  destruct (slice file (Elf.file_offset s + into) (Elf.file_offset s + into + taking)) as [src|] eqn:Hsl.
  2:{ rewrite slice_Some in Hsl by lia. done. }
  pose proof (slice_inv _ _ _ _ Hsl) as (_ & _ & Hsrc & _).
  destruct (copy_spec k s0 (root space) pages m fr skip src Hl Hown) as (m' & E & Hl' & _ & Hown' & Hb); try lia; [by eapply bytes_ok_slice|done|].
  exists m'. split; [exact E|]. split; [done|]. split; [done|]. intros i Hi. rewrite Hb by done. unfold seg_byte.
  destruct (decide (skip ≤ i < skip + len src)) as [Hd|Hd].
  - rewrite decide_True by lia. rewrite (slice_lookup _ _ _ _ _ Hsl) by lia. do 2 f_equal. lia.
  - rewrite Hz by done. destruct (decide _); [lia|done].
Qed.

(** A step that may fail: on success the site is as [post] says, on any
    error still a site, with the frames it then has. *)
Definition site_step {A} (out : res SpawnError A * Site) (post : Site → Prop) : Prop :=
  match out.1 with
  | Ok _ => post out.2
  | Err _ => ∃ pages rs fs, site_ok k s0 space pages rs fs out.2
  | _ => False
  end.

Lemma site_step_bind {A B} (m : dev Site SpawnError A) (f : A → dev Site SpawnError B) st P Q :
  site_step (m st) P → (∀ a st', P st' → site_step (f a st') Q) → site_step ((m ≫= f) st) Q.
Proof.
  intros Hm Hf. rewrite dev_bind_run. unfold site_step in Hm. destruct (m st) as [r st']. cbn [fst snd] in Hm.
  destruct r; try done. by apply Hf.
Qed.

Lemma site_step_weaken {A} (out : res SpawnError A * Site) (P Q : Site → Prop) :
  (∀ st, P st → Q st) → site_step out P → site_step out Q.
Proof. intros HPQ. unfold site_step. destruct (fst out); auto. Qed.

(** Taking a frame, filling it and mapping it at a free page. *)
Lemma place_page_spec pages rs fs st page_at purpose (fill : PhysFrame → dev Machine SpawnError ()) flags err byte_at :
  site_ok k s0 space pages rs fs st → va_ok page_at → page_at mod 4096 = 0 → page_at < 2 ^ 47 → f_user flags = true →
  (∀ m fr, layout_ok k s0 (root space) pages m → own_frame s0 (root space) pages m (frame_start fr) →
     Window.frame_ptr (E:=Empty_set) (window m.2) fr = Ok (w_base (window m.2) + frame_start fr) →
     (∀ i, 0 ≤ i < 4096 → Ram.byte m.1 (frame_start fr + i) = 0) →
     ∃ m', fill fr m = (Ok (), m') ∧ layout_ok k s0 (root space) pages m' ∧ own_frame s0 (root space) pages m' (frame_start fr) ∧
       ∀ i, 0 ≤ i < 4096 → Ram.byte m'.1 (frame_start fr + i) = byte_at i) →
  site_step ((frame ← on_machine (take_frame purpose);
              _ ← on_building (λ b, Build.took b frame purpose);
              _ ← on_machine (fill frame);
              Loader.map_user page_at frame flags err) st)
    (λ st', pages !! (page_at / 4096) = None ∧ ∃ x fr, pi_flags x = flags ∧ pi_frame x = frame_start fr ∧
       (∀ i, 0 ≤ i < 4096 → pi_byte x i = byte_at i) ∧
       site_ok k s0 space (<[page_at / 4096 := x]> pages) rs (fs ++ [(fr, purpose)]) st').
Proof.
  intros [Hsp Hl Hb Hfree] Hv Hal Hlt Hu Hfill. destruct st as [b m]. cbn [fst snd] in *.
  destruct (take_frame_spec purpose k s0 (root space) pages m Hl) as (r & m1 & E1 & Hl1 & Hw1 & Hr).
  rewrite dev_bind_run. unfold on_machine at 1. cbn [fst snd]. rewrite E1.
  destruct r as [fr|e| |]; try done; [|by exists pages, rs, fs].
  destruct Hr as (Hown & Hvf & Hz & Hptr). rewrite dev_bind_run. unfold on_building at 1. cbn [fst snd].
  pose proof (took_spec b rs fs fr purpose Hb Hvf) as Ht. destruct (Build.took b fr purpose) as [b1|e| |]; try done;
    [|by exists pages, rs, fs].
  assert (Forall (λ f : PhysFrame * FramePurpose, kernel_pool s0.2 (frame_start f.1)) (fs ++ [(fr, purpose)])) as Hfree'.
  { apply Forall_app. split; [done|]. apply Forall_singleton. apply Hown. }
  destruct Ht as [Hb1 Hsp1]. rewrite dev_bind_run. unfold on_machine at 1. cbn [fst snd].
  destruct (Hfill m1 fr Hl1 Hown Hptr Hz) as (m2 & -> & Hl2 & Hown2 & Hbyte).
  unfold Loader.map_user. rewrite dev_bind_run. cbn [get fst snd]. unfold on_machine. cbn [fst snd]. unfold dev_map_err.
  assert (page_at < KERNEL_SPACE_BASE) as Hk by (unfold KERNEL_SPACE_BASE; lia).
  destruct (map_spec k s0 (base space) (root space) pages m2 page_at fr flags Hl2 Hown2 Hv Hal Hk Hu) as (r & m3 & E3 & Hr).
  assert (b_space b1 = {| root := root space; base := base space |}) as -> by (rewrite Hsp1, Hsp; by destruct space).
  rewrite E3. destruct r as [[]|e| |]; try done; unfold site_step; cbn [map_err fst snd].
  - destruct Hr as [Hnone Hl3]. split; [done|]. eexists _, fr. split; [|split; [|split; [|split; [by cbn; rewrite Hsp1|exact Hl3|exact Hb1|exact Hfree']]]]; try done.
  - destruct Hr as [Hl3 _]. exists pages, rs, (fs ++ [(fr, purpose)]). split; [by cbn; rewrite Hsp1|exact Hl3|exact Hb1|exact Hfree'].
Qed.

Definition after_page (pages : gmap Z PageInfo) rs fs page_at (st' : Site) : Prop :=
  pages !! (page_at / 4096) = None ∧ ∃ x fr, page_holds file s (page_at / 4096) x ∧ pi_frame x = frame_start fr ∧
    site_ok k s0 space (<[page_at / 4096 := x]> pages) rs (fs ++ [(fr, Kernel)]) st'.

(** One page of the segment, on every outcome. *)
Lemma load_page_spec pages rs fs st page_at : site_ok k s0 space pages rs fs st →
  va_ok page_at → page_at mod 4096 = 0 → page_at < 2 ^ 47 → Elf.at_ s < page_at + 4096 →
  site_step (Loader.load_page s file page_at st) (after_page pages rs fs page_at).
Proof.
  intros Hst Hv Hal Hlt Hat.
  assert (∀ m fr, layout_ok k s0 (root space) pages m → own_frame s0 (root space) pages m (frame_start fr) →
     Window.frame_ptr (E:=Empty_set) (window m.2) fr = Ok (w_base (window m.2) + frame_start fr) →
     (∀ i, 0 ≤ i < 4096 → Ram.byte m.1 (frame_start fr + i) = 0) →
     ∃ m', Loader.copy_segment s file page_at fr m = (Ok (), m') ∧ layout_ok k s0 (root space) pages m' ∧
       own_frame s0 (root space) pages m' (frame_start fr) ∧
       ∀ i, 0 ≤ i < 4096 → Ram.byte m'.1 (frame_start fr + i) = seg_byte file s (page_at + i)) as Hfill.
  { intros m fr Hl Ho Hptr Hz. apply copy_segment_spec; try done. destruct Hv as [[? _] _]. lia. }
  pose proof (place_page_spec pages rs fs st page_at Kernel (Loader.copy_segment s file page_at) (seg_flags s)
    (Loader.segment_error page_at) _ Hst Hv Hal Hlt eq_refl Hfill) as Hp.
  match type of Hp with site_step ?o _ => change o with (Loader.load_page s file page_at st) in Hp end.
  unfold site_step in *. destruct (Loader.load_page s file page_at st) as [r st']. cbn [fst snd] in *.
  destruct r; try done. destruct Hp as (Hn & x & fr & H1 & H2 & H3 & H4). split; [done|]. exists x, fr.
  split; [|done]. split; [done|]. intros i Hi. rewrite H3 by done. f_equal. pose proof (Z.div_mod page_at 4096). lia.
Qed.
End page.

(** * Loading a whole program

    [load_spec]: what the space of a process holds when every segment and
    the stack are in it, and that a failure leaves a site.  [image] says the
    same by address: the segment, or the stack, a byte belongs to. *)

Lemma va_ok_low va : 0 ≤ va < 2 ^ 47 → va_ok va.
Proof.
  intros Hn. split; [unfold in_width; lia|]. unfold is_canonical. rewrite Z.shiftr_div_pow2, Z.div_small by lia. done.
Qed.

(** Clearing the low bits rounds down. *)
Lemma page_down_spec a : in_width 64 a → Loader.page_down a = 4096 * (a / 4096).
Proof. apply land_page_mask. Qed.

(** Every page number from [lo] to [hi] is new in [pages'] and as [P] says. *)
Definition adds (P : Z → PageInfo → Prop) (lo hi : Z) (pages pages' : gmap Z PageInfo) : Prop :=
  ∀ pg, if decide (lo ≤ pg ≤ hi) then pages !! pg = None ∧ ∃ x, pages' !! pg = Some x ∧ P pg x
        else pages' !! pg = pages !! pg.

Lemma adds_none P lo hi pages : hi < lo → adds P lo hi pages pages.
Proof. intros Hlt pg. by rewrite decide_False by lia. Qed.

Lemma adds_cons P lo hi pages pages' x : lo ≤ hi → pages !! lo = None → P lo x →
  adds P (lo + 1) hi (<[lo := x]> pages) pages' → adds P lo hi pages pages'.
Proof.
  intros Hle Hn HP Ha pg. specialize (Ha pg). destruct (decide (pg = lo)) as [->|Hne].
  - rewrite decide_True by lia. rewrite decide_False, lookup_insert_eq in Ha by lia. split; [done|]. by exists x.
  - rewrite lookup_insert_ne in Ha by done. repeat case_decide; done || lia.
Qed.

Section program.
  Context (k : Z) (s0 : Machine) (space : PageTables) (file : list Z).
  Hypothesis Hfile : bytes_ok file.
  Hypothesis Hlen : len file < 2 ^ 63.

Definition loaded (post : gmap Z PageInfo → list (PhysRange * bool) → Prop) (st' : Site) : Prop :=
  ∃ pages rs fs, post pages rs ∧ accounted pages fs ∧ site_ok k s0 space pages rs fs st'.

Lemma load_pages_spec s : seg_fine file s → ∀ fuel lo hi pages rs fs st,
  site_ok k s0 space pages rs fs st → accounted pages fs →
  0 ≤ lo → hi < 2 ^ 35 → Elf.at_ s < 4096 * lo + 4096 → lo ≤ hi + 1 → hi - lo + 1 < Z.of_nat fuel →
  site_step k s0 space (Loader.load_pages fuel s file (4096 * hi) (4096 * lo) st)
    (loaded (λ pages' rs', adds (page_holds file s) lo hi pages pages' ∧ rs' = rs)).
Proof.
  intros Hs. induction fuel as [|fuel IH]; intros lo hi pages rs fs st Hst Hacc Hlo Hhi Hat Hle Hf; [lia|].
  cbn [Loader.load_pages]. destruct (Z.leb_spec (4096 * lo) (4096 * hi)) as [Hin|Hout].
  2:{ exists pages, rs, fs. split; [split; [apply adds_none; lia|done]|done]. }
  pose proof (load_page_spec k s0 space file s Hfile Hlen Hs pages rs fs st (4096 * lo) Hst) as Hp.
  specialize (Hp ltac:(apply va_ok_low; lia) ltac:(rewrite Z.mul_comm; by apply Z.mod_mul) ltac:(lia) Hat).
  eapply site_step_bind; [exact Hp|]. clear Hp. intros [] st1 (Hn & x & fr & Hx & Hfr & Hst1).
  rewrite Z.mul_comm, Z.div_mul in Hn, Hx, Hst1 by done.
  unfold wrap. change PAGE_SIZE with 4096. rewrite Z.mod_small by lia. replace (4096 * lo + 4096) with (4096 * (lo + 1)) by lia.
  eapply site_step_weaken; [|eapply (IH (lo + 1) hi); [exact Hst1|by eapply accounted_insert|lia..]].
  intros st2 (pages' & rs' & fs' & [Ha ->] & Hrest). exists pages', rs, fs'. split; [|done].
  split; [eapply adds_cons; [lia|done..]|done].
Qed.

Definition first_page (s : Elf.Segment) : Z := Elf.at_ s / 4096.
Definition last_page (s : Elf.Segment) : Z := (Elf.at_ s + Elf.memory_size s - 1) / 4096.

Definition range_of (s : Elf.Segment) : PhysRange := {| range_start := Elf.at_ s; range_len := Elf.memory_size s |}.
Definition claims (s : Elf.Segment) : PhysRange * bool := (range_of s, Elf.writable s).

Lemma own_step r w pages rs fs st post : site_ok k s0 space pages rs fs st →
  (∀ st', site_ok k s0 space pages (rs ++ [(r, w)]) fs st' → post st') →
  site_step k s0 space (on_building (λ b, Build.own b r w) st) post.
Proof.
  intros [Hsp Hl Hb Hfree] Hpost. destruct st as [b m]. unfold on_building. cbn [fst snd] in *.
  pose proof (own_spec b rs fs r w Hb) as Hown. destruct (Build.own b r w) as [b'|e| |]; try done.
  - destruct Hown as [Hb' Hsp']. apply Hpost. split; [by cbn; rewrite Hsp'|exact Hl|exact Hb'|done].
  - by exists pages, rs, fs.
Qed.

Lemma load_segment_spec s pages rs fs st : seg_fine file s → site_ok k s0 space pages rs fs st → accounted pages fs →
  site_step k s0 space (Loader.load_segment file s st)
    (loaded (λ pages' rs', adds (page_holds file s) (first_page s) (last_page s) pages pages' ∧ rs' = rs ++ [claims s])).
Proof.
  intros Hs Hst Hacc. pose proof Hs as [(Ho & Hf & Ha & Hm) (H1 & H2 & H3 & H4 & _)]. unfold Loader.load_segment, Elf.end_, wrap.
  rewrite (Z.mod_small (Elf.at_ s + _)) by lia. rewrite (Z.mod_small (_ - 1)) by lia.
  rewrite !page_down_spec by (unfold in_width; lia). fold (first_page s) (last_page s).
  assert (first_page s ≤ last_page s) as Hle by (apply Z.div_le_mono; lia).
  assert (0 ≤ first_page s) as H0 by (apply Z.div_pos; lia).
  assert (last_page s < 2 ^ 35) as Hlast by (apply Z.div_lt_upper_bound; lia).
  assert (Elf.at_ s < 4096 * first_page s + 4096) as Hfirst.
  { unfold first_page. pose proof (Z.mod_pos_bound (Elf.at_ s) 4096). pose proof (Z.div_mod (Elf.at_ s) 4096). lia. }
  pose proof (load_pages_spec s Hs (Loader.page_fuel (4096 * first_page s) (4096 * last_page s)) (first_page s) (last_page s)
    pages rs fs st Hst Hacc H0 Hlast Hfirst ltac:(lia)) as Hp.
  specialize (Hp ltac:(unfold Loader.page_fuel; change PAGE_SIZE with 4096; rewrite <-Z.mul_sub_distr_l, Z.mul_comm, Z.div_mul by done; lia)).
  eapply site_step_bind; [exact Hp|]. intros [] st1 (pages' & rs' & fs' & [Hadds ->] & Hacc' & Hst').
  eapply (own_step (range_of s) (Elf.writable s)); [exact Hst'|]. intros st2 Hst2. by exists pages', (rs ++ [claims s]), fs'.
Qed.

(** ** All segments *)
Definition covers (s : Elf.Segment) (pg : Z) : Prop := first_page s ≤ pg ≤ last_page s.

#[export] Instance covers_dec s pg : Decision (covers s pg).
Proof. unfold covers. apply _. Defined.

(** The segment a page belongs to. *)
Definition owner (l : list Elf.Segment) (pg : Z) : option Elf.Segment := find (λ s, bool_decide (covers s pg)) l.

Definition owners (l : list Elf.Segment) : Prop := ∀ pg s, s ∈ l → covers s pg → owner l pg = Some s.

Definition laid (l : list Elf.Segment) (pages pages' : gmap Z PageInfo) : Prop :=
  owners l ∧
  ∀ pg, match owner l pg with
        | Some s => pages !! pg = None ∧ ∃ x, pages' !! pg = Some x ∧ page_holds file s pg x
        | None => pages' !! pg = pages !! pg
        end.

Lemma laid_cons s l pages pages1 pages2 : adds (page_holds file s) (first_page s) (last_page s) pages pages1 →
  laid l pages1 pages2 → laid (s :: l) pages pages2.
Proof.
  intros Ha [Hown Hl]. split.
  - intros pg s' Hin Hc. specialize (Ha pg). specialize (Hl pg). unfold owner in *. cbn [find].
    case_bool_decide as Hcs; fold (covers s pg) in Ha; case_decide; try done.
    + apply elem_of_cons in Hin as [->|Hin]; [done|]. destruct Ha as (_ & x & Hx & _).
      specialize (Hown pg s' Hin Hc). unfold owner in Hown. rewrite Hown in Hl. destruct Hl as [Hl _]. by rewrite Hl in Hx.
    + apply elem_of_cons in Hin as [->|Hin]; [done|]. by apply Hown.
  - intros pg. specialize (Ha pg). specialize (Hl pg). unfold owner in *. cbn [find].
    fold (covers s pg) in Ha. case_bool_decide as Hc; case_decide; try done.
    + destruct Ha as (Hn & x & Hx & Hh). split; [done|]. destruct (find _ l) as [s'|].
      * destruct Hl as [Hl _]. by rewrite Hx in Hl.
      * exists x. by rewrite Hl.
    + destruct (find _ l) as [s'|]; by rewrite <-Ha.
Qed.

Lemma load_segments_spec l : Forall (seg_fine file) l → ∀ pages rs fs st,
  site_ok k s0 space pages rs fs st → accounted pages fs →
  site_step k s0 space (for_in l (λ _ segment, Loader.load_segment file segment) () st)
    (loaded (λ pages' rs', laid l pages pages' ∧ rs' = rs ++ (claims <$> l))).
Proof.
  induction 1 as [|s l Hs Hl IH]; intros pages rs fs st Hst Hacc; cbn [for_in].
  { exists pages, rs, fs. split; [split; [split; [by intros pg s Hs%not_elem_of_nil|by intros pg]|by rewrite app_nil_r]|done]. }
  eapply site_step_bind; [by eapply load_segment_spec|].
  intros [] st1 (pages1 & rs1 & fs1 & [Ha ->] & Hacc1 & Hst1).
  eapply site_step_weaken; [|by eapply IH]. intros st2 (pages2 & rs2 & fs2 & [Hl2 ->] & Hrest).
  exists pages2, ((rs ++ [claims s]) ++ (claims <$> l)), fs2. split; [|done].
  split; [by eapply laid_cons|by rewrite <-app_assoc].
Qed.

(** ** The stack, and all of [load] *)
Definition stack_holds (x : PageInfo) : Prop :=
  pi_flags x = Flags.user true false ∧ ∀ i, 0 ≤ i < 4096 → pi_byte x i = 0.

Definition stack_page : Z := STACK_BASE / 4096.

Definition program_pages (l : list Elf.Segment) (pages : gmap Z PageInfo) : Prop :=
  owners l ∧
  ∀ pg, match owner l pg with
        | Some s => pg ≠ stack_page ∧ ∃ x, pages !! pg = Some x ∧ page_holds file s pg x
        | None => if decide (pg = stack_page) then ∃ x, pages !! pg = Some x ∧ stack_holds x else pages !! pg = None
        end.

Definition claims_all (l : list Elf.Segment) : list (PhysRange * bool) := (claims <$> l) ++ [(Loader.stack_range, true)].

Lemma load_stack_spec pages rs fs st : site_ok k s0 space pages rs fs st → accounted pages fs →
  site_step k s0 space
    ((frame ← on_machine (take_frame Stack);
      _ ← on_building (λ b, Build.took b frame Stack);
      _ ← Loader.map_user STACK_BASE frame (Flags.user true false) Mapping;
      on_building (λ b, Build.own b Loader.stack_range true)) st)
    (loaded (λ pages' rs', pages !! stack_page = None ∧
       (∃ x, stack_holds x ∧ pages' = <[stack_page := x]> pages) ∧ rs' = rs ++ [(Loader.stack_range, true)])).
Proof.
  intros Hst Hacc.
  pose proof (place_page_spec k s0 space pages rs fs st STACK_BASE Stack (λ _, mret ()) (Flags.user true false) Mapping
    (λ _, 0) Hst ltac:(by apply va_ok_low) eq_refl ltac:(done) eq_refl) as Hp.
  specialize (Hp ltac:(intros m fr Hl Ho _ Hz; by exists m)).
  match type of Hp with site_step _ _ _ ?o ?P => assert (site_step k s0 space
    ((frame ← on_machine (take_frame Stack); _ ← on_building (λ b, Build.took b frame Stack);
      Loader.map_user STACK_BASE frame (Flags.user true false) Mapping) st) P) as Hq end.
  { revert Hp. rewrite !dev_bind_run. destruct (on_machine _ st) as [[fr|e| |] s1]; done. }
  clear Hp. revert Hq. rewrite !dev_bind_run. destruct (on_machine _ st) as [[fr|e| |] s1]; try done.
  rewrite !dev_bind_run. destruct (on_building _ s1) as [[[]|e| |] s2]; try done.
  intros Hq. eapply site_step_bind; [exact Hq|]. clear Hq.
  intros [] st1 (Hn & x & fr' & Hx & Hfr & Hb & Hst1).
  eapply (own_step Loader.stack_range true); [exact Hst1|]. intros st2 Hst2.
  eexists _, _, _. split; [|split; [|exact Hst2]]; [split; [done|split; [exists x; by split|done]]|].
  by eapply accounted_insert.
Qed.

Lemma load_spec program st : Forall (seg_fine file) (Elf.segments program) →
  site_ok k s0 space ∅ [] [] st →
  site_step k s0 space (Loader.load program file st)
    (loaded (λ pages rs, program_pages (Elf.segments program) pages ∧ rs = claims_all (Elf.segments program))).
Proof.
  intros Hs Hst. unfold Loader.load.
  eapply site_step_bind.
  { eapply load_segments_spec; [done|exact Hst|]. intros a. split; [intros (f & Hf & _); by apply elem_of_nil in Hf|].
    by intros (pg & x & Hx & _). }
  intros [] st1 (pages1 & rs1 & fs1 & [Hl ->] & Hacc1 & Hst1).
  eapply site_step_weaken; [|by eapply load_stack_spec].
  intros st2 (pages2 & rs2 & fs2 & (Hn & (x & Hx & ->) & ->) & Hrest).
  eexists _, _, fs2. split; [|exact Hrest]. split; [|done]. destruct Hl as [Hown Hl]. split; [done|]. intros pg. specialize (Hl pg).
  destruct (decide (pg = stack_page)) as [->|Hne].
  - rewrite lookup_insert_eq. destruct (owner _ _); [destruct Hl as (_ & y & Hy & _); by rewrite Hn in Hy|]. by exists x.
  - rewrite lookup_insert_ne by done. destruct (owner _ _); [split; [done|]; apply Hl|done].
Qed.
End program.
