(* ===== verification/LoadThms.v ===== *)
(** * A process started from a program: its memory and its pointers

    [spawn_elf_exact]: the space of a process just started shows exactly the
    program, and nothing that was in use has been written.
    [owned_pointers_resolve]: what the kernel's pointer checks accept. *)

From S2P Require Import Prelude Words PhysMem FrameAlloc FrameAllocProofs Bytes Elf ElfThms Memory HalPaging PageTables PageWalk PageTree PageMap PageMapThms FramesZeroed Spaces PageThms Stacks Process Load LoadProofs LoadProgram.
Local Open Scope Z_scope.

#[local] Opaque Tables.kernel_slots Tables.lower_slots.

(** ** The other spaces *)
Section others.
  Context (k : Z) (ps : list Z) (s0 s : Machine).
  Hypothesis Hok : spaces_ok k ps s0.
  Hypothesis Hg : good s.
  Hypothesis Hun : untouched s0 s.

Lemma others_same Sl r x j : (∀ i, i ∈ Sl → 0 ≤ i < 512) → sound Sl 3 r s0 →
  x ∈ tree (read_entry s0.1) Sl 3 r → 0 ≤ j < 512 → (x = r → j ∈ Sl) → read_entry s.1 x j = read_entry s0.1 x j.
Proof.
  intros HSl Hs Hx Hj _. apply (un_same _ _ Hun); [by eapply tree_ok|exact (so_pool _ _ _ _ Hs _ Hx)|done].
Qed.

Lemma others_tree Sl r : (∀ i, i ∈ Sl → 0 ≤ i < 512) → sound Sl 3 r s0 →
  tree (read_entry s.1) Sl 3 r = tree (read_entry s0.1) Sl 3 r ∧ sound Sl 3 r s.
Proof.
  intros HSl Hs. split.
  - apply (frame_tree Sl 2 r s0 s); [done|exact Hs|]. intros x j. by apply others_same.
  - apply (frame_sound Sl 2 r s0 s); [done|exact Hs|exact Hg|exact (un_pool _ _ Hun)|]. intros x j. by apply others_same.
Qed.

Lemma others_root r j : r = k ∨ r ∈ ps → 0 ≤ j < 512 → read_entry s.1 r j = read_entry s0.1 r j.
Proof.
  intros Hr Hj. assert (table_ok r ∧ ¬ kernel_pool s0.2 r) as [Ht Hp]; [|by apply (un_same _ _ Hun)].
  destruct Hr as [-> | Hr].
  - exact (one_kernel_table k ps s0 Hok k (one_self _ _ _)).
  - exact (one_lower_table k ps s0 Hok r r Hr (one_self _ _ _)).
Qed.

Lemma others_ok : spaces_ok k ps s.
Proof.
  destruct (others_tree Tables.kernel_slots k kernel_range (sp_kernel _ _ _ Hok)) as [Hkt Hks].
  assert (∀ p, p ∈ ps → lower_tree s.1 p = lower_tree s0.1 p ∧ sound Tables.lower_slots 3 p s) as Hlow.
  { intros p Hp. apply (others_tree Tables.lower_slots p lower_range). by apply Hok. }
  split; [done|..].
  - intros p Hp. by apply Hlow.
  - intros p x Hp. rewrite Hkt, (proj1 (Hlow p Hp)). by apply Hok.
  - intros p q x Hp Hq. rewrite (proj1 (Hlow p Hp)), (proj1 (Hlow q Hq)). by apply Hok.
  - intros p j Hp Hj. pose proof (kernel_range j Hj). rewrite !others_root by tauto. by apply Hok.
Qed.

Lemma others_resolve p va : p ∈ ps → va_ok va → resolve p s.1 va = resolve p s0.1 va.
Proof.
  intros Hp Hv. pose proof (sp_lower _ _ _ Hok p Hp) as Hs. destruct (decide (va < KERNEL_SPACE_BASE)) as [Hva|Hva].
  - unfold resolve. rewrite (proj2 Hv). apply (frame_access Tables.lower_slots 2 p s0 s); [apply lower_range|exact Hs| |apply table_indices_ok|by apply lower_va].
    intros x j. apply others_same; [apply lower_range|done].
  - apply Z.nlt_ge in Hva. rewrite (shared_resolve k ps s p va others_ok Hp Hv Hva), (shared_resolve k ps s0 p va Hok Hp Hv Hva).
    assert (resolve k s.1 va = resolve k s0.1 va) as ->.
    { unfold resolve. rewrite (proj2 Hv).
      apply (frame_access Tables.kernel_slots 2 k s0 s); [apply kernel_range|apply Hok| |apply table_indices_ok|].
      - intros x j. apply others_same; [apply kernel_range|apply Hok].
      - rewrite <-(half_kernel va Hva). by apply first_in_half. }
    pose proof (first_in_half va Hv) as Hf. rewrite table_indices_div, (half_kernel va Hva) in Hf.
    by rewrite others_root by (by right || by apply kernel_range).
Qed.

Lemma others_kernel va : va_ok va → KERNEL_SPACE_BASE ≤ va → resolve k s.1 va = resolve k s0.1 va.
Proof.
  intros Hv Hva. unfold resolve. rewrite (proj2 Hv).
  apply (frame_access Tables.kernel_slots 2 k s0 s); [apply kernel_range|apply Hok| |apply table_indices_ok|].
  - intros x j. apply others_same; [apply kernel_range|apply Hok].
  - rewrite <-(half_kernel va Hva). by apply first_in_half.
Qed.

(** With one space more, made out of frames that were free. *)
Lemma others_and_one c pages : layout_ok k s0 c pages s → spaces_ok k (c :: ps) s.
Proof.
  intros Hl. destruct (others_tree Tables.kernel_slots k kernel_range (sp_kernel _ _ _ Hok)) as [Hkt Hks].
  pose proof others_ok as Hok'.
  assert (∀ p, p ∈ ps → lower_tree s.1 p = lower_tree s0.1 p) as Hlow.
  { intros p Hp. apply (others_tree Tables.lower_slots p lower_range). by apply Hok. }
  pose proof (lo_tables _ _ _ _ _ Hl) as Ht.
  split; [done|..].
  - intros p [->|Hp]%elem_of_cons; [apply Hl|by apply Hok'].
  - intros p x [->|Hp]%elem_of_cons Hx; [|by apply (sp_kernel_apart _ _ _ Hok')].
    rewrite Hkt in Hx. intros Hx'. apply (one_kernel_table k ps s0 Hok x) in Hx as [_ Hx]. by apply Hx, Ht.
  - intros p q x [->|Hp]%elem_of_cons [->|Hq]%elem_of_cons Hne; [done|..|by apply Hok'].
    + intros Hx Hx'. rewrite (Hlow q Hq) in Hx'. apply (one_lower_table k ps s0 Hok q) in Hx' as [_ Hx']; [|done]. by apply Hx', Ht.
    + intros Hx' Hx. rewrite (Hlow p Hp) in Hx'. apply (one_lower_table k ps s0 Hok p) in Hx' as [_ Hx']; [|done]. by apply Hx', Ht.
  - intros p j [->|Hp]%elem_of_cons Hj; [|by apply Hok']. intros _. rewrite (lo_upper _ _ _ _ _ Hl j Hj).
    symmetry. apply others_root; [by left|by apply kernel_range].
Qed.
End others.

(** ** Giving frames back *)
Lemma give_spec {E} fr p (s : Machine) : good s → Frame.valid fr →
  ∃ s', Stacks.give (E:=E) fr p s = (Ok (), s') ∧ good s' ∧ s'.1 = s.1 ∧
    ∀ x, kernel_pool s'.2 x → kernel_pool s.2 x ∨ x = frame_start fr.
Proof.
  destruct s as [m z]. intros [Hz Hm] Hv. unfold Stacks.give, Stacks.if_ok, Zeroed.deallocate_as.
  pose proof (deallocate_as_spec (inner z) fr p (proj1 Hz) Hv) as Hd. cbv zeta in Hd.
  destruct (FrameAlloc.deallocate_as (inner z) fr p) as [a'|e| |]; try done.
  2:{ exists (m, z). split; [done|]. split; [by split|]. split; [done|]. by left. }
  destruct Hd as (_ & _ & _ & Hi & Henv & Hpool & _). eexists. split; [reflexivity|]. split.
  - split; [|done]. destruct Hz as (_ & H40 & Hb & Hw). split; [done|]. cbn [inner window with_inner snd].
    by rewrite (same_env_cov _ _ Henv).
  - split; [done|]. intros x (n & Hn & ->). cbn [snd inner with_inner] in Hn. rewrite Hpool in Hn.
    apply elem_of_union in Hn as [->%elem_of_singleton|Hn]; [right; by rewrite frame_address|left; by exists n].
Qed.

Lemma give_all_spec {E} fs : Forall (λ f : PhysFrame * FramePurpose, Frame.valid f.1) fs → ∀ s : Machine, good s →
  ∃ s', for_in (E:=E) fs (λ _ f, Stacks.give f.1 f.2) () s = (Ok (), s') ∧ good s' ∧ s'.1 = s.1 ∧
    ∀ x, kernel_pool s'.2 x → kernel_pool s.2 x ∨ ∃ f, f ∈ fs ∧ x = frame_start f.1.
Proof.
  induction 1 as [|f fs Hf Hfs IH]; intros s Hs; cbn [for_in].
  { exists s. split; [done|]. split; [done|]. split; [done|]. by left. }
  destruct (give_spec (E:=E) f.1 f.2 s Hs Hf) as (s1 & E1 & Hs1 & Hm1 & Hp1). rewrite (dev_bind_Ok _ _ _ _ _ E1).
  destruct (IH s1 Hs1) as (s2 & E2 & Hs2 & Hm2 & Hp2). exists s2. split; [done|]. split; [done|].
  split; [congruence|]. intros x [Hx|(g & Hg & ->)]%Hp2.
  - apply Hp1 in Hx as [Hx| ->]; [by left|right]. exists f. split; [by left|done].
  - right. exists g. split; [by right|done].
Qed.

Lemma give_back_spec {E} b rs fs (s : Machine) : build_ok b rs fs → good s →
  ∃ b' s', Build.give_back (E:=E) b s = (Ok b', s') ∧ good s' ∧ s'.1 = s.1 ∧
    ∀ x, kernel_pool s'.2 x → kernel_pool s.2 x ∨ ∃ f, f ∈ fs ∧ x = frame_start f.1.
Proof.
  intros Hb Hs. unfold Build.give_back. rewrite (bk_frames _ _ _ Hb), filled_all.
  destruct (give_all_spec (E:=E) fs (bk_valid _ _ _ Hb) s Hs) as (s' & E1 & H1 & H2 & H3).
  eexists _, s'. by rewrite (dev_bind_Ok _ _ _ _ _ E1).
Qed.

(** ** The start: an empty space *)
Lemma new_space_layout window k (ps : list Z) s : spaces_ok k ps s →
  ∃ r s', Loader.new_space {| root := k; base := window |} s = (r, s') ∧ good s' ∧ untouched s s' ∧
    match r with
    | Ok T => layout_ok k s (root T) ∅ s' ∧ base T = window
    | Err e => ∃ e', e = Space e'
    | _ => False
    end.
Proof.
  intros Hok. destruct (one_kernel_table k ps s Hok k (one_self _ _ _)) as [Hk Hkp].
  destruct (new_space_spec window s k (so_good _ _ _ _ (sp_kernel _ _ _ Hok)) Hk Hkp) as (r & s' & E & Hr).
  exists (match r with Ok T => Ok T | Err e => Err (Space (to_paging e)) | Panic => Panic | Diverge => Diverge end), s'.
  split. { unfold Loader.new_space, KernelTables.new_address_space, dev_map_err. unfold at_root in E. rewrite E. by destruct r. }
  assert (∀ s', evolves (λ _, False) s s' → untouched s s') as Hun.
  { intros t Ht. split; [apply Ht|]. intros x j Hx Hp Hj. apply (ev_same _ _ _ Ht); [done|done|by intros []|exact Hp]. }
  destruct r as [T|e| |]; try done.
  2:{ destruct Hr as [Hev _]. split; [apply Hev|]. split; [by apply Hun|by eexists]. }
  destruct Hr as (c & -> & Hev & Hc & Hin & Hout & Hsame & Hroot). split; [apply Hev|]. split; [by apply Hun|]. split; [|done].
  pose proof (new_ok k ps s Hok c s' Hev Hc Hin Hout Hsame Hroot) as Hok'.
  pose proof (new_tree k s c s' Hroot) as Ht. cbn [root at_root].
  split.
  - apply Hok'. by left.
  - by apply Hun.
  - intros x. rewrite Ht. by intros ->%list_elem_of_singleton.
  - intros j Hj. pose proof (kernel_range j Hj). rewrite Hroot by done. by rewrite decide_True.
  - intros va Hv Hlt. rewrite lookup_empty. cbn [fmap option_fmap option_map].
    rewrite (new_view k ps s Hok c s' Hev Hc Hin Hout Hsame Hroot va Hv). destruct (Z.ltb_spec va KERNEL_SPACE_BASE); [done|lia].
  - intros pg x Hx. by rewrite lookup_empty in Hx.
  - intros pg pg' x x' Hx. by rewrite lookup_empty in Hx.
Qed.

(** ** What a process started from a program is *)
Definition image (file : list Z) (l : list Elf.Segment) (va : Z) : option (PageFlags * Z) :=
  match owner l (va / 4096) with
  | Some s => Some (seg_flags s, seg_byte file s va)
  | None => if decide (va / 4096 = stack_page) then Some (Flags.user true false, 0) else None
  end.

(** The lower half of [root] leads to bytes as [img] says and nowhere else. *)
Definition shows (root : Z) (m : Mem) (img : Z → option (PageFlags * Z)) : Prop :=
  ∀ va, va_ok va → va < KERNEL_SPACE_BASE →
    match img va with
    | None => resolve root m va = None
    | Some (fl, b) => ∃ fr,
        resolve root m va = Some {| a_base := fr; a_size := 4096; a_writable := f_writable fl; a_user := true;
                                    a_execute := f_executable fl |} ∧
        Ram.byte m (fr + va mod 4096) = b
    end.

(** Each of its pages is a frame of its own, that was free at [s0] and is
    not any more. *)
Definition private (root : Z) (s0 s : Machine) : Prop :=
  (∀ va a, va_ok va → va < KERNEL_SPACE_BASE → resolve root s.1 va = Some a →
     kernel_pool s0.2 (a_base a) ∧ ¬ kernel_pool s.2 (a_base a) ∧ a_base a ∉ lower_tree s.1 root) ∧
  (∀ va va' a a', va_ok va → va_ok va' → va < KERNEL_SPACE_BASE → va' < KERNEL_SPACE_BASE →
     resolve root s.1 va = Some a → resolve root s.1 va' = Some a' → a_base a = a_base a' → va / 4096 = va' / 4096).

Record started (k : Z) (s0 : Machine) (file : list Z) (program : Elf.Program) (stack : KStack) (p : Process) (s : Machine) : Prop := {
  st_pages : ∃ pages fs, layout_ok k s0 (root (space p)) pages s ∧ program_pages file (Elf.segments program) pages ∧
    accounted pages fs ∧ frames p = filled MAX_FRAMES Some fs;
  st_owned : owned p = filled MAX_RANGES (λ r, Some r.1) (claims_all (Elf.segments program));
  st_writable : writable p = filled MAX_RANGES writable_of (claims_all (Elf.segments program));
  st_count : (length (claims_all (Elf.segments program)) ≤ MAX_RANGES)%nat;
  st_entry : entry p = Elf.entry program;
  st_rest : kernel_stack p = stack ∧ files p = Files.new
}.

Lemma pages_show k s0 root file l pages s : layout_ok k s0 root pages s → program_pages file l pages →
  shows root s.1 (image file l).
Proof.
  intros Hl [_ Hp] va Hv Hlt. specialize (Hp (va / 4096)). rewrite (lo_resolve _ _ _ _ _ Hl va Hv Hlt). unfold image.
  pose proof (Z.mod_pos_bound va 4096 eq_refl) as Hm. pose proof (Z.div_mod va 4096) as Hd.
  destruct (owner l (va / 4096)) as [sg|].
  - destruct Hp as (_ & x & Hx & Hf & Hb). exists (pi_frame x). rewrite Hx. split; [cbn [fmap option_fmap option_map]; unfold leads_to; by rewrite Hf|].
    destruct (lo_frame _ _ _ _ _ Hl _ _ Hx) as (_ & _ & _ & _ & ->); [|done]. rewrite Hb by done. f_equal. lia.
  - case_decide; [|by rewrite Hp]. destruct Hp as (x & Hx & Hf & Hb). exists (pi_frame x). rewrite Hx.
    split; [cbn [fmap option_fmap option_map]; unfold leads_to; by rewrite Hf|]. destruct (lo_frame _ _ _ _ _ Hl _ _ Hx) as (_ & _ & _ & _ & ->); [|done]. by apply Hb.
Qed.

Lemma pages_private k s0 root pages s : layout_ok k s0 root pages s → private root s0 s.
Proof.
  intros Hl. split.
  - intros va a Hv Hlt. rewrite (lo_resolve _ _ _ _ _ Hl va Hv Hlt). intros (x & Hx & ->)%fmap_Some.
    destruct (lo_frame _ _ _ _ _ Hl _ _ Hx) as (_ & ? & ? & ? & _). done.
  - intros va va' a a' Hv Hv' Hlt Hlt'. rewrite (lo_resolve _ _ _ _ _ Hl va Hv Hlt), (lo_resolve _ _ _ _ _ Hl va' Hv' Hlt').
    intros (x & Hx & ->)%fmap_Some (x' & Hx' & ->)%fmap_Some. by apply (lo_inj _ _ _ _ _ Hl).
Qed.

Section spawning.
  Context (window k : Z) (ps : list Z) (file : list Z) (program : Elf.Program) (stack : KStack) (s0 : Machine).
  Hypothesis Hfile : bytes_ok file.
  Hypothesis Hlen : len file < 2 ^ 63.
  Hypothesis Hparse : Elf.parse file (2 ^ 47) = Ok program.
  Hypothesis Hok : spaces_ok k ps s0.

Lemma parsed_program : Elf.segments program = ElfSpec.loads file ∧ Elf.entry program = ElfSpec.field file 24 8 ∧
  ElfSpec.acceptable file (2 ^ 47).
Proof.
  pose proof (ElfSpec.parse_decides file (2 ^ 47) Hfile Hlen ltac:(lia)) as Hd. case_bool_decide as Ha.
  - rewrite Hparse in Hd. injection Hd as ->. split; [|done]. unfold Elf.segments. cbn [Elf.segment_table].
    apply ElfSpec.segments_pad.
  - destruct Hd as [e Hd]. by rewrite Hparse in Hd.
Qed.

Lemma parsed_fine : Forall (seg_fine file) (Elf.segments program).
Proof.
  destruct parsed_program as (-> & _ & _ & Hs & _). pose proof (ElfSpec.loads_width file Hfile) as Hw.
  rewrite Forall_forall in Hs, Hw |- *. intros s Hin. split; [by apply Hw|by apply Hs].
Qed.

Lemma spawn_elf_facts :
  ∃ r s, Loader.spawn_elf {| root := k; base := window |} program file stack s0 = (r, s) ∧ good s ∧ untouched s0 s ∧
    match r with
    | Ok p => started k s0 file program stack p s ∧ base (space p) = window
    | Err _ => True
    | _ => False
    end.
Proof.
  unfold Loader.spawn_elf. destruct (new_space_layout window k ps s0 Hok) as (r & s1 & -> & Hg & Hun & Hr).
  destruct r as [T|e| |]; try done; [|by eexists _, s1].
  destruct Hr as [Hl HT].
  assert (site_ok k s0 T ∅ [] [] (Build.new T, s1)) as Hsite by (split; [done|exact Hl|apply build_new|constructor]).
  pose proof (load_spec k s0 T file Hfile Hlen program _ parsed_fine Hsite) as Hload. unfold site_step in Hload.
  destruct (Loader.load program file (Build.new T, s1)) as [r [b s2]]. cbn [fst snd] in Hload.
  destruct r as [[]|e| |]; try done.
  - destruct Hload as (pages & rs & fs & [Hp ->] & Hacc & [Hsp Hl2 Hb _]). cbn [fst snd] in *.
    eexists _, s2. split; [reflexivity|]. split; [apply Hl2|]. split; [apply Hl2|]. cbn [space Build.finish].
    split; [|by rewrite Hsp]. split; cbn; [exists pages, fs; rewrite Hsp; split; [done|]; split; [done|]; split; [done|apply Hb]|apply Hb|apply Hb|apply Hb|done|done].
  - destruct Hload as (pages & rs & fs & [Hsp Hl2 Hb Hfree]). cbn [fst snd] in *.
    destruct (give_back_spec (E:=SpawnError) b rs fs s2 Hb (so_good _ _ _ _ (lo_sound _ _ _ _ _ Hl2))) as (b' & s3 & E & Hg3 & Hm & Hpool).
    eexists _, s3. split; [by rewrite (dev_bind_Ok _ _ _ _ _ E)|]. split; [done|]. split; [|done].
    destruct (lo_untouched _ _ _ _ _ Hl2) as [U1 U2]. split; [|by rewrite Hm].
    intros x [Hx|(f & Hf & ->)]%Hpool; [auto|]. rewrite Forall_forall in Hfree. by apply Hfree.
Qed.
End spawning.

Lemma program_pages_low file l pages pg x : Forall (seg_fine file) l → program_pages file l pages → pages !! pg = Some x →
  0 ≤ pg < 2 ^ 35.
Proof.
  intros Hs [Hown Hp] Hx. specialize (Hp pg). destruct (owner l pg) as [sg|] eqn:Ho.
  - unfold owner in Ho. apply find_some in Ho as [Hin Hc%bool_decide_eq_true]. rewrite Forall_forall in Hs.
    destruct (Hs sg) as [(Ho' & Hf & Ha & Hm) (H1 & H2 & H3 & H4 & _)]; [by apply list_elem_of_In|].
    unfold covers, first_page, last_page in Hc.
    assert (0 ≤ Elf.at_ sg / 4096) by (apply Z.div_pos; lia).
    assert ((Elf.at_ sg + Elf.memory_size sg - 1) / 4096 < 2 ^ 35) by (apply Z.div_lt_upper_bound; lia). lia.
  - case_decide as Hd; [|by rewrite Hp in Hx]. rewrite Hd. done.
Qed.

(** An address in a segment is in a page the segment owns. *)
Lemma in_covers s va : Elf.at_ s ≤ va < Elf.at_ s + Elf.memory_size s → covers s (va / 4096).
Proof. intros Hva. unfold covers, first_page, last_page. split; apply Z.div_le_mono; lia. Qed.

Lemma segment_shown file l pages k s0 r s sg va : Forall (seg_fine file) l → layout_ok k s0 r pages s →
  program_pages file l pages → sg ∈ l → Elf.at_ sg ≤ va < Elf.at_ sg + Elf.memory_size sg →
  ∃ a, resolve r s.1 va = Some a ∧ a_user a = true ∧ a_writable a = Elf.writable sg ∧ a_execute a = Elf.executable sg.
Proof.
  intros Hs Hl Hp Hin Hva. pose proof Hs as Hs'. rewrite Forall_forall in Hs'.
  destruct (Hs' sg Hin) as [(Ho' & Hf & Ha & Hm) (H1 & H2 & H3 & H4 & _)].
  pose proof (pages_show _ _ _ _ _ _ _ Hl Hp va) as Hshow. destruct Hp as [Hown _].
  unfold image in Hshow. rewrite (Hown (va / 4096) sg Hin (in_covers sg va Hva)) in Hshow.
  destruct Hshow as (fr & Hr & _); [apply va_ok_low; lia|unfold KERNEL_SPACE_BASE; lia|]. eexists. split; [exact Hr|]. done.
Qed.

(** ** A machine to start a process on

    The machine of [PageThms] with its gigabyte also at a window in the
    kernel's half, through which the kernel reaches every frame. *)
Definition WINDOW : Z := 0xFFFF960000000000.
Definition kernel_tables : PageTables := {| root := 0x1000; base := WINDOW |}.
Definition ready : Machine :=
  (write_entry boot_mem 0x1000 300 0x2003,
   Zeroed.new boot_frames {| w_base := WINDOW |}).

Lemma ready_good : good ready.
Proof.
  split.
  - split; [exact boot_frames_inv|]. vm_compute. repeat split; discriminate.
  - change (Ram.wf (write_entry boot_mem 0x1000 300 0x2003)). unfold write_entry. apply Ram.write64_wf. apply boot_good.
Qed.

Lemma ready_tree : tree (read_entry ready.1) Tables.kernel_slots 3 0x1000 = [0x1000; 0x2000].
Proof. vm_compute. reflexivity. Qed.

Lemma ready_child i c : i ∈ Tables.kernel_slots → child (read_entry ready.1) 0x1000 i = Some c → i = 300 ∧ c = 0x2000.
Proof.
  assert (Forall (λ i, child (read_entry ready.1) 0x1000 i = None ∨
    i = 300 ∧ child (read_entry ready.1) 0x1000 i = Some 0x2000) Tables.kernel_slots) as Hc.
  { refine (bool_decide_unpack _ _). vm_compute. exact I. }
  rewrite Forall_forall in Hc. intros Hi He. destruct (Hc i Hi) as [Hn|[-> Hs]]; [by rewrite Hn in He|].
  split; [done|]. congruence.
Qed.

Lemma ready_window i : i ∈ slots → has PRESENT (read_entry ready.1 0x2000 i) = false ∨
  read_entry ready.1 0x2000 i = 0x83.
Proof.
  assert (Forall (λ i, has PRESENT (read_entry ready.1 0x2000 i) = false ∨ read_entry ready.1 0x2000 i = 0x83) slots) as Hc.
  { refine (bool_decide_unpack _ _). vm_compute. exact I. }
  rewrite Forall_forall in Hc. apply Hc.
Qed.

Lemma ready_leaves j : j ∈ slots → child (read_entry ready.1) 0x2000 j = None.
Proof.
  intros Hj. unfold child. destruct (ready_window j Hj) as [He|He]; cbv zeta; rewrite He; [reflexivity|vm_compute; reflexivity].
Qed.

Lemma ready_no_user : no_user (read_entry ready.1) 2 0x2000.
Proof.
  intros [|j v] a; [intros _ Ha; discriminate Ha|]. intros [Hlt _]%indices_ok_cons. cbn [access].
  destruct (ready_window j) as [-> | ->]; [by apply in_slots|intros Ha; discriminate Ha|]. vm_compute. by intros [= <-].
Qed.

Lemma ready_sound : sound Tables.kernel_slots 3 0x1000 ready.
Proof.
  split; [exact ready_good|split; [lia|reflexivity]|rewrite ready_tree|rewrite ready_tree|].
  - refine (bool_decide_unpack _ _). vm_compute. exact I.
  - intros x Hx (f & Hf & He). unfold FRAME_SIZE in He.
    assert (f = 1 ∨ f = 2) as Hf12.
    { apply elem_of_cons in Hx as [->|Hx%list_elem_of_singleton]; lia. }
    assert (1 ∉ pool (FrameAlloc.bitmap (inner ready.2)) ∧ 2 ∉ pool (FrameAlloc.bitmap (inner ready.2))) as [H1 H2].
    { refine (bool_decide_unpack _ _). vm_compute. exact I. }
    destruct Hf12 as [-> | ->]; [exact (H1 Hf)|exact (H2 Hf)].
  - intros i c Hi Hc. destruct (ready_child i c Hi Hc) as [-> ->]. split; [|split].
    + intros j d Hj Hd. rewrite (ready_leaves j Hj) in Hd. discriminate Hd.
    + split; vm_compute; reflexivity.
    + intros _. exact ready_no_user.
Qed.

Lemma ready_spaces : spaces_ok 0x1000 [] ready.
Proof. split; [exact ready_sound|intros; exfalso; by eapply not_elem_of_nil..]. Qed.

Lemma entry_shown file pages k s0 r s : Forall (seg_fine file) (ElfSpec.loads file) → layout_ok k s0 r pages s →
  program_pages file (ElfSpec.loads file) pages → ElfSpec.acceptable file (2 ^ 47) →
  ∃ a, resolve r s.1 (ElfSpec.field file 24 8) = Some a ∧ a_execute a = true ∧ a_user a = true.
Proof.
  intros Hs Hl Hp (_ & _ & _ & Hex). apply Exists_exists in Hex as (sg & Hin & Hva & Hx).
  destruct (segment_shown file _ pages k s0 r s sg _ Hs Hl Hp Hin Hva) as (a & Ha & Hu & _ & He).
  exists a. by rewrite He.
Qed.

(** ** The theorems *)
(** C21: Starting a process from an executable file, on any machine whose
    address spaces are apart: the loader never panics and always answers.
    Whatever it answers, no frame that was in use has been written and
    every other space, and the kernel's half, translates as before.  When it
    answers a process, the lower half of its space shows exactly the
    program: every page of a segment with exactly the segment's rights,
    holding the file's bytes and zeros behind them, one writable page of
    zeros for the stack, and nothing else; each page is a frame of its own
    that was free; the frames on the process's list are exactly those; it
    starts at the file's entry point, which is in one of its executable
    pages, and its space is apart from all the others. *)
Theorem spawn_elf_exact window k ps file program stack (s0 : Machine) :
  bytes_ok file → len file < 2 ^ 63 → Elf.parse file (2 ^ 47) = Ok program → spaces_ok k ps s0 →
  ∃ r s, Loader.spawn_elf {| root := k; base := window |} program file stack s0 = (r, s) ∧
    (∀ x i, PageWalk.table_ok x → ¬ kernel_pool s0.2 x → 0 ≤ i < 4096 → Ram.byte s.1 (x + i) = Ram.byte s0.1 (x + i)) ∧
    (∀ q va, q ∈ ps → va_ok va → resolve q s.1 va = resolve q s0.1 va) ∧
    (∀ va, va_ok va → KERNEL_SPACE_BASE ≤ va → resolve k s.1 va = resolve k s0.1 va) ∧
    match r with
    | Ok p =>
        spaces_ok k (root (space p) :: ps) s ∧
        shows (root (space p)) s.1 (image file (ElfSpec.loads file)) ∧
        private (root (space p)) s0 s ∧
        (∀ f, (∃ u, (f, u) ∈ omap id (frames p)) → ∃ va a, va_ok va ∧ va < KERNEL_SPACE_BASE ∧
           resolve (root (space p)) s.1 va = Some a ∧ a_base a = frame_start f) ∧
        (∀ va a, va_ok va → va < KERNEL_SPACE_BASE → resolve (root (space p)) s.1 va = Some a →
           ∃ f u, (f, u) ∈ omap id (frames p) ∧ frame_start f = a_base a) ∧
        (∃ a, resolve (root (space p)) s.1 (entry p) = Some a ∧ a_execute a = true ∧ a_user a = true) ∧
        entry p = ElfSpec.field file 24 8 ∧ kernel_stack p = stack ∧ files p = Files.new
    | Err _ => spaces_ok k ps s
    | _ => False
    end.
Proof.
  intros Hfile Hlen Hparse Hok.
  destruct (spawn_elf_facts window k ps file program stack s0 Hfile Hlen Hparse Hok) as (r & s & E & Hg & Hun & Hr).
  exists r, s. split; [exact E|]. split.
  { intros x i Hx Hp Hi. apply byte_same; [apply (so_good _ _ _ _ (sp_kernel _ _ _ Hok))|apply Hg| |done].
    intros j Hj. by apply (un_same _ _ Hun). }
  split; [intros q va; by apply (others_resolve k ps s0 s)|]. split; [intros va; by apply (others_kernel k ps s0 s)|].
  destruct r as [p|e| |]; [|by apply (others_ok k ps s0 s)|done|done].
  destruct Hr as [[(pages & fs & Hl & Hp & Hacc & Hfs) _ _ _ Hent [Hst Hf]] _].
  destruct (parsed_program file program Hfile Hlen Hparse) as (Hsegs & Hentry & Hacceptable).
  pose proof (parsed_fine file program Hfile Hlen Hparse) as Hfine. rewrite Hsegs in Hp, Hfine. pose proof (pages_show _ _ _ _ _ _ _ Hl Hp) as Hshow.
  split; [by eapply others_and_one|]. split; [exact Hshow|]. split; [by eapply pages_private|].
  rewrite Hfs, filled_all. split; [|split; [|split]].
  - intros f [u Hf']. destruct (proj1 (Hacc (frame_start f))) as (pg & x & Hx & Hxf); [by exists (f, u)|].
    assert (0 ≤ pg < 2 ^ 35) as Hpg by (by eapply program_pages_low).
    exists (4096 * pg), (leads_to x). assert (va_ok (4096 * pg)) as Hv by (apply va_ok_low; lia).
    assert (4096 * pg < KERNEL_SPACE_BASE) as Hlt by (unfold KERNEL_SPACE_BASE; lia).
    split; [done|]. split; [done|]. rewrite (lo_resolve _ _ _ _ _ Hl _ Hv Hlt), Z.mul_comm, Z.div_mul, Hx by done. done.
  - intros va a Hv Hlt. rewrite (lo_resolve _ _ _ _ _ Hl va Hv Hlt). intros (x & Hx & ->)%fmap_Some.
    destruct (proj2 (Hacc (pi_frame x))) as ([f u] & Hf' & Hfx); [by eexists _, _|]. by exists f, u.
  - rewrite Hent, Hentry. by eapply entry_shown.
  - rewrite Hent, Hentry. done.
Qed.

Definition tiny_program : Elf.Program :=
  {| Elf.entry := 0x400000;
     Elf.segment_table := Some {| Elf.file_offset := 120; Elf.file_size := 1; Elf.at_ := 0x400000; Elf.memory_size := 1;
                                  Elf.flags := 5 |} :: replicate 7 None |}.
Definition some_stack : KStack := {| bottom := 0xFFFFB00000001000; top := 0xFFFFB00000005000 |}.

Lemma tiny_bytes : bytes_ok ElfSpec.tiny.
Proof. refine (bool_decide_unpack _ _). vm_compute. exact I. Qed.

Lemma spawn_elf_exact_witness :
  ∃ p s, Loader.spawn_elf kernel_tables tiny_program ElfSpec.tiny some_stack ready = (Ok p, s) ∧
    spaces_ok 0x1000 [root (space p)] s ∧ (∃ a, resolve (root (space p)) s.1 0x400000 = Some a ∧ a_execute a = true) ∧
    resolve (root (space p)) s.1 0x401000 = None.
Proof.
  destruct (spawn_elf_exact WINDOW 0x1000 [] ElfSpec.tiny tiny_program some_stack ready) as (r & s & E & _ & _ & _ & Hr).
  - exact tiny_bytes.
  - reflexivity.
  - vm_compute. reflexivity.
  - exact ready_spaces.
  - assert (is_ok r = true) as Hok.
    { assert (is_ok (Loader.spawn_elf kernel_tables tiny_program ElfSpec.tiny some_stack ready).1 = true) as Hc
        by (vm_compute; reflexivity).
      unfold kernel_tables in Hc. rewrite E in Hc. exact Hc. }
    destruct r as [p|e| |]; [|discriminate Hok..]. exists p, s. split; [exact E|].
    destruct Hr as (Hsp & Hshow & _ & _ & _ & (a & Ha & Hx & _) & Hent & _). split; [exact Hsp|]. split.
    + exists a. assert (entry p = 0x400000) as <- by (rewrite Hent; vm_compute; reflexivity). split; [exact Ha|exact Hx].
    + specialize (Hshow 0x401000 ltac:(refine (bool_decide_unpack _ _); vm_compute; exact I) ltac:(reflexivity)).
      assert (image ElfSpec.tiny (ElfSpec.loads ElfSpec.tiny) 0x401000 = None) as Hn by (vm_compute; reflexivity).
      rewrite Hn in Hshow. exact Hshow.
Defined.

(** ** Pointers from ring 3 *)
Lemma in_fixed {A} n (f : A → option PhysRange) l r : (length l ≤ n)%nat →
  r ∈ fixed (filled n f l) →
  (∃ a, a ∈ l ∧ f a = Some r) ∨ r = {| range_start := 0; range_len := 0 |}.
Proof.
  intros Hl. unfold fixed, filled. rewrite fmap_app, elem_of_app. intros [Hin|Hin].
  - apply list_elem_of_fmap in Hin as (o & -> & (a & -> & Ha)%list_elem_of_fmap).
    destruct (f a) as [r'|] eqn:He; cbn; [left; by exists a|by right].
  - apply list_elem_of_fmap in Hin as (o & -> & Ho). apply elem_of_replicate in Ho as [-> _]. by right.
Qed.

Lemma in_fixed_2 {A} n (f : A → option PhysRange) l a r : a ∈ l → f a = Some r → r ∈ fixed (filled n f l).
Proof.
  intros Ha Hf. unfold fixed, filled. rewrite fmap_app, elem_of_app. left. apply list_elem_of_fmap. exists (f a).
  split; [by rewrite Hf|]. apply list_elem_of_fmap. by exists a.
Qed.

Lemma owns_spec p ptr n : Proc.owns p ptr n = owned_by (Proc.ranges p) ptr n.
Proof.
  unfold Proc.owns, owned_by. destruct (n =? 0); [|destruct (checked_add 64 ptr n) as [e|]];
    induction (Proc.ranges p) as [|r l IH]; cbn [existsb] in *; rewrite ?IH; try reflexivity. by rewrite orb_false_r.
Qed.

(** The ranges of a program, each with whether it is writable. *)
Definition program_ranges (l : list Elf.Segment) : list (PhysRange * bool) := claims_all l.

(** All of [ptr .. ptr + n] is in the range [r]. *)
Definition inside (r : PhysRange) (ptr n : Z) : Prop := range_start r ≤ ptr ∧ ptr + n ≤ range_start r + range_len r.

Lemma claims_fine file l r w : Forall (seg_fine file) l → (r, w) ∈ program_ranges l →
  Range.valid r ∧ 0 < range_len r ∧ range_start r + range_len r ≤ 2 ^ 47.
Proof.
  intros Hs Hin. unfold program_ranges, claims_all in Hin. apply elem_of_app in Hin as [Hin|Hin%list_elem_of_singleton].
  - apply list_elem_of_fmap in Hin as (sg & [= -> ->] & Hin). rewrite Forall_forall in Hs.
    destruct (Hs sg Hin) as [(Ho' & Hf & Ha & Hm) (H1 & H2 & H3 & H4 & _)]. cbn. split; [split; cbn; done|]. lia.
  - injection Hin as -> ->. split; [split; vm_compute; split; congruence|]. vm_compute. split; congruence.
Qed.

Lemma owned_by_claims file l (f : PhysRange * bool → option PhysRange) ptr n (P : bool → Prop) :
  Forall (seg_fine file) l → (length (program_ranges l) ≤ MAX_RANGES)%nat → 0 ≤ ptr → 0 ≤ n →
  (∀ r w r', f (r, w) = Some r' ↔ r = r' ∧ P w) →
  owned_by (fixed (filled MAX_RANGES f (program_ranges l))) ptr n = true ↔
    0 < n ∧ ∃ r w, (r, w) ∈ program_ranges l ∧ P w ∧ inside r ptr n.
Proof.
  intros Hs Hlen Hp Hn Hf. rewrite owned_by_spec; [|apply Forall_forall|done|done].
  2:{ intros r Hr. apply in_fixed in Hr as [([r' w] & Hin & [-> _]%Hf)| ->]; [|split; cbn; unfold in_width; lia|done].
      by destruct (claims_fine file l r w Hs Hin). }
  split.
  - intros (H0 & Hlt & r & Hr & Ha & Hb). split; [done|].
    apply in_fixed in Hr as [([r' w] & Hin & [-> Hw]%Hf)| ->]; [|cbn in *; lia|done].
    exists r, w. split; [done|]. split; [done|]. split; [done|lia].
  - intros (H0 & r & w & Hin & Hw & [Ha Hb]). destruct (claims_fine file l r w Hs Hin) as (_ & _ & Hc).
    split; [done|]. split; [lia|]. exists r. split; [eapply in_fixed_2; [exact Hin|by apply Hf]|]. split; [done|].
    unfold umax. lia.
Qed.

Lemma range_shown file l pages k s0 r s rg w va : Forall (seg_fine file) l → layout_ok k s0 r pages s →
  program_pages file l pages → (rg, w) ∈ program_ranges l → range_start rg ≤ va < range_start rg + range_len rg →
  ∃ a, resolve r s.1 va = Some a ∧ a_user a = true ∧ a_writable a = w.
Proof.
  intros Hs Hl Hp Hin Hva. unfold program_ranges, claims_all in Hin.
  apply elem_of_app in Hin as [Hin|Hin%list_elem_of_singleton].
  - apply list_elem_of_fmap in Hin as (sg & [= -> ->] & Hin). cbn [range_start range_len range_of] in Hva.
    destruct (segment_shown file l pages k s0 r s sg va Hs Hl Hp Hin Hva) as (a & ? & ? & ? & _). by exists a.
  - injection Hin as -> ->. unfold Loader.stack_range, STACK_BASE in Hva. cbn in Hva. change PAGE_SIZE with 4096 in Hva.
    assert (va / 4096 = stack_page) as Hpg by (change stack_page with 1280; symmetry; apply (Z.div_unique va 4096 1280 (va - 0x500000)); lia).
    destruct Hp as [_ Hp]. specialize (Hp stack_page). rewrite (decide_True (P := stack_page = stack_page)) in Hp by done.
    assert (va_ok va) as Hv by (apply va_ok_low; lia). assert (va < KERNEL_SPACE_BASE) as Hlt by (unfold KERNEL_SPACE_BASE; lia).
    rewrite (lo_resolve _ _ _ _ _ Hl va Hv Hlt), Hpg.
    destruct (owner l stack_page); [by destruct Hp as [Hne _]|]. destruct Hp as (x & -> & Hf & _).
    eexists. split; [reflexivity|]. unfold leads_to. by rewrite Hf.
Qed.

(** The pointer checks of a process just started are exact and sound:
    they accept precisely the non-empty stretches inside one segment or the
    stack (for a pointer the kernel is to write through, a writable one),
    and every byte of what they accept is in a page ring 3 may reach, and
    may write when it is to be written. *)
Theorem owned_pointers_resolve window k ps file program stack (s0 s : Machine) p ptr n :
  bytes_ok file → len file < 2 ^ 63 → Elf.parse file (2 ^ 47) = Ok program → spaces_ok k ps s0 →
  Loader.spawn_elf {| root := k; base := window |} program file stack s0 = (Ok p, s) → 0 ≤ ptr → 0 ≤ n →
  let ranges := program_ranges (ElfSpec.loads file) in
  (Proc.owns p ptr n = true ↔ 0 < n ∧ ∃ r w, (r, w) ∈ ranges ∧ inside r ptr n) ∧
  (owned_by (Proc.writable_ranges p) ptr n = true ↔ 0 < n ∧ ∃ r, (r, true) ∈ ranges ∧ inside r ptr n) ∧
  (Proc.owns p ptr n = true → ∀ va, ptr ≤ va < ptr + n →
     ∃ a, resolve (root (space p)) s.1 va = Some a ∧ a_user a = true) ∧
  (owned_by (Proc.writable_ranges p) ptr n = true → ∀ va, ptr ≤ va < ptr + n →
     ∃ a, resolve (root (space p)) s.1 va = Some a ∧ a_user a = true ∧ a_writable a = true).
Proof.
  intros Hfile Hlen Hparse Hok Hspawn Hp0 Hn0 ranges.
  destruct (spawn_elf_facts window k ps file program stack s0 Hfile Hlen Hparse Hok) as (r & s' & E & _ & _ & Hr).
  rewrite Hspawn in E. injection E as <- <-. destruct Hr as [[(pages & fs & Hl & Hp & _) Ho Hw Hcount _ _] _].
  pose proof (parsed_fine file program Hfile Hlen Hparse) as Hfine.
  rewrite (proj1 (parsed_program file program Hfile Hlen Hparse)) in Ho, Hw, Hp, Hcount, Hfine.
  assert (Proc.owns p ptr n = true ↔ 0 < n ∧ ∃ r w, (r, w) ∈ ranges ∧ True ∧ inside r ptr n) as Howns.
  { rewrite owns_spec. unfold Proc.ranges. rewrite Ho. apply (owned_by_claims file _ _ ptr n (λ _, True)); try done.
    cbn. intros. split; [by intros [= ->]|by intros [-> _]]. }
  assert (owned_by (Proc.writable_ranges p) ptr n = true ↔ 0 < n ∧ ∃ r w, (r, w) ∈ ranges ∧ w = true ∧ inside r ptr n) as Hwr.
  { unfold Proc.writable_ranges. rewrite Hw. apply (owned_by_claims file _ _ ptr n (λ w, w = true)); try done.
    unfold writable_of. intros r [] r'; cbn; split; [by intros [= ->]|by intros [-> _]|done|by intros [_ ?]]. }
  split; [rewrite Howns; naive_solver|]. split; [rewrite Hwr; naive_solver|]. split.
  - intros (_ & r & w & Hin & _ & Ha & Hb)%Howns va Hva.
    destruct (range_shown _ _ _ _ _ _ _ r w va Hfine Hl Hp Hin) as (a & ? & ? & _); [lia|]. by exists a.
  - intros (_ & r & w & Hin & -> & Ha & Hb)%Hwr va Hva.
    destruct (range_shown _ _ _ _ _ _ _ r true va Hfine Hl Hp Hin) as (a & ? & ? & ?); [lia|]. by exists a.
Qed.

Lemma owned_pointers_resolve_witness :
  ∃ p s, Loader.spawn_elf kernel_tables tiny_program ElfSpec.tiny some_stack ready = (Ok p, s) ∧
    Proc.owns p 0x400000 1 = true ∧ owned_by (Proc.writable_ranges p) 0x400000 1 = false ∧
    ∃ a, resolve (root (space p)) s.1 0x400000 = Some a ∧ a_user a = true.
Proof.
  destruct (Loader.spawn_elf kernel_tables tiny_program ElfSpec.tiny some_stack ready) as [r s] eqn:E.
  assert (match r with Ok p => Proc.owns p 0x400000 1 && negb (owned_by (Proc.writable_ranges p) 0x400000 1) | _ => false end
    = true) as Hc.
  { change r with (r, s).1. rewrite <-E. vm_compute. reflexivity. }
  destruct r as [p|e| |]; [|discriminate Hc..]. apply andb_true_iff in Hc as [Ho Hw%negb_true_iff].
  exists p, s. split; [reflexivity|]. split; [exact Ho|]. split; [exact Hw|].
  destruct (owned_pointers_resolve WINDOW 0x1000 [] ElfSpec.tiny tiny_program some_stack ready s p 0x400000 1)
    as (_ & _ & Hr & _); [exact tiny_bytes|reflexivity|vm_compute; reflexivity|exact ready_spaces|exact E|lia|lia|].
  apply (Hr Ho 0x400000). lia.
Defined.

(** A load that fails gives its pages back, but not its page tables: of a
    program whose second segment is in the page of the first, the root and
    three tables stay taken. *)
Definition clash : Elf.Program :=
  {| Elf.entry := 0x400000;
     Elf.segment_table :=
       Some {| Elf.file_offset := 120; Elf.file_size := 1; Elf.at_ := 0x400000; Elf.memory_size := 1; Elf.flags := 5 |} ::
       Some {| Elf.file_offset := 120; Elf.file_size := 1; Elf.at_ := 0x400800; Elf.memory_size := 1; Elf.flags := 5 |} ::
       replicate 6 None |}.

Lemma failed_spawn_keeps_tables :
  let out := Loader.spawn_elf kernel_tables clash ElfSpec.tiny some_stack ready in
  out.1 = Err (SegmentsShareAPage 0x400000) ∧
  Zeroed.free_frames out.2.2 = Zeroed.free_frames ready.2 - 4.
Proof. vm_compute. split; reflexivity. Qed.
