(* ===== verification/Descriptors.v ===== *)
(** * Descriptors

    [open_files_refine]: the table of open files of [Process] behaves like a
    finite map from descriptors to open files, whatever is done with it. *)

From S2P Require Import Prelude Words PhysMem FrameAlloc Bytes FatFormat Memory HalPaging PageTables Stacks Process.
Local Open Scope nat_scope.

(** ** What a program may do with its table *)
Inductive call :=
| Open (f : OpenFile)
| At (d : nat)
| Move (d : nat) (f : OpenFile)
| Close (d : nat)
| Holds (nm : list Z)
| Count
| CloseAll.

Inductive answer :=
| Descriptor (d : option nat)
| File (f : option OpenFile)
| Was (b : bool)
| Number (n : nat)
| Done.

Definition call_table (c : call) (t : Files.OpenFiles) : answer * Files.OpenFiles :=
  match c with
  | Open f => let '(d, t) := Files.open t f in (Descriptor (Z.to_nat <$> d), t)
  | At d => (File (Files.at_ t (Z.of_nat d)), t)
  | Move d f => (Done, Files.set_at t (Z.of_nat d) f)
  | Close d => let '(b, t) := Files.close t (Z.of_nat d) in (Was b, t)
  | Holds nm => (Was (Files.holds t nm), t)
  | Count => (Number (Files.count t), t)
  | CloseAll => (Done, Files.close_everything t)
  end.

(** The same on a map: the lowest free descriptor below four is handed
    out, and a descriptor that is not open answers nothing. *)
Definition lowest (m : gmap nat OpenFile) : option nat :=
  find (λ d, bool_decide (m !! d = None)) (seq 0 MAX_OPEN).

Definition call_map (c : call) (m : gmap nat OpenFile) : answer * gmap nat OpenFile :=
  match c with
  | Open f =>
      match lowest m with
      | Some d => (Descriptor (Some d), <[d := f]> m)
      | None => (Descriptor None, m)
      end
  | At d => (File (m !! d), m)
  | Move d f => (Done, match m !! d with Some _ => <[d := f]> m | None => m end)
  | Close d => (Was (bool_decide (is_Some (m !! d))), delete d m)
  | Holds nm => (Was (bool_decide (map_Exists (λ _ f, is_named (file f) nm = true) m)), m)
  | Count => (Number (size m), m)
  | CloseAll => (Done, ∅)
  end.

Fixpoint answers {S} (step : call → S → answer * S) (cs : list call) (s : S) : list answer :=
  match cs with
  | [] => []
  | c :: cs => let '(a, s) := step c s in a :: answers step cs s
  end.

Lemma index_nat {A} (t : list A) (d : nat) : index t (Z.of_nat d) = t !! d.
Proof. unfold index. destruct (Z.ltb_spec (Z.of_nat d) 0); [lia|by rewrite Nat2Z.id]. Qed.

Lemma held_insert t (d : nat) o : d < length t → held (<[d := o]> t) = partial_alter (λ _, o) d (held t).
Proof.
  intros Hd. apply map_eq. intros d'. rewrite held_lookup. destruct (decide (d = d')) as [<-|Hne].
  - rewrite list_lookup_insert_eq by done. by rewrite lookup_partial_alter_eq.
  - by rewrite list_lookup_insert_ne, lookup_partial_alter_ne, held_lookup by done.
Qed.

Lemma held_alter_high t (d : nat) : length t ≤ d → delete d (held t) = held t.
Proof. intros Hd. apply delete_id. by rewrite held_lookup, lookup_ge_None_2. Qed.

(** A table of four slots, slot by slot. *)
Ltac four t Ht :=
  destruct t as [|a [|b [|c [|d [|? ?]]]]]; try discriminate Ht; destruct a, b, c, d.

Lemma first_free_lowest t : files_ok t → Files.first_free t = lowest (held t).
Proof. intros Ht. unfold lowest, MAX_OPEN. cbn [seq find]. rewrite !held_lookup. by four t Ht. Qed.

Lemma count_size t : files_ok t → Files.count t = size (held t).
Proof. intros Ht. four t Ht; reflexivity. Qed.

Lemma call_refines c t : files_ok t →
  (call_table c t).1 = (call_map c (held t)).1 ∧ held (call_table c t).2 = (call_map c (held t)).2 ∧
  files_ok (call_table c t).2.
Proof.
  intros Ht. destruct c as [f|d|d f|d|nm| |]; cbn [call_table call_map].
  - unfold Files.open. rewrite (first_free_lowest t Ht). destruct (lowest (held t)) as [d|] eqn:Hl; [|done].
    rewrite <-(first_free_lowest t Ht) in Hl. apply first_free_Some in Hl as [Hd _]. apply lookup_lt_Some in Hd.
    cbn [fst snd fmap option_fmap option_map]. rewrite Nat2Z.id. split; [done|]. split; [by apply held_insert|].
    unfold files_ok. by rewrite length_insert.
  - unfold Files.at_. rewrite index_nat, <-held_lookup. done.
  - unfold Files.set_at, Files.at_. rewrite index_nat, <-held_lookup, Nat2Z.id. split; [done|].
    destruct (held t !! d) eqn:Hh; [|done]. assert (d < length t) as Hd.
    { rewrite held_lookup in Hh. destruct (t !! d) eqn:Hl; [|done]. by eapply lookup_lt_Some. }
    cbn [fst snd]. split; [by apply held_insert|]. unfold files_ok. by rewrite length_insert.
  - unfold Files.close. rewrite index_nat, Nat2Z.id. destruct (t !! d) as [o|] eqn:Hl; cbn [fst snd].
    + split; [by rewrite held_lookup, Hl|]. split; [by rewrite held_insert by (by eapply lookup_lt_Some)|].
      unfold files_ok. by rewrite length_insert.
    + apply lookup_ge_None in Hl. split; [by rewrite held_lookup, lookup_ge_None_2|]. by rewrite held_alter_high.
  - split; [|done]. cbn [fst]. f_equal. apply eq_bool_prop_intro. rewrite !Is_true_true, bool_decide_eq_true, holds_iff. done.
  - cbn [fst snd]. by rewrite count_size.
  - done.
Qed.

(** Whatever a program does with its descriptors, what it is answered is
    what a finite map answers in which opening takes the lowest free
    descriptor below four, is refused exactly when four files are open,
    closing frees the descriptor for the next, a descriptor that is not
    open (never opened, closed, or out of range) answers nothing, and a name
    is held exactly when an open file has it. *)
Theorem open_files_refine cs : answers call_table cs Files.new = answers call_map cs ∅.
Proof.
  assert (∀ t, files_ok t → answers call_table cs t = answers call_map cs (held t)) as Hall; [|by apply (Hall Files.new)].
  induction cs as [|c cs IH]; intros t Ht; [done|]. cbn [answers].
  destruct (call_refines c t Ht) as (Ha & Hh & Ht'). destruct (call_table c t) as [a t'], (call_map c (held t)) as [a' m'].
  cbn [fst snd] in *. subst a' m'. by rewrite IH.
Qed.
