(* ===== verification/Events.v ===== *)
(** * The system event log

    Models [kernel/src/events.rs]: lines of text in a ring that forgets its
    oldest, what a flush takes out of it, and how a flush is joined to what
    the file on disk held.  The lock is taken and released inside each
    operation, so an operation takes the ring and answers it; [ticks] is
    what the clock said. *)

From Stdlib Require Import String Ascii.
From S2P Require Import Prelude Words Bytes.
Local Open Scope Z_scope.

(** The bytes of a [&str]. *)
Definition text (s : string) : list Z := (λ c, Z.of_N (N_of_ascii c)) <$> list_ascii_of_string s.

Module Events.
Definition EVENTS : Z := 128.
Definition LINE : Z := 72.
(** [MAX_FILE_CLUSTERS * SECTOR_BYTES]. *)
Definition MAX_FILE : Z := 64 * 512.

Inductive What :=
| Boot | Disk | NoDisk | NotOurs | Loaded | Started | Exited | Faulted | Wrote | Frames | Shell | ShellGone.

Definition word (w : What) : list Z :=
  text match w with
       | Boot => "boot      "
       | Disk => "disk      "
       | NoDisk => "no-disk   "
       | NotOurs => "not-ours  "
       | Loaded => "loaded    "
       | Started => "started   "
       | Exited => "exited    "
       | Faulted => "faulted   "
       | Wrote => "wrote     "
       | Frames => "frames    "
       | Shell => "shell     "
       | ShellGone => "shell-gone"
       end.

Record Line := { bytes : list Z; used : Z }.
Definition empty : Line := {| bytes := replicate (Z.to_nat LINE) 0; used := 0 |}.

Record Ring := {
  lines : list Line;
  written : Z;
  boot : Z;
  flushed : Z
}.
Definition new : Ring :=
  {| lines := replicate (Z.to_nat EVENTS) empty; written := 0; boot := 0; flushed := 0 |}.

(** ** Laying out a line *)
Definition put (into : list Z) (at_ : Z) (s : list Z) : may (Z * list Z) :=
  let room := saturating_sub (len into) at_ in
  let taking := Z.min (len s) room in
  src ← expect (slice s 0 taking);
  into ← expect (copy_at into at_ (at_ + taking) src);
  Ok (taking, into).

(** The digits, the last one first. *)
Fixpoint digits_loop (fuel : nat) (digits : list Z) (count left : Z) : may (list Z * Z) :=
  match fuel with
  | O => Diverge
  | S fuel =>
      digits ← expect (set_index digits count (48 + left mod 10));
      let count := count + 1 in
      let left := left / 10 in
      if left =? 0 then Ok (digits, count) else digits_loop fuel digits count left
  end.

Fixpoint put_digits (digits : list Z) (into : list Z) (put_here : Z) : may (Z * list Z) :=
  match digits with
  | [] => Ok (put_here, into)
  | digit :: digits =>
      if saturating_sub (len into) put_here =? 0 then Ok (put_here, into)
      else
        into ← expect (set_index into put_here digit);
        put_digits digits into (put_here + 1)
  end.

Definition put_number (into : list Z) (at_ number width : Z) : may (Z * list Z) :=
  '(digits, count) ← digits_loop 20 (replicate 20 0) 0 number;
  '(put_here, into) ← foldM (λ '(put_here, into) _, '(n, into) ← put into put_here [32]; Ok (put_here + n, into))
                            (at_, into) (seqZ count (width - count));
  used ← expect (slice digits 0 count);
  '(put_here, into) ← put_digits (rev used) into put_here;
  Ok (put_here - at_, into).

(** One more piece of a line: what is laid out so far, and how long it is. *)
Definition add_text (l : Z * list Z) (s : list Z) : may (Z * list Z) :=
  '(n, into) ← put l.2 l.1 s; Ok (l.1 + n, into).
Definition add_number (l : Z * list Z) (number width : Z) : may (Z * list Z) :=
  '(n, into) ← put_number l.2 l.1 number width; Ok (l.1 + n, into).

Definition format_line (into : list Z) (boot ticks : Z) (what : What) (detail : Z) (second : option Z) (name : list Z)
    : may (Z * list Z) :=
  l ← add_number (0, into) boot 5;
  l ← add_text l (text " ");
  l ← add_number l ticks 8;
  l ← add_text l (text " ");
  l ← add_text l (word what);
  l ← add_text l (text " ");
  l ← add_number l detail 0;
  l ← match second with
      | Some second => l ← add_text l (text " "); add_number l second 0
      | None => Ok l
      end;
  l ← (if len name =? 0 then Ok l else l ← add_text l (text " "); add_text l name);
  add_text l [10].

(** ** The ring *)
Definition write_line (ticks : Z) (r : Ring) (what : What) (detail : Z) (second : option Z) (name : list Z) : may Ring :=
  let at_ := written r mod EVENTS in
  line ← expect (index (lines r) at_);
  '(n, b) ← format_line (bytes line) (boot r) ticks what detail second name;
  lines ← expect (set_index (lines r) at_ {| bytes := b; used := n |});
  Ok {| lines := lines; written := wrap 64 (written r + 1); boot := boot r; flushed := flushed r |}.

Definition record (ticks : Z) (r : Ring) (what : What) (detail : Z) : may Ring := write_line ticks r what detail None [].
Definition record_two (ticks : Z) (r : Ring) (what : What) (detail second : Z) : may Ring :=
  write_line ticks r what detail (Some second) [].
Definition record_with (ticks : Z) (r : Ring) (what : What) (detail : Z) (name : list Z) : may Ring :=
  write_line ticks r what detail None name.

Definition boot_in_line (boot first : Z) (ls : list Line) (step : Z) : may (list Line) :=
  let at_ := (first + step) mod EVENTS in
  line ← expect (index ls at_);
  '(_, b) ← put_number (bytes line) 0 boot 5;
  expect (set_index ls at_ {| bytes := b; used := used line |}).

Definition this_boot (r : Ring) (b : Z) : may Ring :=
  let r := {| lines := lines r; written := written r; boot := b; flushed := flushed r |} in
  if 100000 <=? b then Ok r
  else
    let have := Z.min (written r) EVENTS in
    let first := saturating_sub (written r) have in
    ls ← foldM (boot_in_line b first) (lines r) (seqZ 0 have);
    Ok {| lines := ls; written := written r; boot := b; flushed := flushed r |}.

Definition unflushed (written flushed capacity : Z) : Z * Z :=
  let oldest := saturating_sub written capacity in
  let first := Z.max flushed oldest in
  (first, saturating_sub written first).

(** [for step in 0..count], with its break. *)
Fixpoint copy_lines (count : nat) (ls : list Line) (first step at_ : Z) (into : list Z) : may (Z * Z * list Z) :=
  match count with
  | O => Ok (at_, step, into)
  | S count =>
      line ← expect (index ls ((first + step) mod EVENTS));
      if len into <? at_ + used line then Ok (at_, step, into)
      else
        src ← expect (slice (bytes line) 0 (used line));
        into ← expect (copy_at into at_ (at_ + used line) src);
        copy_lines count ls first (step + 1) (at_ + used line) into
  end.

(** Answers how many bytes, the buffer and the ring. *)
Definition copy_into (r : Ring) (into : list Z) : may (Z * list Z * Ring) :=
  let '(first, count) := unflushed (written r) (flushed r) EVENTS in
  '(at_, taken, into) ← copy_lines (Z.to_nat count) (lines r) first 0 0 into;
  Ok (at_, into, {| lines := lines r; written := written r; boot := boot r; flushed := first + taken |}).

Definition counted (r : Ring) : Z * Z := (Z.min (written r) EVENTS, saturating_sub (written r) EVENTS).

(** ** The file *)
Definition newest_whole_lines (s : list Z) (room : Z) : may (list Z) :=
  if len s <=? room then Ok s
  else
    let cut := len s - room in
    boundary ← (if cut =? 0 then Ok true else b ← expect (index s (cut - 1)); Ok (b =? 10));
    if boundary : bool then expect (slice s cut (len s))
    else
      kept ← expect (slice s cut (len s));
      match list_find (λ byte, byte = 10) kept with
      | Some (at_, _) => expect (slice s (cut + Z.of_nat at_ + 1) (len s))
      | None => Ok []
      end.

Definition join (old new : list Z) (limit : Z) (into : list Z) : may (Z * list Z) :=
  let limit := Z.min limit (len into) in
  new_kept ← newest_whole_lines new limit;
  old_kept ← newest_whole_lines old (limit - len new_kept);
  into ← expect (copy_at into 0 (len old_kept) old_kept);
  into ← expect (copy_at into (len old_kept) (len old_kept + len new_kept) new_kept);
  Ok (len old_kept + len new_kept, into).
End Events.
