(* ===== verification/EventsThms.v ===== *)
(** * The event log: what its lines say and what a flush takes

    [event_line_exact]: the layout of a line, cut at its end when it does
    not fit.  [event_log_refines]: the ring is a queue of at most 128 lines
    that forgets its oldest, and a flush takes each line once.
    [event_join_exact]: what is kept of a file is whole lines. *)

From Stdlib Require Import String Ascii.
From S2P Require Import Prelude Words Bytes Events.
Local Open Scope Z_scope.

Import Events.

(** ** Numbers in decimal *)
Fixpoint decimal_fuel (fuel : nat) (n : Z) : list Z :=
  match fuel with
  | O => []
  | S fuel => (if n / 10 =? 0 then [] else decimal_fuel fuel (n / 10)) ++ [48 + n mod 10]
  end.
(** As many digits as a [u64] has. *)
Definition decimal (n : Z) : list Z := decimal_fuel 20 n.
Definition parse (l : list Z) : Z := foldl (λ a d, 10 * a + (d - 48)) 0 l.
Definition padded (width n : Z) : list Z := replicate (Z.to_nat (width - len (decimal n))) 32 ++ decimal n.

Lemma decimal_fuel_bound fuel n : 0 ≤ n → len (decimal_fuel fuel n) ≤ Z.of_nat fuel.
Proof.
  revert n; induction fuel as [|fuel IH]; intros n Hn; [done|]. cbn [decimal_fuel]. rewrite len_app.
  assert (0 ≤ n / 10) by (by apply Z.div_pos). specialize (IH (n / 10)). change (len [48 + n mod 10]) with 1.
  destruct (n / 10 =? 0); [change (len []) with 0; lia|lia].
Qed.

Lemma parse_app l d : parse (l ++ [d]) = 10 * parse l + (d - 48).
Proof. unfold parse. by rewrite foldl_app. Qed.

Lemma parse_decimal_fuel fuel n : 0 ≤ n < 10 ^ Z.of_nat fuel → parse (decimal_fuel fuel n) = n.
Proof.
  revert n; induction fuel as [|fuel IH]; intros n Hn; [change (10 ^ Z.of_nat 0) with 1 in Hn; cbn; lia|].
  cbn [decimal_fuel]. rewrite parse_app. pose proof (Z.div_mod n 10). destruct (Z.eqb_spec (n / 10) 0) as [E|E].
  - change (parse []) with 0. lia.
  - rewrite IH; [lia|]. rewrite Nat2Z.inj_succ, Z.pow_succ_r in Hn by lia.
    split; [apply Z.div_pos; lia|apply Z.div_lt_upper_bound; lia].
Qed.

Lemma parse_decimal n : in_width 64 n → parse (decimal n) = n.
Proof. intros Hn. apply parse_decimal_fuel. unfold in_width in Hn. lia. Qed.

Lemma digits_loop_step fuel digits count left : digits_loop (S fuel) digits count left =
  (digits ← expect (set_index digits count (48 + left mod 10));
   if left / 10 =? 0 then Ok (digits, count + 1) else digits_loop fuel digits (count + 1) (left / 10)).
Proof. done. Qed.

(** The loop finds the same digits, the other way round. *)
Lemma digits_loop_spec fuel : ∀ n digits count, 0 ≤ n < 10 ^ Z.of_nat (S fuel) → 0 ≤ count →
  count + Z.of_nat (S fuel) ≤ len digits →
  ∃ digits', digits_loop (S fuel) digits count n = Ok (digits', count + len (decimal_fuel (S fuel) n)) ∧
    slice digits' 0 (count + len (decimal_fuel (S fuel) n)) =
      Some (take (Z.to_nat count) digits ++ rev (decimal_fuel (S fuel) n)).
Proof.
  induction fuel as [|fuel IH]; intros n digits count Hn Hc Hl; rewrite digits_loop_step.
  all: unfold set_index; destruct (Z.leb_spec 0 count); [|lia]; destruct (Z.ltb_spec count (len digits)); [|lia];
    cbn [andb expect mbind res_bind].
  all: set (d := 48 + n mod 10); set (digits1 := <[Z.to_nat count := d]> digits).
  all: assert (take (Z.to_nat (count + 1)) digits1 = take (Z.to_nat count) digits ++ [d]) as Htake
    by (unfold digits1; rewrite Z2Nat.inj_add, Nat.add_1_r by lia;
        rewrite (take_S_r _ _ d) by (apply list_lookup_insert_eq; unfold len in *; lia);
        by rewrite take_insert_ge by lia).
  all: assert (len digits1 = len digits) as Hlen by (unfold len, digits1; by rewrite length_insert).
  - assert (n / 10 = 0) as Hq by (apply Z.div_small; lia). rewrite Hq. cbn [decimal_fuel]. rewrite Hq. cbn [Z.eqb app]. fold d.
    exists digits1. split; [done|]. rewrite slice_prefix by (change (len [d]) with 1; lia).
    change (len [d]) with 1. cbn [rev app]. by rewrite Htake.
  - cbn [decimal_fuel]. fold d. destruct (Z.eqb_spec (n / 10) 0) as [Hq|Hq].
    + cbn [app]. exists digits1. split; [done|]. rewrite slice_prefix by (change (len [d]) with 1; lia).
      change (len [d]) with 1. cbn [rev app]. by rewrite Htake.
    + destruct (IH (n / 10) digits1 (count + 1)) as (digits' & E & Hs); [|lia|lia|].
      { rewrite Nat2Z.inj_succ, Z.pow_succ_r in Hn by lia. split; [apply Z.div_pos; lia|apply Z.div_lt_upper_bound; lia]. }
      exists digits'. rewrite E, len_app. change (len [d]) with 1.
      change ((if n / 10 / 10 =? 0 then [] else decimal_fuel fuel (n / 10 / 10)) ++ [48 + (n / 10) mod 10])
        with (decimal_fuel (S fuel) (n / 10)).
      replace (count + (len (decimal_fuel (S fuel) (n / 10)) + 1)) with (count + 1 + len (decimal_fuel (S fuel) (n / 10))) by lia.
      split; [done|]. rewrite Hs, Htake. by rewrite rev_app_distr, <-app_assoc.
Qed.

(** ** A line, piece by piece *)
(** [t] laid out from the start of [base], cut where it ends. *)
Definition laid (base t : list Z) : Z * list Z :=
  (Z.min (len t) (len base), splice base 0 (take (length base) t)).

Lemma splice_more {A} (base a b : list A) : (length a + length b ≤ length base)%nat →
  splice (splice base 0 a) (length a) b = splice base 0 (a ++ b).
Proof.
  intros Hl. unfold splice. rewrite take_0, Nat.add_0_l. cbn [app]. rewrite take_app_length.
  rewrite length_app, drop_app_ge by lia. rewrite drop_drop. rewrite <-app_assoc. do 2 f_equal. f_equal. lia.
Qed.

Lemma take_more {A} n (t s : list A) : take n (t ++ s) = take n t ++ take (n - length t) s.
Proof. apply take_app. Qed.

Lemma laid_len base t : len (laid base t).2 = len base.
Proof. unfold laid. cbn [snd]. apply len_splice. rewrite length_take. lia. Qed.

Lemma put_laid base t s : put (laid base t).2 (laid base t).1 s =
  Ok (Z.min (len s) (len base - (laid base t).1), (laid base (t ++ s)).2).
Proof.
  unfold put. rewrite laid_len. cbn [fst laid]. set (at_ := Z.min (len t) (len base)).
  pose proof (len_nonneg t). pose proof (len_nonneg s). pose proof (len_nonneg base).
  unfold saturating_sub. replace (Z.max 0 (len base - at_)) with (len base - at_) by lia.
  set (n := Z.min (len s) (len base - at_)). rewrite slice_prefix by lia. cbn [expect mbind res_bind].
  assert (len (take (Z.to_nat n) s) = n) as Hn by (unfold len in *; rewrite length_take; lia).
  rewrite copy_at_Some by (try rewrite laid_len; lia). cbn [expect mbind res_bind]. f_equal. f_equal.
  unfold laid. cbn [snd]. rewrite take_more.
  assert (length (take (length base) t) = Z.to_nat at_) as Ha by (unfold len in *; rewrite length_take; lia).
  rewrite <-Ha, splice_more.
  - do 2 f_equal. unfold len in *. destruct (decide (length base - length t ≤ length s)%nat).
    + f_equal. lia.
    + rewrite !take_ge by lia. done.
  - unfold len in *. rewrite !length_take. lia.
Qed.

Lemma laid_next base t s : (laid base t).1 + Z.min (len s) (len base - (laid base t).1) = (laid base (t ++ s)).1.
Proof. unfold laid. cbn [fst]. rewrite len_app. pose proof (len_nonneg s). pose proof (len_nonneg t). lia. Qed.

Lemma add_text_laid base t s : add_text (laid base t) s = Ok (laid base (t ++ s)).
Proof.
  unfold add_text. rewrite put_laid. cbn [mbind res_bind]. rewrite laid_next. by rewrite <-surjective_pairing.
Qed.

(** Padding, one blank at a time. *)
Lemma pad_laid base l : ∀ t,
  foldM (λ '(put_here, into) (_ : Z), '(n, into) ← put into put_here [32]; Ok (E:=Empty_set) (put_here + n, into))
    (laid base t) l = Ok (laid base (t ++ replicate (length l) 32)).
Proof.
  induction l as [|a l IH]; intros t; cbn [foldM length replicate]; [by rewrite app_nil_r|].
  rewrite (surjective_pairing (laid base t)), put_laid. cbn [mbind res_bind]. rewrite laid_next, <-surjective_pairing, IH.
  by rewrite <-app_assoc.
Qed.

Lemma put_digits_laid base ds : ∀ t, put_digits ds (laid base t).2 (laid base t).1 = Ok (laid base (t ++ ds)).
Proof.
  induction ds as [|d ds IH]; intros t; cbn [put_digits]; [by rewrite app_nil_r, <-surjective_pairing|].
  rewrite laid_len. pose proof (len_nonneg t). pose proof (len_nonneg base). unfold saturating_sub.
  destruct (Z.eqb_spec (Z.max 0 (len base - (laid base t).1)) 0) as [E|E].
  - rewrite <-surjective_pairing. f_equal. unfold laid in *. cbn [fst] in E.
    rewrite take_app_le by (unfold len in *; lia). f_equal. rewrite len_app. pose proof (len_nonneg (d :: ds)). lia.
  - assert (len t < len base) as Hlt by (unfold laid in E; cbn [fst] in E; lia).
    assert ((laid base t).1 = len t) as Hat by (unfold laid; cbn [fst]; lia).
    unfold set_index. rewrite laid_len, Hat. destruct (Z.leb_spec 0 (len t)); [|lia]. destruct (Z.ltb_spec (len t) (len base)); [|lia].
    cbn [andb expect mbind res_bind].
    assert (<[Z.to_nat (len t):=d]> (laid base t).2 = (laid base (t ++ [d])).2) as ->.
    { unfold laid. cbn [snd]. rewrite (take_ge t), (take_ge (t ++ [d])) by (rewrite ?length_app; unfold len in *; cbn; lia).
      unfold splice. rewrite !take_0, !Nat.add_0_l. cbn [app]. unfold len. rewrite Nat2Z.id, insert_app_r_alt by done.
      rewrite Nat.sub_diag, length_app, <-app_assoc. f_equal. cbn [length].
      destruct (drop (length t) base) as [|b r] eqn:Ed.
      { apply (f_equal length) in Ed. rewrite length_drop in Ed. unfold len in *. cbn in Ed. lia. }
      rewrite <-drop_drop, Ed. done. }
    replace (len t + 1) with (laid base (t ++ [d])).1 by (unfold laid; cbn [fst]; rewrite len_app; change (len [d]) with 1; lia).
    rewrite IH. by rewrite <-app_assoc.
Qed.

Lemma add_number_laid base t n width : in_width 64 n → add_number (laid base t) n width = Ok (laid base (t ++ padded width n)).
Proof.
  intros Hn. unfold add_number, put_number.
  destruct (digits_loop_spec 19 n (replicate 20 0) 0) as (digits & E & Hs); [unfold in_width in Hn; lia|lia|done|].
  rewrite E. cbn [mbind res_bind]. change (decimal_fuel 20 n) with (decimal n) in *. change (take (Z.to_nat 0) _ ++ rev (decimal n)) with (rev (decimal n)) in Hs.
  rewrite <-(surjective_pairing (laid base t)), pad_laid. cbn [mbind res_bind]. rewrite Hs. cbn [expect mbind res_bind].
  rewrite rev_involutive. rewrite (surjective_pairing (laid base (t ++ _))), put_digits_laid. cbn [mbind res_bind].
  rewrite length_seqZ, Z.add_0_l. unfold padded. rewrite <-app_assoc.
  destruct (laid base (t ++ _ ++ decimal n)) as [a b]. cbn [mbind res_bind]. do 2 f_equal. lia.
Qed.

(** The line an event is written as. *)
Definition line_text (boot ticks : Z) (what : What) (detail : Z) (second : option Z) (name : list Z) : list Z :=
  padded 5 boot ++ text " " ++ padded 8 ticks ++ text " " ++ word what ++ text " " ++ decimal detail ++
  match second with Some s => text " " ++ decimal s | None => [] end ++
  (if decide (name = []) then [] else text " " ++ name) ++ [10].

Lemma padded_0 n : padded 0 n = decimal n.
Proof. unfold padded. pose proof (len_nonneg (decimal n)). by replace (Z.to_nat (0 - len (decimal n))) with O by lia. Qed.

Lemma laid_nil base : laid base [] = (0, base).
Proof. unfold laid. rewrite take_nil. pose proof (len_nonneg base). f_equal. change (len []) with 0. lia. Qed.

Lemma format_line_laid base boot ticks what detail second name :
  in_width 64 boot → in_width 64 ticks → in_width 64 detail → from_option (in_width 64) True second →
  format_line base boot ticks what detail second name = Ok (laid base (line_text boot ticks what detail second name)).
Proof.
  intros Hb Ht Hd Hs. unfold format_line, line_text. rewrite <-(laid_nil base).
  rewrite add_number_laid by done. cbn [mbind res_bind]. rewrite add_text_laid. cbn [mbind res_bind].
  rewrite add_number_laid by done. cbn [mbind res_bind]. rewrite add_text_laid. cbn [mbind res_bind].
  rewrite add_text_laid. cbn [mbind res_bind]. rewrite add_text_laid. cbn [mbind res_bind].
  rewrite add_number_laid, padded_0 by done. cbn [mbind res_bind app]. rewrite <-!app_assoc.
  set (t := padded 5 boot ++ _).
  assert (match second with Some s => l ← add_text (laid base t) (text " "); add_number l s 0 | None => Ok (laid base t) end
    = Ok (laid base (t ++ match second with Some s => text " " ++ decimal s | None => [] end))) as ->.
  { destruct second as [s|]; cbn in Hs; [|by rewrite app_nil_r].
    rewrite add_text_laid. cbn [mbind res_bind]. rewrite add_number_laid, padded_0 by done. by rewrite <-app_assoc. }
  cbn [mbind res_bind]. set (t2 := t ++ _).
  assert ((if len name =? 0 then Ok (E:=Empty_set) (laid base t2) else l ← add_text (laid base t2) (text " "); add_text l name) =
    Ok (laid base (t2 ++ if decide (name = []) then [] else text " " ++ name))) as ->.
  { destruct name as [|b name]; [by rewrite app_nil_r|]. rewrite decide_False by done.
    destruct (Z.eqb_spec (len (b :: name)) 0) as [E|_]; [rewrite len_cons in E; pose proof (len_nonneg name); lia|].
    rewrite add_text_laid. cbn [mbind res_bind]. rewrite add_text_laid. by rewrite <-app_assoc. }
  cbn [mbind res_bind]. rewrite add_text_laid. do 2 f_equal. unfold t2, t. by rewrite <-!app_assoc.
Qed.

(** ** The ring as a queue *)
(** What the line that was written [i]th says, while it is there. *)
Definition line_at (r : Ring) (i : Z) : list Z :=
  match index (lines r) (i mod EVENTS) with
  | Some l => take (Z.to_nat (used l)) (bytes l)
  | None => []
  end.

Definition oldest (r : Ring) : Z := Z.max 0 (written r - EVENTS).
Definition first_due (r : Ring) : Z := Z.max (flushed r) (oldest r).

Definition pending (r : Ring) : list (list Z) := line_at r <$> seqZ (first_due r) (written r - first_due r).

Definition line_ok (l : Line) : Prop := len (bytes l) = LINE ∧ 0 ≤ used l ≤ LINE.

Record ring_ok (r : Ring) : Prop := {
  ro_lines : len (lines r) = EVENTS;
  ro_line : Forall line_ok (lines r);
  ro_count : 0 ≤ flushed r ≤ written r;
  ro_boot : in_width 32 (boot r);
  ro_long i : oldest r ≤ i < written r → 5 ≤ len (line_at r i)
}.

Inductive op :=
| Say (ticks : Z) (what : What) (detail : Z) (second : option Z) (name : list Z)
| SetBoot (boot : Z)
| Flush (into : list Z).

Definition op_ok (o : op) : Prop :=
  match o with
  | Say ticks _ detail second _ => in_width 64 ticks ∧ in_width 64 detail ∧ from_option (in_width 64) True second
  | SetBoot b => in_width 32 b
  | Flush _ => True
  end.

(** What a flush answers is the bytes it filled. *)
Definition run_ring (o : op) (r : Ring) : may (list Z * Ring) :=
  match o with
  | Say ticks what detail second name => r ← write_line ticks r what detail second name; Ok ([], r)
  | SetBoot b => r ← this_boot r b; Ok ([], r)
  | Flush into => '(n, into, r) ← copy_into r into; Ok (take (Z.to_nat n) into, r)
  end.

(** The whole lines at the front of [q] that fit, and the rest. *)
Fixpoint fitting (room : Z) (q : list (list Z)) : list (list Z) * list (list Z) :=
  match q with
  | [] => ([], [])
  | t :: q => if room <? len t then ([], t :: q) else let '(a, b) := fitting (room - len t) q in (t :: a, b)
  end.

Definition push (q : list (list Z)) (t : list Z) : list (list Z) :=
  if (length q <? Z.to_nat EVENTS)%nat then q ++ [t] else tail q ++ [t].

Definition run_queue (o : op) (s : Z * list (list Z)) : list Z * (Z * list (list Z)) :=
  let '(b, q) := s in
  match o with
  | Say ticks what detail second name =>
      ([], (b, push q (take (Z.to_nat LINE) (line_text b ticks what detail second name))))
  | SetBoot b' => ([], (b', if 100000 <=? b' then q else (λ t, padded 5 b' ++ drop 5 t) <$> q))
  | Flush into => let '(out, q) := fitting (len into) q in (concat out, (b, q))
  end.

Lemma index_Some {A} (l : list A) i : 0 ≤ i < len l → ∃ a, index l i = Some a ∧ l !! Z.to_nat i = Some a.
Proof.
  intros Hi. unfold index. destruct (Z.ltb_spec i 0); [lia|].
  destruct (lookup_lt_is_Some_2 l (Z.to_nat i)) as [a Ha]; [unfold len in Hi; lia|]. by exists a.
Qed.

Lemma set_index_Some {A} (l : list A) i a : 0 ≤ i < len l → set_index l i a = Some (<[Z.to_nat i := a]> l).
Proof. intros Hi. unfold set_index. destruct (Z.leb_spec 0 i), (Z.ltb_spec i (len l)); try lia. done. Qed.

Lemma index_insert {A} (l : list A) i j a : 0 ≤ i < len l → 0 ≤ j →
  index (<[Z.to_nat i := a]> l) j = if decide (i = j) then Some a else index l j.
Proof.
  intros Hi Hj. unfold index. destruct (Z.ltb_spec j 0); [lia|]. case_decide as Hd.
  - subst j. apply list_lookup_insert_eq. unfold len in Hi. lia.
  - apply list_lookup_insert_ne. lia.
Qed.

Lemma laid_take base t : take (Z.to_nat (laid base t).1) (laid base t).2 = take (length base) t.
Proof.
  unfold laid. cbn [fst snd]. unfold splice. rewrite take_0. cbn [app].
  replace (Z.to_nat (Z.min (len t) (len base))) with (length (take (length base) t)) by (rewrite length_take; unfold len; lia).
  by rewrite take_app_length.
Qed.

Lemma mod_EVENTS i : 0 ≤ i mod EVENTS < EVENTS.
Proof. by apply Z.mod_pos_bound. Qed.

(** Two lines of one window have slots of their own. *)
Lemma same_slot i j : i mod EVENTS = j mod EVENTS → - EVENTS < i - j < EVENTS → i = j.
Proof.
  unfold EVENTS. intros Hm Hd. pose proof (Z.div_mod i 128). pose proof (Z.div_mod j 128).
  assert (i / 128 = j / 128) by nia. lia.
Qed.

Lemma padded_long w n : w ≤ len (padded w n).
Proof. unfold padded. rewrite len_app, len_replicate. pose proof (len_nonneg (decimal n)). lia. Qed.

Lemma line_text_long b ticks what detail second name : 5 ≤ len (take (Z.to_nat LINE) (line_text b ticks what detail second name)).
Proof.
  unfold line_text. pose proof (padded_long 5 b). rewrite take_app, len_app. pose proof (len_nonneg (take (Z.to_nat LINE - length (padded 5 b)) (text " " ++ padded 8 ticks ++ text " " ++ word what ++ text " " ++ decimal detail ++
  match second with Some s => text " " ++ decimal s | None => [] end ++
  (if decide (name = []) then [] else text " " ++ name) ++ [10]))).
  assert (5 ≤ len (take (Z.to_nat LINE) (padded 5 b))); [|lia]. unfold len in *. rewrite length_take. unfold LINE. lia.
Qed.

Section ring.
  Context (r : Ring).
  Hypothesis Hok : ring_ok r.

Lemma ring_line i : ∃ l, index (lines r) (i mod EVENTS) = Some l ∧ line_ok l ∧ line_at r i = take (Z.to_nat (used l)) (bytes l).
Proof.
  pose proof (mod_EVENTS i). destruct (index_Some (lines r) (i mod EVENTS)) as (l & Hl & Hl'); [by rewrite (ro_lines _ Hok)|].
  exists l. split; [done|]. split; [|unfold line_at; by rewrite Hl].
  pose proof (ro_line _ Hok) as Hf. rewrite Forall_lookup in Hf. by eapply Hf.
Qed.

Lemma pending_length : length (pending r) = Z.to_nat (written r - first_due r).
Proof. unfold pending. by rewrite length_fmap, length_seqZ. Qed.

Lemma due_bounds : oldest r ≤ first_due r ≤ written r ∧ 0 ≤ first_due r ∧ written r - first_due r ≤ EVENTS.
Proof. destruct (ro_count _ Hok). unfold first_due, oldest, EVENTS. lia. Qed.

(** A line was written in the next slot. *)
Lemma written_ring l : line_ok l → 5 ≤ used l →
  let r' := {| lines := <[Z.to_nat (written r mod EVENTS) := l]> (lines r); written := written r + 1; boot := boot r;
               flushed := flushed r |} in
  ring_ok r' ∧ pending r' = push (pending r) (take (Z.to_nat (used l)) (bytes l)).
Proof.
  intros Hl Hu r'. pose proof (mod_EVENTS (written r)) as Hm. pose proof due_bounds as (Hb1 & Hb2 & Hb3).
  assert (∀ i, line_at r' i = if decide (written r mod EVENTS = i mod EVENTS) then take (Z.to_nat (used l)) (bytes l) else line_at r i) as Hat.
  { intros i. unfold line_at, r'. cbn [lines]. rewrite index_insert by (rewrite ?(ro_lines _ Hok); try apply mod_EVENTS; done).
    by case_decide. }
  assert (∀ i, oldest r' ≤ i < written r → line_at r' i = line_at r i) as Hold.
  { intros i Hi. rewrite Hat, decide_False; [done|]. intros He%same_slot; unfold oldest, EVENTS in *; cbn [written r'] in *; lia. }
  assert (line_at r' (written r) = take (Z.to_nat (used l)) (bytes l)) as Hnew by (rewrite Hat; by rewrite decide_True).
  split.
  - destruct (ro_count _ Hok). split; cbn [lines written flushed boot r'].
    + unfold len. rewrite length_insert. apply Hok.
    + apply Forall_insert; [apply Hok|done].
    + lia.
    + apply Hok.
    + intros i Hi. destruct (decide (i = written r)) as [->|Hne].
      * rewrite Hnew. destruct Hl as [Hlb Hlu]. unfold len in *. rewrite length_take. lia.
      * rewrite Hold by lia. apply (ro_long _ Hok). unfold oldest in *. cbn [written r'] in *. lia.
  - unfold push. rewrite pending_length. destruct (Nat.ltb_spec (Z.to_nat (written r - first_due r)) (Z.to_nat EVENTS)) as [Hlt|Hge].
    + assert (first_due r' = first_due r) as Hf.
      { unfold first_due, oldest, EVENTS in *. cbn [flushed written r'] in *. lia. }
      unfold pending. rewrite Hf. cbn [written r']. replace (written r + 1 - first_due r) with ((written r - first_due r) + 1) by lia.
      rewrite seqZ_app by lia. rewrite fmap_app. replace (first_due r + (written r - first_due r)) with (written r) by lia. f_equal.
      * apply list_fmap_ext. intros _ i Hi%list_elem_of_lookup_2%in_seqZ. apply Hold. unfold oldest, first_due, EVENTS in *. cbn [written r' flushed] in *. lia.
      * change (seqZ (written r) 1) with [written r]. cbn [fmap list_fmap]. by rewrite Hnew.
    + assert (first_due r' = first_due r + 1 ∧ written r - first_due r = 128) as [Hf H128].
      { unfold first_due, oldest, EVENTS in *. cbn [flushed written r'] in *. destruct (ro_count _ Hok). lia. }
      unfold pending. rewrite Hf. cbn [written r']. replace (written r + 1 - (first_due r + 1)) with (127 + 1) by lia.
      rewrite H128, seqZ_app by lia. rewrite fmap_app. rewrite (seqZ_cons (first_due r)) by lia. cbn [fmap list_fmap tail].
      replace (first_due r + 1 + 127) with (written r) by lia. f_equal.
      * apply list_fmap_ext. intros _ i Hi%list_elem_of_lookup_2%in_seqZ. apply Hold. unfold oldest, first_due, EVENTS in *. cbn [written r' flushed] in *. lia.
      * change (seqZ (written r) 1) with [written r]. cbn [fmap list_fmap]. by rewrite Hnew.
Qed.
End ring.

(** ** Each operation *)
Lemma say_step r ticks what detail second name : ring_ok r → op_ok (Say ticks what detail second name) → written r + 1 < 2 ^ 64 →
  ∃ r', write_line ticks r what detail second name = Ok r' ∧ ring_ok r' ∧ boot r' = boot r ∧ written r' = written r + 1 ∧
    pending r' = push (pending r) (take (Z.to_nat LINE) (line_text (boot r) ticks what detail second name)).
Proof.
  intros Hok (Ht & Hd & Hs) Hw. unfold write_line.
  destruct (ring_line r Hok (written r)) as (l & Hl & [Hlb Hlu] & _). rewrite Hl. cbn [expect mbind res_bind].
  assert (in_width 64 (boot r)) as Hb by (pose proof (ro_boot _ Hok); unfold in_width in *; lia).
  rewrite format_line_laid by done. set (t := line_text (boot r) ticks what detail second name).
  destruct (laid (bytes l) t) as [n b] eqn:El. cbn [mbind res_bind].
  rewrite set_index_Some by (rewrite (ro_lines _ Hok); apply mod_EVENTS). cbn [expect mbind res_bind].
  pose proof (laid_take (bytes l) t) as Htake. pose proof (laid_len (bytes l) t) as Hlen. rewrite El in Htake, Hlen. cbn [fst snd] in Htake, Hlen.
  assert (n = Z.min (len t) LINE) as Hn by (apply (f_equal fst) in El; cbn in El; by rewrite <-El, Hlb).
  assert (length (bytes l) = Z.to_nat LINE) as Hll by (unfold len in Hlb; lia). rewrite Hll in Htake.
  pose proof (line_text_long (boot r) ticks what detail second name) as H5. fold t in H5.
  assert (5 ≤ n) as Hn5 by (unfold len in *; rewrite length_take in H5; unfold LINE in *; lia).
  assert (line_ok {| bytes := b; used := n |}) as Hlok.
  { split; cbn [bytes used]; [congruence|]. pose proof (len_nonneg t). unfold LINE in *. lia. }
  destruct (ro_count _ Hok). unfold wrap. rewrite (Z.mod_small (written r + 1)) by lia.
  destruct (written_ring r Hok {| bytes := b; used := n |} Hlok Hn5) as [Hok' Hp]. eexists. split; [reflexivity|].
  cbn [bytes used] in Hp. rewrite Htake in Hp. done.
Qed.

(** The boot's number, written over the front of a line. *)
Lemma put_number_start base n w : in_width 64 n → put_number base 0 n w = Ok (laid base (padded w n)).
Proof.
  intros Hn. pose proof (add_number_laid base [] n w Hn) as H. rewrite laid_nil in H. unfold add_number in H. cbn [fst snd app] in H.
  destruct (put_number base 0 n w) as [[k into]|e| |]; cbn [mbind res_bind] in H; [|done..]. by rewrite Z.add_0_l in H.
Qed.

Lemma padded_exact b : 0 ≤ b < 100000 → len (padded 5 b) = 5.
Proof.
  intros Hb. unfold padded. rewrite len_app, len_replicate. assert (len (decimal b) ≤ 5); [|lia].
  assert (∀ k m, 0 ≤ m < 10 ^ Z.of_nat (S k) → ∀ f, (S k ≤ f)%nat → len (decimal_fuel f m) ≤ Z.of_nat (S k)) as Hk.
  { induction k as [|k IH]; intros m Hm f Hf; (destruct f as [|f]; [lia|]); cbn [decimal_fuel]; rewrite len_app; change (len [48 + m mod 10]) with 1.
    - rewrite Z.div_small by lia. change (len (if 0 =? 0 then [] else decimal_fuel f 0)) with 0. lia.
    - destruct (m / 10 =? 0); [change (len []) with 0; lia|].
      assert (0 ≤ m / 10 < 10 ^ Z.of_nat (S k)) as Hm'.
      { rewrite Nat2Z.inj_succ, Z.pow_succ_r in Hm by lia. split; [apply Z.div_pos; lia|apply Z.div_lt_upper_bound; lia]. }
      specialize (IH _ Hm' f ltac:(lia)). lia. }
  apply (Hk 4%nat); [done|lia].
Qed.

Lemma splice_take {A} (l s : list A) n : (length s ≤ n)%nat → (n ≤ length l)%nat →
  take n (splice l 0 s) = s ++ drop (length s) (take n l).
Proof.
  intros Hs Hn. unfold splice. rewrite take_0. cbn [app Nat.add]. rewrite take_app_ge by done. f_equal.
  rewrite take_drop_commute. do 2 f_equal. lia.
Qed.

Lemma boot_line_step r i b : ring_ok r → 0 ≤ b < 100000 → oldest r ≤ i < written r → ∃ ls,
  boot_in_line b i (lines r) 0 = Ok ls ∧ len ls = EVENTS ∧ Forall line_ok ls ∧
  ∀ j r', lines r' = ls → line_at r' j = if decide (i mod EVENTS = j mod EVENTS) then padded 5 b ++ drop 5 (line_at r i) else line_at r j.
Proof.
  intros Hok Hb Hi. unfold boot_in_line. rewrite Z.add_0_r. destruct (ring_line r Hok i) as (l & Hl & [Hlb Hlu] & Hat). rewrite Hl.
  cbn [expect mbind res_bind]. rewrite put_number_start by (unfold in_width; lia).
  pose proof (padded_exact b Hb) as H5. pose proof (laid_len (bytes l) (padded 5 b)) as Hlen.
  unfold laid in *. cbn [fst snd mbind res_bind] in *. rewrite set_index_Some by (rewrite (ro_lines _ Hok); apply mod_EVENTS).
  eexists. split; [reflexivity|]. split; [unfold len; rewrite length_insert; apply Hok|]. split.
  - apply Forall_insert; [apply Hok|]. split; cbn [bytes used]; [congruence|done].
  - intros j r' Hr'. unfold line_at at 1. rewrite Hr', index_insert by (rewrite ?(ro_lines _ Hok); apply mod_EVENTS || (by apply mod_EVENTS)).
    case_decide; [|done]. cbn [used bytes]. pose proof (ro_long _ Hok i Hi) as Hlong. rewrite Hat in Hlong |- *.
    unfold len in *. rewrite length_take in Hlong. unfold LINE in *. rewrite (take_ge (padded 5 b)) by lia. rewrite splice_take by lia.
    by replace (length (padded 5 b)) with 5%nat by lia.
Qed.

Definition with_lines (r : Ring) (ls : list Line) : Ring :=
  {| lines := ls; written := written r; boot := boot r; flushed := flushed r |}.

Definition renumbered (b : Z) (t : list Z) : list Z := padded 5 b ++ drop 5 t.

Lemma boot_loop r b first : 0 ≤ b < 100000 → ∀ n step ls, ring_ok (with_lines r ls) → oldest r ≤ first + step →
  first + step + Z.of_nat n ≤ written r →
  ∃ ls', foldM (boot_in_line b first) ls (seqZ step (Z.of_nat n)) = Ok ls' ∧ ring_ok (with_lines r ls') ∧
    ∀ j, oldest r ≤ j < written r → line_at (with_lines r ls') j =
      if decide (first + step ≤ j < first + step + Z.of_nat n) then renumbered b (line_at (with_lines r ls) j)
      else line_at (with_lines r ls) j.
Proof.
  intros Hb. induction n as [|n IH]; intros step ls Hok Ho Hw.
  { exists ls. split; [done|]. split; [done|]. intros j Hj. by rewrite decide_False by lia. }
  rewrite seqZ_cons by lia. cbn [foldM].
  assert (oldest r ≤ first + step < written r) as Hi by lia.
  destruct (boot_line_step (with_lines r ls) (first + step) b Hok Hb Hi) as (ls1 & E & Hl1 & Hf1 & Hat).
  assert (boot_in_line b first ls step = Ok ls1) as ->.
  { unfold boot_in_line in *. rewrite Z.add_0_r in E. exact E. }
  cbn [mbind res_bind].
  assert (∀ j, oldest r ≤ j < written r → line_at (with_lines r ls1) j =
    if decide (j = first + step) then renumbered b (line_at (with_lines r ls) j) else line_at (with_lines r ls) j) as Hat1.
  { intros j Hj. rewrite (Hat j (with_lines r ls1) eq_refl). case_decide as Hm.
    - apply same_slot in Hm as <-; [by rewrite decide_True|]. unfold oldest, EVENTS in *. lia.
    - rewrite decide_False; [done|]. intros ->. done. }
  assert (ring_ok (with_lines r ls1)) as Hok1.
  { destruct Hok as [H1 H2 H3 H4 H5]. split; try done. intros j Hj. rewrite Hat1 by done. case_decide; [|by apply H5].
    unfold renumbered. rewrite len_app. pose proof (padded_long 5 b). pose proof (len_nonneg (drop 5 (line_at (with_lines r ls) j))). lia. }
  destruct (IH (Z.succ step) ls1 Hok1) as (ls2 & E2 & Hok2 & Hat2); [lia|lia|].
  replace (Z.pred (Z.of_nat (S n))) with (Z.of_nat n) by lia. exists ls2. split; [exact E2|]. split; [done|].
  intros j Hj. rewrite Hat2, Hat1 by done. repeat case_decide; try done; lia.
Qed.

Lemma boot_step r b : ring_ok r → in_width 32 b →
  ∃ r', this_boot r b = Ok r' ∧ ring_ok r' ∧ boot r' = b ∧ written r' = written r ∧
    pending r' = if 100000 <=? b then pending r else renumbered b <$> pending r.
Proof.
  intros Hok Hb. unfold this_boot. cbn [lines written flushed].
  assert (∀ ls, ring_ok (with_lines r ls) → ring_ok {| lines := ls; written := written r; boot := b; flushed := flushed r |}) as Hwith.
  { intros ls [H1 H2 H3 H4 H5]. by split. }
  assert (∀ ls, pending {| lines := ls; written := written r; boot := b; flushed := flushed r |} = pending (with_lines r ls)) as Hpend by done.
  destruct (Z.leb_spec 100000 b) as [Hbig|Hsmall].
  { eexists. split; [reflexivity|]. split; [by apply Hwith; destruct r|]. split; [done|]. split; [done|]. rewrite Hpend. by destruct r. }
  destruct (ro_count _ Hok) as [H0 Hfw]. unfold saturating_sub. unfold in_width in Hb.
  destruct (boot_loop r b (oldest r) ltac:(lia) (Z.to_nat (Z.min (written r) EVENTS)) 0 (lines r)) as (ls & E & Hok' & Hat);
    [by destruct r|lia|unfold oldest, EVENTS in *; lia|].
  replace (Z.max 0 (written r - Z.min (written r) EVENTS)) with (oldest r) by (unfold oldest, EVENTS; lia).
  rewrite Z2Nat.id in E by (unfold EVENTS; lia). rewrite E. cbn [mbind res_bind].
  eexists. split; [reflexivity|]. split; [by apply Hwith|]. split; [done|]. split; [done|]. rewrite Hpend.
  unfold pending. rewrite <-list_fmap_compose. apply list_fmap_ext. intros _ j Hj%list_elem_of_lookup_2%in_seqZ.
  change (first_due (with_lines r ls)) with (first_due r) in Hj. cbn [written with_lines] in Hj.
  assert (oldest r ≤ j < written r) as Hj' by (unfold first_due in Hj; lia).
  rewrite Hat by done. rewrite decide_True by (unfold oldest, EVENTS in *; lia). by destruct r.
Qed.

(** ** A flush *)
Lemma copy_lines_spec r : ring_ok r → ∀ count first step at_ into T, len T = at_ →
  oldest r ≤ first + step → first + step + Z.of_nat count ≤ written r →
  at_ ≤ len into → take (Z.to_nat at_) into = T →
  let q := line_at r <$> seqZ (first + step) (Z.of_nat count) in
  ∃ into', copy_lines count (lines r) first step at_ into =
      Ok (at_ + len (concat (fitting (len into - at_) q).1), step + len (fitting (len into - at_) q).1, into') ∧
    len into' = len into ∧
    take (Z.to_nat (at_ + len (concat (fitting (len into - at_) q).1))) into' = T ++ concat (fitting (len into - at_) q).1.
Proof.
  intros Hok. induction count as [|count IH]; intros first step at_ into T HT Ho Hw Hat Htake; cbv zeta.
  { change (seqZ (first + step) (Z.of_nat 0)) with (@nil Z). cbn [fmap list_fmap fitting fst concat copy_lines].
    change (len []) with 0. rewrite !Z.add_0_r. exists into. split; [done|]. split; [done|]. rewrite Htake. by rewrite app_nil_r. }
  rewrite seqZ_cons by lia. replace (Z.pred (Z.of_nat (S count))) with (Z.of_nat count) by lia.
  replace (Z.succ (first + step)) with (first + (step + 1)) by lia. cbn [fmap list_fmap fitting copy_lines].
  set (t := line_at r (first + step)). set (q := line_at r <$> seqZ (first + (step + 1)) (Z.of_nat count)).
  destruct (ring_line r Hok (first + step)) as (l & Hl & [Hlb Hlu] & Hline). fold t in Hline. rewrite Hl. cbn [expect mbind res_bind].
  assert (len t = used l) as Ht by (rewrite Hline; unfold len in *; rewrite length_take; lia). rewrite <-Ht.
  pose proof (len_nonneg t). pose proof (len_nonneg T).
  destruct (Z.ltb_spec (len into) (at_ + len t)) as [Hno|Hfit]; destruct (Z.ltb_spec (len into - at_) (len t)) as [Hno'|Hfit']; try lia.
  { exists into. cbn [fst concat]. change (len []) with 0. rewrite !Z.add_0_r. split; [done|]. split; [done|]. by rewrite app_nil_r. }
  assert (take (Z.to_nat (len t)) (bytes l) = t) as Hsrc by (rewrite Ht; symmetry; exact Hline).
  rewrite slice_prefix, Hsrc by lia. cbn [expect mbind res_bind].
  rewrite copy_at_Some by lia. cbn [expect mbind res_bind].
  assert (len (splice into (Z.to_nat at_) t) = len into) as Hlen by (apply len_splice; unfold len in *; lia).
  destruct (IH first (step + 1) (at_ + len t) (splice into (Z.to_nat at_) t) (T ++ t)) as (into' & E & Hlen' & Htake'); [by rewrite len_app, HT|lia|lia|lia| |].
  { unfold splice. rewrite Htake. rewrite app_assoc, take_app_le by (rewrite length_app; unfold len in *; lia).
    apply take_ge. rewrite length_app. unfold len in *. lia. }
  fold q in E, Htake'. rewrite Hlen in E, Htake', Hlen'. replace (len into - at_ - len t) with (len into - (at_ + len t)) by lia.
  destruct (fitting (len into - (at_ + len t)) q) as [a b]. cbn [fst concat] in *. exists into'. rewrite E.
  rewrite !len_app, len_cons. split; [do 2 f_equal; [f_equal; lia]|]. split; [done|].
  replace (at_ + (len t + len (concat a))) with (at_ + len t + len (concat a)) by lia. by rewrite Htake', <-app_assoc.
Qed.

Lemma fitting_app q : ∀ room, (fitting room q).1 ++ (fitting room q).2 = q.
Proof.
  induction q as [|t q IH]; intros room; cbn [fitting]; [done|]. destruct (room <? len t); [done|].
  specialize (IH (room - len t)). destruct (fitting (room - len t) q). cbn [fst snd] in *. cbn. by rewrite IH.
Qed.

Lemma flush_step r into : ring_ok r →
  ∃ n into' r', copy_into r into = Ok (n, into', r') ∧ ring_ok r' ∧ boot r' = boot r ∧ written r' = written r ∧
    take (Z.to_nat n) into' = concat (fitting (len into) (pending r)).1 ∧
    pending r' = (fitting (len into) (pending r)).2.
Proof.
  intros Hok. destruct (due_bounds r Hok) as (Hb1 & Hb2 & Hb3). destruct (ro_count _ Hok) as [H0 Hfw].
  assert (unflushed (written r) (flushed r) EVENTS = (first_due r, written r - first_due r)) as Hu.
  { unfold unflushed, saturating_sub, first_due, oldest in *. f_equal. unfold EVENTS in *. lia. }
  unfold copy_into. rewrite Hu. pose proof (len_nonneg into).
  destruct (copy_lines_spec r Hok (Z.to_nat (written r - first_due r)) (first_due r) 0 0 into []) as (into' & E & Hlen & Htake);
    [done|lia|lia|lia|done|].
  rewrite Z.add_0_r, Z2Nat.id, Z.sub_0_r in E, Htake by lia. fold (pending r) in E, Htake. rewrite !Z.add_0_l in E, Htake.
  pose proof (fitting_app (pending r) (len into)) as Happ.
  destruct (fitting (len into) (pending r)) as [a b]. cbn [fst snd app] in *. rewrite E. cbn [mbind res_bind].
  eexists _, into', _. split; [reflexivity|].
  assert (len a + len b = written r - first_due r) as Hab.
  { rewrite <-len_app, Happ. unfold len. rewrite pending_length. lia. }
  pose proof (len_nonneg a). pose proof (len_nonneg b).
  split.
  { destruct Hok as [K1 K2 K3 K4 K5]. split; try done. cbn [flushed written]. lia. }
  split; [done|]. split; [done|]. split; [done|].
  match goal with |- pending ?r' = _ => assert (first_due r' = first_due r + len a) as Hf by (unfold first_due at 1, oldest at 1; cbn [flushed written]; unfold oldest in *; lia) end.
  unfold pending. rewrite Hf. cbn [written].
  change (line_at _) with (line_at r). replace (written r - (first_due r + len a)) with (len b) by lia.
  apply (f_equal (drop (length a))) in Happ. rewrite drop_app_length in Happ. rewrite Happ. unfold pending.
  replace (written r - first_due r) with (len a + len b) by lia. rewrite seqZ_app, fmap_app by lia.
  rewrite drop_app_ge by (rewrite length_fmap, length_seqZ; unfold len; lia).
  rewrite length_fmap, length_seqZ. replace (length a - Z.to_nat (len a))%nat with O by (unfold len; lia).
  rewrite drop_0. do 2 f_equal. unfold len. rewrite length_fmap, length_seqZ. lia.
Qed.

(** ** The theorems *)
Fixpoint run_all {S} (step : op → S → may (list Z * S)) (ops : list op) (s : S) : may (list (list Z)) :=
  match ops with
  | [] => Ok []
  | o :: ops => '(a, s) ← step o s; l ← run_all step ops s; Ok (a :: l)
  end.

Fixpoint queue_all (ops : list op) (s : Z * list (list Z)) : list (list Z) :=
  match ops with
  | [] => []
  | o :: ops => let '(a, s) := run_queue o s in a :: queue_all ops s
  end.

Lemma run_step r o : ring_ok r → op_ok o → written r + 1 < 2 ^ 64 →
  ∃ r', run_ring o r = Ok ((run_queue o (boot r, pending r)).1, r') ∧ ring_ok r' ∧ written r' ≤ written r + 1 ∧
    (boot r', pending r') = (run_queue o (boot r, pending r)).2.
Proof.
  intros Hok Ho Hw. destruct o as [ticks what detail second name|b|into]; cbn [run_ring run_queue].
  - destruct (say_step r ticks what detail second name Hok Ho Hw) as (r' & -> & Hok' & Hb & Hwr & Hp).
    exists r'. split; [done|]. split; [done|]. split; [lia|]. cbn [snd]. by rewrite Hb, Hp.
  - destruct (boot_step r b Hok Ho) as (r' & -> & Hok' & Hb & Hwr & Hp). exists r'. split; [done|]. split; [done|].
    split; [lia|]. cbn [snd]. by rewrite Hb, Hp.
  - destruct (flush_step r into Hok) as (n & into' & r' & -> & Hok' & Hb & Hwr & Htake & Hp). exists r'.
    destruct (fitting (len into) (pending r)) as [a b]. cbn [fst snd mbind res_bind] in *. split; [by rewrite Htake|].
    split; [done|]. split; [lia|]. by rewrite Hb, Hp.
Qed.

Lemma new_ring_ok : ring_ok new.
Proof.
  split; [done| |done|done|].
  - apply Forall_replicate. split; [done|]. unfold empty, LINE. cbn. lia.
  - intros i Hi. unfold oldest, EVENTS in Hi. cbn [written new] in Hi. lia.
Qed.

(** C22: The event log, under any sequence of events, changes of the boot's
    number and flushes into buffers of any size: it never panics, and a
    flush answers exactly what a queue answers that keeps the last 128 lines
    not yet flushed, oldest first, and hands out the longest run of whole
    lines from its front that fits.  So each line goes out at most once, in
    order, and only whole, and one is lost only when 128 newer ones were
    recorded before it was flushed. *)
Theorem event_log_refines ops : Forall op_ok ops → len ops < 2 ^ 64 →
  run_all run_ring ops new = Ok (queue_all ops (0, [])).
Proof.
  intros Hops Hlen.
  assert (∀ ops r, Forall op_ok ops → ring_ok r → written r + len ops < 2 ^ 64 →
    run_all run_ring ops r = Ok (queue_all ops (boot r, pending r))) as Hall.
  { clear ops Hops Hlen. induction ops as [|o ops IH]; intros r Hf Hok Hw; [done|].
    apply Forall_cons in Hf as [Ho Hf]. rewrite len_cons in Hw. pose proof (len_nonneg ops).
    destruct (run_step r o Hok Ho) as (r' & E & Hok' & Hwr & Hq); [lia|]. cbn [run_all queue_all]. rewrite E. cbn [mbind res_bind].
    rewrite IH by (done || lia). cbn [mbind res_bind]. rewrite Hq.
    destruct (run_queue o (boot r, pending r)) as [a [b q]]. done. }
  apply (Hall ops new Hops new_ring_ok). cbn [written new]. lia.
Qed.

Lemma event_log_refines_witness :
  let ops := [Say 5 Boot 7 None []; SetBoot 7; Say 9 Exited 3 (Some 0) []; Flush (replicate 100 0); Flush (replicate 100 0)] in
  run_all run_ring ops new =
    Ok [[]; []; []; text "    7        5 boot       7" ++ [10] ++ text "    7        9 exited     3 0" ++ [10]; []].
Proof.
  intros ops. rewrite (event_log_refines ops); [vm_compute; reflexivity| |reflexivity].
  repeat constructor; vm_compute; (discriminate || reflexivity).
Defined.

(** ** Reading a line back *)
Definition number_in (l : list Z) : Z := parse (filter (λ b, b ≠ 32) l).

Lemma decimal_digits fuel n : 0 ≤ n → Forall (λ b, b ≠ 32) (decimal_fuel fuel n).
Proof.
  revert n; induction fuel as [|fuel IH]; intros n Hn; cbn [decimal_fuel]; [constructor|]. apply Forall_app. split.
  - destruct (n / 10 =? 0); [constructor|]. apply IH. by apply Z.div_pos.
  - apply Forall_singleton. pose proof (Z.mod_pos_bound n 10). lia.
Qed.

Lemma filter_id {A} (P : A → Prop) `{∀ x, Decision (P x)} l : Forall P l → filter P l = l.
Proof. induction 1 as [|x l Hx Hl IH]; [done|]. by rewrite filter_cons_True, IH. Qed.

Lemma number_in_padded w n : in_width 64 n → number_in (padded w n) = n.
Proof.
  intros Hn. unfold number_in, padded. rewrite filter_app.
  assert (filter (λ b, b ≠ 32) (replicate (Z.to_nat (w - len (decimal n))) 32) = []) as ->.
  { induction (Z.to_nat _) as [|k IH]; [done|]. cbn [replicate]. rewrite filter_cons_False; [exact IH|intros Hx; by apply Hx]. }
  cbn [app]. rewrite filter_id; [by apply parse_decimal|]. apply decimal_digits, Hn.
Qed.

(** The columns of a line: from [a], [n] bytes. *)
Definition column (l : list Z) (a n : Z) : list Z := take (Z.to_nat n) (drop (Z.to_nat a) l).

Lemma column_at (pre mid post : list Z) a n : len pre = a → len mid = n → column (pre ++ mid ++ post) a n = mid.
Proof.
  intros <- <-. unfold column, len. rewrite !Nat2Z.id, drop_app_length. apply take_app_length.
Qed.

Lemma padded_len w n : len (decimal n) ≤ w → len (padded w n) = w.
Proof. intros Hw. unfold padded. rewrite len_app, len_replicate. lia. Qed.

Lemma word_len w : len (word w) = 10.
Proof. by destruct w. Qed.

Lemma word_inj w w' : word w = word w' → w = w'.
Proof. destruct w, w'; (done || (intros H; vm_compute in H; discriminate H)). Qed.

(** A line is laid out as its format says, whatever the numbers and the
    name: what does not fit is cut off the end, nothing outside the line is
    written and nothing panics.  Read back by column, a line gives the boot
    (below 100000), the ticks (below 10^8) and the word, which is that of no
    other kind of event; and the number behind it is the detail. *)
Theorem event_line_exact into boot ticks what detail second name :
  len into = LINE → in_width 32 boot → in_width 64 ticks → in_width 64 detail → from_option (in_width 64) True second →
  let t := line_text boot ticks what detail second name in
  ∃ l, format_line into boot ticks what detail second name = Ok (Z.min (len t) LINE, l) ∧
    l = take (Z.to_nat LINE) t ++ drop (Z.to_nat (len t)) into ∧
    (len t ≤ LINE → len (decimal boot) ≤ 5 → len (decimal ticks) ≤ 8 →
       number_in (column l 0 5) = boot ∧ number_in (column l 6 8) = ticks ∧
       (∀ w, column l 15 10 = word w ↔ w = what) ∧
       number_in (column l 26 (len (decimal detail))) = detail ∧
       last (take (Z.to_nat (len t)) l) = Some 10).
Proof.
  intros Hlen Hb Ht Hd Hs t. assert (in_width 64 boot) as Hb' by (unfold in_width in *; lia).
  exists (laid into t).2. rewrite format_line_laid by done. fold t. unfold laid. rewrite Hlen. cbn [snd].
  assert (length into = Z.to_nat LINE) as Hl by (unfold len in Hlen; lia). rewrite Hl.
  split; [done|]. unfold splice. rewrite take_0. cbn [app Nat.add].
  assert (drop (length (take (Z.to_nat LINE) t)) into = drop (Z.to_nat (len t)) into) as ->.
  { rewrite length_take. unfold len. rewrite Nat2Z.id. destruct (decide (length t ≤ Z.to_nat LINE)%nat).
    - f_equal. lia.
    - rewrite !drop_ge by lia. done. }
  split; [done|]. intros Hfit H5 H8. rewrite (take_ge t) by (unfold len in Hfit; lia).
  set (rest := drop _ into).
  set (tail_ := match second with Some s => text " " ++ decimal s | None => [] end ++
    (if decide (name = []) then [] else text " " ++ name) ++ [10]).
  assert (t ++ rest = padded 5 boot ++ text " " ++ padded 8 ticks ++ text " " ++ word what ++ text " " ++ decimal detail ++ (tail_ ++ rest)) as Hline.
  { unfold t, line_text. fold tail_. by rewrite <-!app_assoc. }
  pose proof (padded_len 5 boot H5) as L5. pose proof (padded_len 8 ticks H8) as L8. pose proof (word_len what) as Lw.
  split; [|split; [|split; [|split]]].
  - assert (column (t ++ rest) 0 5 = padded 5 boot) as ->; [|by apply number_in_padded].
    rewrite Hline. by apply (column_at [] (padded 5 boot)).
  - assert (column (t ++ rest) 6 8 = padded 8 ticks) as ->; [|by apply number_in_padded].
    rewrite Hline. rewrite <-(column_at (padded 5 boot ++ text " ") (padded 8 ticks)
      (text " " ++ word what ++ text " " ++ decimal detail ++ tail_ ++ rest) 6 8) at 2; [by rewrite <-!app_assoc| |done].
    rewrite !len_app, L5. done.
  - assert (column (t ++ rest) 15 10 = word what) as ->.
    { rewrite Hline. rewrite <-(column_at (padded 5 boot ++ text " " ++ padded 8 ticks ++ text " ") (word what)
        (text " " ++ decimal detail ++ tail_ ++ rest) 15 10) at 2; [by rewrite <-!app_assoc| |done].
      rewrite !len_app, L5, L8. done. }
    intros w. split; [by intros ->%word_inj|by intros ->].
  - assert (column (t ++ rest) 26 (len (decimal detail)) = decimal detail) as ->.
    { rewrite Hline. rewrite <-(column_at (padded 5 boot ++ text " " ++ padded 8 ticks ++ text " " ++ word what ++ text " ")
        (decimal detail) (tail_ ++ rest) 26 (len (decimal detail))) at 3; [by rewrite <-!app_assoc| |done].
      rewrite !len_app, L5, L8, Lw. done. }
    rewrite <-padded_0. by apply number_in_padded.
  - unfold len. rewrite Nat2Z.id, take_app_length. unfold t, line_text. rewrite !app_assoc. apply last_snoc.
Qed.

Lemma event_line_exact_witness :
  ∃ l, format_line (replicate 72 0) 7 1234 Exited 3 (Some 0) [] = Ok (30, l) ∧
    number_in (column l 0 5) = 7 ∧ number_in (column l 6 8) = 1234.
Proof.
  destruct (event_line_exact (replicate 72 0) 7 1234 Exited 3 (Some 0) []) as (l & E & _ & Hr);
    [reflexivity|split; reflexivity || discriminate..|].
  exists l. split; [exact E|]. destruct Hr as (H1 & H2 & _); [vm_compute; discriminate..|]. split; [exact H1|exact H2].
Defined.

(** A line that is cut has lost its newline: with the widest numbers and the
    longest name of a file it is. *)
Lemma long_line_not_ended : ∃ l,
  format_line (replicate 72 0) (umax 32) (umax 64) Exited (umax 64) None (replicate 12 65) = Ok (72, l) ∧ last l ≠ Some 10.
Proof. eexists. split; [vm_compute; reflexivity|vm_compute; discriminate]. Qed.

(** ** Joining *)
(** [w] is the end of [s], from the start of a line on. *)
Definition from_a_line (s w : list Z) : Prop := ∃ p, s = p ++ w ∧ (p = [] ∨ last p = Some 10).

(** The longest such end of at most [room] bytes, or nothing. *)
Definition newest (s : list Z) (room : Z) (w : list Z) : Prop :=
  (w = [] ∨ from_a_line s w) ∧ len w ≤ room ∧ ∀ w', from_a_line s w' → len w' ≤ room → len w' ≤ len w.

Lemma newest_whole_lines_spec s room : 0 ≤ room → ∃ w, newest_whole_lines s room = Ok w ∧ newest s room w.
Proof.
  intros Hr. unfold newest_whole_lines. pose proof (len_nonneg s).
  destruct (Z.leb_spec (len s) room) as [Hall|Hcut].
  { exists s. split; [done|]. split; [right; exists []; split; [done|by left]|]. split; [done|].
    intros w' (p & -> & _) _. rewrite len_app. pose proof (len_nonneg p). lia. }
  set (cut := len s - room). destruct (Z.eqb_spec cut 0) as [?|_]; [lia|]. cbn [mbind res_bind].
  destruct (index_Some s (cut - 1)) as (b & -> & Hb); [lia|]. cbn [expect mbind res_bind].
  assert (slice s cut (len s) = Some (drop (Z.to_nat cut) s)) as Hslice.
  { rewrite slice_Some by lia. f_equal. apply take_ge. rewrite length_drop. unfold len. lia. }
  assert (len (drop (Z.to_nat cut) s) = room) as Hkept by (unfold len in *; rewrite length_drop; lia).
  (* an end of at most [room] bytes starts at [cut] or behind *)
  assert (∀ w', from_a_line s w' → len w' ≤ room → ∃ n, (Z.to_nat cut ≤ n)%nat ∧ w' = drop n s ∧ (n ≤ length s)%nat ∧ s !! pred n = Some 10) as Hends.
  { intros w' (p & -> & Hp) Hw. exists (length p). assert (cut = len p + len w' - room) as Hc by (unfold cut; rewrite len_app; lia). pose proof (len_nonneg p).
    split; [unfold len in *; lia|]. split; [by rewrite drop_app_length|]. split; [rewrite length_app; lia|].
    destruct Hp as [->|Hp]; [change (len []) with 0 in *; lia|]. rewrite last_lookup in Hp. rewrite lookup_app_l; [done|].
    apply lookup_lt_Some in Hp. lia. }
  destruct (Z.eqb_spec b 10) as [->|Hb10].
  - exists (drop (Z.to_nat cut) s). rewrite Hslice. split; [done|]. split; [right|split; [lia|]].
    + exists (take (Z.to_nat cut) s). split; [by rewrite take_drop|]. right. rewrite last_lookup, length_take.
      rewrite lookup_take_lt by (unfold len in *; lia). replace (pred (Z.to_nat cut `min` length s)) with (Z.to_nat (cut - 1)) by (unfold len in *; lia). done.
    + intros w' _ Hw. lia.
  - rewrite Hslice. cbn [expect mbind res_bind].
    destruct (list_find (λ byte, byte = 10) (drop (Z.to_nat cut) s)) as [[at_ b']|] eqn:Hf.
    + apply list_find_Some in Hf as (Hat & -> & Hbefore). rewrite lookup_drop in Hat. pose proof (lookup_lt_Some _ _ _ Hat) as Hlt.
      set (n := (Z.to_nat cut + at_ + 1)%nat).
      assert (slice s (cut + Z.of_nat at_ + 1) (len s) = Some (drop n s)) as Hsl.
      { rewrite slice_Some by (unfold len; lia). replace (Z.to_nat (cut + Z.of_nat at_ + 1)) with n by lia.
        f_equal. apply take_ge. rewrite length_drop. unfold len. lia. }
      exists (drop n s). rewrite Hsl. split; [done|]. split; [right|split].
      * exists (take n s). split; [by rewrite take_drop|]. right. rewrite last_lookup, length_take, lookup_take_lt by lia.
        replace (pred (n `min` length s)) with (Z.to_nat cut + at_)%nat by lia. done.
      * unfold len in *. rewrite length_drop. lia.
      * intros w' Hw' Hle. destruct (Hends w' Hw' Hle) as (m & Hm & -> & Hms & Hm10).
        assert (n ≤ m)%nat; [|unfold len; rewrite !length_drop; lia].
        destruct (decide (n ≤ m)%nat) as [?|Hmn]; [done|exfalso].
        destruct (decide (m = Z.to_nat cut)) as [->|Hmc].
        -- replace (pred (Z.to_nat cut)) with (Z.to_nat (cut - 1)) in Hm10 by lia. congruence.
        -- apply (Hbefore (pred m - Z.to_nat cut)%nat 10); [|lia|done]. rewrite lookup_drop. rewrite <-Hm10. f_equal. lia.
    + exists []. split; [done|]. split; [by left|]. split; [done|]. intros w' Hw' Hle.
      destruct (Hends w' Hw' Hle) as (m & Hm & -> & Hms & Hm10). apply list_find_None in Hf. exfalso.
      destruct (decide (m = Z.to_nat cut)) as [->|Hmc].
      * replace (pred (Z.to_nat cut)) with (Z.to_nat (cut - 1)) in Hm10 by lia. congruence.
      * rewrite Forall_lookup in Hf. apply (Hf (pred m - Z.to_nat cut)%nat 10); [|done]. rewrite lookup_drop, <-Hm10. f_equal. lia.
Qed.

(** Joining a flush to what the file held never panics, and leaves in
    the buffer the longest run of whole lines of the old file that fits
    behind the longest run of whole lines of the new ones that fits: within
    the limit and the buffer, cut only where a line starts, the newest
    kept. *)
Theorem event_join_exact old new limit into : 0 ≤ limit →
  ∃ n out kept_old kept_new, join old new limit into = Ok (n, out) ∧
    n ≤ limit ∧ n ≤ len into ∧ len out = len into ∧
    take (Z.to_nat n) out = kept_old ++ kept_new ∧ drop (Z.to_nat n) out = drop (Z.to_nat n) into ∧
    newest new (Z.min limit (len into)) kept_new ∧
    newest old (Z.min limit (len into) - len kept_new) kept_old.
Proof.
  intros Hl. unfold join. pose proof (len_nonneg into).
  destruct (newest_whole_lines_spec new (Z.min limit (len into))) as (kn & -> & Hn); [lia|]. cbn [mbind res_bind].
  pose proof Hn as (_ & Hnl & _).
  destruct (newest_whole_lines_spec old (Z.min limit (len into) - len kn)) as (ko & -> & Ho); [lia|]. cbn [mbind res_bind].
  pose proof Ho as (_ & Hol & _). pose proof (len_nonneg kn). pose proof (len_nonneg ko).
  rewrite copy_at_Some by lia. cbn [expect mbind res_bind].
  assert (len (splice into (Z.to_nat 0) ko) = len into) as Hl1 by (apply len_splice; unfold len in *; lia).
  rewrite copy_at_Some by (rewrite ?Hl1; lia). cbn [expect mbind res_bind].
  eexists _, _, ko, kn. split; [reflexivity|]. split; [lia|]. split; [lia|].
  change (Z.to_nat 0) with O. replace (Z.to_nat (len ko)) with (length ko) by (unfold len; lia).
  rewrite splice_more by (unfold len in *; lia). split; [apply len_splice; rewrite length_app; unfold len in *; lia|].
  replace (Z.to_nat (len ko + len kn)) with (length (ko ++ kn)) by (rewrite length_app; unfold len; lia).
  rewrite take_splice_0. split; [done|]. split; [|done].
  unfold splice. rewrite take_0. cbn [app Nat.add]. by rewrite drop_app_length.
Qed.

Lemma event_join_exact_witness :
  ∃ out, join [65; 10; 66; 10] [67; 10] 5 (replicate 8 0) = Ok (4, out) ∧ take 4 out = [66; 10; 67; 10].
Proof.
  destruct (event_join_exact [65; 10; 66; 10] [67; 10] 5 (replicate 8 0)) as (n & out & _ & _ & E & _); [discriminate|].
  exists out. assert (join [65; 10; 66; 10] [67; 10] 5 (replicate 8 0) = Ok (4, [66; 10; 67; 10; 0; 0; 0; 0])) as E'
    by (vm_compute; reflexivity).
  rewrite E in E'. injection E' as -> ->. split; [exact E|reflexivity].
Defined.
