(* ===== verification/VolumeSafe.v ===== *)
(** * No volume can stop the kernel

    A small calculus for the volume code: [safe Q m] says that [m], from any
    state that satisfies [I], neither panics nor runs for ever, leaves [I]
    true and answers an error or a value that satisfies [Q].  Every
    operation of the volume is [safe] for any [I] that its reads and its
    writes keep, whatever the sectors hold. *)

From S2P Require Import Prelude Words Bytes FatFormat FatVolume FatFormatThms FatRead FatPlace FatFile.
Local Open Scope Z_scope.

Section safe.
  Context {S : Type} (I : S → Prop).

Definition safe {X A} (Q : A → Prop) (m : dev S X A) : Prop := ∀ s, I s →
  ∃ r s', m s = (r, s') ∧ I s' ∧ match r with Ok a => Q a | Err _ => True | Panic | Diverge => False end.

Lemma safe_ret {X A} (Q : A → Prop) (a : A) : Q a → safe (X:=X) Q (mret a).
Proof. intros HQ s Hs. by exists (Ok a), s. Qed.

Lemma safe_err {X A} (Q : A → Prop) (e : X) : safe Q (lift (Err e)).
Proof. intros s Hs. by exists (Err e), s. Qed.

Lemma safe_lift {X A} (Q : A → Prop) (r : res X A) :
  match r with Ok a => Q a | Err _ => True | _ => False end → safe Q (lift r).
Proof. intros Hr s Hs. by exists r, s. Qed.

Lemma safe_bind {X A B} (P : A → Prop) (Q : B → Prop) (m : dev S X A) (f : A → dev S X B) :
  safe P m → (∀ a, P a → safe Q (f a)) → safe Q (m ≫= f).
Proof.
  intros Hm Hf s Hs. destruct (Hm s Hs) as (r & s1 & E1 & Hs1 & Hr). unfold mbind, dev_bind. rewrite E1.
  destruct r as [a|e| |]; [by apply Hf|by exists (Err e), s1|done..].
Qed.

Lemma safe_mono {X A} (P Q : A → Prop) (m : dev S X A) : safe P m → (∀ a, P a → Q a) → safe Q m.
Proof.
  intros Hm HPQ s Hs. destruct (Hm s Hs) as (r & s1 & E1 & Hs1 & Hr). exists r, s1. split; [done|]. split; [done|].
  destruct r; auto.
Qed.

Lemma safe_map_err {X Y A} (Q : A → Prop) (g : X → Y) (m : dev S X A) : safe Q m → safe Q (dev_map_err g m).
Proof.
  intros Hm s Hs. destruct (Hm s Hs) as (r & s1 & E1 & Hs1 & Hr). unfold dev_map_err. rewrite E1.
  exists (map_err g r), s1. split; [done|]. split; [done|]. by destruct r.
Qed.

Lemma safe_expect {X A} (Q : A → Prop) (o : option A) a : o = Some a → Q a → safe (X:=X) Q (lift (expect o)).
Proof. intros -> HQ. by apply safe_lift. Qed.

Lemma safe_for_in {X A B} (P : B → Prop) (l : list A) (f : B → A → dev S X B) b :
  (∀ b a, P b → a ∈ l → safe P (f b a)) → P b → safe P (for_in l f b).
Proof.
  revert b. induction l as [|a l IH]; intros b Hf Hb; cbn [for_in]; [by apply safe_ret|].
  apply (safe_bind P); [apply Hf; [done|by left]|]. intros b' Hb'. apply IH; [|done]. intros b0 a0 ? ?. apply Hf; [done|by right].
Qed.

Lemma safe_for_until {X A B R} (P : B → Prop) (Q : R → Prop) (l : list A) (f : B → A → dev S X (B + R)) b :
  (∀ b a, P b → a ∈ l → safe (λ x, match x with inl b => P b | inr r => Q r end) (f b a)) → P b →
  safe (λ x, match x with inl b => P b | inr r => Q r end) (for_until l f b).
Proof.
  revert b. induction l as [|a l IH]; intros b Hf Hb; cbn [for_until]; [by apply safe_ret|].
  eapply safe_bind; [apply Hf; [done|by left]|]. intros [b'|r] Hx; [|by apply safe_ret].
  apply IH; [|done]. intros b0 a0 ? ?. apply Hf; [done|by right].
Qed.
End safe.

Definition entry_ok (e : DirectoryEntry) : Prop :=
  0 ≤ esize e < 2 ^ 32 ∧ bytes_ok (ename e) ∧ 0 ≤ attributes e < 256.
Definition whole_sector (b : list Z) : Prop := len b = 512 ∧ bytes_ok b.

Lemma decode_slot_ok slot e : bytes_ok slot → decode_slot slot = SlotEntry e → entry_ok e.
Proof.
  intros Hb. unfold decode_slot. repeat case_match; try done. intros [= <-]. unfold entry_ok. cbn [esize ename attributes].
  split; [by apply u32_at_bound|]. split; [|by apply byte_at_bound]. apply Forall_app_2; [|apply Forall_replicate; lia].
  assert (∀ l, bytes_ok l → bytes_ok (until_space l)) as Hu.
  { induction l as [|c l IH]; intros Hl; cbn; [done|]. case_match; [constructor|]. apply Forall_cons in Hl as [? ?]. constructor; [done|by apply IH]. }
  unfold slot_name. apply Forall_app_2; [by apply Hu, Forall_take|]. case_match; [constructor|]. constructor; [lia|]. by apply Hu, Forall_take, Forall_drop.
Qed.

Lemma chunks_slots bytes : whole_sector bytes → ∀ slot, slot ∈ as_chunks (Z.to_nat DIRECTORY_ENTRY_BYTES) bytes →
  len slot = 32 ∧ bytes_ok slot.
Proof.
  intros [_ Hb] slot. unfold as_chunks. generalize (length bytes) as fuel. intros fuel. revert bytes Hb.
  induction fuel as [|fuel IH]; intros bytes Hb Hin; cbn [chunks_fuel] in Hin; [by apply not_elem_of_nil in Hin|].
  case_match eqn:Hl; [by apply not_elem_of_nil in Hin|]. apply Nat.ltb_ge in Hl. apply elem_of_cons in Hin as [->|Hin].
  - split; [unfold len; rewrite length_take; change (Z.to_nat DIRECTORY_ENTRY_BYTES) with 32%nat in *; lia|by apply Forall_take].
  - apply (IH (drop (Z.to_nat DIRECTORY_ENTRY_BYTES) bytes)); [by apply Forall_drop|done].
Qed.

Section volume.
  Context (boot : BootSector) (Hg : geometry boot).
  Context {D E : Type} `{!Sectors D E} (I : D → Prop).
  Hypothesis read_safe : ∀ n, safe I whole_sector (read_sector n : dev D E (list Z)).
  Hypothesis write_safe : ∀ n b, whole_sector b → safe I (λ _, True) (write_sector n b : dev D E ()).
  Local Abbreviation safe := (safe I).

Lemma read_any {X} (f : VolumeError E → X) n : safe whole_sector (read f n).
Proof. apply safe_map_err, read_safe. Qed.

Lemma write_any n b : whole_sector b → safe (λ _, True) (write n b : dev D (WriteError E) ()).
Proof. intros Hb. by apply safe_map_err, write_safe. Qed.

Lemma sector_of_safe {X} (f : VolumeError E → X) c : safe (λ _, True) (sector_of (S:=D) boot f c).
Proof. apply safe_lift. by destruct (Boot.sector_of_cluster boot c). Qed.

Lemma next_cluster_safe c : safe (λ _, True) (next_cluster (S:=D) (E:=E) boot c).
Proof.
  unfold next_cluster. case_match; [apply safe_err|]. eapply safe_bind; [apply read_any|]. intros b _. by apply safe_ret.
Qed.

(** The guard against a chain that loops. *)
Definition rounds (fuel : nat) (seen : Z) : Prop := 0 ≤ seen ∧ clusters boot + 1 < seen + Z.of_nat fuel.

Lemma rounds_start seen : 0 ≤ seen → rounds (fuel_for_chain boot) seen.
Proof. intros Hs. unfold rounds, fuel_for_chain. pose proof (geo_clusters _ Hg). unfold FAT32_MINIMUM_CLUSTERS in *. lia. Qed.

Lemma rounds_more fuel seen : rounds (S fuel) seen → ¬ clusters boot < seen + 1 → rounds fuel (seen + 1).
Proof. unfold rounds. lia. Qed.

Lemma rounds_none seen : rounds 0 seen → clusters boot < seen.
Proof. unfold rounds. lia. Qed.

(** *** Reading *)
Section root.
  Context {T : Type} (P : T → Prop) (each : T → DirectoryEntry → T * bool).
  Hypothesis each_ok : ∀ t e, P t → entry_ok e → P (each t e).1.

Lemma root_slot_safe t slot : P t → bytes_ok slot →
  safe (λ x, match x with inl t => P t | inr t => P t end) (root_slot (S:=D) (E:=E) each t slot).
Proof.
  intros Ht Hb. unfold root_slot. destruct (decode_slot slot) as [| |e] eqn:Hs; try by apply safe_ret.
  pose proof (each_ok t e Ht (decode_slot_ok _ _ Hb Hs)) as He. destruct (each t e) as [t' on]. apply safe_ret. by destruct on.
Qed.

Lemma root_sector_safe first t o : P t →
  safe (λ x, match x with inl t => P t | inr t => P t end) (root_sector (S:=D) (E:=E) each first t o).
Proof.
  intros Ht. unfold root_sector. eapply safe_bind; [apply read_any|]. intros b Hb. apply safe_for_until; [|done].
  intros t' slot Ht' Hin. apply root_slot_safe; [done|]. by apply (chunks_slots b Hb slot).
Qed.

Lemma read_root_loop_safe fuel : ∀ c seen t, rounds fuel seen → seen ≤ clusters boot → P t →
  safe P (read_root_loop (S:=D) (E:=E) boot each fuel c seen t).
Proof.
  induction fuel as [|fuel IH]; intros c seen t Hf Hs Ht; [by apply rounds_none in Hf; lia|]. cbn [read_root_loop].
  eapply safe_bind; [apply sector_of_safe|]. intros first _.
  eapply safe_bind; [apply (safe_for_until I P P); [by intros; apply root_sector_safe|done]|].
  intros [t'|t'] Ht'; [|by apply safe_ret]. destruct (Z.ltb_spec (clusters boot) (seen + 1)); [apply safe_err|].
  eapply safe_bind; [apply next_cluster_safe|]. intros e _. destruct e; try apply safe_err; [|by apply safe_ret].
  apply IH; [by apply rounds_more; [|lia]|lia|done].
Qed.

Lemma read_root_safe t : P t → safe P (read_root (S:=D) (E:=E) boot each t).
Proof. intros Ht. apply read_root_loop_safe; [by apply rounds_start| |done]. pose proof (geo_clusters _ Hg). unfold FAT32_MINIMUM_CLUSTERS in *. lia. Qed.
End root.

Lemma find_safe nm : safe (λ o, ∀ e, o = Some e → entry_ok e) (find (S:=D) (E:=E) boot nm).
Proof. apply read_root_safe; [|done]. intros t e Ht He. case_match; cbn [fst]; [by intros ? [= <-]|done]. Qed.

Lemma skip_safe c seen i : 0 ≤ seen → safe (λ x, 0 ≤ x.2 ≤ clusters boot) (skip_cluster (S:=D) (E:=E) boot (c, seen) i).
Proof.
  intros Hs. unfold skip_cluster. destruct (Z.ltb_spec (clusters boot) (seen + 1)); [apply safe_err|].
  eapply safe_bind; [apply next_cluster_safe|]. intros e _. destruct e; try apply safe_err. apply safe_ret. cbn. lia.
Qed.

(** What a read leaves in the buffer: as much room as before, filled up to
    at most [want]. *)
Definition filled_to (want n0 : Z) (x : Z * list Z) : Prop := 0 ≤ x.1 ≤ want ∧ len x.2 = n0 ∧ bytes_ok x.2.

Lemma slice_safe {X} l a b : 0 ≤ a ≤ b → b ≤ len l →
  safe (λ l', slice l a b = Some l' ∧ len l' = b - a ∧ (bytes_ok l → bytes_ok l')) (lift (expect (slice l a b)) : dev D X (list Z)).
Proof.
  intros Ha Hb. eapply safe_expect; [by apply slice_Some|]. split; [by apply slice_Some|].
  pose proof (slice_Some l a b Ha Hb) as Hs. split; [by apply slice_inv in Hs as (_ & _ & ? & _)|].
  intros Hl. by eapply bytes_ok_slice.
Qed.

Lemma copy_safe {X} l a b src : 0 ≤ a → b = a + len src → b ≤ len l →
  safe (λ l', len l' = len l ∧ (bytes_ok l → bytes_ok src → bytes_ok l')) (lift (expect (copy_at l a b src)) : dev D X (list Z)).
Proof.
  intros Ha He Hb. eapply safe_expect; [by apply copy_at_Some|]. split; [|apply bytes_ok_splice].
  apply len_splice. unfold len in *. lia.
Qed.

Lemma read_at_sectors_safe fuel : ∀ want first sector inner written into,
  0 ≤ written ≤ want → want ≤ len into → bytes_ok into → 0 ≤ inner ≤ 512 → sector ≤ sectors_per_cluster boot →
  sectors_per_cluster boot < sector + Z.of_nat fuel →
  safe (filled_to want (len into)) (read_at_sectors (S:=D) (E:=E) boot fuel want first sector inner written into).
Proof.
  induction fuel as [|fuel IH]; intros want first sector inner written into Hw Hl Hbi Hi Hs Hf; [lia|]. cbn [read_at_sectors].
  destruct (Z.ltb_spec written want), (Z.ltb_spec sector (sectors_per_cluster boot)); cbn [andb]; try by apply safe_ret.
  eapply safe_bind; [apply read_any|]. intros b [Hb512 Hb]. set (taking := Z.min (want - written) (512 - inner)).
  eapply safe_bind; [apply slice_safe; lia|]. intros src (_ & Hsrc & Hsb).
  eapply safe_bind; [apply copy_safe; lia|]. intros into' [Hinto' Hib].
  rewrite <-Hinto'. apply IH; [lia|lia|auto|lia..].
Qed.

Lemma read_at_loop_safe fuel : ∀ want c seen inside written into,
  rounds fuel seen → seen ≤ clusters boot → 0 ≤ written ≤ want → want ≤ len into → bytes_ok into →
  0 ≤ inside ≤ sectors_per_cluster boot * 512 →
  safe (filled_to want (len into)) (read_at_loop (S:=D) (E:=E) boot fuel want c seen inside written into).
Proof.
  induction fuel as [|fuel IH]; intros want c seen inside written into Hf Hs Hw Hl Hbi Hi; [apply rounds_none in Hf; lia|].
  cbn [read_at_loop]. destruct (Z.ltb_spec written want); cbn [negb]; [|by apply safe_ret].
  eapply safe_bind; [apply sector_of_safe|]. intros first _.
  change SECTOR_BYTES with 512.
  assert (0 ≤ inside / 512 ≤ sectors_per_cluster boot) as Hsec.
  { split; [apply Z.div_pos; lia|apply Z.div_le_upper_bound; lia]. }
  pose proof (Z.mod_pos_bound inside 512 ltac:(done)) as Hm.
  eapply safe_bind; [apply read_at_sectors_safe; [done|done|done|lia|lia|]|].
  { pose proof (geo_spc _ Hg). lia. }
  intros [w into'] (Hw' & Hl' & Hb'). cbn [fst snd] in Hw', Hl', Hb'. case_match; [by apply safe_ret|].
  destruct (Z.ltb_spec (clusters boot) (seen + 1)); [apply safe_err|].
  eapply safe_bind; [apply next_cluster_safe|]. intros e _. destruct e; try apply safe_err.
  rewrite <-Hl'. apply IH; [by apply rounds_more; [|lia]|lia|lia|lia|done|]. pose proof (geo_spc _ Hg). lia.
Qed.

Lemma read_at_safe entry offset into : entry_ok entry → 0 ≤ offset → bytes_ok into →
  safe (λ x, 0 ≤ x.1 ≤ len into ∧ len x.2 = len into ∧ bytes_ok x.2)
    (read_at (S:=D) (E:=E) boot entry offset into).
Proof.
  intros [[He1 He2] _] Ho Hbi. pose proof (len_nonneg into). unfold read_at.
  destruct (Z.leb_spec (esize entry) offset); [apply safe_ret; cbn; split_and!; [lia..|done]|].
  destruct (Z.eqb_spec (Z.min (esize entry - offset) (len into)) 0); [apply safe_ret; cbn; split_and!; [lia..|done]|].
  pose proof (geo_spc _ Hg) as Hspc. assert (wrap 32 (sectors_per_cluster boot * SECTOR_BYTES) = sectors_per_cluster boot * 512) as ->.
  { unfold wrap, SECTOR_BYTES. apply Z.mod_small. lia. }
  eapply safe_bind with (P := λ x, 0 ≤ x.2 ≤ clusters boot).
  { apply safe_for_in; [|cbn; pose proof (geo_clusters _ Hg); unfold FAT32_MINIMUM_CLUSTERS in *; lia].
    intros [c seen] i Hs _. cbn [snd] in Hs. apply skip_safe. lia. }
  intros [c seen] Hs. cbn [snd] in Hs. pose proof (Z.mod_pos_bound offset (sectors_per_cluster boot * 512) ltac:(lia)).
  eapply safe_mono; [apply read_at_loop_safe; [apply rounds_start; lia|lia|lia|lia|done|lia]|].
  intros [read into'] (Hn & Hl & Hb). cbn [fst snd] in *. split_and!; [lia..|done].
Qed.

Lemma read_file_sector_safe size first acc o n0 : size ≤ n0 → filled_to size n0 acc →
  safe (filled_to size n0) (read_file_sector (S:=D) (E:=E) size first acc o).
Proof.
  intros Hs (Hw & Hl & Hbi). destruct acc as [written into]. cbn [fst snd] in *. unfold read_file_sector.
  case_match; [by apply safe_ret|]. eapply safe_bind; [apply read_any|]. intros b [Hbl Hb].
  eapply safe_bind; [apply slice_safe; lia|]. intros src (_ & Hsrc & Hsb).
  eapply safe_bind; [apply copy_safe; lia|]. intros into' [Hinto' Hib]. apply safe_ret. split_and!; cbn [fst snd]; [lia..|auto].
Qed.

Lemma read_file_safe entry into : entry_ok entry → bytes_ok into → safe (λ x, len x.2 = len into) (read_file (S:=D) (E:=E) boot entry into).
Proof.
  intros [[He _] _] Hbi. unfold read_file. destruct (Z.ltb_spec (len into) (esize entry)); [apply safe_err|].
  assert (∀ fuel c seen written buffer, rounds fuel seen → seen ≤ clusters boot → filled_to (esize entry) (len into) (written, buffer) →
    safe (filled_to (esize entry) (len into)) (read_file_loop (S:=D) (E:=E) boot fuel (esize entry) c seen written buffer)) as Hloop.
  { induction fuel as [|fuel IH]; intros c seen written buffer Hf Hs Hb; [apply rounds_none in Hf; lia|]. cbn [read_file_loop].
    case_match; [by apply safe_ret|]. eapply safe_bind; [apply sector_of_safe|]. intros first _.
    eapply safe_bind; [apply (safe_for_in I (filled_to (esize entry) (len into))); [|exact Hb]|].
    { intros acc o Hacc _. by apply read_file_sector_safe. }
    intros [w buf] Hw. case_match; [by apply safe_ret|]. destruct (Z.ltb_spec (clusters boot) (seen + 1)); [apply safe_err|].
    eapply safe_bind; [apply next_cluster_safe|]. intros e _. destruct e; try apply safe_err.
    apply IH; [by apply rounds_more; [|lia]|lia|done]. }
  eapply safe_mono; [apply Hloop; [by apply rounds_start| |split_and!; [cbn; lia|cbn; lia|done|done]]|by intros x (_ & Hx & _)].
  pose proof (geo_clusters _ Hg). unfold FAT32_MINIMUM_CLUSTERS in *. lia.
Qed.

(** *** Writing *)
Lemma table_offset c : 0 ≤ c mod (bytes_per_sector boot / 4) * 4 ≤ 508.
Proof.
  rewrite (geo_bps _ Hg). change (512 / 4) with 128. pose proof (Z.mod_pos_bound c 128 ltac:(done)). lia.
Qed.

Lemma set_in_table_safe c e t : safe (λ _, True) (set_in_table (S:=D) (E:=E) boot c e t).
Proof.
  unfold set_in_table. pose proof (table_offset c) as Ho. eapply safe_bind; [apply read_any|]. intros b [Hl Hb].
  eapply safe_bind; [apply copy_safe; [lia|unfold len at 1; rewrite length_le_encode; lia|lia]|]. intros b' [Hl' Hb'].
  apply write_any. split; [lia|]. apply Hb'; [done|apply le_encode_ok].
Qed.

Lemma set_next_cluster_safe c e : safe (λ _, True) (set_next_cluster (S:=D) (E:=E) boot c e).
Proof.
  unfold set_next_cluster. case_match; [apply safe_err|]. apply safe_for_in; [|done]. intros _ t _ _. apply set_in_table_safe.
Qed.

Lemma next_for_writing_safe c : safe (λ _, True) (dev_map_err Reading (next_cluster (S:=D) (E:=E) boot c)).
Proof. apply safe_map_err, next_cluster_safe. Qed.

Lemma clusters_fit : wrap 32 (FIRST_DATA_CLUSTER + clusters boot) = FIRST_DATA_CLUSTER + clusters boot.
Proof.
  destruct Hg as [_ Hspc _ Hr Hf Hspf _ Ht Hc Hd _ _]. unfold wrap, FIRST_DATA_CLUSTER, FAT32_MINIMUM_CLUSTERS in *. apply Z.mod_small. nia.
Qed.

Lemma free_clusters_loop_safe fuel : ∀ count at_ c found, 0 ≤ at_ ≤ count → count ≤ MAX_FILE_CLUSTERS → len found = MAX_FILE_CLUSTERS →
  c ≤ FIRST_DATA_CLUSTER + clusters boot → FIRST_DATA_CLUSTER + clusters boot < c + Z.of_nat fuel →
  safe (λ x, len x.2 = MAX_FILE_CLUSTERS) (free_clusters_loop (S:=D) (E:=E) boot fuel count at_ c found).
Proof.
  induction fuel as [|fuel IH]; intros count at_ c found Ha Hc Hl Hcl Hf; [lia|]. cbn [free_clusters_loop]. rewrite clusters_fit.
  destruct (Z.ltb_spec at_ count), (Z.ltb_spec c (FIRST_DATA_CLUSTER + clusters boot)); cbn [andb]; try by apply safe_ret.
  eapply safe_bind; [apply next_for_writing_safe|]. intros e _. case_decide.
  - eapply safe_bind with (P := λ f, len f = MAX_FILE_CLUSTERS).
    + unfold set_index. destruct (Z.leb_spec 0 at_); [|lia]. destruct (Z.ltb_spec at_ (len found)); [|lia].
      cbn [andb]. apply safe_lift. cbn. unfold len in *. by rewrite length_insert.
    + intros f Hf'. apply IH; lia.
  - apply IH; lia.
Qed.

Lemma free_clusters_safe count : 0 ≤ count →
  safe (λ f, len f = MAX_FILE_CLUSTERS ∧ count ≤ MAX_FILE_CLUSTERS) (free_clusters (S:=D) (E:=E) boot count).
Proof.
  intros Hc. unfold free_clusters. destruct (Z.ltb_spec MAX_FILE_CLUSTERS count); [apply safe_err|].
  eapply safe_bind; [apply free_clusters_loop_safe; [lia|done|done| |]|].
  - pose proof (geo_clusters _ Hg). unfold FAT32_MINIMUM_CLUSTERS in *. lia.
  - unfold fuel_for_chain. pose proof (geo_clusters _ Hg). unfold FAT32_MINIMUM_CLUSTERS in *. lia.
  - intros [a f] Hf. cbn [snd] in Hf. case_match; [apply safe_err|by apply safe_ret].
Qed.

Lemma write_cluster_sector_safe contents i first u o : bytes_ok contents → 0 ≤ i → 0 ≤ o →
  safe (λ _, True) (write_cluster_sector (S:=D) (E:=E) boot contents i first u o).
Proof.
  intros Hb Hi Ho. unfold write_cluster_sector. rewrite (cluster_bytes_spec _ Hg). pose proof (geo_spc _ Hg) as Hspc.
  set (at_ := i * (512 * sectors_per_cluster boot) + o * 512). assert (0 ≤ at_) by (unfold at_; nia). clearbody at_.
  destruct (Z.leb_spec (len contents) at_); [by apply safe_ret|].
  eapply safe_bind; [apply slice_safe; lia|]. intros src (Hsrc & Hl & _).
  eapply safe_bind; [apply copy_safe; [lia|lia|change (len (replicate 512 0)) with 512; lia]|]. intros b [Hl' Hb'].
  apply write_any. split; [by rewrite Hl'|]. apply Hb'; [apply Forall_replicate; lia|by eapply bytes_ok_slice].
Qed.

Lemma write_clusters_safe chain contents : bytes_ok contents → safe (λ _, True) (write_clusters (S:=D) (E:=E) boot chain contents).
Proof.
  intros Hb. unfold write_clusters. apply safe_for_in; [|done]. intros _ [i c] _ Hin.
  assert (0 ≤ i) as Hi. { apply elem_of_zip_l in Hin. apply in_seqZ in Hin. lia. }
  eapply safe_bind; [apply sector_of_safe|]. intros first _. apply safe_for_in; [|done]. intros u o _ Ho.
  apply in_seqZ in Ho. apply write_cluster_sector_safe; [done|done|lia].
Qed.

Lemma write_links_safe chain : safe (λ _, True) (write_links (S:=D) (E:=E) boot chain).
Proof. apply safe_for_in; [|done]. intros _ [i c] _ _. apply set_next_cluster_safe. Qed.

Lemma free_chain_safe first keep : safe (λ _, True) (free_chain (S:=D) (E:=E) boot first keep).
Proof.
  unfold free_chain. assert (∀ fuel c seen, rounds fuel seen → seen ≤ clusters boot →
    safe (λ _, True) (free_chain_loop (S:=D) (E:=E) boot fuel keep c seen)) as Hloop.
  { induction fuel as [|fuel IH]; intros c seen Hf Hs; [apply rounds_none in Hf; lia|]. cbn [free_chain_loop].
    eapply safe_bind; [apply next_for_writing_safe|]. intros e _. case_match; [by apply safe_ret|].
    eapply safe_bind; [apply set_next_cluster_safe|]. intros _ _. destruct (Z.ltb_spec (clusters boot) (seen + 1)); [apply safe_err|].
    destruct e; try by apply safe_ret. apply IH; [by apply rounds_more; [|lia]|lia]. }
  apply Hloop; [by apply rounds_start|]. pose proof (geo_clusters _ Hg). unfold FAT32_MINIMUM_CLUSTERS in *. lia.
Qed.

(** *** The directory *)
Definition place_ok (x : Z * Z) : Prop := 0 ≤ x.2 ≤ 480.
Definition free_ok (free : option (Z * Z)) : Prop := ∀ x, free = Some x → place_ok x.
Definition found_ok (x : slot_place) : Prop := place_ok x.1 ∧ ∀ e, x.2 = Some e → entry_ok e.

Lemma slots_zip b x : whole_sector b → x ∈ zip (seqZ 0 (len (as_chunks (Z.to_nat DIRECTORY_ENTRY_BYTES) b))) (as_chunks (Z.to_nat DIRECTORY_ENTRY_BYTES) b) →
  0 ≤ x.1 * DIRECTORY_ENTRY_BYTES ≤ 480 ∧ bytes_ok x.2.
Proof.
  intros [Hl Hb]. unfold len in Hl. change (Z.to_nat DIRECTORY_ENTRY_BYTES) with 32%nat. rewrite (zip_chunks 32 b 16) by lia.
  intros Hin. apply list_elem_of_fmap in Hin as (j & Hj0 & Hj). subst x. apply elem_of_seq in Hj. cbn [fst snd]. unfold DIRECTORY_ENTRY_BYTES.
  split; [lia|]. by apply Forall_take, Forall_drop.
Qed.

Lemma directory_slot_sector_safe nm first free o : free_ok free →
  safe (λ x, match x with inl free => free_ok free | inr place => found_ok place end)
    (directory_slot_sector (S:=D) (E:=E) nm first free o).
Proof.
  intros Hf. unfold directory_slot_sector. eapply safe_bind; [apply read_any|]. intros b Hb.
  apply (safe_for_until I free_ok found_ok); [|done]. intros fr x Hfr Hx. destruct (slots_zip b x Hb Hx) as [Ha Hs]. destruct x as [i slot].
  cbn [fst snd] in *. unfold directory_slot_slot. destruct (decode_slot slot) as [e| |] eqn:Hd.
  - apply safe_ret. destruct (names_slot slot nm); [|done]. split; [exact Ha|]. intros ? [= <-]. by eapply decode_slot_ok.
  - apply safe_ret. destruct (_ && _); [|done]. by intros ? [= <-].
  - apply safe_ret. split; [|done]. unfold place_ok. destruct fr as [[s a]|]; cbn [default fst snd]; [by apply (Hfr (s, a))|done].
Qed.

Lemma directory_slot_safe nm : safe found_ok (directory_slot (S:=D) (E:=E) boot nm).
Proof.
  unfold directory_slot. assert (∀ fuel c seen free, rounds fuel seen → seen ≤ clusters boot → free_ok free →
    safe found_ok (directory_slot_loop (S:=D) (E:=E) boot fuel nm c seen free)) as Hloop.
  { induction fuel as [|fuel IH]; intros c seen free Hf Hs Hfree; [apply rounds_none in Hf; lia|]. cbn [directory_slot_loop].
    eapply safe_bind; [apply sector_of_safe|]. intros first _.
    eapply safe_bind; [apply (safe_for_until I free_ok found_ok); [by intros; apply directory_slot_sector_safe|done]|].
    intros [fr|place] Hx; [|by apply safe_ret]. destruct (Z.ltb_spec (clusters boot) (seen + 1)); [apply safe_err|].
    eapply safe_bind; [apply next_for_writing_safe|]. intros e _.
    assert (safe found_ok (match fr with Some (sector, at_) => mret (sector, at_, None) | None => lift (Err DirectoryFull) end
      : dev D (WriteError E) slot_place)) as Hend.
    { destruct fr as [[s a]|]; [|apply safe_err]. apply safe_ret. split; [by apply (Hx (s, a))|done]. }
    destruct e; try exact Hend. apply IH; [by apply rounds_more; [|lia]|lia|done]. }
  apply Hloop; [by apply rounds_start| |done]. pose proof (geo_clusters _ Hg). unfold FAT32_MINIMUM_CLUSTERS in *. lia.
Qed.

Lemma update_fs_info_safe : safe (λ _, True) (update_fs_info (S:=D) (E:=E) boot).
Proof.
  unfold update_fs_info. case_match; [by apply safe_ret|]. eapply safe_bind; [apply read_any|]. intros b [Hl Hb].
  case_match; [by apply safe_ret|]. eapply safe_bind with (P := λ _, True).
  { apply safe_for_in; [|done]. intros acc s _ _. eapply safe_bind; [apply read_any|]. intros t _. by apply safe_ret. }
  intros [free first_free] _.
  eapply safe_bind; [apply copy_safe; [lia|unfold len; rewrite length_le_encode; lia|lia]|]. intros b1 [Hl1 Hb1].
  eapply safe_bind; [apply copy_safe; [lia|unfold len; rewrite length_le_encode; lia|lia]|]. intros b2 [Hl2 Hb2].
  apply write_any. split; [lia|]. apply Hb2; [apply Hb1; [done|apply le_encode_ok]|apply le_encode_ok].
Qed.

Lemma entry_slot_ok nm enc first size : encode_name nm = Some enc →
  len (encode_entry enc first size) = 32 ∧ bytes_ok (encode_entry enc first size).
Proof.
  intros Henc. split; [|by eapply encode_entry_ok]. apply encode_halves in Henc as (base & ext & -> & [? ? _ _ _]).
  unfold encode_entry, len. rewrite !length_app, padded_length by lia. done.
Qed.

Lemma write_file_safe nm contents : bytes_ok contents → safe entry_ok (write_file (S:=D) (E:=E) boot nm contents).
Proof.
  intros Hb. unfold write_file. destruct (encode_name nm) as [enc|] eqn:Henc; [|intros s Hs; by exists (Err BadName), s].
  eapply safe_bind; [by apply (safe_ret I (λ x, x = enc))|]. intros ? ->.
  set (needed := div_ceil (len contents) (Boot.cluster_bytes boot)).
  assert (0 ≤ needed) as Hneed.
  { apply div_ceil_nonneg; [|apply len_nonneg]. rewrite (cluster_bytes_spec _ Hg). pose proof (geo_spc _ Hg). lia. }
  eapply safe_bind; [apply directory_slot_safe|]. intros [[sector offset] existing] [Hp Hex]. unfold place_ok in Hp. cbn [fst snd] in Hp, Hex.
  case_match; [apply safe_err|].
  eapply safe_bind; [by apply free_clusters_safe|]. intros found [Hf Hfit].
  eapply safe_bind; [apply slice_safe; lia|]. intros chain _.
  eapply safe_bind; [by apply write_clusters_safe|]. intros _ _.
  eapply safe_bind; [apply write_links_safe|]. intros _ _.
  eapply safe_bind; [apply read_any|]. intros b [Hl Hbb].
  eapply safe_bind; [apply slice_safe; unfold DIRECTORY_ENTRY_BYTES; lia|]. intros _ _.
  destruct (entry_slot_ok nm enc (default 0 (head chain)) (len contents) Henc) as [Hel' Heb'].
  eapply safe_bind; [apply copy_safe; [lia|unfold DIRECTORY_ENTRY_BYTES; lia|unfold DIRECTORY_ENTRY_BYTES; lia]|]. intros b' [Hl' Hb'].
  eapply safe_bind; [apply write_any; split; [lia|auto]|]. intros _ _.
  eapply safe_bind with (P := λ _, True).
  { destruct existing as [e|]; [|by apply safe_ret]. case_match; [apply free_chain_safe|by apply safe_ret]. }
  intros _ _. eapply safe_bind; [apply update_fs_info_safe|]. intros _ _.
  eapply safe_bind; [apply slice_safe; unfold DIRECTORY_ENTRY_BYTES; lia|]. intros w (Hw & _).
  destruct (decode_slot w) as [e| |] eqn:Hd; [|apply safe_err..]. apply safe_ret. eapply decode_slot_ok; [|exact Hd].
  eapply bytes_ok_slice; [|exact Hw]. auto.
Qed.
End volume.
