(* ===== verification/Scheduler.v ===== *)
(** * The scheduler

    Models [kernel/src/scheduler.rs].  A kernel stack pointer is what it
    leads to: where the code that left the CPU goes on when somebody
    switches back to it ([Resume]).  [H] is the handler that was running,
    the tick's or a system call's, which [Calls] says. *)

From S2P Require Import Prelude Words PhysMem FrameAlloc Bytes Ipc FatFormat Memory HalPaging PageTables Stacks Process.
Local Open Scope Z_scope.

Definition MAX_PROCESSES : Z := 16.

(** ** States *)
Inductive State := New | Runnable | Blocked | Dead.

#[export] Instance State_eq_dec : EqDecision State.
Proof. solve_decision. Defined.

Definition can_run (s : State) : bool := match s with New | Runnable => true | _ => false end.
Definition waiting (s : State) : option State := if can_run s then Some Blocked else None.
Definition woken (s : State) : option State := if decide (s = Blocked) then Some Runnable else None.

(** Who runs after [from], wrapping round. *)
Definition next_runnable (states : list (option State)) (from : Z) : option Z :=
  find (λ i, match index states i with Some (Some s) => can_run s | _ => false end)
       ((λ step, (from + step) mod len states) <$> seqZ 1 (len states)).

Inductive SendError :=
| NoSuchProcess
| Busy
| Rejected (why : DeliverError).

Section scheduler.
  Context {H : Type}.

(** Where a [switch] goes on: nowhere yet; into [run_first]; behind the
    [switch] of [switch_to] or of [leave_for_the_kernel], and from there
    back into a handler; behind the [switch_to] of a process that ended; in
    [run_until_empty]. *)
Inductive Resume :=
| Nowhere
| FirstRun
| Returns (h : H)
| Left (h : H)
| Ended
| InRunUntilEmpty.

Record Slot := {
  process : Process;
  state : State;
  kernel_rsp : Resume;
  kernel_stack_top : Z;
  mailbox : Mailbox
}.

Record Scheduler := {
  slots : list (option Slot);
  current : Z;
  switching : bool;
  handed_over : bool
}.

Definition with_process (x : Slot) (p : Process) : Slot :=
  {| process := p; state := state x; kernel_rsp := kernel_rsp x; kernel_stack_top := kernel_stack_top x; mailbox := mailbox x |}.
Definition with_state (x : Slot) (s : State) : Slot :=
  {| process := process x; state := s; kernel_rsp := kernel_rsp x; kernel_stack_top := kernel_stack_top x; mailbox := mailbox x |}.
Definition with_rsp (x : Slot) (r : Resume) : Slot :=
  {| process := process x; state := state x; kernel_rsp := r; kernel_stack_top := kernel_stack_top x; mailbox := mailbox x |}.
Definition with_mailbox (x : Slot) (m : Mailbox) : Slot :=
  {| process := process x; state := state x; kernel_rsp := kernel_rsp x; kernel_stack_top := kernel_stack_top x; mailbox := m |}.

Definition with_slots (s : Scheduler) (l : list (option Slot)) : Scheduler :=
  {| slots := l; current := current s; switching := switching s; handed_over := handed_over s |}.
Definition with_current (s : Scheduler) (i : Z) : Scheduler :=
  {| slots := slots s; current := i; switching := switching s; handed_over := handed_over s |}.
Definition with_switching (s : Scheduler) (b : bool) : Scheduler :=
  {| slots := slots s; current := current s; switching := b; handed_over := handed_over s |}.
Definition with_handed_over (s : Scheduler) (b : bool) : Scheduler :=
  {| slots := slots s; current := current s; switching := switching s; handed_over := b |}.

(** ** The table of slots *)
Definition new_scheduler : Scheduler :=
  {| slots := replicate (Z.to_nat MAX_PROCESSES) None; current := 0; switching := false; handed_over := false |}.

(** [slots.get(index).and_then(Option::as_ref)]; [slots\[index\].as_ref()]
    where the index is in range. *)
Definition slot_at (s : Scheduler) (i : Z) : option Slot := mjoin (index (slots s) i).

(** Writing through [slots.get_mut(index).and_then(Option::as_mut)]. *)
Definition set_slot (s : Scheduler) (i : Z) (x : Slot) : Scheduler :=
  match slot_at s i with
  | Some _ => with_slots s (<[Z.to_nat i := Some x]> (slots s))
  | None => s
  end.

Definition add_slot (s : Scheduler) (x : Slot) : option Z * Scheduler :=
  match list_find (λ o, o = None) (slots s) with
  | Some (free, _) => (Some (Z.of_nat free), with_slots s (<[free := Some x]> (slots s)))
  | None => (None, s)
  end.

Definition process_at (s : Scheduler) (i : Z) : option Process := process <$> slot_at s i.
Definition state_at (s : Scheduler) (i : Z) : option State := state <$> slot_at s i.

Definition kill (s : Scheduler) (i : Z) : Scheduler :=
  match slot_at s i with
  | Some x => set_slot s i (with_process (with_state x Dead) (Proc.close_everything (process x)))
  | None => s
  end.
Definition kill_current (s : Scheduler) : Scheduler := kill s (current s).

Definition move_to (s : Scheduler) (i : Z) (transition : State → option State) : bool * Scheduler :=
  match slot_at s i with
  | Some x =>
      match transition (state x) with
      | Some st => (true, set_slot s i (with_state x st))
      | None => (false, s)
      end
  | None => (false, s)
  end.
Definition block (s : Scheduler) (i : Z) : bool * Scheduler := move_to s i waiting.
Definition unblock (s : Scheduler) (i : Z) : bool * Scheduler := move_to s i woken.

Definition states (s : Scheduler) : list (option State) := (λ o : option Slot, state <$> o) <$> slots s.
Definition blocked (s : Scheduler) : nat := length (filter (λ st, st = Blocked) (omap id (states s))).
Definition alive (s : Scheduler) : nat := length (filter (λ st, st ≠ Dead) (omap id (states s))).
Definition next_after (s : Scheduler) (from : Z) : option Z := next_runnable (states s) from.
Definition should_switch_on_tick (s : Scheduler) : bool := handed_over s && negb (switching s).
End scheduler.

Arguments Resume : clear implicits.
Arguments Slot : clear implicits.
Arguments Scheduler : clear implicits.
