(* ===== verification/Switching.v ===== *)
(** * Handing the CPU over

    Models the second half of [kernel/src/scheduler.rs]: the one scheduler,
    what the kernel keeps while processes run, and every way the CPU changes
    hands.  [switch] of [arch/x86_64/src/switch.rs] leaves a stack behind
    and goes on where another one was left. *)

From S2P Require Import Prelude Words PhysMem FrameAlloc Bytes Ipc FatFormat Memory HalPaging PageTables Stacks Process Scheduler.
Local Open Scope Z_scope.

Section switching.
  Context {H : Type}.

(** What the core is doing: serving [h] in the kernel for the current
    process, running it in ring 3, behind a [switch] just made, or in the
    kernel's own flow. *)
Inductive Control :=
| Serving (h : H)
| Ring3
| At (r : Resume H)
| InKernel.

Record Kernel := {
  scheduler : Scheduler H;
  KERNEL_RSP : Resume H;
  KERNEL_CR3 : Z;
  control : Control;
  cr3 : Z;
  interrupt_stack : Z;
  syscall_stack : Z
}.

Definition with_scheduler (k : Kernel) (s : Scheduler H) : Kernel :=
  {| scheduler := s; KERNEL_RSP := KERNEL_RSP k; KERNEL_CR3 := KERNEL_CR3 k; control := control k; cr3 := cr3 k;
     interrupt_stack := interrupt_stack k; syscall_stack := syscall_stack k |}.
Definition with_control (k : Kernel) (c : Control) : Kernel :=
  {| scheduler := scheduler k; KERNEL_RSP := KERNEL_RSP k; KERNEL_CR3 := KERNEL_CR3 k; control := c; cr3 := cr3 k;
     interrupt_stack := interrupt_stack k; syscall_stack := syscall_stack k |}.
Definition with_saved (k : Kernel) (rsp : Resume H) (root : Z) : Kernel :=
  {| scheduler := scheduler k; KERNEL_RSP := rsp; KERNEL_CR3 := root; control := control k; cr3 := cr3 k;
     interrupt_stack := interrupt_stack k; syscall_stack := syscall_stack k |}.
Definition with_cr3 (k : Kernel) (root : Z) : Kernel :=
  {| scheduler := scheduler k; KERNEL_RSP := KERNEL_RSP k; KERNEL_CR3 := KERNEL_CR3 k; control := control k; cr3 := root;
     interrupt_stack := interrupt_stack k; syscall_stack := syscall_stack k |}.

(** [switch(save_rsp_to, resume_rsp, cr3)] once the outgoing stack pointer
    has been written: on the other stack, in the other space. *)
Definition switch (k : Kernel) (resume : Resume H) (root : Z) : Kernel := with_control (with_cr3 k root) (At resume).

Definition prepare_cpu_for (k : Kernel) (i : Z) : Kernel :=
  match slot_at (scheduler k) i with
  | None => k
  | Some x =>
      {| scheduler := scheduler k; KERNEL_RSP := KERNEL_RSP k; KERNEL_CR3 := KERNEL_CR3 k; control := control k;
         cr3 := cr3 k; interrupt_stack := kernel_stack_top x; syscall_stack := kernel_stack_top x |}
  end.

(** [here] is where the process leaving goes on when it is resumed. *)
Definition switch_to (k : Kernel) (from to : Z) (here : Resume H) : may Kernel :=
  let k := with_scheduler k (with_current (with_switching (scheduler k) true) to) in
  x ← expect (slot_at (scheduler k) to);
  let k := prepare_cpu_for k to in
  leaving ← expect (slot_at (scheduler k) from);
  let k := with_scheduler k (set_slot (scheduler k) from (with_rsp leaving here)) in
  Ok (switch k (kernel_rsp x) (root (space (process x)))).

Definition leave_for_the_kernel (k : Kernel) (cur : Z) (here : Resume H) : Kernel :=
  match slot_at (scheduler k) cur with
  | Some x =>
      let k := with_scheduler k (set_slot (scheduler k) cur (with_rsp x here)) in
      switch k (KERNEL_RSP k) (KERNEL_CR3 k)
  | None => k
  end.

Definition switch_to_next (k : Kernel) (h : H) : may Kernel :=
  let s := scheduler k in
  if switching s then Ok k
  else
    match next_after s (current s) with
    | None => Ok (leave_for_the_kernel k (current s) (Left h))
    | Some next => if next =? current s then Ok k else switch_to k (current s) next (Returns h)
    end.

Definition end_current (k : Kernel) : may Kernel :=
  let cur := current (scheduler k) in
  let k := with_scheduler k (kill_current (scheduler k)) in
  match next_after (scheduler k) cur with
  | Some next => if next =? cur then Ok (leave_for_the_kernel k cur Ended) else switch_to k cur next Ended
  | None => Ok (leave_for_the_kernel k cur Ended)
  end.

Definition exit_current (k : Kernel) : may Kernel := end_current k.
Definition fault_current (k : Kernel) : may Kernel := end_current k.

Definition on_tick (k : Kernel) (h : H) : may Kernel :=
  if should_switch_on_tick (scheduler k) then switch_to_next k h else Ok k.

(** Answers whether it parked anybody. *)
Definition wait_for_message (k : Kernel) (h : H) : may (bool * Kernel) :=
  let cur := current (scheduler k) in
  match next_after (scheduler k) cur with
  | Some next =>
      if next =? cur then Ok (false, k)
      else
        let '(parked, s) := block (scheduler k) cur in
        if parked : bool then
          k ← switch_to (with_scheduler k s) cur next (Returns h);
          Ok (true, k)
        else Ok (false, k)
  | None => Ok (false, k)
  end.

(** [add]: the stack is laid out for [run_first]. *)
Definition add (s : Scheduler H) (p : Process) : option Z * Scheduler H :=
  add_slot s {| process := p; state := New; kernel_rsp := FirstRun; kernel_stack_top := top (kernel_stack p);
                mailbox := Ipc.new |}.

Definition run_first (k : Kernel) : may Kernel :=
  let s := with_switching (scheduler k) false in
  x ← expect (slot_at s (current s));
  let s := set_slot s (current s) (with_state x Runnable) in
  Ok (with_control (with_cr3 (with_scheduler k s) (root (space (process x)))) Ring3).

(** [run_until_empty], up to the [switch] that hands the CPU over. *)
Definition hand_over (k : Kernel) (kernel_cr3 : Z) : may Kernel :=
  match next_after (scheduler k) (MAX_PROCESSES - 1) with
  | None => Ok k
  | Some first =>
      let k := with_scheduler k (with_current (scheduler k) first) in
      x ← expect (slot_at (scheduler k) first);
      let k := with_saved k (KERNEL_RSP k) kernel_cr3 in
      let k := prepare_cpu_for k first in
      let k := with_scheduler k (with_handed_over (scheduler k) true) in
      let k := with_saved k InRunUntilEmpty (KERNEL_CR3 k) in
      Ok (switch k (kernel_rsp x) (root (space (process x))))
  end.

(** And from there on: whoever still waits is given up. *)
Definition abandon (s : Scheduler H) (i : Z) : Scheduler H :=
  if decide (state_at s i = Some Blocked) then kill s i else s.

Definition take_back (k : Kernel) : Kernel :=
  let s := with_handed_over (scheduler k) false in
  let s := foldl abandon s (seqZ 0 MAX_PROCESSES) in
  with_control (with_scheduler k s) InKernel.

(** What runs behind a [switch]. *)
Definition resumed (k : Kernel) (r : Resume H) : may Kernel :=
  match r with
  | Nowhere => Panic
  | FirstRun => run_first k
  | Returns h => Ok (with_control (with_scheduler k (with_switching (scheduler k) false)) (Serving h))
  | Left h => Ok (with_control k (Serving h))
  | Ended => Panic
  | InRunUntilEmpty => Ok (take_back k)
  end.

(** ** Who is running *)
Record Running := { r_slot : Z; r_ranges : list PhysRange; r_writable : list PhysRange }.

Definition running_owns (r : Running) (ptr n : Z) : bool := owned_by (r_ranges r) ptr n.
Definition owns_writable (r : Running) (ptr n : Z) : bool := owned_by (r_writable r) ptr n.

(** The slot of whoever has the CPU. *)
Definition running_slot {E} (s : Scheduler H) : res E (option (Slot H)) :=
  if negb (handed_over s) then Ok None
  else
    held ← expect (index (slots s) (current s));
    Ok match held with
       | Some x => if decide (state x = Dead) then None else Some x
       | None => None
       end.

Definition running {E} (s : Scheduler H) : res E (option Running) :=
  held ← running_slot s;
  Ok match held with
     | Some x => Some {| r_slot := current s; r_ranges := Proc.ranges (process x);
                         r_writable := Proc.writable_ranges (process x) |}
     | None => None
     end.

Definition with_running {E R} (s : Scheduler H) (operation : Process → R * Process) : res E (option R * Scheduler H) :=
  held ← running_slot s;
  Ok match held with
     | Some x =>
         let '(r, p) := operation (process x) in
         (Some r, set_slot s (current s) (with_process x p))
     | None => (None, s)
     end.

Definition dead_processes (s : Scheduler H) : list Process :=
  process <$> filter (λ x, state x = Dead) (omap id (slots s)).

Definition anyone_has_open (s : Scheduler H) (nm : list Z) : bool :=
  existsb (λ x, Proc.has_open (process x) nm) (omap id (slots s)).

(** ** Messages *)
Definition send_error (e : DeliverError) : SendError :=
  match e with DeliverBusy => Busy | other => Rejected other end.

Definition deliver (s : Scheduler H) (to from : Z) (message : list Z) : res SendError (Delivery * Scheduler H) :=
  x ← ok_or NoSuchProcess (slot_at s to);
  if decide (state x = Dead) then Err NoSuchProcess
  else
    '(delivery, m) ← map_err send_error (Ipc.deliver (mailbox x) from message);
    let s := set_slot s to (with_mailbox x m) in
    let '(_, s) := unblock s to in
    Ok (delivery, s).

(** Answers the delivery, what the buffer holds afterwards and the
    scheduler. *)
Definition take_message (s : Scheduler H) (into : list Z) : res TakeError (Delivery * list Z * Scheduler H) :=
  held ← expect (index (slots s) (current s));
  match held with
  | Some x =>
      '(delivery, into, m) ← Ipc.take_into (mailbox x) into;
      Ok (delivery, into, set_slot s (current s) (with_mailbox x m))
  | None => Err TakeNothing
  end.
End switching.

Arguments Control : clear implicits.
Arguments Kernel : clear implicits.
