(* ===== verification/SchedProofs.v ===== *)
(** * The scheduler's invariant

    [next_runnable_spec]: whose turn it is.  [kernel_ok]: what holds of the
    scheduler and the CPU between any two of its steps, and that every way
    the CPU changes hands keeps it. *)

From S2P Require Import Prelude Words PhysMem FrameAlloc Bytes Ipc FatFormat Memory HalPaging PageTables Stacks Process Scheduler Switching.
Local Open Scope Z_scope.

(** ** Whose turn it is *)
Lemma find_seqZ {A} (f : A → bool) (g : Z → A) (n : nat) : ∀ a,
  match find f (g <$> seqZ a (Z.of_nat n)) with
  | Some x => ∃ k, a ≤ k < a + Z.of_nat n ∧ x = g k ∧ f (g k) = true ∧ ∀ j, a ≤ j < k → f (g j) = false
  | None => ∀ j, a ≤ j < a + Z.of_nat n → f (g j) = false
  end.
Proof.
  induction n as [|n IH]; intros a; [intros j Hj; exfalso; lia|].
  rewrite seqZ_cons by lia. replace (Z.pred (Z.of_nat (S n))) with (Z.of_nat n) by lia. cbn [fmap list_fmap find].
  destruct (f (g a)) eqn:Ha.
  - exists a. split; [lia|]. split; [done|]. split; [done|]. intros; lia.
  - specialize (IH (Z.succ a)). destruct (find f _) as [x|].
    + destruct IH as (k & Hk & -> & Hf & Hj). exists k. split; [lia|]. split; [done|]. split; [done|]. intros j Hj'.
      destruct (decide (j = a)) as [->|]; [done|apply Hj; lia].
    + intros j Hj'. destruct (decide (j = a)) as [->|]; [done|apply IH; lia].
Qed.

Definition runs (states : list (option State)) (i : Z) : Prop := ∃ st, index states i = Some (Some st) ∧ can_run st = true.

(** How many turns pass before [i]'s, from [from] on. *)
Definition turns (n from i : Z) : Z := (i - from - 1) mod n.

Lemma turns_bound n from i : 0 < n → 0 ≤ turns n from i < n.
Proof. intros Hn. by apply Z.mod_pos_bound. Qed.

Lemma turns_step n from step : 0 < n → 1 ≤ step ≤ n → turns n from ((from + step) mod n) = step - 1.
Proof.
  intros Hn Hs. unfold turns. rewrite <-Z.sub_add_distr, Zminus_mod_idemp_l.
  replace (from + step - (from + 1)) with (step - 1) by lia. apply Z.mod_small. lia.
Qed.

Lemma turns_inv n from i : 0 < n → 0 ≤ i < n → (from + (turns n from i + 1)) mod n = i.
Proof.
  intros Hn Hi. unfold turns. rewrite Z.add_assoc, (Z.add_comm from), <-Z.add_assoc, Zplus_mod_idemp_l.
  replace (i - from - 1 + (from + 1)) with i by lia. by apply Z.mod_small.
Qed.

(** Everybody else comes before one's own turn again. *)
Lemma turns_last n from : 0 < n → 0 ≤ from < n → turns n from from = n - 1.
Proof.
  intros Hn Hf. pose proof (turns_step n from n Hn ltac:(lia)) as He.
  rewrite <-Z.add_mod_idemp_r, Z_mod_same_full, Z.add_0_r, Z.mod_small in He by lia. exact He.
Qed.

Lemma turns_eq n from i j : 0 < n → 0 ≤ i < n → 0 ≤ j < n → turns n from i = turns n from j → i = j.
Proof. intros Hn Hi Hj He. rewrite <-(turns_inv n from i), <-(turns_inv n from j) by done. by rewrite He. Qed.

(** After a turn of [k], who comes after him is as many turns nearer. *)
Lemma turns_less n from i k : 0 < n → 0 ≤ i < n → 0 ≤ k < n → k ≠ i → turns n from k ≤ turns n from i → turns n k i < turns n from i.
Proof.
  intros Hn Hi Hk Hne Hle. pose proof (turns_bound n from k Hn). pose proof (turns_bound n from i Hn).
  assert (turns n from k ≠ turns n from i) by (intros He; by apply Hne, (turns_eq n from)).
  assert (turns n k i = turns n from i - turns n from k - 1) as ->; [|lia].
  unfold turns in *. symmetry.
  apply (Z.mod_unique_pos _ _ ((i - from - 1) / n - (k - from - 1) / n)); [lia|].
  pose proof (Z.div_mod (i - from - 1) n ltac:(lia)). pose proof (Z.div_mod (k - from - 1) n ltac:(lia)). lia.
Qed.

Lemma index_bound {A} (l : list A) i a : index l i = Some a → 0 ≤ i < len l.
Proof.
  unfold index. destruct (Z.ltb_spec i 0); [done|]. intros Hl%lookup_lt_Some. unfold len. lia.
Qed.

Lemma next_runnable_spec states from :
  match next_runnable states from with
  | Some i => runs states i ∧ ∀ j, runs states j → turns (len states) from i ≤ turns (len states) from j
  | None => ∀ j, ¬ runs states j
  end.
Proof.
  unfold next_runnable. set (n := len states).
  pose proof (find_seqZ (λ i, match index states i with Some (Some s) => can_run s | _ => false end)
    (λ step, (from + step) mod n) (length states) 1) as Hf.
  change (Z.of_nat (length states)) with n in Hf.
  assert (∀ i, (match index states i with Some (Some s) => can_run s | _ => false end) = true ↔ runs states i) as Hruns.
  { intros i. unfold runs. destruct (index states i) as [[s|]|]; naive_solver. }
  destruct (find _ _) as [x|].
  - destruct Hf as (k & Hk & -> & Hx & Hlt). split; [by apply Hruns|]. intros j Hj.
    assert (0 ≤ j < n) as Hjn by (destruct Hj as (st & Hj & _); by apply index_bound in Hj).
    rewrite turns_step by lia. destruct (decide (k - 1 ≤ turns n from j)) as [?|Hc]; [done|exfalso].
    pose proof (turns_bound n from j) as Hb.
    specialize (Hlt (turns n from j + 1) ltac:(lia)). rewrite turns_inv in Hlt by lia. apply Hruns in Hj. congruence.
  - intros j Hj. assert (0 ≤ j < n) as Hjn by (destruct Hj as (st & Hj' & _); by apply index_bound in Hj').
    pose proof (turns_bound n from j). specialize (Hf (turns n from j + 1) ltac:(lia)). rewrite turns_inv in Hf by lia.
    apply Hruns in Hj. congruence.
Qed.

Section proofs.
  Context {H : Type} (hears : H → bool).
  Local Abbreviation Slot := (Slot H).
  Local Abbreviation Scheduler := (Scheduler H).
  Local Abbreviation Kernel := (Kernel H).

(** ** Slots *)
Lemma slot_at_index (s : Scheduler) i x : slot_at s i = Some x ↔ index (slots s) i = Some (Some x).
Proof. unfold slot_at. destruct (index (slots s) i) as [[y|]|]; cbn; naive_solver. Qed.

Lemma slot_at_bound (s : Scheduler) i x : slot_at s i = Some x → 0 ≤ i < len (slots s).
Proof. intros Hx%slot_at_index. by eapply index_bound. Qed.

Lemma slot_at_set (s : Scheduler) i j x y : slot_at s i = Some y →
  slot_at (set_slot s i x) j = if decide (i = j) then Some x else slot_at s j.
Proof.
  intros Hy. unfold set_slot. rewrite Hy. pose proof (slot_at_bound s i y Hy) as Hb. unfold slot_at, index in *. cbn [slots with_slots].
  destruct (Z.ltb_spec j 0).
  - rewrite decide_False by lia. done.
  - case_decide as Hd.
    + subst j. by rewrite list_lookup_insert_eq by (unfold len in Hb; lia).
    + rewrite list_lookup_insert_ne by lia. done.
Qed.

Lemma set_slot_len (s : Scheduler) i x : len (slots (set_slot s i x)) = len (slots s).
Proof. unfold set_slot. destruct (slot_at s i); [|done]. unfold len. cbn [slots with_slots]. by rewrite length_insert. Qed.

Lemma set_slot_twice (s : Scheduler) i x y z : slot_at s i = Some x → set_slot (set_slot s i y) i z = set_slot s i z.
Proof.
  intros Hx. pose proof (slot_at_set s i i y x Hx) as Hy. rewrite decide_True in Hy by done.
  unfold set_slot at 1. rewrite Hy. unfold set_slot. rewrite Hx. unfold with_slots. cbn [slots current switching handed_over].
  by rewrite list_insert_insert_eq.
Qed.

Lemma set_slot_rest (s : Scheduler) i x : current (set_slot s i x) = current s ∧ switching (set_slot s i x) = switching s ∧
  handed_over (set_slot s i x) = handed_over s.
Proof. unfold set_slot. by destruct (slot_at s i). Qed.

Lemma states_at (s : Scheduler) i st : index (states s) i = Some (Some st) ↔ ∃ x, slot_at s i = Some x ∧ state x = st.
Proof.
  unfold states, index, slot_at, index. destruct (i <? 0); [cbn; naive_solver|]. rewrite list_lookup_fmap.
  destruct (slots s !! Z.to_nat i) as [[x|]|]; cbn; naive_solver.
Qed.

Lemma next_after_spec (s : Scheduler) from :
  match next_after s from with
  | Some i => (∃ x, slot_at s i = Some x ∧ can_run (state x) = true) ∧
      ∀ j x, slot_at s j = Some x → can_run (state x) = true → turns (len (slots s)) from i ≤ turns (len (slots s)) from j
  | None => ∀ j x, slot_at s j = Some x → can_run (state x) = false
  end.
Proof.
  unfold next_after. pose proof (next_runnable_spec (states s) from) as Hn.
  assert (len (states s) = len (slots s)) as Hl by (unfold len, states; by rewrite length_fmap). rewrite Hl in Hn.
  assert (∀ i, runs (states s) i ↔ ∃ x, slot_at s i = Some x ∧ can_run (state x) = true) as Hr.
  { intros i. unfold runs. setoid_rewrite states_at. naive_solver. }
  destruct (next_runnable _ _) as [i|].
  - destruct Hn as [Hi Hmin]. split; [by apply Hr|]. intros j x Hx Hc. apply Hmin, Hr. by exists x.
  - intros j x Hx. destruct (can_run (state x)) eqn:Hc; [|done]. destruct (Hn j). apply Hr. by exists x.
Qed.

(** [to] is the first after [from] who can run; [from] itself comes last. *)
Definition first_of (s : Scheduler) (from to : Z) : Prop := ∀ j x, slot_at s j = Some x → can_run (state x) = true →
  turns MAX_PROCESSES from to ≤ turns MAX_PROCESSES from j.

Lemma first_of_next (s : Scheduler) from to : len (slots s) = MAX_PROCESSES → next_after s from = Some to → first_of s from to.
Proof.
  intros Hl Hn. pose proof (next_after_spec s from) as Hs. rewrite Hn, Hl in Hs. exact (proj2 Hs).
Qed.

Lemma first_of_self (s : Scheduler) from : 0 ≤ from < MAX_PROCESSES →
  (∀ j x, slot_at s j = Some x → can_run (state x) = true → j = from) → first_of s from from.
Proof. intros Hf Hs j x Hx Hc. by rewrite (Hs j x Hx Hc). Qed.

(** Whatever becomes of [from]'s own slot. *)
Lemma first_of_rest (s s' : Scheduler) from to : 0 ≤ from < MAX_PROCESSES →
  (∀ j, j ≠ from → slot_at s' j = slot_at s j) → first_of s' from to → first_of s from to.
Proof.
  intros Hf He Hfo j x Hx Hc. destruct (decide (j = from)) as [->|Hne].
  - rewrite (turns_last MAX_PROCESSES from) by done. pose proof (turns_bound MAX_PROCESSES from to ltac:(done)). lia.
  - apply (Hfo j x); [by rewrite He|done].
Qed.

(** ** The invariant *)
Record slot_ok (x : Slot) : Prop := {
  so_mail : Ipc.wf (mailbox x);
  so_dead : state x = Dead → files (process x) = Files.new;
  so_stack : kernel_stack_top x = top (kernel_stack (process x))
}.

(** A process that is not on the CPU: one that may be given it has
    somewhere to go on, one that was woken while it waited has its message,
    and one that waits has none. *)
Definition rested (x : Slot) : Prop :=
  match state x with
  | New => kernel_rsp x = FirstRun
  | Runnable => ∃ h, kernel_rsp x = Returns h ∧ (hears h = true → content (mailbox x) ≠ None)
  | Blocked => ∃ h, kernel_rsp x = Returns h ∧ hears h = true ∧ content (mailbox x) = None
  | Dead => True
  end.

Record table_ok (s : Scheduler) : Prop := {
  tb_len : len (slots s) = MAX_PROCESSES;
  tb_current : 0 ≤ current s < MAX_PROCESSES;
  tb_slots : ∀ i x, slot_at s i = Some x → slot_ok x
}.

Definition all_rest (s : Scheduler) (P : Z → Prop) : Prop := ∀ i x, P i → slot_at s i = Some x → rested x.

(** The CPU is where the process [x] in the current slot needs it. *)
Record on_cpu (k : Kernel) (x : Slot) : Prop := {
  oc_slot : slot_at (scheduler k) (current (scheduler k)) = Some x;
  oc_space : cr3 k = root (space (process x));
  oc_interrupt : interrupt_stack k = kernel_stack_top x;
  oc_syscall : syscall_stack k = kernel_stack_top x
}.

(** A process has the CPU, in ring 3 or behind a call of its own. *)
Record owns_cpu (kroot : Z) (k : Kernel) : Prop := {
  ow_table : table_ok (scheduler k);
  ow_handed : handed_over (scheduler k) = true;
  ow_switching : switching (scheduler k) = false;
  ow_saved : KERNEL_RSP k = InRunUntilEmpty ∧ KERNEL_CR3 k = kroot;
  ow_rest : all_rest (scheduler k) (λ i, i ≠ current (scheduler k));
  ow_cpu : ∃ x, on_cpu k x ∧ state x = Runnable
}.

(** A switch has just been made: into a process that may run, or back into
    [run_until_empty] with nobody who could. *)
Record switched (kroot : Z) (k : Kernel) (r : Resume H) : Prop := {
  sw_table : table_ok (scheduler k);
  sw_handed : handed_over (scheduler k) = true;
  sw_saved : KERNEL_RSP k = InRunUntilEmpty ∧ KERNEL_CR3 k = kroot;
  sw_rest : all_rest (scheduler k) (λ _, True);
  sw_to : match r with
          | InRunUntilEmpty => cr3 k = kroot ∧ switching (scheduler k) = false ∧
              ∀ i x, slot_at (scheduler k) i = Some x → can_run (state x) = false
          | _ => ∃ x, on_cpu k x ∧ can_run (state x) = true ∧ kernel_rsp x = r
          end
}.

(** The kernel has the CPU to itself. *)
Record kept (kroot : Z) (k : Kernel) : Prop := {
  ke_table : table_ok (scheduler k);
  ke_handed : handed_over (scheduler k) = false;
  ke_switching : switching (scheduler k) = false;
  ke_rest : all_rest (scheduler k) (λ _, True);
  ke_blocked : ∀ i x, slot_at (scheduler k) i = Some x → state x ≠ Blocked;
  ke_space : cr3 k = kroot
}.

Definition kernel_ok (kroot : Z) (k : Kernel) : Prop :=
  match control k with
  | Serving _ | Ring3 => owns_cpu kroot k
  | At r => switched kroot k r
  | InKernel => kept kroot k
  end.

(** ** Changing a slot *)
Lemma table_ok_set (s : Scheduler) i x y : table_ok s → slot_at s i = Some y → slot_ok x → table_ok (set_slot s i x).
Proof.
  intros [Hl Hc Hs] Hy Hx. destruct (set_slot_rest s i x) as (Hcur & _ & _). split.
  - by rewrite set_slot_len.
  - by rewrite Hcur.
  - intros j z. rewrite (slot_at_set s i j x y Hy). case_decide; [by intros [= <-]|by apply Hs].
Qed.

Lemma table_ok_ext (s s' : Scheduler) : table_ok s → slots s' = slots s → 0 ≤ current s' < MAX_PROCESSES → table_ok s'.
Proof. intros [Hl Hc Hs] He Hcur. split; [by rewrite He|done|]. intros i x. unfold slot_at. rewrite He. apply Hs. Qed.

Lemma all_rest_set (s : Scheduler) (P : Z → Prop) i x y : slot_at s i = Some y → all_rest s (λ j, P j ∧ j ≠ i) →
  (P i → rested x) → all_rest (set_slot s i x) P.
Proof.
  intros Hy Hr Hx j z HP. rewrite (slot_at_set s i j x y Hy). case_decide as Hd; [subst j; intros [= <-]; auto|].
  intros Hz. by apply (Hr j z).
Qed.

(** The one who leaves and the one who comes. *)
Lemma switch_to_spec kroot (k : Kernel) from to here x y :
  table_ok (scheduler k) → handed_over (scheduler k) = true → KERNEL_RSP k = InRunUntilEmpty ∧ KERNEL_CR3 k = kroot →
  all_rest (scheduler k) (λ i, i ≠ from) →
  slot_at (scheduler k) from = Some y → slot_at (scheduler k) to = Some x → to ≠ from → can_run (state x) = true →
  (state y = Dead ∨ rested (with_rsp y here)) →
  ∃ k', switch_to k from to here = Ok k' ∧ control k' = At (kernel_rsp x) ∧ switched kroot k' (kernel_rsp x) ∧
    scheduler k' = set_slot (with_current (with_switching (scheduler k) true) to) from (with_rsp y here).
Proof.
  intros Ht Hh Hsv Hr Hy Hx Hne Hc Hy'. pose proof (Hr to x Hne Hx) as Hxr.
  pose proof (slot_at_bound _ _ _ Hx) as Hto. rewrite (tb_len _ Ht) in Hto.
  set (s0 := with_current (with_switching (scheduler k) true) to).
  assert (slot_at s0 to = Some x) as Hx0 by done. assert (slot_at s0 from = Some y) as Hy0 by done.
  assert (table_ok s0) as Ht0 by by apply (table_ok_ext (scheduler k)).
  unfold switch_to. cbn [scheduler with_scheduler]. fold s0. rewrite Hx0. cbn [expect mbind res_bind].
  unfold prepare_cpu_for. cbn [scheduler with_scheduler]. rewrite Hx0. cbn [scheduler]. rewrite Hy0.
  eexists. split; [reflexivity|]. cbn [control switch with_control with_cr3 scheduler with_scheduler]. split; [done|].
  split; [|done]. destruct (set_slot_rest s0 from (with_rsp y here)) as (Hcur & Hsw & Hho).
  assert (table_ok (set_slot s0 from (with_rsp y here))) as Ht1.
  { apply (table_ok_set _ _ _ y); [done..|]. by destruct (tb_slots _ Ht from y Hy). }
  split; cbn [scheduler KERNEL_RSP KERNEL_CR3 switch with_control with_cr3 with_scheduler]; [done|by rewrite Hho|done| |].
  - apply (all_rest_set _ _ _ _ y Hy0).
    + intros j z [_ Hj] Hz. by apply (Hr j z).
    + intros _. destruct Hy' as [Hd|Hy']; [|done]. unfold rested. cbn [state with_rsp]. by rewrite Hd.
  - assert (slot_at (set_slot s0 from (with_rsp y here)) to = Some x) as Hx1.
    { rewrite (slot_at_set s0 from to _ y Hy0), decide_False by done. done. }
    unfold rested in Hxr. destruct (state x) eqn:Hst; [| |done..].
    + rewrite Hxr. exists x. split; [|by rewrite Hst, Hxr]. split; cbn; [|done..]. by rewrite Hcur.
    + destruct Hxr as (h & Hk & _). rewrite Hk. exists x. split; [|by rewrite Hst, Hk]. split; cbn; [|done..]. by rewrite Hcur.
Qed.

(** Nobody is left who could run. *)
Lemma leave_spec kroot (k : Kernel) cur here y :
  table_ok (scheduler k) → handed_over (scheduler k) = true → switching (scheduler k) = false →
  KERNEL_RSP k = InRunUntilEmpty ∧ KERNEL_CR3 k = kroot →
  all_rest (scheduler k) (λ i, i ≠ cur) → slot_at (scheduler k) cur = Some y → state y = Dead →
  (∀ i x, slot_at (scheduler k) i = Some x → can_run (state x) = false) →
  control (leave_for_the_kernel k cur here) = At InRunUntilEmpty ∧
  switched kroot (leave_for_the_kernel k cur here) InRunUntilEmpty ∧
  scheduler (leave_for_the_kernel k cur here) = set_slot (scheduler k) cur (with_rsp y here).
Proof.
  intros Ht Hh Hs [Hk1 Hk2] Hr Hy Hd Hn. unfold leave_for_the_kernel. rewrite Hy. cbn [control switch with_control].
  destruct (set_slot_rest (scheduler k) cur (with_rsp y here)) as (Hcur & Hsw & Hho).
  cbn [KERNEL_RSP KERNEL_CR3 with_scheduler]. rewrite Hk1.
  split; [done|]. split; [|done].
  split; cbn [scheduler KERNEL_RSP KERNEL_CR3 switch with_control with_cr3 with_scheduler cr3].
  - apply (table_ok_set _ _ _ y); [done..|]. by destruct (tb_slots _ Ht cur y Hy).
  - by rewrite Hho.
  - done.
  - apply (all_rest_set _ _ _ _ y Hy); [intros j z [_ Hj]; by apply Hr|]. intros _. unfold rested. cbn [state with_rsp]. by rewrite Hd.
  - split; [done|]. split; [by rewrite Hsw|]. intros i x. rewrite (slot_at_set _ _ _ _ y Hy). case_decide; [|apply Hn].
    intros [= <-]. cbn [state with_rsp]. by rewrite Hd.
Qed.

(** ** Each way the CPU changes hands *)
Lemma can_run_not_dead st : can_run st = true → st ≠ Dead.
Proof. by destruct st. Qed.

(** The turn goes round: the process leaving may be given it again. *)
Lemma switch_to_next_spec kroot (k : Kernel) h : owns_cpu kroot k → hears h = false →
  ∃ k', switch_to_next k h = Ok k' ∧ first_of (scheduler k) (current (scheduler k)) (current (scheduler k')) ∧
  ((next_after (scheduler k) (current (scheduler k)) = Some (current (scheduler k)) ∧ k' = k) ∨
   ∃ next x y, next_after (scheduler k) (current (scheduler k)) = Some next ∧ next ≠ current (scheduler k) ∧
     slot_at (scheduler k) next = Some x ∧ slot_at (scheduler k) (current (scheduler k)) = Some y ∧
     control k' = At (kernel_rsp x) ∧ switched kroot k' (kernel_rsp x) ∧
     scheduler k' = set_slot (with_current (with_switching (scheduler k) true) next) (current (scheduler k)) (with_rsp y (Returns h))).
Proof.
  intros [Ht Hh Hs Hsv Hr (y & [Hy Hsp Hi Hsy] & Hst)] Hhe. unfold switch_to_next. rewrite Hs.
  pose proof (next_after_spec (scheduler k) (current (scheduler k))) as Hn.
  pose proof (first_of_next (scheduler k) (current (scheduler k))) as Hfirst.
  destruct (next_after (scheduler k) (current (scheduler k))) as [next|].
  - specialize (Hfirst next (tb_len _ Ht) eq_refl).
    destruct Hn as [(x & Hx & Hc) _]. destruct (Z.eqb_spec next (current (scheduler k))) as [->|Hne].
    + exists k. split; [done|]. split; [exact Hfirst|by left].
    + destruct (switch_to_spec kroot k (current (scheduler k)) next (Returns h) x y) as (k' & Hk' & Hctl & Hsw & Hsch); try done.
      * right. unfold rested. cbn [state with_rsp kernel_rsp]. rewrite Hst. exists h. split; [done|]. by rewrite Hhe.
      * exists k'. split; [done|]. split; [|right; exists next, x, y; done]. rewrite Hsch.
        destruct (set_slot_rest (with_current (with_switching (scheduler k) true) next) (current (scheduler k)) (with_rsp y (Returns h))) as (-> & _).
        exact Hfirst.
  - specialize (Hn _ y Hy). by rewrite Hst in Hn.
Qed.

(** The process ends: its slot is dead, its files are closed, and the CPU
    goes to another or back to the kernel. *)
Definition ended (y : Slot) : Slot := with_process (with_state y Dead) (Proc.close_everything (process y)).

Lemma ended_ok y : slot_ok y → slot_ok (ended y).
Proof. intros [Hm Hd Hs]. by split. Qed.

Lemma kill_spec (s : Scheduler) i y : slot_at s i = Some y → kill s i = set_slot s i (ended y).
Proof. intros Hy. unfold kill. by rewrite Hy. Qed.

Lemma end_current_spec kroot (k : Kernel) : owns_cpu kroot k →
  ∃ k' r y, end_current k = Ok k' ∧ control k' = At r ∧ switched kroot k' r ∧
    first_of (scheduler k) (current (scheduler k)) (current (scheduler k')) ∧
    slot_at (scheduler k) (current (scheduler k)) = Some y ∧
    ∀ j, slot_at (scheduler k') j =
      if decide (current (scheduler k) = j) then Some (with_rsp (ended y) Ended) else slot_at (scheduler k) j.
Proof.
  intros [Ht Hh Hs Hsv Hr (y & [Hy Hsp Hi Hsy] & Hst)]. unfold end_current, kill_current. rewrite (kill_spec _ _ y Hy).
  set (cur := current (scheduler k)) in *. set (s := set_slot (scheduler k) cur (ended y)).
  set (k1 := with_scheduler k s). change (scheduler k1) with s.
  destruct (set_slot_rest (scheduler k) cur (ended y)) as (Hcur & Hsw & Hho).
  assert (table_ok s) as Ht1 by (apply (table_ok_set _ _ _ y); [done..|]; by apply ended_ok, (tb_slots _ Ht cur)).
  assert (slot_at s cur = Some (ended y)) as Hy1 by (unfold s; by rewrite (slot_at_set _ _ _ _ y Hy), decide_True).
  assert (all_rest s (λ i, i ≠ cur)) as Hr1.
  { apply (all_rest_set _ _ _ _ y Hy); [|done]. intros j z [_ Hj]. by apply Hr. }
  assert (∀ j, slot_at (set_slot s cur (with_rsp (ended y) Ended)) j =
    if decide (cur = j) then Some (with_rsp (ended y) Ended) else slot_at (scheduler k) j) as Hfin.
  { intros j. rewrite (slot_at_set _ _ _ _ _ Hy1). case_decide; [done|]. unfold s.
    by rewrite (slot_at_set _ _ _ _ y Hy), decide_False. }
  assert (∀ j, j ≠ cur → slot_at s j = slot_at (scheduler k) j) as Hother
    by (intros j Hj; unfold s; by rewrite (slot_at_set _ _ _ _ y Hy), decide_False).
  pose proof (next_after_spec s cur) as Hn.
  assert ((∀ i x, slot_at s i = Some x → can_run (state x) = false) → ∃ k' r y0, (Ok (leave_for_the_kernel k1 cur Ended) : may Kernel) = Ok k' ∧
    control k' = At r ∧ switched kroot k' r ∧ first_of (scheduler k) cur (current (scheduler k')) ∧ slot_at (scheduler k) cur = Some y0 ∧
    ∀ j, slot_at (scheduler k') j = if decide (cur = j) then Some (with_rsp (ended y0) Ended) else slot_at (scheduler k) j) as Hleave.
  { intros Hnone. destruct (leave_spec kroot k1 cur Ended (ended y)) as (Hc & Hs' & Hsch); try done.
    - change (handed_over s = true). unfold s. by rewrite Hho.
    - change (switching s = false). unfold s. by rewrite Hsw.
    - eexists _, InRunUntilEmpty, y. split; [done|]. split; [done|]. split; [done|]. split; [|split; [done|by rewrite Hsch]].
      rewrite Hsch. destruct (set_slot_rest (scheduler k1) cur (with_rsp (ended y) Ended)) as (-> & _).
      change (current (scheduler k1)) with (current s). replace (current s) with cur by (symmetry; exact Hcur). apply (first_of_rest _ s); [apply Ht|exact Hother|].
      apply first_of_self; [apply Ht|]. intros j z Hz Hcz. by rewrite (Hnone j z Hz) in Hcz. }
  pose proof (first_of_next s cur) as Hfirst.
  destruct (next_after s cur) as [next|]; [|by apply Hleave].
  specialize (Hfirst next (tb_len _ Ht1) eq_refl).
  destruct Hn as [(x & Hx & Hc) _]. destruct (Z.eqb_spec next cur) as [->|Hne].
  { rewrite Hy1 in Hx. by simplify_eq. }
  destruct (switch_to_spec kroot k1 cur next Ended x (ended y)) as (k' & Hk' & Hctl & Hsw' & Hsch); try done.
  - change (handed_over s = true). unfold s. by rewrite Hho.
  - by left.
  - exists k', (kernel_rsp x), y. split; [done|]. split; [done|]. split; [done|]. split; [|split; [done|]].
    { rewrite Hsch. destruct (set_slot_rest (with_current (with_switching (scheduler k1) true) next) cur (with_rsp (ended y) Ended)) as (-> & _).
      apply (first_of_rest _ s); [apply Ht|exact Hother|exact Hfirst]. }
    intros j. rewrite Hsch, <-Hfin, !(slot_at_set _ _ _ _ (ended y)) by done. done.
Qed.

Lemma rested_ext (x y : Slot) : state x = state y → kernel_rsp x = kernel_rsp y → mailbox x = mailbox y → rested x → rested y.
Proof. intros Hs Hk Hm. unfold rested. by rewrite Hs, Hk, Hm. Qed.

(** Waiting for a message, with none there: parked, or told that nobody is
    left to send one. *)
Lemma wait_spec kroot (k : Kernel) h y : owns_cpu kroot k → hears h = true →
  slot_at (scheduler k) (current (scheduler k)) = Some y → content (mailbox y) = None →
  ∃ parked k', wait_for_message k h = Ok (parked, k') ∧
    match parked with
    | true => ∃ next x, next_after (scheduler k) (current (scheduler k)) = Some next ∧ next ≠ current (scheduler k) ∧
        slot_at (scheduler k) next = Some x ∧ control k' = At (kernel_rsp x) ∧ switched kroot k' (kernel_rsp x) ∧
        current (scheduler k') = next ∧
        ∀ j, slot_at (scheduler k') j =
          if decide (current (scheduler k) = j) then Some (with_rsp (with_state y Blocked) (Returns h))
          else slot_at (scheduler k) j
    | false => k' = k ∧ ∀ j x, slot_at (scheduler k) j = Some x → can_run (state x) = true → j = current (scheduler k)
    end.
Proof.
  intros [Ht Hh Hs Hsv Hr (y' & [Hy' Hsp Hi Hsy] & Hst)] Hhe Hy Hm. assert (y' = y) as -> by congruence. clear Hy'.
  unfold wait_for_message. set (cur := current (scheduler k)) in *.
  pose proof (next_after_spec (scheduler k) cur) as Hn. destruct (next_after (scheduler k) cur) as [next|].
  2: { specialize (Hn _ y Hy). by rewrite Hst in Hn. }
  destruct Hn as [(x & Hx & Hc) Hmin]. destruct (Z.eqb_spec next cur) as [->|Hne].
  - exists false, k. split; [done|]. split; [done|]. intros j z Hz Hcz.
    pose proof (slot_at_bound _ _ _ Hz) as Hj. pose proof (slot_at_bound _ _ _ Hy) as Hcur.
    pose proof (Hmin j z Hz Hcz) as Hle. pose proof (turns_bound (len (slots (scheduler k))) cur j) as Hb.
    pose proof (turns_last (len (slots (scheduler k))) cur ltac:(lia) Hcur).
    apply (turns_eq (len (slots (scheduler k))) cur); lia.
  - unfold block, move_to. rewrite Hy, Hst. cbn [waiting can_run]. set (s := set_slot (scheduler k) cur (with_state y Blocked)).
    destruct (set_slot_rest (scheduler k) cur (with_state y Blocked)) as (Hcur & Hsw & Hho).
    assert (slot_at s cur = Some (with_state y Blocked)) as Hy1 by (unfold s; by rewrite (slot_at_set _ _ _ _ y Hy), decide_True).
    destruct (switch_to_spec kroot (with_scheduler k s) cur next (Returns h) x (with_state y Blocked))
      as (k' & Hk' & Hctl & Hsw' & Hsch); cbn [scheduler with_scheduler KERNEL_RSP KERNEL_CR3]; try done.
    + apply (table_ok_set _ _ _ y); [done..|]. by destruct (tb_slots _ Ht cur y Hy).
    + by unfold s; rewrite Hho.
    + apply (all_rest_set _ _ _ _ y Hy); [|done]. intros j z [_ Hj]. by apply Hr.
    + unfold s. by rewrite (slot_at_set _ _ _ _ y Hy), decide_False.
    + right. unfold rested. cbn [state with_rsp with_state kernel_rsp mailbox]. by exists h.
    + exists true, k'. rewrite Hk'. split; [done|]. exists next, x. do 5 (split; [done|]). rewrite Hsch.
      split; [destruct (set_slot_rest (with_current (with_switching s true) next) cur (with_rsp (with_state y Blocked) (Returns h))) as (Hc1 & _); exact Hc1|].
      intros j. rewrite (slot_at_set _ _ _ _ (with_state y Blocked)) by done. case_decide; [done|].
      change (slot_at s j = slot_at (scheduler k) j). unfold s. by rewrite (slot_at_set _ _ _ _ y Hy), decide_False.
Qed.

(** ** What a call does to the slots *)
Lemma owns_cpu_set kroot (k : Kernel) i x x' : owns_cpu kroot k → slot_at (scheduler k) i = Some x → slot_ok x' →
  root (space (process x')) = root (space (process x)) → kernel_stack_top x' = kernel_stack_top x →
  (i = current (scheduler k) → state x' = Runnable) → (i ≠ current (scheduler k) → rested x') →
  owns_cpu kroot (with_scheduler k (set_slot (scheduler k) i x')).
Proof.
  intros [Ht Hh Hs Hsv Hr (y & [Hy Hsp Hi Hsy] & Hst)] Hx Hok Hro Hks Hcur Hrest.
  destruct (set_slot_rest (scheduler k) i x') as (Hc & Hsw & Hho).
  split; cbn [scheduler with_scheduler KERNEL_RSP KERNEL_CR3]; [by apply (table_ok_set _ _ _ x)|by rewrite Hho|by rewrite Hsw|done| |].
  - rewrite Hc. apply (all_rest_set _ _ _ _ x Hx); [|done]. intros j z [Hj _]. by apply Hr.
  - destruct (decide (i = current (scheduler k))) as [He|He].
    + exists x'. split; [|by apply Hcur]. assert (x = y) as -> by congruence.
      split; cbn [scheduler with_scheduler cr3 interrupt_stack syscall_stack]; [|congruence..].
      by rewrite Hc, (slot_at_set _ _ _ _ y Hx), decide_True.
    + exists y. split; [|done]. split; cbn [scheduler with_scheduler cr3 interrupt_stack syscall_stack]; [|done..].
      by rewrite Hc, (slot_at_set _ _ _ _ x Hx), decide_False.
Qed.

(** A slot a message has been put in. *)
Definition posted (x : Slot) (m : Mailbox) : Slot :=
  with_state (with_mailbox x m) (if decide (state x = Blocked) then Runnable else state x).

Lemma slot_deliver_spec (s : Scheduler) to frm msg : table_ok s →
  match deliver s to frm msg with
  | Ok (d, s') => ∃ x m, slot_at s to = Some x ∧ state x ≠ Dead ∧ content (mailbox x) = None ∧
      0 < len msg ≤ CAPACITY ∧ d = {| from := frm; dlen := len msg |} ∧ content m = Some (frm, msg) ∧ Ipc.wf m ∧
      s' = set_slot s to (posted x m)
  | Err NoSuchProcess => ∀ x, slot_at s to = Some x → state x = Dead
  | Err Busy => 0 < len msg ≤ CAPACITY ∧ ∃ x, slot_at s to = Some x ∧ state x ≠ Dead ∧ content (mailbox x) ≠ None
  | Err (Rejected _) => msg = [] ∨ CAPACITY < len msg
  | Panic | Diverge => False
  end.
Proof.
  intros Ht. unfold deliver. destruct (slot_at s to) as [x|] eqn:Hx; cbn [ok_or mbind res_bind]; [|done].
  case_decide as Hd; [by intros ? [= <-]|].
  pose proof (Ipc.deliver_spec (mailbox x) frm msg (so_mail _ (tb_slots _ Ht to x Hx))) as Hm.
  destruct (Ipc.deliver (mailbox x) frm msg) as [[d m]|e| |]; cbn [map_err mbind res_bind send_error]; [| |done..].
  2: { destruct e; [|by right; destruct Hm|by left]. destruct Hm as [Hl Hc]. split; [done|]. by exists x. }
  destruct Hm as (-> & Hl & Hc & Hc' & Hw).
  assert (slot_at (set_slot s to (with_mailbox x m)) to = Some (with_mailbox x m)) as Hx1
    by by rewrite (slot_at_set _ _ _ _ x Hx), decide_True.
  assert (∀ st, state x = st → unblock (set_slot s to (with_mailbox x m)) to =
    (bool_decide (st = Blocked), set_slot s to (posted x m))) as Hu.
  { intros st Hst. unfold unblock, move_to. rewrite Hx1. unfold woken, posted. cbn [state with_mailbox]. rewrite Hst.
    case_decide as Hb; [rewrite bool_decide_eq_true_2 by done|rewrite bool_decide_eq_false_2 by done]; f_equal.
    - apply (set_slot_twice _ _ x). done.
    - f_equal. unfold with_mailbox, with_state. cbn. by rewrite <-Hst. }
  rewrite (Hu (state x) eq_refl). exists x, m. done.
Qed.

Lemma posted_ok x m : slot_ok x → state x ≠ Dead → Ipc.wf m → slot_ok (posted x m).
Proof.
  intros [Hm Hd Hs] Hnd Hw. split; cbn; [done| |done]. case_decide; [done|]. intros Hx. by destruct Hnd.
Qed.

Lemma posted_rested x m : rested x → content m ≠ None → rested (posted x m).
Proof.
  unfold rested, posted. cbn [state with_state with_mailbox kernel_rsp mailbox]. destruct (state x) eqn:Hst; cbn.
  - done.
  - intros (h & ? & _) Hm. by exists h.
  - intros (h & ? & _) Hm. by exists h.
  - done.
Qed.

(** Sending keeps the invariant, whoever it is sent to. *)
Lemma deliver_keeps kroot (k : Kernel) to frm msg d s' : owns_cpu kroot k →
  deliver (scheduler k) to frm msg = Ok (d, s') → owns_cpu kroot (with_scheduler k s').
Proof.
  intros Hk He. pose proof (slot_deliver_spec (scheduler k) to frm msg (ow_table _ _ Hk)) as Hd. rewrite He in Hd.
  destruct Hd as (x & m & Hx & Hnd & _ & _ & _ & Hc & Hw & ->). pose proof (ow_table _ _ Hk) as Ht.
  apply (owns_cpu_set _ _ _ x); try done.
  - by apply posted_ok, Hw; [apply (tb_slots _ Ht to)|].
  - intros ->. destruct (ow_cpu _ _ Hk) as (y & Hy & Hst). rewrite (oc_slot _ _ Hy) in Hx. simplify_eq. cbn. by rewrite Hst.
  - intros Hne. apply posted_rested; [by apply (ow_rest _ _ Hk to)|by rewrite Hc].
Qed.

Lemma take_message_spec (s : Scheduler) into x : table_ok s → slot_at s (current s) = Some x →
  match take_message s into with
  | Ok (d, into', s') => ∃ m msg, content (mailbox x) = Some (from d, msg) ∧ dlen d = len msg ∧ len msg ≤ len into ∧
      into' = msg ++ drop (length msg) into ∧ content m = None ∧ Ipc.wf m ∧ s' = set_slot s (current s) (with_mailbox x m)
  | Err TakeNothing => content (mailbox x) = None
  | Err (TakeTooLong n) => ∃ frm msg, content (mailbox x) = Some (frm, msg) ∧ n = len msg ∧ len into < n
  | Panic | Diverge => False
  end.
Proof.
  intros Ht Hx. unfold take_message. rewrite (proj1 (slot_at_index s (current s) x) Hx). cbn [expect mbind res_bind].
  pose proof (Ipc.take_spec (mailbox x) into (so_mail _ (tb_slots _ Ht _ x Hx))) as Hm.
  destruct (take_into (mailbox x) into) as [[[d into'] m]|e| |]; cbn [mbind res_bind]; [|done..].
  destruct Hm as (msg & ? & ? & ? & ? & ? & ?). by exists m, msg.
Qed.

Lemma take_keeps kroot (k : Kernel) into d into' s' : owns_cpu kroot k →
  take_message (scheduler k) into = Ok (d, into', s') → owns_cpu kroot (with_scheduler k s').
Proof.
  intros Hk He. destruct (ow_cpu _ _ Hk) as (x & Hx & Hst).
  pose proof (take_message_spec (scheduler k) into x (ow_table _ _ Hk) (oc_slot _ _ Hx)) as Hm. rewrite He in Hm.
  destruct Hm as (m & msg & _ & _ & _ & _ & _ & Hw & ->).
  apply (owns_cpu_set _ _ _ x); [done|by apply (oc_slot _ _ Hx)| |done..].
  destruct (tb_slots _ (ow_table _ _ Hk) _ x (oc_slot _ _ Hx)). by split.
Qed.

(** Who is running. *)
Lemma running_slot_spec {E} kroot (k : Kernel) x : owns_cpu kroot k → slot_at (scheduler k) (current (scheduler k)) = Some x →
  running_slot (E:=E) (scheduler k) = Ok (Some x) ∧ state x = Runnable.
Proof.
  intros Hk Hx. destruct (ow_cpu _ _ Hk) as (y & Hy & Hst). assert (y = x) as -> by (pose proof (oc_slot _ _ Hy); congruence).
  split; [|done]. unfold running_slot. rewrite (ow_handed _ _ Hk). cbn [negb].
  rewrite (proj1 (slot_at_index (scheduler k) _ x) Hx). cbn [expect mbind res_bind]. by rewrite decide_False by congruence.
Qed.

(** An operation on the process that touches its files alone. *)
Lemma with_running_spec {E R} kroot (k : Kernel) (op : Process → R * Process) x : owns_cpu kroot k →
  slot_at (scheduler k) (current (scheduler k)) = Some x →
  (∀ p, ∃ t, (op p).2 = with_files p t) →
  ∃ s', with_running (E:=E) (scheduler k) op = Ok (Some (op (process x)).1, s') ∧
    s' = set_slot (scheduler k) (current (scheduler k)) (with_process x (op (process x)).2) ∧ owns_cpu kroot (with_scheduler k s').
Proof.
  intros Hk Hx Hop. destruct (running_slot_spec (E:=E) kroot k x Hk Hx) as [Hr Hst]. unfold with_running. rewrite Hr.
  cbn [mbind res_bind]. destruct (op (process x)) as [r p] eqn:He. eexists. split; [done|]. split; [done|].
  destruct (Hop (process x)) as [t Hf]. rewrite He in Hf. cbn [snd] in Hf |- *. subst p.
  apply (owns_cpu_set _ _ _ x); try done. destruct (tb_slots _ (ow_table _ _ Hk) _ x Hx) as [Hm Hd Hs].
  split; cbn; [done| |done]. congruence.
Qed.

(** ** Behind a switch *)
Lemma abandon_at l (s : Scheduler) j :
  slot_at (foldl abandon s l) j =
  (λ x, if decide (state x = Blocked ∧ j ∈ l) then ended x else x) <$> slot_at s j.
Proof.
  revert s. induction l as [|i l IH]; intros s; cbn [foldl].
  - destruct (slot_at s j); cbn; [|done]. rewrite decide_False; [done|]. intros [_ ?%not_elem_of_nil]. done.
  - rewrite IH. clear IH. unfold abandon, state_at. destruct (slot_at s i) as [y|] eqn:Hy; cbn [fmap option_fmap option_map].
    2: { rewrite decide_False by done. destruct (slot_at s j) as [x|] eqn:Hx; cbn; [|done].
         assert (j ≠ i) by congruence. f_equal. apply decide_ext. set_solver. }
    destruct (decide (Some (state y) = Some Blocked)) as [Hb|Hb].
    + rewrite (kill_spec _ _ _ Hy), (slot_at_set _ _ _ _ y Hy). destruct (decide (i = j)) as [->|Hne].
      * rewrite Hy. cbn. rewrite decide_False by (intros [? _]; done). rewrite decide_True; [done|]. split; [congruence|set_solver].
      * destruct (slot_at s j) as [x|]; cbn; [|done]. f_equal. apply decide_ext. set_solver.
    + destruct (slot_at s j) as [x|] eqn:Hx; cbn; [|done]. f_equal. apply decide_ext.
      split; [set_solver|]. intros [Hs [->|Hj]%elem_of_cons]; [congruence|done].
Qed.

Lemma foldl_abandon_rest l (s : Scheduler) : current (foldl abandon s l) = current s ∧ switching (foldl abandon s l) = switching s ∧
  handed_over (foldl abandon s l) = handed_over s ∧ len (slots (foldl abandon s l)) = len (slots s).
Proof.
  revert s. induction l as [|i l IH]; intros s; cbn [foldl]; [done|]. destruct (IH (abandon s i)) as (-> & -> & -> & ->).
  unfold abandon. case_decide; [|done]. destruct (slot_at s i) as [y|] eqn:Hy; [|unfold kill; by rewrite Hy].
  rewrite (kill_spec _ _ _ Hy), set_slot_len. by destruct (set_slot_rest s i (ended y)) as (-> & -> & ->).
Qed.

Lemma abandon_all kroot (k : Kernel) l : switched kroot k InRunUntilEmpty → (∀ i, 0 ≤ i < MAX_PROCESSES → i ∈ l) →
  let k' := with_control (with_scheduler k (foldl abandon (with_handed_over (scheduler k) false) l)) InKernel in
  kept kroot k' ∧ ∀ i x, slot_at (scheduler k') i = Some x → state x = Dead.
Proof.
  intros [Ht Hh Hsv Hr (Hc & Hs & Hn)] Hl. cbn zeta.
  pose proof (foldl_abandon_rest l (with_handed_over (scheduler k) false)) as Hrest.
  pose proof (abandon_at l (with_handed_over (scheduler k) false)) as Hgive.
  revert Hrest Hgive. generalize (foldl abandon (with_handed_over (scheduler k) false) l). intros s (Hcur & Hsw & Hho & Hlen) Hgive.
  assert (∀ i x, slot_at s i = Some x → ∃ y, slot_at (scheduler k) i = Some y ∧ state x = Dead ∧ (x = y ∨ x = ended y)) as Hat.
  { intros i x. rewrite Hgive. change (slot_at (with_handed_over (scheduler k) false) i) with (slot_at (scheduler k) i).
    destruct (slot_at (scheduler k) i) as [y|] eqn:Hy; [|done]. cbn. intros [= <-]. exists y. split; [done|].
    case_decide as Hd; [by split; [|right]|]. split; [|by left]. pose proof (Hn i y Hy) as Hcy.
    pose proof (slot_at_bound _ _ _ Hy) as Hb. rewrite (tb_len _ Ht) in Hb.
    destruct (state y) eqn:Hst; [done|done| |done]. destruct Hd. split; [done|]. by apply Hl. }
  split; [|by intros i x (y & _ & Hd & _)%Hat].
  split; cbn [scheduler with_control with_scheduler cr3]; [|by rewrite Hho|by rewrite Hsw| | |done].
  - split; [rewrite Hlen; exact (tb_len _ Ht)|rewrite Hcur; exact (tb_current _ Ht)|].
    intros i x (y & Hy & _ & [->| ->])%Hat; [by apply (tb_slots _ Ht i)|by apply ended_ok, (tb_slots _ Ht i)].
  - intros i x _ (y & Hy & Hd & _)%Hat. unfold rested. by rewrite Hd.
  - intros i x (y & Hy & Hd & _)%Hat. congruence.
Qed.

(** Nobody is left: whoever still waited is given up, and every process
    that was ever there has ended. *)
Lemma take_back_spec kroot (k : Kernel) : switched kroot k InRunUntilEmpty →
  control (take_back k) = InKernel ∧ kept kroot (take_back k) ∧
  ∀ i x, slot_at (scheduler (take_back k)) i = Some x → state x = Dead.
Proof.
  intros Hk. split; [exact eq_refl|]. apply abandon_all; [exact Hk|]. intros i Hi. apply in_seqZ. lia.
Qed.

(** Behind every switch there is code to run. *)
Lemma resumed_spec kroot (k : Kernel) r : switched kroot k r →
  ∃ k', resumed k r = Ok k' ∧
  match r with
  | FirstRun => control k' = Ring3 ∧ owns_cpu kroot k' ∧ current (scheduler k') = current (scheduler k)
  | Returns h => control k' = Serving h ∧ owns_cpu kroot k' ∧ slots (scheduler k') = slots (scheduler k) ∧
      current (scheduler k') = current (scheduler k) ∧
      ∀ x, slot_at (scheduler k) (current (scheduler k)) = Some x → hears h = true → content (mailbox x) ≠ None
  | InRunUntilEmpty => control k' = InKernel ∧ kept kroot k' ∧ ∀ i x, slot_at (scheduler k') i = Some x → state x = Dead
  | _ => False
  end.
Proof.
  intros Hk. pose proof Hk as [Ht Hh Hsv Hr Hto].
  assert (∀ x, slot_at (scheduler k) (current (scheduler k)) = Some x → can_run (state x) = true → kernel_rsp x = r →
    r = FirstRun ∨ ∃ h, r = Returns h) as Hwhere.
  { intros x Hx Hc He. pose proof (Hr _ _ I Hx) as Hxr. unfold rested in Hxr.
    destruct (state x); [left; congruence| |done..]. destruct Hxr as (h & Hxr & _). right. exists h. congruence. }
  destruct r as [| |h|h| |]; try (exfalso; destruct Hto as (x & [Hx _ _ _] & Hc & He);
    destruct (Hwhere x Hx Hc He) as [?|[h' ?]]; discriminate).
  - destruct Hto as (x & [Hx Hsp Hi Hsy] & Hc & He). cbn [resumed]. unfold run_first. cbn zeta.
    set (s1 := with_switching (scheduler k) false). assert (slot_at s1 (current s1) = Some x) as Hx1 by exact Hx.
    rewrite Hx1. cbn [expect mbind res_bind]. eexists. split; [reflexivity|]. 
    destruct (set_slot_rest s1 (current s1) (with_state x Runnable)) as (Hcur & Hsw & Hho).
    split; [done|]. split; [|exact Hcur].
    split; cbn [scheduler with_control with_cr3 with_scheduler KERNEL_RSP KERNEL_CR3]; [|by rewrite Hho|by rewrite Hsw|done| |].
    + apply (table_ok_set _ _ _ x); [by apply (table_ok_ext (scheduler k)); [..|apply (tb_current _ Ht)]|done|].
      by destruct (tb_slots _ Ht _ x Hx).
    + rewrite Hcur. apply (all_rest_set _ _ _ _ x Hx1); [|done]. intros j z _ Hz. by apply (Hr j z).
    + exists (with_state x Runnable). split; [|done]. split; cbn [scheduler with_control with_cr3 with_scheduler cr3 interrupt_stack syscall_stack process with_state kernel_stack_top]; [|done..].
      by rewrite Hcur, (slot_at_set _ _ _ _ x Hx1), decide_True.
  - destruct Hto as (x & [Hx Hsp Hi Hsy] & Hc & He). pose proof (Hr _ _ I Hx) as Hxr. unfold rested in Hxr.
    destruct (state x) eqn:Hst; [congruence| |done..]. destruct Hxr as (h' & Hh' & Hmail).
    assert (h' = h) as -> by congruence. cbn [resumed]. eexists. split; [reflexivity|]. split; [done|].
    split; [|split; [done|split; [done|]]]; [|by intros z Hz Hhe; rewrite Hx in Hz; simplify_eq; apply Hmail].
    split; cbn [scheduler with_control with_scheduler KERNEL_RSP KERNEL_CR3]; try done.
    + by apply (table_ok_ext (scheduler k)); [..|apply (tb_current _ Ht)].
    + intros j z _ Hz. by apply (Hr j z).
    + by exists x.
  - cbn [resumed]. exists (take_back k). split; [done|]. by apply take_back_spec.
Qed.

Lemma hand_over_spec kroot (k : Kernel) : kept kroot k → control k = InKernel →
  ∃ k', hand_over k kroot = Ok k' ∧
  ((k' = k ∧ ∀ i x, slot_at (scheduler k) i = Some x → can_run (state x) = false) ∨
   ∃ x, control k' = At (kernel_rsp x) ∧ switched kroot k' (kernel_rsp x) ∧ slots (scheduler k') = slots (scheduler k) ∧
     next_after (scheduler k) (MAX_PROCESSES - 1) = Some (current (scheduler k')) ∧
     slot_at (scheduler k) (current (scheduler k')) = Some x).
Proof.
  intros [Ht Hh Hs Hr Hb Hsp] Hc. unfold hand_over. pose proof (next_after_spec (scheduler k) (MAX_PROCESSES - 1)) as Hn.
  destruct (next_after (scheduler k) (MAX_PROCESSES - 1)) as [first|].
  2: { exists k. split; [done|]. left. split; [done|]. intros i x. apply Hn. }
  destruct Hn as [(x & Hx & Hcx) _]. pose proof (slot_at_bound _ _ _ Hx) as Hf. rewrite (tb_len _ Ht) in Hf.
  cbn [scheduler with_scheduler]. assert (slot_at (with_current (scheduler k) first) first = Some x) as Hx' by done.
  rewrite Hx'. cbn [expect mbind res_bind]. unfold prepare_cpu_for. cbn [scheduler with_saved with_scheduler]. rewrite Hx'.
  eexists. split; [reflexivity|]. right. exists x. split; [done|]. split; [|done]. pose proof (Hr _ _ I Hx) as Hxr.
  split; cbn [scheduler switch with_control with_cr3 with_saved with_scheduler KERNEL_RSP KERNEL_CR3 cr3]; try done.
  - by apply (table_ok_ext (scheduler k)).
  - unfold rested in Hxr. destruct (state x) eqn:Hst; [|destruct Hxr as (h & Hxr & _)|done..]; rewrite Hxr;
      exists x; (split; [|by rewrite Hst, Hxr]); by split.
Qed.

(** A process put in a free slot. *)
Lemma add_spec kroot (k : Kernel) p : kept kroot k →
  match add (scheduler k) p with
  | (Some i, s') => slot_at (scheduler k) i = None ∧ kept kroot (with_scheduler k s') ∧
      ∃ x, slot_at s' i = Some x ∧ process x = p ∧ state x = New ∧ content (mailbox x) = None ∧
      ∀ j, j ≠ i → slot_at s' j = slot_at (scheduler k) j
  | (None, s') => s' = scheduler k ∧ ∀ i, 0 ≤ i < MAX_PROCESSES → is_Some (slot_at (scheduler k) i)
  end.
Proof.
  intros [Ht Hh Hs Hr Hb Hsp]. unfold add, add_slot. set (x := {| process := p; state := New; kernel_rsp := FirstRun;
    kernel_stack_top := top (kernel_stack p); mailbox := Ipc.new |}).
  destruct (list_find (λ o, o = None) (slots (scheduler k))) as [[free o]|] eqn:Hf.
  2: { split; [done|]. intros i Hi. apply list_find_None in Hf. rewrite Forall_forall in Hf.
       rewrite <-(tb_len _ Ht) in Hi. unfold len in Hi. destruct (lookup_lt_is_Some_2 (slots (scheduler k)) (Z.to_nat i)) as [o Ho]; [lia|].
       unfold slot_at, index. destruct (Z.ltb_spec i 0); [lia|]. rewrite Ho. destruct o as [y|]; [by exists y|].
       by destruct (Hf None); [eapply list_elem_of_lookup_2|]. }
  apply list_find_Some in Hf as (Hfree & -> & _). pose proof (lookup_lt_Some _ _ _ Hfree) as Hlt.
  assert (∀ j, slot_at (with_slots (scheduler k) (<[free:=Some x]> (slots (scheduler k)))) j =
    if decide (j = Z.of_nat free) then Some x else slot_at (scheduler k) j) as Hat.
  { intros j. unfold slot_at, index. cbn [slots with_slots]. destruct (Z.ltb_spec j 0); [by rewrite decide_False by lia|].
    case_decide as Hd; [subst j; rewrite Nat2Z.id, list_lookup_insert_eq by done; done|].
    by rewrite list_lookup_insert_ne by lia. }
  assert (slot_ok x) as Hok by (split; [exact mailbox_new_wf|done|done]).
  split; [unfold slot_at, index; destruct (Z.ltb_spec (Z.of_nat free) 0); [lia|]; by rewrite Nat2Z.id, Hfree|]. split.
  - split; cbn [scheduler with_scheduler cr3]; try done.
    + split; [|exact (tb_current _ Ht)|]; [unfold len; cbn [slots with_slots]; rewrite length_insert; exact (tb_len _ Ht)|].
      intros i y. rewrite Hat. case_decide; [by intros [= <-]|apply (tb_slots _ Ht)].
    + intros i y _. rewrite Hat. case_decide; [by intros [= <-]|by apply Hr].
    + intros i y. rewrite Hat. case_decide; [by intros [= <-]|apply Hb].
  - exists x. rewrite Hat, decide_True by done. do 4 (split; [done|]). intros j Hj. by rewrite Hat, decide_False.
Qed.
End proofs.
