(* ===== verification/Fs.v ===== *)
(** * The disk, where a system call can reach it

    Models [kernel/src/fs.rs]: the mounted volume, the gate every write to
    it passes, and the operations a program's calls become.  The lock is
    taken and released inside each operation.  [device] is the reader and
    its disk, as the class [Sectors]. *)

From Stdlib Require Import String Ascii.
From S2P Require Import Prelude Words Bytes FatFormat FatVolume Events.
Local Open Scope Z_scope.

Definition OUR_SERIAL : Z := 0x4841524C.
Definition OUR_LABEL : list Z := text "HARLAN".

Module Fs.
(** Whether a volume says it is the one this kernel's tooling made. *)
Definition is_ours (b : BootSector) : bool :=
  match volume_id b with
  | Some id => (serial id =? OUR_SERIAL) && bool_decide (Boot.label id = OUR_LABEL)
  | None => false
  end.

Section fs.
  Context {D E : Type} `{!Sectors D E} (not_our_disk : E).

(** The disk and its reader, its boot sector, and whether it is ours. *)
Record Mounted := {
  device : D;
  boot : BootSector;
  ours : bool
}.

Definition with_device (m : Mounted) (d : D) : Mounted := {| device := d; boot := boot m; ours := ours m |}.

Definition on_device {X A} (op : dev D X A) : dev Mounted X A := λ m,
  let '(r, d) := op (device m) in (r, with_device m d).

(** [impl fat::Sectors for Sectors<'_>]: the last gate before the disk. *)
#[export] Instance gate : Sectors Mounted E := {
  read_sector sector := on_device (FatVolume.read_sector sector);
  write_sector sector bytes := λ m,
    if negb (ours m) then (Err not_our_disk, m) else on_device (FatVolume.write_sector sector bytes) m
}.

Inductive FileError :=
| NoDisk
| FBadName
| NoSuchFile
| FIsADirectory
| Open
| NotOurDisk
| FReading (e : VolumeError E)
| FWriting (e : WriteError E).

(** [DISK]. *)
Abbreviation Disk := (option Mounted).

Definition adopt (d : D) (b : BootSector) (_ : Disk) : bool * Disk :=
  let ours := is_ours b in (ours, Some {| device := d; boot := b; ours := ours |}).

Definition writable (d : Disk) : bool := match d with Some m => ours m | None => false end.
Definition mounted (d : Disk) : bool := bool_decide (is_Some d).

(** [with(operation)?.map_err(f)]: over the volume built for this call. *)
Definition with_volume {X A} (f : X → FileError) (operation : BootSector → dev Mounted X A) : dev Disk FileError A := λ d,
  match d with
  | None => (Err NoDisk, None)
  | Some m => let '(r, m) := operation (boot m) m in (map_err f r, Some m)
  end.

Definition find (nm : list Z) : dev Disk FileError DirectoryEntry :=
  if bool_decide (encode_name nm = None) then lift (Err FBadName)
  else
    found ← with_volume FReading (λ b, FatVolume.find b nm);
    lift match found with
         | Some entry => if is_directory entry then Err FIsADirectory else Ok entry
         | None => Err NoSuchFile
         end.

Definition read_at (entry : DirectoryEntry) (offset : Z) (into : list Z) : dev Disk FileError (Z * list Z) :=
  with_volume FReading (λ b, FatVolume.read_at b entry offset into).

Definition read_file (entry : DirectoryEntry) (into : list Z) : dev Disk FileError (Z * list Z) :=
  with_volume FReading (λ b, FatVolume.read_file b entry into).

Definition read_sector (sector : Z) : dev Disk FileError (list Z) :=
  with_volume FReading (λ _, dev_map_err Device (FatVolume.read_sector sector)).

Definition boot_sector (d : Disk) : option BootSector := boot <$> d.

Definition each_name {T} (each : T → DirectoryEntry → T * bool) (t : T) : dev Disk FileError T :=
  with_volume FReading (λ b, FatVolume.read_root b each t).

(** Counts up to [index], and keeps the entry it finds there. *)
Definition entry_at (index_ : Z) : dev Disk FileError DirectoryEntry :=
  '(_, found) ← with_volume FReading (λ b,
    FatVolume.read_root b (λ '(at_, found) entry,
      if at_ =? index_ then ((at_, Some entry), false) else ((at_ + 1, found), true)) (0, None));
  lift (ok_or NoSuchFile found).

Definition write_error (e : WriteError E) : FileError :=
  match e with IsADirectory => FIsADirectory | err => FWriting err end.

(** [held] is [scheduler::anyone_has_open]; a write that succeeded is
    recorded in the event log. *)
Definition write_file (held : list Z → bool) (ticks : Z) (nm contents : list Z)
    : dev (Disk * Events.Ring) FileError DirectoryEntry := λ '(d, log),
  if negb (writable d) then (Err NotOurDisk, (d, log))
  else if bool_decide (encode_name nm = None) then (Err FBadName, (d, log))
  else if held nm then (Err Open, (d, log))
  else
    match with_volume write_error (λ b, FatVolume.write_file b nm contents) d with
    | (Ok entry, d) =>
        match Events.record_with ticks log Events.Wrote (esize entry) (name entry) with
        | Ok log => (Ok entry, (d, log))
        | Err e => match e with end
        | Panic => (Panic, (d, log))
        | Diverge => (Diverge, (d, log))
        end
    | (Err e, d) => (Err e, (d, log))
    | (Panic, d) => (Panic, (d, log))
    | (Diverge, d) => (Diverge, (d, log))
    end.
End fs.

Arguments Mounted : clear implicits.
Arguments FileError : clear implicits.
End Fs.
