(* ===== verification/FsThms.v ===== *)
(** * What a system call can do to the disk

    [fs_calls_safe]: no sequence of the calls of [kernel/src/fs.rs] panics
    or runs for ever, whatever is on the disk and whenever it fails, and a
    disk this kernel did not make is never written. *)

From S2P Require Import Prelude Words Bytes FatFormat FatVolume FatFormatThms FatDisk FatRead FatFrame FatReadThms VolumeSafe Events EventsThms Fs.
Local Open Scope Z_scope.

Section fs.
  Context {D E : Type} `{!Sectors D E, !Disk D E} (not_our_disk : E).

#[local] Instance mounted_sectors : Sectors (Fs.Mounted D) E := Fs.gate not_our_disk.

(** A mounted disk, with the boot sector it was mounted with; [d0] is what
    was on it. *)
Record mounted_ok (b : BootSector) (d0 : content) (m : Fs.Mounted D) : Prop := {
  mo_boot : Fs.boot m = b;
  mo_ours : Fs.ours m = Fs.is_ours b;
  mo_disk : disk_ok (view (Fs.device m));
  mo_same : Fs.is_ours b = false → view (Fs.device m) = d0
}.

Lemma gate_read b d0 n : safe (mounted_ok b d0) whole_sector (read_sector n : dev (Fs.Mounted D) E (list Z)).
Proof.
  intros m [Hb Ho Hd Hs]. destruct (read_law n (Fs.device m)) as (r & d' & Hr & Hv & Hcase).
  cbn [read_sector mounted_sectors Fs.gate]. unfold Fs.on_device. rewrite Hr. eexists _, _. split; [reflexivity|]. split.
  - split; cbn [Fs.boot Fs.ours Fs.device Fs.with_device]; [done|done|by rewrite Hv|by rewrite Hv].
  - destruct Hcase as [->|[e ->]]; [|done]. destruct (Hd n). split; [unfold len; lia|done].
Qed.

Lemma gate_write b d0 n bytes : whole_sector bytes →
  safe (mounted_ok b d0) (λ _, True) (write_sector n bytes : dev (Fs.Mounted D) E ()).
Proof.
  intros Hok m [Hb Ho Hd Hs]. cbn [write_sector mounted_sectors Fs.gate]. destruct (Fs.ours m) eqn:Hours; cbn [negb].
  2: { exists (Err not_our_disk), m. split; [done|]. split; [|done]. split; congruence || done. }
  destruct (write_law n bytes (Fs.device m)) as (r & d' & Hr & Hcase). unfold Fs.on_device. rewrite Hr.
  assert (disk_ok (<[n:=bytes]> (view (Fs.device m)))) as Hi.
  { apply insert_ok; [done|]. destruct Hok as [Hl Hby]. split; [unfold len in Hl; lia|done]. }
  eexists _, _. split; [reflexivity|]. split.
  - split; cbn [Fs.boot Fs.ours Fs.device Fs.with_device]; [done|by rewrite Hours| |congruence].
    destruct Hcase as [[_ ->]|(e & _ & [-> | ->])]; done.
  - by destruct Hcase as [[-> _]|(e & -> & _)].
Qed.

(** A mounted disk, or none. *)
Definition disk_mounted (there : bool) (b : BootSector) (d0 : content) (d : option (Fs.Mounted D)) : Prop :=
  if there then ∃ m, d = Some m ∧ mounted_ok b d0 m else d = None.

Lemma with_volume_safe {X A} there b d0 (f : X → Fs.FileError E) (Q : A → Prop) op :
  safe (mounted_ok b d0) Q (op b) → safe (disk_mounted there b d0) Q (Fs.with_volume f op).
Proof.
  intros Hop d Hd. unfold Fs.with_volume. destruct there; [destruct Hd as (m & -> & Hm)|rewrite Hd; by eexists _, None].
  destruct (Hop m Hm) as (r & m' & Hr & Hm' & Hcase). rewrite (mo_boot _ _ _ Hm), Hr.
  eexists _, _. split; [reflexivity|]. split; [by exists m'|]. by destruct r.
Qed.

Section mounted.
  Context (there : bool) (b : BootSector) (Hg : geometry b) (d0 : content).
  Local Abbreviation calls_safe := (safe (disk_mounted there b d0)).

Lemma fs_find_safe nm : calls_safe entry_ok (Fs.find not_our_disk nm).
Proof.
  unfold Fs.find. case_bool_decide; [apply safe_err|]. eapply safe_bind.
  { apply with_volume_safe, find_safe; [done|apply gate_read]. }
  intros found Hf. destruct found as [e|]; [|apply safe_err]. case_match; [apply safe_err|].
  apply (safe_ret _ entry_ok). by apply Hf.
Qed.

Lemma fs_read_at_safe entry offset into : entry_ok entry → 0 ≤ offset → bytes_ok into →
  calls_safe (λ x, 0 ≤ x.1 ≤ len into ∧ len x.2 = len into ∧ bytes_ok x.2)
    (Fs.read_at not_our_disk entry offset into).
Proof. intros He Ho Hb. apply with_volume_safe, read_at_safe; [done|apply gate_read|done..]. Qed.

Lemma fs_entry_at_safe i : calls_safe entry_ok (Fs.entry_at not_our_disk i).
Proof.
  unfold Fs.entry_at. eapply safe_bind.
  { apply with_volume_safe. apply (read_root_safe b Hg _ (gate_read b d0) (λ x, ∀ e, x.2 = Some e → entry_ok e)); [|done].
    intros [at_ found] e Ht He. cbn [snd] in *. case_match; cbn [fst snd]; [by intros ? [= <-]|done]. }
  intros [n found] Hf. cbn [snd] in Hf. destruct found as [e|]; [|apply safe_err].
  apply (safe_ret _ entry_ok). by apply Hf.
Qed.

Lemma fs_read_file_safe entry into : entry_ok entry → bytes_ok into →
  calls_safe (λ x, len x.2 = len into) (Fs.read_file not_our_disk entry into).
Proof. intros He Hb. apply with_volume_safe, read_file_safe; [done|apply gate_read|done..]. Qed.

Lemma fs_read_sector_safe n : calls_safe (λ _, True) (Fs.read_sector not_our_disk n).
Proof. apply with_volume_safe, safe_map_err. eapply safe_mono; [apply gate_read|done]. Qed.

(** Writing: a disk that is not ours is refused before anything else. *)
Lemma fs_write_file_safe held ticks nm contents d ev : bytes_ok contents →
  disk_mounted there b d0 d → ring_ok ev → in_width 64 ticks → Events.written ev + 1 < 2 ^ 64 →
  ∃ r d' ev', Fs.write_file not_our_disk held ticks nm contents (d, ev) = (r, (d', ev')) ∧ disk_mounted there b d0 d' ∧ ring_ok ev' ∧
    Events.written ev ≤ Events.written ev' ≤ Events.written ev + 1 ∧
    match r with
    | Ok e => entry_ok e
    | Err _ => True
    | Panic | Diverge => False
    end ∧
    (Fs.writable d = false → r = Err Fs.NotOurDisk ∧ d' = d ∧ ev' = ev).
Proof.
  intros Hb Hd Hev Ht Hw. unfold Fs.write_file.
  destruct (Fs.writable d) eqn:Hwr; cbn [negb].
  2: { eexists _, d, ev. split; [reflexivity|]. do 2 (split; [done|]). split; [lia|]. done. }
  case_bool_decide; [eexists _, d, ev; split; [reflexivity|]; do 2 (split; [done|]); split; [lia|done]|].
  case_match; [eexists _, d, ev; split; [reflexivity|]; do 2 (split; [done|]); split; [lia|done]|].
  destruct (with_volume_safe there b d0 Fs.write_error entry_ok (λ b, write_file b nm contents)
    (write_file_safe b Hg _ (gate_read b d0) (gate_write b d0) nm contents Hb) d Hd) as (r & d' & Hr & Hd' & Hcase).
  unfold mounted_sectors in Hr. rewrite Hr. destruct r as [e|err| |]; [|eexists _, d', ev; split; [reflexivity|]; do 2 (split; [done|]); split; [lia|done]|done..].
  destruct (say_step ev ticks Events.Wrote (esize e) None (name e) Hev) as (ev' & Hs & Hev' & _ & Hwr' & _); [|done|].
  { split; [done|]. split; [|done]. destruct Hcase as [[? ?] _]. split; [done|]. lia. }
  unfold Events.record_with. rewrite Hs. eexists _, d', ev'. split; [reflexivity|]. do 2 (split; [done|]). split; [lia|done].
Qed.

(** ** Any sequence of calls *)
Inductive fs_call :=
| Find (nm : list Z)
| ReadAt (entry : DirectoryEntry) (offset : Z) (into : list Z)
| ReadFile (entry : DirectoryEntry) (into : list Z)
| ReadSector (n : Z)
| EntryAt (index : Z)
| Names
| WriteFile (held : list Z → bool) (ticks : Z) (nm contents : list Z).

Definition fs_call_ok (c : fs_call) : Prop :=
  match c with
  | ReadAt entry offset into => entry_ok entry ∧ 0 ≤ offset ∧ bytes_ok into
  | ReadFile entry into => entry_ok entry ∧ bytes_ok into
  | WriteFile _ ticks _ contents => in_width 64 ticks ∧ bytes_ok contents
  | _ => True
  end.

(** What a call answers, without the value. *)
Definition outcome {A} (x : res (Fs.FileError E) A * option (Fs.Mounted D)) (ev : Events.Ring)
    : res (Fs.FileError E) () * (option (Fs.Mounted D) * Events.Ring) := ((λ _, ()) <$> x.1, (x.2, ev)).

Definition run_call (c : fs_call) (s : option (Fs.Mounted D) * Events.Ring)
    : res (Fs.FileError E) () * (option (Fs.Mounted D) * Events.Ring) :=
  match c with
  | Find nm => outcome (Fs.find not_our_disk nm s.1) s.2
  | ReadAt entry offset into => outcome (Fs.read_at not_our_disk entry offset into s.1) s.2
  | ReadFile entry into => outcome (Fs.read_file not_our_disk entry into s.1) s.2
  | ReadSector n => outcome (Fs.read_sector not_our_disk n s.1) s.2
  | EntryAt i => outcome (Fs.entry_at not_our_disk i s.1) s.2
  | Names => outcome (Fs.each_name not_our_disk (λ l e, (l ++ [name e], true)) [] s.1) s.2
  | WriteFile held ticks nm contents =>
      let '(r, s) := Fs.write_file not_our_disk held ticks nm contents s in ((λ _, ()) <$> r, s)
  end.

Fixpoint run_calls (l : list fs_call) (s : option (Fs.Mounted D) * Events.Ring) :=
  match l with
  | [] => ([], s)
  | c :: l => let '(r, s) := run_call c s in let '(rs, s) := run_calls l s in ((c, r) :: rs, s)
  end.

Definition ended_well (c : fs_call) (r : res (Fs.FileError E) ()) : Prop :=
  match r with
  | Panic | Diverge => False
  | Ok _ => match c with WriteFile _ _ _ _ => Fs.is_ours b = true | _ => True end
  | Err e => match c with WriteFile _ _ _ _ => Fs.is_ours b = false → e = Fs.NotOurDisk | _ => True end
  end.

Lemma outcome_well {A} (Q : A → Prop) c (m : dev (option (Fs.Mounted D)) (Fs.FileError E) A) d ev :
  (match c with WriteFile _ _ _ _ => False | _ => True end) → calls_safe Q m → disk_mounted there b d0 d →
  ended_well c (outcome (m d) ev).1 ∧ disk_mounted there b d0 (outcome (m d) ev).2.1 ∧
  (outcome (m d) ev).2.2 = ev.
Proof.
  intros Hc Hm Hd. destruct (Hm d Hd) as (r & d' & Hr & Hd' & Hcase). unfold outcome. rewrite Hr. cbn [fst snd].
  split; [|done]. unfold ended_well. destruct r; cbn; [by destruct c|by destruct c|done..].
Qed.

Lemma run_call_well c d ev : fs_call_ok c → disk_mounted there b d0 d → ring_ok ev → Events.written ev + 1 < 2 ^ 64 →
  ∃ r d' ev', run_call c (d, ev) = (r, (d', ev')) ∧ ended_well c r ∧ disk_mounted there b d0 d' ∧ ring_ok ev' ∧
    Events.written ev ≤ Events.written ev' ≤ Events.written ev + 1.
Proof.
  intros Hc Hd Hev Hw.
  assert (∀ A (Q : A → Prop) (m : dev (option (Fs.Mounted D)) (Fs.FileError E) A),
    (match c with WriteFile _ _ _ _ => False | _ => True end) → calls_safe Q m → run_call c (d, ev) = outcome (m d) ev →
    ∃ r d' ev', run_call c (d, ev) = (r, (d', ev')) ∧ ended_well c r ∧ disk_mounted there b d0 d' ∧ ring_ok ev' ∧
    Events.written ev ≤ Events.written ev' ≤ Events.written ev + 1) as Hread.
  { intros A Q m Hc' Hm ->. destruct (outcome_well Q c m d ev Hc' Hm Hd) as (H1 & H2 & H3).
    destruct (outcome (m d) ev) as [r [d' ev']]. cbn [fst snd] in *. subst ev'. exists r, d', ev. split; [done|]. do 3 (split; [done|]). lia. }
  destruct c as [nm|entry offset into|entry into|n|i| |held ticks nm contents]; cbn [fs_call_ok] in Hc.
  - by eapply Hread; [|apply fs_find_safe|].
  - by eapply Hread; [|apply fs_read_at_safe|]; [|apply Hc..|].
  - by eapply Hread; [|apply fs_read_file_safe|]; [|apply Hc..|].
  - by eapply Hread; [|apply fs_read_sector_safe|].
  - by eapply Hread; [|apply fs_entry_at_safe|].
  - eapply Hread; [done| |reflexivity]. apply with_volume_safe. apply (read_root_safe b Hg _ (gate_read b d0) (λ _, True)); done.
  - destruct Hc as [Ht Hb]. destruct (fs_write_file_safe held ticks nm contents d ev Hb Hd Hev Ht Hw)
      as (r & d' & ev' & Hr & Hd' & Hev' & Hwr & Hcase & Hforeign). cbn [run_call]. rewrite Hr.
    eexists _, d', ev'. split; [reflexivity|]. split; [|done].
    assert (Fs.is_ours b = false → r = Err Fs.NotOurDisk ∨ r = Err Fs.NotOurDisk) as Hno.
    { intros Hno. left. apply Hforeign. destruct there; [|by rewrite Hd]. destruct Hd as (m & -> & Hm). cbn. by rewrite (mo_ours _ _ _ Hm). }
    unfold ended_well. destruct r as [e|e| |]; cbn; [|intros Hn; destruct (Hno Hn); congruence|done..].
    destruct (Fs.is_ours b); [done|]. destruct (Hno eq_refl); discriminate.
Qed.

Lemma run_calls_well l : ∀ d ev, Forall fs_call_ok l → disk_mounted there b d0 d → ring_ok ev → Events.written ev + len l < 2 ^ 64 →
  ∃ rs d' ev', run_calls l (d, ev) = (rs, (d', ev')) ∧ Forall (λ x, ended_well x.1 x.2) rs ∧ rs.*1 = l ∧
    disk_mounted there b d0 d' ∧ ring_ok ev'.
Proof.
  induction l as [|c l IH]; intros d ev Hl Hd Hev Hw; cbn [run_calls]; [by exists [], d, ev|].
  apply Forall_cons in Hl as [Hc Hl]. rewrite len_cons in Hw. pose proof (len_nonneg l).
  destruct (run_call_well c d ev Hc Hd Hev ltac:(lia)) as (r & d1 & ev1 & -> & Hr & Hd1 & Hev1 & Hw1).
  destruct (IH d1 ev1 Hl Hd1 Hev1 ltac:(lia)) as (rs & d2 & ev2 & -> & Hrs & Hfst & Hd2 & Hev2).
  exists ((c, r) :: rs), d2, ev2. split; [done|]. split; [by constructor|]. split; [by rewrite <-Hfst|done].
Qed.
End mounted.

(** C40: The disk behind the system calls, under any sequence of finding,
    reading, listing and writing, on any contents and on any device that may
    fail at any request: no call panics or runs for ever, every sector stays
    whole and the event log stays well formed.  A disk whose boot sector
    does not say that this kernel made it is never written, not one byte,
    and every write to it is refused as such. *)
Theorem disk_calls_safe b ops device ev :
  geometry b → disk_ok (view device) → Forall fs_call_ok ops → ring_ok ev → Events.written ev + len ops < 2 ^ 64 →
  ∃ answers m ev', run_calls ops ((Fs.adopt device b None).2, ev) = (answers, (Some m, ev')) ∧
    answers.*1 = ops ∧ Forall (λ x, ended_well b x.1 x.2) answers ∧
    disk_ok (view (Fs.device m)) ∧ ring_ok ev' ∧
    (Fs.is_ours b = false → view (Fs.device m) = view device).
Proof.
  intros Hg Hd Hops Hev Hw.
  destruct (run_calls_well true b Hg (view device) ops (Fs.adopt device b None).2 ev Hops) as (rs & d' & ev' & Hr & Hwell & Hfst & (m & -> & Hm) & Hev'); [|done..|].
  - eexists. split; [reflexivity|]. by split.
  - exists rs, m, ev'. do 3 (split; [done|]). split; [apply Hm|]. split; [done|]. apply (mo_same _ _ _ Hm).
Qed.
End fs.

(** Somebody else's disk: a write to it is refused, and it is as before. *)
Definition foreign_calls : list fs_call := [WriteFile (λ _, false) 7 [65] [1; 2]; Find [65]].
Definition foreign_start : option (Fs.Mounted Dying) * Events.Ring :=
  ((Fs.adopt {| disk := example_disk; left := 3 |} example_boot None).2, Events.new).

Lemma disk_calls_safe_witness :
  ∃ answers m ev', run_calls () foreign_calls foreign_start = (answers, (Some m, ev')) ∧
    answers.*2 = [Err Fs.NotOurDisk; Err Fs.NoSuchFile] ∧ view (Fs.device m) = example_disk.
Proof.
  destruct (disk_calls_safe () example_boot foreign_calls {| disk := example_disk; left := 3 |} Events.new
    example_geometry) as (answers & m & ev' & Hr & _ & _ & _ & _ & Hsame).
  - exact example_disk_ok.
  - repeat constructor; cbn; lia.
  - exact new_ring_ok.
  - vm_compute. reflexivity.
  - exists answers, m, ev'. split; [exact Hr|]. split; [|apply Hsame; vm_compute; reflexivity].
    assert ((run_calls () foreign_calls foreign_start).1.*2 = [Err Fs.NotOurDisk; Err Fs.NoSuchFile]) as Ha by (vm_compute; reflexivity).
    unfold foreign_start in Ha. rewrite Hr in Ha. exact Ha.
Defined.
