(* ===== verification/Console.v ===== *)
(** * The console, where a system call can reach it

    Models [kernel/src/console.rs] over the trait [Console] of
    [hal/src/console.rs], here a class: what draws and what the keys come
    from is an instance of it.  A [char] is its code point, a [&str] its
    bytes. *)

From S2P Require Import Prelude Words Bytes FatFormat.
Local Open Scope Z_scope.

(** ** Keys *)
Inductive ConsoleKey :=
| Char (c : Z)
| Enter
| Backspace
| Unknown.

Class Console (C : Type) := {
  console_read_key : C → option ConsoleKey * C;
  console_write_str : C → list Z → C
}.

Definition KEY_NONE : Z := 0.
Definition KEY_ENTER : Z := 1.
Definition KEY_BACKSPACE : Z := 2.
Definition KEY_UNKNOWN : Z := 3.

(** [char::is_ascii_graphic]. *)
Definition is_ascii_graphic (c : Z) : bool := in_range 0x21 0x7E c.

Definition encode (key : option ConsoleKey) : Z :=
  match key with
  | None => KEY_NONE
  | Some Enter => KEY_ENTER
  | Some Backspace => KEY_BACKSPACE
  | Some (Char c) => if is_ascii_graphic c || (c =? 32) then c else KEY_UNKNOWN
  | Some Unknown => KEY_UNKNOWN
  end.

(** ** The one console: [CONSOLE] *)
Module TheConsole.
Section console.
  Context {C : Type} `{!Console C}.

Definition adopt (console : C) (_ : option C) : option C := Some console.
Definition take (held : option C) : option C * option C := (held, None).
Definition present (held : option C) : bool := bool_decide (is_Some held).

Definition with_console {R} (operation : C → R * C) (held : option C) : option R * option C :=
  match held with
  | Some console => let '(r, console) := operation console in (Some r, Some console)
  | None => (None, None)
  end.

Definition write (text : list Z) : option C → option Z * option C :=
  with_console (λ console, (len text, console_write_str console text)).

Definition read_key (held : option C) : option ConsoleKey * option C :=
  let '(key, held) := with_console console_read_key held in (mjoin key, held).
End console.
End TheConsole.
