(* ===== verification/Keyboard.v ===== *)
(** * The keyboard: [arch/x86_64/src/keyboard.rs]

    The ring of scancodes between the interrupt and whoever reads keys, one
    atomic access at a time ([Step]) and as the calls [push] and [pop]; the
    decoder; and the i8042 controller, over ports that answer as they like. *)

From S2P Require Import Prelude Words Bytes Console.
Local Open Scope Z_scope.

(** ** The ring *)
Definition QUEUE_CAPACITY : Z := 64.

Record ScancodeQueue := { slots : list Z; head : Z; tail : Z }.

Module Queue.
Definition new : ScancodeQueue := {| slots := replicate (Z.to_nat QUEUE_CAPACITY) 0; head := 0; tail := 0 |}.

Definition slot (q : ScancodeQueue) (i : Z) : Z := nth (Z.to_nat (i mod QUEUE_CAPACITY)) (slots q) 0.
Definition set_slot (q : ScancodeQueue) (i v : Z) : ScancodeQueue :=
  {| slots := <[Z.to_nat (i mod QUEUE_CAPACITY) := v]> (slots q); head := head q; tail := tail q |}.
Definition set_head (q : ScancodeQueue) (h : Z) : ScancodeQueue := {| slots := slots q; head := h; tail := tail q |}.
Definition set_tail (q : ScancodeQueue) (t : Z) : ScancodeQueue := {| slots := slots q; head := head q; tail := t |}.

Definition push (q : ScancodeQueue) (scancode : Z) : bool * ScancodeQueue :=
  let t := tail q in
  let h := head q in
  if wrap 64 (t - h) =? QUEUE_CAPACITY then (false, q)
  else (true, set_tail (set_slot q t scancode) (wrap 64 (t + 1))).

Definition pop (q : ScancodeQueue) : option Z * ScancodeQueue :=
  let h := head q in
  let t := tail q in
  if h =? t then (None, q) else (Some (slot q h), set_head q (wrap 64 (h + 1))).
End Queue.

(** *** One access at a time

    Between any two accesses of the one the other may run: the interrupt
    comes in the middle of a [pop], or the two run on two cores. *)
Inductive Producer :=
| PIdle
| PTail (scancode t : Z)
| PHead (scancode t h : Z)
| PStored (scancode t : Z).

Inductive Consumer :=
| CIdle
| CHead (h : Z)
| CTail (h t : Z)
| CRead (h v : Z).

(** Where a call begins, and what it answers. *)
Inductive Event :=
| Push (scancode : Z)
| Accepted (scancode : Z)
| Refused (scancode : Z)
| Pop
| Got (scancode : Z)
| Nothing.

Record Shared := { queue : ScancodeQueue; producer : Producer; consumer : Consumer }.

Inductive Step : Shared → list Event → Shared → Prop :=
| push_tail q c b : Step {| queue := q; producer := PIdle; consumer := c |} [Push b]
    {| queue := q; producer := PTail b (tail q); consumer := c |}
| push_head q c b t : Step {| queue := q; producer := PTail b t; consumer := c |} []
    {| queue := q; producer := PHead b t (head q); consumer := c |}
| push_full q c b t h : wrap 64 (t - h) = QUEUE_CAPACITY →
    Step {| queue := q; producer := PHead b t h; consumer := c |} [Refused b] {| queue := q; producer := PIdle; consumer := c |}
| push_store q c b t h : wrap 64 (t - h) ≠ QUEUE_CAPACITY →
    Step {| queue := q; producer := PHead b t h; consumer := c |} []
      {| queue := Queue.set_slot q t b; producer := PStored b t; consumer := c |}
| push_publish q c b t : Step {| queue := q; producer := PStored b t; consumer := c |} [Accepted b]
    {| queue := Queue.set_tail q (wrap 64 (t + 1)); producer := PIdle; consumer := c |}
| pop_head q p : Step {| queue := q; producer := p; consumer := CIdle |} [Pop]
    {| queue := q; producer := p; consumer := CHead (head q) |}
| pop_tail q p h : Step {| queue := q; producer := p; consumer := CHead h |} []
    {| queue := q; producer := p; consumer := CTail h (tail q) |}
| pop_empty q p h t : h = t →
    Step {| queue := q; producer := p; consumer := CTail h t |} [Nothing] {| queue := q; producer := p; consumer := CIdle |}
| pop_read q p h t : h ≠ t →
    Step {| queue := q; producer := p; consumer := CTail h t |} []
      {| queue := q; producer := p; consumer := CRead h (Queue.slot q h) |}
| pop_release q p h v : Step {| queue := q; producer := p; consumer := CRead h v |} [Got v]
    {| queue := Queue.set_head q (wrap 64 (h + 1)); producer := p; consumer := CIdle |}.

(** A run, with what each of its steps showed. *)
Inductive Steps : Shared → list (list Event) → Shared → Prop :=
| steps_refl s : Steps s [] s
| steps_snoc s s1 s2 l e : Steps s l s1 → Step s1 e s2 → Steps s (l ++ [e]) s2.

(** ** Scancodes *)
Definition PREFIX_EXTENDED : Z := 0xE0.
Definition BREAK_BIT : Z := 0x80.
Definition SC_BACKSPACE : Z := 0x0E.
Definition SC_ENTER : Z := 0x1C.
Definition SC_LEFT_SHIFT : Z := 0x2A.
Definition SC_RIGHT_SHIFT : Z := 0x36.

(** The ASCII of a key alone and with Shift, or [(0, 0)]. *)
Definition KEY_TABLE : list (Z * Z) :=
  [(0, 0); (0, 0); (49, 33); (50, 64); (51, 35); (52, 36); (53, 37); (54, 94); (55, 38); (56, 42); (57, 40); (48, 41);
   (45, 95); (61, 43); (0, 0); (0, 0); (113, 81); (119, 87); (101, 69); (114, 82); (116, 84); (121, 89); (117, 85);
   (105, 73); (111, 79); (112, 80); (91, 123); (93, 125); (0, 0); (0, 0); (97, 65); (115, 83); (100, 68); (102, 70);
   (103, 71); (104, 72); (106, 74); (107, 75); (108, 76); (59, 58); (39, 34); (96, 126); (0, 0); (92, 124); (122, 90);
   (120, 88); (99, 67); (118, 86); (98, 66); (110, 78); (109, 77); (44, 60); (46, 62); (47, 63); (0, 0); (0, 0); (0, 0);
   (32, 32)].

Record Decoder := { left_shift : bool; right_shift : bool; expecting_extended : bool }.

Module Decode.
Definition new : Decoder := {| left_shift := false; right_shift := false; expecting_extended := false |}.

Definition with_extended (d : Decoder) (b : bool) : Decoder :=
  {| left_shift := left_shift d; right_shift := right_shift d; expecting_extended := b |}.
Definition with_left (d : Decoder) (b : bool) : Decoder :=
  {| left_shift := b; right_shift := right_shift d; expecting_extended := expecting_extended d |}.
Definition with_right (d : Decoder) (b : bool) : Decoder :=
  {| left_shift := left_shift d; right_shift := b; expecting_extended := expecting_extended d |}.

Definition feed (d : Decoder) (scancode : Z) : option ConsoleKey * Decoder :=
  if scancode =? PREFIX_EXTENDED then (None, with_extended d true)
  else
    let extended := expecting_extended d in
    let d := with_extended d false in
    let released := negb (Z.land scancode BREAK_BIT =? 0) in
    let make := Z.land scancode (not_w 8 BREAK_BIT) in
    if extended then ((if released then None else Some Unknown), d)
    else if make =? SC_LEFT_SHIFT then (None, with_left d (negb released))
    else if make =? SC_RIGHT_SHIFT then (None, with_right d (negb released))
    else if released then (None, d)
    else if make =? SC_BACKSPACE then (Some Backspace, d)
    else if make =? SC_ENTER then (Some Enter, d)
    else
      let shifted := left_shift d || right_shift d in
      (Some match KEY_TABLE !! Z.to_nat make with
            | Some (unshifted, shifted_char) =>
                if negb (unshifted =? 0) then Char (if shifted then shifted_char else unshifted) else Unknown
            | None => Unknown
            end, d).
End Decode.

(** The keys left to read, one at a time: [fuel] bounds the scancodes looked
    at. *)
Fixpoint read_key_from (fuel : nat) (d : Decoder) (q : ScancodeQueue) : option (option ConsoleKey * Decoder * ScancodeQueue) :=
  match fuel with
  | O => None
  | S fuel =>
      match Queue.pop q with
      | (None, q) => Some (None, d, q)
      | (Some scancode, q) =>
          match Decode.feed d scancode with
          | (Some key, d) => Some (Some key, d, q)
          | (None, d) => read_key_from fuel d q
          end
      end
  end.

(** ** The controller *)
Definition DATA_PORT : Z := 0x60.
Definition STATUS_COMMAND_PORT : Z := 0x64.
Definition STATUS_OUTPUT_FULL : Z := 1.
Definition STATUS_INPUT_FULL : Z := 2.
Definition STATUS_AUX_DATA : Z := 32.
Definition COMMAND_READ_CONFIG : Z := 0x20.
Definition COMMAND_WRITE_CONFIG : Z := 0x60.
Definition CONFIG_KEYBOARD_IRQ_ENABLE : Z := 1.
Definition CONFIG_KEYBOARD_CLOCK_DISABLE : Z := 16.
Definition CONFIG_TRANSLATE : Z := 64.
Definition KEYBOARD_ENABLE_SCANNING : Z := 0xF4.
Definition POLL_LIMIT : Z := 200000.
Definition DRAIN_LIMIT : Z := 16.

(** Reading and writing a port, of a device that may answer anything. *)
Class Ports (P : Type) := {
  inb : Z → P → Z * P;
  outb : Z → Z → P → P
}.

Inductive InitError := ControllerTimeout.

Section controller.
  Context {P : Type} `{!Ports P}.

Fixpoint wait_input_ready (polls : nat) (p : P) : res InitError () * P :=
  match polls with
  | O => (Err ControllerTimeout, p)
  | S polls =>
      let '(status, p) := inb STATUS_COMMAND_PORT p in
      if Z.land status STATUS_INPUT_FULL =? 0 then (Ok (), p) else wait_input_ready polls p
  end.

Fixpoint wait_output_ready (polls : nat) (p : P) : res InitError Z * P :=
  match polls with
  | O => (Err ControllerTimeout, p)
  | S polls =>
      let '(status, p) := inb STATUS_COMMAND_PORT p in
      if negb (Z.land status STATUS_OUTPUT_FULL =? 0)
      then let '(byte, p) := inb DATA_PORT p in (Ok byte, p) else wait_output_ready polls p
  end.

Fixpoint drain_output_buffer (n : nat) (p : P) : P :=
  match n with
  | O => p
  | S n =>
      let '(status, p) := inb STATUS_COMMAND_PORT p in
      if Z.land status STATUS_OUTPUT_FULL =? 0 then p else drain_output_buffer n (inb DATA_PORT p).2
  end.

Definition port_out (port byte : Z) : dev P InitError () := λ p, (Ok (), outb port byte p).

Definition init_controller : dev P InitError () :=
  let polls := Z.to_nat POLL_LIMIT in
  let drain : dev P InitError () := λ p, (Ok (), drain_output_buffer (Z.to_nat DRAIN_LIMIT) p) in
  _ ← drain;
  _ ← wait_input_ready polls;
  _ ← port_out STATUS_COMMAND_PORT COMMAND_READ_CONFIG;
  config ← wait_output_ready polls;
  let new_config := Z.land (Z.lor (Z.lor config CONFIG_KEYBOARD_IRQ_ENABLE) CONFIG_TRANSLATE) (not_w 8 CONFIG_KEYBOARD_CLOCK_DISABLE) in
  _ ← wait_input_ready polls;
  _ ← port_out STATUS_COMMAND_PORT COMMAND_WRITE_CONFIG;
  _ ← wait_input_ready polls;
  _ ← port_out DATA_PORT new_config;
  _ ← wait_input_ready polls;
  _ ← port_out DATA_PORT KEYBOARD_ENABLE_SCANNING;
  _ ← λ p, let '(_, p) := wait_output_ready polls p in (Ok (), p);
  drain.

(** Every scancode the controller has ready, and none of the mouse's. *)
Fixpoint on_irq_loop (n : nat) (p : P) (q : ScancodeQueue) : P * ScancodeQueue :=
  match n with
  | O => (p, q)
  | S n =>
      let '(status, p) := inb STATUS_COMMAND_PORT p in
      if Z.land status STATUS_OUTPUT_FULL =? 0 then (p, q)
      else
        let '(byte, p) := inb DATA_PORT p in
        on_irq_loop n p (if Z.land status STATUS_AUX_DATA =? 0 then (Queue.push q byte).2 else q)
  end.

Definition on_irq (p : P) (q : ScancodeQueue) : P * ScancodeQueue := on_irq_loop (Z.to_nat DRAIN_LIMIT) p q.
End controller.
