(* ===== verification/KeyboardThms.v ===== *)
(** * The keyboard: theorems

    The ring is a queue of 64, however the interrupt and the reader are
    interleaved; every printable character can be typed, and nothing else
    comes out as one. *)

From S2P Require Import Prelude Words Bytes FatFormat Console Keyboard.
Local Open Scope Z_scope.

(** ** What a queue of 64 does *)
Definition fifo (pending : list Z) (e : Event) : option (list Z) :=
  match e with
  | Accepted b => guard (len pending < QUEUE_CAPACITY);; Some (pending ++ [b])
  | Refused _ => guard (len pending = QUEUE_CAPACITY);; Some pending
  | Got v => match pending with b :: rest => guard (b = v);; Some rest | [] => None end
  | Nothing => guard (pending = []);; Some []
  | Push _ | Pop => None
  end.

Fixpoint fifo_run (pending : list Z) (l : list Event) : option (list Z) :=
  match l with
  | [] => Some pending
  | e :: l => pending' ← fifo pending e; fifo_run pending' l
  end.

Lemma fifo_run_app pending l l' : fifo_run pending (l ++ l') = pending' ← fifo_run pending l; fifo_run pending' l'.
Proof.
  revert pending. induction l as [|e l IH]; intros pending; [done|]. simpl.
  destruct (fifo pending e); [apply IH|done].
Qed.

(** What each side asked for and was told. *)
Definition push_calls : list Event → list Z := omap (λ e, match e with Push b => Some b | _ => None end).
Definition push_answers : list Event → list Event :=
  omap (λ e, match e with Accepted _ | Refused _ => Some e | _ => None end).
Definition pushed : list Event → list Z :=
  omap (λ e, match e with Accepted b | Refused b => Some b | _ => None end).
Definition pop_calls : list Event → list () := omap (λ e, match e with Pop => Some () | _ => None end).
Definition pop_answers : list Event → list Event :=
  omap (λ e, match e with Got _ | Nothing => Some e | _ => None end).

(** Every effect comes after the call that has it began, and every answer
    after the effect it tells of. *)
Definition in_time (trace effects : list (list Event)) : Prop :=
  let t := concat trace in
  let e := concat effects in
  push_answers t `prefix_of` push_answers e ∧ pushed e `prefix_of` push_calls t ∧
  pop_answers t `prefix_of` pop_answers e ∧ (length (pop_answers e) ≤ length (pop_calls t))%nat.

Definition start : Shared := {| queue := Queue.new; producer := PIdle; consumer := CIdle |}.

(** ** The ring's state *)
Definition holds (q : ScancodeQueue) (taken : Z) (pending : list Z) : Prop :=
  0 ≤ taken ∧ len pending ≤ QUEUE_CAPACITY ∧ length (slots q) = Z.to_nat QUEUE_CAPACITY ∧
  head q = wrap 64 taken ∧ tail q = wrap 64 (taken + len pending) ∧
  ∀ i b, pending !! i = Some b → slots q !! Z.to_nat ((taken + Z.of_nat i) mod QUEUE_CAPACITY) = Some b.

Lemma wrap_slot z : wrap 64 z mod QUEUE_CAPACITY = z mod QUEUE_CAPACITY.
Proof.
  unfold wrap, QUEUE_CAPACITY. change (2 ^ 64) with (64 * 2 ^ 58).
  rewrite Z.rem_mul_r by lia. rewrite Z.mul_comm, Z.mod_add by lia. apply Z.mod_mod. lia.
Qed.

Lemma wrap_between a b : wrap 64 (wrap 64 a - wrap 64 b) = wrap 64 (a - b).
Proof. unfold wrap. symmetry. apply Zminus_mod. Qed.

Lemma wrap_near n : 0 ≤ n ≤ QUEUE_CAPACITY → wrap 64 n = n.
Proof. unfold QUEUE_CAPACITY. intros. apply Z.mod_small. lia. Qed.

Lemma wrap_next n : wrap 64 (wrap 64 n + 1) = wrap 64 (n + 1).
Proof. apply Zplus_mod_idemp_l. Qed.

Lemma slot_differs a b : a ≠ b → Z.abs (a - b) < QUEUE_CAPACITY → a mod QUEUE_CAPACITY ≠ b mod QUEUE_CAPACITY.
Proof.
  unfold QUEUE_CAPACITY. intros Hne Hn He.
  pose proof (Z.div_mod a 64 ltac:(lia)). pose proof (Z.div_mod b 64 ltac:(lia)). nia.
Qed.

Lemma holds_new : holds Queue.new 0 [].
Proof. split_and!; try done. Qed.

Lemma holds_full q taken pending : holds q taken pending →
  wrap 64 (tail q - head q) = len pending.
Proof.
  intros (? & ? & _ & -> & -> & _). rewrite wrap_between. replace (taken + len pending - taken) with (len pending) by lia.
  apply wrap_near. unfold len in *. lia.
Qed.

Lemma holds_empty q taken pending : holds q taken pending → head q = tail q ↔ pending = [].
Proof.
  intros H. pose proof (holds_full _ _ _ H) as Hf. split.
  - intros He. rewrite He, Z.sub_diag in Hf. destruct pending; [done|]. by unfold len in Hf.
  - intros ->. destruct H as (_ & _ & _ & -> & -> & _). f_equal. unfold len. simpl. lia.
Qed.

Lemma holds_slot q taken b rest : holds q taken (b :: rest) → Queue.slot q (head q) = b.
Proof.
  intros (_ & _ & _ & Hh & _ & Hs). unfold Queue.slot. rewrite Hh, wrap_slot.
  apply nth_lookup_Some. by rewrite <-(Hs O b), Z.add_0_r.
Qed.

Lemma holds_store q taken pending b : holds q taken pending → len pending < QUEUE_CAPACITY →
  holds (Queue.set_slot q (tail q) b) taken pending ∧
  slots (Queue.set_slot q (tail q) b) !! Z.to_nat ((taken + len pending) mod QUEUE_CAPACITY) = Some b.
Proof.
  intros (H0 & Hl & Hn & Hh & Ht & Hs) Hr. unfold Queue.set_slot. simpl. rewrite Ht, wrap_slot.
  pose proof (Z.mod_pos_bound (taken + len pending) QUEUE_CAPACITY ltac:(done)).
  split; [|apply list_lookup_insert_eq; lia]. split_and!; try done.
  { simpl. by rewrite length_insert. }
  intros i x Hi. simpl. pose proof (lookup_lt_Some _ _ _ Hi). rewrite list_lookup_insert_ne; [by apply Hs|].
  pose proof (Z.mod_pos_bound (taken + Z.of_nat i) QUEUE_CAPACITY ltac:(done)). unfold len in *.
  pose proof (slot_differs (taken + Z.of_nat (length pending)) (taken + Z.of_nat i)). lia.
Qed.

Lemma holds_publish q taken pending b : holds q taken pending → len pending < QUEUE_CAPACITY →
  slots q !! Z.to_nat ((taken + len pending) mod QUEUE_CAPACITY) = Some b →
  holds (Queue.set_tail q (wrap 64 (tail q + 1))) taken (pending ++ [b]).
Proof.
  intros (H0 & Hl & Hn & Hh & Ht & Hs) Hr Hb.
  assert (len (pending ++ [b]) = len pending + 1) as Hlen by (unfold len; rewrite length_app; simpl; lia).
  split_and!; try done; [lia| |].
  - simpl. rewrite Ht, wrap_next, Hlen. f_equal. lia.
  - intros i x Hi. simpl. apply lookup_app_Some in Hi as [Hi|[Hge Hi]]; [by apply Hs|].
    apply list_lookup_singleton_Some in Hi as [Hi <-]. rewrite <-Hb. do 3 f_equal. unfold len in *. lia.
Qed.

Lemma holds_release q taken b rest : holds q taken (b :: rest) →
  holds (Queue.set_head q (wrap 64 (head q + 1))) (taken + 1) rest.
Proof.
  intros (H0 & Hl & Hn & Hh & Ht & Hs). unfold len in *. simpl in Hl, Ht. split_and!; try done.
  1: lia.
  1: unfold len; lia.
  - simpl. by rewrite Hh, wrap_next.
  - simpl. rewrite Ht. unfold len. f_equal. lia.
  - intros i x Hi. simpl. rewrite <-(Hs (S i) x Hi). do 3 f_equal. lia.
Qed.

(** ** Between two steps

    [taken] is how many scancodes were ever taken, [pending] are the ones in
    the ring: the indices are these numbers where they wrap. *)
Definition producer_ok (q : ScancodeQueue) (taken : Z) (pending : list Z) (p : Producer) (t e : list Event) : Prop :=
  match p with
  | PIdle => push_answers e = push_answers t ∧ pushed e = push_calls t
  | PTail b i => i = tail q ∧ push_answers e = push_answers t ∧ pushed e ++ [b] = push_calls t
  | PHead b i h => i = tail q ∧
      if decide (wrap 64 (i - h) = QUEUE_CAPACITY)
      then push_answers e = push_answers t ++ [Refused b] ∧ pushed e = push_calls t
      else len pending < QUEUE_CAPACITY ∧ push_answers e = push_answers t ∧ pushed e ++ [b] = push_calls t
  | PStored b i => i = tail q ∧ len pending < QUEUE_CAPACITY ∧
      slots q !! Z.to_nat ((taken + len pending) mod QUEUE_CAPACITY) = Some b ∧
      push_answers e = push_answers t ∧ pushed e ++ [b] = push_calls t
  end.

Definition consumer_ok (q : ScancodeQueue) (pending : list Z) (c : Consumer) (t e : list Event) : Prop :=
  match c with
  | CIdle => pop_answers e = pop_answers t ∧ length (pop_answers e) = length (pop_calls t)
  | CHead h => h = head q ∧ pop_answers e = pop_answers t ∧ S (length (pop_answers e)) = length (pop_calls t)
  | CTail h i => h = head q ∧
      if decide (h = i) then pop_answers e = pop_answers t ++ [Nothing] ∧ length (pop_answers e) = length (pop_calls t)
      else pending ≠ [] ∧ pop_answers e = pop_answers t ∧ S (length (pop_answers e)) = length (pop_calls t)
  | CRead h v => h = head q ∧ (∃ rest, pending = v :: rest) ∧
      pop_answers e = pop_answers t ∧ S (length (pop_answers e)) = length (pop_calls t)
  end.

Record between (s : Shared) (taken : Z) (pending : list Z) (t e : list Event) : Prop := {
  between_holds : holds (queue s) taken pending;
  between_run : fifo_run [] e = Some pending;
  between_producer : producer_ok (queue s) taken pending (producer s) t e;
  between_consumer : consumer_ok (queue s) pending (consumer s) t e
}.

Lemma between_in_time s taken pending t e : between s taken pending (concat t) (concat e) → in_time t e.
Proof.
  intros [_ _ Hp Hc]. unfold in_time. split_and!.
  - destruct (producer s); simpl in Hp; try case_decide; destruct_and! Hp;
      repeat match goal with H : push_answers (concat e) = _ |- _ => rewrite H end; try done; by eexists.
  - destruct (producer s); simpl in Hp; try case_decide; destruct_and! Hp;
      repeat match goal with H : _ = push_calls _ |- _ => rewrite <-H end; try done; by eexists.
  - destruct (consumer s); simpl in Hc; try case_decide; destruct_and! Hc;
      repeat match goal with H : pop_answers (concat e) = _ |- _ => rewrite H end; try done; by eexists.
  - destruct (consumer s); simpl in Hc; try case_decide; destruct_and! Hc; lia.
Qed.

(** What one side does leaves the other side's account as it was. *)
Lemma consumer_frame q q' pending pending' c t t' e e' :
  consumer_ok q pending c t e → head q' = head q → pending `prefix_of` pending' →
  pop_answers t' = pop_answers t → pop_calls t' = pop_calls t → pop_answers e' = pop_answers e →
  consumer_ok q' pending' c t' e'.
Proof.
  intros H Hh [more ->] Ht Hc He. destruct c; simpl in *; rewrite Ht, Hc, He, ?Hh; [done..| |].
  - case_decide; [done|]. destruct_and! H. split_and!; try done. by destruct pending.
  - destruct H as (? & [rest ->] & ? & ?). split_and!; try done. by exists (rest ++ more).
Qed.

Lemma producer_frame q q' taken taken' pending pending' p t t' e e' :
  producer_ok q taken pending p t e → tail q' = tail q → slots q' = slots q →
  len pending' ≤ len pending → taken' + len pending' = taken + len pending →
  push_answers t' = push_answers t → push_calls t' = push_calls t →
  push_answers e' = push_answers e → pushed e' = pushed e →
  producer_ok q' taken' pending' p t' e'.
Proof.
  intros H Ht Hs Hl Hn Ha Hc He Hp.
  destruct p; simpl in *; rewrite ?Ha, ?Hc, ?He, ?Hp, ?Ht, ?Hs, ?Hn; [done..| |].
  - case_decide; [done|]. destruct_and! H. split_and!; try done. lia.
  - destruct_and! H. split_and!; try done. lia.
Qed.

Ltac projections := unfold push_calls, push_answers, pushed, pop_calls, pop_answers in *;
  rewrite ?omap_app; simpl; rewrite ?app_nil_r.

Lemma producer_step q p c taken pending t e ev q' p' :
  between {| queue := q; producer := p; consumer := c |} taken pending t e →
  Step {| queue := q; producer := p; consumer := c |} ev {| queue := q'; producer := p'; consumer := c |} →
  p ≠ p' →
  ∃ taken' pending' eff, between {| queue := q'; producer := p'; consumer := c |} taken' pending' (t ++ ev) (e ++ eff).
Proof.
  intros [Hh Hr Hp Hc] Hstep Hne. simpl in *. inversion Hstep; subst; simpl in *; try done.
  - exists taken, pending, []. split; simpl; [done|by rewrite app_nil_r| |].
    + destruct Hp as [Ha Hp]. split; [done|]. projections. by rewrite Ha, Hp.
    + eapply consumer_frame; [done..| | |]; by projections.
  - destruct Hp as (-> & Ha & Hp). pose proof (holds_full _ _ _ Hh) as Hf.
    destruct (decide (len pending = QUEUE_CAPACITY)) as [Hfull|Hroom].
    + exists taken, pending, [Refused b]. split; simpl; [done| | |].
      * rewrite fifo_run_app, Hr. simpl. by rewrite option_guard_True.
      * split; [done|]. rewrite decide_True by congruence. projections. by rewrite Ha, <-Hp.
      * eapply consumer_frame; [done..| | |]; by projections.
    + exists taken, pending, []. split; simpl; [done|by rewrite app_nil_r| |].
      * split; [done|]. rewrite decide_False by congruence. projections.
        split_and!; try done. destruct Hh as (_ & ? & _). lia.
      * eapply consumer_frame; [done..| | |]; by projections.
  - destruct Hp as (-> & Hp). rewrite decide_True in Hp by done. destruct Hp as [Ha Hp].
    exists taken, pending, []. split; simpl; [done|by rewrite app_nil_r| |].
    + projections. by rewrite Ha, Hp.
    + eapply consumer_frame; [done..| | |]; by projections.
  - destruct Hp as (-> & Hp). rewrite decide_False in Hp by done. destruct Hp as (Hl & Ha & Hp).
    destruct (holds_store q taken pending b Hh Hl) as [Hh' Hb].
    exists taken, pending, []. split; simpl; [done|by rewrite app_nil_r| |].
    + split_and!; try done; by projections.
    + eapply consumer_frame; [done..| | |]; by projections.
  - destruct Hp as (-> & Hl & Hb & Ha & Hp).
    exists taken, (pending ++ [b]), [Accepted b]. split; simpl; [by apply holds_publish| | |].
    + rewrite fifo_run_app, Hr. simpl. by rewrite option_guard_True.
    + projections. by rewrite Ha, <-Hp.
    + eapply consumer_frame; [done|done|by eexists|..]; by projections.
Qed.

Lemma consumer_step q p c taken pending t e ev q' c' :
  between {| queue := q; producer := p; consumer := c |} taken pending t e →
  Step {| queue := q; producer := p; consumer := c |} ev {| queue := q'; producer := p; consumer := c' |} →
  c ≠ c' →
  ∃ taken' pending' eff, between {| queue := q'; producer := p; consumer := c' |} taken' pending' (t ++ ev) (e ++ eff).
Proof.
  intros [Hh Hr Hp Hc] Hstep Hne. simpl in *. inversion Hstep; subst; simpl in *; try done.
  - exists taken, pending, []. split; simpl; [done|by rewrite app_nil_r| |].
    + eapply producer_frame; [done..| | | |]; by projections.
    + destruct Hc as [Ha Hc]. projections. rewrite length_app. simpl. split_and!; try done. lia.
  - destruct Hc as (-> & Ha & Hc). pose proof (holds_empty _ _ _ Hh) as Hemp.
    destruct (decide (head q' = tail q')) as [He|He].
    + exists taken, pending, [Nothing]. apply Hemp in He as Hnil. split; simpl; [done| | |].
      * rewrite fifo_run_app, Hr, Hnil. done.
      * eapply producer_frame; [done..| | | |]; by projections.
      * split; [done|]. rewrite decide_True by done. projections. rewrite length_app. simpl. split; [by rewrite Ha|lia].
    + exists taken, pending, []. split; simpl; [done|by rewrite app_nil_r| |].
      * eapply producer_frame; [done..| | | |]; by projections.
      * split; [done|]. rewrite decide_False by done. projections. split; [tauto|done].
  - destruct Hc as (-> & Hc). rewrite decide_True in Hc by done. destruct Hc as [Ha Hc].
    exists taken, pending, []. split; simpl; [done|by rewrite app_nil_r| |].
    + eapply producer_frame; [done..| | | |]; by projections.
    + by projections.
  - destruct Hc as (-> & Hc). rewrite decide_False in Hc by done. destruct Hc as (Hne' & Ha & Hc).
    destruct pending as [|v rest]; [done|]. rewrite (holds_slot _ _ _ _ Hh).
    exists taken, (v :: rest), []. split; simpl; [done|by rewrite app_nil_r| |].
    + eapply producer_frame; [done..| | | |]; by projections.
    + split_and!; [done|by eexists|by projections..].
  - destruct Hc as (-> & (rest & ->) & Ha & Hc).
    exists (taken + 1), rest, [Got v]. split; simpl; [by eapply holds_release| | |].
    + rewrite fifo_run_app, Hr. simpl. by rewrite option_guard_True.
    + eapply producer_frame; [done|done|done|unfold len; simpl; lia|unfold len; simpl; lia|..]; by projections.
    + projections. rewrite length_app. simpl. split; [by rewrite Ha|lia].
Qed.

Lemma between_start : between start 0 [] [] [].
Proof. split; [apply holds_new|done..]. Qed.

Lemma step_between s taken pending t e ev s' :
  between s taken pending t e → Step s ev s' →
  ∃ taken' pending' eff, between s' taken' pending' (t ++ ev) (e ++ eff).
Proof.
  intros Hb Hstep. destruct Hstep;
    first [by eapply producer_step; [done|by constructor|done]|by eapply consumer_step; [done|by constructor|done]].
Qed.

Lemma in_time_snoc (trace effects : list (list Event)) ev eff :
  length effects = length trace →
  (∀ k, in_time (firstn k trace) (firstn k effects)) → in_time (trace ++ [ev]) (effects ++ [eff]) →
  ∀ k, in_time (firstn k (trace ++ [ev])) (firstn k (effects ++ [eff])).
Proof.
  intros Hlen Hk Hall k. destruct (decide (k ≤ length trace)%nat) as [Hle|Hgt].
  - rewrite !firstn_app. replace (k - length trace)%nat with 0%nat by lia.
    replace (k - length effects)%nat with 0%nat by lia. rewrite !app_nil_r. apply Hk.
  - rewrite !firstn_all2; [done|rewrite length_app; simpl; lia..].
Qed.

Lemma steps_between s trace s' : Steps s trace s' → s = start →
  ∃ effects taken pending, length effects = length trace ∧
    between s' taken pending (concat trace) (concat effects) ∧
    ∀ k, in_time (firstn k trace) (firstn k effects).
Proof.
  induction 1 as [s|s s1 s2 trace ev _ IH Hstep]; intros ->.
  { exists [], 0, []. split_and!; [done|apply between_start|]. intros k. rewrite firstn_nil. by split_and!. }
  destruct (IH eq_refl) as (effects & taken & pending & Hlen & Hb & Hk).
  destruct (step_between _ _ _ _ _ _ _ Hb Hstep) as (taken' & pending' & eff & Hb').
  assert (between s2 taken' pending' (concat (trace ++ [ev])) (concat (effects ++ [eff]))) as Hb2
    by by rewrite !concat_app; simpl; rewrite !app_nil_r.
  exists (effects ++ [eff]), taken', pending'. split_and!; [by rewrite !length_app, Hlen|done|].
  apply in_time_snoc; [done|done|]. by eapply between_in_time.
Qed.

(** [push] and [pop] are their own steps, when nothing comes between. *)
Lemma push_steps q b c : ∃ trace,
  Steps {| queue := q; producer := PIdle; consumer := c |} trace
    {| queue := (Queue.push q b).2; producer := PIdle; consumer := c |} ∧
  concat trace = [Push b; if (Queue.push q b).1 then Accepted b else Refused b].
Proof.
  unfold Queue.push. destruct (Z.eqb_spec (wrap 64 (tail q - head q)) QUEUE_CAPACITY) as [He|He]; simpl.
  - exists [[Push b]; []; [Refused b]]. split; [|done].
    eapply (steps_snoc _ _ _ [_; _]); [|by apply push_full].
    eapply (steps_snoc _ _ _ [_]); [|apply push_head]. eapply (steps_snoc _ _ _ []); [constructor|apply push_tail].
  - exists [[Push b]; []; []; [Accepted b]]. split; [|done].
    eapply (steps_snoc _ _ _ [_; _; _]); [|apply (push_publish (Queue.set_slot q (tail q) b))].
    eapply (steps_snoc _ _ _ [_; _]); [|by apply push_store].
    eapply (steps_snoc _ _ _ [_]); [|apply push_head]. eapply (steps_snoc _ _ _ []); [constructor|apply push_tail].
Qed.

Lemma pop_steps q p : ∃ trace,
  Steps {| queue := q; producer := p; consumer := CIdle |} trace
    {| queue := (Queue.pop q).2; producer := p; consumer := CIdle |} ∧
  concat trace = [Pop; match (Queue.pop q).1 with Some v => Got v | None => Nothing end].
Proof.
  unfold Queue.pop. destruct (Z.eqb_spec (head q) (tail q)) as [He|He]; simpl.
  - exists [[Pop]; []; [Nothing]]. split; [|done].
    eapply (steps_snoc _ _ _ [_; _]); [|by apply pop_empty].
    eapply (steps_snoc _ _ _ [_]); [|apply pop_tail]. eapply (steps_snoc _ _ _ []); [constructor|apply pop_head].
  - exists [[Pop]; []; []; [Got (Queue.slot q (head q))]]. split; [|done].
    eapply (steps_snoc _ _ _ [_; _; _]); [|apply pop_release].
    eapply (steps_snoc _ _ _ [_; _]); [|by apply pop_read].
    eapply (steps_snoc _ _ _ [_]); [|apply pop_tail]. eapply (steps_snoc _ _ _ []); [constructor|apply pop_head].
Qed.

(** C24: However the interrupt that pushes scancodes and the reader that pops
    them are interleaved, access by access, from the ring's beginning: each
    call has its effect at one moment between its first access and its
    answer, and in the order of these moments the ring is a first-in
    first-out queue of 64, also when its indices have wrapped. It refuses a
    scancode exactly when 64 are waiting at that moment, answers nothing
    exactly when none is, and never loses, repeats or reorders one. Calls
    that nothing interrupts are [push] and [pop]. *)
Theorem scancode_queue_fifo :
  (∀ trace s, Steps start trace s →
    ∃ effects pending, length effects = length trace ∧ fifo_run [] (concat effects) = Some pending ∧
      ∀ k, in_time (firstn k trace) (firstn k effects)) ∧
  (∀ q b c, ∃ trace,
    Steps {| queue := q; producer := PIdle; consumer := c |} trace
      {| queue := (Queue.push q b).2; producer := PIdle; consumer := c |} ∧
    concat trace = [Push b; if (Queue.push q b).1 then Accepted b else Refused b]) ∧
  (∀ q p, ∃ trace,
    Steps {| queue := q; producer := p; consumer := CIdle |} trace
      {| queue := (Queue.pop q).2; producer := p; consumer := CIdle |} ∧
    concat trace = [Pop; match (Queue.pop q).1 with Some v => Got v | None => Nothing end]).
Proof.
  split_and!; [|apply push_steps|apply pop_steps]. intros trace s Hs.
  destruct (steps_between _ _ _ Hs eq_refl) as (effects & taken & pending & Hlen & [_ Hrun _ _] & Hk). eauto.
Qed.

(** ** Typing *)
Definition printable (c : Z) : bool := is_ascii_graphic c || (c =? 32).

(** The keys a stream of scancodes spells. *)
Fixpoint spells (d : Decoder) (codes : list Z) : list ConsoleKey * Decoder :=
  match codes with
  | [] => ([], d)
  | b :: codes => let '(key, d) := Decode.feed d b in let '(keys, d) := spells d codes in (option_list key ++ keys, d)
  end.

Lemma spells_app d l l' :
  spells d (l ++ l') = ((spells d l).1 ++ (spells (spells d l).2 l').1, (spells (spells d l).2 l').2).
Proof.
  revert d. induction l as [|b l IH]; intros d; simpl; [by destruct (spells d l')|].
  destruct (Decode.feed d b) as [key d1]. rewrite IH. destruct (spells d1 l) as [k1 d2]. simpl.
  destruct (spells d2 l'). simpl. by rewrite app_assoc.
Qed.

(** A key pressed and let go, with Shift held where the character needs it. *)
Definition strokes (c : Z) : list Z :=
  match list_find (λ k, k.1 = c) KEY_TABLE with
  | Some (i, _) => [Z.of_nat i; Z.of_nat i + 128]
  | None =>
      match list_find (λ k, k.2 = c) KEY_TABLE with
      | Some (i, _) => [SC_LEFT_SHIFT; Z.of_nat i; Z.of_nat i + 128; SC_LEFT_SHIFT + 128]
      | None => []
      end
  end.

Lemma printable_in c : printable c = true ↔ c ∈ seqZ 32 95.
Proof.
  rewrite in_seqZ. unfold printable, is_ascii_graphic, in_range.
  rewrite orb_true_iff, andb_true_iff, !Z.leb_le, Z.eqb_eq. lia.
Qed.

Lemma strokes_spell c : printable c = true →
  Forall (in_width 8) (strokes c) ∧ spells Decode.new (strokes c) = ([Char c], Decode.new).
Proof.
  intros Hc%printable_in. revert c Hc. apply Forall_forall.
  change (Forall (λ c, Forall (in_width 8) (strokes c) ∧ spells Decode.new (strokes c) = ([Char c], Decode.new))
    (seqZ 32 95)).
  vm_compute (seqZ 32 95).
  repeat (constructor; [split; [vm_compute; repeat (constructor; [done|]); constructor|vm_compute; reflexivity]|]).
  constructor.
Qed.

Lemma key_table_printable : Forall (λ k, k.1 = 0 ∨ printable k.1 = true ∧ printable k.2 = true) KEY_TABLE.
Proof. repeat (constructor; [first [by left|by right]|]). constructor. Qed.

Lemma feed_printable d b c d' : Decode.feed d b = (Some (Char c), d') → printable c = true.
Proof.
  unfold Decode.feed. repeat case_match; intros; simplify_eq; try done;
    by match goal with H : KEY_TABLE !! _ = Some _ |- _ =>
      apply (Forall_lookup_1 _ _ _ _ key_table_printable) in H as [He|[? ?]]; [simpl in *; subst|] end.
Qed.

Lemma spells_printable d l c : Char c ∈ (spells d l).1 → printable c = true.
Proof.
  revert d. induction l as [|b l IH]; intros d; simpl; [by intros ?%not_elem_of_nil|].
  destruct (Decode.feed d b) as [key d1] eqn:E. specialize (IH d1). destruct (spells d1 l) as [keys d2]. simpl in *.
  rewrite elem_of_app. intros [Hk|Hk]; [|auto]. destruct key as [k|]; simpl in Hk; [|by apply not_elem_of_nil in Hk].
  apply list_elem_of_singleton in Hk as <-. by eapply feed_printable.
Qed.

(** What a read leaves, and that it ends. *)
Lemma holds_pop q taken pending : holds q taken pending →
  match pending with
  | [] => Queue.pop q = (None, q)
  | b :: rest => ∃ q', Queue.pop q = (Some b, q') ∧ holds q' (taken + 1) rest
  end.
Proof.
  intros H. pose proof (holds_empty _ _ _ H) as He. unfold Queue.pop.
  destruct pending as [|b rest].
  - by rewrite (proj2 (Z.eqb_eq _ _) (proj2 He eq_refl)).
  - destruct (Z.eqb_spec (head q) (tail q)) as [Heq|_]; [by apply He in Heq|].
    rewrite (holds_slot _ _ _ _ H). eexists. split; [done|]. by eapply holds_release.
Qed.

Lemma read_key_spells fuel d q taken pending : holds q taken pending → (length pending < fuel)%nat →
  ∃ key d' q' taken' rest, read_key_from fuel d q = Some (key, d', q') ∧ holds q' taken' rest ∧
    (length rest ≤ length pending)%nat ∧
    (key = None → rest = []) ∧
    spells d pending = (option_list key ++ (spells d' rest).1, (spells d' rest).2).
Proof.
  revert d q taken pending. induction fuel as [|fuel IH]; intros d q taken pending H Hf; [lia|].
  pose proof (holds_pop _ _ _ H) as Hp. simpl. destruct pending as [|b pending].
  - rewrite Hp. by exists None, d, q, taken, [].
  - destruct Hp as (q1 & -> & H1). simpl in *. destruct (Decode.feed d b) as [[key|] d1].
    + exists (Some key), d1, q1, (taken + 1), pending. split_and!; [done|done|lia|done|]. by destruct (spells d1 pending).
    + destruct (IH d1 q1 _ _ H1 ltac:(lia)) as (key & d' & q' & taken' & rest & Hr & Hh & Hl & Hn & Hs).
      exists key, d', q', taken', rest. split_and!; [done|done|lia|done|]. by destruct (spells d1 pending).
Qed.

Lemma text_strokes (text : list Z) : forallb printable text = true →
  Forall (in_width 8) (text ≫= strokes) ∧ spells Decode.new (text ≫= strokes) = (Char <$> text, Decode.new).
Proof.
  induction text as [|c text IH]; [done|]. intros [Hc Ht]%andb_prop. rewrite bind_cons.
  destruct (IH Ht) as [Hw He]. destruct (strokes_spell c Hc) as [Hcw Hce].
  split; [by apply Forall_app|]. rewrite spells_app, Hce. simpl. by rewrite He.
Qed.

(** C25: Every text of printable ASCII can be typed: the strokes of its
    characters, each with Shift where it needs it, are scancodes the decoder
    spells as exactly these characters, and a program that reads the keys is
    given their codes. No scancodes at all, from no state of the decoder,
    spell another character. Reading keys takes from the ring exactly what it
    holds, in order, one key at a call and a missing key only when the ring
    is empty, and always ends. *)
Theorem keyboard_typing :
  (∀ text : list Z, forallb printable text = true →
    Forall (in_width 8) (text ≫= strokes) ∧
    spells Decode.new (text ≫= strokes) = (Char <$> text, Decode.new) ∧
    (λ k, encode (Some k)) <$> (spells Decode.new (text ≫= strokes)).1 = text) ∧
  (∀ d codes c, Char c ∈ (spells d codes).1 → printable c = true) ∧
  (∀ fuel d q taken pending, holds q taken pending → (length pending < fuel)%nat →
    ∃ key d' q' taken' rest, read_key_from fuel d q = Some (key, d', q') ∧ holds q' taken' rest ∧
      (length rest ≤ length pending)%nat ∧ (key = None → rest = []) ∧
      spells d pending = (option_list key ++ (spells d' rest).1, (spells d' rest).2)).
Proof.
  split_and!; [|apply spells_printable|apply read_key_spells].
  intros text Ht. destruct (text_strokes text Ht) as [Hw ->]. split_and!; [done|done|]. simpl.
  rewrite <-list_fmap_compose. rewrite <-(list_fmap_id text) at 2. apply list_fmap_ext. intros i c Hi. simpl.
  apply forallb_forall with (x := c) in Ht; [|by eapply list_elem_of_In, list_elem_of_lookup_2].
  unfold printable in Ht. by rewrite Ht.
Qed.


(** The reader looks in while the interrupt is at work. *)
Lemma scancode_queue_fifo_witness : ∃ effects pending,
  length effects = 3%nat ∧ fifo_run [] (concat effects) = Some pending ∧
  ∀ k, in_time (firstn k [[Push 30]; [Pop]; []]) (firstn k effects).
Proof.
  apply (proj1 scancode_queue_fifo [[Push 30]; [Pop]; []]
    {| queue := Queue.new; producer := PHead 30 0 0; consumer := CHead 0 |}).
  eapply (steps_snoc _ _ _ [_; _]); [|apply (push_head Queue.new)].
  eapply (steps_snoc _ _ _ [_]); [|apply (pop_head Queue.new)].
  eapply (steps_snoc _ _ _ []); [constructor|apply (push_tail Queue.new)].
Defined.

(** [ls A], typed. *)
Lemma keyboard_typing_witness :
  spells Decode.new ([108; 115; 32; 65] ≫= strokes) = (Char <$> [108; 115; 32; 65], Decode.new).
Proof. apply (proj1 keyboard_typing [108; 115; 32; 65]). reflexivity. Defined.
