(* ===== verification/Calls.v ===== *)
(** * System calls

    Models the kernel's side of [kernel/src/user.rs], the part of
    [arch/x86_64/src/syscall.rs] that dispatches, and
    [rust_interrupt_handler] of [arch/x86_64/src/interrupts.rs] for what
    arrives while a process has the CPU.  Memory of a process is reached the
    way the kernel reaches it, through the tables that are active: an
    address that resolves to nothing, or to a page that may not be written,
    is a page fault in ring 0, and that stops the machine.

    A system call runs to its end, or up to a [switch]; [settle] goes on
    behind it until a process is in ring 3 again or the kernel has the CPU
    to itself.  What only goes to the kernel's log is left out. *)

From Stdlib Require Import String.
From S2P Require Import Prelude Words PhysMem FrameAlloc Bytes Ipc FatFormat FatVolume Memory HalPaging PageTables PageWalk PageMapThms Stacks Process Scheduler Switching Events Fs Console.
Local Open Scope Z_scope.

(** ** Registers *)
Record SyscallFrame := {
  rax : Z; rdi : Z; rsi : Z; rdx : Z; r10 : Z; r8 : Z; r9 : Z; user_rip : Z; user_rflags : Z
}.

Definition with_rax (f : SyscallFrame) (v : Z) : SyscallFrame :=
  {| rax := v; rdi := rdi f; rsi := rsi f; rdx := rdx f; r10 := r10 f; r8 := r8 f; r9 := r9 f;
     user_rip := user_rip f; user_rflags := user_rflags f |}.
Definition with_rdx (f : SyscallFrame) (v : Z) : SyscallFrame :=
  {| rax := rax f; rdi := rdi f; rsi := rsi f; rdx := v; r10 := r10 f; r8 := r8 f; r9 := r9 f;
     user_rip := user_rip f; user_rflags := user_rflags f |}.

Inductive Call := Log | Exit | Yield | Send | Recv | CallOpen | Read | Close | WriteFile | List | ConsoleWrite | ConsoleRead.

Module CallNumber.
Definition from (number : Z) : option Call :=
  match number with
  | 0 => Some Log | 1 => Some Exit | 2 => Some Yield | 3 => Some Send | 4 => Some Recv | 5 => Some CallOpen
  | 6 => Some Read | 7 => Some Close | 8 => Some WriteFile | 9 => Some List | 10 => Some ConsoleWrite
  | 11 => Some ConsoleRead | _ => None
  end.
End CallNumber.

(** Each [i64], as the [u64] that goes into [rax]. *)
Definition ERR_UNKNOWN_CALL : Z := -1.
Definition ERR_BAD_ARGUMENT : Z := -2.
Definition ERR_NO_PERMISSION : Z := -3.
Definition ERR_MAILBOX_FULL : Z := -4.
Definition ERR_NO_SUCH_PROCESS : Z := -5.
Definition ERR_WOULD_WAIT_FOR_EVER : Z := -6.
Definition ERR_BAD_DESCRIPTOR : Z := -7.
Definition ERR_TOO_MANY_OPEN : Z := -8.
Definition ERR_NO_SUCH_FILE : Z := -9.
Definition ERR_FILE_IS_OPEN : Z := -10.
Definition ERR_VOLUME_FULL : Z := -11.
Definition ERR_DISK : Z := -12.

Definition MAX_NAME : Z := 12.
Definition MAX_LOG : Z := 4096.
Definition MAX_READ : Z := 4096.
Definition MAX_WRITE : Z := MAX_FILE_CLUSTERS * SECTOR_BYTES.
Definition ENTRY_BYTES : Z := 20.
Definition ENTRY_NAME : Z := 0.
Definition ENTRY_NAME_LEN : Z := 12.
Definition ENTRY_ATTRIBUTES : Z := 12.
Definition ENTRY_SIZE : Z := 16.

(** One directory entry as a program is given it. *)
Definition encode_entry (entry : DirectoryEntry) : may (list Z) :=
  let record := replicate (Z.to_nat ENTRY_BYTES) 0 in
  let nm := name entry in
  let taking := Z.min (len nm) ENTRY_NAME_LEN in
  front ← expect (slice nm 0 taking);
  record ← expect (copy_at record ENTRY_NAME (ENTRY_NAME + taking) front);
  record ← expect (copy_at record (ENTRY_NAME + taking) (ENTRY_NAME + ENTRY_NAME_LEN)
                     (replicate (Z.to_nat (ENTRY_NAME_LEN - taking)) 32));
  record ← expect (set_index record ENTRY_ATTRIBUTES (attributes entry));
  expect (copy_at record ENTRY_SIZE (ENTRY_SIZE + 4) (le_encode 4 (esize entry))).

Definition number_for {E} (err : Fs.FileError E) : Z :=
  match err with
  | Fs.NoDisk => ERR_DISK
  | Fs.FBadName => ERR_BAD_ARGUMENT
  | Fs.NoSuchFile => ERR_NO_SUCH_FILE
  | Fs.FIsADirectory => ERR_NO_SUCH_FILE
  | Fs.Open => ERR_FILE_IS_OPEN
  | Fs.NotOurDisk => ERR_NO_PERMISSION
  | Fs.FReading _ => ERR_DISK
  | Fs.FWriting (Full _ _) => ERR_VOLUME_FULL
  | Fs.FWriting (TooManyClusters _) => ERR_VOLUME_FULL
  | Fs.FWriting DirectoryFull => ERR_VOLUME_FULL
  | Fs.FWriting _ => ERR_DISK
  end.

(** ** Memory of a process, through the tables at [root] *)
Definition physical (a : Access) (va : Z) : Z := a_base a + va mod a_size a.

Fixpoint read_bytes {E} (m : Mem) (root ptr : Z) (n : nat) : res E (list Z) :=
  match n with
  | O => Ok []
  | S n =>
      a ← expect (resolve root m ptr);
      rest ← read_bytes m root (ptr + 1) n;
      Ok (Ram.byte m (physical a ptr) :: rest)
  end.
Definition read_user {E} (m : Mem) (root ptr n : Z) : res E (list Z) := read_bytes m root ptr (Z.to_nat n).

Fixpoint write_user {E} (m : Mem) (root ptr : Z) (bytes : list Z) : res E Mem :=
  match bytes with
  | [] => Ok m
  | b :: bytes =>
      a ← expect (resolve root m ptr);
      if a_writable a then write_user (Ram.write m (physical a ptr) [b]) root (ptr + 1) bytes else Panic
  end.

(** ** The machine a program runs on *)

(** What a process left in the kernel is doing there: behind the tick that
    took the CPU from it, behind [yield], or in the loop of [recv]. *)
Inductive Handler :=
| Ticking
| Yielding (f : SyscallFrame)
| Receiving (f : SyscallFrame) (running : Running).

Definition hears (h : Handler) : bool := match h with Receiving _ _ => true | _ => false end.

(** How ring 3 has last been entered: for the first time, behind an
    interrupt, or with the answer to a call in its registers. *)
Inductive Entered :=
| FirstTime
| Interrupted
| Answered (f : SyscallFrame).

Section calls.
  Context {D E C : Type} `{!Sectors D E, !Console C} (not_our_disk : E).
  (** What a read that fails half way has put in the front of the program's
      buffer by then: [FatVolume.read_at] does not answer it. *)
  Context (partly : option (Fs.Mounted D) → DirectoryEntry → Z → Z → list Z).
  (** What the keyboard's interrupt does to what the keys come from. *)
  Context (on_irq : Z → C → C).

Record System := {
  kernel : Kernel Handler;
  memory : Mem;
  disk : option (Fs.Mounted D);
  events : Events.Ring;
  console : option C;
  ticks : Z;
  entered : Entered
}.

Definition with_kernel (s : System) (k : Kernel Handler) : System :=
  {| kernel := k; memory := memory s; disk := disk s; events := events s; console := console s; ticks := ticks s; entered := entered s |}.
Definition with_memory (s : System) (m : Mem) : System :=
  {| kernel := kernel s; memory := m; disk := disk s; events := events s; console := console s; ticks := ticks s; entered := entered s |}.
Definition with_disk (s : System) (d : option (Fs.Mounted D)) : System :=
  {| kernel := kernel s; memory := memory s; disk := d; events := events s; console := console s; ticks := ticks s; entered := entered s |}.
Definition with_events (s : System) (r : Events.Ring) : System :=
  {| kernel := kernel s; memory := memory s; disk := disk s; events := r; console := console s; ticks := ticks s; entered := entered s |}.
Definition with_console_state (s : System) (c : option C) : System :=
  {| kernel := kernel s; memory := memory s; disk := disk s; events := events s; console := c; ticks := ticks s; entered := entered s |}.
Definition with_ticks (s : System) (t : Z) : System :=
  {| kernel := kernel s; memory := memory s; disk := disk s; events := events s; console := console s; ticks := t; entered := entered s |}.
Definition with_entered (s : System) (e : Entered) : System :=
  {| kernel := kernel s; memory := memory s; disk := disk s; events := events s; console := console s; ticks := ticks s; entered := e |}.

Definition sched (s : System) : Scheduler Handler := scheduler (kernel s).
Definition with_sched (s : System) (x : Scheduler Handler) : System := with_kernel s (with_scheduler (kernel s) x).

(** Back to ring 3. *)
Definition enter (s : System) (e : Entered) : System := with_entered (with_kernel s (with_control (kernel s) Ring3)) e.
(** [frame.rax = n as u64; return]. *)
Definition answer (s : System) (f : SyscallFrame) (n : Z) : may System := Ok (enter s (Answered (with_rax f (wrap 64 n)))).

Definition read_memory (s : System) (ptr n : Z) : may (list Z) := read_user (memory s) (cr3 (kernel s)) ptr n.
Definition write_memory (s : System) (ptr : Z) (bytes : list Z) : may System :=
  m ← write_user (memory s) (cr3 (kernel s)) ptr bytes; Ok (with_memory s m).

(** An operation of [fs]. *)
Definition on_disk {A} (s : System) (op : dev (option (Fs.Mounted D)) (Fs.FileError E) A)
    (k : System → A → may System) (failed : System → Fs.FileError E → may System) : may System :=
  match op (disk s) with
  | (Ok a, d) => k (with_disk s d) a
  | (Err e, d) => failed (with_disk s d) e
  | (Panic, _) => Panic
  | (Diverge, _) => Diverge
  end.

(** ** Each call, as [serve] answers it *)
Definition call_log (s : System) (f : SyscallFrame) (r : Running) : may System :=
  let '(ptr, n) := (rdi f, rsi f) in
  if negb (running_owns r ptr n) || (MAX_LOG <? n) then answer s f ERR_BAD_ARGUMENT
  else
    bytes ← read_memory s ptr n;
    if utf8_from [] bytes then answer s f n else answer s f ERR_BAD_ARGUMENT.

Definition call_exit (s : System) (f : SyscallFrame) : may System :=
  ev ← Events.record_two (ticks s) (events s) Events.Exited (current (sched s)) (rdi f);
  let s := with_events s ev in
  k ← exit_current (kernel s);
  Ok (with_kernel s k).

Definition call_yield (s : System) (f : SyscallFrame) : may System :=
  k ← switch_to_next (kernel s) (Yielding f);
  let s := with_kernel s k in
  match control k with At _ => Ok s | _ => answer s f 0 end.

Definition call_send (s : System) (f : SyscallFrame) (r : Running) : may System :=
  let '(to, ptr, n) := (rdi f, rsi f, rdx f) in
  if negb (running_owns r ptr n) || (CAPACITY <? n) then answer s f ERR_BAD_ARGUMENT
  else
    message ← read_memory s ptr n;
    match deliver (sched s) to (r_slot r) message with
    | Ok (_, x) => answer (with_sched s x) f n
    | Err Busy => answer s f ERR_MAILBOX_FULL
    | Err NoSuchProcess => answer s f ERR_NO_SUCH_PROCESS
    | Err (Rejected _) => answer s f ERR_BAD_ARGUMENT
    | Panic => Panic
    | Diverge => Diverge
    end.

(** One round of the loop in [recv]. *)
Definition receive (s : System) (f : SyscallFrame) (r : Running) : may System :=
  let '(ptr, capacity) := (rdi f, rsi f) in
  match take_message (sched s) (replicate (Z.to_nat capacity) 0) with
  | Ok (delivery, into, x) =>
      s ← write_memory (with_sched s x) ptr (take (Z.to_nat (dlen delivery)) into);
      answer s (with_rdx f (from delivery)) (dlen delivery)
  | Err (TakeTooLong _) => answer s f ERR_BAD_ARGUMENT
  | Err TakeNothing =>
      '(parked, k) ← wait_for_message (kernel s) (Receiving f r);
      let s := with_kernel s k in
      if parked : bool then Ok s else answer s f ERR_WOULD_WAIT_FOR_EVER
  | Panic => Panic
  | Diverge => Diverge
  end.

Definition call_recv (s : System) (f : SyscallFrame) (r : Running) : may System :=
  let '(ptr, capacity) := (rdi f, rsi f) in
  if negb (running_owns r ptr capacity) then answer s f ERR_BAD_ARGUMENT else receive s f r.

Definition call_open (s : System) (f : SyscallFrame) (r : Running) : may System :=
  let '(ptr, n) := (rdi f, rsi f) in
  if negb (running_owns r ptr n) || (MAX_NAME <? n) then answer s f ERR_BAD_ARGUMENT
  else
    nm ← read_memory s ptr n;
    if negb (utf8_from [] nm) then answer s f ERR_BAD_ARGUMENT
    else
      on_disk s (Fs.find not_our_disk nm)
        (λ s entry,
          '(opened, x) ← with_running (sched s) (λ p, Proc.open_file p {| file := entry; position := 0 |});
          let s := with_sched s x in
          match mjoin opened with
          | Some descriptor => answer s f descriptor
          | None => answer s f ERR_TOO_MANY_OPEN
          end)
        (λ s err, answer s f (number_for err)).

(** Moves the position of an open file. *)
Definition advance (descriptor moved : Z) (p : Process) : () * Process :=
  ((), match Files.at_ (files p) descriptor with
       | Some o => with_files p (Files.set_at (files p) descriptor
                     {| file := file o; position := saturating_add 32 (position o) (wrap 32 moved) |})
       | None => p
       end).

Definition call_read (s : System) (f : SyscallFrame) (r : Running) : may System :=
  let '(descriptor, ptr, n) := (rdi f, rsi f, rdx f) in
  if negb (owns_writable r ptr n) || (MAX_READ <? n) then answer s f ERR_BAD_ARGUMENT
  else
    '(open, x) ← with_running (sched s) (λ p, (Proc.open_at p descriptor, p));
    let s := with_sched s x in
    match mjoin open with
    | None => answer s f ERR_BAD_DESCRIPTOR
    | Some open =>
        on_disk s (Fs.read_at not_our_disk (file open) (position open) (replicate (Z.to_nat n) 0))
          (λ s '(read, into),
            s ← write_memory s ptr (take (Z.to_nat read) into);
            '(_, x) ← with_running (sched s) (advance descriptor read);
            answer (with_sched s x) f read)
          (λ s' err,
            s ← write_memory s' ptr (take (Z.to_nat n) (partly (disk s) (file open) (position open) n));
            answer s f (number_for err))
    end.

Definition call_close (s : System) (f : SyscallFrame) : may System :=
  '(closed, x) ← with_running (sched s) (λ p, Proc.close_file p (rdi f));
  let s := with_sched s x in
  if decide (closed = Some true) then answer s f 0 else answer s f ERR_BAD_DESCRIPTOR.

Definition call_write_file (s : System) (f : SyscallFrame) (r : Running) : may System :=
  let '(name_ptr, name_len, data_ptr, data_len) := (rdi f, rsi f, rdx f, r10 f) in
  if negb (running_owns r name_ptr name_len) || (MAX_NAME <? name_len) then answer s f ERR_BAD_ARGUMENT
  else if negb (running_owns r data_ptr data_len) || (MAX_WRITE <? data_len) then answer s f ERR_BAD_ARGUMENT
  else
    nm ← read_memory s name_ptr name_len;
    if negb (utf8_from [] nm) then answer s f ERR_BAD_ARGUMENT
    else
      contents ← read_memory s data_ptr data_len;
      match Fs.write_file not_our_disk (anyone_has_open (sched s)) (ticks s) nm contents (disk s, events s) with
      | (Ok _, (d, ev)) => answer (with_events (with_disk s d) ev) f data_len
      | (Err err, (d, ev)) => answer (with_events (with_disk s d) ev) f (number_for err)
      | (Panic, _) => Panic
      | (Diverge, _) => Diverge
      end.

Definition call_list (s : System) (f : SyscallFrame) (r : Running) : may System :=
  let '(index_, ptr, n) := (rdi f, rsi f, rdx f) in
  if negb (owns_writable r ptr n) || (n <? ENTRY_BYTES) then answer s f ERR_BAD_ARGUMENT
  else
    on_disk s (Fs.entry_at not_our_disk index_)
      (λ s entry,
        record ← encode_entry entry;
        s ← write_memory s ptr record;
        answer s f ENTRY_BYTES)
      (λ s err, answer s f (number_for err)).

Definition call_console_write (s : System) (f : SyscallFrame) (r : Running) : may System :=
  let '(ptr, n) := (rdi f, rsi f) in
  if negb (running_owns r ptr n) || (MAX_LOG <? n) then answer s f ERR_BAD_ARGUMENT
  else
    bytes ← read_memory s ptr n;
    if utf8_from [] bytes
    then let '(written, c) := TheConsole.write bytes (console s) in answer (with_console_state s c) f (default 0 written)
    else answer s f ERR_BAD_ARGUMENT.

Definition call_console_read (s : System) (f : SyscallFrame) : may System :=
  let '(key, c) := TheConsole.read_key (console s) in answer (with_console_state s c) f (encode key).

Definition serve (s : System) (f : SyscallFrame) (r : Running) : may System :=
  match CallNumber.from (rax f) with
  | Some Log => call_log s f r
  | Some Exit => call_exit s f
  | Some Yield => call_yield s f
  | Some Send => call_send s f r
  | Some Recv => call_recv s f r
  | Some CallOpen => call_open s f r
  | Some Read => call_read s f r
  | Some Close => call_close s f
  | Some WriteFile => call_write_file s f r
  | Some List => call_list s f r
  | Some ConsoleWrite => call_console_write s f r
  | Some ConsoleRead => call_console_read s f
  | None => answer s f ERR_UNKNOWN_CALL
  end.

Definition handle (s : System) (f : SyscallFrame) : may System :=
  held ← running (sched s);
  match held with
  | Some r => serve s f r
  | None => answer s f ERR_UNKNOWN_CALL
  end.

(** ** Interrupts *)
Record InterruptStackFrame := { vector : Z; cs : Z }.

Definition exception_name (vector : Z) : list Z :=
  match vector with
  | 0 => text "#DE divide error" | 1 => text "#DB debug" | 2 => text "NMI" | 3 => text "#BP breakpoint"
  | 4 => text "#OF overflow" | 5 => text "#BR bound range exceeded" | 6 => text "#UD invalid opcode"
  | 7 => text "#NM device not available" | 8 => text "#DF double fault" | 10 => text "#TS invalid TSS"
  | 11 => text "#NP segment not present" | 12 => text "#SS stack-segment fault" | 13 => text "#GP general protection"
  | 14 => text "#PF page fault" | 16 => text "#MF x87 floating-point" | 17 => text "#AC alignment check"
  | 18 => text "#MC machine check" | 19 => text "#XM SIMD floating-point" | 20 => text "#VE virtualisation"
  | 21 => text "#CP control protection" | 28 => text "#HV hypervisor injection" | 29 => text "#VC VMM communication"
  | 30 => text "#SX security" | _ => text "reserved exception"
  end.

Definition came_from_ring_3 (cs : Z) : bool := Z.land cs 3 =? 3.

(** The halt loop answers [Panic]: the machine has stopped. *)
Definition on_fault (s : System) (fault_name : list Z) : may System :=
  held ← running (sched s);
  match held with
  | None => Panic
  | Some r =>
      ev ← Events.record_with (ticks s) (events s) Events.Faulted (r_slot r) fault_name;
      let s := with_events s ev in
      k ← fault_current (kernel s);
      Ok (with_kernel s k)
  end.

Definition fatal (s : System) (f : InterruptStackFrame) : may System :=
  if came_from_ring_3 (cs f) then on_fault s (exception_name (wrap 8 (vector f))) else Panic.

Definition timer (s : System) : may System :=
  let s := with_ticks s (wrap 64 (ticks s + 1)) in
  k ← on_tick (kernel s) Ticking;
  let s := with_kernel s k in
  match control k with At _ => Ok s | _ => Ok (enter s Interrupted) end.

(** What arrives while a process has the CPU; [scancode] is what the
    keyboard's port holds then. *)
Definition rust_interrupt_handler (s : System) (f : InterruptStackFrame) (scancode : Z) : may System :=
  let v := wrap 8 (vector f) in
  if v =? 2 then Ok (enter s Interrupted)
  else if v =? 3 then (if came_from_ring_3 (cs f) then fatal s f else Ok (enter s Interrupted))
  else if v =? 0x20 then timer s
  else if v =? 0x21 then Ok (enter (with_console_state s (on_irq scancode <$> console s)) Interrupted)
  else fatal s f.

(** ** Behind a switch *)
Definition go_on (s : System) : may System :=
  match control (kernel s) with
  | At resume =>
      k ← resumed (kernel s) resume;
      let s := with_kernel s k in
      match control k with
      | Serving Ticking => Ok (enter s Interrupted)
      | Serving (Yielding f) => answer s f 0
      | Serving (Receiving f r) => receive s f r
      | Ring3 => Ok (with_entered s FirstTime)
      | _ => Ok s
      end
  | _ => Ok s
  end.

Fixpoint settle (fuel : nat) (s : System) : may System :=
  match control (kernel s) with
  | At _ =>
      match fuel with
      | O => Diverge
      | S fuel => s ← go_on s; settle fuel s
      end
  | _ => Ok s
  end.

(** ** What ring 3 can do: ask for something, be interrupted, fault *)
Inductive event :=
| Syscall (f : SyscallFrame)
| Interrupt (f : InterruptStackFrame) (scancode : Z).

Definition step (fuel : nat) (s : System) (e : event) : may System :=
  s ← match e with
      | Syscall f => handle s f
      | Interrupt f scancode => rust_interrupt_handler s f scancode
      end;
  settle fuel s.

(** The kernel's own flow: it hands the CPU to the processes it has added. *)
Definition run_until_empty (fuel : nat) (s : System) : may System :=
  k ← hand_over (kernel s) (cr3 (kernel s));
  settle fuel (with_kernel s k).
End calls.

Arguments System : clear implicits.
