(* ===== verification/Acts.v ===== *)
(** * Reaching a process's memory

    What [Calls.read_user] and [Calls.write_user] do where the addresses
    belong to the process: they succeed, a write changes the bytes named and
    nothing else, and, as long as no page a program may write holds a page
    table ([steady]), every address keeps leading where it led. *)

From S2P Require Import Prelude Words PhysMem FrameAlloc Bytes Ipc Memory HalPaging PageTables PageWalk PageTree PageMap PageMapThms FatFormat FatVolume Stacks Process Scheduler Switching SchedProofs Calls.
Local Open Scope Z_scope.

(** A program could write physical address [p] through a space of [roots]. *)
Definition writes_at (m : Mem) (roots : list Z) (p : Z) : Prop :=
  ∃ r va a, r ∈ roots ∧ in_width 64 va ∧ resolve r m va = Some a ∧ a_user a = true ∧ a_writable a = true ∧ p = physical a va.

Definition steady (m : Mem) (roots : list Z) : Prop :=
  ∀ r x p, r ∈ roots → x ∈ subtables (look m) 3 r → writes_at m roots p → p < x ∨ x + 4096 ≤ p.

(** Every byte from [ptr] on is the program's, to be written if [w]. *)
Definition user_can (m : Mem) (root : Z) (w : bool) (ptr n : Z) : Prop :=
  ∀ va, ptr ≤ va < ptr + n → in_width 64 va ∧ ∃ a, resolve root m va = Some a ∧ a_user a = true ∧ (w = true → a_writable a = true).

(** Every address leads where it led. *)
Definition same_spaces (roots : list Z) (m m' : Mem) : Prop := ∀ r va, r ∈ roots → resolve r m' va = resolve r m va.

Lemma same_spaces_refl roots m : same_spaces roots m m.
Proof. done. Qed.
Lemma same_spaces_trans roots m m1 m2 : same_spaces roots m m1 → same_spaces roots m1 m2 → same_spaces roots m m2.
Proof. intros H1 H2 r va Hr. by rewrite H2, H1. Qed.

Lemma look_write_byte m p b x i : 0 ≤ i < 512 → p < x ∨ x + 4096 ≤ p → look (Ram.write m p [b]) x i = look m x i.
Proof.
  intros Hi Hp. unfold read_entry, Ram.read64. rewrite Ram.bytes_write_other; [done|].
  unfold entry_at, len. cbn [length]. lia.
Qed.

Section write.
  Context (m : Mem) (roots : list Z) (Hs : steady m roots) (p b : Z) (Hp : writes_at m roots p).
  Local Abbreviation m' := (Ram.write m p [b]).

Lemma steady_look r x i : r ∈ roots → x ∈ subtables (look m) 3 r → 0 ≤ i < 512 → look m' x i = look m x i.
Proof. intros Hr Hx Hi. apply look_write_byte; [done|]. by eapply Hs. Qed.

Lemma steady_spaces : same_spaces roots m m'.
Proof.
  intros r va Hr. unfold resolve. case_match; [|done]. apply access_ext; [apply table_indices_ok|].
  intros x i Hx Hi. by apply (steady_look r).
Qed.

Lemma steady_write : steady m' roots.
Proof.
  intros r x q Hr Hx (r' & va & a & Hr' & Hwd & Ha & Hu & Hw & ->). apply (Hs r); [done| |].
  - rewrite (subtables_ext (look m)) in Hx; [done|]. intros y i Hy Hi. by apply (steady_look r).
  - exists r', va, a. split; [done|]. split; [done|]. split; [|done]. rewrite <-Ha. symmetry. by apply steady_spaces.
Qed.
End write.

Section memory.
  Context (roots : list Z) (r : Z) (Hr : r ∈ roots).

Lemma read_bytes_spec n : ∀ m ptr, user_can m r false ptr (Z.of_nat n) → Ram.wf m →
  ∃ l, read_bytes (E:=Empty_set) m r ptr n = Ok l ∧ length l = n ∧ bytes_ok l ∧
    ∀ i va a, (i < n)%nat → va = ptr + Z.of_nat i → resolve r m va = Some a → l !! i = Some (Ram.byte m (physical a va)).
Proof.
  induction n as [|n IH]; intros m ptr Hc Hm; cbn [read_bytes].
  { exists []. split; [done|]. split; [done|]. split; [constructor|lia]. }
  destruct (Hc ptr ltac:(lia)) as (_ & a & Ha & _). rewrite Ha. cbn [expect mbind res_bind].
  destruct (IH m (ptr + 1)) as (l & -> & Hl & Hb & Hat); [intros va Hva; apply Hc; lia|done|]. cbn [mbind res_bind].
  eexists. split; [reflexivity|]. split; [cbn; lia|]. split.
  - constructor; [|done]. unfold Ram.byte. destruct (ram m !! physical a ptr) eqn:E; cbn; [by apply (Hm _ _ E)|lia].
  - intros [|i] va a' Hi -> Ha'; cbn.
    + rewrite Z.add_0_r in *. by simplify_eq.
    + eapply Hat; [lia|lia|done].
Qed.

Lemma read_user_spec m ptr n : user_can m r false ptr n → 0 ≤ n → Ram.wf m →
  ∃ l, read_user (E:=Empty_set) m r ptr n = Ok l ∧ len l = n ∧ bytes_ok l ∧
    ∀ va a, ptr ≤ va < ptr + n → resolve r m va = Some a → l !! Z.to_nat (va - ptr) = Some (Ram.byte m (physical a va)).
Proof.
  intros Hc Hn Hm. destruct (read_bytes_spec (Z.to_nat n) m ptr) as (l & Hl & Hlen & Hb & Hat); [by rewrite Z2Nat.id|done|].
  exists l. split; [done|]. split; [unfold len; lia|]. split; [done|]. intros va a Hva Ha. eapply Hat; [lia|lia|done].
Qed.

(** A physical byte that an address from [ptr] on leads to. *)
Definition reached (m : Mem) (ptr n p : Z) : Prop := ∃ va a, ptr ≤ va < ptr + n ∧ resolve r m va = Some a ∧ p = physical a va.

Lemma write_user_spec bytes : ∀ m ptr, user_can m r true ptr (len bytes) → steady m roots → Ram.wf m → bytes_ok bytes →
  ∃ m', write_user (E:=Empty_set) m r ptr bytes = Ok m' ∧ steady m' roots ∧ Ram.wf m' ∧ same_spaces roots m m' ∧
    (∀ p, Ram.byte m' p = Ram.byte m p ∨ reached m ptr (len bytes) p).
Proof.
  induction bytes as [|b bytes IH]; intros m ptr Hc Hs Hm Hb; cbn [write_user].
  { exists m. split_and!; try done. intros p. by left. }
  rewrite len_cons in Hc. pose proof (len_nonneg bytes). apply Forall_cons in Hb as [Hb0 Hb].
  destruct (Hc ptr ltac:(lia)) as (Hwd & a & Ha & Hu & Hw). rewrite Ha. cbn [expect mbind res_bind]. rewrite Hw by done.
  assert (writes_at m roots (physical a ptr)) as Hat by (exists r, ptr, a; split_and!; auto).
  set (m1 := Ram.write m (physical a ptr) [b]).
  assert (same_spaces roots m m1) as Hsame by by apply steady_spaces.
  destruct (IH m1 (ptr + 1)) as (m' & Hw' & Hs' & Hm' & Hsp & Hbyte); [..|done|].
  - intros va Hva. rewrite Hsame by done. apply Hc. lia.
  - by apply steady_write.
  - apply Ram.write_wf; [done|]. by constructor.
  - exists m'. split; [done|]. split; [done|]. split; [done|]. split; [by eapply same_spaces_trans|].
    rewrite len_cons. intros p. destruct (Hbyte p) as [He|(va & a' & Hva & Ha' & ->)].
    + rewrite He. unfold m1. rewrite Ram.byte_write. case_decide as Hd; [right|by left].
      exists ptr, a. split; [lia|]. split; [done|]. unfold len in Hd. cbn [length] in Hd. lia.
    + right. exists va, a'. split; [lia|]. split; [|done]. by rewrite <-Hsame.
Qed.

(** No two addresses from [ptr] on lead to the same byte. *)
Definition apart (m : Mem) (ptr n : Z) : Prop := ∀ va va' a a', ptr ≤ va < ptr + n → ptr ≤ va' < ptr + n →
  resolve r m va = Some a → resolve r m va' = Some a' → physical a va = physical a' va' → va = va'.

Lemma write_user_reads bytes : ∀ m m' ptr, user_can m r true ptr (len bytes) → steady m roots → Ram.wf m → bytes_ok bytes →
  apart m ptr (len bytes) → write_user (E:=Empty_set) m r ptr bytes = Ok m' →
  ∀ i va a, va = ptr + Z.of_nat i → resolve r m va = Some a → (i < length bytes)%nat → bytes !! i = Some (Ram.byte m' (physical a va)).
Proof.
  induction bytes as [|b bytes IH]; intros m m' ptr Hc Hs Hm Hb Hap Hw i va a Hva Ha Hi; cbn [length] in Hi; [lia|].
  cbn [write_user] in Hw. rewrite len_cons in Hc, Hap. pose proof (len_nonneg bytes). apply Forall_cons in Hb as [Hb0 Hb].
  destruct (Hc ptr ltac:(lia)) as (Hwd & a0 & Ha0 & Hu0 & Hw0). rewrite Ha0 in Hw. cbn [expect mbind res_bind] in Hw. rewrite Hw0 in Hw by done.
  assert (writes_at m roots (physical a0 ptr)) as Hat by (exists r, ptr, a0; split_and!; auto).
  set (m1 := Ram.write m (physical a0 ptr) [b]) in Hw. assert (same_spaces roots m m1) as Hsame by by apply steady_spaces.
  assert (user_can m1 r true (ptr + 1) (len bytes)) as Hc1 by (intros v Hv; rewrite Hsame by done; apply Hc; lia).
  assert (steady m1 roots) as Hs1 by by apply steady_write.
  assert (Ram.wf m1) as Hm1 by (apply Ram.write_wf; [done|by constructor]).
  destruct i as [|i]; cbn.
  - subst va. rewrite Z.add_0_r in Ha |- *. assert (a = a0) as -> by congruence.
    destruct (write_user_spec bytes m1 (ptr + 1) Hc1 Hs1 Hm1 Hb) as (m2 & Hw2 & _ & _ & _ & Hbyte).
    assert (m2 = m') as -> by congruence. destruct (Hbyte (physical a0 ptr)) as [->|(v & a' & Hv & Ha' & Heq)].
    + unfold m1. rewrite Ram.byte_write, decide_True by (unfold len; cbn [length]; lia). by rewrite Z.sub_diag.
    + rewrite Hsame in Ha' by done.
      pose proof (Hap ptr v a0 a' ltac:(lia) ltac:(lia) Ha0 Ha' Heq). lia.
  - eapply (IH m1 m' (ptr + 1) Hc1 Hs1 Hm1 Hb); [|done|lia|by rewrite Hsame|lia].
    intros v v' x x' Hv Hv' Hx Hx'. rewrite Hsame in Hx, Hx' by done. apply Hap; [lia|lia|done..].
Qed.

(** What has been written is what is read. *)
Lemma write_then_read bytes m m' ptr : user_can m r true ptr (len bytes) → steady m roots → Ram.wf m → bytes_ok bytes →
  apart m ptr (len bytes) → write_user (E:=Empty_set) m r ptr bytes = Ok m' → read_user (E:=Empty_set) m' r ptr (len bytes) = Ok bytes.
Proof.
  intros Hc Hs Hm Hb Hap Hw. pose proof (write_user_reads bytes m m' ptr Hc Hs Hm Hb Hap Hw) as Hat.
  destruct (write_user_spec bytes m ptr Hc Hs Hm Hb) as (m2 & Hw2 & _ & Hm2 & Hsame & _).
  assert (m2 = m') as -> by congruence.
  destruct (read_user_spec m' ptr (len bytes)) as (l & -> & Hl & _ & Hrd); [|apply len_nonneg|done|].
  { intros va Hva. destruct (Hc va Hva) as (Hwd & a & Ha & Hu & _). split; [done|]. exists a. by rewrite Hsame. }
  f_equal. apply list_eq_same_length with (n := length bytes); [done|unfold len in Hl; lia|].
  intros i x y Hi Hx Hy. destruct (Hc (ptr + Z.of_nat i)) as (_ & a & Ha & _); [unfold len; lia|].
  specialize (Hrd (ptr + Z.of_nat i) a ltac:(unfold len; lia)). rewrite Hsame in Hrd by done. specialize (Hrd Ha).
  replace (Z.to_nat (ptr + Z.of_nat i - ptr)) with i in Hrd by lia.
  specialize (Hat i (ptr + Z.of_nat i) a eq_refl Ha Hi). congruence.
Qed.
End memory.

(** * What one process can do to the others

    [acts c]: between two states of the table of processes and of the
    memory, the process in slot [c] is the only one that acted.  Its own
    open files may have changed, a message of its own may have been put in
    another's mailbox, and the bytes that differ are ones it may write.
    [Acts] is closed under composition, so a call keeps it step by step. *)

Local Abbreviation Slot := (Slot Handler).
Local Abbreviation Scheduler := (Scheduler Handler).

(** The process is the same one, but for its open files. *)
Definition same_process (x x' : Slot) : Prop := process x' = with_files (process x) (files (process x')).

(** A message from [c] has been put in the slot. *)
Definition mailed (c : Z) (x x' : Slot) : Prop := ∃ m msg,
  Ipc.content (mailbox x) = None ∧ Ipc.content m = Some (c, msg) ∧ x' = posted x m.

Definition touched (c j : Z) (x x' : Slot) : Prop :=
  if decide (j = c) then same_process x x' else x' = x ∨ mailed c x x'.

Definition space_of (x : Slot) : Z := root (space (process x)).

(** The process in slot [c] may write physical address [p]. *)
Definition may_write (t : Scheduler) (m : Mem) (c p : Z) : Prop := ∃ x va a,
  slot_at t c = Some x ∧ 0 ≤ va ∧ owned_by (Proc.writable_ranges (process x)) va 1 = true ∧
  resolve (space_of x) m va = Some a ∧ p = physical a va.

Record acts (c : Z) (t0 : Scheduler) (m0 : Mem) (t : Scheduler) (m : Mem) : Prop := {
  ac_slots j x : slot_at t0 j = Some x → ∃ x', slot_at t j = Some x' ∧ touched c j x x';
  ac_none j : slot_at t0 j = None → slot_at t j = None;
  ac_mem p : Ram.byte m p ≠ Ram.byte m0 p → may_write t0 m0 c p;
  ac_spaces j x va : slot_at t0 j = Some x → resolve (space_of x) m va = resolve (space_of x) m0 va
}.

Lemma touched_refl c j x : touched c j x x.
Proof. unfold touched, same_process. case_decide; [by destruct (process x)|by left]. Qed.

Lemma touched_space c j x x' : touched c j x x' → space_of x' = space_of x.
Proof.
  unfold touched, same_process, space_of. case_decide; [by intros ->|]. intros [->|(m & msg & _ & _ & ->)]; done.
Qed.

Lemma touched_trans c j x y z : touched c j x y → touched c j y z → touched c j x z.
Proof.
  unfold touched, same_process. case_decide.
  - intros Hy Hz. rewrite Hz, Hy. done.
  - intros [->|(m & msg & Hn & Hc & ->)]; [done|]. intros [->|(m' & msg' & Hn' & _)]; [right; by exists m, msg|].
    cbn [mailbox posted with_state with_mailbox] in Hn'. congruence.
Qed.

Lemma acts_refl c t m : acts c t m t m.
Proof. split; [|done..]. intros j x Hx. exists x. split; [done|apply touched_refl]. Qed.

Lemma touched_owns c j x x' : touched c j x x' → Proc.writable_ranges (process x') = Proc.writable_ranges (process x).
Proof.
  unfold touched, same_process. case_decide; [by intros ->|]. intros [->|(m & msg & _ & _ & ->)]; done.
Qed.

(** Nobody comes to own, or to reach, more. *)
Lemma acts_may_write c c' t0 m0 t m p : acts c t0 m0 t m → may_write t m c' p → may_write t0 m0 c' p.
Proof.
  intros [A1 A2 A3 A4] (y & va & a & Hy & Hva & Ho & Ha & Hpa).
  destruct (slot_at t0 c') as [x|] eqn:Hx; [|rewrite (A2 c' Hx) in Hy; done].
  destruct (A1 c' x Hx) as (y' & Hy' & Hxy). assert (y' = y) as -> by congruence.
  exists x, va, a. split; [done|]. split; [done|]. split; [by rewrite <-(touched_owns _ _ _ _ Hxy)|].
  split; [|done]. by rewrite <-(A4 c' x), <-(touched_space _ _ _ _ Hxy).
Qed.

Lemma acts_trans c t0 m0 t1 m1 t2 m2 : acts c t0 m0 t1 m1 → acts c t1 m1 t2 m2 → acts c t0 m0 t2 m2.
Proof.
  intros HA [B1 B2 B3 B4]. pose proof HA as [A1 A2 A3 A4]. split.
  - intros j x Hx. destruct (A1 j x Hx) as (y & Hy & Hxy). destruct (B1 j y Hy) as (z & Hz & Hyz).
    exists z. split; [done|]. by eapply touched_trans.
  - intros j Hj. by apply B2, A2.
  - intros p Hp. destruct (decide (Ram.byte m1 p = Ram.byte m0 p)) as [He|Hne]; [|by apply A3].
    apply (acts_may_write _ _ _ _ _ _ _ HA), B3. congruence.
  - intros j x va Hx. destruct (A1 j x Hx) as (y & Hy & Hxy). rewrite <-(A4 j x va Hx), <-(touched_space _ _ _ _ Hxy). by apply (B4 j y).
Qed.

(** One acts after the other. *)
Lemma acts_after c c' t0 m0 t1 m1 t2 m2 j x : acts c t0 m0 t1 m1 → acts c' t1 m1 t2 m2 → slot_at t0 j = Some x →
  ∃ x', slot_at t2 j = Some x' ∧ same_process x x' ∧ (∀ va, resolve (space_of x) m2 va = resolve (space_of x) m0 va) ∧
    (j ≠ c → j ≠ c' → x' = x ∨ mailed c x x' ∨ mailed c' x x').
Proof.
  intros [A1 A2 A3 A4] [B1 B2 B3 B4] Hx. destruct (A1 j x Hx) as (y & Hy & Hxy). destruct (B1 j y Hy) as (z & Hz & Hyz).
  exists z. split; [done|]. split; [|split].
  - assert (∀ c j x x', touched c j x x' → same_process x x') as Hsame.
    { clear. intros c j x x'. unfold touched. case_decide; [done|]. unfold same_process.
      intros [->|(m & msg & _ & _ & ->)]; [by destruct (process x)|]. cbn. by destruct (process x). }
    apply Hsame in Hxy, Hyz. unfold same_process in *. by rewrite Hyz, Hxy.
  - intros va. rewrite <-(A4 j x va Hx), <-(touched_space _ _ _ _ Hxy). by apply (B4 j y).
  - intros Hc Hc'. unfold touched in Hxy, Hyz. rewrite decide_False in Hxy by done. rewrite decide_False in Hyz by done.
    destruct Hxy as [->|(m & msg & Hn & Hm & ->)].
    + destruct Hyz as [->|?]; [by left|by right; right].
    + destruct Hyz as [->|(m' & msg' & Hn' & _)]; [right; left; by exists m, msg|].
      cbn [mailbox posted with_state with_mailbox] in Hn'. congruence.
Qed.

(** The two ways a slot changes. *)
Lemma acts_own c (t t' : Scheduler) m x x' : slot_at t c = Some x → same_process x x' →
  (∀ j, slot_at t' j = if decide (c = j) then Some x' else slot_at t j) → acts c t m t' m.
Proof.
  intros Hx Hp Ht. split; [| |done..].
  - intros j y Hy. rewrite Ht. case_decide as Hd.
    + subst j. exists x'. split; [done|]. unfold touched. rewrite decide_True by done. by assert (y = x) as -> by congruence.
    + exists y. split; [done|apply touched_refl].
  - intros j Hj. rewrite Ht. case_decide; [congruence|done].
Qed.

Lemma acts_mail c to (t : Scheduler) m x mb msg : slot_at t to = Some x → Ipc.content (mailbox x) = None →
  Ipc.content mb = Some (c, msg) → acts c t m (set_slot t to (posted x mb)) m.
Proof.
  intros Hx Hn Hc. split; [| |done..].
  - intros j y Hy. rewrite (slot_at_set _ _ _ _ x Hx). case_decide as Hd.
    + subst j. assert (y = x) as -> by congruence. exists (posted x mb). split; [done|]. unfold touched, same_process.
      case_decide; [by destruct (process x) eqn:Hp; cbn; rewrite Hp|]. right. by exists mb, msg.
    + exists y. split; [done|apply touched_refl].
  - intros j Hj. rewrite (slot_at_set _ _ _ _ x Hx). case_decide; [congruence|done].
Qed.

(** A stretch that is owned is owned byte by byte. *)
Lemma owned_by_byte rs ptr n va : 0 ≤ ptr → ptr ≤ va < ptr + n → owned_by rs ptr n = true → owned_by rs va 1 = true.
Proof.
  unfold owned_by, checked_add. intros Hp Hva. case_match; [done|]. cbn [Z.eqb].
  case_match eqn:He; [|done]. case_match; simplify_eq. destruct (Z.ltb_spec (va + 1) (2 ^ 64)); [|lia].
  rewrite !existsb_exists. intros (r & Hr & Hb). exists r. split; [done|]. lia.
Qed.

Lemma acts_write c (t : Scheduler) (m m' : Mem) x ptr n roots : slot_at t c = Some x → 0 ≤ ptr →
  owned_by (Proc.writable_ranges (process x)) ptr n = true →
  (∀ j y, slot_at t j = Some y → space_of y ∈ roots) → same_spaces roots m m' →
  (∀ p, Ram.byte m' p = Ram.byte m p ∨ reached (space_of x) m ptr n p) → acts c t m t m'.
Proof.
  intros Hx Hp Ho Hro Hsp Hb. split; [|done| |].
  - intros j y Hy. exists y. split; [done|apply touched_refl].
  - intros p Hne. destruct (Hb p) as [?|(va & a & Hva & Ha & ->)]; [done|].
    exists x, va, a. split; [done|]. split; [lia|]. split; [by eapply owned_by_byte|done].
  - intros j y va Hy. by apply Hsp, (Hro j).
Qed.

(** Giving the CPU away changes the slot of whoever leaves, not his process. *)
Lemma acts_runs c (t0 t : Scheduler) m0 m j x : acts c t0 m0 t m → j ≠ c → slot_at t0 j = Some x → can_run (state x) = true →
  ∃ x', slot_at t j = Some x' ∧ can_run (state x') = true.
Proof.
  intros [A _ _ _] Hj Hx Hc. destruct (A j x Hx) as (x' & Hx' & Ht). exists x'. split; [done|].
  unfold touched in Ht. rewrite decide_False in Ht by done. destruct Ht as [->|(mb & msg & _ & _ & ->)]; [done|].
  cbn [state posted with_state]. by case_decide.
Qed.
