(* ===== verification/SysProofs.v ===== *)
(** * The kernel's invariant, across every call

    [sys_ok]: what holds of the whole machine between any two things a
    program does.  Each call of [Calls] keeps it, and ends in ring 3 again
    or behind a switch; behind every switch there is a process to go on
    with. *)

From S2P Require Import Prelude Words PhysMem FrameAlloc Bytes Ipc Memory HalPaging PageTables PageWalk PageTree PageMap PageMapThms FatFormat FatVolume FatFormatThms FatDisk FatRead Stacks Process Events EventsThms VolumeSafe Scheduler Switching SchedProofs Fs FsThms Console Calls Acts.
Local Open Scope Z_scope.

Section sys.
  Context {D E C : Type} `{!Sectors D E, !Disk D E, !Console C} (not_our_disk : E).
  Context (partly : option (Fs.Mounted D) → DirectoryEntry → Z → Z → list Z).
  Hypothesis partly_ok : ∀ d e p n, bytes_ok (partly d e p n).
  Context (on_irq : Z → C → C).
  (** The kernel's tables, those of the processes, and the disk. *)
  Context (kroot : Z) (roots : list Z).
  Context (there : bool) (b : BootSector) (Hg : geometry b) (d0 : content).
  Local Abbreviation System := (System D C).
  Local Abbreviation Slot := (Slot Handler).

(** ** What holds of a slot *)
Definition file_ok (o : OpenFile) : Prop := entry_ok (file o) ∧ in_width 32 (position o).

Definition all_files_ok (t : Files.OpenFiles) : Prop := ∀ o, Some o ∈ t → file_ok o.

(** Every pointer the checks accept leads somewhere. *)
Definition pointers_ok (m : Mem) (p : Process) : Prop := ∀ ptr n, 0 ≤ ptr → 0 ≤ n →
  (owned_by (Proc.ranges p) ptr n = true → user_can m (root (space p)) false ptr n) ∧
  (owned_by (Proc.writable_ranges p) ptr n = true → user_can m (root (space p)) true ptr n ∧ apart (root (space p)) m ptr n).

(** Somebody parked in [recv] asked for memory of its own, to be written. *)
Definition hearing_ok (p : Process) (f : SyscallFrame) : Prop :=
  0 ≤ rdi f ∧ 0 ≤ rsi f ∧ owned_by (Proc.writable_ranges p) (rdi f) (rsi f) = true.

Record slot_fit (m : Mem) (x : Slot) : Prop := {
  sf_root : root (space (process x)) ∈ roots;
  sf_mem : pointers_ok m (process x);
  sf_files : all_files_ok (files (process x));
  sf_hears f r : kernel_rsp x = Returns (Receiving f r) → hearing_ok (process x) f;
  sf_mail frm msg : Ipc.content (mailbox x) = Some (frm, msg) → bytes_ok msg
}.

Definition slots_fit (m : Mem) (s : Scheduler Handler) : Prop := ∀ i x, slot_at s i = Some x → slot_fit m x.

Record rest_ok (s : System) : Prop := {
  re_mem : Ram.wf (memory s);
  re_steady : steady (memory s) roots;
  re_slots : slots_fit (memory s) (sched s);
  re_disk : disk_mounted there b d0 (disk s);
  re_events : ring_ok (events s);
  re_ticks : in_width 64 (ticks s)
}.

Definition sys_ok (s : System) : Prop := kernel_ok hears kroot (kernel s) ∧ rest_ok s.

(** A process is in a call, or in ring 3. *)
Definition serving (s : System) : Prop := owns_cpu hears kroot (kernel s) ∧ rest_ok s.

(** What a call has done so far: nothing but on behalf of its process, and
    at most one line in the log. *)
Definition did (s s' : System) : Prop :=
  acts (current (sched s)) (sched s) (memory s) (sched s') (memory s') ∧ current (sched s') = current (sched s).
Definition no_longer (s0 s : System) : Prop :=
  Events.written (events s0) ≤ Events.written (events s) ≤ Events.written (events s0) + 1 ∧ did s0 s.

(** How a call may end: [s'] is in ring 3, or behind a switch to the next in
    turn. *)
Definition settled (s s' : System) : Prop :=
  sys_ok s' ∧
  (control (kernel s') = Ring3 ∧ current (sched s') = current (sched s) ∨
   (∃ r, control (kernel s') = At r) ∧ first_of (sched s) (current (sched s)) (current (sched s'))) ∧
  Events.written (events s) ≤ Events.written (events s') ≤ Events.written (events s) + 1 ∧
  acts (current (sched s)) (sched s) (memory s) (sched s') (memory s').

Lemma no_longer_refl s : no_longer s s.
Proof. split; [lia|]. split; [apply acts_refl|done]. Qed.

Lemma did_trans (s s1 s2 : System) : did s s1 → did s1 s2 → did s s2.
Proof. intros [A1 A2] [B1 B2]. split; [|congruence]. rewrite A2 in B1. by eapply acts_trans. Qed.

Lemma no_longer_did (s0 s s' : System) : no_longer s0 s → events s' = events s → did s s' → no_longer s0 s'.
Proof. intros [Hw Hd] He Hd'. split; [by rewrite He|by eapply did_trans]. Qed.

(** ** Moving between them *)
Lemma owns_cpu_control k c : owns_cpu hears kroot k → owns_cpu hears kroot (with_control k c).
Proof. intros [H1 H2 H3 H4 H5 (x & [A1 A2 A3 A4] & Hx)]. split; try done. by exists x. Qed.

Lemma rest_ok_kernel (s : System) k : rest_ok s → slots_fit (memory s) (scheduler k) → rest_ok (with_kernel s k).
Proof. intros [H1 H2 H3 H4 H5 H6] Hf. by split. Qed.

Lemma answer_ok (s0 s : System) f n : serving s → no_longer s0 s →
  ∃ s', answer s f n = Ok s' ∧ settled s0 s' ∧ control (kernel s') = Ring3.
Proof.
  intros [Hk [H1 H2 H3 H4 H5 H6]] (Hw & Ha & Hc). eexists. split; [reflexivity|]. split; [|done]. split; [|split; [by left|done]].
  split; [|by split]. by apply owns_cpu_control.
Qed.

Lemma serving_cur (s : System) : serving s → ∃ x, slot_at (sched s) (current (sched s)) = Some x ∧ state x = Runnable ∧
  cr3 (kernel s) = root (space (process x)) ∧ slot_fit (memory s) x.
Proof.
  intros [Hk Hr]. destruct (ow_cpu _ _ _ Hk) as (x & [Hx Hc _ _] & Hst). exists x. split; [done|]. split; [done|]. split; [done|].
  by apply (re_slots _ Hr (current (sched s))).
Qed.

(** Replacing one slot by one that fits. *)
Lemma slots_fit_set m (s : Scheduler Handler) i x y : slots_fit m s → slot_at s i = Some y → slot_fit m x → slots_fit m (set_slot s i x).
Proof. intros Hs Hy Hx j z. rewrite (slot_at_set s i j x y Hy). case_decide; [by intros [= <-]|by apply Hs]. Qed.

Lemma slots_fit_at m (s s' : Scheduler Handler) : slots_fit m s →
  (∀ j x, slot_at s' j = Some x → slot_fit m x ∨ slot_at s j = Some x) → slots_fit m s'.
Proof. intros Hs H j x Hx. destruct (H j x Hx); [done|by apply (Hs j)]. Qed.

Lemma slot_fit_mem m m' x : same_spaces roots m m' → slot_fit m x → slot_fit m' x.
Proof.
  intros Hm [H1 H2 H3 H4 H5]. split; [done| |done..]. intros ptr n Hp Hn. destruct (H2 ptr n Hp Hn) as [Ha Hb].
  split; [intros Ho va Hva; rewrite Hm by done; by apply Ha|]. intros Ho. destruct (Hb Ho) as [Hc Hap].
  split; [intros va Hva; rewrite Hm by done; by apply Hc|]. intros va va' a a' Hva Hva'. rewrite !Hm by done. by apply Hap.
Qed.

(** The process running in [s], and what is checked of its pointers. *)
Definition who (s : System) (x : Slot) : Running :=
  {| r_slot := current (sched s); r_ranges := Proc.ranges (process x); r_writable := Proc.writable_ranges (process x) |}.

Definition current_is (s : System) (x : Slot) : Prop := slot_at (sched s) (current (sched s)) = Some x.

Lemma running_ok (s : System) x : serving s → current_is s x → running (E:=Empty_set) (sched s) = Ok (Some (who s x)).
Proof.
  intros [Hk _] Hx. unfold running, sched. destruct (running_slot_spec (E:=Empty_set) hears kroot (kernel s) x Hk Hx) as [-> _]. done.
Qed.

Lemma cur_fit (s : System) x : serving s → current_is s x →
  slot_fit (memory s) x ∧ cr3 (kernel s) = root (space (process x)) ∧ state x = Runnable.
Proof.
  intros Hs Hx. destruct (serving_cur s Hs) as (y & Hy & Hst & Hc & Hf). unfold current_is in Hx. by assert (y = x) as -> by congruence.
Qed.

Lemma memory_read_ok (s : System) x ptr n : serving s → current_is s x → 0 ≤ ptr → 0 ≤ n → running_owns (who s x) ptr n = true →
  ∃ l, read_memory s ptr n = Ok l ∧ len l = n ∧ bytes_ok l.
Proof.
  intros Hs Hx Hp Hn Ho. destruct (cur_fit s x Hs Hx) as (Hf & Hc & _). unfold read_memory. rewrite Hc.
  destruct (read_user_spec (root (space (process x))) (memory s) ptr n) as (l & Hl & Hlen & Hb & _).
  - by apply (sf_mem _ _ Hf ptr n Hp Hn).
  - done.
  - apply Hs.
  - by exists l.
Qed.

Lemma memory_write_ok (s : System) x ptr n l : serving s → current_is s x → 0 ≤ ptr → 0 ≤ n → owns_writable (who s x) ptr n = true →
  len l ≤ n → bytes_ok l →
  ∃ m, write_memory s ptr l = Ok (with_memory s m) ∧ serving (with_memory s m) ∧ current_is (with_memory s m) x ∧ did s (with_memory s m).
Proof.
  intros Hs Hx Hp Hn Ho Hl Hb. destruct (cur_fit s x Hs Hx) as (Hf & Hc & _). unfold write_memory. rewrite Hc.
  pose proof Hs as [Hk [H1 H2 H3 H4 H5 H6]].
  destruct (write_user_spec roots (root (space (process x))) (sf_root _ _ Hf) l (memory s) ptr) as (m & Hw & Hst & Hm & Hsp & Hby); [|done..|].
  - intros va Hva. destruct (sf_mem _ _ Hf ptr n Hp Hn) as [_ Hu]. apply (proj1 (Hu Ho) va). lia.
  - rewrite Hw. cbn [mbind res_bind]. exists m. split; [done|]. split.
    { split; [done|]. split; try done. intros j z Hz. eapply slot_fit_mem; [done|]. by apply (H3 j). }
    split; [done|]. split; [|done]. apply (acts_write _ _ _ _ x ptr n roots); try done; [by intros j y Hy; apply (sf_root _ _ (H3 j y Hy))|].
    intros p. destruct (Hby p) as [|(va & a & Hva & Hat)]; [by left|right]. exists va, a. split; [lia|done].
Qed.

(** Changes that leave the current slot what it was, or touch its files
    alone. *)
Lemma with_sched_ok (s : System) (x : Scheduler Handler) : serving s → owns_cpu hears kroot (with_scheduler (kernel s) x) →
  slots_fit (memory s) x → serving (with_sched s x).
Proof. intros [Hk Hr] Ho Hf. split; [done|]. by apply rest_ok_kernel. Qed.

Lemma with_disk_ok (s : System) d : serving s → disk_mounted there b d0 d → serving (with_disk s d).
Proof. intros [Hk [H1 H2 H3 H4 H5 H6]] Hd. split; [done|]. by split. Qed.

Lemma with_events_ok (s : System) ev : serving s → ring_ok ev → serving (with_events s ev).
Proof. intros [Hk [H1 H2 H3 H4 H5 H6]] Hd. split; [done|]. by split. Qed.

Lemma with_console_ok (s : System) c : serving s → serving (with_console_state s c).
Proof. intros [Hk [H1 H2 H3 H4 H5 H6]]. split; [done|]. by split. Qed.

Lemma files_fit m x t : slot_fit m x → all_files_ok t → slot_fit m (with_process x (with_files (process x) t)).
Proof. intros [H1 H2 H3 H4 H5] Ht. by split. Qed.

(** An operation on the files of whoever runs. *)
Lemma files_call (s : System) x {R} (op : Process → R * Process) : serving s → current_is s x →
  (∀ p, ∃ t, (op p).2 = with_files p t) → all_files_ok (files (op (process x)).2) →
  ∃ x', with_running (E:=Empty_set) (sched s) op = Ok (Some (op (process x)).1, x') ∧ serving (with_sched s x') ∧
    current_is (with_sched s x') (with_process x (op (process x)).2) ∧ did s (with_sched s x').
Proof.
  intros Hs Hx Hop Hf. pose proof Hs as [Hk Hr].
  destruct (with_running_spec (E:=Empty_set) hears kroot (kernel s) op x Hk Hx Hop) as (x' & Hw & He & Ho).
  exists x'. split; [done|]. destruct (Hop (process x)) as [t Ht]. split_and!.
  - apply with_sched_ok; [done|done|]. rewrite He. apply (slots_fit_set _ _ _ _ x); [apply Hr|done|].
    rewrite Ht in Hf |- *. apply files_fit; [|done]. by apply (re_slots _ Hr (current (sched s))).
  - unfold current_is. unfold sched, with_sched in *. cbn [kernel with_kernel scheduler with_scheduler]. rewrite He.
    destruct (set_slot_rest (scheduler (kernel s)) (current (scheduler (kernel s))) (with_process x (op (process x)).2)) as (-> & _).
    by rewrite (slot_at_set _ _ _ _ x Hx), decide_True.
  - rewrite He. split; [|apply set_slot_rest]. apply (acts_own _ _ _ _ x (with_process x (op (process x)).2) Hx).
    + unfold same_process. cbn [process with_process]. by rewrite Ht.
    + intros j. apply (slot_at_set _ _ _ _ x Hx).
Qed.

(** ** The calls *)
Lemma files_insert t i v : all_files_ok t → (∀ o, v = Some o → file_ok o) → all_files_ok (<[i := v]> t).
Proof.
  intros Ht Hv o [j Hj]%list_elem_of_lookup. destruct (decide (i = j)) as [->|Hne].
  - destruct (decide (j < length t)%nat) as [Hlt|Hge].
    + rewrite list_lookup_insert_eq in Hj by done. by apply Hv; injection Hj.
    + rewrite list_insert_ge in Hj by lia. apply Ht. by eapply list_elem_of_lookup_2.
  - rewrite list_lookup_insert_ne in Hj by done. apply Ht. by eapply list_elem_of_lookup_2.
Qed.

Record frame_ok (f : SyscallFrame) : Prop := {
  fo_rdi : in_width 64 (rdi f); fo_rsi : in_width 64 (rsi f); fo_rdx : in_width 64 (rdx f); fo_r10 : in_width 64 (r10 f)
}.

Definition ends (s0 : System) (m : may System) : Prop := ∃ s', m = Ok s' ∧ settled s0 s'.

Lemma ends_answer (s0 s : System) f n : serving s → no_longer s0 s → ends s0 (answer s f n).
Proof. intros Hs Hw. destruct (answer_ok s0 s f n Hs Hw) as (s' & He & Hse & _). by exists s'. Qed.

Local Hint Resolve no_longer_refl : core.

Lemma call_log_ok (s : System) x f : serving s → current_is s x → frame_ok f → ends s (call_log s f (who s x)).
Proof.
  intros Hs Hx [[H1 _] [H2 _] _ _]. unfold call_log. destruct (running_owns _ _ _) eqn:Ho; cbn [negb orb]; [|by apply ends_answer].
  case_match; [by apply ends_answer|]. destruct (memory_read_ok s x _ _ Hs Hx H1 H2 Ho) as (l & -> & _). cbn [mbind res_bind].
  destruct (utf8_from [] l); by apply ends_answer.
Qed.

Lemma call_console_write_ok (s : System) x f : serving s → current_is s x → frame_ok f → ends s (call_console_write s f (who s x)).
Proof.
  intros Hs Hx [[H1 _] [H2 _] _ _]. unfold call_console_write. destruct (running_owns _ _ _) eqn:Ho; cbn [negb orb]; [|by apply ends_answer].
  case_match; [by apply ends_answer|]. destruct (memory_read_ok s x _ _ Hs Hx H1 H2 Ho) as (l & -> & _). cbn [mbind res_bind].
  destruct (utf8_from [] l); [|by apply ends_answer]. destruct (TheConsole.write l (console s)) as [w c].
  apply ends_answer; [by apply with_console_ok|exact (no_longer_refl s)].
Qed.

Lemma call_console_read_ok (s : System) f : serving s → ends s (call_console_read s f).
Proof.
  intros Hs. unfold call_console_read. destruct (TheConsole.read_key (console s)) as [k c].
  apply ends_answer; [by apply with_console_ok|exact (no_longer_refl s)].
Qed.

Lemma call_close_ok (s : System) x f : serving s → current_is s x → ends s (call_close s f).
Proof.
  intros Hs Hx. unfold call_close. pose proof (sf_files _ _ (proj1 (cur_fit s x Hs Hx))) as Hf.
  destruct (files_call s x (λ p, Proc.close_file p (rdi f)) Hs Hx) as (x' & -> & Hs' & _ & Hd).
  - intros p. unfold Proc.close_file. destruct (Files.close (files p) (rdi f)) as [c t]. by exists t.
  - unfold Proc.close_file, Files.close. destruct (index (files (process x)) (rdi f)) as [slot|]; cbn [snd files with_files]; [|done].
    by apply files_insert.
  - cbn [mbind res_bind]. case_decide; (apply ends_answer; [done|]; by apply (no_longer_did s s)).
Qed.

(** An operation of [fs] that is [safe]. *)
Lemma on_disk_ok {A} (Q : A → Prop) (s0 s : System) (op : dev (option (Fs.Mounted D)) (Fs.FileError E) A) k failed :
  serving s → safe (disk_mounted there b d0) Q op →
  (∀ d a, disk_mounted there b d0 d → Q a → ends s0 (k (with_disk s d) a)) →
  (∀ d e, disk_mounted there b d0 d → ends s0 (failed (with_disk s d) e)) → ends s0 (on_disk s op k failed).
Proof.
  intros Hs Hop Hk Hf. unfold on_disk. destruct (Hop (disk s) (re_disk _ (proj2 Hs))) as (r & d & -> & Hd & Hr).
  destruct r as [a|e| |]; [by apply Hk|by apply Hf|done..].
Qed.

Lemma first_free_lt (t : Files.OpenFiles) i : Files.first_free t = Some i → all_files_ok t → ∀ o, file_ok o → all_files_ok (<[i := Some o]> t).
Proof. intros _ Ht o Ho. apply files_insert; [done|]. by intros ? [= <-]. Qed.

Lemma call_open_ok (s : System) x f : serving s → current_is s x → frame_ok f → ends s (call_open not_our_disk s f (who s x)).
Proof.
  intros Hs Hx [[H1 _] [H2 _] _ _]. unfold call_open. destruct (running_owns _ _ _) eqn:Ho; cbn [negb orb]; [|by apply ends_answer].
  case_match; [by apply ends_answer|]. destruct (memory_read_ok s x _ _ Hs Hx H1 H2 Ho) as (nm & -> & _). cbn [mbind res_bind].
  destruct (utf8_from [] nm); cbn [negb]; [|by apply ends_answer].
  apply (on_disk_ok entry_ok); [done|by apply fs_find_safe| |].
  2: { intros d e Hd. apply ends_answer; [by apply with_disk_ok|exact (no_longer_refl s)]. }
  intros d e Hd He. pose proof (with_disk_ok s d Hs Hd) as Hs1.
  pose proof (sf_files _ _ (proj1 (cur_fit s x Hs Hx))) as Hf.
  destruct (files_call (with_disk s d) x (λ p, Proc.open_file p {| file := e; position := 0 |}) Hs1 Hx) as (x' & -> & Hs' & _ & Hd').
  - intros p. unfold Proc.open_file. destruct (Files.open (files p) _) as [c t]. by exists t.
  - unfold Proc.open_file, Files.open. destruct (Files.first_free (files (process x))) as [i|] eqn:Hi; cbn [snd files with_files]; [|done].
    apply (first_free_lt _ _ Hi); [done|]. split; [done|]. unfold in_width. cbn. lia.
  - cbn [mbind res_bind]. case_match; (apply ends_answer; [done|]; apply (no_longer_did s (with_disk s d)); [exact (no_longer_refl s)|done..]).
Qed.

Lemma open_in (t : Files.OpenFiles) d o : mjoin (index t d) = Some o → Some o ∈ t.
Proof.
  unfold index. destruct (d <? 0); [done|]. destruct (t !! Z.to_nat d) as [[o'|]|] eqn:Hd; intros; simplify_eq/=.
  by eapply list_elem_of_lookup_2.
Qed.

Lemma advance_ok t d moved : all_files_ok t → 0 ≤ moved → ∀ p, files p = t → all_files_ok (files (advance d moved p).2).
Proof.
  intros Ht Hm p Hp. unfold advance. cbn [snd]. rewrite Hp. unfold Files.set_at, Files.at_. destruct (mjoin (index t d)) as [o|] eqn:Ho; [|by rewrite Hp].
  cbn [files with_files]. apply files_insert; [done|]. intros ? [= <-].
  destruct (Ht o (open_in _ _ _ Ho)) as [He Hpos].
  split; [done|]. cbn [position]. unfold in_width, saturating_add, umax in *. unfold wrap. pose proof (Z.mod_pos_bound moved (2 ^ 32)). lia.
Qed.

Lemma call_read_ok (s : System) x f : serving s → current_is s x → frame_ok f → ends s (call_read not_our_disk partly s f (who s x)).
Proof.
  intros Hs Hx [_ [H2 _] [H3 _] _]. unfold call_read. destruct (owns_writable _ _ _) eqn:Ho; cbn [negb orb]; [|by apply ends_answer].
  case_match; [by apply ends_answer|]. pose proof (sf_files _ _ (proj1 (cur_fit s x Hs Hx))) as Hf.
  destruct (files_call s x (λ p, (Proc.open_at p (rdi f), p)) Hs Hx) as (x' & -> & Hs' & Hx' & Hd1).
  - intros p. exists (files p). by destruct p.
  - done.
  - cbn [mbind res_bind fst snd mjoin option_join]. unfold Proc.open_at, Files.at_. cbn [snd] in Hx'.
    set (s1 := with_sched s x') in *. assert (no_longer s s1) as Hw1 by by apply (no_longer_did s s).
    destruct (mjoin (index (files (process x)) (rdi f))) as [o|] eqn:Hat; [|by apply ends_answer].
    destruct (Hf o (open_in _ _ _ Hat)) as [He [Hp _]].
    assert (with_process x (process x) = x) as Hxx by by destruct x. rewrite Hxx in Hx'.
    pose proof (Z2Nat.id (rdx f) H3) as Hn3.
    apply (on_disk_ok (λ y, 0 ≤ y.1 ≤ len (replicate (Z.to_nat (rdx f)) 0) ∧ len y.2 = len (replicate (Z.to_nat (rdx f)) 0) ∧ bytes_ok y.2));
      [done|apply fs_read_at_safe; [done..|apply Forall_replicate; lia]| |].
    + intros d [n into] Hd (Hn & Hl & Hb). cbn [fst snd] in *. rewrite len_replicate, Hn3 in Hn, Hl.
      destruct (memory_write_ok (with_disk s1 d) x (rsi f) (rdx f) (take (Z.to_nat n) into)) as (m & -> & Hs2 & Hx2 & Hd2);
        [by apply with_disk_ok|done|done|done|done|unfold len in *; rewrite length_take; lia|by apply Forall_take|].
      cbn [mbind res_bind].
      destruct (files_call _ x (advance (rdi f) n) Hs2 Hx2) as (x2 & -> & Hs3 & _ & Hd3).
      * intros p. unfold advance. cbn [snd]. case_match; [by eexists|]. exists (files p). by destruct p.
      * by apply (advance_ok (files (process x))); [|lia|].
      * cbn [mbind res_bind]. apply ends_answer; [done|]. apply (no_longer_did s (with_memory (with_disk s1 d) m)); [|done..].
        by apply (no_longer_did s (with_disk s1 d)).
    + intros d e Hd. set (l := take (Z.to_nat (rdx f)) _).
      destruct (memory_write_ok (with_disk s1 d) x (rsi f) (rdx f) l) as (m & -> & Hs2 & Hx2 & Hd2);
        [by apply with_disk_ok|done|done|done|done|unfold len, l; rewrite length_take; lia|by apply Forall_take, partly_ok|].
      cbn [mbind res_bind]. apply ends_answer; [done|]. by apply (no_longer_did s (with_disk s1 d)).
Qed.


(** The record of an entry: the name padded to twelve, the attributes,
    three bytes of nothing, and the size. *)
Definition entry_record (e : DirectoryEntry) : list Z :=
  let nm := take 12 (name e) in
  nm ++ replicate (12 - length nm) 32 ++ attributes e :: replicate 3 0 ++ le_encode 4 (esize e).

Lemma entry_record_len e : length (entry_record e) = 20%nat.
Proof.
  unfold entry_record. rewrite !length_app, length_replicate. cbn [length]. rewrite length_app, length_replicate, length_le_encode.
  pose proof (length_take (name e) 12). lia.
Qed.

Lemma encode_entry_exact e : encode_entry e = Ok (entry_record e).
Proof.
  unfold encode_entry, Calls.ENTRY_BYTES, ENTRY_NAME, ENTRY_NAME_LEN, ENTRY_ATTRIBUTES, ENTRY_SIZE.
  set (taking := Z.min (len (name e)) 12). pose proof (len_nonneg (name e)).
  rewrite slice_prefix by lia. cbn [expect mbind res_bind].
  assert (take (Z.to_nat taking) (name e) = take 12 (name e)) as ->.
  { unfold taking, len. destruct (decide (length (name e) ≤ 12)%nat); [rewrite !take_ge by lia; done|]. f_equal. lia. }
  set (nm := take 12 (name e)). assert (len nm = taking) as Hnm by (unfold len, nm; rewrite length_take; unfold taking, len; lia).
  assert (0 ≤ taking ≤ 12) as Ht by lia.
  rewrite copy_at_Some by (rewrite ?len_replicate; lia). cbn [expect mbind res_bind].
  assert (length nm ≤ 12)%nat as Hl by (unfold len in Hnm; lia).
  assert (taking = Z.of_nat (length nm)) as -> by (unfold len in Hnm; lia).
  unfold entry_record. fold nm. clearbody nm. clear Hnm Ht.
  do 12 (destruct nm as [|? nm]; [vm_compute; reflexivity|]). destruct nm; [vm_compute; reflexivity|cbn in Hl; lia].
Qed.

Lemma entry_record_ok e : entry_ok e → bytes_ok (entry_record e).
Proof.
  intros (_ & Hn & Ha). unfold entry_record. repeat apply Forall_app_2; [|apply Forall_replicate; lia|].
  - apply Forall_take. unfold name, text_or_empty. case_match; [by apply Forall_take|constructor].
  - constructor; [done|]. apply Forall_app_2; [apply Forall_replicate; lia|apply le_encode_ok].
Qed.

Lemma call_list_ok (s : System) x f : serving s → current_is s x → frame_ok f → ends s (call_list not_our_disk s f (who s x)).
Proof.
  intros Hs Hx [_ [H2 _] [H3 _] _]. unfold call_list. destruct (owns_writable _ _ _) eqn:Ho; cbn [negb orb]; [|by apply ends_answer].
  destruct (Z.ltb_spec (rdx f) Calls.ENTRY_BYTES); [by apply ends_answer|].
  apply (on_disk_ok entry_ok); [done|by apply fs_entry_at_safe| |].
  2: { intros d e Hd. apply ends_answer; [by apply with_disk_ok|exact (no_longer_refl s)]. }
  intros d e Hd He. rewrite encode_entry_exact. cbn [mbind res_bind].
  destruct (memory_write_ok (with_disk s d) x (rsi f) (rdx f) (entry_record e)) as (m & -> & Hs2 & _ & Hd2);
    [by apply with_disk_ok|done|done|done|done|unfold len; rewrite entry_record_len; done|by apply entry_record_ok|].
  cbn [mbind res_bind]. apply ends_answer; [done|]. apply (no_longer_did s (with_disk s d)); [exact (no_longer_refl s)|done..].
Qed.

Lemma call_write_file_ok (s : System) x f : serving s → current_is s x → frame_ok f → Events.written (events s) + 1 < 2 ^ 64 →
  ends s (call_write_file not_our_disk s f (who s x)).
Proof.
  intros Hs Hx [[H1 _] [H2 _] [H3 _] [H4 _]] Hw. unfold call_write_file.
  destruct (running_owns _ (rdi f) _) eqn:Ho; cbn [negb orb]; [|by apply ends_answer]. case_match; [by apply ends_answer|].
  destruct (running_owns _ (rdx f) _) eqn:Ho2; cbn [negb orb]; [|by apply ends_answer]. case_match; [by apply ends_answer|].
  destruct (memory_read_ok s x _ _ Hs Hx H1 H2 Ho) as (nm & -> & _). cbn [mbind res_bind].
  destruct (utf8_from [] nm); cbn [negb]; [|by apply ends_answer].
  destruct (memory_read_ok s x _ _ Hs Hx H3 H4 Ho2) as (l & -> & _ & Hb). cbn [mbind res_bind].
  pose proof (proj2 Hs) as Hr.
  destruct (fs_write_file_safe not_our_disk there b Hg d0 (anyone_has_open (sched s)) (ticks s) nm l (disk s) (events s) Hb
    (re_disk _ Hr) (re_events _ Hr) (re_ticks _ Hr) Hw) as (r & d & ev & -> & Hd & Hev & Hwr & Hcase & _).
  assert (serving (with_events (with_disk s d) ev)) as Hs1 by (apply with_events_ok; [by apply with_disk_ok|done]).
  assert (no_longer s (with_events (with_disk s d) ev)) as Hn by (split; [exact Hwr|exact (proj2 (no_longer_refl s))]).
  destruct r; [| |done..]; by apply ends_answer.
Qed.

Lemma call_send_ok (s : System) x f : serving s → current_is s x → frame_ok f → ends s (call_send s f (who s x)).
Proof.
  intros Hs Hx [[H1 _] [H2 _] [H3 _] _]. unfold call_send. destruct (running_owns _ _ _) eqn:Ho; cbn [negb orb]; [|by apply ends_answer].
  case_match; [by apply ends_answer|]. destruct (memory_read_ok s x _ _ Hs Hx H2 H3 Ho) as (l & -> & _ & Hlb). cbn [mbind res_bind].
  pose proof Hs as [Hk Hr].
  pose proof (slot_deliver_spec (sched s) (rdi f) (r_slot (who s x)) l (ow_table _ _ _ Hk)) as Hd.
  pose proof (deliver_keeps hears kroot (kernel s) (rdi f) (r_slot (who s x)) l) as Hkeep.
  unfold sched in *. destruct (deliver (scheduler (kernel s)) (rdi f) (r_slot (who s x)) l) as [[dl s']|e| |]; [| |done..].
  2: { destruct e; by apply ends_answer. }
  destruct Hd as (y & m & Hy & Hnd & Hempty & _ & _ & Hc & _ & ->).
  apply ends_answer.
  2: { apply (no_longer_did s s); [done..|]. split; [by apply (acts_mail _ _ _ _ y m l)|apply set_slot_rest]. }
  apply with_sched_ok; [done|by eapply Hkeep|].
  apply (slots_fit_set _ _ _ _ y); [apply Hr|done|]. destruct (re_slots _ Hr _ _ Hy) as [A1 A2 A3 A4 A5]. split; try done.
  intros frm msg. cbn [mailbox posted with_state with_mailbox]. rewrite Hc. by intros [= <- <-].
Qed.

(** ** Calls that may give the CPU away *)
(** Who is next does not depend on what the one leaving has done. *)
Lemma first_of_did (s0 s : System) to : serving s → did s0 s →
  first_of (sched s) (current (sched s0)) to → first_of (sched s0) (current (sched s0)) to.
Proof.
  intros Hs [Ha Hc] Hf j x Hx Hr. pose proof (tb_current _ (ow_table _ _ _ (proj1 Hs))) as Hcur. fold (sched s) in Hcur. rewrite Hc in Hcur.
  destruct (decide (j = current (sched s0))) as [->|Hne].
  - rewrite (turns_last MAX_PROCESSES) by done. pose proof (turns_bound MAX_PROCESSES (current (sched s0)) to ltac:(done)). lia.
  - destruct (acts_runs _ _ _ _ _ j x Ha Hne Hx Hr) as (x' & Hx' & Hr'). exact (Hf j x' Hx' Hr').
Qed.

(** The slot of whoever left, as it is now, and the others as they were. *)
Lemma slots_fit_left m (s s' : Scheduler Handler) i x : slots_fit m s → slot_fit m x →
  (∀ j, slot_at s' j = if decide (i = j) then Some x else slot_at s j) → slots_fit m s'.
Proof. intros Hs Hx Hat j y. rewrite Hat. case_decide; [by intros [= <-]|apply Hs]. Qed.

Lemma settled_switched (s0 s : System) k r x x' : serving s → no_longer s0 s → control k = At r → switched hears kroot k r →
  current_is s x → same_process x x' → slot_fit (memory s) x' →
  (∀ j, slot_at (scheduler k) j = if decide (current (sched s) = j) then Some x' else slot_at (sched s) j) →
  first_of (sched s) (current (sched s)) (current (scheduler k)) → settled s0 (with_kernel s k).
Proof.
  intros Hs (Hw & Hd) Hc Hsw Hx Hp Hf Hat Hfirst. pose proof (proj2 Hd) as Hcur. split; [|split; [right|split; [exact Hw|]]].
  - split; [unfold kernel_ok; cbn [kernel with_kernel]; by rewrite Hc|]. apply rest_ok_kernel; [apply Hs|].
    eapply slots_fit_left; [apply Hs|exact Hf|exact Hat].
  - split; [by exists r|]. apply (first_of_did s0 s); [done..|]. rewrite <-Hcur. exact Hfirst.
  - eapply acts_trans; [apply Hd|]. rewrite <-Hcur. apply (acts_own _ _ _ _ x x' Hx Hp). exact Hat.
Qed.

Lemma left_fit m (x : Slot) st rsp : slot_fit m x → (∀ f r, rsp = Returns (Receiving f r) → hearing_ok (process x) f) →
  slot_fit m (with_rsp (with_state x st) rsp).
Proof. intros [A1 A2 A3 A4 A5] Hr. by split. Qed.

Lemma receive_ok (s0 s : System) x f r : serving s → current_is s x → hearing_ok (process x) f → no_longer s0 s →
  ∃ s', receive s f r = Ok s' ∧ settled s0 s' ∧ (Ipc.content (mailbox x) ≠ None → control (kernel s') = Ring3).
Proof.
  intros Hs Hx Hh Hw0. pose proof Hh as (H1 & H2 & Ho). pose proof Hs as [Hk Hr]. unfold receive.
  pose proof (take_message_spec (sched s) (replicate (Z.to_nat (rsi f)) 0) x (ow_table _ _ _ Hk) Hx) as Ht.
  pose proof (take_keeps hears kroot (kernel s) (replicate (Z.to_nat (rsi f)) 0)) as Hkeep. unfold sched in *.
  destruct (take_message (scheduler (kernel s)) _) as [[[d into] s']|e| |]; [|destruct e|done..].
  - destruct Ht as (m & msg & Hc & Hd & Hl & -> & Hcm & Hwf & He). rewrite len_replicate, Z2Nat.id in Hl by done.
    specialize (Hkeep _ _ _ Hk eq_refl). pose proof (re_slots _ Hr _ _ Hx) as Hf.
    assert (serving (with_sched s s')) as Hs1.
    { apply with_sched_ok; [done|done|]. rewrite He. apply (slots_fit_set _ _ _ _ x); [apply Hr|done|].
      destruct Hf as [A1 A2 A3 A4 A5]. split; try done. intros frm msg'. cbn [mailbox with_mailbox]. congruence. }
    assert (current_is (with_sched s s') (with_mailbox x m)) as Hx1.
    { unfold current_is, sched, with_sched. cbn [kernel with_kernel scheduler with_scheduler]. rewrite He.
      destruct (set_slot_rest (scheduler (kernel s)) (current (scheduler (kernel s))) (with_mailbox x m)) as (-> & _).
      by rewrite (slot_at_set _ _ _ _ x Hx), decide_True. }
    assert (take (Z.to_nat (dlen d)) (msg ++ drop (length msg) (replicate (Z.to_nat (rsi f)) 0)) = msg) as ->.
    { rewrite Hd. unfold len. by rewrite Nat2Z.id, take_app_length. }
    destruct (memory_write_ok (with_sched s s') (with_mailbox x m) (rdi f) (rsi f) msg Hs1 Hx1 H1 H2 Ho Hl) as (mem & -> & Hs2 & _ & Hd2);
      [by apply (sf_mail _ _ Hf (from d))|]. cbn [mbind res_bind].
    assert (no_longer s0 (with_memory (with_sched s s') mem)) as Hw2.
    { apply (no_longer_did s0 (with_sched s s')); [|done..]. apply (no_longer_did s0 s); [done..|]. rewrite He. split; [|apply set_slot_rest].
      apply (acts_own _ _ _ _ x (with_mailbox x m) Hx); [by unfold same_process; cbn; destruct (process x)|intros j; apply (slot_at_set _ _ _ _ x Hx)]. }
    destruct (answer_ok s0 (with_memory (with_sched s s') mem) (with_rdx f (from d)) (dlen d) Hs2 Hw2) as (s2 & Ha & Hse & Hc2).
    by exists s2.
  - destruct (wait_spec hears kroot (kernel s) (Receiving f r) x Hk eq_refl Hx Ht) as (parked & k & -> & Hcase). cbn [mbind res_bind].
    destruct parked.
    + destruct Hcase as (next & y & Hnext & Hne & Hy & Hc & Hsw & Hcur & Hat).
      exists (with_kernel s k). split; [done|]. split; [|by intros Hm].
      apply (settled_switched s0 s k _ x (with_rsp (with_state x Blocked) (Returns (Receiving f r))) Hs Hw0 Hc Hsw Hx); [|  |exact Hat|].
      * by unfold same_process; cbn; destruct (process x).
      * apply left_fit; [apply (re_slots _ Hr _ _ Hx)|]. by intros ? ? [= <- <-].
      * rewrite Hcur. apply first_of_next; [apply (ow_table _ _ _ Hk)|exact Hnext].
    + destruct Hcase as [-> _]. destruct (answer_ok s0 (with_kernel s (kernel s)) f ERR_WOULD_WAIT_FOR_EVER) as (s' & Ha & Hse & Hc);
        [by destruct s|by destruct s|]. exists s'. done.
  - destruct (answer_ok s0 s f ERR_BAD_ARGUMENT Hs Hw0) as (s' & Ha & Hse & Hc). by exists s'.
Qed.

Lemma with_state_id (x : Slot) rsp : with_rsp (with_state x (state x)) rsp = with_rsp x rsp.
Proof. by destruct x. Qed.

(** Leaving for whoever is next, as [yield] and the tick do. *)
Lemma next_ok (s0 s : System) h : serving s → hears h = false → (∀ f r, h ≠ Receiving f r) → no_longer s0 s →
  ∃ k, switch_to_next (kernel s) h = Ok k ∧ first_of (sched s) (current (sched s)) (current (scheduler k)) ∧
    ((k = kernel s ∧ serving (with_kernel s k)) ∨ (∃ r, control k = At r) ∧ settled s0 (with_kernel s k)).
Proof.
  intros Hs Hh Hnr Hw. pose proof Hs as [Hk Hr].
  destruct (switch_to_next_spec hears kroot (kernel s) h Hk Hh) as (k & Hsw & Hfirst & [[_ ->]|(next & x & y & _ & _ & _ & Hy & Hc & Hswd & Hsch)]);
    exists k || exists (kernel s); (split; [done|]); (split; [done|]); [left; split; [done|by destruct s]|right].
  split; [by eexists|]. apply (settled_switched s0 s k _ y (with_rsp y (Returns h)) Hs Hw Hc Hswd Hy); [| | |done].
  - by unfold same_process; cbn; destruct (process y).
  - rewrite <-(with_state_id y). apply left_fit; [by apply (re_slots _ Hr (current (sched s)))|]. intros f r [= Heq]. by destruct (Hnr f r).
  - intros j. rewrite Hsch, (slot_at_set (with_current (with_switching (scheduler (kernel s)) true) next) _ _ _ y); [done|exact Hy].
Qed.

Lemma call_yield_ok (s : System) f : serving s → control (kernel s) = Ring3 → ends s (call_yield s f).
Proof.
  intros Hs Hc3. unfold call_yield. destruct (next_ok s s (Yielding f) Hs eq_refl ltac:(done) (no_longer_refl s)) as (k & -> & _ & Hcase).
  cbn [mbind res_bind]. destruct Hcase as [[-> Hs']|[[r Hc] Hse]].
  - rewrite Hc3. apply ends_answer; [done|exact (no_longer_refl s)].
  - rewrite Hc. by eexists.
Qed.

Lemma timer_ok (s : System) : serving s → control (kernel s) = Ring3 →
  ∃ s', timer s = Ok s' ∧ settled s s' ∧ first_of (sched s) (current (sched s)) (current (sched s')).
Proof.
  intros Hs Hc3. unfold timer. set (s1 := with_ticks s (wrap 64 (ticks s + 1))).
  assert (serving s1) as Hs1.
  { destruct Hs as [Hk [H1 H2 H3 H4 H5 H6]]. split; [done|]. split; try done. unfold in_width, wrap. cbn [ticks with_ticks].
    apply Z.mod_pos_bound. lia. }
  unfold on_tick, should_switch_on_tick. destruct Hs1 as [Hk Hr]. rewrite (ow_handed _ _ _ Hk), (ow_switching _ _ _ Hk). cbn [andb negb].
  destruct (next_ok s s1 Ticking (conj Hk Hr) eq_refl ltac:(done) (no_longer_refl s)) as (k & -> & Hfirst & Hcase).
  cbn [mbind res_bind]. destruct Hcase as [[-> [Hk' Hr']]|[[r Hc] Hse]].
  - change (control (kernel s1)) with (control (kernel s)). rewrite Hc3. eexists. split; [reflexivity|]. split; [|exact Hfirst].
    split; [|split; [by left|split; [exact (proj1 (no_longer_refl s))|exact (acts_refl _ _ _)]]]. split; [by apply owns_cpu_control|]. destruct Hr' as [R1 R2 R3 R4 R5 R6]. by split.
  - rewrite Hc. by eexists.
Qed.

(** A process that ends, with a line in the log. *)
Lemma ending_ok (s0 s : System) : serving s → no_longer s0 s →
  ∃ k, end_current (kernel s) = Ok k ∧ settled s0 (with_kernel s k) ∧ ∃ r, control k = At r.
Proof.
  intros Hs Hw. pose proof Hs as [Hk Hr].
  destruct (end_current_spec hears kroot (kernel s) Hk) as (k & r & y & He & Hc & Hsw & Hfirst & Hy & Hat).
  exists k. split; [done|]. split; [|by eexists].
  apply (settled_switched s0 s k _ y (with_rsp (ended y) Ended) Hs Hw Hc Hsw Hy); [done| |exact Hat|exact Hfirst].
  destruct (re_slots _ Hr _ _ Hy) as [A1 A2 A3 A4 A5].
  split; try done. intros o Ho. change (Some o ∈ replicate MAX_OPEN None) in Ho. by apply elem_of_replicate in Ho as [? _].
Qed.

Lemma call_exit_ok (s : System) f : serving s → frame_ok f → Events.written (events s) + 1 < 2 ^ 64 → ends s (call_exit s f).
Proof.
  intros Hs Hf Hw. unfold call_exit, Events.record_two.
  destruct (say_step (events s) (ticks s) Events.Exited (current (sched s)) (Some (rdi f)) [] (re_events _ (proj2 Hs)))
    as (ev & -> & Hev & _ & Hwr & _); [|done|].
  { split; [apply Hs|]. split; [|apply Hf]. pose proof (tb_current _ (ow_table _ _ _ (proj1 Hs))) as Hc. unfold in_width, MAX_PROCESSES, sched in *. lia. }
  cbn [mbind res_bind]. destruct (ending_ok s (with_events s ev)) as (k & Hk & Hse & _).
  - by apply with_events_ok.
  - split; [cbn [events with_events]; lia|exact (proj2 (no_longer_refl s))].
  - unfold exit_current. rewrite Hk. cbn [mbind res_bind]. by eexists.
Qed.

(** *** Any system call *)
(** A program may ask for a message in memory it cannot write: the one thing
    the kernel does not survive, [recv_read_only] below.  [polite] leaves it
    out. *)
Definition polite (s : System) (f : SyscallFrame) : Prop := rax f = 4 → ∀ x, current_is s x →
  running_owns (who s x) (rdi f) (rsi f) = true → owns_writable (who s x) (rdi f) (rsi f) = true.

Lemma call_recv_ok (s : System) x f : serving s → current_is s x → frame_ok f → rax f = 4 → polite s f →
  ends s (call_recv s f (who s x)).
Proof.
  intros Hs Hx [[H1 _] [H2 _] _ _] Hrax Hp. unfold call_recv. destruct (running_owns _ _ _) eqn:Ho; cbn [negb]; [|by apply ends_answer].
  destruct (receive_ok s s x f (who s x) Hs Hx) as (s' & -> & Hse & _); [|done|by eexists].
  split; [done|]. split; [done|]. by apply (Hp Hrax x Hx).
Qed.

Lemma handle_ok (s : System) f : serving s → control (kernel s) = Ring3 → frame_ok f → polite s f →
  Events.written (events s) + 1 < 2 ^ 64 → ends s (handle not_our_disk partly s f).
Proof.
  intros Hs Hc Hf Hp Hw. destruct (serving_cur s Hs) as (x & Hx & _). unfold handle.
  rewrite (running_ok s x Hs Hx). cbn [mbind res_bind]. unfold serve.
  destruct (CallNumber.from (rax f)) as [[]|] eqn:Hn; [..|by apply ends_answer].
  - by apply call_log_ok.
  - by apply call_exit_ok.
  - by apply call_yield_ok.
  - by apply call_send_ok.
  - apply call_recv_ok; try done. unfold CallNumber.from in Hn. by repeat case_match.
  - by apply call_open_ok.
  - by apply call_read_ok.
  - by eapply call_close_ok.
  - by apply call_write_file_ok.
  - by apply call_list_ok.
  - by apply call_console_write_ok.
  - by apply call_console_read_ok.
Qed.

(** *** Any interrupt *)
Lemma interrupted_ok (s0 s : System) : serving s → no_longer s0 s → ends s0 (Ok (enter s Interrupted)).
Proof.
  intros [Hk [R1 R2 R3 R4 R5 R6]] (Hw & Ha & Hc). eexists. split; [reflexivity|]. split; [|split; [by left|by split]].
  split; [by apply owns_cpu_control|by split].
Qed.

Lemma fatal_ok (s : System) fr : serving s → came_from_ring_3 (cs fr) = true → Events.written (events s) + 1 < 2 ^ 64 → ends s (fatal s fr).
Proof.
  intros Hs Hr Hw. unfold fatal. rewrite Hr. destruct (serving_cur s Hs) as (x & Hx & _). unfold on_fault.
  rewrite (running_ok s x Hs Hx). cbn [mbind res_bind]. unfold Events.record_with.
  destruct (say_step (events s) (ticks s) Events.Faulted (r_slot (who s x)) None (exception_name (wrap 8 (vector fr))) (re_events _ (proj2 Hs)))
    as (ev & -> & Hev & _ & Hwr & _); [|done|].
  { split; [apply Hs|]. split; [|done]. pose proof (tb_current _ (ow_table _ _ _ (proj1 Hs))) as Hc.
    unfold in_width, MAX_PROCESSES, who, sched in *. cbn [r_slot]. lia. }
  cbn [mbind res_bind]. destruct (ending_ok s (with_events s ev)) as (k & Hk & Hse & _).
  - by apply with_events_ok.
  - split; [cbn [events with_events]; lia|exact (proj2 (no_longer_refl s))].
  - unfold fault_current. rewrite Hk. cbn [mbind res_bind]. by eexists.
Qed.

Lemma interrupt_ok (s : System) fr code : serving s → control (kernel s) = Ring3 → came_from_ring_3 (cs fr) = true →
  Events.written (events s) + 1 < 2 ^ 64 → ends s (rust_interrupt_handler on_irq s fr code).
Proof.
  intros Hs Hc Hr Hw. unfold rust_interrupt_handler.
  case_match; [by apply interrupted_ok|]. case_match; [rewrite Hr; by apply fatal_ok|].
  case_match; [destruct (timer_ok s Hs Hc) as (s' & -> & Hse & _); by exists s'|]. case_match; [|by apply fatal_ok].
  apply interrupted_ok; [by apply with_console_ok|exact (no_longer_refl s)].
Qed.

(** *** Behind a switch *)
Lemma go_on_ok (s : System) r : sys_ok s → control (kernel s) = At r →
  ∃ s', go_on s = Ok s' ∧ sys_ok s' ∧
    (control (kernel s') = Ring3 ∧ no_longer s s' ∨
     control (kernel s') = InKernel ∧ events s' = events s ∧ memory s' = memory s ∧
       (∀ i x, slot_at (sched s) i = Some x → can_run (state x) = false) ∧ ∀ i x, slot_at (sched s') i = Some x → state x = Dead).
Proof.
  intros [Hk Hr] Hc. unfold kernel_ok in Hk. rewrite Hc in Hk. unfold go_on. rewrite Hc.
  destruct (resumed_spec hears kroot (kernel s) r Hk) as (k & Hres & Hcase). rewrite Hres. cbn [mbind res_bind].
  destruct r as [| |h|h| |]; try done.
  - destruct Hcase as (Hc' & Ho & Hcur). rewrite Hc'. eexists. split; [reflexivity|].
    assert (slots_fit (memory s) (scheduler k) ∧ acts (current (sched s)) (sched s) (memory s) (scheduler k) (memory s)) as [Hf Ha].
    { unfold resumed, run_first in Hres. destruct (slot_at _ _) as [x|] eqn:Hx; [|done]. cbn [expect mbind res_bind] in Hres. simplify_eq.
      cbn [scheduler with_control with_cr3 with_scheduler]. split.
      - apply (slots_fit_set _ _ _ _ x); [intros j z Hz; by apply (re_slots _ Hr j)|done|].
        pose proof (re_slots _ Hr _ _ Hx) as [A1 A2 A3 A4 A5]. by split.
      - apply (acts_own _ (sched s) _ _ x (with_state x Runnable)); [exact Hx|by unfold same_process; cbn; destruct (process x)|].
        intros j. apply (slot_at_set (with_switching (scheduler (kernel s)) false) _ _ _ x Hx). }
    split; [|left; split; [done|]; split; [exact (proj1 (no_longer_refl s))|by split]].
    split; [unfold kernel_ok; cbn [kernel with_entered with_kernel]; by rewrite Hc'|].
    destruct Hr as [R1 R2 R3 R4 R5 R6]. by split.
  - destruct Hcase as (Hc' & Ho & Hslots & Hcur & Hmail). rewrite Hc'.
    assert (∀ j, slot_at (scheduler k) j = slot_at (sched s) j) as Hat by (intros j; unfold slot_at; by rewrite Hslots).
    assert (serving (with_kernel s k)) as Hs.
    { split; [done|]. apply rest_ok_kernel; [done|]. intros j z. rewrite Hat. apply (re_slots _ Hr). }
    assert (no_longer s (with_kernel s k)) as Hw.
    { split; [exact (proj1 (no_longer_refl s))|]. split; [|exact Hcur]. split; [|by intros j; rewrite <-Hat|done..].
      intros j x Hx. exists x. split; [|apply touched_refl]. rewrite <-Hx. apply Hat. }
    destruct h as [|f|f w].
    + eexists. split; [reflexivity|]. split; [|by left].
      destruct (interrupted_ok s (with_kernel s k) Hs Hw) as (s' & [= <-] & Hok & _). exact Hok.
    + unfold answer. eexists. split; [reflexivity|]. split; [|by left].
      destruct (answer_ok s (with_kernel s k) f 0 Hs Hw) as (s' & [= <-] & (Hok & _) & _). exact Hok.
    + destruct (sw_to _ _ _ _ Hk) as (x & [Hx _ _ _] & Hrun & Hrsp).
      assert (current_is (with_kernel s k) x) as Hx'.
      { unfold current_is, sched. cbn [kernel with_kernel]. by rewrite Hat, Hcur. }
      destruct (receive_ok s (with_kernel s k) x f w Hs Hx') as (s' & He & (Hok & Hends & Hw' & Ha) & H3); [|exact Hw|].
      * eapply (sf_hears _ _ (re_slots _ Hr _ _ Hx)). exact Hrsp.
      * assert (control (kernel s') = Ring3) as H3' by (by apply H3, Hmail).
        exists s'. split; [done|]. split; [done|]. left. split; [done|]. split; [done|]. split; [done|].
        destruct Hends as [[_ ?]|[[r' Hr'] _]]; [done|congruence].
  - destruct Hcase as (Hc' & Hke & Hdead). rewrite Hc'. eexists. split; [reflexivity|]. split; [|right; split_and!; try done; apply (sw_to _ _ _ _ Hk)].
    split; [unfold kernel_ok; cbn [kernel with_kernel]; by rewrite Hc'|]. apply rest_ok_kernel; [done|].
    unfold resumed in Hres. simplify_eq. unfold take_back. cbn [scheduler with_control with_scheduler].
    intros j z. rewrite abandon_at. change (slot_at (with_handed_over (scheduler (kernel s)) false) j) with (slot_at (sched s) j).
    intros (y & Hy & ->)%fmap_Some. pose proof (re_slots _ Hr _ _ Hy) as [A1 A2 A3 A4 A5]. case_decide; split; try done.
    intros o Ho. change (Some o ∈ replicate MAX_OPEN None) in Ho. by apply elem_of_replicate in Ho as [? _].
Qed.
End sys.

(** * One step of the machine, and many

    What a program's call, fault or interrupt leads to, from ring 3 to ring 3
    again or back to the kernel, in terms of [SysProofs]: [step_spec]; and
    the runs the theorems of [SysThms] are about. *)

Section runs.
  Context {D E C : Type} `{!Sectors D E, !Disk D E, !Console C} (not_our_disk : E).
  Context (partly : option (Fs.Mounted D) → DirectoryEntry → Z → Z → list Z).
  Hypothesis partly_ok : ∀ d e p n, bytes_ok (partly d e p n).
  Context (on_irq : Z → C → C).
  Context (kroot : Z) (roots : list Z).
  Context (there : bool) (b : BootSector) (Hg : geometry b) (d0 : content).
  Local Abbreviation System := (System D C).
  Local Abbreviation sys_ok := (sys_ok kroot roots there b d0).
  Local Abbreviation serving := (serving kroot roots there b d0).
  Local Abbreviation settled := (settled kroot roots there b d0).
  Local Abbreviation step := (step not_our_disk partly on_irq).
  Local Abbreviation run_until_empty := (run_until_empty (D:=D) (C:=C)).

(** What the processor and the programs hand to the kernel: registers that
    are 64 bits wide, interrupts of ring 3, and, from a program that asks for
    a message, memory it may write. *)
Definition event_ok (s : System) (e : event) : Prop :=
  match e with
  | Syscall f => frame_ok f ∧ polite s f
  | Interrupt f _ => came_from_ring_3 (cs f) = true
  end.

(** The clock's interrupt. *)
Definition is_tick (e : event) : bool := match e with Interrupt f _ => wrap 8 (vector f) =? 0x20 | _ => false end.

(** The machine, as long as programs have it. *)
Fixpoint run_events (s : System) (es : list event) : may System :=
  match es with
  | [] => Ok s
  | e :: es => s ← step 1 s e; match control (kernel s) with Ring3 => run_events s es | _ => Ok s end
  end.

Fixpoint behaved (s : System) (es : list event) : Prop :=
  match es with
  | [] => True
  | e :: es => event_ok s e ∧ ∀ s', step 1 s e = Ok s' → control (kernel s') = Ring3 → behaved s' es
  end.

(** Nobody can be given the CPU. *)
Definition nobody_runs (s : System) : Prop := ∀ i x, slot_at (sched s) i = Some x → can_run (state x) = false.

(** Nobody is left. *)
Definition all_dead (s : System) : Prop := ∀ i x, slot_at (sched s) i = Some x → state x = Dead.

Lemma ring3_serving (s : System) : sys_ok s → control (kernel s) = Ring3 → serving s.
Proof. intros [Hk Hr] Hc. unfold kernel_ok in Hk. rewrite Hc in Hk. done. Qed.

(** Receiving writes nothing in the log. *)
Lemma receive_events (s s' : System) f r : receive s f r = Ok s' → events s' = events s.
Proof.
  unfold receive, write_memory, answer. destruct (take_message _ _) as [[[d into] x]|[|n]| |]; cbn [mbind res_bind]; try done.
  - destruct (write_user _ _ _ _) as [m| | |]; cbn [mbind res_bind]; try done. by intros [= <-].
  - destruct (wait_for_message _ _) as [[[] k]| | |]; cbn [mbind res_bind]; try done; by intros [= <-].
  - by intros [= <-].
Qed.

Lemma go_on_events (s s' : System) : go_on s = Ok s' → events s' = events s.
Proof.
  unfold go_on, answer. destruct (control (kernel s)) as [h| |r|]; try (by intros [= <-]).
  destruct (resumed (kernel s) r) as [k| | |]; cbn [mbind res_bind]; try done.
  destruct (control k) as [[]| | |]; try (by intros [= <-]). intros H. by rewrite (receive_events _ _ _ _ H).
Qed.

(** Behind a switch, one round is enough. *)
Lemma settle_spec (s0 s : System) : settled s0 s →
  ∃ s', (∀ fuel, settle (S fuel) s = Ok s') ∧ sys_ok s' ∧ events s' = events s ∧
    (control (kernel s') = Ring3 ∧ did s s' ∨ control (kernel s') = InKernel ∧ all_dead s' ∧ memory s' = memory s ∧ nobody_runs s).
Proof.
  intros (Hok & [[Hc _]|[[r Hc] _]] & _ & _).
  - exists s. split; [intros fuel; cbn [settle]; by rewrite Hc|]. do 2 (split; [done|]). left. split; [done|]. exact (proj2 (no_longer_refl s)).
  - destruct (go_on_ok kroot roots there b d0 s r Hok Hc) as (s' & Hgo & Hok' & Hcase).
    exists s'. split; [|split; [done|split; [by apply go_on_events|]]].
    + intros fuel. cbn [settle]. rewrite Hc, Hgo. cbn [mbind res_bind].
      destruct fuel; cbn [settle]; destruct Hcase as [[-> _]|[-> _]]; done.
    + destruct Hcase as [[H3 [_ Hd]]|(H3 & _ & Hm & Hnone & Hdead)]; [by left|by right].
Qed.

(** From ring 3, with what the call or the interrupt itself does ([s1]) told
    apart from what is found behind the switch. *)
Lemma step_spec (s : System) e : sys_ok s → control (kernel s) = Ring3 → event_ok s e → Events.written (events s) + 1 < 2 ^ 64 →
  ∃ s1 s', settled s s1 ∧ (is_tick e = true → first_of (sched s) (current (sched s)) (current (sched s1))) ∧ (∀ fuel, step (S fuel) s e = Ok s') ∧ sys_ok s' ∧
    Events.written (events s) ≤ Events.written (events s') ≤ Events.written (events s) + 1 ∧
    (control (kernel s') = Ring3 ∧ did s1 s' ∨ control (kernel s') = InKernel ∧ all_dead s' ∧ memory s' = memory s1 ∧ nobody_runs s1).
Proof.
  intros Hok Hc He Hw. pose proof (ring3_serving s Hok Hc) as Hs.
  assert (∃ s1, (match e with Syscall f => handle not_our_disk partly s f
    | Interrupt f scancode => rust_interrupt_handler on_irq s f scancode end) = Ok s1 ∧ settled s s1 ∧
    (is_tick e = true → first_of (sched s) (current (sched s)) (current (sched s1)))) as (s1 & H1 & Hse & Htick).
  { destruct e as [f|f code]; cbn [event_ok is_tick] in *.
    - destruct He as [Hf Hp].
      destruct (handle_ok not_our_disk partly partly_ok kroot roots there b Hg d0 s f Hs Hc Hf Hp Hw) as (s1 & -> & Hse). by exists s1.
    - destruct (Z.eqb_spec (wrap 8 (vector f)) 0x20) as [Hv|Hv].
      + unfold rust_interrupt_handler. rewrite Hv. cbn [Z.eqb Pos.eqb].
        destruct (timer_ok kroot roots there b d0 s Hs Hc) as (s1 & -> & Hse & Hf). by exists s1.
      + destruct (interrupt_ok on_irq kroot roots there b d0 s f code Hs Hc He Hw) as (s1 & -> & Hse). by exists s1. }
  destruct (settle_spec s s1 Hse) as (s' & Hset & Hok' & Hev & Hcase).
  exists s1, s'. split; [done|]. split; [done|]. split; [|split; [done|split; [rewrite Hev; apply Hse|done]]].
  intros fuel. unfold Calls.step. rewrite H1. apply Hset.
Qed.

(** The same, for who hands the CPU over. *)
Lemma hand_over_ok (s : System) : sys_ok s → control (kernel s) = InKernel →
  ∃ s', (∀ fuel, run_until_empty (S fuel) s = Ok s') ∧ sys_ok s' ∧ events s' = events s ∧
    (control (kernel s') = Ring3 ∨
     s' = s ∧ nobody_runs s).
Proof.
  intros [Hk Hr] Hc. unfold kernel_ok in Hk. rewrite Hc in Hk. unfold Calls.run_until_empty. rewrite (ke_space _ _ _ Hk).
  destruct (hand_over_spec hears kroot (kernel s) Hk Hc) as (k & -> & [[-> Hn]|(x & Hck & Hsw & Hsl & Hnext & Hx)]); cbn [mbind res_bind].
  - exists s. split; [|split; [split; [unfold kernel_ok; by rewrite Hc|done]|split; [done|by right]]].
    intros fuel. cbn [settle]. destruct s as [kk m d ev c t en]; cbn in *. by rewrite Hc.
  - assert (sys_ok (with_kernel s k)) as Hok.
    { split; [unfold kernel_ok; cbn [kernel with_kernel]; by rewrite Hck|]. apply rest_ok_kernel; [done|].
      intros j z. unfold slot_at. rewrite Hsl. apply (re_slots _ _ _ _ _ Hr j). }
    destruct (go_on_ok kroot roots there b d0 (with_kernel s k) (kernel_rsp x) Hok Hck) as (s' & Hgo & Hok' & Hcase).
    assert (control (kernel s') = Ring3) as H3.
    { destruct Hcase as [[H3 _]|(_ & _ & _ & Hnone & _)]; [done|]. exfalso.
      pose proof (next_after_spec (scheduler (kernel s)) (MAX_PROCESSES - 1)) as Hnx. rewrite Hnext in Hnx.
      destruct Hnx as [(y & Hy & Hcy) _]. rewrite (Hnone (current (scheduler k)) y) in Hcy; [done|].
      unfold slot_at, sched. cbn [kernel with_kernel]. rewrite Hsl. exact Hy. }
    exists s'. split; [|split; [done|split; [by rewrite (go_on_events _ _ Hgo)|by left]]].
    intros fuel. cbn [settle kernel with_kernel]. rewrite Hck, Hgo. cbn [mbind res_bind]. destruct fuel; cbn [settle]; by rewrite H3.
Qed.
End runs.
