(* ===== verification/Booted.v ===== *)
(** * A machine with processes in it

    [populated]: what loading keeps of the spaces side by side, and what the
    system calls ask of memory: no page a program may write holds a page
    table ([populated_steady]), and the pointer checks of a process just
    started are backed by its pages. *)

From S2P Require Import Prelude Words PhysMem FrameAlloc FrameAllocProofs Bytes Ipc FatFormat FatVolume FatFormatThms FatDisk FatRead Elf ElfThms Memory HalPaging PageTables PageWalk PageTree PageMap PageMapThms FramesZeroed Spaces PageThms Stacks Process Load LoadProofs LoadProgram LoadThms Scheduler Switching SchedProofs Events EventsThms Fs VolumeSafe FsThms Console Calls Acts SysProofs FatReadThms.
Local Open Scope Z_scope.

#[local] Opaque Tables.kernel_slots Tables.lower_slots.

Definition kernel_tree (m : Mem) (k : Z) : list Z := tree (read_entry m) Tables.kernel_slots 3 k.

(** A page a program writes: in use, and nobody's table. *)
Record page_fine (k : Z) (ps : list Z) (s : Machine) (a : Access) : Prop := {
  pf_size : a_size a = 4096;
  pf_frame : PageWalk.table_ok (a_base a);
  pf_taken : ¬ kernel_pool s.2 (a_base a);
  pf_kernel : a_base a ∉ kernel_tree s.1 k;
  pf_tables q : q ∈ ps → a_base a ∉ lower_tree s.1 q
}.

Record populated (k : Z) (ps : list Z) (s : Machine) : Prop := {
  po_spaces : spaces_ok k ps s;
  po_kernel va a : va_ok va → KERNEL_SPACE_BASE ≤ va → resolve k s.1 va = Some a → a_user a = false;
  po_pages p va a : p ∈ ps → va_ok va → resolve p s.1 va = Some a → a_user a = true → page_fine k ps s a
}.

Lemma resolve_canonical r m va a : in_width 64 va → resolve r m va = Some a → va_ok va.
Proof. intros Hw. unfold resolve. destruct (is_canonical va) eqn:Hc; [|done]. by split. Qed.

(** The tables of a process: its own below, the kernel's above. *)
Lemma subtables_split k ps s p x : spaces_ok k ps s → p ∈ ps → x ∈ subtables (read_entry s.1) 3 p →
  PageWalk.table_ok x ∧ (x ∈ lower_tree s.1 p ∨ x ∈ kernel_tree s.1 k).
Proof.
  intros Hok Hp Hx.
  assert (x ∈ lower_tree s.1 p ∨ x ∈ kernel_tree s.1 k) as Hin.
  { rewrite <-tree_slots in Hx. apply in_tree in Hx as [->|(i & Hi & Hx)]; [left; apply one_self|].
    apply in_slots in Hi. destruct (decide (i < 256)) as [Hlt|Hge].
    - left. apply (in_under _ _ _ i); [exact Hx|apply in_lower_slots; lia].
    - assert (i ∈ Tables.kernel_slots) as Hk by (apply in_kernel_slots; lia).
      right. apply (in_under _ _ _ i); [|exact Hk]. unfold under, child in *.
      destruct (has PRESENT (read_entry s.1 p i)) eqn:Hpr; cbn [andb] in Hx; [|by apply not_elem_of_nil in Hx].
      pose proof (sp_shared _ _ _ Hok p i Hp Hk Hpr) as He. rewrite He in Hpr, Hx. rewrite Hpr. exact Hx. }
  split; [|done]. destruct Hin as [Hin|Hin].
  - by apply (one_lower_table k ps s Hok p x Hp) in Hin as [? _].
  - by apply (one_kernel_table k ps s Hok x) in Hin as [? _].
Qed.

Lemma populated_steady k ps s : populated k ps s → steady s.1 ps.
Proof.
  intros [Hok _ Hpages] r x p Hr Hx (r' & va & a & Hr' & Hw & Ha & Hu & _ & ->).
  destruct (Hpages r' va a Hr' (resolve_canonical _ _ _ _ Hw Ha) Ha Hu) as [Hsz [_ Hal] _ Hker Htab].
  destruct (subtables_split k ps s r x Hok Hr Hx) as [[_ Hxa] Hin]. unfold physical. rewrite Hsz.
  assert (a_base a ≠ x) as Hne by (intros <-; destruct Hin; [by apply (Htab r)|done]).
  pose proof (Z.mod_pos_bound va 4096 eq_refl).
  pose proof (Z.div_mod (a_base a) 4096 ltac:(done)). pose proof (Z.div_mod x 4096 ltac:(done)). lia.
Qed.

(** ** Loading one more *)
Section loading.
  Context (k : Z) (ps : list Z) (s0 s : Machine).
  Hypothesis Hpop : populated k ps s0.
  Hypothesis Hg : good s.
  Hypothesis Hun : untouched s0 s.

Lemma loading_kernel_tree : kernel_tree s.1 k = kernel_tree s0.1 k.
Proof. apply (others_tree s0 s Hg Hun Tables.kernel_slots k kernel_range), Hpop. Qed.

Lemma loading_lower_tree p : p ∈ ps → lower_tree s.1 p = lower_tree s0.1 p.
Proof. intros Hp. apply (others_tree s0 s Hg Hun Tables.lower_slots p lower_range). by apply Hpop. Qed.

Lemma loading_kernel va a : va_ok va → KERNEL_SPACE_BASE ≤ va → resolve k s.1 va = Some a → a_user a = false.
Proof.
  intros Hv Hk. rewrite (others_kernel k ps s0 s (po_spaces _ _ _ Hpop) Hun va Hv Hk). by apply (po_kernel _ _ _ Hpop).
Qed.

Lemma loading_old p va a : p ∈ ps → va_ok va → resolve p s.1 va = Some a → a_user a = true → page_fine k ps s a.
Proof.
  intros Hp Hv. rewrite (others_resolve k ps s0 s (po_spaces _ _ _ Hpop) Hg Hun p va Hp Hv). intros Ha Hu.
  destruct (po_pages _ _ _ Hpop p va a Hp Hv Ha Hu) as [H1 H2 H3 H4 H5].
  split; [done|done| |by rewrite loading_kernel_tree|].
  - intros Hx. by apply H3, (un_pool _ _ Hun).
  - intros q Hq. rewrite loading_lower_tree by done. by apply H5.
Qed.

(** A load that fails. *)
Lemma loading_failed : populated k ps s.
Proof. split; [by apply (others_ok k ps s0 s); [apply Hpop|..]|exact loading_kernel|exact loading_old]. Qed.

Lemma loading_done c pages : layout_ok k s0 c pages s → populated k (c :: ps) s.
Proof.
  intros Hl. pose proof (others_and_one k ps s0 s (po_spaces _ _ _ Hpop) Hg Hun c pages Hl) as Hok.
  split; [exact Hok|exact loading_kernel|].
  assert (∀ x, x ∈ lower_tree s.1 c → kernel_pool s0.2 x) as Hnew by exact (lo_tables _ _ _ _ _ Hl).
  intros p va a [->|Hp]%elem_of_cons Hv Ha Hu.
  2: { destruct (loading_old p va a Hp Hv Ha Hu) as [H1 H2 H3 H4 H5]. split; [done..|].
       intros q [->|Hq]%elem_of_cons; [|by apply H5]. intros Hin%Hnew.
       rewrite (others_resolve k ps s0 s (po_spaces _ _ _ Hpop) Hg Hun p va Hp Hv) in Ha.
       by apply (pf_taken _ _ _ _ (po_pages _ _ _ Hpop p va a Hp Hv Ha Hu)). }
  destruct (decide (va < KERNEL_SPACE_BASE)) as [Hlt|Hge].
  - rewrite (lo_resolve _ _ _ _ _ Hl va Hv Hlt) in Ha. apply fmap_Some in Ha as (x & Hx & ->).
    destruct (lo_frame _ _ _ _ _ Hl _ _ Hx) as (H1 & H2 & H3 & H4 & _). split; cbn [leads_to a_size a_base]; [done..| |].
    + rewrite loading_kernel_tree. intros Hin. by apply (one_kernel_table k ps s0 (po_spaces _ _ _ Hpop)) in Hin as [_ ?].
    + intros q [->|Hq]%elem_of_cons; [done|]. rewrite loading_lower_tree by done. intros Hin.
      by apply (one_lower_table k ps s0 (po_spaces _ _ _ Hpop) q _ Hq) in Hin as [_ ?].
  - exfalso. apply Z.nlt_ge in Hge. rewrite (shared_resolve k (c :: ps) s c va Hok ltac:(left) Hv Hge) in Ha.
    case_match; [|done]. by rewrite (loading_kernel va a Hv Hge Ha) in Hu.
Qed.
End loading.

(** ** What a process just started may point at *)
Lemma owned_by_width rs ptr n va : 0 ≤ ptr → ptr ≤ va < ptr + n → owned_by rs ptr n = true → in_width 64 va.
Proof.
  unfold owned_by, checked_add, in_width. intros Hp Hva. case_match; [done|]. case_match eqn:He; [|done].
  case_match; simplify_eq. lia.
Qed.

(** Two addresses of a process never lead to the same byte. *)
Lemma pages_apart k s0 r pages s ptr n : layout_ok k s0 r pages s →
  (∀ va, ptr ≤ va < ptr + n → va_ok va ∧ va < KERNEL_SPACE_BASE) → apart r s.1 ptr n.
Proof.
  intros Hl Hlow va va' a a' Hva Hva'. destruct (Hlow va Hva) as [Hv Hlt], (Hlow va' Hva') as [Hv' Hlt'].
  rewrite (lo_resolve _ _ _ _ _ Hl va Hv Hlt), (lo_resolve _ _ _ _ _ Hl va' Hv' Hlt').
  intros (x & Hx & ->)%fmap_Some (x' & Hx' & ->)%fmap_Some. unfold physical. cbn [leads_to a_base a_size]. intros He.
  destruct (lo_frame _ _ _ _ _ Hl _ _ Hx) as ([_ Ha] & _), (lo_frame _ _ _ _ _ Hl _ _ Hx') as ([_ Ha'] & _).
  pose proof (Z.mod_pos_bound va 4096 eq_refl). pose proof (Z.mod_pos_bound va' 4096 eq_refl).
  pose proof (Z.div_mod (pi_frame x) 4096 ltac:(done)). pose proof (Z.div_mod (pi_frame x') 4096 ltac:(done)).
  assert (pi_frame x = pi_frame x') as Hf by lia.
  pose proof (lo_inj _ _ _ _ _ Hl _ _ _ _ Hx Hx' Hf).
  pose proof (Z.div_mod va 4096 ltac:(done)). pose proof (Z.div_mod va' 4096 ltac:(done)). lia.
Qed.

Lemma started_pointers k s0 file program stack p s : bytes_ok file → len file < 2 ^ 63 → Elf.parse file (2 ^ 47) = Ok program →
  started k s0 file program stack p s → pointers_ok s.1 p.
Proof.
  intros Hfile Hlen Hparse [(pages & fs & Hl & Hp & _) Ho Hw Hcount _ _] ptr n Hp0 Hn0.
  pose proof (parsed_fine file program Hfile Hlen Hparse) as Hfine.
  rewrite (proj1 (parsed_program file program Hfile Hlen Hparse)) in Ho, Hw, Hp, Hcount, Hfine.
  assert (∀ r w, (r, w) ∈ program_ranges (ElfSpec.loads file) → inside r ptr n → ∀ va, ptr ≤ va < ptr + n →
    in_width 64 va ∧ ∃ a, resolve (root (space p)) s.1 va = Some a ∧ a_user a = true ∧ (w = true → a_writable a = true)) as Hshown.
  { intros r w Hin [Ha Hb] va Hva. destruct (claims_fine file _ r w Hfine Hin) as (_ & _ & Hhi).
    destruct (range_shown _ _ _ _ _ _ _ r w va Hfine Hl Hp Hin) as (a & ? & ? & Hwr); [lia|].
    split; [unfold in_width; lia|]. exists a. split; [done|]. split; [done|]. intros ->. exact Hwr. }
  split; intros Hown.
  - unfold Proc.ranges in Hown. rewrite Ho in Hown.
    apply (owned_by_claims file _ _ ptr n (λ _, True)) in Hown as (_ & r & w & Hin & _ & Hi); try done.
    + intros va Hva. destruct (Hshown r w Hin Hi va Hva) as (? & a & ? & ? & _). split; [done|]. by exists a.
    + cbn. intros. split; [by intros [= ->]|by intros [-> _]].
  - unfold Proc.writable_ranges in Hown. rewrite Hw in Hown.
    apply (owned_by_claims file _ _ ptr n (λ w, w = true)) in Hown as (_ & r & w & Hin & -> & Hi); try done.
    + split; [intros va Hva; by apply (Hshown r true)|]. eapply pages_apart; [exact Hl|].
      intros va Hva. destruct (claims_fine file _ r true Hfine Hin) as (_ & _ & Hhi). destruct Hi as [Ha Hb].
      split; [apply va_ok_low; lia|unfold KERNEL_SPACE_BASE; lia].
    + unfold writable_of. intros r [] r'; cbn; split; [by intros [= ->]|by intros [-> _]|done|by intros [_ ?]].
Qed.

(** ** Joining the others *)
Section joining.
  Context {D E C : Type} `{!Sectors D E, !Disk D E, !Console C}.
  Context (k : Z) (ps : list Z) (there : bool) (b : BootSector) (d0 : content).
  Local Abbreviation System := (System D C).

Lemma slot_fit_loaded (s0 s : Machine) c x : populated k ps s0 → good s → untouched s0 s →
  slot_fit ps s0.1 x → (∀ q, q ∈ ps → q ∈ c) → slot_fit c s.1 x.
Proof.
  intros Hpop Hg Hun [H1 H2 H3 H4 H5] Hc. split; [by apply Hc| |done..]. intros ptr n Hp Hn.
  destruct (H2 ptr n Hp Hn) as [Ha Hb].
  assert (∀ va a, in_width 64 va → resolve (root (space (process x))) s0.1 va = Some a →
    resolve (root (space (process x))) s.1 va = Some a) as Hsame.
  { intros va a Hw Hr. rewrite (others_resolve k ps s0 s (po_spaces _ _ _ Hpop) Hg Hun _ va H1); [done|].
    by eapply resolve_canonical. }
  split.
  - intros Ho va Hva. destruct (Ha Ho va Hva) as (Hw & a & Hr & Hu). split; [done|]. exists a. split; [by apply Hsame|done].
  - intros Ho. destruct (Hb Ho) as [Hc' Hap]. split.
    + intros va Hva. destruct (Hc' va Hva) as (Hw & a & Hr & Hu). split; [done|]. exists a. split; [by apply Hsame|done].
    + intros va va' a a' Hva Hva' Hr Hr'. destruct (Hc' va Hva) as (Hw & z & Hz & _), (Hc' va' Hva') as (Hw' & z' & Hz' & _).
      rewrite (Hsame va z Hw Hz) in Hr. rewrite (Hsame va' z' Hw' Hz') in Hr'. simplify_eq. by apply (Hap va va' a a').
Qed.

(** What loading leaves of the system, with more spaces or the same. *)
Lemma system_loaded (sys : System) z (s : Machine) c : rest_ok ps there b d0 sys → populated k ps (memory sys, z) →
  untouched (memory sys, z) s → populated k c s → (∀ q, q ∈ ps → q ∈ c) → rest_ok c there b d0 (with_memory sys s.1).
Proof.
  intros [R1 R2 R3 R4 R5 R6] Hpop Hun Hpop' Hc. assert (good s) as Hg by apply (sp_kernel _ _ _ (po_spaces _ _ _ Hpop')).
  split; cbn [memory with_memory disk events ticks]; [apply Hg|by eapply populated_steady| |done..].
  intros j y Hy. by apply (slot_fit_loaded (memory sys, z) s); [..|apply (R3 j)|].
Qed.

Lemma system_joined (sys : System) c (m : Mem) p i t : rest_ok c there b d0 (with_memory sys m) →
  kernel_ok hears k (kernel sys) → control (kernel sys) = InKernel →
  root (space p) ∈ c → pointers_ok m p → files p = Files.new → add (sched sys) p = (Some i, t) →
  sys_ok k c there b d0 (with_sched (with_memory sys m) t).
Proof.
  intros [R1 R2 R3 R4 R5 R6] Hk Hc Hin Hptr Hfiles Hadd. unfold kernel_ok in Hk. rewrite Hc in Hk.
  pose proof (add_spec hears k (kernel sys) p Hk) as Ha. unfold sched in Hadd. rewrite Hadd in Ha.
  destruct Ha as (_ & Hke & x & Hx & Hp & Hst & Hm & Hother).
  split; [unfold kernel_ok; cbn; rewrite Hc; exact Hke|]. split; cbn [memory with_sched with_kernel with_memory disk events ticks]; try done.
  intros j y Hy. destruct (decide (j = i)) as [->|Hne]; [|apply (R3 j); rewrite <-Hother by done; exact Hy].
  assert (y = x) as -> by (unfold sched in Hy; cbn in Hy; congruence).
  pose proof (ke_rest _ _ _ Hke i x I Hx) as Hrest. unfold rested in Hrest. rewrite Hst in Hrest.
  split; rewrite ?Hp; [done|done| |by rewrite Hrest|by rewrite Hm].
  rewrite Hfiles. intros o Ho. by apply elem_of_replicate in Ho as [? _].
Qed.
End joining.

(** * A machine with two processes in it

    The machine of [LoadThms] with a disk, on which a program is loaded
    twice and handed the CPU: where the theorems of [SysThms] are applied. *)

Lemma ready_populated : populated 0x1000 [] ready.
Proof.
  split; [exact ready_spaces| |by intros p va a Hp%not_elem_of_nil].
  intros va a Hv Hk. unfold resolve. rewrite (proj2 Hv). pose proof (first_in_half va Hv) as Hf. rewrite (half_kernel va Hk) in Hf.
  pose proof (table_indices_ok va) as Hi. destruct (table_indices va) as [|i v]; [done|].
  apply indices_ok_cons in Hi as [_ Hi]. rewrite access_step. pose proof (ready_child i) as Hc. unfold child in *.
  destruct (has PRESENT _); [|done]. destruct (has HUGE _); cbn [andb negb] in *; [done|].
  destruct (Hc _ Hf eq_refl) as [-> He]. rewrite He. intros (a' & Ha' & ->)%fmap_Some.
  unfold restrict. cbn [a_user]. by rewrite (ready_no_user v a' Hi Ha'), andb_false_r.
Qed.

(** A console that has one key and swallows text. *)
#[export] Instance one_key : Console () := {
  console_read_key c := (Some (Char 104), c);
  console_write_str c _ := c
}.

(** Before any process: the kernel has the CPU, and a disk that is not its
    own is mounted. *)
Definition bare : System Dying () :=
  {| kernel := {| scheduler := new_scheduler; control := InKernel; KERNEL_RSP := InRunUntilEmpty; KERNEL_CR3 := 0;
                  cr3 := 0x1000; interrupt_stack := 0; syscall_stack := 0 |};
     memory := ready.1; disk := foreign_start.1; events := Events.new; console := Some (); ticks := 0; entered := FirstTime |}.

Local Abbreviation ok ps := (sys_ok (D:=Dying) (E:=()) (C:=()) 0x1000 ps true example_boot example_disk).

Lemma new_scheduler_empty i : slot_at (sched bare) i = None.
Proof.
  unfold slot_at, index. destruct (i <? 0); [done|]. change (slots (sched bare)) with (replicate 16 (@None (Slot Handler))).
  destruct (replicate 16 None !! Z.to_nat i) as [o|] eqn:Ho; [|done]. by apply lookup_replicate in Ho as [-> _].
Qed.

Lemma bare_ok : ok [] bare.
Proof.
  pose proof new_scheduler_empty as Hn. split.
  - split; [|done|done| | |done].
    + split; [done|done|]. intros i x Hx. unfold sched in Hn. by rewrite Hn in Hx.
    + intros i x _ Hx. unfold sched in Hn. by rewrite Hn in Hx.
    + intros i x Hx. unfold sched in Hn. by rewrite Hn in Hx.
  - split; [apply ready_good|exact (populated_steady _ _ _ ready_populated)| | |exact new_ring_ok|done].
    + intros i x Hx. by rewrite Hn in Hx.
    + exists {| Fs.device := {| FatDisk.disk := example_disk; left := 3 |}; Fs.boot := example_boot; Fs.ours := Fs.is_ours example_boot |}.
      split; [done|]. split; [done|done|exact example_disk_ok|done].
Qed.

(** One process more: spawned, and put in a slot. *)
Definition start_one (stack : KStack) (m : System Dying () * KernelFrames) : option (System Dying () * KernelFrames) :=
  match Loader.spawn_elf kernel_tables tiny_program ElfSpec.tiny stack (memory m.1, m.2) with
  | (Ok p, s) =>
      match add (sched m.1) p with
      | (Some _, t) => Some (with_sched (with_memory m.1 s.1) t, s.2)
      | _ => None
      end
  | _ => None
  end.

Definition machine_ok (ps : list Z) (m : System Dying () * KernelFrames) : Prop :=
  ok ps m.1 ∧ populated 0x1000 ps (memory m.1, m.2) ∧ control (kernel m.1) = InKernel.

Lemma start_one_ok ps stack m m' : machine_ok ps m → start_one stack m = Some m' → ∃ p, machine_ok (p :: ps) m'.
Proof.
  intros ([Hk Hr] & Hpop & Hc). unfold start_one.
  destruct (spawn_elf_facts WINDOW 0x1000 ps ElfSpec.tiny tiny_program stack (memory m.1, m.2)) as (r & s & Hsp & Hg & Hun & Hcase);
    [exact tiny_bytes|reflexivity|vm_compute; reflexivity|apply Hpop|].
  change {| root := 0x1000; base := WINDOW |} with kernel_tables in Hsp. rewrite Hsp. destruct r as [p|e| |]; [|done..].
  destruct (add (sched m.1) p) as [[i|] t] eqn:Hadd; [|done]. intros [= <-]. destruct Hcase as [Hst _].
  pose proof Hst as [(pages & fs & Hl & _) _ _ _ _ [_ Hfiles]].
  assert (populated 0x1000 (root (space p) :: ps) s) as Hpop' by (by eapply loading_done).
  exists (root (space p)). split; [|split; [by destruct s|exact Hc]].
  eapply system_joined; [|exact Hk|exact Hc|left| |exact Hfiles|exact Hadd].
  - apply (system_loaded 0x1000 ps true example_boot example_disk m.1 m.2 s); try done. intros q. by right.
  - eapply started_pointers; [exact tiny_bytes|reflexivity|vm_compute; reflexivity|exact Hst].
Qed.

Definition stack_one : KStack := {| bottom := 0xFFFFB00000001000; top := 0xFFFFB00000005000 |}.
Definition stack_two : KStack := {| bottom := 0xFFFFB00000006000; top := 0xFFFFB0000000A000 |}.

Definition load_two (m : System Dying () * KernelFrames) : option (System Dying () * KernelFrames) :=
  start_one stack_one m ≫= start_one stack_two.

Local Abbreviation loaded_two := (load_two (bare, ready.2)).

Definition handed_to (m : option (System Dying () * KernelFrames)) : System Dying () :=
  match m with
  | Some m => match run_until_empty 1 m.1 with Ok s => s | _ => bare end
  | None => bare
  end.

Definition booted : System Dying () := handed_to loaded_two.

Lemma two_ok m0 m : machine_ok [] m0 → load_two m0 = Some m → ∃ ps, machine_ok ps m.
Proof.
  intros H0. unfold load_two. destruct (start_one stack_one m0) as [m1|] eqn:H1; [|done]. cbn [mbind option_bind]. intros H2.
  destruct (start_one_ok [] stack_one m0 m1 H0 H1) as (p1 & Hok1).
  destruct (start_one_ok [p1] stack_two m1 m Hok1 H2) as (p2 & Hok2). by exists [p2; p1].
Qed.

Lemma bare_machine_ok : machine_ok [] (bare, ready.2).
Proof. split; [exact bare_ok|]. split; [exact ready_populated|exact eq_refl]. Qed.

Lemma loaded_two_is : is_Some loaded_two.
Proof. refine (bool_decide_unpack _ _). vm_compute. exact I. Qed.

Lemma booted_loaded : ∃ m ps, loaded_two = Some m ∧ machine_ok ps m.
Proof.
  destruct loaded_two_is as [m Hm]. exists m.
  destruct (two_ok (bare, ready.2) m bare_machine_ok Hm) as [ps Hps]. exists ps. split; [exact Hm|exact Hps].
Qed.

Lemma booted_ok : ∃ ps, ok ps booted ∧ control (kernel booted) = Ring3.
Proof.
  destruct booted_loaded as (m & ps & Hm & Hok & _ & Hc).
  assert (control (kernel booted) = Ring3) as H3 by (vm_compute; reflexivity).
  destruct (hand_over_ok 0x1000 ps true example_boot example_disk m.1 Hok Hc) as (s & Hrun & Hok' & _ & _).
  exists ps. split; [|exact H3]. unfold booted. rewrite Hm. unfold handed_to. change (Calls.run_until_empty 1 m.1) with (run_until_empty 1 m.1). rewrite (Hrun 0%nat). exact Hok'.
Qed.

Lemma booted_ring3 : control (kernel booted) = Ring3.
Proof. vm_compute. reflexivity. Qed.

Lemma booted_written : Events.written (events booted) = 0.
Proof. vm_compute. reflexivity. Qed.

Lemma loaded_written m : loaded_two = Some m → Events.written (events m.1) = 0.
Proof.
  assert (match loaded_two with Some m => Events.written (events m.1) =? 0 | None => false end = true) as Hw by (vm_compute; reflexivity).
  revert Hw. generalize loaded_two. intros o Hw ->. by apply Z.eqb_eq.
Qed.

(** ** What its programs and its devices do *)
Definition no_bytes (_ : option (Fs.Mounted Dying)) (_ : DirectoryEntry) (_ _ : Z) : list Z := [].
Definition no_change (_ : Z) (c : ()) : () := c.

Lemma no_bytes_ok d e p n : bytes_ok (no_bytes d e p n).
Proof. constructor. Qed.

Definition clock : event := Interrupt {| vector := 0x20; cs := 0x1B |} 0.
(** A call with [n] in [rax] and up to four arguments. *)
Definition call (n a1 a2 a3 a4 : Z) : SyscallFrame := {| rax := n; rdi := a1; rsi := a2; rdx := a3; r10 := a4; r8 := 0; r9 := 0; user_rip := 0x400000; user_rflags := 0x202 |}.

(** [open] of a name in the program's own code, a write to a pointer of the
    kernel's, a message to the other process, an unknown call, the clock,
    a page fault of the other process, and the end of the first. *)
Definition some_events : list event :=
  [Syscall (call 5 0x400000 1 0 0); Syscall (call 8 0xFFFF800000000000 4 0x400000 1); Syscall (call 3 1 0x400000 1 0);
   Syscall (call 99 0 0 0 0); clock; Interrupt {| vector := 14; cs := 0x1B |} 0; Syscall (call 1 0 0 0 0)].

Lemma some_events_behaved s : behaved () no_bytes no_change s some_events.
Proof.
  assert (∀ es s, Forall (λ e, match e with Syscall f => frame_ok f ∧ rax f ≠ 4 | Interrupt f _ => came_from_ring_3 (cs f) = true end) es →
    behaved () no_bytes no_change s es) as H.
  { induction es as [|e es IH]; intros s' H; [done|]. apply Forall_cons in H as [He Hes]. split; [|intros; by apply IH].
    destruct e as [f|f code]; [|done]. destruct He as [Hf Hn]. split; [done|]. by intros ?. }
  apply H. repeat constructor; cbn; unfold in_width; done || lia.
Qed.
