(* ===== verification/SysThms.v ===== *)
(** * What the running system guarantees

    [kernel_survives]: programs that receive only into memory they may write
    cannot stop the kernel.  [process_isolated]: nor reach another process
    but by a message.  [every_turn_comes]: whoever can run is given the CPU.
    [step_settles]: every call and interrupt ends.  [spawned_joins]: loading a
    program leads from one such system to another. *)

From S2P Require Import Prelude Words PhysMem FrameAlloc FrameAllocProofs Bytes Ipc FatFormat FatVolume FatFormatThms FatDisk FatRead FatReadThms Elf ElfThms Memory HalPaging PageTables PageWalk PageTree PageMap PageMapThms FramesZeroed Spaces PageThms Stacks Process Load LoadProofs LoadProgram LoadThms Scheduler Switching SchedProofs Events EventsThms Fs VolumeSafe FsThms Console Calls Acts SysProofs Booted.
Local Open Scope Z_scope.

#[local] Opaque Tables.kernel_slots Tables.lower_slots.

Section system.
  Context {D E C : Type} `{!Sectors D E, !Disk D E, !Console C} (not_our_disk : E).
  Context (partly : option (Fs.Mounted D) → DirectoryEntry → Z → Z → list Z).
  Hypothesis partly_ok : ∀ d e p n, bytes_ok (partly d e p n).
  Context (on_irq : Z → C → C).
  Context (kroot : Z) (roots : list Z).
  Context (there : bool) (b : BootSector) (Hg : geometry b) (d0 : content).
  Local Abbreviation System := (System D C).
  Local Abbreviation sys_ok := (sys_ok kroot roots there b d0).
  Local Abbreviation step := (step not_our_disk partly on_irq).
  Local Abbreviation run_events := (run_events not_our_disk partly on_irq).
  Local Abbreviation behaved := (behaved not_our_disk partly on_irq).

(** ** One step *)
Lemma step_safe (s : System) e : sys_ok s → control (kernel s) = Ring3 → event_ok s e → Events.written (events s) + 1 < 2 ^ 64 →
  ∃ s', (∀ fuel, step (S fuel) s e = Ok s') ∧ sys_ok s' ∧
    Events.written (events s) ≤ Events.written (events s') ≤ Events.written (events s) + 1 ∧
    (control (kernel s') = Ring3 ∨ control (kernel s') = InKernel ∧ all_dead s').
Proof.
  intros Hok Hc He Hw.
  destruct (step_spec not_our_disk partly partly_ok on_irq kroot roots there b Hg d0 s e Hok Hc He Hw)
    as (s1 & s' & _ & _ & Hst & Hok' & Hw' & Hcase).
  exists s'. split; [done|]. split; [done|]. split; [done|].
  destruct Hcase as [[? _]|(? & ? & _)]; [by left|by right].
Qed.

Lemma events_safe es : ∀ s : System, sys_ok s → control (kernel s) = Ring3 → behaved s es →
  Events.written (events s) + len es < 2 ^ 64 →
  ∃ s', run_events s es = Ok s' ∧ sys_ok s' ∧ (control (kernel s') = Ring3 ∨ control (kernel s') = InKernel ∧ all_dead s').
Proof.
  induction es as [|e es IH]; intros s Hok Hc Hb Hw; cbn [SysProofs.run_events].
  { exists s. split; [done|]. split; [done|by left]. }
  destruct Hb as [He Hb]. rewrite len_cons in Hw. pose proof (len_nonneg es).
  destruct (step_safe s e Hok Hc He ltac:(lia)) as (s1 & Hs1 & Hok1 & Hw1 & Hcase). rewrite (Hs1 0%nat). cbn [mbind res_bind].
  destruct Hcase as [H3|[H3 Hd]]; rewrite H3.
  - apply IH; [done|done|by apply Hb|lia].
  - exists s1. split; [done|]. split; [done|by right].
Qed.

(** C1: Programs that receive only into memory they may write cannot stop the
    kernel ([recv_read_only] is how another one does).  From any state of the
    running system that satisfies its invariant, whatever sequence of system calls with
    whatever numbers in their registers, faults, keystrokes and clock ticks
    the processes and the machine produce, nothing panics and nothing hangs;
    the invariant holds again after each (so the CPU is in ring 3 with the
    page tables, stacks and files of a live process); and when the kernel
    has the CPU back every process is dead. *)
Theorem kernel_survives es (s : System) :
  sys_ok s → control (kernel s) = InKernel → Events.written (events s) + len es < 2 ^ 64 →
  ∃ s0, run_until_empty 1 s = Ok s0 ∧ sys_ok s0 ∧
    match control (kernel s0) with
    | Ring3 => behaved s0 es → ∃ s', run_events s0 es = Ok s' ∧ sys_ok s' ∧
        (control (kernel s') = Ring3 ∨ control (kernel s') = InKernel ∧ all_dead s')
    | InKernel => s0 = s ∧ nobody_runs s
    | _ => False
    end.
Proof.
  intros Hok Hc Hw. destruct (hand_over_ok kroot roots there b d0 s Hok Hc) as (s0 & Hrun & Hok0 & Hev & Hcase).
  exists s0. split; [apply Hrun|]. split; [done|]. destruct Hcase as [H3|[-> Hn]].
  - rewrite H3. intros Hb. apply events_safe; [done..|by rewrite Hev].
  - by rewrite Hc.
Qed.

(** Every call and every interrupt ends: one round behind a switch is
    enough for any fuel, so the answer never depends on it, and the CPU is in
    ring 3 again or back with the kernel. *)
Theorem step_settles (s : System) e fuel :
  sys_ok s → control (kernel s) = Ring3 → event_ok s e → Events.written (events s) + 1 < 2 ^ 64 →
  ∃ s', step (S fuel) s e = Ok s' ∧ step 1 s e = Ok s' ∧ (control (kernel s') = Ring3 ∨ control (kernel s') = InKernel).
Proof.
  intros Hok Hc He Hw. destruct (step_safe s e Hok Hc He Hw) as (s' & Hst & _ & _ & Hcase).
  exists s'. split; [apply Hst|]. split; [apply Hst|]. destruct Hcase as [?|[? _]]; [by left|by right].
Qed.

(** C2: A process reaches the others by messages alone.  Over a step of the
    system (but a [recv] into memory the process may not write, which may
    stop the kernel), every byte of physical memory that changes is one that the
    process that had the CPU, or the one that has it now, may write through
    its own page tables at addresses it owns; every address of every process
    leads where it led; of a process that had not the CPU nothing has
    changed at all, unless a message from one of the two has been put in its
    empty mailbox. *)
Theorem process_isolated (s s' : System) e :
  sys_ok s → control (kernel s) = Ring3 → event_ok s e → Events.written (events s) + 1 < 2 ^ 64 → step 1 s e = Ok s' →
  (∀ p, Ram.byte (memory s') p ≠ Ram.byte (memory s) p →
     may_write (sched s) (memory s) (current (sched s)) p ∨
     control (kernel s') = Ring3 ∧ may_write (sched s) (memory s) (current (sched s')) p) ∧
  (control (kernel s') = Ring3 → ∀ j x, slot_at (sched s) j = Some x →
     ∃ x', slot_at (sched s') j = Some x' ∧ same_process x x' ∧
       (∀ va, resolve (space_of x) (memory s') va = resolve (space_of x) (memory s) va) ∧
       (j ≠ current (sched s) → j ≠ current (sched s') →
          x' = x ∨ mailed (current (sched s)) x x' ∨ mailed (current (sched s')) x x')).
Proof.
  intros Hok Hc He Hw Hst.
  destruct (step_spec not_our_disk partly partly_ok on_irq kroot roots there b Hg d0 s e Hok Hc He Hw)
    as (s1 & s2 & (_ & _ & _ & Ha) & _ & Hst' & _ & _ & Hcase). assert (s2 = s') as -> by (specialize (Hst' 0%nat); congruence).
  destruct Hcase as [[H3 [Hb Hcur]]|(H3 & _ & Hm & _)]; (split; [|intros H3'; try congruence]).
  - intros p Hp. destruct (decide (Ram.byte (memory s1) p = Ram.byte (memory s) p)) as [Hs|Hs]; [right|left; by apply (ac_mem _ _ _ _ _ Ha)].
    split; [done|]. rewrite Hcur. apply (acts_may_write _ _ _ _ _ _ _ Ha), (ac_mem _ _ _ _ _ Hb). congruence.
  - intros j x Hx. rewrite Hcur. by apply (acts_after _ _ _ _ _ _ _ _ _ _ Ha Hb).
  - intros p Hp. left. apply (ac_mem _ _ _ _ _ Ha). congruence.
Qed.

(** ** Turns *)
(** [i] is given the CPU, at the latest when [es] are over. *)
Fixpoint gets_cpu (i : Z) (s : System) (es : list event) : Prop :=
  current (sched s) = i ∨
  match es with
  | [] => False
  | e :: es => ∃ s', step 1 s e = Ok s' ∧ control (kernel s') = Ring3 ∧ gets_cpu i s' es
  end.

Definition ticks_in (es : list event) : Z := len (filter (λ e, is_tick e = true) es).

(** A step of somebody else: [i]'s turn is no further away, and nearer if
    the clock ticked. *)
Lemma turn_nearer (s : System) e i x : sys_ok s → control (kernel s) = Ring3 → event_ok s e →
  Events.written (events s) + 1 < 2 ^ 64 → slot_at (sched s) i = Some x → can_run (state x) = true → current (sched s) ≠ i →
  ∃ s', step 1 s e = Ok s' ∧ sys_ok s' ∧ control (kernel s') = Ring3 ∧
    Events.written (events s') ≤ Events.written (events s) + 1 ∧
    (current (sched s') = i ∨
     (∃ x', slot_at (sched s') i = Some x' ∧ can_run (state x') = true) ∧
     turns MAX_PROCESSES (current (sched s')) i + (if is_tick e then 1 else 0) ≤ turns MAX_PROCESSES (current (sched s)) i).
Proof.
  intros Hok Hc He Hw Hx Hr Hne.
  destruct (step_spec not_our_disk partly partly_ok on_irq kroot roots there b Hg d0 s e Hok Hc He Hw)
    as (s1 & s' & (Hok1 & Hends & _ & Ha) & Htick & Hst & Hok' & Hw' & Hcase).
  destruct (acts_runs _ _ _ _ _ i x Ha (not_eq_sym Hne) Hx Hr) as (x1 & Hx1 & Hr1).
  destruct Hcase as [[H3 [Hb Hcur]]|(_ & _ & _ & Hn)]; [|by rewrite (Hn i x1 Hx1) in Hr1].
  exists s'. split; [apply Hst|]. split; [done|]. split; [done|]. split; [lia|].
  destruct (decide (current (sched s') = i)) as [|Hne']; [by left|right]. rewrite Hcur in Hne'.
  split; [by apply (acts_runs _ _ _ _ _ i x1 Hb (not_eq_sym Hne'))|].
  pose proof (ow_table _ _ _ (proj1 (ring3_serving kroot roots there b d0 s Hok Hc))) as Ht.
  pose proof (slot_at_bound _ _ _ Hx) as Hi. unfold sched in Hi. rewrite (tb_len _ Ht) in Hi.
  pose proof (tb_current _ Ht) as Hcu. fold (sched s) in Hcu.
  assert (0 ≤ current (sched s1) < MAX_PROCESSES) as Hcu1.
  { rewrite <-Hcur. exact (tb_current _ (ow_table _ _ _ (proj1 (ring3_serving kroot roots there b d0 s' Hok' H3)))). }
  rewrite Hcur. assert (first_of (sched s) (current (sched s)) (current (sched s1)) →
    turns MAX_PROCESSES (current (sched s1)) i + 1 ≤ turns MAX_PROCESSES (current (sched s)) i) as Hless.
  { intros Hf. specialize (Hf i x Hx Hr).
    pose proof (turns_less MAX_PROCESSES (current (sched s)) i (current (sched s1)) ltac:(done) Hi Hcu1 Hne' Hf). lia. }
  destruct (is_tick e); [by apply Hless, Htick|]. rewrite Z.add_0_r.
  destruct Hends as [[_ ->]|[_ Hf]]; [done|]. specialize (Hless Hf). lia.
Qed.

(** C3: Every turn comes.  A process that can run is given the CPU, whatever
    the others do that does not stop the kernel (they receive only into
    memory they may write), before the clock has ticked more often than there are
    slots between: fifteen ticks are enough for anybody. *)
Theorem every_turn_comes es i : ∀ (s : System) x,
  sys_ok s → control (kernel s) = Ring3 → behaved s es → Events.written (events s) + len es < 2 ^ 64 →
  slot_at (sched s) i = Some x → can_run (state x) = true →
  turns MAX_PROCESSES (current (sched s)) i < ticks_in es → gets_cpu i s es.
Proof.
  induction es as [|e es IH]; intros s x Hok Hc Hb Hw Hx Hr Ht.
  { pose proof (turns_bound MAX_PROCESSES (current (sched s)) i ltac:(done)). unfold ticks_in, len in Ht. cbn in Ht. lia. }
  destruct (decide (current (sched s) = i)) as [|Hne]; [by left|right].
  destruct Hb as [He Hb]. rewrite len_cons in Hw. pose proof (len_nonneg es).
  destruct (turn_nearer s e i x Hok Hc He ltac:(lia) Hx Hr Hne) as (s' & Hs' & Hok' & H3 & Hw' & Hcase).
  exists s'. split; [done|]. split; [done|]. destruct Hcase as [Hi|[(x' & Hx' & Hr') Hle]]; [by destruct es; left|].
  apply (IH s' x'); try done; [by apply Hb|lia|]. unfold ticks_in in *. rewrite filter_cons in Ht.
  case_decide as Hd; [rewrite Hd in Hle; rewrite len_cons in Ht; lia|]. destruct (is_tick e); [done|lia].
Qed.
End system.

Local Abbreviation example_step := (step () no_bytes no_change).

Lemma kernel_survives_witness : ∃ m s', load_two (bare, ready.2) = Some m ∧ run_until_empty 1 m.1 = Ok booted ∧
  run_events () no_bytes no_change booted some_events = Ok s' ∧
  (control (kernel s') = Ring3 ∨ control (kernel s') = InKernel ∧ all_dead s').
Proof.
  destruct booted_loaded as (m & ps & Hm & Hok & _ & Hc).
  destruct (kernel_survives () no_bytes no_bytes_ok no_change 0x1000 ps true example_boot example_geometry example_disk
    some_events m.1 Hok Hc) as (s0 & Hrun & _ & H3).
  { rewrite (loaded_written m Hm). vm_compute. reflexivity. }
  assert (booted = s0) as <- by (unfold booted, handed_to; rewrite Hm, Hrun; reflexivity).
  rewrite booted_ring3 in H3. destruct (H3 (some_events_behaved booted)) as (s' & Hs' & _ & Hend).
  exists m, s'. split; [exact Hm|]. split; [exact Hrun|]. split; [exact Hs'|exact Hend].
Defined.

Lemma step_settles_witness : ∃ s', example_step 3 booted clock = Ok s' ∧ example_step 1 booted clock = Ok s'.
Proof.
  destruct booted_ok as (ps & Hok & Hc).
  destruct (step_settles () no_bytes no_bytes_ok no_change 0x1000 ps true example_boot example_geometry example_disk
    booted clock 2 Hok Hc) as (s' & H1 & H2 & _); [exact eq_refl|rewrite booted_written; reflexivity|].
  exists s'. exact (conj H1 H2).
Defined.

Lemma process_isolated_witness : ∃ s', example_step 1 booted clock = Ok s' ∧
  ∀ p, Ram.byte (memory s') p ≠ Ram.byte (memory booted) p →
    may_write (sched booted) (memory booted) (current (sched booted)) p ∨
    control (kernel s') = Ring3 ∧ may_write (sched booted) (memory booted) (current (sched s')) p.
Proof.
  destruct booted_ok as (ps & Hok & Hc).
  destruct (step_safe () no_bytes no_bytes_ok no_change 0x1000 ps true example_boot example_geometry example_disk booted clock Hok Hc)
    as (s' & Hst & _); [exact eq_refl|rewrite booted_written; reflexivity|].
  exists s'. split; [exact (Hst 0%nat)|].
  apply (process_isolated () no_bytes no_bytes_ok no_change 0x1000 ps true example_boot example_geometry example_disk
    booted s' clock Hok Hc); [exact eq_refl|rewrite booted_written; reflexivity|exact (Hst 0%nat)].
Defined.

Lemma every_turn_comes_witness : gets_cpu () no_bytes no_change 1 booted [clock; clock].
Proof.
  destruct booted_ok as (ps & Hok & Hc).
  destruct (slot_at (sched booted) 1) as [x|] eqn:Hx; [|exfalso].
  2: { assert (bool_decide (is_Some (slot_at (sched booted) 1)) = true) as Hs by (vm_compute; reflexivity). rewrite Hx in Hs. discriminate Hs. }
  apply (every_turn_comes () no_bytes no_bytes_ok no_change 0x1000 ps true example_boot example_geometry example_disk
    [clock; clock] 1 booted x Hok Hc).
  - split; [exact eq_refl|]. intros s' _ _. split; [exact eq_refl|]. intros; exact I.
  - rewrite booted_written. reflexivity.
  - exact Hx.
  - assert (can_run <$> (state <$> slot_at (sched booted) 1) = Some true) as Hs by (vm_compute; reflexivity).
    rewrite Hx in Hs. by injection Hs.
  - assert (current (sched booted) = 0) as -> by (vm_compute; reflexivity). vm_compute. reflexivity.
Defined.

(** C4: Loading a program leads from one such system to another.  From a
    machine with spaces side by side, whose pages that programs may write are
    nobody's tables, and a system that satisfies its invariant, spawning a
    process from any file the ELF reader accepts never panics; when it
    succeeds and a slot is free, the system with the new process in it
    satisfies the invariant again, and when it fails the old one does. *)
Theorem spawned_joins {D E C : Type} `{!Sectors D E, !Disk D E, !Console C}
    window k ps (there : bool) (b : BootSector) (d0 : content) file program stack (s : System D C) z :
  bytes_ok file → len file < 2 ^ 63 → Elf.parse file (2 ^ 47) = Ok program →
  sys_ok k ps there b d0 s → control (kernel s) = InKernel → populated k ps (memory s, z) →
  let '(r, (m, z')) := Loader.spawn_elf {| root := k; base := window |} program file stack (memory s, z) in
  match r with
  | Ok p => populated k (root (space p) :: ps) (m, z') ∧
      ∀ i t, add (sched s) p = (Some i, t) → sys_ok k (root (space p) :: ps) there b d0 (with_sched (with_memory s m) t)
  | Err _ => populated k ps (m, z') ∧ sys_ok k ps there b d0 (with_memory s m)
  | Panic | Diverge => False
  end.
Proof.
  intros Hfile Hlen Hparse [Hk Hr] Hc Hpop.
  destruct (spawn_elf_facts window k ps file program stack (memory s, z) Hfile Hlen Hparse (po_spaces _ _ _ Hpop))
    as (r & [m z'] & -> & Hg & Hun & Hcase).
  destruct r as [p|e| |]; [| |done..].
  - destruct Hcase as [Hst _]. pose proof Hst as [(pages & fs & Hl & _) _ _ _ _ [_ Hfiles]].
    assert (populated k (root (space p) :: ps) (m, z')) as Hpop' by (by eapply loading_done).
    split; [exact Hpop'|]. intros i t Hadd. eapply system_joined; [|exact Hk|exact Hc|left| |exact Hfiles|exact Hadd].
    + apply (system_loaded k ps there b d0 s z (m, z')); try done. intros q. by right.
    + exact (started_pointers _ _ _ _ _ _ _ Hfile Hlen Hparse Hst).
  - assert (populated k ps (m, z')) as Hpop' by (by eapply loading_failed). split; [exact Hpop'|].
    split; [exact Hk|]. by apply (system_loaded k ps there b d0 s z (m, z')).
Qed.

Lemma spawned_joins_witness : ∃ p s, Loader.spawn_elf kernel_tables tiny_program ElfSpec.tiny stack_one (memory bare, ready.2) = (Ok p, s) ∧
  populated 0x1000 [root (space p)] s.
Proof.
  pose proof (spawned_joins WINDOW 0x1000 [] true example_boot example_disk ElfSpec.tiny tiny_program stack_one bare ready.2
    tiny_bytes eq_refl ltac:(vm_compute; reflexivity) bare_ok eq_refl ready_populated) as Hj.
  change {| root := 0x1000; base := WINDOW |} with kernel_tables in Hj.
  destruct (Loader.spawn_elf kernel_tables tiny_program ElfSpec.tiny stack_one (memory bare, ready.2)) as [r [m z]] eqn:Hsp.
  assert (match r with Ok _ => true | _ => false end = true) as Hr.
  { change r with ((r, (m, z)).1). rewrite <-Hsp. vm_compute. reflexivity. }
  destruct r as [p|e| |]; [|discriminate Hr..]. exists p, (m, z). split; [reflexivity|]. exact (proj1 Hj).
Defined.
