(* ===== verification/MessageThms.v ===== *)
(** * A message from one process to another

    [send_exact] and [receive_exact]: what each of the two calls does on
    every branch, down to the bytes of memory.  [recv_read_only]: the one way
    a program stops the kernel. *)

From S2P Require Import Prelude Words PhysMem FrameAlloc FrameAllocProofs Bytes Ipc FatFormat FatVolume FatFormatThms FatDisk FatRead FatReadThms Elf ElfThms Memory HalPaging PageTables PageWalk PageTree PageMap PageMapThms FramesZeroed Spaces PageThms Stacks Process Load LoadProofs LoadProgram LoadThms Scheduler Switching SchedProofs Events EventsThms Fs VolumeSafe FsThms Console Calls Acts SysProofs Booted.
Local Open Scope Z_scope.

#[local] Opaque Tables.kernel_slots Tables.lower_slots.

Section messages.
  Context {D E C : Type} `{!Sectors D E, !Disk D E, !Console C} (not_our_disk : E).
  Context (partly : option (Fs.Mounted D) → DirectoryEntry → Z → Z → list Z).
  Context (on_irq : Z → C → C).
  Context (kroot : Z) (roots : list Z).
  Context (there : bool) (b : BootSector) (d0 : content).
  Local Abbreviation System := (System D C).
  Local Abbreviation sys_ok := (sys_ok kroot roots there b d0).
  Local Abbreviation step := (step not_our_disk partly on_irq).

(** Back in ring 3 with [n] in [rax]. *)
Definition told (s : System) (f : SyscallFrame) (n : Z) : System := enter s (Answered (with_rax f (wrap 64 n))).

Lemma settle_told (s : System) f n fuel : settle (S fuel) (told s f n) = Ok (told s f n).
Proof. done. Qed.

(** C5: Sending, on every branch.  A stretch that is not the sender's, is
    empty or is longer than a mailbox is refused; so is a slot nobody lives
    in, and a mailbox that is full; none of these changes anything.
    Otherwise exactly the bytes at the pointer are in the receiver's
    mailbox, under the sender's own slot number, a receiver who waited can
    run again, and the sender is told the length. *)
Theorem send_exact (s : System) f x :
  sys_ok s → control (kernel s) = Ring3 → frame_ok f → rax f = 3 → slot_at (sched s) (current (sched s)) = Some x →
  let gives s' := step 1 s (Syscall f) = Ok s' in
  if negb (owned_by (Proc.ranges (process x)) (rsi f) (rdx f)) || (CAPACITY <? rdx f) then gives (told s f ERR_BAD_ARGUMENT)
  else ∃ msg, read_memory s (rsi f) (rdx f) = Ok msg ∧ len msg = rdx f ∧
    match slot_at (sched s) (rdi f) with
    | Some y =>
        if decide (state y = Dead) then gives (told s f ERR_NO_SUCH_PROCESS)
        else if decide (Ipc.content (mailbox y) = None)
        then ∃ m, Ipc.content m = Some (current (sched s), msg) ∧
          gives (told (with_sched s (set_slot (sched s) (rdi f) (posted y m))) f (rdx f))
        else gives (told s f ERR_MAILBOX_FULL)
    | None => gives (told s f ERR_NO_SUCH_PROCESS)
    end.
Proof.
  intros Hok Hc [[H1 _] [H2 _] [H3 _] _] Hrax Hx gives. pose proof (ring3_serving kroot roots there b d0 s Hok Hc) as Hs.
  unfold gives, Calls.step, handle. rewrite (running_ok kroot roots there b d0 s x Hs Hx). cbn [mbind res_bind].
  unfold serve. rewrite Hrax. change (CallNumber.from 3) with (Some Send). unfold call_send.
  change (running_owns (who s x)) with (owned_by (Proc.ranges (process x))).
  destruct (negb (owned_by (Proc.ranges (process x)) (rsi f) (rdx f)) || (CAPACITY <? rdx f)) eqn:Hg; [done|].
  apply orb_false_iff in Hg as [Ho%negb_false_iff Hcap%Z.ltb_ge].
  destruct (memory_read_ok kroot roots there b d0 s x _ _ Hs Hx H2 H3 Ho) as (msg & Hm & Hl & _). exists msg. rewrite Hm. cbn [mbind res_bind].
  split; [done|]. split; [done|].
  pose proof (slot_deliver_spec (sched s) (rdi f) (r_slot (who s x)) msg (ow_table _ _ _ (proj1 Hs))) as Hd.
  assert (0 < rdx f) as Hpos.
  { destruct (Z.eq_dec (rdx f) 0) as [He|]; [|lia]. rewrite He in Ho. done. }
  destruct (deliver (sched s) (rdi f) (r_slot (who s x)) msg) as [[d t]|[]| |]; [| | | |done..].
  - destruct Hd as (y & m & Hy & Hnd & Hn & _ & _ & Hcm & _ & ->). rewrite Hy, decide_False, decide_True by done.
    exists m. split; [exact Hcm|done].
  - destruct (slot_at (sched s) (rdi f)) as [y|]; [|done]. by rewrite decide_True by auto.
  - destruct Hd as (_ & y & Hy & Hnd & Hn). rewrite Hy. by rewrite !decide_False by done.
  - exfalso. destruct Hd as [->|Hd]; [change (len []) with 0 in Hl|]; lia.
Qed.

(** C6: Receiving.  Memory that is not the process's own is refused, whoever
    sent what; memory that is leads to [receive].  And [receive] of [rsi f]
    bytes of memory that the process may write, whether it has just asked or
    has been woken, on every branch.  (Memory that is its own but not to be
    written is the case of [recv_read_only].)  A message that fits is in that memory byte for byte, its length and its
    sender are in the registers, and the mailbox is empty; nothing outside
    the message's bytes has changed.  A message that does not fit stays
    where it is.  With none there, the process waits if anybody else can
    run, and is told that nobody could send one if not. *)
Theorem receive_exact (s : System) f r x :
  serving kroot roots there b d0 s → slot_at (sched s) (current (sched s)) = Some x →
  call_recv s f (who s x) =
    (if owned_by (Proc.ranges (process x)) (rdi f) (rsi f) then receive s f (who s x) else Ok (told s f ERR_BAD_ARGUMENT)) ∧
  (hearing_ok (process x) f →
  match Ipc.content (mailbox x) with
  | Some (frm, msg) =>
      if decide (len msg ≤ rsi f)
      then ∃ m mb, receive s f r = Ok (told (with_memory (with_sched s (set_slot (sched s) (current (sched s)) (with_mailbox x mb))) m)
                                            (with_rdx f frm) (len msg)) ∧
        Ipc.content mb = None ∧ read_user (E:=Empty_set) m (space_of x) (rdi f) (len msg) = Ok msg ∧
        (∀ p, Ram.byte m p = Ram.byte (memory s) p ∨ reached (space_of x) (memory s) (rdi f) (len msg) p)
      else receive s f r = Ok (told s f ERR_BAD_ARGUMENT)
  | None =>
      if decide (next_after (sched s) (current (sched s)) = Some (current (sched s)))
      then receive s f r = Ok (told s f ERR_WOULD_WAIT_FOR_EVER)
      else ∃ k, receive s f r = Ok (with_kernel s k) ∧
        slot_at (scheduler k) (current (sched s)) = Some (with_rsp (with_state x Blocked) (Returns (Receiving f r))) ∧
        Some (current (scheduler k)) = next_after (sched s) (current (sched s))
  end).
Proof.
  intros Hs Hx. split.
  { unfold call_recv. change (running_owns (who s x)) with (owned_by (Proc.ranges (process x))). by destruct (owned_by _ _ _). }
  intros (H1 & H2 & Ho). pose proof Hs as [Hk Hr]. unfold receive.
  pose proof (take_message_spec (sched s) (replicate (Z.to_nat (rsi f)) 0) x (ow_table _ _ _ Hk) Hx) as Ht.
  destruct (take_message (sched s) _) as [[[d into] t]|[|n]| |]; [| | |done..].
  - destruct Ht as (mb & msg & Hc & Hd & Hl & -> & Hcm & Hwf & ->). rewrite len_replicate, Z2Nat.id in Hl by done.
    rewrite Hc, decide_True by done.
    assert (take (Z.to_nat (dlen d)) (msg ++ drop (length msg) (replicate (Z.to_nat (rsi f)) 0)) = msg) as ->.
    { rewrite Hd. unfold len. by rewrite Nat2Z.id, take_app_length. }
    destruct (cur_fit kroot roots there b d0 s x Hs Hx) as (Hf & Hcr & _).
    destruct (proj2 (sf_mem _ _ _ Hf (rdi f) (rsi f) H1 H2) Ho) as [Hcan Hap]. fold (space_of x) in Hcan, Hap, Hcr.
    assert (user_can (memory s) (space_of x) true (rdi f) (len msg)) as Hcan' by (intros va Hva; apply Hcan; lia).
    assert (apart (space_of x) (memory s) (rdi f) (len msg)) as Hap' by (intros va va' z z' Hva Hva'; apply Hap; lia).
    pose proof (sf_root _ _ _ Hf) as Hin. pose proof (sf_mail _ _ _ Hf _ _ Hc) as Hb.
    destruct (write_user_spec roots (space_of x) Hin msg (memory s) (rdi f) Hcan' (re_steady _ _ _ _ _ Hr) (re_mem _ _ _ _ _ Hr) Hb)
      as (m & Hw & _ & _ & _ & Hby).
    exists m, mb. split; [|split; [done|split; [|done]]].
    + unfold write_memory. change (cr3 (kernel (with_sched s _))) with (cr3 (kernel s)). rewrite Hcr.
      change (memory (with_sched s _)) with (memory s). rewrite Hw. cbn [mbind res_bind]. rewrite Hd. reflexivity.
    + exact (write_then_read roots (space_of x) Hin msg (memory s) m (rdi f) Hcan' (re_steady _ _ _ _ _ Hr) (re_mem _ _ _ _ _ Hr) Hb Hap' Hw).
  - rewrite Ht. destruct (wait_spec hears kroot (kernel s) (Receiving f r) x Hk eq_refl Hx Ht) as (parked & k & -> & Hcase).
    cbn [mbind res_bind]. fold (sched s) in Hcase. destruct parked.
    + destruct Hcase as (next & y & Hnext & Hne & Hy & Hc & Hsw & Hcur & Hat). rewrite Hnext, decide_False by congruence.
      exists k. split; [done|]. split; [|by rewrite Hcur]. by rewrite Hat, decide_True.
    + destruct Hcase as [-> Honly]. rewrite decide_True; [by destruct s|].
      pose proof (next_after_spec (sched s) (current (sched s))) as Hn.
      destruct (next_after (sched s) (current (sched s))) as [i|].
      * destruct Hn as [(y & Hy & Hcy) _]. by rewrite (Honly i y Hy Hcy).
      * specialize (Hn _ x Hx). destruct (cur_fit kroot roots there b d0 s x Hs Hx) as (_ & _ & Hst). by rewrite Hst in Hn.
  - destruct Ht as (frm & msg & -> & -> & Hl). rewrite len_replicate, Z2Nat.id in Hl by done. by rewrite decide_False by lia.
Qed.

(** C7: The one way a program stops the kernel.  [recv] checks that the
    memory it is offered belongs to the process, not that the process may
    write it ([read] and [list] do): offered a page that is the program's own
    but read only, its code say, the kernel writes a waiting message through
    that page, and with [CR0.WP] set faults in ring 0. *)
Theorem recv_read_only (s : System) f x frm msg a fuel :
  sys_ok s → control (kernel s) = Ring3 → rax f = 4 → slot_at (sched s) (current (sched s)) = Some x →
  owned_by (Proc.ranges (process x)) (rdi f) (rsi f) = true → 0 ≤ rsi f →
  Ipc.content (mailbox x) = Some (frm, msg) → len msg ≤ rsi f →
  resolve (space_of x) (memory s) (rdi f) = Some a → a_writable a = false →
  step fuel s (Syscall f) = Panic.
Proof.
  intros Hok Hc Hrax Hx Ho Hn Hm Hl Ha Hw. pose proof (ring3_serving kroot roots there b d0 s Hok Hc) as Hs.
  unfold Calls.step, handle. rewrite (running_ok kroot roots there b d0 s x Hs Hx). cbn [mbind res_bind].
  unfold serve. rewrite Hrax. change (CallNumber.from 4) with (Some Recv). unfold call_recv.
  change (running_owns (who s x)) with (owned_by (Proc.ranges (process x))). rewrite Ho. cbn [negb]. unfold receive.
  pose proof (take_message_spec (sched s) (replicate (Z.to_nat (rsi f)) 0) x (ow_table _ _ _ (proj1 Hs)) Hx) as Ht.
  destruct (take_message (sched s) _) as [[[d into] t]|[|n]| |]; [| | |done..].
  - destruct Ht as (mb & msg' & Hm' & Hd & _ & -> & _). assert (msg' = msg) as -> by congruence.
    assert (take (Z.to_nat (dlen d)) (msg ++ drop (length msg) (replicate (Z.to_nat (rsi f)) 0)) = msg) as ->.
    { rewrite Hd. unfold len. by rewrite Nat2Z.id, take_app_length. }
    destruct (cur_fit kroot roots there b d0 s x Hs Hx) as (_ & Hcr & _). fold (space_of x) in Hcr.
    pose proof (so_mail _ (tb_slots _ (ow_table _ _ _ (proj1 Hs)) _ x Hx)) as Hwf.
    destruct msg as [|c msg].
    { exfalso. unfold Ipc.content in Hm. destruct (Ipc.waiting (mailbox x)) as [w|] eqn:Hwt; [|done]. cbn in Hm. injection Hm as _ Hm.
      pose proof (wf_waiting _ Hwf w Hwt) as Hb. pose proof (wf_bytes _ Hwf) as Hlb. apply (f_equal length) in Hm.
      rewrite length_take in Hm. unfold len in Hlb. cbn [length] in Hm. lia. }
    unfold write_memory. change (cr3 (kernel (with_sched s t))) with (cr3 (kernel s)). change (memory (with_sched s t)) with (memory s).
    rewrite Hcr. cbn [write_user]. rewrite Ha. cbn [expect mbind res_bind]. by rewrite Hw.
  - congruence.
  - destruct Ht as (frm' & msg' & Hm' & -> & Hl'). rewrite len_replicate, Z2Nat.id in Hl' by done.
    assert (msg' = msg) as -> by congruence. lia.
Qed.
End messages.

(** ** On the machine of [Booted] *)
Lemma booted_slot : ∃ x, slot_at (sched booted) (current (sched booted)) = Some x ∧
  owned_by (Proc.ranges (process x)) 0x400000 1 = true.
Proof.
  assert ((λ x, owned_by (Proc.ranges (process x)) 0x400000 1) <$> slot_at (sched booted) (current (sched booted)) = Some true) as Hs
    by (vm_compute; reflexivity).
  destruct (slot_at (sched booted) (current (sched booted))) as [x|]; [|discriminate Hs]. exists x. split; [reflexivity|by injection Hs].
Qed.

Lemma send_exact_witness : ∃ y m msg s', slot_at (sched booted) 1 = Some y ∧ read_memory booted 0x400000 1 = Ok msg ∧
  step () no_bytes no_change 1 booted (Syscall (call 3 1 0x400000 1 0)) = Ok s' ∧
  slot_at (sched s') 1 = Some (posted y m) ∧ Ipc.content m = Some (0, msg).
Proof.
  destruct booted_ok as (ps & Hok & Hc). destruct booted_slot as (x & Hx & Ho).
  pose proof (send_exact () no_bytes no_change 0x1000 ps true example_boot example_disk booted (call 3 1 0x400000 1 0) x Hok Hc
    ltac:(split; split; cbn; lia) eq_refl Hx) as H.
  cbn [call rdi rsi rdx] in H. rewrite Ho in H. cbn [negb orb] in H. change (CAPACITY <? 1) with false in H. cbv iota in H.
  destruct H as (msg & Hmsg & _ & H).
  assert ((λ y, bool_decide (state y ≠ Dead ∧ Ipc.content (mailbox y) = None)) <$> slot_at (sched booted) 1 = Some true) as Hy
    by (vm_compute; reflexivity).
  assert (current (sched booted) = 0) as Hcur by (vm_compute; reflexivity).
  destruct (slot_at (sched booted) 1) as [y|] eqn:Hs1; [|discriminate Hy]. injection Hy as Hy. apply bool_decide_eq_true in Hy as [Hd Hn].
  rewrite decide_False, decide_True in H by assumption. destruct H as (m & Hm & H). rewrite Hcur in Hm.
  exists y, m, msg. eexists. split; [reflexivity|]. split; [exact Hmsg|]. split; [exact H|]. split; [|exact Hm].
  exact (eq_trans (slot_at_set (sched booted) 1 1 (posted y m) y Hs1) eq_refl).
Defined.

(** A process that has sent itself the first byte of its code. *)
Definition to_myself : SyscallFrame := call 3 0 0x400000 1 0.
Definition reached_by (m : may (System Dying ())) : System Dying () := match m with Ok s => s | _ => bare end.
Definition waiting_for_me : System Dying () := reached_by (step () no_bytes no_change 1 booted (Syscall to_myself)).

Lemma waiting_ok : ∃ ps, sys_ok (D:=Dying) (E:=()) (C:=()) 0x1000 ps true example_boot example_disk waiting_for_me ∧
  control (kernel waiting_for_me) = Ring3.
Proof.
  destruct booted_ok as (ps & Hok & Hc). exists ps.
  destruct (step_spec () no_bytes no_bytes_ok no_change 0x1000 ps true example_boot example_geometry example_disk booted (Syscall to_myself) Hok Hc)
    as (_ & s' & _ & _ & Hst & Hok' & _).
  - split; [split; split; cbn; lia|]. intros Hr. discriminate Hr.
  - rewrite booted_written. reflexivity.
  - split; [|vm_compute; reflexivity]. unfold waiting_for_me. rewrite (Hst 0%nat). unfold reached_by. exact Hok'.
Qed.

(** What there is to know of the slot of whoever runs, tested on any system. *)
Definition holds_one (s : System Dying ()) (x : Slot Handler) : bool :=
  bool_decide (fst <$> Ipc.content (mailbox x) = Some 0 ∧ len ∘ snd <$> Ipc.content (mailbox x) = Some 1) &&
  owned_by (Proc.writable_ranges (process x)) 0x500000 1 && owned_by (Proc.ranges (process x)) 0x400000 1 &&
  bool_decide (a_writable <$> resolve (space_of x) (memory s) 0x400000 = Some false).

Lemma holds_one_spec (s : System Dying ()) : holds_one s <$> slot_at (sched s) (current (sched s)) = Some true →
  ∃ x msg, slot_at (sched s) (current (sched s)) = Some x ∧
  Ipc.content (mailbox x) = Some (0, msg) ∧ len msg = 1 ∧ owned_by (Proc.writable_ranges (process x)) 0x500000 1 = true ∧
  owned_by (Proc.ranges (process x)) 0x400000 1 = true ∧
  ∃ a, resolve (space_of x) (memory s) 0x400000 = Some a ∧ a_writable a = false.
Proof.
  intros (x & Hx & Hs)%fmap_Some. unfold holds_one in Hs. symmetry in Hs.
  apply andb_true_iff in Hs as [[[Hc%bool_decide_eq_true Hw]%andb_true_iff Ho]%andb_true_iff Ha%bool_decide_eq_true].
  destruct (Ipc.content (mailbox x)) as [[frm msg]|] eqn:Hm; [|by destruct Hc]. destruct Hc as [[= ->] [= Hl]].
  apply fmap_Some in Ha as (a & Ha & Hwa). exists x, msg. split; [exact Hx|]. split; [exact Hm|]. split; [exact Hl|]. split; [exact Hw|].
  split; [exact Ho|]. exists a. split; [exact Ha|by symmetry].
Qed.

Lemma waiting_holds : holds_one waiting_for_me <$> slot_at (sched waiting_for_me) (current (sched waiting_for_me)) = Some true.
Proof. vm_compute. reflexivity. Qed.

Lemma receive_exact_witness : ∃ x msg m s' f, slot_at (sched waiting_for_me) (current (sched waiting_for_me)) = Some x ∧
  receive waiting_for_me (call 4 0x500000 1 0 0) (who waiting_for_me x) = Ok s' ∧ entered s' = Answered f ∧ rax f = 1 ∧ rdx f = 0 ∧
  memory s' = m ∧ read_user (E:=Empty_set) m (space_of x) 0x500000 1 = Ok msg.
Proof.
  destruct waiting_ok as (ps & Hok & Hc). destruct (holds_one_spec _ waiting_holds) as (x & msg & Hx & Hm & Hl & Hw & _).
  pose proof (receive_exact 0x1000 ps true example_boot example_disk waiting_for_me (call 4 0x500000 1 0 0) (who waiting_for_me x) x
    (ring3_serving _ _ _ _ _ _ Hok Hc) Hx) as H.
  destruct H as [_ H]. assert (hearing_ok (process x) (call 4 0x500000 1 0 0)) as Hh.
  { split; [cbn; lia|]. split; [cbn; lia|exact Hw]. }
  specialize (H Hh).
  rewrite Hm in H. cbn [call rdi rsi] in H. rewrite decide_True in H by (rewrite Hl; reflexivity). rewrite Hl in H.
  destruct H as (m & mb & Hr & _ & Hrd & _).
  exists x, msg, m. eexists _, _. split; [exact Hx|]. split; [exact Hr|]. split; [reflexivity|]. split; [reflexivity|].
  split; [reflexivity|]. split; [reflexivity|exact Hrd].
Defined.

Lemma recv_read_only_witness : step () no_bytes no_change 1 waiting_for_me (Syscall (call 4 0x400000 1 0 0)) = Panic.
Proof.
  destruct waiting_ok as (ps & Hok & Hc). destruct (holds_one_spec _ waiting_holds) as (x & msg & Hx & Hm & Hl & _ & Ho & a & Ha & Hwa).
  apply (recv_read_only () no_bytes no_change 0x1000 ps true example_boot example_disk waiting_for_me (call 4 0x400000 1 0 0) x 0 msg a 1
    Hok Hc eq_refl Hx Ho); [cbn; lia|exact Hm|rewrite Hl; cbn; lia|exact Ha|exact Hwa].
Defined.
