(* ===== verification/Pci.v ===== *)
(** * PCI: [hal/src/pci.rs]

    What a function's configuration space says, the scan of every bus, base
    address registers and the capability list.  Reading configuration space
    has no effect on a device, so a machine's configuration space is a
    function ([ConfigSpace]); [config_address] is the word
    [arch/x86_64/src/pci.rs] asks the ports with. *)

From S2P Require Import Prelude Words Bytes.
Local Open Scope Z_scope.

Definition MAX_DEVICES : Z := 96.
Definition NO_VENDOR : Z := 0xFFFF.

(** ** Addresses *)
Record Address := { bus : Z; device : Z; function : Z }.

#[export] Instance Address_eq_dec : EqDecision Address.
Proof. solve_decision. Defined.

Definition new_address (b d f : Z) : option Address :=
  if (d <? 32) && (f <? 8) then Some {| bus := b; device := d; function := f |} else None.

Definition config_address (a : Address) (offset : Z) : Z :=
  Z.lor (Z.lor (Z.lor (Z.lor (Z.shiftl 1 31) (Z.shiftl (bus a) 16)) (Z.shiftl (device a) 11)) (Z.shiftl (function a) 8))
    (Z.land offset 0xFC).

(** ** The header of a function *)
Record Header := {
  vendor : Z;
  device_id : Z;
  class : Z;
  subclass : Z;
  prog_if : Z;
  revision : Z;
  header_type : Z;
  bars : list Z
}.

(** [word >> n] cut to [w] bits. *)
Definition field (word n w : Z) : Z := wrap w (Z.shiftr word n).

Definition word (words : list Z) (i : nat) : Z := nth i words 0.

Definition from_config (words : list Z) : option Header :=
  let vendor := wrap 16 (word words 0) in
  if vendor =? NO_VENDOR then None
  else Some {|
    vendor := vendor;
    device_id := field (word words 0) 16 16;
    revision := wrap 8 (word words 2);
    prog_if := field (word words 2) 8 8;
    subclass := field (word words 2) 16 8;
    class := field (word words 2) 24 8;
    header_type := field (word words 3) 16 8;
    bars := [word words 4; word words 5; word words 6; word words 7; word words 8; word words 9]
  |}.

Definition is_multifunction (h : Header) : bool := negb (Z.land (header_type h) 0x80 =? 0).
Definition layout (h : Header) : Z := Z.land (header_type h) 0x7F.

Record Function_ := { at_ : Address; header : Header }.

(** ** The table of functions *)
Record Devices := { found : list (option Function_); seen : Z }.

Module Table.
Definition new : Devices := {| found := replicate (Z.to_nat MAX_DEVICES) None; seen := 0 |}.

Definition add (t : Devices) (f : Function_) : bool * Devices :=
  let seen := wrap 64 (seen t + 1) in
  match list_find (λ s, s = None) (found t) with
  | Some (free, _) => (true, {| found := <[free := Some f]> (found t); seen := seen |})
  | None => (false, {| found := found t; seen := seen |})
  end.

Definition iter (t : Devices) : list Function_ := omap id (found t).
Definition len (t : Devices) : Z := Bytes.len (iter t).
Definition is_empty (t : Devices) : bool := len t =? 0.
Definition lost (t : Devices) : Z := wrap 64 (seen t - len t).

Definition find (t : Devices) (v d : Z) : option Function_ :=
  List.find (λ f, (vendor (header f) =? v) && (device_id (header f) =? d)) (iter t).
Definition find_class (t : Devices) (c s : Z) : option Function_ :=
  List.find (λ f, (class (header f) =? c) && (subclass (header f) =? s)) (iter t).
End Table.

(** ** Reading the bus *)
Class ConfigSpace (C : Type) := { read_dword : C → Address → Z → Z }.

Definition BUSES : Z := 256.
Definition DEVICES_PER_BUS : Z := 32.
Definition FUNCTIONS_PER_DEVICE : Z := 8.
Definition HEADER_DWORDS : Z := 16.

Definition STATUS_CAPABILITIES : Z := Z.shiftl 1 20.
Definition STATUS_DWORD : Z := 0x04.
Definition CAPABILITY_POINTER : Z := 0x34.
Definition CAPABILITY_MASK : Z := 0xFC.
Definition CAPABILITY_LIMIT : Z := 48.

Record Capability := { id_ : Z; offset : Z }.

Section space.
  Context {C : Type} `{!ConfigSpace C} (space : C).

Definition read_header (a : Address) : option Header :=
  let first := read_dword space a 0 in
  if wrap 16 first =? NO_VENDOR then None
  else from_config (first :: ((λ i, read_dword space a (i * 4)) <$> seqZ 1 (HEADER_DWORDS - 1))).

(** The functions 1 to 7 of a device that says it has them. *)
Definition scan_functions (b d : Z) (t : Devices) : Devices :=
  foldl (λ t f,
    match new_address b d f with
    | Some a => match read_header a with Some h => (Table.add t {| at_ := a; header := h |}).2 | None => t end
    | None => t
    end) t (seqZ 1 (FUNCTIONS_PER_DEVICE - 1)).

Definition scan_device (b : Z) (t : Devices) (d : Z) : Devices :=
  match new_address b d 0 with
  | Some a =>
      match read_header a with
      | Some h =>
          let t := (Table.add t {| at_ := a; header := h |}).2 in
          if is_multifunction h then scan_functions b d t else t
      | None => t
      end
  | None => t
  end.

Definition scan : Devices :=
  foldl (λ t b, foldl (scan_device b) t (seqZ 0 DEVICES_PER_BUS)) Table.new (seqZ 0 BUSES).

(** *** The capability list

    The capabilities in the order [each] is called with them. *)
Fixpoint walk (fuel : nat) (a : Address) (at_offset : Z) : list Capability :=
  match fuel with
  | O => []
  | S fuel =>
      if at_offset =? 0 then []
      else
        let header := read_dword space a at_offset in
        {| id_ := wrap 8 header; offset := at_offset |} :: walk fuel a (Z.land (field header 8 8) CAPABILITY_MASK)
  end.

Definition capabilities (a : Address) : list Capability :=
  if Z.land (read_dword space a STATUS_DWORD) STATUS_CAPABILITIES =? 0 then []
  else walk (Z.to_nat CAPABILITY_LIMIT) a (Z.land (wrap 8 (read_dword space a CAPABILITY_POINTER)) CAPABILITY_MASK).
End space.

(** ** Base address registers *)
Inductive Bar :=
| BarMemory (address : Z) (wide prefetchable : bool)
| BarPorts (base : Z).

Definition entries (b : Bar) : Z := match b with BarMemory _ true _ => 2 | _ => 1 end.
Definition memory_address (b : Bar) : option Z := match b with BarMemory a _ _ => Some a | BarPorts _ => None end.

Definition decode_bar (bars : list Z) (i : Z) : option Bar :=
  if 6 <=? i then None
  else
    let raw := word bars (Z.to_nat i) in
    if raw =? 0 then None
    else if negb (Z.land raw 1 =? 0) then Some (BarPorts (wrap 16 (Z.land raw 0xFFFFFFFC)))
    else
      let wide := Z.land (Z.shiftr raw 1) 3 =? 2 in
      let low := Z.land raw 0xFFFFFFF0 in
      if wide && (6 <=? i + 1) then None
      else
        let address := if wide then Z.lor low (Z.shiftl (word bars (Z.to_nat i + 1)) 32) else low in
        Some (BarMemory address wide (negb (Z.land raw 8 =? 0))).
