(* ===== verification/PciThms.v ===== *)
(** * PCI: theorems

    [pci_scan_exact]: the nested loops of the scan find exactly the functions
    there are, in order, and say how many they could not keep.
    [capabilities_visited]: the bounded walk misses nothing of a list that
    ends. *)

From S2P Require Import Prelude Words Bytes Pci.
Local Open Scope Z_scope.

(** ** Addresses and the word that asks for one *)
Definition address_ok (a : Address) : Prop := 0 ≤ bus a < 256 ∧ 0 ≤ device a < 32 ∧ 0 ≤ function a < 8.

Lemma lor_disjoint_add a b n : 0 ≤ n → 0 ≤ b < 2 ^ n → a mod 2 ^ n = 0 → Z.lor a b = a + b.
Proof.
  intros Hn Hb Ha. rewrite Z.add_nocarry_lxor; [symmetry; apply Z.lxor_lor|];
    (apply Z.bits_inj'; intros i Hi; rewrite Z.land_spec, Z.bits_0; destruct (decide (i < n));
     [rewrite <-(Z.mod_pow2_bits_low a n i), Ha, Z.bits_0 by lia; done
     |rewrite (testbit_high n b) by (done || lia); apply andb_false_r]).
Qed.

Lemma config_address_value a o : address_ok a → 0 ≤ o < 256 →
  config_address a o = 2 ^ 31 + bus a * 2 ^ 16 + device a * 2 ^ 11 + function a * 2 ^ 8 + o / 4 * 4.
Proof.
  intros (Hb & Hd & Hf) Ho. unfold config_address.
  assert (Z.land o 0xFC = o / 4 * 4) as ->.
  { change 0xFC with (Z.shiftl (Z.ones 6) 2). apply Z.bits_inj'. intros i Hi.
    change 4 with (2 ^ 2). rewrite <-Z.shiftr_div_pow2, <-Z.shiftl_mul_pow2 by lia.
    rewrite Z.land_spec, !Z.shiftl_spec by lia. destruct (decide (i < 2)).
    - rewrite !(Z.testbit_neg_r _ (i - 2)) by lia. apply andb_false_r.
    - rewrite Z.shiftr_spec by lia. replace (i - 2 + 2) with i by lia. destruct (decide (i < 8)).
      + rewrite Z.ones_spec_low by lia. apply andb_true_r.
      + rewrite Z.ones_spec_high by lia. rewrite (testbit_high 8 o) by (unfold in_width; lia). done. }
  pose proof (Z.div_mod o 4 ltac:(lia)). pose proof (Z.mod_pos_bound o 4 ltac:(lia)).
  rewrite !Z.shiftl_mul_pow2 by lia.
  rewrite (lor_disjoint_add (1 * 2 ^ 31) _ 31); [|lia|lia|reflexivity].
  rewrite (lor_disjoint_add _ (device a * 2 ^ 11) 16); [|lia|lia|].
  2: { replace (1 * 2 ^ 31 + bus a * 2 ^ 16) with ((2 ^ 15 + bus a) * 2 ^ 16) by lia. apply Z_mod_mult. }
  rewrite (lor_disjoint_add _ (function a * 2 ^ 8) 11); [|lia|lia|].
  2: { replace (1 * 2 ^ 31 + bus a * 2 ^ 16 + device a * 2 ^ 11)
         with ((2 ^ 20 + bus a * 2 ^ 5 + device a) * 2 ^ 11) by lia. apply Z_mod_mult. }
  rewrite (lor_disjoint_add _ (o / 4 * 4) 8); [lia|lia|lia|].
  replace (1 * 2 ^ 31 + bus a * 2 ^ 16 + device a * 2 ^ 11 + function a * 2 ^ 8)
    with ((2 ^ 23 + bus a * 2 ^ 8 + device a * 2 ^ 3 + function a) * 2 ^ 8) by lia. apply Z_mod_mult.
Qed.

Lemma config_address_inj a a' o o' : address_ok a → address_ok a' → 0 ≤ o < 256 → 0 ≤ o' < 256 →
  config_address a o = config_address a' o' → a = a' ∧ o / 4 = o' / 4.
Proof.
  intros Ha Ha' Ho Ho'. rewrite !config_address_value by done. destruct a as [b d f], a' as [b' d' f'].
  destruct Ha as (?&?&?), Ha' as (?&?&?). simpl in *. intros E.
  pose proof (Z.div_mod o 4 ltac:(lia)). pose proof (Z.mod_pos_bound o 4 ltac:(lia)).
  pose proof (Z.div_mod o' 4 ltac:(lia)). pose proof (Z.mod_pos_bound o' 4 ltac:(lia)).
  assert (b = b') as <- by lia. assert (d = d') as <- by lia. assert (f = f') as <- by lia. split; [done|lia].
Qed.

(** ** The table *)
Definition table_holds (t : Devices) (l : list Function_) : Prop :=
  found t = (Some <$> take (Z.to_nat MAX_DEVICES) l) ++ replicate (Z.to_nat MAX_DEVICES - length l) None ∧
  seen t = wrap 64 (Bytes.len l).

Lemma table_new : table_holds Table.new [].
Proof. done. Qed.

Lemma list_find_free (l : list Function_) n :
  list_find (λ s, s = None) ((Some <$> l) ++ replicate n None) = match n with O => None | S _ => Some (length l, None) end.
Proof.
  induction l as [|f l IH]; simpl.
  - by destruct n.
  - change (list_fmap _ _ Some l) with (Some <$> l). rewrite IH. by destruct n.
Qed.

Lemma table_add t l f : table_holds t l → table_holds (Table.add t f).2 (l ++ [f]).
Proof.
  intros [Hf Hs]. unfold Table.add. rewrite Hf, list_find_free.
  assert (wrap 64 (seen t + 1) = wrap 64 (Bytes.len (l ++ [f]))) as Hseen.
  { rewrite Hs. unfold wrap, Bytes.len. rewrite length_app, Zplus_mod_idemp_l. f_equal. simpl. lia. }
  unfold table_holds. remember (Z.to_nat MAX_DEVICES) as M. destruct (M - length l)%nat as [|n] eqn:E.
  - simpl. split; [|done]. simpl. rewrite length_app. simpl. replace (M - (length l + 1))%nat with 0%nat by lia.
    rewrite take_app_le by lia. done.
  - simpl. split; [|done]. simpl. rewrite length_app. simpl. replace (M - (length l + 1))%nat with n by lia.
    rewrite !take_ge by (rewrite ?length_app; simpl; lia). rewrite fmap_app.
    rewrite insert_app_r_alt by (rewrite length_fmap; lia). rewrite length_fmap, Nat.sub_diag. simpl.
    by rewrite <-app_assoc.
Qed.

Lemma table_iter t l : table_holds t l → Table.iter t = take (Z.to_nat MAX_DEVICES) l.
Proof.
  intros [Hf _]. unfold Table.iter. rewrite Hf, omap_app.
  assert (∀ n, omap id (replicate n (@None Function_)) = []) as -> by (intros n; by induction n).
  rewrite app_nil_r. generalize (take (Z.to_nat MAX_DEVICES) l). intros k. by induction k; simpl; f_equal.
Qed.

(** ** The scan *)
Section scan.
  Context {C : Type} `{!ConfigSpace C} (space : C).

(** The functions a machine has, one address after another. *)
Definition answers (a : Address) : option Function_ :=
  h ← read_header space a; Some {| at_ := a; header := h |}.

Definition listed (a : Address) : bool :=
  (function a =? 0) ||
  match read_header space {| bus := bus a; device := device a; function := 0 |} with
  | Some h => is_multifunction h
  | None => false
  end.

Definition addresses : list Address :=
  b ← seqZ 0 BUSES; d ← seqZ 0 DEVICES_PER_BUS; f ← seqZ 0 FUNCTIONS_PER_DEVICE;
  [{| bus := b; device := d; function := f |}].

Definition present : list Function_ := omap (λ a, if listed a then answers a else None) addresses.

Lemma foldl_holds {A} (step : Devices → A → Devices) (g : A → list Function_) t l (xs : list A) :
  (∀ t l x, x ∈ xs → table_holds t l → table_holds (step t x) (l ++ g x)) → table_holds t l →
  table_holds (foldl step t xs) (l ++ (xs ≫= g)).
Proof.
  revert t l. induction xs as [|x xs IH]; intros t l Hstep Ht; simpl; [by rewrite app_nil_r|].
  rewrite app_assoc. apply IH; [intros; apply Hstep; [set_solver|done]|]. apply Hstep; [set_solver|done].
Qed.

Lemma new_address_ok b d f : 0 ≤ d < 32 → 0 ≤ f < 8 → new_address b d f = Some {| bus := b; device := d; function := f |}.
Proof. intros. unfold new_address. by rewrite !(proj2 (Z.ltb_lt _ _)) by lia. Qed.

Definition at_address (b d f : Z) : list Function_ :=
  omap (λ a, if listed a then answers a else None) [{| bus := b; device := d; function := f |}].

Lemma bind_nothing {A B} (f : A → list B) l : (∀ a, a ∈ l → f a = []) → l ≫= f = [].
Proof.
  induction l as [|a l IH]; intros Hl; [done|]. rewrite bind_cons, (Hl a) by set_solver.
  apply IH. set_solver.
Qed.

Lemma at_address_eq b d f : 0 ≤ f < 8 → at_address b d f =
  if (f =? 0) || match read_header space {| bus := b; device := d; function := 0 |} with
                 | Some h => is_multifunction h | None => false end
  then option_list (answers {| bus := b; device := d; function := f |}) else [].
Proof. intros Hf. unfold at_address, listed. simpl. destruct (_ || _); [|done]. by destruct (answers _). Qed.

Lemma scan_device_holds b t l d : 0 ≤ d < 32 → table_holds t l →
  table_holds (scan_device space b t d) (l ++ (seqZ 0 FUNCTIONS_PER_DEVICE ≫= at_address b d)).
Proof.
  intros Hd Ht. change (seqZ 0 FUNCTIONS_PER_DEVICE) with (0 :: seqZ 1 (FUNCTIONS_PER_DEVICE - 1)). rewrite bind_cons.
  unfold scan_device, scan_functions. remember (seqZ 1 (FUNCTIONS_PER_DEVICE - 1)) as fs eqn:Efs.
  assert (∀ f, f ∈ fs → 0 < f < 8) as Hfs by (intros f Hf; subst; apply in_seqZ in Hf; unfold FUNCTIONS_PER_DEVICE in Hf; lia).
  rewrite (at_address_eq b d 0) by lia. unfold answers. rewrite new_address_ok by lia.
  destruct (read_header space {| bus := b; device := d; function := 0 |}) as [h|] eqn:Eh.
  - simpl option_list. rewrite app_assoc.
    pose proof (table_add _ _ {| at_ := {| bus := b; device := d; function := 0 |}; header := h |} Ht) as Ht'.
    destruct (is_multifunction h) eqn:Em.
    + apply foldl_holds; [|done]. intros t1 l1 f Hf%Hfs Ht1. rewrite new_address_ok by lia.
      rewrite at_address_eq by lia. rewrite Eh, Em, orb_true_r. unfold answers.
      destruct (read_header space {| bus := b; device := d; function := f |}); simpl; [by apply table_add|by rewrite app_nil_r].
    + rewrite bind_nothing; [by rewrite app_nil_r|]. intros f Hf%Hfs.
      rewrite at_address_eq, Eh, Em by lia. by rewrite (proj2 (Z.eqb_neq f 0)) by lia.
  - simpl option_list. simpl app. rewrite bind_nothing; [by rewrite app_nil_r|]. intros f Hf%Hfs.
    rewrite at_address_eq, Eh by lia. by rewrite (proj2 (Z.eqb_neq f 0)) by lia.
Qed.

Lemma omap_bind {A B D} (f : A → list B) (g : B → option D) (l : list A) :
  omap g (l ≫= f) = l ≫= λ a, omap g (f a).
Proof. induction l as [|a l IH]; [done|]. rewrite !bind_cons, omap_app. by rewrite IH. Qed.

Lemma scan_holds : table_holds (scan space) present.
Proof.
  assert (present = seqZ 0 BUSES ≫= λ b, seqZ 0 DEVICES_PER_BUS ≫= λ d, seqZ 0 FUNCTIONS_PER_DEVICE ≫= at_address b d) as ->.
  { unfold present, addresses. rewrite omap_bind. apply list_bind_ext; [|done]. intros b. rewrite omap_bind.
    apply list_bind_ext; [|done]. intros d. by rewrite omap_bind. }
  unfold scan. apply (foldl_holds _ _ Table.new []); [|apply table_new].
  intros t l b _ Ht. apply foldl_holds; [|done].
  intros t' l' d Hd%in_seqZ Ht'. apply scan_device_holds; [unfold DEVICES_PER_BUS in Hd; lia|done].
Qed.
End scan.

(** ** The capability list *)
Section caps.
  Context {C : Type} `{!ConfigSpace C} (space : C) (a : Address).

Definition next_of (o : Z) : Z := Z.land (field (read_dword space a o) 8 8) CAPABILITY_MASK.

(** The list from [o] on is [l], and ends. *)
Fixpoint linked (o : Z) (l : list Z) : Prop :=
  match l with
  | [] => o = 0
  | o' :: l => o ≠ 0 ∧ o' = o ∧ linked (next_of o) l
  end.

Lemma linked_functional o l l' : linked o l → linked o l' → l = l'.
Proof.
  revert o l'. induction l as [|x l IH]; intros o [|x' l']; simpl; [done|naive_solver|naive_solver|].
  intros (_ & -> & H) (_ & -> & H'). f_equal. by eapply IH.
Qed.

Lemma linked_suffix o l1 x l2 : linked o (l1 ++ x :: l2) → linked x (x :: l2).
Proof.
  revert o. induction l1 as [|y l1 IH]; intros o; simpl; [by intros (? & -> & ?)|].
  intros (_ & _ & H). by eapply IH.
Qed.

(** A list that ends comes by no place twice. *)
Lemma linked_NoDup o l : linked o l → NoDup l.
Proof.
  revert o. induction l as [|x l IH]; intros o H; [constructor|]. constructor.
  - intros (l1 & l2 & ->)%list_elem_of_split. pose proof (linked_suffix o [] x _ H) as H1.
    pose proof (linked_suffix o (x :: l1) x l2 H) as H2. pose proof (linked_functional _ _ _ H1 H2) as He.
    apply (f_equal length) in He. simpl in He. rewrite length_app in He. simpl in He. lia.
  - destruct H as (_ & _ & H). by eapply IH.
Qed.

Lemma masked_aligned z : 0 ≤ Z.land z CAPABILITY_MASK < 256 ∧ Z.land z CAPABILITY_MASK mod 4 = 0.
Proof.
  unfold CAPABILITY_MASK. change 0xFC with (Z.shiftl (Z.ones 6) 2). split.
  - split; [apply Z.land_nonneg; right; done|].
    enough (in_width 8 (Z.land z (Z.shiftl (Z.ones 6) 2))) as [_ ?] by lia.
    apply in_width_testbit; [lia|apply Z.land_nonneg; by right|]. intros i Hi.
    rewrite Z.land_spec, Z.shiftl_spec, (Z.ones_spec_high 6) by lia. apply andb_false_r.
  - change 4 with (2 ^ 2). apply Z.bits_inj'. intros i Hi. rewrite Z.bits_0. destruct (decide (i < 2)).
    + rewrite Z.mod_pow2_bits_low, Z.land_spec, Z.shiftl_spec, (Z.testbit_neg_r _ (i - 2)) by lia. apply andb_false_r.
    + by rewrite Z.mod_pow2_bits_high by lia.
Qed.

Lemma linked_aligned o l : linked o l → 0 ≤ o < 256 → o mod 4 = 0 → Forall (λ x, 0 ≤ x < 256 ∧ x mod 4 = 0) l.
Proof.
  revert o. induction l as [|x l IH]; intros o; simpl; [constructor|].
  intros (_ & -> & H) Ho Hm. constructor; [done|]. destruct (masked_aligned (field (read_dword space a o) 8 8)).
  by eapply IH.
Qed.

Lemma linked_short o l : linked o l → 0 ≤ o < 256 → o mod 4 = 0 → Forall (λ x, 0x40 ≤ x) l →
  (length l ≤ Z.to_nat CAPABILITY_LIMIT)%nat.
Proof.
  intros Hl Ho Hm Hge. pose proof (linked_NoDup _ _ Hl) as Hd. pose proof (linked_aligned _ _ Hl Ho Hm) as Ha.
  assert (l ⊆ ((λ k, 4 * k) <$> seqZ 16 48)) as Hsub.
  { intros x Hx. rewrite Forall_forall in Hge, Ha. specialize (Hge x Hx). destruct (Ha x Hx) as [? Hx4].
    apply list_elem_of_fmap. exists (x / 4). pose proof (Z.div_mod x 4 ltac:(lia)).
    split; [lia|]. apply in_seqZ. lia. }
  pose proof (submseteq_length _ _ (NoDup_submseteq _ _ Hd Hsub)) as Hlen.
  rewrite length_fmap, length_seqZ in Hlen. unfold CAPABILITY_LIMIT. lia.
Qed.

Lemma walk_linked fuel o l : linked o l → (length l ≤ fuel)%nat →
  walk space fuel a o = (λ x, {| id_ := wrap 8 (read_dword space a x); offset := x |}) <$> l.
Proof.
  revert o l. induction fuel as [|fuel IH]; intros o l Hl Hf.
  - by destruct l; simpl in Hf; [|lia].
  - destruct l as [|x l]; simpl in *; [by subst|]. destruct Hl as (Ho & -> & Hl).
    rewrite (proj2 (Z.eqb_neq _ _) Ho). f_equal. apply IH; [done|lia].
Qed.

Lemma walk_short fuel o : (length (walk space fuel a o) ≤ fuel)%nat.
Proof. revert o. induction fuel as [|fuel IH]; intros o; simpl; [lia|]. case_match; simpl; [lia|]. specialize (IH (Z.land (field (read_dword space a o) 8 8) CAPABILITY_MASK)). lia. Qed.
End caps.

(** ** What is present *)
Section present.
  Context {C : Type} `{!ConfigSpace C} (space : C).

Lemma elem_of_addresses a : a ∈ addresses → address_ok a.
Proof.
  unfold addresses. intros (b & Ha & Hb%in_seqZ)%list_elem_of_bind.
  apply list_elem_of_bind in Ha as (d & Ha & Hd%in_seqZ). apply list_elem_of_bind in Ha as (f & Ha & Hf%in_seqZ).
  apply list_elem_of_singleton in Ha as ->. unfold BUSES, DEVICES_PER_BUS, FUNCTIONS_PER_DEVICE in *.
  unfold address_ok. simpl. lia.
Qed.

Lemma NoDup_addresses : NoDup addresses.
Proof.
  unfold addresses. apply NoDup_bind; [| |apply NoDup_seqZ].
  { intros b b' a _ _ Ha Ha'. apply list_elem_of_bind in Ha as (d & Ha & _). apply list_elem_of_bind in Ha as (f & Ha & _).
    apply list_elem_of_bind in Ha' as (d' & Ha' & _). apply list_elem_of_bind in Ha' as (f' & Ha' & _).
    apply list_elem_of_singleton in Ha, Ha'. congruence. }
  intros b _. apply NoDup_bind; [| |apply NoDup_seqZ].
  { intros d d' a _ _ Ha Ha'. apply list_elem_of_bind in Ha as (f & Ha & _). apply list_elem_of_bind in Ha' as (f' & Ha' & _).
    apply list_elem_of_singleton in Ha, Ha'. congruence. }
  intros d _. apply NoDup_bind; [| |apply NoDup_seqZ]; [|intros; apply NoDup_singleton].
  intros f f' a _ _ Ha Ha'. apply list_elem_of_singleton in Ha, Ha'. congruence.
Qed.

Lemma answers_at a f : answers space a = Some f → at_ f = a ∧ vendor (header f) ≠ NO_VENDOR.
Proof.
  unfold answers. intros (h & Hh & [= <-])%bind_Some. split; [done|]. simpl. revert Hh.
  unfold read_header. case_match; [done|]. unfold from_config. destruct (Z.eqb_spec (wrap 16 (word (read_dword space a 0 :: ((λ i, read_dword space a (i * 4)) <$> seqZ 1 (HEADER_DWORDS - 1))) 0)) NO_VENDOR); [done|].
  by intros [= <-].
Qed.

Lemma omap_sublist {A B} (g : A → option B) (f : B → A) l :
  (∀ a b, g a = Some b → f b = a) → f <$> omap g l `sublist_of` l.
Proof.
  intros Hg. induction l as [|a l IH]; [done|]. cbn. destruct (g a) as [b|] eqn:E.
  - rewrite fmap_cons, (Hg _ _ E). by apply sublist_skip.
  - by apply sublist_cons.
Qed.

Lemma present_facts :
  Forall (λ f, address_ok (at_ f) ∧ vendor (header f) ≠ NO_VENDOR) (present space) ∧ NoDup (at_ <$> present space) ∧
  Bytes.len (present space) ≤ 65536.
Proof.
  assert (at_ <$> present space `sublist_of` addresses) as Hsub.
  { apply omap_sublist. intros a f. case_match; [|done]. intros H1%answers_at. apply H1. }
  split_and!.
  - apply Forall_forall. intros f (a & Ha & Hf)%list_elem_of_omap. case_match; [|done].
    destruct (answers_at _ _ Hf) as [<- ?]. split; [by apply elem_of_addresses|done].
  - eapply sublist_NoDup; [apply NoDup_addresses|done].
  - apply sublist_length in Hsub. rewrite length_fmap in Hsub. unfold Bytes.len.
    assert (Z.of_nat (length addresses) = 65536) by (vm_compute; reflexivity). lia.
Qed.
End present.

(** Scanning the buses of a machine keeps the first 96 of the functions
    it has, in the order of their addresses, and says how many it could not
    keep; a driver that asks for a vendor and a device is given the first
    kept one of them.  The functions a machine has are those that answer
    with a vendor, of those numbered above 0 only where function 0 says the
    device has more than one.  Every address and dword is asked for by a
    word of its own, so no function answers for another. *)
Theorem pci_scan_exact {C} `{!ConfigSpace C} (space : C) :
  let fs := present space in
  Table.iter (scan space) = take (Z.to_nat MAX_DEVICES) fs ∧
  Table.lost (scan space) = Z.max 0 (Bytes.len fs - MAX_DEVICES) ∧
  (∀ v d, Table.find (scan space) v d =
    List.find (λ f, (vendor (header f) =? v) && (device_id (header f) =? d)) (take (Z.to_nat MAX_DEVICES) fs)) ∧
  Forall (λ f, address_ok (at_ f) ∧ vendor (header f) ≠ NO_VENDOR) fs ∧ NoDup (at_ <$> fs) ∧
  (∀ a a' o o', address_ok a → address_ok a' → 0 ≤ o < 256 → 0 ≤ o' < 256 →
    config_address a o = config_address a' o' → a = a' ∧ o / 4 = o' / 4).
Proof.
  destruct (scan_holds space) as [Hf Hs]. pose proof (table_iter _ _ (conj Hf Hs)) as Hi.
  destruct (present_facts space) as (Hok & Hd & Hlen).
  split_and!; [done| | |done|done|apply config_address_inj].
  - unfold Table.lost, Table.len. rewrite Hi, Hs. unfold Bytes.len in *. rewrite length_take. unfold MAX_DEVICES.
    pose proof (len_nonneg (present space)). unfold wrap. rewrite (Z.mod_small (Z.of_nat _)) by lia.
    rewrite Z.mod_small by lia. lia.
  - intros v d. unfold Table.find. by rewrite Hi.
Qed.

(** A driver is shown every capability of a list that ends and lies
    where capabilities lie, behind the header: each once, in the list's
    order, with its kind.  Whatever a device's pointers say, at most 48 are
    looked at. *)
Theorem capabilities_visited {C} `{!ConfigSpace C} (space : C) a :
  (length (capabilities space a) ≤ Z.to_nat CAPABILITY_LIMIT)%nat ∧
  (Z.land (read_dword space a STATUS_DWORD) STATUS_CAPABILITIES ≠ 0 → ∀ l,
    linked space a (Z.land (wrap 8 (read_dword space a CAPABILITY_POINTER)) CAPABILITY_MASK) l →
    Forall (λ x, 0x40 ≤ x) l →
    capabilities space a = (λ x, {| id_ := wrap 8 (read_dword space a x); offset := x |}) <$> l).
Proof.
  unfold capabilities. split.
  - case_match; [simpl; lia|apply walk_short].
  - intros Hst l Hl Hge. rewrite (proj2 (Z.eqb_neq _ _) Hst).
    destruct (masked_aligned (wrap 8 (read_dword space a CAPABILITY_POINTER))).
    apply walk_linked; [done|]. by eapply linked_short.
Qed.

(** ** A machine with two functions

    A host bridge, and a disk whose capability list is 0x40, 0x60, 0x50. *)
Definition Machine_space : Type := list (Address * list (Z * Z)).

#[export] Instance machine_space : ConfigSpace Machine_space := {
  read_dword c a o :=
    match List.find (λ f, bool_decide (f.1 = a)) c with
    | Some (_, dwords) => match List.find (λ d, d.1 =? o) dwords with Some (_, v) => v | None => 0 end
    | None => 0xFFFFFFFF
    end
}.

Definition disk_at : Address := {| bus := 0; device := 3; function := 0 |}.
Definition two_functions : Machine_space :=
  [({| bus := 0; device := 0; function := 0 |}, [(0, 0x12378086); (8, 0x06000002)]);
   (disk_at, [(0, 0x10421AF4); (4, 0x00100007); (8, 0x01000001); (0x10, 0xC001); (0x20, 0xFEBF000C); (0x24, 0x8);
              (0x34, 0x40); (0x40, 0x01106009); (0x60, 0x02105009); (0x50, 0x04100009)])].

Lemma pci_scan_exact_witness :
  (∃ f, Table.find (scan two_functions) 0x1AF4 0x1042 = Some f ∧ at_ f = disk_at) ∧
  (config_address disk_at 0x43 = config_address disk_at 0x40 → 0x43 / 4 = 0x40 / 4).
Proof.
  destruct (pci_scan_exact two_functions) as (_ & _ & Hfind & _ & _ & Hinj). split.
  - rewrite Hfind. eexists. split; [vm_compute; reflexivity|reflexivity].
  - apply (Hinj disk_at disk_at); unfold address_ok; simpl; lia.
Defined.

Lemma capabilities_visited_witness :
  capabilities two_functions disk_at =
    [{| id_ := 9; offset := 0x40 |}; {| id_ := 9; offset := 0x60 |}; {| id_ := 9; offset := 0x50 |}].
Proof.
  etransitivity; [apply (proj2 (capabilities_visited two_functions disk_at)) with (l := [0x40; 0x60; 0x50])|].
  - vm_compute. discriminate.
  - vm_compute. split_and!; (discriminate || reflexivity).
  - repeat constructor; discriminate.
  - vm_compute. reflexivity.
Defined.
