(* ===== verification/Virtio.v ===== *)
(** * Virtio: [hal/src/virtio.rs]

    Where a device keeps its structures, its registers, and the split queue
    of one frame that driver and device share.

    A device is a class: what reading and writing its registers answers, and
    what it does to the shared frames ([turn]) between any two accesses of
    the driver's to them, which is anything. *)

From S2P Require Import Prelude Words Bytes Pci.
Local Open Scope Z_scope.

Definition VENDOR : Z := 0x1AF4.
Definition DEVICE_BLOCK : Z := 0x1042.
Definition DEVICE_BLOCK_TRANSITIONAL : Z := 0x1001.
Definition CAPABILITY_ID : Z := 0x09.

(** ** Where a structure is *)
Inductive Structure := Common | Notify | Isr | DeviceSpecific | PciConfig | UnknownStructure (cfg_type : Z).

#[export] Instance Structure_eq_dec : EqDecision Structure.
Proof. solve_decision. Defined.

Definition from_cfg_type (cfg_type : Z) : Structure :=
  match cfg_type with
  | 1 => Common | 2 => Notify | 3 => Isr | 4 => DeviceSpecific | 5 => PciConfig
  | other => UnknownStructure other
  end.

Record Location := {
  structure : Structure;
  l_bar : Z;
  l_offset : Z;
  l_length : Z;
  notify_multiplier : option Z
}.

Definition NOTIFY_CAPABILITY_BYTES : Z := 20.

Definition decode_capability (words : list Z) (fifth : option Z) : option Location :=
  if negb (wrap 8 (word words 0) =? CAPABILITY_ID) then None
  else
    let bar := Z.land (word words 1) 0xFF in
    if 6 <=? bar then None
    else
      let length := word words 3 in
      if length =? 0 then None
      else
        let structure := from_cfg_type (field (word words 0) 24 8) in
        let capability_bytes := field (word words 0) 16 8 in
        Some {|
          structure := structure;
          l_bar := bar;
          l_offset := word words 2;
          l_length := length;
          notify_multiplier :=
            match structure, fifth with
            | Notify, Some multiplier => if NOTIFY_CAPABILITY_BYTES <=? capability_bytes then Some multiplier else None
            | _, _ => None
            end
        |}.

Section locations.
  Context {C : Type} `{!ConfigSpace C} (space : C) (a : Address).

(** The locations in the order [each] is called with them. *)
Definition locations : list Location :=
  omap (λ c,
    if negb (id_ c =? CAPABILITY_ID) then None
    else
      words ← mapM (λ i, o ← checked_add 8 (offset c) (i * 4); Some (read_dword space a o)) [0; 1; 2; 3];
      decode_capability words (read_dword space a <$> checked_add 8 (offset c) 16))
    (capabilities space a).

Definition first_of_kind (s : Structure) : option Location := List.find (λ l, bool_decide (structure l = s)) locations.
Definition common_config_location : option Location := first_of_kind Common.
End locations.

(** ** Registers and shared memory *)
Class Device (D : Type) := {
  (** A register of so many bytes at a virtual address. *)
  mmio_read : Z → Z → D → Z * D;
  mmio_write : Z → Z → Z → D → D;
  (** The queue's frame and the request's, before and after. *)
  turn : list Z → list Z → D → list Z * list Z * D
}.

Definition STATUS_ACKNOWLEDGE : Z := 1.
Definition STATUS_DRIVER : Z := 2.
Definition STATUS_DRIVER_OK : Z := 4.
Definition STATUS_FEATURES_OK : Z := 8.
Definition STATUS_FAILED : Z := 128.
Definition FEATURE_VERSION_1 : Z := 1.
Definition FEATURE_VERSION_1_SELECT : Z := 1.

Record CommonConfig := { cc_base : Z }.

Definition DEVICE_FEATURE_SELECT : Z := 0x00.
Definition DEVICE_FEATURE : Z := 0x04.
Definition DRIVER_FEATURE_SELECT : Z := 0x08.
Definition DRIVER_FEATURE : Z := 0x0C.
Definition NUM_QUEUES : Z := 0x12.
Definition DEVICE_STATUS : Z := 0x14.
Definition CONFIG_GENERATION : Z := 0x15.
Definition QUEUE_SELECT : Z := 0x16.
Definition QUEUE_SIZE_AT : Z := 0x18.
Definition QUEUE_ENABLE : Z := 0x1C.
Definition QUEUE_NOTIFY_OFF : Z := 0x1E.
Definition QUEUE_DESC : Z := 0x20.
Definition QUEUE_DRIVER : Z := 0x28.
Definition QUEUE_DEVICE : Z := 0x30.
Definition COMMON_CONFIG_BYTES : Z := 0x38.

Section registers.
  Context {D X : Type} `{!Device D}.

(** [VirtAddr + offset] panics when it overflows. *)
Definition register (base o : Z) : res X Z := expect (checked_add 64 base o).

Definition read_volatile (w a : Z) : dev D X Z := λ d, let '(v, d) := mmio_read w a d in (Ok (wrap (8 * w) v), d).

Definition read_register (w base o : Z) : dev D X Z :=
  a ← lift (register base o);
  read_volatile w a.
Definition write_register (w base o v : Z) : dev D X () :=
  a ← lift (register base o);
  modify (mmio_write w a v).

Definition status (c : CommonConfig) : dev D X Z := read_register 1 (cc_base c) DEVICE_STATUS.
Definition set_status (c : CommonConfig) (s : Z) : dev D X () := write_register 1 (cc_base c) DEVICE_STATUS s.
Definition device_features (c : CommonConfig) (select : Z) : dev D X Z :=
  _ ← write_register 4 (cc_base c) DEVICE_FEATURE_SELECT select;
  read_register 4 (cc_base c) DEVICE_FEATURE.
Definition set_driver_features (c : CommonConfig) (select features : Z) : dev D X () :=
  _ ← write_register 4 (cc_base c) DRIVER_FEATURE_SELECT select;
  write_register 4 (cc_base c) DRIVER_FEATURE features.
Definition queue_count (c : CommonConfig) : dev D X Z := read_register 2 (cc_base c) NUM_QUEUES.
Definition config_generation (c : CommonConfig) : dev D X Z := read_register 1 (cc_base c) CONFIG_GENERATION.
Definition select_queue (c : CommonConfig) (q : Z) : dev D X () := write_register 2 (cc_base c) QUEUE_SELECT q.
Definition queue_size (c : CommonConfig) : dev D X Z := read_register 2 (cc_base c) QUEUE_SIZE_AT.
Definition queue_notify_offset (c : CommonConfig) : dev D X Z := read_register 2 (cc_base c) QUEUE_NOTIFY_OFF.
Definition queue_enabled (c : CommonConfig) : dev D X bool :=
  v ← read_register 2 (cc_base c) QUEUE_ENABLE; mret (negb (v =? 0)).
Definition set_queue_size (c : CommonConfig) (s : Z) : dev D X () := write_register 2 (cc_base c) QUEUE_SIZE_AT s.
Definition set_queue_addresses (c : CommonConfig) (descriptors available used : Z) : dev D X () :=
  _ ← write_register 8 (cc_base c) QUEUE_DESC descriptors;
  _ ← write_register 8 (cc_base c) QUEUE_DRIVER available;
  write_register 8 (cc_base c) QUEUE_DEVICE used.
Definition enable_queue (c : CommonConfig) : dev D X () := write_register 2 (cc_base c) QUEUE_ENABLE 1.
End registers.

Record Notifier := { n_base : Z; n_multiplier : Z }.

Definition doorbell (n : Notifier) (notify_offset : Z) : Z := notify_offset * n_multiplier n.

Definition ring_doorbell {D X} `{!Device D} (n : Notifier) (notify_offset queue : Z) : dev D X () :=
  write_register 2 (n_base n) (doorbell n notify_offset) queue.

(** ** Block requests *)
Definition TYPE_IN : Z := 0.
Definition TYPE_OUT : Z := 1.
Definition HEADER_BYTES : Z := 16.
Definition SECTOR_BYTES : Z := 512.
Definition STATUS_OK : Z := 0.
Definition STATUS_IO_ERROR : Z := 1.
Definition STATUS_UNSUPPORTED : Z := 2.

Definition block_header (kind sector : Z) : list Z := le_encode 4 kind ++ [0; 0; 0; 0] ++ le_encode 8 sector.

(** ** The queue *)
Definition DESCRIPTOR_BYTES : Z := 16.
Definition DESC_NEXT : Z := 1.
Definition DESC_WRITE : Z := 2.

Record QueueLayout := { ql_size : Z; descriptors : Z; available : Z; used : Z }.

Definition AVAILABLE_INDEX : Z := 2.
Definition AVAILABLE_RING : Z := 4.
Definition USED_INDEX : Z := 2.
Definition USED_RING : Z := 4.
Definition USED_ENTRY_BYTES : Z := 8.
Definition DESCRIPTORS_AT : Z := 0.
Definition AVAILABLE_AT : Z := 0x400.
Definition USED_AT : Z := 0x800.

(** [u16::is_power_of_two]. *)
Definition is_power_of_two (n : Z) : bool := (0 <? n) && (2 ^ Z.log2 n =? n).

Module Layout.
Definition in_one_frame (size frame_bytes : Z) : option QueueLayout :=
  if (size =? 0) || negb (is_power_of_two size) then None
  else if (AVAILABLE_AT <? size * DESCRIPTOR_BYTES) || (frame_bytes <? USED_AT + USED_RING + USED_ENTRY_BYTES * size + 2)
  then None
  else Some {| ql_size := size; descriptors := DESCRIPTORS_AT; available := AVAILABLE_AT; used := USED_AT |}.

Definition descriptor (l : QueueLayout) (index : Z) : option Z :=
  if ql_size l <=? index then None else Some (descriptors l + index * DESCRIPTOR_BYTES).
Definition available_slot (l : QueueLayout) (index : Z) : Z := available l + AVAILABLE_RING + (index mod ql_size l) * 2.
Definition used_slot (l : QueueLayout) (index : Z) : Z := used l + USED_RING + (index mod ql_size l) * USED_ENTRY_BYTES.
End Layout.

Record Descriptor := { d_address : Z; d_length : Z; d_flags : Z; d_next : Z }.
Record Completion := { c_head : Z; c_written : Z }.

(** The two frames a driver shares with its device, and the device. *)
Record Dma (D : Type) := { ring : list Z; req : list Z; device_ : D }.
Arguments ring {D} _.
Arguments req {D} _.
Arguments device_ {D} _.

Section queue.
  Context {D X : Type} `{!Device D}.
  Implicit Types m : Dma D.

Definition device_turn (m : Dma D) : Dma D :=
  let '(r, q, d) := turn (ring m) (req m) (device_ m) in {| ring := r; req := q; device_ := d |}.

(** An access outside the frame is a panic here; in the code it would be
    undefined. *)
Definition read_ring (w o : Z) : dev (Dma D) X Z := λ m,
  let m := device_turn m in
  match slice (ring m) o (o + w) with Some b => (Ok (le_decode b), m) | None => (Panic, m) end.

Definition write_ring (w o v : Z) : dev (Dma D) X () := λ m,
  let m := device_turn m in
  match copy_at (ring m) o (o + w) (le_encode (Z.to_nat w) v) with
  | Some r => (Ok (), {| ring := r; req := req m; device_ := device_ m |})
  | None => (Panic, m)
  end.

Definition read_req (w o : Z) : dev (Dma D) X (list Z) := λ m,
  let m := device_turn m in
  match slice (req m) o (o + w) with Some b => (Ok b, m) | None => (Panic, m) end.

Definition write_req (o : Z) (bytes : list Z) : dev (Dma D) X () := λ m,
  let m := device_turn m in
  match copy_at (req m) o (o + len bytes) bytes with
  | Some r => (Ok (), {| ring := ring m; req := r; device_ := device_ m |})
  | None => (Panic, m)
  end.

Definition set_descriptor (l : QueueLayout) (index : Z) (d : Descriptor) : dev (Dma D) X bool :=
  match Layout.descriptor l index with
  | None => mret false
  | Some o =>
      _ ← write_ring 8 o (d_address d);
      _ ← write_ring 4 (o + 8) (d_length d);
      _ ← write_ring 2 (o + 12) (d_flags d);
      _ ← write_ring 2 (o + 14) (d_next d);
      mret true
  end.

Definition publish (l : QueueLayout) (head : Z) : dev (Dma D) X Z :=
  index ← read_ring 2 (available l + AVAILABLE_INDEX);
  _ ← write_ring 2 (Layout.available_slot l index) head;
  _ ← write_ring 2 (available l + AVAILABLE_INDEX) (wrap 16 (index + 1));
  mret (wrap 16 (index + 1)).

Definition used_index (l : QueueLayout) : dev (Dma D) X Z := read_ring 2 (used l + USED_INDEX).

Definition completion (l : QueueLayout) (index : Z) : dev (Dma D) X Completion :=
  let o := Layout.used_slot l index in
  head ← read_ring 4 o;
  written ← read_ring 4 (o + 4);
  mret {| c_head := wrap 16 head; c_written := written |}.

Definition available_index (l : QueueLayout) : dev (Dma D) X Z := read_ring 2 (available l + AVAILABLE_INDEX).
End queue.
