(* ===== verification/VirtioBlk.v ===== *)
(** * The disk's driver: [kernel/src/devices/virtio_blk.rs]

    Finding the disk, mapping its registers, the handshake, the queue, and
    one request at a time through it. *)

From S2P Require Import Prelude Words PhysMem FrameAlloc Bytes Memory HalPaging PageTables Pci Virtio.
Local Open Scope Z_scope.

Inductive StartError :=
| NotFound
| Transitional
| NoCommonConfig
| TooShort (length : Z)
| NoSuchBar (bar : Z)
| NotMemory (bar : Z)
| Mapping (e : MapError)
| NoVersion1 (offered : Z)
| FeaturesRefused (status : Z).

Record FoundDisk := {
  fd_at : Address;
  fd_bar : Z;
  fd_registers : Z;
  fd_common : CommonConfig;
  fd_offered : Z;
  fd_accepted : Z;
  fd_header_bars : list Z;
  fd_queues : Z;
  fd_queue_size : Z;
  fd_notify_offset : Z
}.

(** [addr & !(PAGE_SIZE - 1)]. *)
Definition page_of (addr : Z) : Z := Z.land addr (not_w 64 (PAGE_SIZE - 1)).

(** More rounds than a length below 2^32 has pages. *)
Definition REGISTER_PAGES : Z := 2 ^ 20 + 2.

Section map_registers.
  Context {P F : Type} `{!PageMapper P F}.

(** [Ok(()) | Err(AlreadyMapped) => {}]. *)
Definition mapped_or_already {S} (m : dev S MapError ()) : dev S MapError () := λ s,
  match m s with
  | (Err AlreadyMapped, s) => (Ok (), s)
  | other => other
  end.

Fixpoint map_pages (fuel : nat) (mapper : P) (last at_ : Z) : dev (Mem * F) MapError () :=
  match fuel with
  | O => lift Diverge
  | S fuel =>
      if last <? at_ then mret ()
      else
        let frame := Frame.containing_address at_ in
        page ← lift (expect (checked_add 64 KERNEL_DEVICES_START at_));
        _ ← mapped_or_already (map_page mapper (Pages.containing_address page) frame
              (Flags.cached_as (Flags.kernel true false) Uncacheable));
        map_pages fuel mapper last (wrap 64 (at_ + PAGE_SIZE))
  end.

Definition map_registers (mapper : P) (start length : Z) : dev (Mem * F) MapError Z :=
  let first := page_of start in
  let last := page_of (wrap 64 (wrap 64 (start + length) - 1)) in
  _ ← map_pages (Z.to_nat REGISTER_PAGES) mapper last first;
  lift (expect (checked_add 64 KERNEL_DEVICES_START start)).
End map_registers.

(** ** The handshake *)
Section handshake.
  Context {D : Type} `{!Device D}.

(** [give_up]. *)
Definition gave_up {A} (common : CommonConfig) (why : StartError) : dev D StartError A :=
  _ ← set_status common STATUS_FAILED; lift (Err why).

(** What is offered, what was accepted, how many queues, the first one's
    size and its notify offset. *)
Definition negotiate (common : CommonConfig) : dev D StartError (Z * Z * Z * Z * Z) :=
  _ ← set_status common 0;
  _ ← set_status common STATUS_ACKNOWLEDGE;
  _ ← set_status common (Z.lor STATUS_ACKNOWLEDGE STATUS_DRIVER);
  low ← device_features common 0;
  high ← device_features common FEATURE_VERSION_1_SELECT;
  let offered := Z.lor low (Z.shiftl high 32) in
  if Z.land high FEATURE_VERSION_1 =? 0 then gave_up common (NoVersion1 offered)
  else
    _ ← set_driver_features common 0 0;
    _ ← set_driver_features common FEATURE_VERSION_1_SELECT FEATURE_VERSION_1;
    let accepted := Z.shiftl FEATURE_VERSION_1 32 in
    _ ← set_status common (Z.lor (Z.lor STATUS_ACKNOWLEDGE STATUS_DRIVER) STATUS_FEATURES_OK);
    s ← status common;
    if Z.land s STATUS_FEATURES_OK =? 0 then gave_up common (FeaturesRefused s)
    else
      queues ← queue_count common;
      _ ← select_queue common 0;
      size ← queue_size common;
      notify ← queue_notify_offset common;
      mret (offered, accepted, queues, size, notify).
End handshake.

(** An operation on one half of a state. *)
Definition on_first {S T E A} (m : dev S E A) : dev (S * T) E A := λ '(s, t), let '(r, s) := m s in (r, (s, t)).
Definition on_second {S T E A} (m : dev T E A) : dev (S * T) E A := λ '(s, t), let '(r, t) := m t in (r, (s, t)).

Section start.
  Context {P F C D : Type} `{!PageMapper P F, !ConfigSpace C, !Device D}.

Definition start (mapper : P) (ports : C) (devices : Devices) : dev ((Mem * F) * D) StartError FoundDisk :=
  found ← lift (match Table.find devices VENDOR DEVICE_BLOCK with
                | Some found => Ok found
                | None =>
                    match Table.find devices VENDOR DEVICE_BLOCK_TRANSITIONAL with
                    | Some _ => Err Transitional
                    | None => Err NotFound
                    end
                end);
  location ← lift (ok_or NoCommonConfig (common_config_location ports (at_ found)));
  if l_length location <? COMMON_CONFIG_BYTES then lift (Err (TooShort (l_length location)))
  else
    bar ← lift (ok_or (NoSuchBar (l_bar location)) (decode_bar (bars (header found)) (l_bar location)));
    base ← lift (ok_or (NotMemory (l_bar location)) (memory_address bar));
    registers ← dev_map_err Mapping
      (on_first (map_registers mapper (wrap 64 (base + l_offset location)) (l_length location)));
    let common := {| cc_base := registers |} in
    '(offered, accepted, queues, size, notify) ← on_second (negotiate common);
    mret {|
      fd_at := at_ found; fd_bar := l_bar location; fd_registers := registers; fd_common := common;
      fd_offered := offered; fd_accepted := accepted; fd_header_bars := bars (header found);
      fd_queues := queues; fd_queue_size := size; fd_notify_offset := notify
    |}.
End start.

(** ** The queue *)
Definition QUEUE_SIZE : Z := 4.
Definition QUEUE : Z := 0.
Definition POLL_LIMIT : Z := 20000000.
Definition HEAD : Z := 0.
Definition DATA : Z := 1.
Definition STATUS : Z := 2.
Definition HEADER_AT : Z := 0.
Definition DATA_AT : Z := 0x200.
Definition STATUS_AT : Z := 0xE00.

Inductive ReadError :=
| OutOfMemory
| QueueTooBig (size : Z)
| QueueTooSmall (offered : Z)
| SizeRefused (asked taken : Z)
| NoAnswer
| WrongChain (head : Z)
| Failed (status : Z)
| ShortRead (written : Z)
| ReadNotOurDisk.

#[export] Instance ReadError_eq_dec : EqDecision ReadError.
Proof. solve_decision. Defined.

(** The queue's and the request's frames are the ones of [Dma]. *)
Record Reader := { rd_layout : QueueLayout; rd_notify : Notifier; rd_request_phys : Z }.

Section start_queue.
  Context {P C D : Type} `{!PageMapper P KernelFrames, !ConfigSpace C, !Device D}.
  Local Abbreviation Hw := ((Mem * KernelFrames) * D)%type.

Definition enable (disk : FoundDisk) (layout : QueueLayout) (ring_phys : Z) : dev D ReadError Z :=
  _ ← select_queue (fd_common disk) QUEUE;
  _ ← set_queue_size (fd_common disk) QUEUE_SIZE;
  taken ← queue_size (fd_common disk);
  if taken =? QUEUE_SIZE then
    _ ← set_queue_addresses (fd_common disk) (wrap 64 (ring_phys + descriptors layout))
          (wrap 64 (ring_phys + available layout)) (wrap 64 (ring_phys + used layout));
    _ ← enable_queue (fd_common disk);
    _ ← set_status (fd_common disk)
          (Z.lor (Z.lor (Z.lor STATUS_ACKNOWLEDGE STATUS_DRIVER) STATUS_FEATURES_OK) STATUS_DRIVER_OK);
    mret taken
  else mret taken.

Definition start_queue (disk : FoundDisk) (mapper : P) (ports : C) : dev Hw ReadError Reader :=
  if fd_queue_size disk <? 3 then lift (Err (QueueTooSmall (fd_queue_size disk)))
  else
    layout ← lift (ok_or (QueueTooBig QUEUE_SIZE) (Layout.in_one_frame QUEUE_SIZE PAGE_SIZE));
    got ← on_first (infallible (Zeroed.allocate_for FrameAlloc.Dma));
    ring_frame ← lift (ok_or OutOfMemory got);
    got ← on_first (infallible (Zeroed.allocate_for FrameAlloc.Dma));
    request_frame ← lift (ok_or OutOfMemory got);
    let ring_phys := frame_start ring_frame in
    let request_phys := frame_start request_frame in
    notify_location ← lift (ok_or NoAnswer (first_of_kind ports (fd_at disk) Notify));
    notify_bar ← lift (ok_or NoAnswer
      (bar ← decode_bar (fd_header_bars disk) (l_bar notify_location); memory_address bar));
    notify_base ← dev_map_err (λ _, NoAnswer)
      (on_first (map_registers mapper (wrap 64 (notify_bar + l_offset notify_location)) (l_length notify_location)));
    let notify := {| n_base := notify_base; n_multiplier := default 0 (notify_multiplier notify_location) |} in
    taken ← on_second (enable disk layout ring_phys);
    if negb (taken =? QUEUE_SIZE) then lift (Err (SizeRefused QUEUE_SIZE taken))
    else mret {| rd_layout := layout; rd_notify := notify; rd_request_phys := request_phys |}.
End start_queue.

(** ** One request *)
Section request.
  Context {D : Type} `{!Device D}.

(** At most one look more than the limit. *)
Fixpoint wait (looks : nat) (l : QueueLayout) (published : Z) : dev (Dma D) ReadError () :=
  match looks with
  | O => lift (Err NoAnswer)
  | S looks =>
      u ← used_index l;
      if u =? published then mret () else wait looks l published
  end.

Definition ring_bell (r : Reader) (disk : FoundDisk) : dev (Dma D) ReadError () := λ m,
  let '(answer, d) := ring_doorbell (rd_notify r) (fd_notify_offset disk) QUEUE (device_ m) in
  (answer, {| ring := ring m; req := req m; device_ := d |}).

(** [fill] is what a write puts in the request's frame. *)
Definition prepare (kind sector : Z) (fill : option (list Z)) : dev (Dma D) ReadError () :=
  _ ← write_req HEADER_AT (block_header kind sector);
  _ ← write_req STATUS_AT [0xFF];
  match fill with Some from => write_req DATA_AT from | None => mret () end.

Definition offer (r : Reader) (kind : Z) : dev (Dma D) ReadError Z :=
  let writing := kind =? TYPE_OUT in
  _ ← set_descriptor (rd_layout r) HEAD
        {| d_address := wrap 64 (rd_request_phys r + HEADER_AT); d_length := HEADER_BYTES; d_flags := DESC_NEXT; d_next := DATA |};
  _ ← set_descriptor (rd_layout r) DATA
        {| d_address := wrap 64 (rd_request_phys r + DATA_AT); d_length := SECTOR_BYTES;
           d_flags := if writing then DESC_NEXT else Z.lor DESC_NEXT DESC_WRITE; d_next := STATUS |};
  _ ← set_descriptor (rd_layout r) STATUS
        {| d_address := wrap 64 (rd_request_phys r + STATUS_AT); d_length := 1; d_flags := DESC_WRITE; d_next := 0 |};
  publish (rd_layout r) HEAD.

Definition conclude (r : Reader) (kind published : Z) : dev (Dma D) ReadError () :=
  done ← completion (rd_layout r) (wrap 16 (published - 1));
  if negb (c_head done =? HEAD) then lift (Err (WrongChain (c_head done)))
  else
    status ← read_req 1 STATUS_AT;
    if negb (le_decode status =? STATUS_OK) then lift (Err (Failed (le_decode status)))
    else
      let expected := if kind =? TYPE_OUT then 1 else SECTOR_BYTES + 1 in
      if negb (c_written done =? expected) then lift (Err (ShortRead (c_written done))) else mret ().

Definition request (r : Reader) (disk : FoundDisk) (kind sector : Z) (fill : option (list Z)) : dev (Dma D) ReadError () :=
  _ ← prepare kind sector fill;
  published ← offer r kind;
  _ ← ring_bell r disk;
  _ ← wait (Z.to_nat (POLL_LIMIT + 1)) (rd_layout r) published;
  conclude r kind published.

Definition read_sector (r : Reader) (disk : FoundDisk) (sector : Z) : dev (Dma D) ReadError (list Z) :=
  _ ← request r disk TYPE_IN sector None;
  read_req 512 DATA_AT.

Definition write_sector (r : Reader) (disk : FoundDisk) (sector : Z) (from : list Z) : dev (Dma D) ReadError () :=
  request r disk TYPE_OUT sector (Some from).
End request.

(** Nobody counts to it. *)
#[global] Opaque POLL_LIMIT.
