(* ===== verification/VirtioHandshake.v ===== *)
(** * The handshake: theorems

    Bringing the disk up follows virtio's order (but for the wait after the
    reset), as an automaton over the accesses to the common configuration. *)

From S2P Require Import Prelude Words PhysMem FrameAlloc Bytes Memory HalPaging PageTables Pci Virtio VirtioBlk.
Local Open Scope Z_scope.

(** ** The order

    What virtio requires of a driver that starts a device, but for the wait
    until the status reads 0 after a reset, as an automaton over the accesses
    to the common configuration.  The device is any
    function of what has been done to it. *)
Inductive Event := DidRead (w o v : Z) | DidWrite (w o v : Z).

Inductive Phase :=
| Untouched | WasReset | Noticed
| Driven       (* features are being chosen *)
| Asked        (* FEATURES_OK written, not read back *)
| Agreed       (* read back: set *)
| Denied       (* read back: clear *)
| Enabled
| Live
| GivenUp.

Definition same_phase (p q : Phase) : bool :=
  match p, q with
  | Untouched, Untouched | WasReset, WasReset | Noticed, Noticed | Driven, Driven | Asked, Asked | Agreed, Agreed
  | Denied, Denied | Enabled, Enabled | Live, Live | GivenUp, GivenUp => true
  | _, _ => false
  end.

Record Setup := {
  phase : Phase;
  dev_select : Z; drv_select : Z;
  offers : gmap Z Z; accepts : gmap Z Z;
  q_addresses : gmap Z Z
}.

Definition untouched : Setup :=
  {| phase := Untouched; dev_select := 0; drv_select := 0; offers := ∅; accepts := ∅; q_addresses := ∅ |}.

Definition at_phase (p : Phase) (s : Setup) : Setup :=
  {| phase := p; dev_select := dev_select s; drv_select := drv_select s; offers := offers s; accepts := accepts s;
     q_addresses := q_addresses s |}.

(** Only what is offered is accepted, and virtio 1 among it. *)
Definition fair (s : Setup) : bool :=
  bool_decide (map_Forall (λ sel v, Z.land v (default 0 (offers s !! sel)) = v) (accepts s)) &&
  Z.testbit (default 0 (accepts s !! FEATURE_VERSION_1_SELECT)) 0.

(** The status written: each bit when its turn has come. *)
Definition status_written (v : Z) (s : Setup) : option Setup :=
  if v =? 0 then Some (at_phase WasReset untouched)
  else if v =? 128 then Some (at_phase GivenUp s)
  else match phase s with
       | WasReset => if v =? 1 then Some (at_phase Noticed s) else None
       | Noticed => if v =? 3 then Some (at_phase Driven s) else None
       | Driven => if (v =? 11) && fair s then Some (at_phase Asked s) else None
       | Enabled => if v =? 15 then Some (at_phase Live s) else None
       | _ => None
       end.

Definition in_phase (p : Phase) (s : Setup) (s' : Setup) : option Setup := if same_phase (phase s) p then Some s' else None.

(** A register by its width and offset. *)
Definition reg (w o w' o' : Z) : bool := (w =? w') && (o =? o').

Definition legal_read (w o v : Z) (s : Setup) : option Setup :=
  if reg w o 1 0x14 then
    if same_phase (phase s) Asked then Some (at_phase (if Z.testbit v 3 then Agreed else Denied) s) else Some s
  else if reg w o 4 0x04 then in_phase Driven s
    {| phase := phase s; dev_select := dev_select s; drv_select := drv_select s;
       offers := <[dev_select s := v]> (offers s); accepts := accepts s; q_addresses := q_addresses s |}
  else if reg w o 2 0x12 || reg w o 2 0x18 || reg w o 2 0x1E then Some s
  else None.

Definition legal_write (w o v : Z) (s : Setup) : option Setup :=
  if reg w o 1 0x14 then status_written v s
  else if reg w o 4 0x00 then in_phase Driven s
    {| phase := phase s; dev_select := v; drv_select := drv_select s;
       offers := offers s; accepts := accepts s; q_addresses := q_addresses s |}
  else if reg w o 4 0x08 then in_phase Driven s
    {| phase := phase s; dev_select := dev_select s; drv_select := v;
       offers := offers s; accepts := accepts s; q_addresses := q_addresses s |}
  else if reg w o 4 0x0C then in_phase Driven s
    {| phase := phase s; dev_select := dev_select s; drv_select := drv_select s;
       offers := offers s; accepts := <[drv_select s := v]> (accepts s); q_addresses := q_addresses s |}
  else if reg w o 2 0x16 || reg w o 2 0x18 then in_phase Agreed s s
  else if reg w o 8 0x20 || reg w o 8 0x28 || reg w o 8 0x30 then in_phase Agreed s
    {| phase := phase s; dev_select := dev_select s; drv_select := drv_select s;
       offers := offers s; accepts := accepts s; q_addresses := <[o := v]> (q_addresses s) |}
  else if reg w o 2 0x1C && (v =? 1) &&
    forallb (λ o, bool_decide (is_Some (q_addresses s !! o))) [0x20; 0x28; 0x30] then in_phase Agreed s (at_phase Enabled s)
  else None.

Definition legal (e : Event) (s : Setup) : option Setup :=
  match e with
  | DidRead w o v => legal_read w o v s
  | DidWrite w o v => legal_write w o v s
  end.

Fixpoint follow (log : list Event) (s : Setup) : option Setup :=
  match log with
  | [] => Some s
  | e :: log => s ← legal e s; follow log s
  end.

Lemma asking s : phase s = Driven → fair s = true → legal (DidWrite 1 0x14 11) s = Some (at_phase Asked s).
Proof. intros Hp Hf. change (status_written 11 s = Some (at_phase Asked s)). unfold status_written. by rewrite Hp, Hf. Qed.

(** Accepting virtio 1 and nothing else, where it is offered. *)
Lemma fair_choice p ds rs qs v0 v : Z.testbit v 0 = true →
  fair {| phase := p; dev_select := ds; drv_select := rs; offers := <[1 := v]> (<[0 := v0]> ∅); accepts := <[1 := 1]> (<[0 := 0]> ∅);
          q_addresses := qs |} = true.
Proof.
  intros Hv. unfold fair. cbn [offers accepts]. rewrite lookup_insert_eq. rewrite andb_true_r. apply bool_decide_eq_true.
  apply map_Forall_insert; [by vm_compute|]. split.
  - rewrite lookup_insert_eq. cbn [default from_option id]. apply Z.bits_inj'. intros i Hi. rewrite Z.land_spec.
    destruct (decide (i = 0)) as [->|]; [by rewrite Hv|]. change 1 with (2 ^ 0). by rewrite Z.pow2_bits_false by lia.
  - apply map_Forall_insert; [done|]. split; [by rewrite Z.land_0_l|apply map_Forall_empty].
Qed.

Lemma bit_test v n : 0 <=? n = true → (Z.land v (2 ^ n) =? 0) = negb (Z.testbit v n).
Proof.
  intros Hn%Z.leb_le. destruct (Z.testbit v n) eqn:E; cbn [negb].
  - apply Z.eqb_neq. intros H0. assert (Z.testbit (Z.land v (2 ^ n)) n = false) as H1 by (rewrite H0; apply Z.bits_0).
    rewrite Z.land_spec, E, Z.pow2_bits_true in H1 by done. done.
  - apply Z.eqb_eq, Z.bits_inj'. intros i Hi. rewrite Z.land_spec, Z.pow2_bits_eqb, Z.bits_0 by done.
    destruct (Z.eqb_spec n i) as [<-|]; [by rewrite E|by rewrite andb_false_r].
Qed.

Section handshake.
  Context (base : Z) (answer : list Event → Z → Z → Z).
  Hypothesis base_fits : 0 ≤ base ∧ base + COMMON_CONFIG_BYTES ≤ 2 ^ 64.
  Local Abbreviation common := {| cc_base := base |}.

(** A device that answers whatever it likes, and the record of what is done. *)
#[local] Instance logged : Device (list Event) := {
  mmio_read w a log := let v := wrap (8 * w) (answer log w (a - base)) in (v, log ++ [DidRead w (a - base) v]);
  mmio_write w a v log := log ++ [DidWrite w (a - base) v];
  turn r q log := (r, q, log)
}.

Lemma follow_snoc log e s s' : follow log untouched = Some s → legal e s = Some s' → follow (log ++ [e]) untouched = Some s'.
Proof.
  generalize untouched. induction log as [|e0 log IH]; intros s0.
  - cbn [app follow]. intros [= ->]. intros ->. done.
  - cbn [app follow]. destruct (legal e0 s0) as [s1|]; [apply IH|done].
Qed.

(** One access, from a setup to a setup. *)
Lemma write_step {X} w o v log s s' : 0 ≤ o < COMMON_CONFIG_BYTES → follow log untouched = Some s →
  legal (DidWrite w o v) s = Some s' →
  ∃ log', write_register (X := X) w base o v log = (Ok (), log') ∧ follow log' untouched = Some s'.
Proof.
  intros Ho Hf Hl. eexists. split; [|exact (follow_snoc _ _ _ _ Hf Hl)].
  unfold write_register, register, checked_add. rewrite (proj2 (Z.ltb_lt _ _)) by lia.
  rewrite dev_bind_run. cbn. by rewrite Z.add_simpl_l.
Qed.

Lemma read_step {X} w o log s : 0 ≤ o < COMMON_CONFIG_BYTES → 0 ≤ w → follow log untouched = Some s →
  (∀ v, is_Some (legal (DidRead w o v) s)) →
  ∃ v log' s', read_register (X := X) w base o log = (Ok v, log') ∧ in_width (8 * w) v ∧
    legal (DidRead w o v) s = Some s' ∧ follow log' untouched = Some s'.
Proof.
  intros Ho Hw Hf Hl. set (v := wrap (8 * w) (answer log w o)).
  assert (in_width (8 * w) v) as Hv by (apply Z.mod_pos_bound; lia). destruct (Hl v) as [s' Hs'].
  exists v, (log ++ [DidRead w o v]), s'. split_and!; [|done|done|exact (follow_snoc _ _ _ _ Hf Hs')].
  unfold read_register, read_volatile, register, checked_add. rewrite (proj2 (Z.ltb_lt _ _)) by lia.
  rewrite dev_bind_run. cbn. rewrite Z.add_simpl_l. fold v. f_equal. f_equal. apply Z.mod_small. exact Hv.
Qed.

Ltac bound := unfold COMMON_CONFIG_BYTES; split; [discriminate|reflexivity].
Ltac access :=
  rewrite ?dev_bind_run;
  match goal with
  | F : follow ?log untouched = Some ?s |- context [@write_register _ ?X _ ?w _ ?o ?v ?log] =>
      let log' := fresh "log" in let E := fresh in let F' := fresh in
      destruct (write_step (X := X) w o v log s _ ltac:(bound) F eq_refl) as (log' & E & F'); rewrite E; clear E F;
      cbn [phase dev_select drv_select offers accepts q_addresses at_phase untouched] in F'
  | F : follow ?log untouched = Some ?s |- context [@read_register _ ?X _ ?w _ ?o ?log] =>
      let v := fresh "v" in let log' := fresh "log" in let E := fresh in let L := fresh in let F' := fresh in
      let W := fresh "W" in let s' := fresh in
      destruct (read_step (X := X) w o log s ltac:(bound) ltac:(discriminate) F) as (v & log' & s' & E & W & L & F');
        [intros; eexists; reflexivity|]; rewrite E; clear E F;
      lazy [legal legal_read reg Z.eqb Pos.eqb andb orb in_phase same_phase phase at_phase
        DEVICE_FEATURE DEVICE_STATUS NUM_QUEUES QUEUE_SIZE_AT QUEUE_NOTIFY_OFF] in L; apply (inj Some) in L; subst s';
      cbn [phase dev_select drv_select offers accepts q_addresses at_phase untouched] in F'
  end.

(** C29: The disk is brought up in the order the automaton allows, whatever the
    device answers, which is virtio's but for one step: the driver does not
    wait after the reset until the status reads 0 ([reset_not_awaited]).
    From the reset on, the status gains its bits one at a time, features are chosen only between
    DRIVER and FEATURES_OK, only offered ones are accepted and virtio 1 is
    among them, the queue is not touched before the device has agreed, is
    enabled only with its three addresses given, and DRIVER_OK comes last.  A
    device without virtio 1, or that refuses the features, is left marked
    FAILED; one that takes another queue size is left as it agreed, neither
    enabled nor marked; and it is live exactly when it took the queue's size,
    and then knows the queue by the layout's places in the ring's frame. *)
Theorem handshake_followed (disk : FoundDisk) (layout : QueueLayout) (ring_phys : Z) : fd_common disk = common →
  let '(r, log) := negotiate common [] in
  ∃ s, follow log untouched = Some s ∧
  match r with
  | Ok (offered, accepted, queues, size, notify) =>
      phase s = Agreed ∧ accepted = 2 ^ 32 ∧
      ∃ taken log' s', enable disk layout ring_phys log = (Ok taken, log') ∧ follow log' untouched = Some s' ∧
        if taken =? QUEUE_SIZE then
          phase s' = Live ∧ q_addresses s' = <[0x30 := wrap 64 (ring_phys + used layout)]>
            (<[0x28 := wrap 64 (ring_phys + available layout)]> {[0x20 := wrap 64 (ring_phys + descriptors layout)]})
        else phase s' = Agreed
  | Err (NoVersion1 offered) => phase s = GivenUp ∧ Z.testbit offered 32 = false
  | Err (FeaturesRefused status) => phase s = GivenUp ∧ Z.testbit status 3 = false
  | _ => False
  end.
Proof.
  intros Hd. unfold negotiate, set_status, device_features, set_driver_features, status, queue_count, select_queue, queue_size, queue_notify_offset.
  cbn [cc_base]. assert (follow [] untouched = Some untouched) as F by done. revert F. generalize (@nil Event) at 1 2. intros log F.
  do 7 access. destruct (Z.land v0 FEATURE_VERSION_1 =? 0) eqn:Ehigh.
  { unfold gave_up, set_status. cbn [cc_base]. access. cbn [lift]. eexists. split; [eassumption|]. split; [done|].
    rewrite Z.lor_spec, Z.shiftl_spec by done. rewrite (testbit_high 32 v) by done.
    pose proof (bit_test v0 0 eq_refl) as Hb. change (2 ^ 0) with FEATURE_VERSION_1 in Hb. rewrite Ehigh in Hb.
    change (Z.testbit v0 0 = false). by destruct (Z.testbit v0 0). }
  do 4 access.
  assert (Z.testbit v0 0 = true) as Hv.
  { pose proof (bit_test v0 0 eq_refl) as Hb. change (2 ^ 0) with FEATURE_VERSION_1 in Hb. rewrite Ehigh in Hb. by destruct (Z.testbit v0 0). }
  rewrite ?dev_bind_run. match goal with F : follow log10 untouched = Some ?s |- _ =>
    destruct (write_step (X := StartError) 1 DEVICE_STATUS 11 log10 s _ ltac:(bound) F
      (asking s eq_refl (fair_choice _ _ _ _ _ _ Hv))) as (log11 & E & F'); clear F end.
  change (Z.lor (Z.lor STATUS_ACKNOWLEDGE STATUS_DRIVER) STATUS_FEATURES_OK) with 11. rewrite E. clear E.
  cbn [phase dev_select drv_select offers accepts q_addresses at_phase] in F'.
  access. pose proof (bit_test v1 3 eq_refl) as Hb. change (2 ^ 3) with STATUS_FEATURES_OK in Hb. rewrite Hb. clear Hb.
  destruct (Z.testbit v1 3) eqn:Eok; cbn [negb].
  2:{ unfold gave_up, set_status. cbn [cc_base]. access. cbn [lift]. eexists. split; [eassumption|]. done. }
  do 4 access. cbn [mret dev_ret].
  match goal with F : follow ?log untouched = Some ?s |- _ => exists s; split; [exact F|] end.
  split; [done|]. split; [done|].
  unfold enable, select_queue, set_queue_size, queue_size, set_queue_addresses, enable_queue, set_status. rewrite Hd. cbn [cc_base].
  do 3 access. destruct (v5 =? QUEUE_SIZE) eqn:Etaken.
  - do 5 access. cbn [mret dev_ret]. eexists v5, _, _. split; [reflexivity|]. split; [eassumption|]. rewrite Etaken. by split.
  - cbn [mret dev_ret]. eexists v5, _, _. split; [reflexivity|]. split; [eassumption|]. by rewrite Etaken.
Qed.
End handshake.

(** ** A device that agrees to everything *)
Definition obliging (log : list Event) (w o : Z) : Z :=
  if o =? 0x04 then 1 else if o =? 0x14 then 11 else if o =? 0x18 then 4 else 0.

Definition some_disk : FoundDisk := {|
  fd_at := {| bus := 0; device := 4; function := 0 |}; fd_bar := 4; fd_registers := 0x1000; fd_common := {| cc_base := 0x1000 |};
  fd_offered := 0; fd_accepted := 0; fd_header_bars := []; fd_queues := 1; fd_queue_size := 4; fd_notify_offset := 0 |}.

Definition some_layout : QueueLayout := {| ql_size := 4; descriptors := 0; available := 0x400; used := 0x800 |}.

(** Virtio asks a driver to wait, once it has reset the device, until the
    status reads 0; this one goes on at once. *)
Example reset_not_awaited :
  take 2 (@negotiate _ (logged 0x1000 obliging) {| cc_base := 0x1000 |} []).2 = [DidWrite 1 0x14 0; DidWrite 1 0x14 1].
Proof. reflexivity. Qed.

Lemma handshake_followed_witness :
  0x1000 + COMMON_CONFIG_BYTES ≤ 2 ^ 64 ∧
  let '(r, log) := @negotiate _ (logged 0x1000 obliging) {| cc_base := 0x1000 |} [] in
  ∃ log' s', @enable _ (logged 0x1000 obliging) some_disk some_layout 0x7000 log = (Ok 4, log') ∧
    follow log' untouched = Some s' ∧ phase s' = Live.
Proof.
  split; [unfold COMMON_CONFIG_BYTES; lia|].
  pose proof (handshake_followed 0x1000 obliging ltac:(unfold COMMON_CONFIG_BYTES; lia) some_disk some_layout 0x7000 eq_refl) as H.
  destruct (@negotiate _ (logged 0x1000 obliging) {| cc_base := 0x1000 |} []) as [r log] eqn:E.
  vm_compute in E. injection E as <- <-. destruct H as (s & _ & _ & _ & taken & log' & s' & E' & Hf & Ht).
  exists log', s'. assert (taken = 4) as ->.
  { vm_compute in E'. injection E' as <- _. reflexivity. }
  split; [exact E'|]. split; [exact Hf|exact (proj1 Ht)].
Defined.
