(* ===== verification/VirtioStart.v ===== *)
(** * Mapping a device's registers: theorems

    What [map_registers] does to the kernel's address space, over the page
    tables. *)

From S2P Require Import Prelude Words PhysMem FrameAlloc Bytes Memory HalPaging PageTables PageWalk PageTree PageMap PageMapThms FramesZeroed Spaces PageThms Pci Virtio VirtioBlk.
Local Open Scope Z_scope.

#[export] Instance MapError_eq_dec : EqDecision MapError.
Proof. solve_decision. Defined.

(** ** The device region *)
Definition device_at (p : Z) : Z := KERNEL_DEVICES_START + p.
(** How far the region can be used: to the end of the address space. *)
Definition DEVICE_SPAN : Z := 2 ^ 64 - KERNEL_DEVICES_START.

Definition register_page (p : Z) : Access :=
  {| a_base := p - p mod 4096; a_size := 4096; a_writable := true; a_user := false; a_execute := false |}.

(** Whatever is mapped in the region is mapped where it is. *)
Definition devices_ok (T : PageTables) (m : Mem) : Prop :=
  ∀ p, 0 ≤ p < DEVICE_SPAN → resolve (root T) m (device_at p) = None ∨
    resolve (root T) m (device_at p) = Some (register_page p).

Lemma start_value : KERNEL_DEVICES_START = 0xFFFF830000000000.
Proof. reflexivity. Qed.

Lemma device_va p : 0 ≤ p < DEVICE_SPAN → va_ok (device_at p) ∧ half (device_at p) = half KERNEL_DEVICES_START ∧
  device_at p / 4096 = KERNEL_DEVICES_START / 4096 + p / 4096 ∧ device_at p mod 4096 = p mod 4096.
Proof.
  unfold DEVICE_SPAN, device_at. rewrite start_value. intros Hp.
  assert (KERNEL_SPACE_BASE ≤ 0xFFFF830000000000 + p) as Hk by (unfold KERNEL_SPACE_BASE; lia).
  split_and!.
  - split; [unfold in_width; lia|]. unfold is_canonical. rewrite Z.shiftr_div_pow2 by lia. apply orb_true_iff. right.
    apply Z.eqb_eq. symmetry. apply (Z.div_unique _ _ _ (0xFFFF830000000000 + p - 0x1FFFF * 2 ^ 47)); lia.
  - unfold half. rewrite (proj2 (Z.ltb_ge _ _)) by done. by rewrite (proj2 (Z.ltb_ge 0xFFFF830000000000 _)) by (unfold KERNEL_SPACE_BASE; lia).
  - rewrite Z.add_comm. replace 0xFFFF830000000000 with (0xFFFF830000000 * 4096) by lia.
    rewrite Z.div_add, Z.div_mul by lia. lia.
  - rewrite Z.add_comm. replace 0xFFFF830000000000 with (0xFFFF830000000 * 4096) by lia. by rewrite Z.mod_add by lia.
Qed.

Section map.
  Context {F : Type} `{FrameAllocatorLaws F} (T : PageTables).
  Local Abbreviation St := (Mem * F)%type.
  Implicit Types s : St.

(** What mapping registers keeps, and where it may act. *)
Record registers_kept (lo hi : Z) (s s' : St) : Prop := {
  rk_space : space_ok T KERNEL_DEVICES_START s';
  rk_coherent : coherent (root T) KERNEL_DEVICES_START s.1 → coherent (root T) KERNEL_DEVICES_START s'.1;
  rk_devices : devices_ok T s'.1;
  rk_elsewhere va : same_half KERNEL_DEVICES_START va → va < device_at lo ∨ device_at hi ≤ va →
    resolve (root T) s'.1 va = resolve (root T) s.1 va;
  rk_grows p : 0 ≤ p < DEVICE_SPAN → resolve (root T) s.1 (device_at p) ≠ None →
    resolve (root T) s'.1 (device_at p) = resolve (root T) s.1 (device_at p)
}.

Lemma space_half p s : 0 ≤ p < DEVICE_SPAN → space_ok T (device_at p) s ↔ space_ok T KERNEL_DEVICES_START s.
Proof. intros Hp. unfold space_ok. by destruct (device_va p Hp) as (_ & -> & _). Qed.

Lemma coherent_half p m : 0 ≤ p < DEVICE_SPAN → coherent (root T) (device_at p) m ↔ coherent (root T) KERNEL_DEVICES_START m.
Proof. intros Hp. unfold coherent. by destruct (device_va p Hp) as (_ & -> & _). Qed.

Lemma resolve_same_page m p : 0 ≤ p < DEVICE_SPAN →
  resolve (root T) m (device_at p) = resolve (root T) m (device_at (p - p mod 4096)).
Proof.
  intros Hp. pose proof (Z.mod_pos_bound p 4096 ltac:(lia)). pose proof (Z.div_mod p 4096 ltac:(lia)).
  assert (0 ≤ p - p mod 4096 < DEVICE_SPAN) as Hq by (pose proof (Z.div_pos p 4096 ltac:(lia) ltac:(lia)); lia).
  destruct (device_va p Hp) as (Hv & Hh & Hd & _), (device_va _ Hq) as (Hv' & Hh' & Hd' & _).
  unfold resolve. rewrite (proj2 Hv), (proj2 Hv'). f_equal. apply same_indices; [done|done|congruence|].
  rewrite Hd, Hd'. f_equal. replace (p - p mod 4096) with (p / 4096 * 4096) by lia. by rewrite Z.div_mul by lia.
Qed.

Lemma page_base o p : p mod 4096 = 0 → p ≤ o < p + 4096 → o - o mod 4096 = p.
Proof.
  intros Hal Ho. pose proof (Z.div_mod o 4096 ltac:(lia)). pose proof (Z.mod_pos_bound o 4096 ltac:(lia)).
  pose proof (Z.div_mod p 4096 ltac:(lia)). lia.
Qed.

(** One page of registers. *)
Lemma map_one p s : 0 ≤ p → p + 4096 ≤ DEVICE_SPAN → p mod 4096 = 0 →
  space_ok T KERNEL_DEVICES_START s → devices_ok T s.1 →
  ∃ r s', mapped_or_already (map_page T (Pages.containing_address (device_at p)) (Frame.containing_address p)
      (Flags.cached_as (Flags.kernel true false) Uncacheable)) s = (r, s') ∧
    registers_kept p (p + 4096) s s' ∧
    match r with
    | Ok () => ∀ o, p ≤ o < p + 4096 → resolve (root T) s'.1 (device_at o) = Some (register_page o)
    | Err e => e ≠ AlreadyMapped ∧ e ≠ OutsideKernelSpace
    | _ => False
    end.
Proof.
  intros Hp Hs Hal Hsp Hdev. destruct (device_va p ltac:(lia)) as (Hv & Hh & Hd & Hm).
  assert (page_start (Pages.containing_address (device_at p)) = device_at p) as Hpage.
  { unfold Pages.containing_address. simpl. unfold PAGE_SIZE, FRAME_SIZE. rewrite Hm, Hal. lia. }
  assert (frame_start (Frame.containing_address p) = p) as Hframe.
  { unfold Frame.containing_address. simpl. unfold FRAME_SIZE. rewrite Hal. lia. }
  destruct (map_facts T (device_at p) (Frame.containing_address p) (Flags.cached_as (Flags.kernel true false) Uncacheable) s)
    as (r & s' & E & Hk & Ha); [exact Hv|rewrite Hm; exact Hal|rewrite Hframe; split; [unfold DEVICE_SPAN in *; rewrite start_value in *; lia|exact Hal]|apply space_half; [lia|exact Hsp]|].
  assert (∀ va, same_half KERNEL_DEVICES_START va → va < device_at p ∨ device_at (p + 4096) ≤ va →
    same_half (device_at p) va ∧ va / 4096 ≠ device_at p / 4096) as Hout.
  { intros va [Hva Hhv] Hd'. split; [split; [done|by rewrite Hh]|]. intros He.
    pose proof (Z.div_mod va 4096 ltac:(lia)). pose proof (Z.mod_pos_bound va 4096 ltac:(lia)).
    pose proof (Z.div_mod (device_at p) 4096 ltac:(lia)). unfold device_at in *. lia. }
  assert (∀ o, 0 ≤ o < DEVICE_SPAN → same_half (device_at p) (device_at o)) as Hsame.
  { intros o Ho. destruct (device_va o Ho) as (? & ? & _). split; [done|congruence]. }
  assert (∀ o, 0 ≤ o < DEVICE_SPAN → device_at o / 4096 = device_at p / 4096 ↔ p ≤ o < p + 4096) as Hin.
  { intros o Ho. destruct (device_va o Ho) as (_ & _ & -> & _). rewrite Hd.
    pose proof (Z.div_mod o 4096 ltac:(lia)). pose proof (Z.mod_pos_bound o 4096 ltac:(lia)). pose proof (Z.div_mod p 4096 ltac:(lia)). lia. }
  unfold mapped_or_already. cbn [map_page kernel_mapper]. rewrite Hpage, E. destruct r as [[]|e| |]; try done.
  - destruct Ha as (_ & Hnone & Hres). exists (Ok ()), s'. split; [done|].
    assert (∀ o, p ≤ o < p + 4096 → resolve (root T) s'.1 (device_at o) = Some (register_page o)) as Hnew.
    { intros o Ho. rewrite Hres by (apply Hsame; lia). rewrite decide_True by (apply Hin; lia). rewrite Hframe.
      unfold register_page. simpl. do 2 f_equal. pose proof (Z.div_mod o 4096 ltac:(lia)). pose proof (Z.mod_pos_bound o 4096 ltac:(lia)).
      pose proof (Z.div_mod p 4096 ltac:(lia)). lia. }
    split; [|done]. split.
    + apply (space_half p); [lia|apply Hk].
    + intros Hc. apply (coherent_half p); [lia|]. apply (k_coherent _ _ _ _ _ Hk). apply (coherent_half p); [lia|done].
    + intros o Ho. destruct (decide (p ≤ o < p + 4096)); [right; auto|]. rewrite Hres by (by apply Hsame).
      rewrite decide_False by (rewrite Hin by done; done). by apply Hdev.
    + intros va Hva Hvo. destruct (Hout va Hva Hvo) as [Hsh Hne]. rewrite Hres by done. by rewrite decide_False.
    + intros o Ho Hne. rewrite Hres by (by apply Hsame). rewrite decide_False; [done|]. intros Hpg%Hin; [|done].
      apply Hne. rewrite resolve_same_page by done. by rewrite (page_base o p).
  - destruct Ha as (Hres & Houtside & Halready).
    assert (registers_kept p (p + 4096) s s') as Hkept.
    { split.
      - apply (space_half p); [lia|apply Hk].
      - intros Hc. apply (coherent_half p); [lia|]. apply (k_coherent _ _ _ _ _ Hk). apply (coherent_half p); [lia|done].
      - intros o Ho. rewrite Hres by (by apply Hsame). by apply Hdev.
      - intros va Hva Hvo. apply Hres. by apply Hout.
      - intros o Ho _. apply Hres. by apply Hsame. }
    assert (e ≠ OutsideKernelSpace) as Hin_half.
    { intros Ho%Houtside. revert Ho. cbn [f_user Flags.cached_as Flags.kernel].
      rewrite (proj2 (Z.ltb_ge _ _)); [done|]. unfold device_at, KERNEL_SPACE_BASE. rewrite start_value. lia. }
    destruct (decide (e = AlreadyMapped)) as [->|Hne].
    2:{ exists (Err e), s'. split; [by destruct e|done]. }
    exists (Ok ()), s'. split; [done|]. split; [done|]. intros o Ho. rewrite Hres by (apply Hsame; lia).
    destruct (Hdev o ltac:(lia)) as [Hno|]; [|done]. exfalso. apply (Halready eq_refl). rewrite <-Hno.
    rewrite (resolve_same_page s.1 o) by lia. by rewrite (page_base o p).
Qed.

Lemma kept_refl lo hi s : space_ok T KERNEL_DEVICES_START s → devices_ok T s.1 → registers_kept lo hi s s.
Proof. by split. Qed.

Lemma kept_trans lo mid hi s1 s2 s3 : lo ≤ mid → mid ≤ hi →
  registers_kept lo mid s1 s2 → registers_kept mid hi s2 s3 → registers_kept lo hi s1 s3.
Proof.
  intros Hl Hh [S1 C1 D1 E1 G1] [S2 C2 D2 E2 G2]. split; [done|auto|done| |].
  - intros va Hva Ho. unfold device_at in *. rewrite E2, E1 by (try done; lia). done.
  - intros p Hp Hn. rewrite G2; [auto|done|]. by rewrite G1.
Qed.

Lemma kept_wider lo hi hi' s s' : hi ≤ hi' → registers_kept lo hi s s' → registers_kept lo hi' s s'.
Proof. intros Hh [S1 C1 D1 E1 G1]. split; [done..| |done]. intros va Hva Ho. apply E1; [done|]. unfold device_at in *. lia. Qed.

(** What the loop answers. *)
Definition pages_answer (lo hi : Z) (m : Mem) (r : res MapError ()) : Prop :=
  match r with
  | Ok () => ∀ o, lo ≤ o < hi → resolve (root T) m (device_at o) = Some (register_page o)
  | Err e => e ≠ AlreadyMapped ∧ e ≠ OutsideKernelSpace
  | _ => False
  end.

(** The pages from [lo] to the one at [last]. *)
Lemma map_pages_run (fuel : nat) last lo s : 0 ≤ lo → lo mod 4096 = 0 → last mod 4096 = 0 → lo ≤ last + 4096 →
  last + 4096 ≤ DEVICE_SPAN → last + 4096 - lo < Z.of_nat fuel * 4096 →
  space_ok T KERNEL_DEVICES_START s → devices_ok T s.1 →
  ∃ r s', map_pages fuel T last lo s = (r, s') ∧ registers_kept lo (last + 4096) s s' ∧ pages_answer lo (last + 4096) s'.1 r.
Proof.
  revert lo s. induction fuel as [|fuel IH]; intros lo s Hlo Hal Hlast Hle Hspan Hfuel Hsp Hdev; [lia|]. cbn [map_pages].
  destruct (last <? lo) eqn:Hend; [apply Z.ltb_lt in Hend|apply Z.ltb_ge in Hend].
  - exists (Ok ()), s. split; [done|]. split; [by apply kept_refl|]. intros o Ho.
    pose proof (Z.div_mod lo 4096 ltac:(lia)). pose proof (Z.div_mod last 4096 ltac:(lia)). lia.
  - destruct (map_one lo s Hlo ltac:(lia) Hal Hsp Hdev) as (r & s1 & E & Hk & Ha).
    assert (checked_add 64 KERNEL_DEVICES_START lo = Some (device_at lo)) as ->.
    { unfold checked_add, device_at, DEVICE_SPAN in *. rewrite start_value in *. rewrite (proj2 (Z.ltb_lt _ _)) by lia. done. }
    rewrite dev_bind_run. cbn [expect lift]. rewrite dev_bind_run, E. destruct r as [[]|e| |]; [|exists (Err e), s1|done|done].
    2:{ split; [done|]. split; [|done]. apply (kept_wider lo (lo + 4096)); [lia|done]. }
    assert (wrap 64 (lo + PAGE_SIZE) = lo + 4096) as ->.
    { apply Z.mod_small. unfold DEVICE_SPAN, PAGE_SIZE in *. rewrite start_value in *. lia. }
    destruct (IH (lo + 4096) s1) as (r & s2 & E2 & Hk2 & Ha2); [lia| |done|lia|done|lia|apply Hk|apply Hk|].
    { replace (lo + 4096) with (lo + 1 * 4096) by lia. by rewrite Z.mod_add by lia. }
    exists r, s2. split; [done|]. split; [by apply (kept_trans lo (lo + 4096) _ s s1); [lia|lia|..]|].
    destruct r as [[]|e| |]; try done. intros o Ho. destruct (decide (o < lo + 4096)) as [Hlt|]; [|apply Ha2; lia].
    rewrite <-(Ha o ltac:(lia)). apply (rk_grows _ _ _ _ Hk2); [lia|]. by rewrite Ha by lia.
Qed.

(** Mapping a device's registers into the kernel's device region.  For
    a non-empty span of at most 4 GiB that fits the region it never panics and always
    finishes: [Ok va] is the address in the region at which the span
    starts, and every byte of the span then leads, writable for the kernel
    only, to the physical byte it is named after; pages of the span that
    were mapped before stay as they were, and nothing outside the span's pages
    changes.  An error is only a lack of frames or a table in the way, never
    [AlreadyMapped] or [OutsideKernelSpace], and keeps the same things. *)
Theorem registers_mapped start length s : 0 ≤ start → 0 < length < 2 ^ 32 → start + length ≤ DEVICE_SPAN - 4096 →
  space_ok T KERNEL_DEVICES_START s → devices_ok T s.1 →
  ∃ r s', map_registers T start length s = (r, s') ∧
    registers_kept (start - start mod 4096) (start + length + 4095 - (start + length + 4095) mod 4096) s s' ∧
    match r with
    | Ok va => va = device_at start ∧
        ∀ o, start ≤ o < start + length → resolve (root T) s'.1 (device_at o) = Some (register_page o)
    | Err e => e ≠ AlreadyMapped ∧ e ≠ OutsideKernelSpace
    | _ => False
    end.
Proof.
  intros Hs Hl Hspan Hsp Hdev.
  assert (DEVICE_SPAN < 2 ^ 64) as H64 by (unfold DEVICE_SPAN; rewrite start_value; lia).
  set (last := start + length - 1). assert (page_of (wrap 64 (wrap 64 (start + length) - 1)) = 4096 * (last / 4096)) as Elast.
  { unfold wrap. rewrite (Z.mod_small (start + length)), Z.mod_small by lia. apply land_page_mask. unfold in_width. lia. }
  assert (page_of start = 4096 * (start / 4096)) as Efirst by (apply land_page_mask; unfold in_width; lia).
  pose proof (Z.div_mod start 4096 ltac:(lia)). pose proof (Z.mod_pos_bound start 4096 ltac:(lia)).
  pose proof (Z.div_mod last 4096 ltac:(lia)). pose proof (Z.mod_pos_bound last 4096 ltac:(lia)).
  assert (start + length + 4095 - (start + length + 4095) mod 4096 = 4096 * (last / 4096) + 4096) as Ehi.
  { replace (start + length + 4095) with (last + 1 * 4096) by (unfold last; lia). rewrite Z.mod_add by lia. lia. }
  assert (start / 4096 ≤ last / 4096) by (apply Z.div_le_mono; unfold last; lia).
  assert (0 ≤ start / 4096) by (apply Z.div_pos; lia).
  unfold map_registers. rewrite Elast, Efirst, Ehi. replace (start - start mod 4096) with (4096 * (start / 4096)) by lia.
  destruct (map_pages_run (Z.to_nat REGISTER_PAGES) (4096 * (last / 4096)) (4096 * (start / 4096)) s) as (r & s' & E & Hk & Ha);
    [lia|by rewrite Z.mul_comm, Z.mod_mul|by rewrite Z.mul_comm, Z.mod_mul|lia|unfold last in *; lia| |done|done|].
  { rewrite Z2Nat.id; unfold REGISTER_PAGES, last in *; lia. }
  rewrite dev_bind_run, E. destruct r as [[]|e| |]; [|exists (Err e), s'; done|done..].
  exists (Ok (device_at start)), s'. split; [|split; [done|]].
  - unfold checked_add, device_at, DEVICE_SPAN in *. rewrite start_value in *. rewrite (proj2 (Z.ltb_lt _ _)) by lia. done.
  - split; [done|]. intros o Ho. apply Ha. unfold last in *. lia.
Qed.
End map.

(** ** A machine whose device registers straddle two pages *)
Lemma boot_no_devices : devices_ok boot_tables boot.1.
Proof.
  intros p Hp. constructor 1. destruct (device_va p Hp) as ((Hw & Hc) & _ & _). unfold resolve. rewrite Hc, table_indices_div.
  assert (Forall (λ i, has PRESENT (look boot.1 0x1000 i) = false) (seqZ 256 256)) as Hnone.
  { refine (bool_decide_unpack _ _). vm_compute. exact I. }
  rewrite Forall_forall in Hnone. cbn [access root boot_tables]. rewrite Hnone; [done|].
  apply elem_of_seqZ. unfold device_at, DEVICE_SPAN in *. rewrite start_value in *.
  pose proof (Z.div_le_mono 0xFFFF830000000000 (0xFFFF830000000000 + p) (2 ^ 39) ltac:(lia) ltac:(lia)) as Hlo.
  change (0xFFFF830000000000 / 2 ^ 39) with (65535 * 512 + 262) in Hlo.
  assert ((0xFFFF830000000000 + p) / 2 ^ 39 < 65536 * 512) as Hhi by (apply Z.div_lt_upper_bound; lia).
  rewrite (Z.mod_eq ((0xFFFF830000000000 + p) / 2 ^ 39) 512) by lia.
  assert ((0xFFFF830000000000 + p) / 2 ^ 39 / 512 = 65535) as ->; [|lia].
  symmetry. apply (Z.div_unique _ _ _ ((0xFFFF830000000000 + p) / 2 ^ 39 - 65535 * 512)); lia.
Qed.

Lemma registers_mapped_witness :
  ∃ s', map_registers boot_tables 0xFEBFFFF0 0x38 boot = (Ok (KERNEL_DEVICES_START + 0xFEBFFFF0), s') ∧
    resolve 0x1000 s'.1 (KERNEL_DEVICES_START + 0xFEBFFFF0) =
      Some {| a_base := 0xFEBFF000; a_size := 4096; a_writable := true; a_user := false; a_execute := false |} ∧
    resolve 0x1000 s'.1 (KERNEL_DEVICES_START + 0xFEC00000) =
      Some {| a_base := 0xFEC00000; a_size := 4096; a_writable := true; a_user := false; a_execute := false |}.
Proof.
  destruct (registers_mapped boot_tables 0xFEBFFFF0 0x38 boot) as (r & s' & E & _ & Ha).
  - lia.
  - lia.
  - refine (bool_decide_unpack _ _). vm_compute. exact I.
  - unfold space_ok. rewrite half_kernel by done. exact boot_sound.
  - exact boot_no_devices.
  - exists s'. assert (is_ok r = true) as Hr.
    { change r with (r, s').1. rewrite <-E. vm_compute. reflexivity. }
    destruct r as [va|e| |]; try discriminate Hr. destruct Ha as [-> Ha]. split; [exact E|].
    split; [apply (Ha 0xFEBFFFF0)|apply (Ha 0xFEC00000)]; lia.
Defined.
