(* ===== verification/VirtioQueue.v ===== *)
(** * The queue's frame: layout, and what the driver writes in it

    [in_one_frame_sound]: the three parts of a queue never overlap, are
    aligned and stay in the frame.  [chain] reads a request back out of the
    two frames the way a device does. *)

From S2P Require Import Prelude Words Bytes Pci Virtio.
Local Open Scope Z_scope.

(** ** The layout *)
Lemma power_of_two_spec n : is_power_of_two n = true ↔ ∃ k, 0 ≤ k ∧ n = 2 ^ k.
Proof.
  unfold is_power_of_two. rewrite andb_true_iff, Z.ltb_lt, Z.eqb_eq. split.
  - intros [Hn He]. exists (Z.log2 n). split; [apply Z.log2_nonneg|done].
  - intros (k & Hk & ->). split; [by apply Z.pow_pos_nonneg|]. by rewrite Z.log2_pow2.
Qed.

(** What the comments of [QueueLayout] promise. *)
Record layout_sound (l : QueueLayout) (size frame_bytes : Z) : Prop := {
  ls_size : ql_size l = size ∧ 0 < size ≤ 64;
  ls_aligned : descriptors l mod 16 = 0 ∧ available l mod 2 = 0 ∧ used l mod 4 = 0;
  ls_descriptor i : 0 ≤ i →
    match Layout.descriptor l i with
    | Some o => i < size ∧ o mod 16 = 0 ∧ descriptors l ≤ o ∧ o + DESCRIPTOR_BYTES ≤ available l
    | None => size ≤ i
    end;
  ls_descriptors_apart i j oi oj : Layout.descriptor l i = Some oi → Layout.descriptor l j = Some oj →
    i < j → oi + DESCRIPTOR_BYTES ≤ oj;
  ls_available i : 0 ≤ i → available l + AVAILABLE_RING ≤ Layout.available_slot l i ∧
    Layout.available_slot l i + 2 + 2 ≤ used l ∧ Layout.available_slot l i mod 2 = 0;
  ls_used i : 0 ≤ i → used l + USED_RING ≤ Layout.used_slot l i ∧
    Layout.used_slot l i + USED_ENTRY_BYTES + 2 ≤ frame_bytes ∧ Layout.used_slot l i mod 4 = 0;
  ls_apart i j : 0 ≤ i → i < j < i + size →
    2 ≤ Z.abs (Layout.available_slot l i - Layout.available_slot l j) ∧
    USED_ENTRY_BYTES ≤ Z.abs (Layout.used_slot l i - Layout.used_slot l j);
  (** A window that wraps at 2^16 goes on where it was. *)
  ls_wrap i : Layout.available_slot l (wrap 16 i) = Layout.available_slot l i ∧
    Layout.used_slot l (wrap 16 i) = Layout.used_slot l i
}.

Lemma mod_apart i j n : 0 < n → i < j < i + n → i mod n ≠ j mod n.
Proof.
  intros Hn Hij He. assert ((j - i) mod n = 0) as Hz by (rewrite Zminus_mod, He, Z.sub_diag; by apply Z.mod_0_l; lia).
  rewrite Z.mod_small in Hz by lia. lia.
Qed.

Lemma wrap_16_mod i k : 0 ≤ k ≤ 16 → wrap 16 i mod 2 ^ k = i mod 2 ^ k.
Proof.
  intros Hk. unfold wrap. replace 16 with (k + (16 - k)) by lia. rewrite Z.pow_add_r by lia.
  rewrite Z.rem_mul_r by lia. rewrite Z.mul_comm, Z.mod_add by (pose proof (Z.pow_pos_nonneg 2 k); lia).
  apply Z.mod_mod. pose proof (Z.pow_pos_nonneg 2 k). lia.
Qed.

Lemma in_one_frame_sound size frame_bytes l :
  Layout.in_one_frame size frame_bytes = Some l → layout_sound l size frame_bytes.
Proof.
  unfold Layout.in_one_frame. destruct (Z.eqb_spec size 0) as [|H0]; [done|].
  destruct (is_power_of_two size) eqn:Ep; [|done]. apply power_of_two_spec in Ep as (k & Hk & ->).
  simpl. destruct (Z.ltb_spec AVAILABLE_AT (2 ^ k * DESCRIPTOR_BYTES)) as [|Ha]; [done|].
  destruct (Z.ltb_spec frame_bytes (USED_AT + USED_RING + USED_ENTRY_BYTES * 2 ^ k + 2)) as [|Hu]; [done|].
  intros [= <-]. pose proof (Z.pow_pos_nonneg 2 k ltac:(lia) Hk) as Hp.
  unfold AVAILABLE_AT, USED_AT, USED_RING, USED_ENTRY_BYTES, DESCRIPTOR_BYTES in *.
  assert (k ≤ 6) as Hk6 by (destruct (Z.le_gt_cases k 6); [done|]; pose proof (Z.pow_le_mono_r 2 7 k); lia).
  split; simpl; unfold Layout.descriptor, Layout.available_slot, Layout.used_slot, AVAILABLE_RING, USED_RING,
    USED_ENTRY_BYTES, DESCRIPTORS_AT, AVAILABLE_AT, USED_AT, DESCRIPTOR_BYTES; simpl.
  - lia.
  - done.
  - intros i Hi. destruct (Z.leb_spec (2 ^ k) i); [done|]. split_and!; [lia|apply Z_mod_mult|lia|lia].
  - intros i j oi oj. destruct (2 ^ k <=? i), (2 ^ k <=? j); intros; simplify_eq. lia.
  - intros i Hi. pose proof (Z.mod_pos_bound i (2 ^ k) Hp). split_and!; [lia|lia|].
    replace (1024 + 4 + i mod 2 ^ k * 2) with ((514 + i mod 2 ^ k) * 2) by lia. apply Z_mod_mult.
  - intros i Hi. pose proof (Z.mod_pos_bound i (2 ^ k) Hp). split_and!; [lia|lia|].
    replace (2048 + 4 + i mod 2 ^ k * 8) with ((513 + i mod 2 ^ k * 2) * 4) by lia. apply Z_mod_mult.
  - intros i j Hi Hj. pose proof (mod_apart i j (2 ^ k) Hp Hj). lia.
  - intros i. by rewrite wrap_16_mod by lia.
Qed.

(** ** Numbers in a frame *)
Definition bytes_at (o w : Z) (b : list Z) : list Z := take (Z.to_nat w) (drop (Z.to_nat o) b).
Definition peek (w o : Z) (b : list Z) : Z := le_decode (bytes_at o w b).
Definition poke (w o v : Z) (b : list Z) : list Z := splice b (Z.to_nat o) (le_encode (Z.to_nat w) v).

Definition frame_bytes_ok (b : list Z) : Prop := len b = 4096 ∧ bytes_ok b.

Lemma bytes_at_ext o w b b' : 0 ≤ o → 0 ≤ w → (∀ i, o ≤ Z.of_nat i < o + w → b !! i = b' !! i) → bytes_at o w b = bytes_at o w b'.
Proof.
  intros Ho Hw He. unfold bytes_at. apply list_eq. intros i. destruct (decide (i < Z.to_nat w)%nat).
  - rewrite !lookup_take_lt, !lookup_drop by done. apply He. lia.
  - by rewrite !lookup_take_ge by lia.
Qed.

Lemma bytes_at_splice_ne o w b a src : 0 ≤ o → 0 ≤ w → (a + length src ≤ length b)%nat →
  o + w ≤ Z.of_nat a ∨ Z.of_nat (a + length src) ≤ o → bytes_at o w (splice b a src) = bytes_at o w b.
Proof.
  intros Ho Hw Hl Hd. apply bytes_at_ext; [done..|]. intros i Hi. rewrite splice_lookup by done.
  by rewrite decide_False by lia.
Qed.

Lemma bytes_at_write_ne o w b o' src : 0 ≤ o → 0 ≤ w → 0 ≤ o' → o' + len src ≤ len b →
  o + w ≤ o' ∨ o' + len src ≤ o → bytes_at o w (splice b (Z.to_nat o') src) = bytes_at o w b.
Proof. intros. apply bytes_at_splice_ne; [done|done|unfold len in *; lia|unfold len in *; lia]. Qed.

Lemma bytes_at_splice_eq o w b src : 0 ≤ o → w = len src → o + w ≤ len b →
  bytes_at o w (splice b (Z.to_nat o) src) = src.
Proof.
  intros Ho -> Hl. unfold bytes_at, len in *. apply list_eq. intros i. rewrite Nat2Z.id.
  destruct (decide (i < length src)%nat).
  - rewrite lookup_take_lt, lookup_drop, splice_lookup by lia. rewrite decide_True by lia. f_equal. lia.
  - rewrite lookup_take_ge by lia. symmetry. apply lookup_ge_None. lia.
Qed.

Lemma peek_poke_ne w o w' o' v b : 0 ≤ o → 0 ≤ w → 0 ≤ o' → 0 ≤ w' → o' + w' ≤ len b →
  o + w ≤ o' ∨ o' + w' ≤ o → peek w o (poke w' o' v b) = peek w o b.
Proof.
  intros. unfold peek, poke. rewrite bytes_at_splice_ne; [done..| |]; rewrite length_le_encode; unfold len in *; lia.
Qed.

Lemma peek_poke_eq w o v b : 0 ≤ o → 0 ≤ w → o + w ≤ len b → in_width (8 * w) v → peek w o (poke w o v b) = v.
Proof.
  intros Ho Hw Hl Hv. unfold peek, poke. rewrite bytes_at_splice_eq; [|done| |done].
  - apply le_decode_encode. rewrite Z2Nat.id by done. exact Hv.
  - unfold len. rewrite length_le_encode. lia.
Qed.

Lemma frame_poke w o v b : frame_bytes_ok b → 0 ≤ o → 0 ≤ w → o + w ≤ 4096 → frame_bytes_ok (poke w o v b).
Proof.
  intros [Hl Hb] Ho Hw Hlt. unfold frame_bytes_ok, poke. rewrite len_splice.
  - split; [done|]. apply bytes_ok_splice; [done|apply le_encode_ok].
  - rewrite length_le_encode. unfold len in *. lia.
Qed.

Lemma frame_splice o src b : frame_bytes_ok b → bytes_ok src → 0 ≤ o → o + len src ≤ 4096 →
  frame_bytes_ok (splice b (Z.to_nat o) src).
Proof.
  intros [Hl Hb] Hs Ho Hlt. unfold frame_bytes_ok. rewrite len_splice; [|unfold len in *; lia].
  split; [done|by apply bytes_ok_splice].
Qed.

Lemma len_bytes_at o w b : 0 ≤ o → 0 ≤ w → o + w ≤ len b → len (bytes_at o w b) = w.
Proof. intros. unfold bytes_at, len in *. rewrite length_take, length_drop. lia. Qed.

Lemma bytes_ok_at o w b : bytes_ok b → bytes_ok (bytes_at o w b).
Proof. intros. by apply Forall_take, Forall_drop. Qed.

Lemma peek_bound w o b : bytes_ok b → 0 ≤ o → 0 ≤ w → o + w ≤ len b → in_width (8 * w) (peek w o b).
Proof.
  intros Hb Ho Hw Hl. unfold peek. pose proof (le_decode_bound (bytes_at o w b) (bytes_ok_at o w b Hb)) as H.
  by rewrite len_bytes_at in H.
Qed.

(** ** A request, as the device reads it *)
Record Asked := { as_head : Z; as_kind : Z; as_sector : Z; as_data : Z; as_status : Z }.

Definition read_descriptor (r : list Z) (i : Z) : Descriptor :=
  {| d_address := peek 8 (16 * i) r; d_length := peek 4 (16 * i + 8) r;
     d_flags := peek 2 (16 * i + 12) r; d_next := peek 2 (16 * i + 14) r |}.

(** Where in the request's frame, at physical [phys], a buffer is. *)
Definition inside (phys : Z) (d : Descriptor) : option Z :=
  let o := d_address d - phys in
  if (0 <=? o) && (o + d_length d <=? 4096) then Some o else None.

(** The chain that slot [n] of the available ring of [l] names: a header the
    device reads, the data, and a byte it writes; the data is the device's to
    write exactly when the disk is to be read. *)
Definition chain (l : QueueLayout) (phys : Z) (r q : list Z) (n : Z) : option Asked :=
  let head := peek 2 (Layout.available_slot l n) r in
  if negb (head <? ql_size l) then None
  else
    let d0 := read_descriptor r head in
    let d1 := read_descriptor r (d_next d0) in
    let d2 := read_descriptor r (d_next d1) in
    if negb ((d_flags d0 =? DESC_NEXT) && (d_next d0 <? ql_size l) && (d_length d0 =? HEADER_BYTES)) then None
    else if negb ((d_next d1 <? ql_size l) && (d_length d1 =? SECTOR_BYTES)) then None
    else if negb ((d_flags d2 =? DESC_WRITE) && (d_length d2 =? 1)) then None
    else
      header ← inside phys d0;
      data ← inside phys d1;
      status ← inside phys d2;
      let kind := peek 4 header q in
      if d_flags d1 =? (if kind =? TYPE_OUT then DESC_NEXT else Z.lor DESC_NEXT DESC_WRITE)
      then Some {| as_head := head; as_kind := kind; as_sector := peek 8 (header + 8) q; as_data := data; as_status := status |}
      else None.
