(* ===== verification/VirtioDisk.v ===== *)
(** * A disk that keeps the specification, and the driver over it

    [VirtioDisk] is what virtio promises of a block device, in terms of the
    two frames: what it may write and when, and what an answered request
    means.  It may take any number of turns over a request.  [contents] is
    what the disk holds apart from a request in flight, whose sector may be
    written already or not. *)

From S2P Require Import Prelude Words Bytes FatDisk Pci Virtio VirtioBlk VirtioQueue.
Local Open Scope Z_scope.

Definition the_layout : QueueLayout :=
  {| ql_size := QUEUE_SIZE; descriptors := DESCRIPTORS_AT; available := AVAILABLE_AT; used := USED_AT |}.

Lemma the_layout_ok : Layout.in_one_frame QUEUE_SIZE 4096 = Some the_layout.
Proof. reflexivity. Qed.

Definition available_now (r : list Z) : Z := peek 2 (available the_layout + AVAILABLE_INDEX) r.
Definition used_now (r : list Z) : Z := peek 2 (used the_layout + USED_INDEX) r.

Lemma available_now_eq r : available_now r = peek 2 0x402 r.
Proof. done. Qed.
Lemma used_now_eq r : used_now r = peek 2 0x802 r.
Proof. done. Qed.

(** What a device serving [a] leaves alone. *)
Record keeps (a : Asked) (r q r' q' : list Z) : Prop := {
  keep_frames : frame_bytes_ok r' ∧ frame_bytes_ok q';
  keep_ring o w : 0 ≤ o → 0 ≤ w → o + w ≤ USED_AT → bytes_at o w r' = bytes_at o w r;
  keep_req o w : 0 ≤ o → 0 ≤ w → o + w ≤ 4096 →
    o + w ≤ as_status a ∨ as_status a < o →
    as_kind a = TYPE_OUT ∨ o + w ≤ as_data a ∨ as_data a + SECTOR_BYTES ≤ o →
    bytes_at o w q' = bytes_at o w q
}.

(** The disk as it was, or with what a write that failed has left. *)
Definition applied (a : Asked) (q : list Z) (c c' : content) : Prop :=
  c' = c ∨ as_kind a = TYPE_OUT ∧ c' = <[as_sector a := bytes_at (as_data a) SECTOR_BYTES q]> c.

(** What an answer says, by the status byte: a read puts the sector in the
    buffer, a write the buffer in the sector. *)
Definition meant (a : Asked) (q q' : list Z) (c c' : content) (written : Z) : Prop :=
  let status := peek 1 (as_status a) q' in
  if decide (status = STATUS_OK) then
    if decide (as_kind a = TYPE_OUT)
    then c' = <[as_sector a := bytes_at (as_data a) SECTOR_BYTES q]> c ∧ written = 1
    else c' = c ∧ bytes_at (as_data a) SECTOR_BYTES q' = c (as_sector a) ∧ written = SECTOR_BYTES + 1
  else applied a q c c'.

Class VirtioDisk (D : Type) `{Device D} (phys bell : Z) := {
  contents : D → content;
  served : D → Z;
  served_law d : in_width 16 (served d);
  bell_law v d : contents (mmio_write 2 bell v d) = contents d ∧ served (mmio_write 2 bell v d) = served d;
  idle_law r q d : frame_bytes_ok r → frame_bytes_ok q → available_now r = served d →
    ∃ d', turn r q d = (r, q, d') ∧ contents d' = contents d ∧ served d' = served d;
  busy_law r q d a : frame_bytes_ok r → frame_bytes_ok q →
    available_now r = wrap 16 (served d + 1) → used_now r = served d →
    chain the_layout phys r q (served d) = Some a → as_kind a = TYPE_IN ∨ as_kind a = TYPE_OUT →
    as_status a < as_data a ∨ as_data a + SECTOR_BYTES ≤ as_status a →
    ∃ r' q' d', turn r q d = (r', q', d') ∧ keeps a r q r' q' ∧
      ((served d' = served d ∧ used_now r' = used_now r ∧ contents d' = contents d) ∨
       (served d' = wrap 16 (served d + 1) ∧ used_now r' = served d' ∧
        let slot := Layout.used_slot the_layout (served d) in
        peek 4 slot r' = as_head a ∧ meant a q q' (contents d) (contents d') (peek 4 (slot + 4) r')))
}.

Section driver.
  Context {D : Type} `{HD : Device D} (phys bell : Z) `{!VirtioDisk D phys bell}.
  Implicit Types m : Dma D.

(** Nothing in flight: the frames are [R] and [Q], the disk holds [c], and
    [n] requests have come and gone. *)
Record at_rest (c : content) (n : Z) (R Q : list Z) m : Prop := {
  ar_ring : ring m = R;
  ar_req : req m = Q;
  ar_contents : contents (device_ m) = c;
  ar_served : served (device_ m) = n;
  ar_frames : frame_bytes_ok R ∧ frame_bytes_ok Q;
  ar_available : available_now R = n;
  ar_used : used_now R = n
}.

Lemma rest_turn c n R Q m : at_rest c n R Q m → at_rest c n R Q (device_turn m).
Proof.
  intros []. unfold device_turn. subst. destruct (idle_law (ring m) (req m) (device_ m)) as (d' & -> & Hc & Hs);
    [apply ar_frames0|apply ar_frames0|done|]. split; simpl; done.
Qed.

Lemma rest_read_ring {X} c n R Q m w o : at_rest c n R Q m → 0 ≤ o → 0 ≤ w → o + w ≤ 4096 →
  ∃ m', read_ring (X:=X) w o m = (Ok (peek w o R), m') ∧ at_rest c n R Q m'.
Proof.
  intros H Ho Hw Hl. apply rest_turn in H. exists (device_turn m). split; [|done]. unfold read_ring.
  destruct H as [-> _ _ _ [[HR _] _] _ _]. rewrite slice_Some by lia. unfold peek, bytes_at.
  by replace (o + w - o) with w by lia.
Qed.

Lemma rest_write_ring {X} c n R Q m w o v : at_rest c n R Q m → 0 ≤ o → 0 ≤ w → o + w ≤ 4096 →
  o + w ≤ 0x402 ∨ 0x404 ≤ o → o + w ≤ 0x802 ∨ 0x804 ≤ o →
  ∃ m', write_ring (X:=X) w o v m = (Ok (), m') ∧ at_rest c n (poke w o v R) Q m'.
Proof.
  intros H Ho Hw Hl Ha Hu. apply rest_turn in H. unfold write_ring. destruct H as [<- Hq Hc Hs [HR HQ] Hav Hus].
  rewrite copy_at_Some; [|done| |destruct HR; lia]; [|unfold len; rewrite length_le_encode; lia].
  eexists. split; [done|]. split; simpl; try done.
  - split; [by apply frame_poke|done].
  - rewrite available_now_eq in *. rewrite peek_poke_ne; (done || destruct HR; lia).
  - rewrite used_now_eq in *. rewrite peek_poke_ne; (done || destruct HR; lia).
Qed.

Lemma rest_write_req {X} c n R Q m o b : at_rest c n R Q m → 0 ≤ o → o + len b ≤ 4096 → bytes_ok b →
  ∃ m', write_req (X:=X) o b m = (Ok (), m') ∧ at_rest c n R (splice Q (Z.to_nat o) b) m'.
Proof.
  intros H Ho Hl Hb. apply rest_turn in H. unfold write_req. destruct H as [Hr <- Hc Hs [HR HQ] Hav Hus].
  rewrite copy_at_Some; [|done|done|destruct HQ; lia].
  eexists. split; [done|]. split; simpl; try done. split; [done|by apply frame_splice].
Qed.

Lemma rest_read_req {X} c n R Q m w o : at_rest c n R Q m → 0 ≤ o → 0 ≤ w → o + w ≤ 4096 →
  ∃ m', read_req (X:=X) w o m = (Ok (bytes_at o w Q), m') ∧ at_rest c n R Q m'.
Proof.
  intros H Ho Hw Hl. apply rest_turn in H. exists (device_turn m). split; [|done]. unfold read_req.
  destruct H as [_ -> _ _ [_ [HQ _]] _ _]. rewrite slice_Some by lia. unfold bytes_at.
  by replace (o + w - o) with w by lia.
Qed.

(** ** What is put in the frames *)
Lemma request_header_bytes kind sector : bytes_ok (block_header kind sector) ∧ len (block_header kind sector) = 16.
Proof.
  split; [|unfold len, block_header; rewrite !length_app, !length_le_encode; done].
  apply Forall_app; split; [apply le_encode_ok|]. apply Forall_app; split; [|apply le_encode_ok].
  repeat constructor; lia.
Qed.

Lemma header_peek kind sector Q : in_width 32 kind → in_width 64 sector → bytes_at 0 16 Q = block_header kind sector →
  peek 4 0 Q = kind ∧ peek 8 8 Q = sector.
Proof.
  intros Hk Hs He.
  assert (∀ o w, 0 ≤ o → 0 ≤ w → o + w ≤ 16 → bytes_at o w Q = bytes_at o w (block_header kind sector)) as Hsub.
  { intros o w Ho Hw Hl. rewrite <-He. apply bytes_at_ext; [done..|]. intros i Hi. unfold bytes_at.
    rewrite lookup_take_lt by lia. by rewrite lookup_drop. }
  unfold peek. rewrite !Hsub by lia. unfold bytes_at, block_header. split.
  - change (drop (Z.to_nat 0) (le_encode 4 kind ++ [0; 0; 0; 0] ++ le_encode 8 sector)) with (le_encode 4 kind ++ [0; 0; 0; 0] ++ le_encode 8 sector).
    rewrite take_app_le by (rewrite length_le_encode; done). rewrite take_ge by (rewrite length_le_encode; done).
    by apply le_decode_encode.
  - rewrite app_assoc, drop_app_ge by (rewrite length_app, length_le_encode; simpl; lia).
    rewrite length_app, length_le_encode. change (Z.to_nat 8 - (4 + length [0; 0; 0; 0]))%nat with 0%nat.
    rewrite drop_0, take_ge by (rewrite length_le_encode; done). by apply le_decode_encode.
Qed.

Definition fill_ok (fill : option (list Z)) : Prop := ∀ b, fill = Some b → len b = 512 ∧ bytes_ok b.

Lemma prepare_run c n R Q m kind sector fill :
  at_rest c n R Q m → in_width 32 kind → in_width 64 sector → fill_ok fill →
  ∃ Q' m', prepare kind sector fill m = (Ok (), m') ∧ at_rest c n R Q' m' ∧
    peek 4 0 Q' = kind ∧ peek 8 8 Q' = sector ∧ ∀ b, fill = Some b → bytes_at DATA_AT SECTOR_BYTES Q' = b.
Proof.
  intros H Hk Hs Hfill. destruct (request_header_bytes kind sector) as [Hhb Hhl]. unfold prepare.
  destruct (rest_write_req (X:=ReadError) _ _ _ _ _ HEADER_AT (block_header kind sector) H) as (m1 & E1 & H1); [done|rewrite Hhl; done|done|].
  rewrite (dev_bind_Ok _ _ _ _ _ E1).
  destruct (rest_write_req (X:=ReadError) _ _ _ _ _ STATUS_AT [0xFF] H1) as (m2 & E2 & H2); [done|done|repeat constructor; lia|].
  rewrite (dev_bind_Ok _ _ _ _ _ E2).
  assert (len Q = 4096) as HQ by apply H. pose proof (ar_frames _ _ _ _ _ H1) as [_ [HQ1 _]].
  pose proof (ar_frames _ _ _ _ _ H2) as [_ [HQ2 _]].
  set (Q1 := splice Q (Z.to_nat HEADER_AT) (block_header kind sector)) in *. set (Q2 := splice Q1 (Z.to_nat STATUS_AT) [0xFF]) in *.
  assert (bytes_at 0 16 Q1 = block_header kind sector) as Hh1.
  { apply (bytes_at_splice_eq 0); [done|done|]. rewrite HQ. done. }
  assert (bytes_at 0 16 Q2 = block_header kind sector) as Hh2.
  { unfold Q2. rewrite bytes_at_write_ne; [done|done|done|done|rewrite HQ1; done|left; done]. }
  destruct fill as [b|].
  - destruct (Hfill b eq_refl) as [Hbl Hbo].
    destruct (rest_write_req (X:=ReadError) _ _ _ _ _ DATA_AT b H2) as (m3 & E3 & H3); [done|rewrite Hbl; done|done|].
    exists (splice Q2 (Z.to_nat DATA_AT) b), m3. split; [done|]. split; [done|].
    enough (peek 4 0 (splice Q2 (Z.to_nat DATA_AT) b) = kind ∧ peek 8 8 (splice Q2 (Z.to_nat DATA_AT) b) = sector) as [? ?].
    { split_and!; [done|done|]. intros ? [= <-]. apply (bytes_at_splice_eq DATA_AT); [done|by rewrite Hbl|by rewrite HQ2]. }
    apply header_peek; [done..|]. rewrite bytes_at_write_ne; [done|done|done|done|rewrite HQ2, Hbl; done|left; done].
  - exists Q2, m2. split; [done|]. split; [done|].
    destruct (header_peek kind sector Q2 Hk Hs Hh2). done.
Qed.

(** The three descriptors and the ring's slot. *)
Record offered (kind sector n : Z) (r q : list Z) : Prop := {
  of_slot : peek 2 (Layout.available_slot the_layout n) r = HEAD;
  of_head : read_descriptor r HEAD =
    {| d_address := phys + HEADER_AT; d_length := HEADER_BYTES; d_flags := DESC_NEXT; d_next := DATA |};
  of_data : read_descriptor r DATA =
    {| d_address := phys + DATA_AT; d_length := SECTOR_BYTES;
       d_flags := if kind =? TYPE_OUT then DESC_NEXT else Z.lor DESC_NEXT DESC_WRITE; d_next := STATUS |};
  of_status : read_descriptor r STATUS =
    {| d_address := phys + STATUS_AT; d_length := 1; d_flags := DESC_WRITE; d_next := 0 |};
  of_kind : peek 4 HEADER_AT q = kind;
  of_sector : peek 8 (HEADER_AT + 8) q = sector
}.

Definition asked (kind sector : Z) : Asked :=
  {| as_head := HEAD; as_kind := kind; as_sector := sector; as_data := DATA_AT; as_status := STATUS_AT |}.

Lemma inside_at o n f x : 0 ≤ o → o + n ≤ 4096 →
  inside phys {| d_address := phys + o; d_length := n; d_flags := f; d_next := x |} = Some o.
Proof.
  intros Ho Hn. unfold inside. cbn [d_address d_length]. rewrite Z.add_simpl_l.
  by rewrite (proj2 (Z.leb_le 0 o)), (proj2 (Z.leb_le (o + n) 4096)).
Qed.

Lemma offered_chain kind sector n r q : offered kind sector n r q → chain the_layout phys r q n = Some (asked kind sector).
Proof.
  intros [Hs H0 H1 H2 Hk Hse]. unfold chain. cbv zeta. rewrite Hs, H0. cbn [d_next d_flags d_length d_address].
  rewrite H1. cbn [d_next d_flags d_length d_address]. rewrite H2. cbn [d_next d_flags d_length d_address].
  rewrite !inside_at by done. cbn [mbind option_bind]. rewrite Hk, Hse. by destruct (kind =? TYPE_OUT).
Qed.

Lemma peek_keeps a r q r' q' o w : keeps a r q r' q' → 0 ≤ o → 0 ≤ w → o + w ≤ USED_AT → peek w o r' = peek w o r.
Proof. intros Hk Ho Hw Hl. unfold peek. by rewrite (keep_ring _ _ _ _ _ Hk). Qed.

Lemma slot_range n : 0x404 ≤ Layout.available_slot the_layout n ∧ Layout.available_slot the_layout n + 2 ≤ 0x40C.
Proof.
  unfold Layout.available_slot, the_layout, AVAILABLE_AT, AVAILABLE_RING, QUEUE_SIZE. cbn [available ql_size].
  pose proof (Z.mod_pos_bound n 4). lia.
Qed.

Lemma used_slot_range n : 0x804 ≤ Layout.used_slot the_layout n ∧ Layout.used_slot the_layout n + 8 ≤ 0x824.
Proof.
  unfold Layout.used_slot, the_layout, USED_AT, USED_RING, USED_ENTRY_BYTES, QUEUE_SIZE. cbn [used ql_size].
  pose proof (Z.mod_pos_bound n 4). lia.
Qed.

Lemma offered_keeps kind sector n r q r' q' :
  offered kind sector n r q → keeps (asked kind sector) r q r' q' → offered kind sector n r' q'.
Proof.
  intros [Hs H0 H1 H2 Hk Hse] Hkeep. pose proof (slot_range n).
  assert (∀ i, 0 ≤ i < 4 → read_descriptor r' i = read_descriptor r i) as Hd.
  { intros i Hi. unfold read_descriptor. rewrite !(peek_keeps _ _ _ _ _ _ _ Hkeep) by (unfold USED_AT; lia). done. }
  assert (∀ o w, 0 ≤ o → 0 ≤ w → o + w ≤ 16 → peek w o q' = peek w o q) as Hq.
  { intros o w Ho Hw Hl. unfold peek.
    rewrite (keep_req _ _ _ _ _ Hkeep); [done|done|done|lia|left; simpl; unfold STATUS_AT; lia|].
    right. left. simpl. unfold DATA_AT. lia. }
  split; [|by rewrite Hd|by rewrite Hd|by rewrite Hd|by rewrite Hq|by rewrite Hq].
  by rewrite (peek_keeps _ _ _ _ _ _ _ Hkeep) by (unfold USED_AT; lia).
Qed.

Definition poke_descriptor (i : Z) (d : Descriptor) (r : list Z) : list Z :=
  poke 2 (16 * i + 14) (d_next d) (poke 2 (16 * i + 12) (d_flags d)
    (poke 4 (16 * i + 8) (d_length d) (poke 8 (16 * i) (d_address d) r))).

Definition descriptor_ok (d : Descriptor) : Prop :=
  in_width 64 (d_address d) ∧ in_width 32 (d_length d) ∧ in_width 16 (d_flags d) ∧ in_width 16 (d_next d).

Lemma len_poke w o v b : 0 ≤ o → 0 ≤ w → o + w ≤ len b → len (poke w o v b) = len b.
Proof. intros. unfold poke. apply len_splice. rewrite length_le_encode. unfold len in *. lia. Qed.

Ltac frame_length :=
  lazymatch goal with
  | |- context [len (poke ?w ?o ?v ?b)] => rewrite (len_poke w o v b); [frame_length|lia|lia|frame_length]
  | _ => lia
  end.

Lemma len_poke_descriptor i d r : 0 ≤ i < 4 → len r = 4096 → len (poke_descriptor i d r) = 4096.
Proof. intros Hi Hr. unfold poke_descriptor. frame_length. Qed.

Lemma read_poke_descriptor i d r : 0 ≤ i < 4 → len r = 4096 → descriptor_ok d →
  read_descriptor (poke_descriptor i d r) i = d.
Proof.
  intros Hi Hr (Ha & Hl & Hf & Hn). unfold read_descriptor, poke_descriptor. destruct d as [a l f x]. simpl in *.
  f_equal; repeat (rewrite peek_poke_ne by frame_length);
    (apply peek_poke_eq; [lia|lia|frame_length|done]).
Qed.

Lemma read_poke_descriptor_ne i j d r : 0 ≤ i < 4 → 0 ≤ j < 4 → i ≠ j → len r = 4096 →
  read_descriptor (poke_descriptor i d r) j = read_descriptor r j.
Proof.
  intros Hi Hj Hne Hr. unfold read_descriptor, poke_descriptor.
  f_equal; repeat (rewrite peek_poke_ne by frame_length); done.
Qed.

Lemma read_poke_ne w o v r j : 0 ≤ j < 4 → 64 ≤ o → 0 ≤ w → o + w ≤ len r →
  read_descriptor (poke w o v r) j = read_descriptor r j.
Proof. intros Hj Ho Hw Hr. unfold read_descriptor. rewrite !peek_poke_ne by lia. done. Qed.

Lemma set_descriptor_run c n R Q m i d : at_rest c n R Q m → 0 ≤ i < 4 →
  ∃ m', set_descriptor (X:=ReadError) the_layout i d m = (Ok true, m') ∧ at_rest c n (poke_descriptor i d R) Q m'.
Proof.
  intros H Hi. unfold set_descriptor, Layout.descriptor, the_layout. cbn [ql_size descriptors]. unfold QUEUE_SIZE.
  rewrite (proj2 (Z.leb_gt 4 i)) by lia. unfold DESCRIPTORS_AT, DESCRIPTOR_BYTES. replace (0 + i * 16) with (16 * i) by lia.
  destruct (rest_write_ring (X:=ReadError) _ _ _ _ _ 8 (16 * i) (d_address d) H) as (m1 & E1 & H1); [lia..|].
  rewrite (dev_bind_Ok _ _ _ _ _ E1).
  destruct (rest_write_ring (X:=ReadError) _ _ _ _ _ 4 (16 * i + 8) (d_length d) H1) as (m2 & E2 & H2); [lia..|].
  rewrite (dev_bind_Ok _ _ _ _ _ E2).
  destruct (rest_write_ring (X:=ReadError) _ _ _ _ _ 2 (16 * i + 12) (d_flags d) H2) as (m3 & E3 & H3); [lia..|].
  rewrite (dev_bind_Ok _ _ _ _ _ E3).
  destruct (rest_write_ring (X:=ReadError) _ _ _ _ _ 2 (16 * i + 14) (d_next d) H3) as (m4 & E4 & H4); [lia..|].
  rewrite (dev_bind_Ok _ _ _ _ _ E4). by exists m4.
Qed.

(** A request in flight, of a disk that held [c]; [b] is what it is to
    write. *)
Record pending (c : content) (n kind sector : Z) (b : list Z) m : Prop := {
  pd_frames : frame_bytes_ok (ring m) ∧ frame_bytes_ok (req m);
  pd_available : available_now (ring m) = wrap 16 (n + 1);
  pd_used : used_now (ring m) = n;
  pd_served : served (device_ m) = n;
  pd_offered : offered kind sector n (ring m) (req m);
  pd_data : kind = TYPE_OUT → bytes_at DATA_AT SECTOR_BYTES (req m) = b;
  pd_contents : contents (device_ m) = c
}.

Definition phys_ok : Prop := 0 ≤ phys ∧ phys + 4096 ≤ 2 ^ 64.

Lemma offer_run rd c n R Q m kind sector b :
  phys_ok → rd_layout rd = the_layout → rd_request_phys rd = phys →
  at_rest c n R Q m → peek 4 0 Q = kind → peek 8 8 Q = sector →
  (kind = TYPE_OUT → bytes_at DATA_AT SECTOR_BYTES Q = b) →
  ∃ m', offer rd kind m = (Ok (wrap 16 (n + 1)), m') ∧ pending c n kind sector b m'.
Proof.
  intros [Hp0 Hp1] Hlay Hph H Hk Hs Hb. unfold offer. rewrite Hlay, Hph.
  assert (∀ o, 0 ≤ o < 4096 → wrap 64 (phys + o) = phys + o) as Hwrap by (intros; apply Z.mod_small; lia).
  rewrite !Hwrap by done. set (flags := if kind =? TYPE_OUT then DESC_NEXT else Z.lor DESC_NEXT DESC_WRITE).
  assert (in_width 16 flags) as Hflags by (unfold flags; by destruct (kind =? TYPE_OUT)).
  assert (∀ o l f x, 0 ≤ o < 4096 → in_width 32 l → in_width 16 f → in_width 16 x →
    descriptor_ok {| d_address := phys + o; d_length := l; d_flags := f; d_next := x |}) as Hdok.
  { intros. split_and!; simpl; try done. unfold in_width. lia. }
  match goal with |- context [set_descriptor _ HEAD ?d] =>
    destruct (set_descriptor_run _ _ _ _ _ HEAD d H) as (m1 & E1 & H1); [done|] end. rewrite (dev_bind_Ok _ _ _ _ _ E1).
  match goal with |- context [set_descriptor _ DATA ?d] =>
    destruct (set_descriptor_run _ _ _ _ _ DATA d H1) as (m2 & E2 & H2); [done|] end. rewrite (dev_bind_Ok _ _ _ _ _ E2).
  match goal with |- context [set_descriptor _ STATUS ?d] =>
    destruct (set_descriptor_run _ _ _ _ _ STATUS d H2) as (m3 & E3 & H3); [done|] end. rewrite (dev_bind_Ok _ _ _ _ _ E3).
  clear E1 E2 E3 m1 m2 H1 H2. pose proof (ar_frames _ _ _ _ _ H) as [[HR _] _].
  match type of H3 with at_rest _ _ ?r _ _ => set (R3 := r) in * end.
  assert (read_descriptor R3 HEAD = {| d_address := phys + HEADER_AT; d_length := HEADER_BYTES; d_flags := DESC_NEXT; d_next := DATA |} ∧
    read_descriptor R3 DATA = {| d_address := phys + DATA_AT; d_length := SECTOR_BYTES; d_flags := flags; d_next := STATUS |} ∧
    read_descriptor R3 STATUS = {| d_address := phys + STATUS_AT; d_length := 1; d_flags := DESC_WRITE; d_next := 0 |}) as (D0 & D1 & D2).
  { unfold R3. split_and!.
    - rewrite !read_poke_descriptor_ne by (done || by repeat (rewrite len_poke_descriptor; [|done|])).
      by apply read_poke_descriptor, Hdok.
    - rewrite read_poke_descriptor_ne by (done || by repeat (rewrite len_poke_descriptor; [|done|])).
      by apply read_poke_descriptor, Hdok; [|rewrite len_poke_descriptor|..].
    - by apply read_poke_descriptor, Hdok; [|repeat (rewrite len_poke_descriptor; [|done|])|..]. }
  pose proof (ar_frames _ _ _ _ _ H3) as [[HR3 _] _]. pose proof (ar_available _ _ _ _ _ H3) as Hav.
  pose proof (slot_range n) as Hslot. unfold publish.
  destruct (rest_read_ring (X:=ReadError) _ _ _ _ _ 2 0x402 H3) as (m4 & E4 & H4); [lia..|].
  change (available the_layout + AVAILABLE_INDEX) with 0x402. rewrite (dev_bind_Ok _ _ _ _ _ E4).
  rewrite available_now_eq in Hav. rewrite Hav.
  destruct (rest_write_ring (X:=ReadError) _ _ _ _ _ 2 (Layout.available_slot the_layout n) HEAD H4) as (m5 & E5 & H5); [lia..|].
  rewrite (dev_bind_Ok _ _ _ _ _ E5). apply rest_turn in H5. rewrite dev_bind_run. unfold write_ring.
  destruct H5 as [Hr5 Hq5 Hc5 Hs5 [HR5 HQ5] Hav5 Hu5]. rewrite Hr5, copy_at_Some; [|done|done|destruct HR5; lia].
  eexists. split; [reflexivity|].
  change (splice _ (Z.to_nat 0x402) (le_encode (Z.to_nat 2) (wrap 16 (n + 1)))) with
    (poke 2 0x402 (wrap 16 (n + 1)) (poke 2 (Layout.available_slot the_layout n) HEAD R3)).
  assert (len (poke 2 (Layout.available_slot the_layout n) HEAD R3) = 4096) as HR4 by apply HR5.
  split; cbn [ring req device_]; rewrite ?Hq5.
  - split; [by apply frame_poke|done].
  - rewrite available_now_eq, peek_poke_eq; [done|done|done|rewrite HR4; done|]. apply Z.mod_pos_bound. done.
  - rewrite used_now_eq, peek_poke_ne by (rewrite ?HR4; lia). by rewrite used_now_eq in Hu5.
  - done.
  - split; [|rewrite !read_poke_ne by (done || lia); done..|done|done].
    rewrite peek_poke_ne by (rewrite ?HR4; lia). apply peek_poke_eq; [lia|done|lia|done].
  - done.
  - done.
Qed.

(** A request answered. *)
Record answered (c : content) (n kind sector : Z) (b : list Z) m : Prop := {
  an_frames : frame_bytes_ok (ring m) ∧ frame_bytes_ok (req m);
  an_available : available_now (ring m) = wrap 16 (n + 1);
  an_used : used_now (ring m) = wrap 16 (n + 1);
  an_served : served (device_ m) = wrap 16 (n + 1);
  an_head : peek 4 (Layout.used_slot the_layout n) (ring m) = HEAD;
  an_meant :
    let written := peek 4 (Layout.used_slot the_layout n + 4) (ring m) in
    if decide (peek 1 STATUS_AT (req m) = STATUS_OK) then
      if decide (kind = TYPE_OUT)
      then contents (device_ m) = <[sector := b]> c ∧ written = 1
      else contents (device_ m) = c ∧ bytes_at DATA_AT SECTOR_BYTES (req m) = c sector ∧ written = SECTOR_BYTES + 1
    else contents (device_ m) = c ∨ kind = TYPE_OUT ∧ contents (device_ m) = <[sector := b]> c
}.

Lemma answered_rest c n kind sector b m : answered c n kind sector b m →
  at_rest (contents (device_ m)) (wrap 16 (n + 1)) (ring m) (req m) m.
Proof. intros []. by split. Qed.

Lemma keeps_available a r q r' q' : keeps a r q r' q' → available_now r' = available_now r.
Proof. intros H. rewrite !available_now_eq. by eapply peek_keeps. Qed.

Lemma pending_turn c n kind sector b m : kind = TYPE_IN ∨ kind = TYPE_OUT → pending c n kind sector b m →
  pending c n kind sector b (device_turn m) ∨ answered c n kind sector b (device_turn m).
Proof.
  intros Hkind [[HR HQ] Hav Hus Hse Hof Hda Hco].
  destruct (busy_law (ring m) (req m) (device_ m) (asked kind sector)) as (r' & q' & d' & Et & Hkeep & Hcase);
    [done|done|by rewrite Hav, Hse|by rewrite Hus, Hse|rewrite Hse; by apply offered_chain|done|by right|].
  unfold device_turn. rewrite Et. destruct Hcase as [(Hs' & Hu' & Hc')|(Hs' & Hu' & Hh' & Hm')].
  - left. split; simpl.
    + apply Hkeep.
    + by rewrite (keeps_available _ _ _ _ _ Hkeep).
    + by rewrite Hu'.
    + by rewrite Hs'.
    + by eapply offered_keeps.
    + intros Hk. rewrite (keep_req _ _ _ _ _ Hkeep); [by apply Hda|done|done|done| |by left].
      left. done.
    + by rewrite Hc'.
  - rewrite Hse in *. right. split; simpl.
    + apply Hkeep.
    + by rewrite (keeps_available _ _ _ _ _ Hkeep).
    + by rewrite Hu'.
    + done.
    + done.
    + unfold meant, applied in Hm'. cbn [as_status as_kind as_sector as_data asked] in Hm'. rewrite Hco in Hm'.
      destruct (decide (peek 1 STATUS_AT q' = STATUS_OK)).
      * destruct (decide (kind = TYPE_OUT)); [|done]. by rewrite Hda in Hm'.
      * destruct Hm' as [->|[Hk ->]]; [by left|right]. split; [done|]. by rewrite Hda.
Qed.

Lemma next_differs n : in_width 16 n → n ≠ wrap 16 (n + 1).
Proof.
  unfold in_width, wrap. intros Hn He. destruct (decide (n + 1 < 2 ^ 16)).
  - rewrite Z.mod_small in He by lia. lia.
  - replace (n + 1) with (2 ^ 16) in He by lia. rewrite Z_mod_same_full in He. lia.
Qed.

Lemma wait_run looks c n kind sector b m :
  kind = TYPE_IN ∨ kind = TYPE_OUT → pending c n kind sector b m →
  ∃ m', (wait looks the_layout (wrap 16 (n + 1)) m = (Ok (), m') ∧ answered c n kind sector b m') ∨
    (wait looks the_layout (wrap 16 (n + 1)) m = (Err NoAnswer, m') ∧ pending c n kind sector b m' ∧
     m' = Nat.iter looks device_turn m).
Proof.
  intros Hk. revert m. induction looks as [|looks IH]; intros m Hp.
  { exists m. right. done. }
  simpl wait. rewrite dev_bind_run. unfold used_index, read_ring.
  assert (frame_bytes_ok (ring (device_turn m)) ∧ in_width 16 n) as [[HR _] Hn].
  { split; [destruct (pending_turn _ _ _ _ _ _ Hk Hp) as [[? _ _ _ _ _ _]|[? _ _ _ _ _]]; naive_solver|].
    rewrite <-(pd_served _ _ _ _ _ _ Hp). apply served_law. }
  rewrite slice_Some by (rewrite ?HR; done).
  change (le_decode _) with (used_now (ring (device_turn m))).
  destruct (pending_turn _ _ _ _ _ _ Hk Hp) as [Hp'|Ha].
  - rewrite (pd_used _ _ _ _ _ _ Hp'). rewrite (proj2 (Z.eqb_neq _ _) (next_differs n Hn)).
    destruct (IH _ Hp') as (m' & [[-> H]|(-> & H & ->)]); [eexists; by left|]. eexists. right. split; [done|]. split; [done|].
    by rewrite <-Nat.iter_succ_r.
  - rewrite (an_used _ _ _ _ _ _ Ha), Z.eqb_refl. eexists. by left.
Qed.

Lemma conclude_run rd c n kind sector b m :
  rd_layout rd = the_layout → in_width 16 n → kind = TYPE_IN ∨ kind = TYPE_OUT → answered c n kind sector b m →
  ∃ res m', conclude rd kind (wrap 16 (n + 1)) m = (res, m') ∧
    at_rest (contents (device_ m)) (wrap 16 (n + 1)) (ring m) (req m) m' ∧
    res = if decide (peek 1 STATUS_AT (req m) = STATUS_OK) then Ok () else Err (Failed (peek 1 STATUS_AT (req m))).
Proof.
  intros Hlay Hn Hkind Ha. pose proof (answered_rest _ _ _ _ _ _ Ha) as H. unfold conclude, completion. rewrite Hlay.
  replace (wrap 16 (wrap 16 (n + 1) - 1)) with n.
  2: { unfold wrap. rewrite Zminus_mod_idemp_l. rewrite Z.add_simpl_r. symmetry. by apply Z.mod_small. }
  pose proof (used_slot_range n).
  destruct (rest_read_ring (X:=ReadError) _ _ _ _ _ 4 (Layout.used_slot the_layout n) H) as (m1 & E1 & H1); [lia..|].
  destruct (rest_read_ring (X:=ReadError) _ _ _ _ _ 4 (Layout.used_slot the_layout n + 4) H1) as (m2 & E2 & H2); [lia..|].
  rewrite dev_bind_run, (dev_bind_Ok _ _ _ _ _ E1), (dev_bind_Ok _ _ _ _ _ E2). cbn [c_head c_written mret dev_ret].
  rewrite (an_head _ _ _ _ _ _ Ha). change (negb (wrap 16 HEAD =? HEAD)) with false. cbv beta iota.
  destruct (rest_read_req (X:=ReadError) _ _ _ _ _ 1 STATUS_AT H2) as (m3 & E3 & H3); [done..|].
  rewrite (dev_bind_Ok _ _ _ _ _ E3). change (le_decode _) with (peek 1 STATUS_AT (req m)).
  pose proof (an_meant _ _ _ _ _ _ Ha) as Hm. destruct (decide (peek 1 STATUS_AT (req m) = STATUS_OK)) as [He|He].
  - rewrite (proj2 (Z.eqb_eq _ _) He). cbv beta iota. destruct (decide (kind = TYPE_OUT)) as [->|Hne].
    + destruct Hm as [_ ->]. eexists _, m3. split; [reflexivity|]. done.
    + destruct Hm as (_ & _ & ->). destruct Hkind as [->|]; [|done]. eexists _, m3. split; [reflexivity|]. done.
  - rewrite (proj2 (Z.eqb_neq _ _) He). eexists _, m3. split; [reflexivity|]. done.
Qed.

(** ** A whole request *)
Record drives (rd : Reader) (disk : FoundDisk) : Prop := {
  dr_layout : rd_layout rd = the_layout;
  dr_phys : rd_request_phys rd = phys ∧ phys_ok;
  dr_bell : n_base (rd_notify rd) + doorbell (rd_notify rd) (fd_notify_offset disk) = bell ∧ bell < 2 ^ 64
}.

Definition quiet m : Prop := at_rest (contents (device_ m)) (served (device_ m)) (ring m) (req m) m.

Lemma rest_quiet c n R Q m : at_rest c n R Q m → quiet m.
Proof. intros []. subst. by split. Qed.

(** How a request of [kind] on [sector], with [b] to write, ends: answered,
    and the disk quiet again; or given up on, with the request in flight. *)
Definition request_ends (kind sector : Z) (b : list Z) m (r : res ReadError ()) m' : Prop :=
  let c := contents (device_ m) in
  let c' := contents (device_ m') in
  match r with
  | Ok () => quiet m' ∧ (if decide (kind = TYPE_OUT) then c' = <[sector := b]> c
                         else c' = c ∧ bytes_at DATA_AT SECTOR_BYTES (req m') = c sector)
  | Err (Failed s) => quiet m' ∧ s ≠ STATUS_OK ∧ (c' = c ∨ kind = TYPE_OUT ∧ c' = <[sector := b]> c)
  | Err NoAnswer => pending c (served (device_ m)) kind sector b m' ∧
      ∃ m1, pending c (served (device_ m)) kind sector b m1 ∧ m' = Nat.iter (Z.to_nat (POLL_LIMIT + 1)) device_turn m1
  | _ => False
  end.

Lemma request_run rd disk kind sector fill b m :
  drives rd disk → quiet m → in_width 64 sector → fill_ok fill →
  (kind = TYPE_IN ∧ fill = None ∨ kind = TYPE_OUT ∧ fill = Some b) →
  ∃ r m', request rd disk kind sector fill m = (r, m') ∧ request_ends kind sector b m r m'.
Proof.
  intros [Hlay [Hph Hpo] [Hbell Hb64]] Hq Hs Hf Hkind.
  assert (in_width 32 kind ∧ (kind = TYPE_IN ∨ kind = TYPE_OUT)) as [Hk32 Hkk] by (destruct Hkind as [[-> _]|[-> _]]; split; auto; done).
  pose proof (served_law (device_ m)) as Hn.
  destruct (prepare_run _ _ _ _ _ kind sector fill Hq Hk32 Hs Hf) as (Q1 & m1 & E1 & H1 & Hk1 & Hs1 & Hf1).
  unfold request. rewrite (dev_bind_Ok _ _ _ _ _ E1).
  destruct (offer_run rd _ _ _ _ _ kind sector b Hpo Hlay Hph H1 Hk1 Hs1) as (m2 & E2 & H2).
  { intros ->. apply Hf1. by destruct Hkind as [[? _]|[_ ?]]. }
  rewrite (dev_bind_Ok _ _ _ _ _ E2).
  set (m3 := {| ring := ring m2; req := req m2; device_ := mmio_write 2 bell QUEUE (device_ m2) |}).
  assert (ring_bell rd disk m2 = (Ok (), m3)) as E3.
  { unfold ring_bell, ring_doorbell, write_register, register, checked_add. rewrite Hbell.
    rewrite (proj2 (Z.ltb_lt _ _) Hb64). done. }
  assert (pending (contents (device_ m)) (served (device_ m)) kind sector b m3) as H3.
  { destruct (bell_law QUEUE (device_ m2)) as [Hbc Hbs]. destruct H2. split; simpl; try done; by rewrite ?Hbc, ?Hbs. }
  rewrite (dev_bind_Ok _ _ _ _ _ E3). rewrite Hlay.
  destruct (wait_run (Z.to_nat (POLL_LIMIT + 1)) _ _ _ _ _ _ Hkk H3) as (m4 & [[E4 H4]|(E4 & H4 & Hiter)]).
  - rewrite (dev_bind_Ok _ _ _ _ _ E4).
    destruct (conclude_run rd _ _ _ _ _ _ Hlay Hn Hkk H4) as (res & m5 & E5 & H5 & ->).
    eexists _, m5. split; [exact E5|]. pose proof (rest_quiet _ _ _ _ _ H5) as Hq5.
    destruct H5 as [_ Hr5 Hc5 _ _ _ _]. pose proof (an_meant _ _ _ _ _ _ H4) as Hm. unfold request_ends.
    rewrite Hc5, Hr5. destruct (decide (peek 1 STATUS_AT (req m4) = STATUS_OK)); [|done]. split; [done|].
    by destruct (decide (kind = TYPE_OUT)); destruct_and! Hm.
  - exists (Err NoAnswer), m4. split; [by rewrite (dev_bind_Err _ _ _ _ _ E4)|]. split; [done|]. by exists m3.
Qed.
End driver.
