(* ===== verification/VirtioSimple.v ===== *)
(** * The file system's disk is the driver's

    [virtio_disk]: a device that keeps virtio's specification and answers
    in time, behind the driver, is a [Disk], so what is proved of volumes
    over any [Disk] holds over the driver.  [Simple] is such a device. *)

From S2P Require Import Prelude Words Bytes FatFormat FatVolume FatDisk Pci Virtio VirtioBlk VirtioQueue VirtioDisk.
Local Open Scope Z_scope.

(** ** A device that answers in time *)
Class InTime (D : Type) `{Device D} (phys bell : Z) `{!VirtioDisk D phys bell} :=
  in_time c n kind sector b (m : Dma D) : kind = TYPE_IN ∨ kind = TYPE_OUT →
    pending phys bell c n kind sector b m →
    ¬ pending phys bell c n kind sector b (Nat.iter (Z.to_nat (POLL_LIMIT + 1)) device_turn m).

Section disk.
  Context {D : Type} `{Device D} (phys bell : Z) `{!VirtioDisk D phys bell, !InTime D phys bell}.
  Context (rd : Reader) (disk : FoundDisk) (Hdrives : drives phys bell rd disk).

Definition quiet_now (m : Dma D) : Prop :=
  (frame_bytes_ok (ring m) ∧ frame_bytes_ok (req m)) ∧
  available_now (ring m) = served (device_ m) ∧ used_now (ring m) = served (device_ m).

#[export] Instance quiet_now_dec m : Decision (quiet_now m).
Proof. unfold quiet_now, frame_bytes_ok. apply _. Defined.

Lemma quiet_now_quiet m : quiet_now m ↔ quiet phys bell m.
Proof. split; [intros (? & ? & ?); by split|]. by intros []. Qed.

(** A disk with no request in flight. *)
Definition Mounted_disk : Type := { m : Dma D | quiet_now m }.

Definition between_requests {A} (op : dev (Dma D) ReadError A) : dev Mounted_disk ReadError A := λ s,
  let '(r, m) := op (`s) in
  match decide (quiet_now m) with Specif.left Hq => (r, exist _ m Hq) | Specif.right _ => (Panic, s) end.

(** A sector's number is a [u32], its bytes 512 of them. *)
#[export] Instance virtio_sectors : Sectors Mounted_disk ReadError := {
  read_sector n s :=
    if decide (in_width 32 n) then between_requests (VirtioBlk.read_sector rd disk n) s else (Err NoAnswer, s);
  write_sector n bytes s :=
    if decide (in_width 32 n ∧ len bytes = 512 ∧ bytes_ok bytes)
    then between_requests (VirtioBlk.write_sector rd disk n bytes) s else (Err NoAnswer, s)
}.

Definition disk_view (s : Mounted_disk) : content := contents (device_ (`s)).

Lemma u32_u64 n : in_width 32 n → in_width 64 n.
Proof. unfold in_width. lia. Qed.

Lemma between_run {A} (op : dev (Dma D) ReadError A) (s : Mounted_disk) r m' :
  op (`s) = (r, m') → quiet phys bell m' →
  ∃ s', between_requests op s = (r, s') ∧ disk_view s' = contents (device_ m').
Proof.
  intros E Hq%quiet_now_quiet. unfold between_requests. rewrite E.
  destruct (decide (quiet_now m')) as [Hn|Hn]; [|done]. by eexists (exist _ m' Hn).
Qed.

(** A request that is still in flight after the last look was not answered in
    time. *)
Lemma request_answered kind sector fill b m r m' :
  quiet phys bell m → in_width 64 sector → fill_ok fill →
  (kind = TYPE_IN ∧ fill = None ∨ kind = TYPE_OUT ∧ fill = Some b) →
  request rd disk kind sector fill m = (r, m') →
  quiet phys bell m' ∧
  match r with
  | Ok () => if decide (kind = TYPE_OUT) then contents (device_ m') = <[sector := b]> (contents (device_ m))
             else contents (device_ m') = contents (device_ m) ∧
                  bytes_at DATA_AT SECTOR_BYTES (req m') = contents (device_ m) sector
  | Err _ => contents (device_ m') = contents (device_ m) ∨
             kind = TYPE_OUT ∧ contents (device_ m') = <[sector := b]> (contents (device_ m))
  | _ => False
  end.
Proof.
  intros Hq Hs Hf Hk E. destruct (request_run phys bell rd disk kind sector fill b m Hdrives Hq Hs Hf Hk) as (r' & m2 & E' & He).
  rewrite E in E'. injection E' as <- <-. destruct r as [[]|e| |]; try done.
  destruct e; try done; simpl in He.
  - destruct He as (Hp & m1 & Hp1 & ->). exfalso. eapply in_time; [|exact Hp1|exact Hp].
    by destruct Hk as [[-> _]|[-> _]]; auto.
  - destruct He as (? & _ & ?). done.
Qed.

Lemma virtio_read_law n (s : Mounted_disk) : ∃ r s', FatVolume.read_sector n s = (r, s') ∧ disk_view s' = disk_view s ∧
  (r = Ok (disk_view s n) ∨ ∃ e : ReadError, r = Err e).
Proof.
  unfold FatVolume.read_sector, virtio_sectors. destruct (decide (in_width 32 n)) as [Hn|]; [|by eauto 10].
  assert (quiet phys bell (`s)) as Hq by (apply quiet_now_quiet; apply (proj2_sig s)).
  destruct (request rd disk TYPE_IN n None (`s)) as [r m1] eqn:E.
  destruct (request_answered TYPE_IN n None [] _ r m1 Hq (u32_u64 n Hn)) as [Hq1 Hr]; [done|by left|done|].
  destruct r as [[]|e| |]; try done.
  - destruct Hr as [Hc Hb]. destruct (rest_read_req (X:=ReadError) phys bell _ _ _ _ _ 512 DATA_AT Hq1) as (m2 & E2 & H2); [done..|].
    destruct (between_run (VirtioBlk.read_sector rd disk n) s (Ok (bytes_at DATA_AT 512 (req m1))) m2) as (s' & E' & Hv).
    { unfold VirtioBlk.read_sector. by rewrite (dev_bind_Ok _ _ _ _ _ E). }
    { by eapply rest_quiet. }
    eexists _, s'. split; [exact E'|]. rewrite Hv, (ar_contents _ _ _ _ _ _ _ H2). split; [exact Hc|].
    left. f_equal. exact Hb.
  - destruct (between_run (VirtioBlk.read_sector rd disk n) s (Err e) m1) as (s' & E' & Hv);
      [unfold VirtioBlk.read_sector; by rewrite (dev_bind_Err _ _ _ _ _ E)|done|].
    eexists _, s'. split; [exact E'|]. rewrite Hv. split; [by destruct Hr as [?|[? _]]|by eauto].
Qed.

Lemma virtio_write_law n bytes (s : Mounted_disk) : ∃ r s', FatVolume.write_sector n bytes s = (r, s') ∧
  ((r = Ok () ∧ disk_view s' = <[n := bytes]> (disk_view s)) ∨
   (∃ e : ReadError, r = Err e ∧ (disk_view s' = disk_view s ∨ disk_view s' = <[n := bytes]> (disk_view s)))).
Proof.
  unfold FatVolume.write_sector, virtio_sectors.
  destruct (decide (in_width 32 n ∧ len bytes = 512 ∧ bytes_ok bytes)) as [(Hn & Hl & Hb)|]; [|by eauto 10].
  assert (quiet phys bell (`s)) as Hq by (apply quiet_now_quiet; apply (proj2_sig s)).
  destruct (request rd disk TYPE_OUT n (Some bytes) (`s)) as [r m1] eqn:E.
  destruct (request_answered TYPE_OUT n (Some bytes) bytes _ r m1 Hq (u32_u64 n Hn)) as [Hq1 Hr];
    [by intros ? [= <-]|by right|done|].
  destruct (between_run (VirtioBlk.write_sector rd disk n bytes) s r m1 E Hq1) as (s' & E' & Hv).
  eexists _, s'. split; [exact E'|]. rewrite Hv. destruct r as [[]|e| |]; [by left|right|done|done].
  exists e. split; [done|]. by destruct Hr as [?|[_ ?]]; auto.
Qed.

#[export] Instance virtio_disk : Disk Mounted_disk ReadError := {
  view := disk_view;
  read_law := virtio_read_law;
  write_law := virtio_write_law
}.
End disk.

(** * Two disks

    [Simple] answers each request in the turn after it is offered: it keeps
    virtio's specification and is in time.  [Late] is slow: it answers the
    first request only when there is a second, and that one first, which the
    specification leaves to the device. *)

Definition sector_ok (b : list Z) : Prop := len b = 512 ∧ bytes_ok b.

#[export] Instance sector_ok_dec b : Decision (sector_ok b).
Proof. unfold sector_ok. apply _. Defined.

(** ** What a chain is sure to be *)
Lemma read_descriptor_ok r i : frame_bytes_ok r → 0 ≤ i → 16 * i + 16 ≤ 4096 → descriptor_ok (read_descriptor r i).
Proof.
  intros [Hl Hb] Hi Hle. unfold descriptor_ok, read_descriptor. simpl.
  split; [|split; [|split]];
    [apply (peek_bound 8)|apply (peek_bound 4)|apply (peek_bound 2)|apply (peek_bound 2)]; (done || lia).
Qed.

Lemma inside_spec phys d o : inside phys d = Some o → 0 ≤ o ∧ o + d_length d ≤ 4096.
Proof.
  unfold inside. destruct (Z.leb_spec 0 (d_address d - phys)), (Z.leb_spec (d_address d - phys + d_length d) 4096); simpl; [|done..].
  intros [= <-]. done.
Qed.

Lemma chain_inside phys r q n a : frame_bytes_ok r → chain the_layout phys r q n = Some a →
  in_width 16 (as_head a) ∧ 0 ≤ as_data a ∧ as_data a + SECTOR_BYTES ≤ 4096 ∧ 0 ≤ as_status a ∧ as_status a + 1 ≤ 4096.
Proof.
  intros [Hl Hb]. unfold chain. cbv zeta. pose proof (slot_range n) as Hs.
  assert (in_width 16 (peek 2 (Layout.available_slot the_layout n) r)) as Hh by (apply (peek_bound 2); (done || lia)).
  revert Hh. generalize (peek 2 (Layout.available_slot the_layout n) r). intros head Hh.
  generalize (read_descriptor r head). intros d0. generalize (read_descriptor r (d_next d0)). intros d1.
  generalize (read_descriptor r (d_next d1)). intros d2.
  destruct (negb (head <? ql_size the_layout)); [discriminate|].
  destruct (negb ((d_flags d0 =? DESC_NEXT) && (d_next d0 <? ql_size the_layout) && (d_length d0 =? HEADER_BYTES))); [discriminate|].
  destruct (negb ((d_next d1 <? ql_size the_layout) && (d_length d1 =? SECTOR_BYTES))) eqn:E1; [discriminate|].
  destruct (negb ((d_flags d2 =? DESC_WRITE) && (d_length d2 =? 1))) eqn:E2; [discriminate|].
  apply negb_false_iff, andb_prop in E1 as [_ E1%Z.eqb_eq]. apply negb_false_iff, andb_prop in E2 as [_ E2%Z.eqb_eq].
  intros (h & _ & Hc)%bind_Some. apply bind_Some in Hc as (data & Hd%inside_spec & Hc).
  apply bind_Some in Hc as (st & Hst%inside_spec & Hc). rewrite E1 in Hd. rewrite E2 in Hst.
  match type of Hc with (if ?b then _ else _) = _ => destruct b; [|discriminate] end.
  injection Hc as <-. cbn [as_head as_data as_status]. tauto.
Qed.

(** ** A disk that answers at once *)
Record Simple := {
  s_contents : content;
  s_served : Z;
  s_good : (∀ n, sector_ok (s_contents n)) ∧ in_width 16 s_served
}.

Lemma served_next n : in_width 16 (wrap 16 (n + 1)).
Proof. apply Z.mod_pos_bound. done. Qed.

Definition serve (d : Simple) : Simple :=
  {| s_contents := s_contents d; s_served := wrap 16 (s_served d + 1); s_good := conj (proj1 (s_good d)) (served_next _) |}.

Lemma insert_sector_ok (c : content) n b : (∀ k, sector_ok (c k)) → sector_ok b → ∀ k, sector_ok ((<[n := b]> c) k).
Proof. intros Hc Hb k. destruct (decide (k = n)) as [->|Hne]; [by rewrite fn_lookup_insert|by rewrite fn_lookup_insert_ne]. Qed.

Definition store (d : Simple) (n : Z) (b : list Z) : Simple :=
  match decide (sector_ok b) with
  | Specif.left Hb =>
      {| s_contents := <[n := b]> (s_contents d); s_served := s_served d;
         s_good := conj (insert_sector_ok _ n b (proj1 (s_good d)) Hb) (proj2 (s_good d)) |}
  | Specif.right _ => d
  end.

(** The entry of the used ring, and the index that shows it. *)
Definition report (r : list Z) (n head written : Z) : list Z :=
  let slot := Layout.used_slot the_layout n in
  poke 2 0x802 (wrap 16 (n + 1)) (poke 4 (slot + 4) written (poke 4 slot head r)).

Definition carry_out (r q : list Z) (d : Simple) (a : Asked) : list Z * list Z * Simple :=
  if as_kind a =? TYPE_OUT then
    (report r (s_served d) (as_head a) 1, poke 1 (as_status a) STATUS_OK q,
     serve (store d (as_sector a) (bytes_at (as_data a) SECTOR_BYTES q)))
  else
    (report r (s_served d) (as_head a) (SECTOR_BYTES + 1),
     poke 1 (as_status a) STATUS_OK (splice q (Z.to_nat (as_data a)) (s_contents d (as_sector a))), serve d).

Section simple.
  Context (phys bell : Z).

#[export] Instance simple_device : Device Simple := {
  mmio_read _ _ d := (0, d);
  mmio_write _ _ _ d := d;
  turn r q d :=
    if available_now r =? s_served d then (r, q, d)
    else match chain the_layout phys r q (s_served d) with Some a => carry_out r q d a | None => (r, q, d) end
}.

Lemma report_ok r n head written : frame_bytes_ok r → in_width 16 head → in_width 32 written →
  frame_bytes_ok (report r n head written) ∧ used_now (report r n head written) = wrap 16 (n + 1) ∧
  peek 4 (Layout.used_slot the_layout n) (report r n head written) = head ∧
  peek 4 (Layout.used_slot the_layout n + 4) (report r n head written) = written ∧
  ∀ o w, 0 ≤ o → 0 ≤ w → o + w ≤ USED_AT → bytes_at o w (report r n head written) = bytes_at o w r.
Proof.
  intros Hr Hh Hw. pose proof (used_slot_range n) as Hs. unfold report. set (slot := Layout.used_slot the_layout n) in *.
  assert (in_width 32 head) as Hh32 by (unfold in_width in *; lia).
  pose proof (frame_poke 4 slot head r Hr ltac:(lia) ltac:(lia) ltac:(lia)) as H1.
  pose proof (frame_poke 4 (slot + 4) written _ H1 ltac:(lia) ltac:(lia) ltac:(lia)) as H2.
  pose proof (frame_poke 2 0x802 (wrap 16 (n + 1)) _ H2 ltac:(lia) ltac:(lia) ltac:(lia)) as H3.
  destruct Hr as [Hl _], H1 as [Hl1 _], H2 as [Hl2 _]. split; [done|]. split_and!.
  - rewrite used_now_eq, peek_poke_eq; [done|done|done|rewrite Hl2; done|apply served_next].
  - rewrite peek_poke_ne by (rewrite ?Hl2; lia). rewrite peek_poke_ne by (rewrite ?Hl1; lia).
    apply peek_poke_eq; [lia|done|lia|done].
  - rewrite peek_poke_ne by (rewrite ?Hl2; lia). apply peek_poke_eq; [lia|done|lia|done].
  - intros o w Ho Hw0 Hle. unfold USED_AT in Hle. unfold poke.
    assert (∀ k v, len (le_encode k v) = Z.of_nat k) as Hlen by (intros; unfold len; by rewrite length_le_encode).
    rewrite !bytes_at_write_ne; try done; rewrite ?Hlen;
      change (splice _ (Z.to_nat (slot + 4)) _) with (poke 4 (slot + 4) written (poke 4 slot head r));
      change (splice _ (Z.to_nat slot) _) with (poke 4 slot head r); try lia.
Qed.

Lemma simple_turn_busy r q d a : frame_bytes_ok r → frame_bytes_ok q → available_now r = wrap 16 (s_served d + 1) →
  chain the_layout phys r q (s_served d) = Some a → turn r q d = carry_out r q d a.
Proof.
  intros Hr Hq Hav Hc. cbn [turn simple_device]. rewrite Hav, Hc.
  rewrite (proj2 (Z.eqb_neq _ _)); [done|]. intros He. symmetry in He. revert He. apply next_differs. apply s_good.
Qed.

Lemma serve_store d n b : sector_ok b → s_contents (serve (store d n b)) = <[n := b]> (s_contents d) ∧
  s_served (serve (store d n b)) = wrap 16 (s_served d + 1).
Proof. intros Hb. unfold store. by destruct (decide (sector_ok b)). Qed.

Lemma status_ok_at o q : frame_bytes_ok q → 0 ≤ o → o + 1 ≤ 4096 → peek 1 o (poke 1 o STATUS_OK q) = STATUS_OK.
Proof. intros [Hl _] Ho Hle. apply peek_poke_eq; [done|done|lia|done]. Qed.

(** Serving a request, and what the specification asks. *)
Lemma carry_out_law r q d a : frame_bytes_ok r → frame_bytes_ok q → available_now r = wrap 16 (s_served d + 1) →
  chain the_layout phys r q (s_served d) = Some a → as_kind a = TYPE_IN ∨ as_kind a = TYPE_OUT →
  as_status a < as_data a ∨ as_data a + SECTOR_BYTES ≤ as_status a →
  ∃ r' q' d', carry_out r q d a = (r', q', d') ∧ keeps a r q r' q' ∧
    s_served d' = wrap 16 (s_served d + 1) ∧ used_now r' = s_served d' ∧
    peek 4 (Layout.used_slot the_layout (s_served d)) r' = as_head a ∧
    meant a q q' (s_contents d) (s_contents d') (peek 4 (Layout.used_slot the_layout (s_served d) + 4) r').
Proof.
  intros Hr Hq Hav Hc Hkind Hapart. destruct (chain_inside phys r q _ a Hr Hc) as (Hh & Hd0 & Hd1 & Hs0 & Hs1).
  assert (len q = 4096) as Hlq by apply Hq. unfold carry_out, meant. destruct (Z.eqb_spec (as_kind a) TYPE_OUT) as [Hk|Hk].
  - destruct (report_ok r (s_served d) (as_head a) 1 Hr Hh ltac:(done)) as (R1 & R2 & R3 & R4 & R5).
    assert (sector_ok (bytes_at (as_data a) SECTOR_BYTES q)) as Hso.
    { split; [apply (len_bytes_at (as_data a) SECTOR_BYTES); (done || lia)|apply bytes_ok_at, Hq]. }
    destruct (serve_store d (as_sector a) _ Hso) as [Hc' Hs'].
    eexists _, _, _. split; [reflexivity|]. split.
    { split; [split; [done|apply frame_poke; (done || lia)]|done|].
      intros o w Ho Hw Hl Hst _. unfold poke. rewrite bytes_at_write_ne; [done|done|done|done| |];
        change (len (le_encode _ _)) with 1; lia. }
    split; [done|]. split; [by rewrite R2, Hs'|]. split; [done|].
    rewrite status_ok_at by done. rewrite !decide_True by done. by rewrite Hc', R4.
  - destruct (report_ok r (s_served d) (as_head a) (SECTOR_BYTES + 1) Hr Hh ltac:(done)) as (R1 & R2 & R3 & R4 & R5).
    destruct (proj1 (s_good d) (as_sector a)) as [Hcl Hcb].
    assert (frame_bytes_ok (splice q (Z.to_nat (as_data a)) (s_contents d (as_sector a)))) as Hq1.
    { apply frame_splice; [done|done|done|rewrite Hcl; unfold SECTOR_BYTES in *; lia]. }
    eexists _, _, _. split; [reflexivity|]. split.
    { split; [split; [done|apply frame_poke; (done || lia)]|done|].
      intros o w Ho Hw Hl Hst Hda. unfold poke. destruct Hq1 as [Hlq1 _]. rewrite bytes_at_write_ne; [|done..| |].
      - destruct Hda as [?|Hda]; [congruence|].
        rewrite bytes_at_write_ne; [done|done|done|done|rewrite Hcl; unfold SECTOR_BYTES in *; lia|rewrite Hcl; unfold SECTOR_BYTES in *; lia].
      - change (len (le_encode _ _)) with 1. lia.
      - change (len (le_encode _ _)) with 1. lia. }
    split; [done|]. split; [done|]. split; [done|].
    rewrite status_ok_at by done. rewrite decide_True by done. rewrite decide_False by done.
    split; [done|]. split; [|done]. unfold poke. rewrite bytes_at_write_ne; [|done|done|done| |].
    + apply bytes_at_splice_eq; [done|by rewrite Hcl|lia].
    + destruct Hq1 as [-> _]. change (len (le_encode _ _)) with 1. lia.
    + change (len (le_encode _ _)) with 1. lia.
Qed.

Lemma simple_idle r q d : frame_bytes_ok r → frame_bytes_ok q → available_now r = s_served d →
  ∃ d', turn r q d = (r, q, d') ∧ s_contents d' = s_contents d ∧ s_served d' = s_served d.
Proof. intros _ _ Hav. exists d. cbn [turn simple_device]. by rewrite Hav, Z.eqb_refl. Qed.

Lemma simple_busy r q d a : frame_bytes_ok r → frame_bytes_ok q →
  available_now r = wrap 16 (s_served d + 1) → used_now r = s_served d →
  chain the_layout phys r q (s_served d) = Some a → as_kind a = TYPE_IN ∨ as_kind a = TYPE_OUT →
  as_status a < as_data a ∨ as_data a + SECTOR_BYTES ≤ as_status a →
  ∃ r' q' d', turn r q d = (r', q', d') ∧ keeps a r q r' q' ∧
    ((s_served d' = s_served d ∧ used_now r' = used_now r ∧ s_contents d' = s_contents d) ∨
     (s_served d' = wrap 16 (s_served d + 1) ∧ used_now r' = s_served d' ∧
      let slot := Layout.used_slot the_layout (s_served d) in
      peek 4 slot r' = as_head a ∧ meant a q q' (s_contents d) (s_contents d') (peek 4 (slot + 4) r'))).
Proof.
  intros Hr Hq Hav Hu Hc Hk Ha. destruct (carry_out_law r q d a Hr Hq Hav Hc Hk Ha) as (r' & q' & d' & E & Hkeep & Hrest).
  exists r', q', d'. split; [by rewrite (simple_turn_busy r q d a)|]. split; [done|]. right.
  destruct Hrest as (H1 & H2 & H3 & H4). split; [exact H1|]. split; [exact H2|]. exact (conj H3 H4).
Qed.

#[export] Instance simple_disk : VirtioDisk Simple phys bell := {
  contents := s_contents;
  served := s_served;
  served_law d := proj2 (s_good d);
  bell_law v d := conj eq_refl eq_refl;
  idle_law := simple_idle;
  busy_law := simple_busy
}.

Lemma simple_served c n kind sector b (m : Dma Simple) : kind = TYPE_IN ∨ kind = TYPE_OUT →
  pending phys bell c n kind sector b m → s_served (device_ (device_turn m)) = wrap 16 (n + 1).
Proof.
  intros Hk Hp. pose proof Hp as [[HR HQ] Hav Hus Hse Hof Hda Hco]. simpl in Hse.
  destruct (carry_out_law (ring m) (req m) (device_ m) (asked kind sector)) as (r' & q' & d' & E & _ & Hs & _);
    [done|done|by rewrite Hav, Hse|rewrite Hse; by eapply offered_chain|done|by right|].
  unfold device_turn. rewrite (simple_turn_busy _ _ _ (asked kind sector)), E; [|done|done|by rewrite Hav, Hse|rewrite Hse; by eapply offered_chain].
  simpl. by rewrite Hs, Hse.
Qed.

#[export] Instance simple_in_time : InTime Simple phys bell.
Proof.
  intros c n kind sector b m Hk Hp Hp'.
  rewrite Z.add_1_r, Z2Nat.inj_succ in Hp' by done.
  rewrite Nat.iter_succ_r in Hp'.
  assert (answered phys bell c n kind sector b (device_turn m)) as Ha.
  { destruct (pending_turn phys bell _ _ _ _ _ m Hk Hp) as [Hp2|]; [|done]. exfalso.
    pose proof (simple_served _ _ _ _ _ m Hk Hp) as H1. pose proof (pd_served _ _ _ _ _ _ _ _ Hp2) as H2. simpl in H2.
    rewrite H1 in H2. eapply next_differs; [|by symmetry]. rewrite <-H2. apply served_next. }
  assert (∀ k, at_rest phys bell (contents (device_ (device_turn m))) (wrap 16 (n + 1)) (ring (device_turn m)) (req (device_turn m))
    (Nat.iter k device_turn (device_turn m))) as Hrest.
  { intros k. induction k as [|k IH]; [by eapply answered_rest|]. rewrite Nat.iter_succ. by apply rest_turn. }
  pose proof (ar_served _ _ _ _ _ _ _ (Hrest (Z.to_nat POLL_LIMIT))) as H1.
  pose proof (pd_served _ _ _ _ _ _ _ _ Hp') as H2. rewrite H2 in H1.
  eapply next_differs; [|exact H1]. rewrite H1. apply served_next.
Qed.
End simple.

(** ** A disk that answers late *)
Record Late := { l_contents : content; l_held : option Asked; l_served : Z }.

(** A read answered as the [n]th. *)
Definition put (c : content) (r q : list Z) (n : Z) (a : Asked) : list Z * list Z :=
  (report r n (as_head a) (SECTOR_BYTES + 1),
   poke 1 (as_status a) STATUS_OK (splice q (Z.to_nat (as_data a)) (c (as_sector a)))).

Definition late_turn (phys : Z) (r q : list Z) (d : Late) : list Z * list Z * Late :=
  let n := l_served d in
  match l_held d with
  | None =>
      if available_now r =? n then (r, q, d)
      else (r, q, {| l_contents := l_contents d; l_held := chain the_layout phys r q n; l_served := n |})
  | Some first =>
      if available_now r =? wrap 16 (n + 1) then (r, q, d)
      else
        match chain the_layout phys r q (wrap 16 (n + 1)) with
        | None => (r, q, d)
        | Some second =>
            let '(r, q) := put (l_contents d) r q n second in
            let '(r, q) := put (l_contents d) r q (wrap 16 (n + 1)) first in
            (r, q, {| l_contents := l_contents d; l_held := None; l_served := wrap 16 (n + 2) |})
        end
  end.

Instance late_device : Device Late := {
  mmio_read _ _ d := (0, d);
  mmio_write _ _ _ d := d;
  turn := late_turn 0x5000
}.

Definition a_reader : Reader := {| rd_layout := the_layout; rd_notify := {| n_base := 0xFEB03000; n_multiplier := 4 |}; rd_request_phys := 0x5000 |}.
Definition a_disk : FoundDisk := {|
  fd_at := {| bus := 0; device := 3; function := 0 |}; fd_bar := 4; fd_registers := 0xFEB00000; fd_common := {| cc_base := 0xFEB00000 |};
  fd_offered := 2 ^ 32; fd_accepted := 2 ^ 32; fd_header_bars := replicate 6 0; fd_queues := 1; fd_queue_size := 256; fd_notify_offset := 0
|}.

Definition fresh {D} (d : D) : Dma D := {| ring := replicate 4096 0; req := replicate 4096 0; device_ := d |}.

Lemma wait_look {D} `{Device D} looks p (m : Dma D) : len (ring (device_turn m)) = 4096 →
  wait (S looks) the_layout p m =
    if used_now (ring (device_turn m)) =? p then (Ok (), device_turn m) else wait looks the_layout p (device_turn m).
Proof.
  intros Hl. cbn [wait]. rewrite dev_bind_run. unfold used_index, read_ring. rewrite slice_Some by (rewrite ?Hl; done).
  change (le_decode _) with (used_now (ring (device_turn m))). by case_match.
Qed.

Lemma silent_wait {D} `{Device D} looks p (m : Dma D) :
  len (ring m) = 4096 → device_turn m = m → used_now (ring m) ≠ p → wait looks the_layout p m = (Err NoAnswer, m).
Proof.
  intros Hl Ht Hp. induction looks as [|looks IH]; [done|]. rewrite wait_look by by rewrite Ht.
  by rewrite Ht, (proj2 (Z.eqb_neq _ _) Hp).
Qed.

(** Everything of a read before the wait for its answer. *)
Definition asked_for (sector : Z) (m : Dma Late) : res ReadError Z * Dma Late :=
  (_ ← prepare TYPE_IN sector None; p ← offer a_reader TYPE_IN; _ ← ring_bell a_reader a_disk; mret p) m.

Definition late0 : Dma Late := fresh {| l_contents := λ n, replicate 512 (n mod 256); l_held := None; l_served := 0 |}.

(** The first request given up on, and the second answered. *)
Local Abbreviation late1 := (device_turn (asked_for 1 late0).2).
Local Abbreviation late2 := (device_turn (asked_for 2 late1).2).

Lemma asked_then_wait sector m p m1 : asked_for sector m = (Ok p, m1) →
  request a_reader a_disk TYPE_IN sector None m =
    (_ ← wait (S (Z.to_nat POLL_LIMIT)) the_layout p; conclude a_reader TYPE_IN p) m1.
Proof.
  unfold asked_for, request. rewrite !dev_bind_run. destruct (prepare TYPE_IN sector None m) as [[[]|?| |] m2]; try discriminate.
  rewrite !dev_bind_run. destruct (offer a_reader TYPE_IN m2) as [[q|?| |] m3]; try discriminate.
  rewrite !dev_bind_run. destruct (ring_bell a_reader a_disk m3) as [[[]|?| |] m4]; try discriminate.
  intros [= -> ->]. rewrite Z.add_1_r, Z2Nat.inj_succ by done. reflexivity.
Qed.

Lemma pair_of {A B} (p : A * B) a : p.1 = a → p = (a, p.2).
Proof. intros <-. apply surjective_pairing. Qed.

Lemma not_its_index (x u p : Z) : x = u → u ≠ p → x ≠ p.
Proof. by intros ->. Qed.
Lemma one_not_zero : 0 ≠ 1.
Proof. discriminate. Qed.
Lemma waits_for (x n i : Z) : x = i → n = i - 1 → wrap 16 i = i → x = wrap 16 (n + 1).
Proof. intros -> -> Hi. by rewrite Z.sub_add. Qed.

Lemma read_given_up sector m p m1 m2 : asked_for sector m = (Ok p, m1) → m2 = device_turn m1 → len (ring m2) = 4096 →
  used_now (ring m2) ≠ p → device_turn m2 = m2 → VirtioBlk.read_sector a_reader a_disk sector m = (Err NoAnswer, m2).
Proof.
  intros E -> L U T. unfold VirtioBlk.read_sector. rewrite dev_bind_run, (asked_then_wait _ _ _ _ E), dev_bind_run.
  rewrite wait_look, (proj2 (Z.eqb_neq _ _) U) by done. by rewrite silent_wait.
Qed.

Lemma read_answered sector m p m1 m2 m3 m3' m4 b : asked_for sector m = (Ok p, m1) → m2 = device_turn m1 →
  len (ring m2) = 4096 → used_now (ring m2) = p → conclude a_reader TYPE_IN p m2 = (Ok (), m3) → m3' = m3 →
  read_req (X:=ReadError) 512 DATA_AT m3' = (Ok b, m4) →
  VirtioBlk.read_sector a_reader a_disk sector m = (Ok b, m4).
Proof.
  intros E -> L U C -> R. unfold VirtioBlk.read_sector. rewrite dev_bind_run, (asked_then_wait _ _ _ _ E), dev_bind_run.
  rewrite wait_look, (proj2 (Z.eqb_eq _ _) U) by done. rewrite C. exact R.
Qed.

(** It holds the first request and waits for the second. *)
Lemma late_waits (m : Dma Late) a : l_held (device_ m) = Some a →
  available_now (ring m) = wrap 16 (l_served (device_ m) + 1) → device_turn m = m.
Proof.
  intros Ha Hav. unfold device_turn. cbn [turn late_device]. unfold late_turn. rewrite Ha, Hav, Z.eqb_refl.
  by destruct m.
Qed.

Lemma late_first : (asked_for 1 late0).1 = Ok 1 ∧
  len (ring late1) = 4096 ∧ used_now (ring late1) = 0 ∧
  available_now (ring late1) = 1 ∧ l_served (device_ late1) = 0 ∧ l_held (device_ late1) = Some (asked TYPE_IN 1).
Proof. repeat (split; [vm_compute; reflexivity|]). vm_compute; reflexivity. Qed.

Local Abbreviation late3 := ((conclude a_reader TYPE_IN 2 late2).2).

Lemma late_second : (asked_for 2 late1).1 = Ok 2 ∧
  used_now (ring late2) = 2 ∧ len (ring late2) = 4096 ∧
  (conclude a_reader TYPE_IN 2 late2).1 = Ok () ∧
  (read_req (X:=ReadError) 512 DATA_AT late3).1 = Ok (l_contents (device_ late0) 1).
Proof. repeat (split; [vm_compute; reflexivity|]). vm_compute; reflexivity. Qed.

(** A read that was given up on is still in flight, and the next read shares
    its buffer: it is answered with the other sector's bytes, without an
    error. *)
Lemma late_answer_wrong_sector : ∃ m1 m2,
  VirtioBlk.read_sector a_reader a_disk 1 late0 = (Err NoAnswer, m1) ∧
  VirtioBlk.read_sector a_reader a_disk 2 m1 = (Ok (l_contents (device_ late0) 1), m2) ∧
  l_contents (device_ late0) 1 ≠ l_contents (device_ late0) 2.
Proof.
  destruct late_first as (E1 & L1 & U1 & A1 & S1 & H1). destruct late_second as (E2 & U2 & L2 & E3 & E4).
  exists late1, (read_req (X:=ReadError) 512 DATA_AT late3).2. split; [|split].
  - exact (read_given_up _ _ _ _ late1 (pair_of _ _ E1) eq_refl L1 (not_its_index _ _ _ U1 one_not_zero) (late_waits _ _ H1 (waits_for _ _ _ A1 S1 eq_refl))).
  - exact (read_answered _ _ _ _ late2 _ late3 _ _ (pair_of _ _ E2) eq_refl L2 U2 (pair_of _ _ E3) eq_refl (pair_of _ _ E4)).
  - vm_compute. discriminate.
Qed.
