(* ===== verification/VirtioFiles.v ===== *)
(** * Files over the driver

    [files_over_virtio]: what a write of a file does, and that it reads
    back, through the file system, the driver, the queue and a device.
    Here are the witnesses for the driver's theorems too. *)

From S2P Require Import Prelude Words Bytes FatFormat FatVolume FatFormatThms FatDisk FatRead FatReadThms FatDir FatFrame FatWrite FatPlace FatFile FatWriteThms FatBack Pci Virtio VirtioBlk VirtioQueue VirtioDisk VirtioThms VirtioSimple.
Local Open Scope Z_scope.

Section files.
  Context {D : Type} `{Device D} (phys bell : Z) `{!VirtioDisk D phys bell, !InTime D phys bell}.
  Context (rd : Reader) (disk : FoundDisk) (Hdrives : drives phys bell rd disk).
  Context (boot : BootSector) (Hg : geometry boot).
  Context (Hmax : FIRST_DATA_CLUSTER + clusters boot ≤ 0x0FFFFFF7) (Hinfo : 0 ≤ fs_info_sector boot).

Local Abbreviation St := (Mounted_disk (D:=D) phys bell).
#[local] Instance the_sectors : Sectors St ReadError := virtio_sectors phys bell rd disk.
#[local] Instance the_disk : Disk St ReadError := virtio_disk phys bell rd disk Hdrives.

(** C28: Writing a file through the whole stack (the volume, the driver, the
    queue, and a device that keeps virtio's specification, answers in time
    and fails at whatever request it likes): the disk then holds either the
    volume as it was, or the volume with the one entry of the new file, whose
    content is exactly the bytes asked for, and every other file intact.  An
    answer of [Ok] is the second case, and reading the file back through the
    same stack gives exactly those bytes, or the device's failure.  Nothing
    panics and nothing runs forever. *)
Theorem files_over_virtio (s : St) nm contents into :
  writable boot (disk_view phys bell s) nm → bytes_ok contents → len contents < 2 ^ 32 → len contents ≤ len into →
  ∃ r s1, write_file boot nm contents s = (r, s1) ∧
    match r with
    | Ok e => after (E:=ReadError) boot (disk_view phys bell s) (disk_view phys bell s1) nm contents e ∧
        ∃ r2 s2, read_file boot e into s1 = (r2, s2) ∧ disk_view phys bell s2 = disk_view phys bell s1 ∧
          (r2 = Ok (len contents, fill contents into) ∨ ∃ x, r2 = Err (FatVolume.Device x))
    | Err _ => before boot (disk_view phys bell s) (disk_view phys bell s1) ∨
        ∃ e, after (E:=ReadError) boot (disk_view phys bell s) (disk_view phys bell s1) nm contents e
    | Panic | Diverge => False
    end.
Proof.
  intros Hw Hb Hlen Hinto.
  destruct (write_file_moments (S:=St) (E:=ReadError) (H:=the_sectors) (H0:=the_disk) boot Hg Hmax Hinfo s nm contents Hw Hb Hlen) as (r & s1 & E & Hr).
  exists r, s1. split; [exact E|]. destruct r as [e|e| |]; [|exact Hr|done..].
  destruct Hr as [Hd Ha]. split; [exact Ha|]. destruct Ha as (_ & _ & _ & _ & _ & _ & _ & _ & _ & _ & Hsize & _ & Hcontent & _).
  pose proof (len_nonneg contents).
  destruct (read_file_on (S:=St) (E:=ReadError) (H:=the_sectors) (H0:=the_disk) boot Hg s1 e into Hd ltac:(lia) contents Hcontent) as (r2 & s2 & E2 & Hv & Hcase).
  exists r2, s2. split; [exact E2|]. split; [exact Hv|]. by rewrite Hsize in Hcase.
Qed.
End files.

(** ** A machine with a disk *)
Lemma written_good n : sector_ok (written_disk n).
Proof. destruct (written_disk_ok n) as [Hl Hb]. split; [unfold len; by rewrite Hl|done]. Qed.

Lemma zero_width : in_width 16 0.
Proof. unfold in_width. lia. Qed.

Definition simple_of (c : content) (H : ∀ n, sector_ok (c n)) : Simple :=
  {| s_contents := c; s_served := 0; s_good := conj H zero_width |}.
Definition simple0 : Simple := simple_of written_disk written_good.

Definition the_bell : Z := 0xFEB03000.

Lemma the_driver : drives 0x5000 the_bell a_reader a_disk.
Proof. split; [done|split; [done|split; done]|done]. Qed.

Lemma fresh_frame : frame_bytes_ok (replicate 4096 0) ∧ available_now (replicate 4096 0) = 0 ∧ used_now (replicate 4096 0) = 0.
Proof.
  split; [|split; vm_compute; reflexivity]. split; [vm_compute; reflexivity|].
  refine (bool_decide_unpack _ _). vm_compute. exact I.
Qed.

#[local] Instance the_device : Device Simple := simple_device 0x5000.
#[local] Instance the_virtio_disk : VirtioDisk Simple 0x5000 the_bell := simple_disk 0x5000 the_bell.
#[local] Instance the_prompt_disk : InTime Simple 0x5000 the_bell := simple_in_time 0x5000 the_bell.

Lemma fresh_quiet c Hc : quiet 0x5000 the_bell (fresh (simple_of c Hc)).
Proof. destruct fresh_frame as (Hf & Ha & Hu). by split. Qed.

Definition mounted_of (c : content) (Hc : ∀ n, sector_ok (c n)) : Mounted_disk (D:=Simple) 0x5000 the_bell :=
  exist _ (fresh (simple_of c Hc)) (proj2 (quiet_now_quiet 0x5000 the_bell _) (fresh_quiet c Hc)).

Lemma mounted_view c Hc : disk_view 0x5000 the_bell (mounted_of c Hc) = c.
Proof. done. Qed.

Lemma simple_writes_bytes r q (d : Simple) : frame_bytes_ok r → frame_bytes_ok q →
  frame_bytes_ok (turn r q d).1.1 ∧ frame_bytes_ok (turn r q d).1.2.
Proof.
  intros Hr Hq. cbn [turn the_device simple_device]. case_match; [done|]. destruct (chain _ _ _ _ _) as [a|] eqn:Hc; [|done].
  destruct (chain_inside _ _ _ _ _ Hr Hc) as (Hh & Hd0 & Hd1 & Hs0 & Hs1). unfold carry_out.
  destruct (proj1 (s_good d) (as_sector a)) as [Hcl Hcb]. case_match; simpl; (split; [by apply report_ok|]).
  - apply frame_poke; (done || lia).
  - apply frame_poke; [|done|done|lia]. apply frame_splice; [done|done|done|rewrite Hcl; unfold SECTOR_BYTES in *; lia].
Qed.

(** Sector 0 of it is read. *)
Lemma disk_requests_exact_witness : ∃ r m',
  VirtioBlk.read_sector a_reader a_disk 0 (fresh (simple_of written_disk written_good)) = (r, m') ∧
  match r with Ok bytes => bytes = written_disk 0 | Err _ => True | _ => False end.
Proof.
  destruct (proj1 (disk_requests_exact 0x5000 the_bell a_reader a_disk (fresh (simple_of written_disk written_good)) 0
    the_driver (fresh_quiet _ _) ltac:(split; done))) as (r & m' & E & Hr).
  exists r, m'. split; [exact E|]. destruct r as [b|e| |]; [apply Hr|exact I|exact Hr|exact Hr].
Defined.


Lemma files_over_virtio_witness :
  let volume := the_sectors 0x5000 the_bell a_reader a_disk in
  ∃ r s1, write_file (H:=volume) example_boot [97] [1; 2; 3] (mounted_of written_disk written_good) = (r, s1) ∧
    match r with
    | Ok e => after (E:=ReadError) example_boot written_disk (disk_view 0x5000 the_bell s1) [97] [1; 2; 3] e ∧
        ∃ r2 s2, read_file (H:=volume) example_boot e (replicate 8 0) s1 = (r2, s2) ∧
          (r2 = Ok (3, [1; 2; 3; 0; 0; 0; 0; 0]) ∨ ∃ x, r2 = Err (FatVolume.Device x))
    | Err _ => before example_boot written_disk (disk_view 0x5000 the_bell s1) ∨
        ∃ e, after (E:=ReadError) example_boot written_disk (disk_view 0x5000 the_bell s1) [97] [1; 2; 3] e
    | Panic | Diverge => False
    end.
Proof.
  intros volume.
  destruct (files_over_virtio 0x5000 the_bell a_reader a_disk the_driver example_boot example_geometry
    ltac:(vm_compute; intros Hx; discriminate Hx) ltac:(vm_compute; intros Hx; discriminate Hx)
    (mounted_of written_disk written_good) [97] [1; 2; 3] (replicate 8 0)) as (r & s1 & E & Hr).
  - rewrite mounted_view. exact (example_writable [97]).
  - refine (bool_decide_unpack _ _). vm_compute. exact I.
  - reflexivity.
  - vm_compute. intros Hx. discriminate Hx.
  - exists r, s1. split; [exact E|]. destruct r as [e|e| |]; [|exact Hr|exact Hr|exact Hr].
    destruct Hr as [Ha (r2 & s2 & E2 & _ & Hcase)]. split; [exact Ha|]. exists r2, s2. split; [exact E2|exact Hcase].
Defined.
