(* ===== verification/Fbcon.v ===== *)
(** * The text console: [drivers/fbcon/src/lib.rs]

    The cursor over any surface, and the surface that draws in a linear
    framebuffer.  The framebuffer is the list of its 32-bit pixels, of which
    there are as many as whole ones fit in the region the firmware reported;
    a pixel outside it is a panic here (in the code it would be undefined).
    The font is a table of another crate: eight rows of eight bits for each
    of 128 characters. *)

From S2P Require Import Prelude Words PhysMem Bytes.
Local Open Scope Z_scope.

Definition GLYPH_PIXELS : Z := 8.
Definition SCALE : Z := 2.
Definition CELL_PIXELS : Z := GLYPH_PIXELS * SCALE.
Definition FOREGROUND : Z := 0x00FFFFFF.
Definition BACKGROUND : Z := 0.

(** ** The cursor *)
Class Surface (S : Type) := {
  cols : S → Z;
  rows : S → Z;
  draw_glyph : Z → Z → Z → dev S Empty_set ();
  scroll_up_one_row : dev S Empty_set ();
  clear_surface : dev S Empty_set ()
}.

Record TextConsole (S : Type) := { surface : S; col : Z; row : Z }.
Arguments surface {S} _.
Arguments col {S} _.
Arguments row {S} _.

Module Text.
Section console.
  Context {S : Type} `{!Surface S}.

(** An operation on the surface alone. *)
Definition on_surface (m : dev S Empty_set ()) : dev (TextConsole S) Empty_set () := λ c,
  let '(r, s) := m (surface c) in (r, {| surface := s; col := col c; row := row c |}).

Definition set_cursor (r c : Z) (t : TextConsole S) : TextConsole S := {| surface := surface t; col := c; row := r |}.

Definition new (s : S) : res Empty_set (TextConsole S) :=
  match clear_surface s with
  | (Ok _, s) => Ok {| surface := s; col := 0; row := 0 |}
  | (Err e, _) => Err e
  | (Panic, _) => Panic
  | (Diverge, _) => Diverge
  end.

Definition newline : dev (TextConsole S) Empty_set () :=
  _ ← modify (λ t, set_cursor (row t) 0 t);
  t ← get;
  if rows (surface t) <=? wrap 64 (row t + 1) then on_surface scroll_up_one_row
  else modify (λ t, set_cursor (wrap 64 (row t + 1)) (col t) t).

Definition backspace : dev (TextConsole S) Empty_set () :=
  modify (λ t,
    if 0 <? col t then set_cursor (row t) (col t - 1) t
    else if 0 <? row t then set_cursor (row t - 1) (wrap 64 (cols (surface t) - 1)) t
    else t).

Definition put_byte (byte : Z) : dev (TextConsole S) Empty_set () :=
  if byte =? 0x0A then newline
  else if byte =? 0x0D then modify (λ t, set_cursor (row t) 0 t)
  else if byte =? 0x08 then backspace
  else
    t ← get;
    _ ← (if cols (surface t) <=? col t then newline else mret ());
    t ← get;
    _ ← on_surface (draw_glyph (col t) (row t) byte);
    modify (λ t, set_cursor (row t) (wrap 64 (col t + 1)) t).

Definition write_str (s : list Z) : dev (TextConsole S) Empty_set () := for_in s (λ _ byte, put_byte byte) ().

Definition clear : dev (TextConsole S) Empty_set () :=
  _ ← on_surface clear_surface;
  modify (set_cursor 0 0).
End console.
End Text.

(** ** The framebuffer *)
Record FramebufferInfo := { fi_base_addr : Z; fi_width : Z; fi_height : Z; fi_stride : Z; fi_size_bytes : Z }.

(** [pixels] is the memory at [base]. *)
Record FramebufferSurface := {
  fb_base : Z; fb_width : Z; fb_height : Z; fb_stride : Z; fb_cols : Z; fb_rows : Z;
  pixels : list Z
}.

Definition with_pixels (s : FramebufferSurface) (m : list Z) : FramebufferSurface :=
  {| fb_base := fb_base s; fb_width := fb_width s; fb_height := fb_height s; fb_stride := fb_stride s;
     fb_cols := fb_cols s; fb_rows := fb_rows s; pixels := m |}.

Module Fb.
(** [memory] is what is at the address. *)
Definition new (info : FramebufferInfo) (memory : list Z) : option FramebufferSurface :=
  let width := fi_width info in
  let height := fi_height info in
  let stride := fi_stride info in
  n ← checked_mul 64 stride height;
  needed_bytes ← checked_mul 64 n 4;
  if (width =? 0) || (height =? 0) || (stride <? width) || (fi_size_bytes info <? needed_bytes)
     || negb (Addr.is_aligned_to (fi_base_addr info) 4)
  then None
  else
    let cols := width / CELL_PIXELS in
    let rows := height / CELL_PIXELS in
    if (cols =? 0) || (rows =? 0) then None
    else Some {| fb_base := fi_base_addr info; fb_width := width; fb_height := height; fb_stride := stride;
                 fb_cols := cols; fb_rows := rows; pixels := memory |}.

(** The same framebuffer through another address. *)
Definition rebase (base : Z) (s : FramebufferSurface) : FramebufferSurface :=
  {| fb_base := base; fb_width := fb_width s; fb_height := fb_height s; fb_stride := fb_stride s;
     fb_cols := fb_cols s; fb_rows := fb_rows s; pixels := pixels s |}.

Definition put_pixel (x y color : Z) : dev FramebufferSurface Empty_set () := λ s,
  let at_ := wrap 64 (wrap 64 (y * fb_stride s) + x) in
  if negb ((x <? fb_width s) && (y <? fb_height s)) then (Panic, s)
  else if at_ <? len (pixels s) then (Ok (), with_pixels s (<[Z.to_nat at_ := color]> (pixels s))) else (Panic, s).

(** [lo..hi]. *)
Definition up_to (lo hi : Z) : list Z := seqZ lo (hi - lo).

Definition fill_pixel_rows (first_y end_y color : Z) : dev FramebufferSurface Empty_set () :=
  s ← get;
  for_in (up_to first_y end_y) (λ _ y, for_in (up_to 0 (fb_width s)) (λ _ x, put_pixel x y color) ()) ().

(** [ptr::copy] of [n] pixels. *)
Definition copy_pixels (from to n : Z) : dev FramebufferSurface Empty_set () := λ s,
  match slice (pixels s) from (from + n) with
  | Some src =>
      match copy_at (pixels s) to (to + n) src with
      | Some m => (Ok (), with_pixels s m)
      | None => (Panic, s)
      end
  | None => (Panic, s)
  end.

Section font.
  Context (BASIC_LEGACY : list (list Z)).

Definition glyph_for (byte : Z) : list Z :=
  nth (Z.to_nat (if byte <? 128 then byte else 0x3F)) BASIC_LEGACY [].

Definition draw_glyph (col row byte : Z) : dev FramebufferSurface Empty_set () :=
  s ← get;
  if (fb_cols s <=? col) || (fb_rows s <=? row) then mret ()
  else
    let glyph := glyph_for byte in
    let x0 := wrap 64 (col * CELL_PIXELS) in
    let y0 := wrap 64 (row * CELL_PIXELS) in
    for_in (zip (up_to 0 (len glyph)) glyph) (λ _ '(gy, bits),
      for_in (up_to 0 GLYPH_PIXELS) (λ _ gx,
        let color := if Z.land bits (Z.shiftl 1 gx) =? 0 then BACKGROUND else FOREGROUND in
        for_in (up_to 0 SCALE) (λ _ dy,
          for_in (up_to 0 SCALE) (λ _ dx,
            put_pixel (x0 + gx * SCALE + dx) (y0 + gy * SCALE + dy) color) ()) ()) ()) ().

Definition scroll_up_one_row : dev FramebufferSurface Empty_set () :=
  s ← get;
  let text_height := fb_rows s * CELL_PIXELS in
  _ ← copy_pixels (CELL_PIXELS * fb_stride s) 0 ((text_height - CELL_PIXELS) * fb_stride s);
  fill_pixel_rows (text_height - CELL_PIXELS) text_height BACKGROUND.

Definition clear : dev FramebufferSurface Empty_set () :=
  s ← get;
  fill_pixel_rows 0 (fb_height s) BACKGROUND.

#[local] Instance framebuffer : Surface FramebufferSurface := {
  cols := fb_cols;
  rows := fb_rows;
  draw_glyph := draw_glyph;
  scroll_up_one_row := scroll_up_one_row;
  clear_surface := clear
}.
End font.
End Fb.
