(* ===== verification/FbconThms.v ===== *)
(** * The text console: what is on the screen

    [drawn]: a rectangle of pixels has been given its colours and nothing
    else has changed; every loop of the framebuffer draws a rectangle out of
    smaller ones.  [Screen]: the terminal the pixels show. *)

From S2P Require Import Prelude Words PhysMem Bytes Fbcon.
Local Open Scope Z_scope.

(** ** A framebuffer that can be drawn in *)
Record fb_ok (s : FramebufferSurface) : Prop := {
  ok_width : 0 < fb_width s ≤ fb_stride s;
  ok_height : 0 < fb_height s;
  ok_fits : fb_stride s * fb_height s ≤ len (pixels s);
  ok_bytes : fb_stride s * fb_height s * 4 < 2 ^ 64;
  ok_cols : fb_cols s = fb_width s / 16 ∧ 0 < fb_cols s;
  ok_rows : fb_rows s = fb_height s / 16 ∧ 0 < fb_rows s
}.

Definition px (s : FramebufferSurface) (x y : Z) : option Z := pixels s !! Z.to_nat (y * fb_stride s + x).

(** The same framebuffer, whatever is in it. *)
Definition same_fb (s s' : FramebufferSurface) : Prop := with_pixels s' (pixels s) = s ∧ len (pixels s') = len (pixels s).

Lemma same_fb_refl s : same_fb s s.
Proof. by destruct s. Qed.

Lemma same_fb_trans s1 s2 s3 : same_fb s1 s2 → same_fb s2 s3 → same_fb s1 s3.
Proof. destruct s1, s2, s3. unfold same_fb, with_pixels. simpl. intros [[=] ?] [[=] ?]. split; [congruence|lia]. Qed.

Lemma same_fb_fields s s' : same_fb s s' → fb_width s' = fb_width s ∧ fb_height s' = fb_height s ∧ fb_stride s' = fb_stride s ∧
  fb_cols s' = fb_cols s ∧ fb_rows s' = fb_rows s ∧ len (pixels s') = len (pixels s).
Proof. destruct s, s'. unfold same_fb, with_pixels. simpl. intros [[=] ?]. by subst. Qed.

Lemma same_fb_ok s s' : same_fb s s' → fb_ok s → fb_ok s'.
Proof. intros (Ew & Eh & Es & Ec & Er & El)%same_fb_fields [W H F B C R]. split; rewrite ?Ew, ?Eh, ?Es, ?Ec, ?Er, ?El; done. Qed.

(** ** Rectangles *)
Record Rect := { xa : Z; xb : Z; ya : Z; yb : Z }.

Definition inside_rect (r : Rect) (x y : Z) : Prop := xa r ≤ x < xb r ∧ ya r ≤ y < yb r.

#[export] Instance inside_rect_dec r x y : Decision (inside_rect r x y).
Proof. unfold inside_rect. apply _. Defined.

(** The pixels of [r] have the colours of [G]; the others are what they were. *)
Definition drawn (G : Z → Z → Z) (r : Rect) (s s' : FramebufferSurface) : Prop :=
  same_fb s s' ∧
  ∀ i, 0 ≤ i < len (pixels s) → pixels s' !! Z.to_nat i =
    let x := i mod fb_stride s in let y := i / fb_stride s in
    if decide (inside_rect r x y) then Some (G x y) else pixels s !! Z.to_nat i.

Lemma drawn_empty G r s : xb r ≤ xa r ∨ yb r ≤ ya r → drawn G r s s.
Proof. intros He. split; [apply same_fb_refl|]. intros i _. cbv zeta. rewrite decide_False; [done|]. unfold inside_rect. lia. Qed.

(** Two rectangles that make one. *)
Lemma drawn_join G r1 r2 r s1 s2 s3 : (∀ x y, inside_rect r x y ↔ inside_rect r1 x y ∨ inside_rect r2 x y) →
  drawn G r1 s1 s2 → drawn G r2 s2 s3 → drawn G r s1 s3.
Proof.
  intros Hr [Hs1 H1] [Hs2 H2]. split; [by eapply same_fb_trans|]. intros i Hi. cbv zeta.
  destruct (same_fb_fields _ _ Hs1) as (_ & _ & Es & _ & _ & El).
  rewrite H2 by lia. cbv zeta. rewrite Es. specialize (H1 i Hi). cbv zeta in H1.
  destruct (decide (inside_rect r2 _ _)) as [Hin2|Hout2]; [by rewrite decide_True by (apply Hr; by right)|]. rewrite H1.
  destruct (decide (inside_rect r1 _ _)) as [Hin1|Hout1]; [by rewrite decide_True by (apply Hr; by left)|].
  rewrite decide_False; [done|]. intros [|]%Hr; done.
Qed.

Lemma put_pixel_drawn G x y s : fb_ok s → 0 ≤ x < fb_width s → 0 ≤ y < fb_height s →
  ∃ s', Fb.put_pixel x y (G x y) s = (Ok (), s') ∧ drawn G {| xa := x; xb := x + 1; ya := y; yb := y + 1 |} s s'.
Proof.
  intros Hok Hx Hy. pose proof (ok_width s Hok). pose proof (ok_height s Hok). pose proof (ok_fits s Hok). pose proof (ok_bytes s Hok).
  assert (y * fb_stride s + x < fb_stride s * fb_height s) as Hlt by nia.
  assert (0 ≤ y * fb_stride s) by nia.
  unfold Fb.put_pixel. rewrite (proj2 (Z.ltb_lt x _)), (proj2 (Z.ltb_lt y _)) by lia. cbn [andb negb]. unfold wrap. rewrite (Z.mod_small (y * fb_stride s)) by lia. rewrite Z.mod_small by lia.
  rewrite (proj2 (Z.ltb_lt _ _)) by lia. eexists. split; [done|]. split.
  - unfold same_fb, with_pixels, len. simpl. rewrite length_insert. by destruct s.
  - intros i Hi. cbv zeta. cbn [pixels with_pixels].
    destruct (decide (i = y * fb_stride s + x)) as [->|Hne].
    + rewrite list_lookup_insert_eq by (unfold len in *; lia).
      assert ((y * fb_stride s + x) mod fb_stride s = x) as Em by (rewrite Z.add_comm, Z.mod_add by lia; apply Z.mod_small; lia).
      assert ((y * fb_stride s + x) / fb_stride s = y) as Ed by (rewrite Z.add_comm, Z.div_add, Z.div_small by lia; lia).
      rewrite Em, Ed, decide_True; [done|]. unfold inside_rect. simpl. lia.
    + rewrite list_lookup_insert_ne by lia. rewrite decide_False; [done|]. unfold inside_rect. simpl.
      pose proof (Z.div_mod i (fb_stride s) ltac:(lia)). intros [Hix Hiy]. apply Hne.
      assert (i mod fb_stride s = x) by lia. assert (i / fb_stride s = y) by lia. nia.
Qed.

(** Rows of rectangles, and columns. *)
Lemma drawn_across G k ya yb x0 lo n (f : Z → dev FramebufferSurface Empty_set ()) s : 0 ≤ n → 0 ≤ k → fb_ok s →
  (∀ i s1, lo ≤ i < lo + n → fb_ok s1 → same_fb s s1 → ∃ s', f i s1 = (Ok (), s') ∧
    drawn G {| xa := x0 + k * i; xb := x0 + k * (i + 1); ya := ya; yb := yb |} s1 s') →
  ∃ s', for_in (seqZ lo n) (λ _, f) () s = (Ok (), s') ∧ drawn G {| xa := x0 + k * lo; xb := x0 + k * (lo + n); ya := ya; yb := yb |} s s'.
Proof.
  intros Hn Hk Hok Hf.
  destruct (for_range_ind (λ i (_ : ()) s', drawn G {| xa := x0 + k * lo; xb := x0 + k * i; ya := ya; yb := yb |} s s')
    lo n (λ _, f) () s Hn) as ([] & s' & E & Hd); [by apply drawn_empty; simpl; lia| |by exists s'].
  intros i [] s1 Hi Hd. destruct (Hf i s1 Hi) as (s2 & E & Hd2); [by eapply same_fb_ok; [apply Hd|]|apply Hd|].
  exists (), s2. split; [done|]. eapply drawn_join; [|exact Hd|exact Hd2]. unfold inside_rect. simpl. nia.
Qed.

Lemma drawn_down G k xa xb y0 lo n (f : Z → dev FramebufferSurface Empty_set ()) s : 0 ≤ n → 0 ≤ k → fb_ok s →
  (∀ i s1, lo ≤ i < lo + n → fb_ok s1 → same_fb s s1 → ∃ s', f i s1 = (Ok (), s') ∧
    drawn G {| xa := xa; xb := xb; ya := y0 + k * i; yb := y0 + k * (i + 1) |} s1 s') →
  ∃ s', for_in (seqZ lo n) (λ _, f) () s = (Ok (), s') ∧ drawn G {| xa := xa; xb := xb; ya := y0 + k * lo; yb := y0 + k * (lo + n) |} s s'.
Proof.
  intros Hn Hk Hok Hf.
  destruct (for_range_ind (λ i (_ : ()) s', drawn G {| xa := xa; xb := xb; ya := y0 + k * lo; yb := y0 + k * i |} s s')
    lo n (λ _, f) () s Hn) as ([] & s' & E & Hd); [by apply drawn_empty; simpl; lia| |by exists s'].
  intros i [] s1 Hi Hd. destruct (Hf i s1 Hi) as (s2 & E & Hd2); [by eapply same_fb_ok; [apply Hd|]|apply Hd|].
  exists (), s2. split; [done|]. eapply drawn_join; [|exact Hd|exact Hd2]. unfold inside_rect. simpl. nia.
Qed.

(** ** What the framebuffer's operations draw *)
Lemma fill_drawn s a b color : fb_ok s → 0 ≤ a ≤ b → b ≤ fb_height s →
  ∃ s', Fb.fill_pixel_rows a b color s = (Ok (), s') ∧
    drawn (λ _ _, color) {| xa := 0; xb := fb_width s; ya := a; yb := b |} s s'.
Proof.
  intros Hok Ha Hb. unfold Fb.fill_pixel_rows. rewrite dev_bind_run. cbn [get]. unfold Fb.up_to. pose proof (ok_width s Hok).
  destruct (drawn_down (λ _ _, color) 1 0 (fb_width s) 0 a (b - a)
    (λ y, for_in (seqZ 0 (fb_width s - 0)) (λ _ x, Fb.put_pixel x y color) ()) s) as (s' & E & Hd); [lia|lia|done| |].
  - intros y s1 Hy Hok1 (Ew & Eh & _)%same_fb_fields.
    destruct (drawn_across (λ _ _, color) 1 (0 + 1 * y) (0 + 1 * (y + 1)) 0 0 (fb_width s - 0) (λ x, Fb.put_pixel x y color) s1)
      as (s2 & E & Hd); [lia|lia|done| |].
    + intros x s2 Hx Hok2 (Ew2 & Eh2 & _)%same_fb_fields.
      destruct (put_pixel_drawn (λ _ _, color) x y s2 Hok2) as (s3 & E & Hd); [lia|lia|]. exists s3. split; [exact E|].
      by replace (0 + 1 * x) with x by lia; replace (0 + 1 * (x + 1)) with (x + 1) by lia; replace (0 + 1 * y) with y by lia;
        replace (0 + 1 * (y + 1)) with (y + 1) by lia.
    + exists s2. split; [exact E|]. by replace (0 + 1 * 0) with 0 in Hd by lia; replace (0 + 1 * (0 + (fb_width s - 0))) with (fb_width s) in Hd by lia.
  - exists s'. split; [exact E|]. by replace (0 + 1 * a) with a in Hd by lia; replace (0 + 1 * (a + (b - a))) with b in Hd by lia.
Qed.

Lemma drawn_as G r r' s s' : drawn G r s s' → r = r' → drawn G r' s s'.
Proof. by intros ? <-. Qed.

Ltac as_rect Hd := eapply drawn_as; [exact Hd|f_equal; lia].

(** ** Glyphs *)
Definition bit_color (bits n : Z) : Z := if Z.land bits (Z.shiftl 1 n) =? 0 then BACKGROUND else FOREGROUND.

(** The colour of a pixel of a cell, from the cell's corner. *)
Definition glyph_pixel (glyph : list Z) (x y : Z) : Z := bit_color (nth (Z.to_nat (y / 2)) glyph 0) (x / 2).

Section font.
  Context (BASIC_LEGACY : list (list Z)).
  (** The table of the font's crate: 128 characters of eight rows. *)
  Hypothesis font_ok : length BASIC_LEGACY = 128%nat ∧ Forall (λ g, length g = 8%nat) BASIC_LEGACY.

Lemma glyph_rows byte : 0 ≤ byte → len (Fb.glyph_for BASIC_LEGACY byte) = 8.
Proof.
  intros Hb. destruct font_ok as [Hn Hg]. unfold Fb.glyph_for, len. set (i := if byte <? 128 then byte else 0x3F).
  assert (Z.to_nat i < length BASIC_LEGACY)%nat as Hi by (unfold i; destruct (Z.ltb_spec byte 128); lia).
  rewrite Forall_forall in Hg. by rewrite Hg by (by apply list_elem_of_In, nth_In).
Qed.

Lemma pixel_of_block x0 y0 gx gy dx dy g : 0 ≤ gx → 0 ≤ gy → 0 ≤ dx < 2 → 0 ≤ dy < 2 →
  glyph_pixel g (x0 + gx * 2 + dx - x0) (y0 + gy * 2 + dy - y0) = bit_color (nth (Z.to_nat gy) g 0) gx.
Proof.
  intros Hx Hy Hdx Hdy. unfold glyph_pixel. replace (x0 + gx * 2 + dx - x0) with (dx + gx * 2) by lia.
  replace (y0 + gy * 2 + dy - y0) with (dy + gy * 2) by lia. rewrite !Z.div_add, !Z.div_small by lia. done.
Qed.

(** A dot of the font is two pixels by two. *)
Lemma dot_drawn s x0 y0 gx gy g : fb_ok s → 0 ≤ x0 → 0 ≤ y0 → 0 ≤ gx < 8 → 0 ≤ gy < 8 →
  x0 + 16 ≤ fb_width s → y0 + 16 ≤ fb_height s →
  ∃ s', for_in (seqZ 0 2) (λ _ dy, for_in (seqZ 0 2) (λ _ dx,
      Fb.put_pixel (x0 + gx * SCALE + dx) (y0 + gy * SCALE + dy) (bit_color (nth (Z.to_nat gy) g 0) gx)) ()) () s = (Ok (), s') ∧
    drawn (λ x y, glyph_pixel g (x - x0) (y - y0))
      {| xa := x0 + 2 * gx; xb := x0 + 2 * (gx + 1); ya := y0 + 2 * gy; yb := y0 + 2 * (gy + 1) |} s s'.
Proof.
  intros Hok Hx0 Hy0 Hgx Hgy Hw Hh. set (G := λ x y, glyph_pixel g (x - x0) (y - y0)).
  destruct (drawn_down G 1 (x0 + 2 * gx) (x0 + 2 * (gx + 1)) (y0 + 2 * gy) 0 2
    (λ dy, for_in (seqZ 0 2) (λ _ dx,
      Fb.put_pixel (x0 + gx * SCALE + dx) (y0 + gy * SCALE + dy) (bit_color (nth (Z.to_nat gy) g 0) gx)) ()) s)
    as (s' & E & Hd); [lia|lia|done| |exists s'; split; [exact E|as_rect Hd]].
  intros dy s1 Hdy Hok1 (Ew & Eh & _)%same_fb_fields.
  destruct (drawn_across G 1 (y0 + 2 * gy + 1 * dy) (y0 + 2 * gy + 1 * (dy + 1)) (x0 + 2 * gx) 0 2
    (λ dx, Fb.put_pixel (x0 + gx * SCALE + dx) (y0 + gy * SCALE + dy) (bit_color (nth (Z.to_nat gy) g 0) gx)) s1)
    as (s' & E & Hd); [lia|lia|done| |exists s'; split; [exact E|as_rect Hd]].
  intros dx s2 Hdx Hok2 (Ew2 & Eh2 & _)%same_fb_fields. unfold SCALE.
  rewrite <-(pixel_of_block x0 y0 gx gy dx dy g) by lia.
  destruct (put_pixel_drawn G (x0 + gx * 2 + dx) (y0 + gy * 2 + dy) s2 Hok2) as (s3 & E & Hd); [lia|lia|].
  exists s3. split; [exact E|as_rect Hd].
Qed.

Lemma glyph_drawn s c r byte : fb_ok s → 0 ≤ c < fb_cols s → 0 ≤ r < fb_rows s → 0 ≤ byte →
  ∃ s', Fb.draw_glyph BASIC_LEGACY c r byte s = (Ok (), s') ∧
    drawn (λ x y, glyph_pixel (Fb.glyph_for BASIC_LEGACY byte) (x - c * 16) (y - r * 16))
      {| xa := c * 16; xb := (c + 1) * 16; ya := r * 16; yb := (r + 1) * 16 |} s s'.
Proof.
  intros Hok Hc Hr Hb. unfold Fb.draw_glyph. rewrite dev_bind_run. cbn [get]. pose proof (glyph_rows byte Hb) as Hlen.
  rewrite (proj2 (Z.leb_gt _ _)), (proj2 (Z.leb_gt (fb_rows s) _)) by lia. cbn [orb]. cbv zeta.
  set (g := Fb.glyph_for BASIC_LEGACY byte) in *.
  destruct (ok_cols s Hok) as [Ec _], (ok_rows s Hok) as [Er _]. pose proof (ok_bytes s Hok). pose proof (ok_width s Hok). pose proof (ok_height s Hok).
  pose proof (Z.div_mod (fb_width s) 16 ltac:(lia)). pose proof (Z.mod_pos_bound (fb_width s) 16 ltac:(lia)).
  pose proof (Z.div_mod (fb_height s) 16 ltac:(lia)). pose proof (Z.mod_pos_bound (fb_height s) 16 ltac:(lia)).
  assert (c * 16 + 16 ≤ fb_width s) as Hcw by lia. assert (r * 16 + 16 ≤ fb_height s) as Hrh by lia.
  assert (fb_width s < 2 ^ 64) by nia. assert (fb_height s < 2 ^ 64) by nia.
  change CELL_PIXELS with 16. unfold wrap. rewrite (Z.mod_small (c * 16)), (Z.mod_small (r * 16)) by lia.
  unfold Fb.up_to. rewrite Z.sub_0_r. unfold len.
  rewrite (for_in_enumerate g 0 (λ _ gy bits, for_in (seqZ 0 (GLYPH_PIXELS - 0)) (λ _ gx, for_in (seqZ 0 (SCALE - 0)) (λ _ dy,
    for_in (seqZ 0 (SCALE - 0)) (λ _ dx, Fb.put_pixel (c * 16 + gx * SCALE + dx) (r * 16 + gy * SCALE + dy) (bit_color bits gx)) ()) ()) ()) 0).
  fold (len g). rewrite Hlen. set (G := λ x y, glyph_pixel g (x - c * 16) (y - r * 16)).
  destruct (drawn_down G 2 (c * 16) ((c + 1) * 16) (r * 16) 0 8
    (λ gy, for_in (seqZ 0 8) (λ _ gx, for_in (seqZ 0 2) (λ _ dy, for_in (seqZ 0 2) (λ _ dx,
      Fb.put_pixel (c * 16 + gx * SCALE + dx) (r * 16 + gy * SCALE + dy) (bit_color (nth (Z.to_nat (gy - 0)) g 0) gx)) ()) ()) ()) s)
    as (s' & E & Hd); [lia|lia|done| |exists s'; split; [exact E|as_rect Hd]].
  intros gy s1 Hgy Hok1 (Ew & Eh & _)%same_fb_fields. rewrite Z.sub_0_r.
  destruct (drawn_across G 2 (r * 16 + 2 * gy) (r * 16 + 2 * (gy + 1)) (c * 16) 0 8
    (λ gx, for_in (seqZ 0 2) (λ _ dy, for_in (seqZ 0 2) (λ _ dx,
      Fb.put_pixel (c * 16 + gx * SCALE + dx) (r * 16 + gy * SCALE + dy) (bit_color (nth (Z.to_nat gy) g 0) gx)) ()) ()) s1)
    as (s' & E & Hd); [lia|lia|done| |exists s'; split; [exact E|as_rect Hd]].
  intros gx s2 Hgx Hok2 (Ew2 & Eh2 & _)%same_fb_fields. apply dot_drawn; (done || lia).
Qed.

(** Pixels by their place. *)
Lemma pixel_index s x y : 0 ≤ x < fb_stride s → 0 ≤ y →
  (y * fb_stride s + x) mod fb_stride s = x ∧ (y * fb_stride s + x) / fb_stride s = y.
Proof.
  intros Hx Hy. rewrite Z.add_comm. split; [rewrite Z.mod_add by lia; apply Z.mod_small; lia|].
  rewrite Z.div_add, Z.div_small by lia. lia.
Qed.

Lemma drawn_px G r s s' x y : fb_ok s → drawn G r s s' → 0 ≤ x < fb_stride s → 0 ≤ y < fb_height s →
  px s' x y = if decide (inside_rect r x y) then Some (G x y) else px s x y.
Proof.
  intros Hok [Hs Hd] Hx Hy. destruct (same_fb_fields _ _ Hs) as (_ & _ & Es & _). pose proof (ok_fits s Hok).
  unfold px. rewrite Es, Hd by nia. cbv zeta. by destruct (pixel_index s x y Hx (proj1 Hy)) as [-> ->].
Qed.

(** The memory behind the last row. *)
Definition beyond (s s' : FramebufferSurface) : Prop :=
  ∀ i, fb_stride s * fb_height s ≤ i → pixels s' !! Z.to_nat i = pixels s !! Z.to_nat i.

Lemma beyond_refl s : beyond s s.
Proof. done. Qed.
Lemma beyond_trans s1 s2 s3 : same_fb s1 s2 → beyond s1 s2 → beyond s2 s3 → beyond s1 s3.
Proof. intros (_ & Eh & Es & _)%same_fb_fields H1 H2 i Hi. rewrite H2 by (by rewrite Es, Eh). by apply H1. Qed.

Lemma drawn_beyond G r s s' : fb_ok s → drawn G r s s' → yb r ≤ fb_height s → beyond s s'.
Proof.
  intros Hok [Hs Hd] Hy i Hi. pose proof (ok_width s Hok). pose proof (ok_height s Hok).
  assert (0 ≤ i) by nia. destruct (decide (i < len (pixels s))) as [Hlt|Hge].
  - rewrite Hd by lia. cbv zeta. rewrite decide_False; [done|]. intros [_ Hin].
    assert (fb_height s ≤ i / fb_stride s) by (apply Z.div_le_lower_bound; lia). lia.
  - destruct (same_fb_fields _ _ Hs) as (_ & _ & _ & _ & _ & El). unfold len in *.
    by rewrite !(proj2 (lookup_ge_None _ _)) by lia.
Qed.

(** ** Scrolling *)
Lemma copy_run s n k : fb_ok s → 0 ≤ n → 0 ≤ k → k + n ≤ len (pixels s) →
  ∃ s', Fb.copy_pixels k 0 n s = (Ok (), s') ∧ same_fb s s' ∧
    ∀ i, 0 ≤ i → pixels s' !! Z.to_nat i = if i <? n then pixels s !! Z.to_nat (i + k) else pixels s !! Z.to_nat i.
Proof.
  intros Hok Hn Hk Hle. unfold Fb.copy_pixels. destruct (slice (pixels s) k (k + n)) as [src|] eqn:Esl.
  2:{ by rewrite slice_Some in Esl by lia. }
  destruct (slice_inv _ _ _ _ Esl) as (_ & _ & Elen & _). rewrite copy_at_Some by lia.
  eexists. split; [done|]. unfold len in *. split.
  - unfold same_fb, with_pixels, len. simpl. split; [by destruct s|]. exact (len_splice (pixels s) 0 src ltac:(lia)).
  - intros i Hi. cbn [pixels with_pixels]. rewrite splice_lookup by lia. destruct (Z.ltb_spec i n).
    + rewrite decide_True by lia. rewrite (slice_lookup _ _ _ _ _ Esl) by lia. f_equal. lia.
    + by rewrite decide_False by lia.
Qed.

Lemma scroll_run s : fb_ok s →
  ∃ s', Fb.scroll_up_one_row s = (Ok (), s') ∧ same_fb s s' ∧ beyond s s' ∧
    ∀ x y, 0 ≤ x < fb_width s → 0 ≤ y < fb_height s → px s' x y =
      if decide (y < fb_rows s * 16 - 16) then px s x (y + 16)
      else if decide (y < fb_rows s * 16) then Some BACKGROUND else px s x y.
Proof.
  intros Hok. unfold Fb.scroll_up_one_row. rewrite dev_bind_run. cbn [get]. cbv zeta. change CELL_PIXELS with 16.
  destruct (ok_rows s Hok) as [Er Hr]. pose proof (ok_width s Hok). pose proof (ok_height s Hok). pose proof (ok_fits s Hok).
  assert (fb_rows s * 16 ≤ fb_height s) as Hth by (rewrite Er; pose proof (Z.mul_div_le (fb_height s) 16); lia).
  destruct (copy_run s ((fb_rows s * 16 - 16) * fb_stride s) (16 * fb_stride s)) as (s1 & E1 & Hs1 & Hp); [done|nia|nia|nia|].
  rewrite (dev_bind_Ok _ _ _ _ _ E1). destruct (same_fb_fields _ _ Hs1) as (Ew & Eh & Es & Ec & Erows & El).
  destruct (fill_drawn s1 (fb_rows s * 16 - 16) (fb_rows s * 16) BACKGROUND) as (s2 & E2 & Hd); [by eapply same_fb_ok|lia|lia|].
  exists s2. split; [exact E2|]. split; [by eapply same_fb_trans; [|apply Hd]|]. split.
  - eapply beyond_trans; [exact Hs1| |eapply drawn_beyond; [by eapply same_fb_ok|exact Hd|simpl; lia]].
    intros i Hi. rewrite Hp by nia. by rewrite (proj2 (Z.ltb_ge _ _)) by nia.
  - intros x y Hx Hy. rewrite (drawn_px _ _ _ _ _ _ (same_fb_ok _ _ Hs1 Hok) Hd) by lia. unfold inside_rect. cbn [xa xb ya yb]. rewrite Ew.
    unfold px. rewrite Es, Hp by nia. destruct (decide (y < fb_rows s * 16 - 16)).
    + rewrite decide_False by lia. rewrite (proj2 (Z.ltb_lt _ _)) by nia. f_equal. nia.
    + destruct (decide (y < fb_rows s * 16)); [by rewrite decide_True by lia|]. rewrite decide_False by lia.
      by rewrite (proj2 (Z.ltb_ge _ _)) by nia.
Qed.

(** ** The terminal *)
Record Screen := { s_row : Z; s_col : Z; cells : Z → Z → option Z }.

Definition cell_pixel (c : option Z) (x y : Z) : Z :=
  match c with Some b => glyph_pixel (Fb.glyph_for BASIC_LEGACY b) x y | None => BACKGROUND end.

Definition screen_pixel (nc nr : Z) (cells : Z → Z → option Z) (x y : Z) : Z :=
  if (x / 16 <? nc) && (y / 16 <? nr) then cell_pixel (cells (y / 16) (x / 16)) (x mod 16) (y mod 16) else BACKGROUND.

(** Every visible pixel is the screen's. *)
Definition shows (s : FramebufferSurface) (cells : Z → Z → option Z) : Prop :=
  ∀ x y, 0 ≤ x < fb_width s → 0 ≤ y < fb_height s → px s x y = Some (screen_pixel (fb_cols s) (fb_rows s) cells x y).

Definition put_cell (r c b : Z) (cells : Z → Z → option Z) : Z → Z → option Z :=
  λ r' c', if decide (r' = r ∧ c' = c) then Some b else cells r' c'.

Definition shift_up (nr : Z) (cells : Z → Z → option Z) : Z → Z → option Z :=
  λ r c, if r <? nr - 1 then cells (r + 1) c else None.

Lemma glyph_shows s s' cells r c b : fb_ok s → shows s cells → 0 ≤ c < fb_cols s → 0 ≤ r < fb_rows s →
  drawn (λ x y, glyph_pixel (Fb.glyph_for BASIC_LEGACY b) (x - c * 16) (y - r * 16))
    {| xa := c * 16; xb := (c + 1) * 16; ya := r * 16; yb := (r + 1) * 16 |} s s' →
  shows s' (put_cell r c b cells).
Proof.
  intros Hok Hsh Hc Hr Hd x y Hx Hy. destruct (same_fb_fields _ _ (proj1 Hd)) as (Ew & Eh & Es & Ec & Er & El).
  rewrite Ew, Eh in *. pose proof (ok_width s Hok). rewrite Ec, Er, (drawn_px _ _ _ _ _ _ Hok Hd) by lia. unfold inside_rect, screen_pixel, put_cell. cbn [xa xb ya yb].
  pose proof (Z.div_mod x 16 ltac:(lia)). pose proof (Z.mod_pos_bound x 16 ltac:(lia)).
  pose proof (Z.div_mod y 16 ltac:(lia)). pose proof (Z.mod_pos_bound y 16 ltac:(lia)).
  destruct (decide (y / 16 = r ∧ x / 16 = c)) as [[<- <-]|Hne].
  - rewrite decide_True by lia. rewrite (proj2 (Z.ltb_lt _ _)), (proj2 (Z.ltb_lt (y / 16) _)) by lia. cbn [andb cell_pixel].
    do 2 f_equal; lia.
  - rewrite decide_False by lia. by rewrite Hsh by lia.
Qed.

Lemma scroll_shows s cells : fb_ok s → shows s cells →
  ∃ s', Fb.scroll_up_one_row s = (Ok (), s') ∧ same_fb s s' ∧ beyond s s' ∧ shows s' (shift_up (fb_rows s) cells).
Proof.
  intros Hok Hsh. destruct (scroll_run s Hok) as (s' & E & Hs & Hb & Hp). exists s'. split_and!; try done.
  intros x y Hx Hy. destruct (same_fb_fields _ _ Hs) as (Ew & Eh & Es & Ec & Er & El). rewrite Ew, Eh in *. rewrite Ec, Er, Hp by lia.
  destruct (ok_rows s Hok) as [Erows Hr]. pose proof (Z.mul_div_le (fb_height s) 16 ltac:(lia)).
  pose proof (Z.div_mod y 16 ltac:(lia)). pose proof (Z.mod_pos_bound y 16 ltac:(lia)).
  unfold screen_pixel, shift_up. destruct (decide (y < fb_rows s * 16 - 16)).
  - rewrite Hsh by lia. unfold screen_pixel. replace (y + 16) with (y + 1 * 16) by lia. rewrite Z.div_add, Z.mod_add by lia.
    rewrite (proj2 (Z.ltb_lt (y / 16) (fb_rows s))), (proj2 (Z.ltb_lt (y / 16 + 1) _)), (proj2 (Z.ltb_lt (y / 16) (fb_rows s - 1))) by lia. done.
  - destruct (decide (y < fb_rows s * 16)).
    + rewrite (proj2 (Z.ltb_ge (y / 16) (fb_rows s - 1))) by lia. by destruct ((_ <? _) && _).
    + rewrite Hsh by lia. unfold screen_pixel. rewrite (proj2 (Z.ltb_ge (y / 16) (fb_rows s))) by lia. by rewrite andb_false_r.
Qed.

Lemma clear_shows s : fb_ok s → ∃ s', Fb.clear s = (Ok (), s') ∧ same_fb s s' ∧ beyond s s' ∧ shows s' (λ _ _, None).
Proof.
  intros Hok. unfold Fb.clear. rewrite dev_bind_run. cbn [get]. pose proof (ok_height s Hok). pose proof (ok_width s Hok).
  destruct (fill_drawn s 0 (fb_height s) BACKGROUND Hok) as (s' & E & Hd); [lia|lia|]. exists s'. split; [exact E|].
  destruct (same_fb_fields _ _ (proj1 Hd)) as (Ew & Eh & Es & Ec & Er & El).
  split; [apply Hd|]. split; [eapply drawn_beyond; [done|exact Hd|simpl; lia]|]. intros x y Hx Hy. rewrite Ew, Eh in *.
  rewrite (drawn_px _ _ _ _ _ _ Hok Hd) by lia. rewrite decide_True by (unfold inside_rect; simpl; lia).
  unfold screen_pixel. by destruct ((_ <? _) && _).
Qed.

Definition term_newline (nr : Z) (s : Screen) : Screen :=
  if nr <=? s_row s + 1 then {| s_row := s_row s; s_col := 0; cells := shift_up nr (cells s) |}
  else {| s_row := s_row s + 1; s_col := 0; cells := cells s |}.

Definition term_back (nc : Z) (s : Screen) : Screen :=
  if 0 <? s_col s then {| s_row := s_row s; s_col := s_col s - 1; cells := cells s |}
  else if 0 <? s_row s then {| s_row := s_row s - 1; s_col := nc - 1; cells := cells s |}
  else s.

Definition term_type (nc nr b : Z) (s : Screen) : Screen :=
  let s := if nc <=? s_col s then term_newline nr s else s in
  {| s_row := s_row s; s_col := s_col s + 1; cells := put_cell (s_row s) (s_col s) b (cells s) |}.

(** What a byte does to a terminal of [nc] columns and [nr] rows. *)
Definition term_byte (nc nr : Z) (s : Screen) (b : Z) : Screen :=
  if b =? 0x0A then term_newline nr s
  else if b =? 0x0D then {| s_row := s_row s; s_col := 0; cells := cells s |}
  else if b =? 0x08 then term_back nc s
  else term_type nc nr b s.

(** ** The console shows the terminal *)
#[local] Instance on_fb : Surface FramebufferSurface := Fb.framebuffer BASIC_LEGACY.

Record console_shows_screen (t : TextConsole FramebufferSurface) (s : Screen) : Prop := {
  cs_ok : fb_ok (surface t);
  cs_row : row t = s_row s ∧ 0 ≤ s_row s < fb_rows (surface t);
  cs_col : col t = s_col s ∧ 0 ≤ s_col s ≤ fb_cols (surface t);
  cs_shows : shows (surface t) (cells s)
}.

Definition moved (t t' : TextConsole FramebufferSurface) : Prop :=
  same_fb (surface t) (surface t') ∧ beyond (surface t) (surface t').

Lemma moved_refl t t' : surface t' = surface t → moved t t'.
Proof. intros E. unfold moved. rewrite E. split; [apply same_fb_refl|done]. Qed.

Lemma moved_trans t1 t2 t3 : moved t1 t2 → moved t2 t3 → moved t1 t3.
Proof. intros [S1 B1] [S2 B2]. split; [by eapply same_fb_trans|by eapply beyond_trans]. Qed.

Lemma small_screen s : fb_ok s → fb_cols s < 2 ^ 60 ∧ fb_rows s < 2 ^ 60.
Proof.
  intros Hok. destruct (ok_cols s Hok) as [Ec _], (ok_rows s Hok) as [Er _]. pose proof (ok_bytes s Hok). pose proof (ok_width s Hok). pose proof (ok_height s Hok).
  assert (fb_width s * 4 < 2 ^ 64) by nia. assert (fb_height s * 4 < 2 ^ 64) by nia.
  pose proof (Z.mul_div_le (fb_width s) 16 ltac:(lia)). pose proof (Z.mul_div_le (fb_height s) 16 ltac:(lia)). lia.
Qed.

Lemma newline_shows t s : console_shows_screen t s →
  ∃ t', Text.newline t = (Ok (), t') ∧ console_shows_screen t' (term_newline (fb_rows (surface t)) s) ∧ moved t t'.
Proof.
  intros [Hok [Hr Hr1] [Hc Hc1] Hsh]. destruct (small_screen _ Hok) as [Hcs Hrs]. pose proof (proj2 (ok_cols _ Hok)). unfold Text.newline, term_newline.
  rewrite dev_bind_run. cbn [modify]. rewrite dev_bind_run. cbn [get Text.set_cursor surface row]. change (rows (surface t)) with (fb_rows (surface t)).
  unfold wrap. rewrite Hr, Z.mod_small by lia. destruct (Z.leb_spec (fb_rows (surface t)) (s_row s + 1)).
  - destruct (scroll_shows _ _ Hok Hsh) as (sf & E & Hs & Hb & Hsh'). unfold Text.on_surface. cbn [surface Text.set_cursor col row].
    change (scroll_up_one_row (surface t)) with (Fb.scroll_up_one_row (surface t)). rewrite E.
    destruct (same_fb_fields _ _ Hs) as (Ew & Eh & Es & Ec & Er & El).
    eexists. split; [done|]. split; [|by split]. split; cbn [surface row col s_row s_col cells Text.set_cursor]; [by eapply same_fb_ok|rewrite Er; lia|rewrite Ec; lia|done].
  - eexists. split; [done|]. split; [|by apply moved_refl]. split; cbn [surface row col s_row s_col cells Text.set_cursor]; [done|rewrite ?Hr, ?Z.mod_small by lia; lia|lia|done].
Qed.

Lemma back_shows t s : console_shows_screen t s →
  ∃ t', Text.backspace t = (Ok (), t') ∧ console_shows_screen t' (term_back (fb_cols (surface t)) s) ∧ moved t t'.
Proof.
  intros [Hok [Hr Hr1] [Hc Hc1] Hsh]. destruct (small_screen _ Hok) as [Hcs Hrs]. pose proof (proj2 (ok_cols _ Hok)). unfold Text.backspace, term_back, modify.
  eexists. split; [done|]. rewrite Hc, Hr. destruct (Z.ltb_spec 0 (s_col s)), (Z.ltb_spec 0 (s_row s)); (split; [|by apply moved_refl]);
    split; cbn [surface row col s_row s_col cells Text.set_cursor]; try done; try lia.
  all: change (cols (surface t)) with (fb_cols (surface t)); unfold wrap; rewrite Z.mod_small by lia; lia.
Qed.

Lemma type_shows t s b : console_shows_screen t s → 0 ≤ b →
  ∃ t', (t0 ← get; _ ← (if cols (surface t0) <=? col t0 then Text.newline else mret ());
    t1 ← get; _ ← Text.on_surface (draw_glyph (col t1) (row t1) b);
    modify (λ t, Text.set_cursor (row t) (wrap 64 (col t + 1)) t)) t = (Ok (), t') ∧
    console_shows_screen t' (term_type (fb_cols (surface t)) (fb_rows (surface t)) b s) ∧ moved t t'.
Proof.
  intros Hcs Hb. rewrite dev_bind_run. cbn [get]. pose proof (proj1 (cs_col _ _ Hcs)) as Hc. change (cols (surface t)) with (fb_cols (surface t)).
  assert (∃ t1, (if fb_cols (surface t) <=? col t then Text.newline else mret ()) t = (Ok (), t1) ∧
    console_shows_screen t1 (if fb_cols (surface t) <=? s_col s then term_newline (fb_rows (surface t)) s else s) ∧ moved t t1 ∧ col t1 < fb_cols (surface t))
    as (t1 & E1 & Hcs1 & Hm1 & Hlt).
  { rewrite Hc. destruct (Z.leb_spec (fb_cols (surface t)) (s_col s)).
    - destruct (newline_shows t s Hcs) as (t1 & E & H1 & Hm). exists t1. split_and!; try done.
      rewrite (proj1 (cs_col _ _ H1)). unfold term_newline. pose proof (proj2 (ok_cols _ (cs_ok _ _ Hcs))). destruct (_ <=? _); simpl; lia.
    - exists t. split_and!; try done; [by apply moved_refl|lia]. }
  rewrite (dev_bind_Ok _ _ _ _ _ E1), dev_bind_run. cbn [get]. unfold term_type. set (s1 := if fb_cols (surface t) <=? s_col s then _ else _) in *. cbv zeta.
  destruct (same_fb_fields _ _ (proj1 Hm1)) as (Ew & Eh & Es & Ec & Er & El).
  destruct Hcs1 as [Hok [Hr1 Hr] [Hc1 Hcr] Hsh]. rewrite <-Ec in Hlt. destruct (small_screen _ Hok) as [Hcs2 Hrs2].
  destruct (glyph_drawn (surface t1) (col t1) (row t1) b Hok) as (sf & E & Hd); [lia|lia|done|].
  rewrite dev_bind_run. unfold Text.on_surface. change (draw_glyph (col t1) (row t1) b (surface t1)) with (Fb.draw_glyph BASIC_LEGACY (col t1) (row t1) b (surface t1)).
  rewrite E. cbn [modify]. eexists. split; [done|]. destruct (same_fb_fields _ _ (proj1 Hd)) as (Ew2 & Eh2 & Es2 & Ec2 & Er2 & El2).
  split; [|eapply moved_trans; [exact Hm1|]].
  - split; cbn [surface row col s_row s_col cells Text.set_cursor].
    + by eapply same_fb_ok; [apply Hd|].
    + rewrite Er2. lia.
    + rewrite Ec2. unfold wrap. rewrite Z.mod_small by lia. lia.
    + rewrite <-Hr1, <-Hc1. eapply glyph_shows; [exact Hok|exact Hsh|lia|lia|exact Hd].
  - split; cbn [surface Text.set_cursor]; [apply Hd|]. eapply drawn_beyond; [done|exact Hd|]. simpl.
    destruct (ok_rows _ Hok) as [Erows _]. pose proof (Z.mul_div_le (fb_height (surface t1)) 16 ltac:(lia)). lia.
Qed.

Lemma byte_shows t s b : console_shows_screen t s → 0 ≤ b →
  ∃ t', Text.put_byte b t = (Ok (), t') ∧ console_shows_screen t' (term_byte (fb_cols (surface t)) (fb_rows (surface t)) s b) ∧ moved t t'.
Proof.
  intros Hcs Hb. unfold Text.put_byte, term_byte. destruct (b =? 0x0A); [by apply newline_shows|].
  destruct (b =? 0x0D).
  - destruct Hcs as [Hok Hr [Hc Hc1] Hsh]. eexists. split; [done|]. split; [|by apply moved_refl]. split; try done.
    cbn [surface row col s_row s_col cells Text.set_cursor]. pose proof (ok_cols _ Hok). lia.
  - destruct (b =? 0x08); [by apply back_shows|by apply type_shows].
Qed.

Lemma text_shows text t s : console_shows_screen t s → Forall (λ b, 0 ≤ b) text →
  ∃ t', Text.write_str text t = (Ok (), t') ∧
    console_shows_screen t' (foldl (term_byte (fb_cols (surface t)) (fb_rows (surface t))) s text) ∧ moved t t'.
Proof.
  intros Hcs Htext. revert t s Hcs. induction Htext as [|b text Hb _ IH]; intros t s Hcs; unfold Text.write_str; cbn [for_in foldl].
  - exists t. split_and!; try done. by apply moved_refl.
  - destruct (byte_shows t s b Hcs Hb) as (t1 & E1 & H1 & Hm1). rewrite (dev_bind_Ok _ _ _ _ _ E1).
    destruct (IH t1 _ H1) as (t2 & E2 & H2 & Hm2). exists t2. split; [exact E2|].
    destruct (same_fb_fields _ _ (proj1 Hm1)) as (_ & _ & _ & Ec & Er & _). rewrite Ec, Er in H2. split; [done|by eapply moved_trans].
Qed.

(** ** A console over what the firmware reported *)
Definition info_ok (info : FramebufferInfo) : Prop :=
  in_width 64 (fi_base_addr info) ∧ in_width 32 (fi_width info) ∧ in_width 32 (fi_height info) ∧ in_width 32 (fi_stride info) ∧
  in_width 64 (fi_size_bytes info).

(** A report that does not contradict itself, with room for a character. *)
Definition consistent (info : FramebufferInfo) : Prop :=
  16 ≤ fi_width info ≤ fi_stride info ∧ 16 ≤ fi_height info ∧ fi_stride info * fi_height info * 4 ≤ fi_size_bytes info ∧
  fi_base_addr info mod 4 = 0.

Lemma new_exact info memory : info_ok info → len memory = fi_size_bytes info / 4 →
  match Fb.new info memory with
  | Some s => consistent info ∧ fb_ok s ∧ pixels s = memory ∧ fb_width s = fi_width info ∧ fb_height s = fi_height info ∧
      fb_stride s = fi_stride info ∧ fb_base s = fi_base_addr info
  | None => ¬ consistent info
  end.
Proof.
  intros (Hb & Hw & Hh & Hs & Hz) Hm. unfold Fb.new, consistent, in_width, checked_mul in *.
  assert (fi_stride info * fi_height info < 2 ^ 32 * 2 ^ 32) as Hsh by (apply Z.mul_lt_mono_nonneg; lia).
  rewrite (proj2 (Z.ltb_lt (fi_stride info * fi_height info) _)) by lia. cbn [mbind option_bind].
  destruct (Z.ltb_spec (fi_stride info * fi_height info * 4) (2 ^ 64)); cbn [mbind option_bind]; [|intros (? & ? & ? & ?); lia].
  pose proof (Z.div_mod (fi_width info) 16 ltac:(lia)). pose proof (Z.mod_pos_bound (fi_width info) 16 ltac:(lia)).
  pose proof (Z.div_mod (fi_height info) 16 ltac:(lia)). pose proof (Z.mod_pos_bound (fi_height info) 16 ltac:(lia)).
  pose proof (Z.div_mod (fi_size_bytes info) 4 ltac:(lia)). pose proof (Z.mod_pos_bound (fi_size_bytes info) 4 ltac:(lia)).
  change CELL_PIXELS with 16.
  destruct (Z.eqb_spec (fi_width info) 0); cbn [orb]; [intros (? & ? & ? & ?); lia|]. destruct (Z.eqb_spec (fi_height info) 0); cbn [orb]; [intros (? & ? & ? & ?); lia|].
  destruct (Z.ltb_spec (fi_stride info) (fi_width info)); cbn [orb]; [intros (? & ? & ? & ?); lia|].
  destruct (Z.ltb_spec (fi_size_bytes info) (fi_stride info * fi_height info * 4)); cbn [orb]; [intros (? & ? & ? & ?); lia|].
  destruct (Addr.is_aligned_to (fi_base_addr info) 4) eqn:Ea; unfold Addr.is_aligned_to, is_multiple_of in Ea; cbn [negb orb].
  2:{ intros (_ & _ & _ & Hal). rewrite Hal in Ea. done. }
  destruct (Z.eqb_spec (fi_width info / 16) 0); cbn [orb]; [intros (? & ? & ? & ?); lia|]. destruct (Z.eqb_spec (fi_height info / 16) 0); [intros (? & ? & ? & ?); lia|].
  cbn [fb_width fb_height fb_stride fb_base pixels]. split_and!; try lia; try done.
  split; simpl; lia.
Qed.

Definition blank : Screen := {| s_row := 0; s_col := 0; cells := λ _ _, None |}.

Lemma fresh_console s : fb_ok s → ∃ t, Text.new s = Ok t ∧ console_shows_screen t blank ∧
  same_fb s (surface t) ∧ beyond s (surface t).
Proof.
  intros Hok. destruct (clear_shows s Hok) as (s1 & E & Hs & Hb & Hsh). pose proof (same_fb_ok _ _ Hs Hok) as Hok1.
  exists {| surface := s1; col := 0; row := 0 |}. split; [unfold Text.new; change (clear_surface s) with (Fb.clear s); by rewrite E|].
  split; [|done]. pose proof (proj2 (ok_cols _ Hok1)). pose proof (proj2 (ok_rows _ Hok1)). split; simpl; [done|lia|lia|done].
Qed.

(** C30: A console over any framebuffer the firmware may report is a terminal:
    a report that contradicts itself gives no console; over any other, after
    whatever text has been written, every visible pixel is the one the
    terminal's screen has there (its characters drawn from the font two
    pixels to the dot, rows scrolled up, everything else black), the cursor
    is the terminal's, no byte behind the last row has changed, and nothing
    panics. *)
Theorem console_draws info memory : info_ok info → len memory = fi_size_bytes info / 4 →
  match Fb.new info memory with
  | None => ¬ consistent info
  | Some s => ∃ t, Text.new s = Ok t ∧ ∀ text, bytes_ok text → ∃ t', Text.write_str text t = (Ok (), t') ∧
      let scr := foldl (term_byte (fi_width info / 16) (fi_height info / 16)) blank text in
      (∀ x y, 0 ≤ x < fi_width info → 0 ≤ y < fi_height info →
        px (surface t') x y = Some (screen_pixel (fi_width info / 16) (fi_height info / 16) (cells scr) x y)) ∧
      row t' = s_row scr ∧ col t' = s_col scr ∧
      ∀ i, fi_stride info * fi_height info ≤ i → pixels (surface t') !! Z.to_nat i = memory !! Z.to_nat i
  end.
Proof.
  intros Hi Hm. pose proof (new_exact info memory Hi Hm) as Hnew. destruct (Fb.new info memory) as [s|]; [|done].
  destruct Hnew as (_ & Hok & Hpx & Hw & Hh & Hst & _). destruct (fresh_console s Hok) as (t & Et & Hcs & Hs & Hb).
  destruct (same_fb_fields _ _ Hs) as (Ew & Eh & Es & Ec & Er & El). exists t. split; [exact Et|]. intros text Htext.
  destruct (text_shows text t blank Hcs) as (t' & E' & [Hok2 [Hr _] [Hc _] Hsh2] & [Hs2 Hb2]).
  { eapply Forall_impl; [exact Htext|]. simpl. lia. }
  exists t'. split; [exact E'|]. cbv zeta. cbn [surface] in *.
  destruct (ok_cols _ Hok) as [Hcw _], (ok_rows _ Hok) as [Hrh _].
  rewrite Ec, Er, Hcw, Hrh, Hw, Hh in Hsh2, Hr, Hc. destruct (same_fb_fields _ _ Hs2) as (Ew2 & Eh2 & Es2 & _).
  destruct (same_fb_fields _ _ Hs2) as (_ & _ & _ & Ec2 & Er2 & _). split_and!; [|done|done|].
  { intros x y Hx Hy. rewrite Hsh2 by (rewrite ?Ew2, ?Eh2, ?Ew, ?Eh, ?Hw, ?Hh; done). by rewrite Ec2, Er2, Ec, Er, Hcw, Hrh, Hw, Hh. }
  intros i Hge. rewrite (beyond_trans _ _ _ Hs Hb Hb2) by (by rewrite Hst, Hh).
  by rewrite Hpx.
Qed.

(** ** Lines that are typed and erased *)
Definition pos (nc : Z) (s : Screen) : Z := s_row s * nc + s_col s.
Definition on_screen (nc nr : Z) (s : Screen) : Prop := 0 ≤ s_row s < nr ∧ 0 ≤ s_col s ≤ nc.

Lemma place_eq nc r c r' c' : 0 ≤ c < nc → 0 ≤ c' < nc → r * nc + c = r' * nc + c' → r = r' ∧ c = c'.
Proof. intros Hc Hc' He. assert (r = r') as -> by nia. lia. Qed.

Lemma type_place nc nr b s : 0 < nc → on_screen nc nr s → pos nc s < nr * nc →
  let s' := term_type nc nr b s in
  on_screen nc nr s' ∧ pos nc s' = pos nc s + 1 ∧ 0 < s_col s' ∧
  ∀ r c, 0 ≤ r < nr → 0 ≤ c < nc → cells s' r c = if decide (r * nc + c = pos nc s) then Some b else cells s r c.
Proof.
  intros Hnc [Hr Hc] Hp. unfold term_type, pos, on_screen in *. destruct (Z.leb_spec nc (s_col s)).
  - assert (s_col s = nc) as Ec by lia. unfold term_newline. rewrite (proj2 (Z.leb_gt _ _)) by nia. cbn [s_row s_col cells].
    split_and!; try nia. intros r c Hr' Hc'. unfold put_cell. destruct (decide (r * nc + c = s_row s * nc + s_col s)) as [He|Hne].
    + destruct (place_eq nc r c (s_row s + 1) 0) as [-> ->]; [lia|lia|nia|]. by rewrite decide_True.
    + rewrite decide_False; [done|]. intros [-> ->]. apply Hne. nia.
  - cbn [s_row s_col cells]. split_and!; try nia. intros r c Hr' Hc'. unfold put_cell.
    destruct (decide (r * nc + c = s_row s * nc + s_col s)) as [He|Hne].
    + destruct (place_eq nc r c (s_row s) (s_col s)) as [-> ->]; [lia|lia|done|]. by rewrite decide_True.
    + rewrite decide_False; [done|]. intros [-> ->]. done.
Qed.

Lemma back_place nc nr s : 0 < nc → on_screen nc nr s → 0 < pos nc s →
  on_screen nc nr (term_back nc s) ∧ pos nc (term_back nc s) = pos nc s - 1 ∧ cells (term_back nc s) = cells s.
Proof.
  intros Hnc [Hr Hc] Hp. unfold term_back, pos, on_screen in *. destruct (Z.ltb_spec 0 (s_col s)); cbn [s_row s_col cells]; [split_and!; (done || lia)|].
  destruct (Z.ltb_spec 0 (s_row s)); cbn [s_row s_col cells]; [split_and!; (done || nia)|]. nia.
Qed.

(** Printable ASCII. *)
Definition printable (b : Z) : Prop := 0x20 ≤ b ≤ 0x7E.

Lemma printable_types nc nr s b : printable b → term_byte nc nr s b = term_type nc nr b s.
Proof. unfold printable. intros Hb. unfold term_byte. by rewrite !(proj2 (Z.eqb_neq _ _)) by lia. Qed.

(** A character where the screen is full: everything moves up a row. *)
Lemma type_scrolls nc nr b s : 0 < nc → on_screen nc nr s → pos nc s = nr * nc →
  let s' := term_type nc nr b s in
  on_screen nc nr s' ∧ pos nc s' = pos nc s + 1 - nc ∧
  ∀ r c, 0 ≤ r < nr → 0 ≤ c < nc → cells s' r c =
    if decide (r * nc + c = pos nc s - nc) then Some b else if r + 1 <? nr then cells s (r + 1) c else None.
Proof.
  intros Hnc [Hr Hc] Hp. unfold term_type, pos, on_screen in *. assert (s_col s = nc ∧ s_row s = nr - 1) as [Ec Er] by nia.
  rewrite (proj2 (Z.leb_le _ _)) by lia. unfold term_newline. rewrite (proj2 (Z.leb_le _ _)) by lia. cbn [s_row s_col cells].
  split_and!; try nia. intros r c Hr' Hc'. unfold put_cell, shift_up. replace (r <? nr - 1) with (r + 1 <? nr) by lia.
  destruct (decide (r * nc + c = s_row s * nc + s_col s - nc)) as [He|Hne].
  - destruct (place_eq nc r c (nr - 1) 0) as [-> ->]; [lia|lia|nia|]. by rewrite decide_True by lia.
  - rewrite decide_False; [done|]. intros [-> ->]. apply Hne. nia.
Qed.

(** The rows that leave the screen while [n] characters are typed from [p]. *)
Definition rows_gone (nc nr p n : Z) : Z := Z.max 0 (div_ceil (p + n) nc - nr).

Lemma rows_gone_spec nc nr p n k : 0 < nc → 0 ≤ k → p + n ≤ (nr + k) * nc → (k = 0 ∨ (nr + k - 1) * nc < p + n) →
  rows_gone nc nr p n = k.
Proof.
  intros Hnc Hk Hle Hgt. unfold rows_gone. apply (div_ceil_spec (p + n) nc (nr + k) Hnc) in Hle.
  destruct Hgt as [->|Hgt]; [lia|]. assert (¬ div_ceil (p + n) nc ≤ nr + k - 1); [|lia]. rewrite div_ceil_spec by done. lia.
Qed.

(** What a screen shows [k] rows later. *)
Definition after_rows (nr k : Z) (cells : Z → Z → option Z) (r c : Z) : option Z := if r + k <? nr then cells (r + k) c else None.

Lemma type_line nc nr text s : 0 < nc → Forall printable text → on_screen nc nr s →
  let s' := foldl (term_byte nc nr) s text in
  ∃ k, 0 ≤ k ∧ on_screen nc nr s' ∧ pos nc s' = pos nc s + len text - k * nc ∧ (k = 0 ∨ (nr + k - 1) * nc < pos nc s + len text) ∧
  ∀ r c, 0 ≤ r < nr → 0 ≤ c < nc → ¬ (pos nc s - k * nc ≤ r * nc + c < pos nc s + len text - k * nc) →
    cells s' r c = after_rows nr k (cells s) r c.
Proof.
  intros Hnc Ht. revert s. induction Ht as [|b text Hb Ht IH]; intros s Hs; cbn [foldl]; cbv zeta.
  - exists 0. change (len []) with 0. split_and!; [done|done|lia|by left|]. intros r c Hr _ _. unfold after_rows.
    by rewrite Z.add_0_r, (proj2 (Z.ltb_lt _ _)) by lia.
  - rewrite len_cons in *. pose proof (len_nonneg text). rewrite printable_types by done.
    assert (pos nc s ≤ nr * nc) as Hle by (destruct Hs as [Hr Hc]; unfold pos; nia).
    destruct (decide (pos nc s = nr * nc)) as [Hfull|Hroom].
    + destruct (type_scrolls nc nr b s Hnc Hs Hfull) as (Hs1 & Hp1 & Hc1). destruct (IH _ Hs1) as (k & Hk & Hs2 & Hp2 & Hlast & Hc2).
      exists (k + 1). split_and!; [lia|done|lia|right; destruct Hlast as [->|]; lia|]. intros r c Hr Hc Ho. rewrite Hc2 by (try done; lia).
      unfold after_rows. replace (r + (k + 1)) with (r + k + 1) by lia. destruct (Z.ltb_spec (r + k) nr).
      * rewrite Hc1 by lia. by rewrite decide_False by nia.
      * by rewrite (proj2 (Z.ltb_ge _ _)) by lia.
    + destruct (type_place nc nr b s Hnc Hs ltac:(lia)) as (Hs1 & Hp1 & _ & Hc1). destruct (IH _ Hs1) as (k & Hk & Hs2 & Hp2 & Hlast & Hc2).
      exists k. split_and!; [lia|done|lia|destruct Hlast; [by left|right; lia]|]. intros r c Hr Hc Ho. rewrite Hc2 by (try done; lia).
      unfold after_rows. destruct (Z.ltb_spec (r + k) nr); [|done]. rewrite Hc1 by lia. by rewrite decide_False by nia.
Qed.

(** Back, over with a space, back: what the shells send for Backspace. *)
Definition ERASE : list Z := [0x08; 0x20; 0x08].

Lemma erase_one nc nr s : 0 < nc → on_screen nc nr s → 0 < pos nc s ≤ nr * nc →
  let s' := foldl (term_byte nc nr) s ERASE in
  on_screen nc nr s' ∧ pos nc s' = pos nc s - 1 ∧
  ∀ r c, 0 ≤ r < nr → 0 ≤ c < nc → cells s' r c = if decide (r * nc + c = pos nc s - 1) then Some 0x20 else cells s r c.
Proof.
  intros Hnc Hs Hp. cbn [foldl ERASE]. cbv zeta. change (term_byte nc nr s 8) with (term_back nc s).
  destruct (back_place nc nr s Hnc Hs ltac:(lia)) as (Hs1 & Hp1 & Hc1).
  change (term_byte nc nr (term_back nc s) 32) with (term_type nc nr 32 (term_back nc s)).
  destruct (type_place nc nr 32 _ Hnc Hs1 ltac:(lia)) as (Hs2 & Hp2 & _ & Hc2).
  match goal with |- context [term_byte nc nr ?x 8] => change (term_byte nc nr x 8) with (term_back nc x) end.
  destruct (back_place nc nr _ Hnc Hs2 ltac:(unfold pos in *; lia)) as (Hs3 & Hp3 & Hc3).
  split_and!; [done|lia|]. intros r c Hr Hc. rewrite Hc3, Hc2, Hp1, Hc1 by done. done.
Qed.

Lemma erase_line nc nr (n : nat) s : 0 < nc → on_screen nc nr s → Z.of_nat n ≤ pos nc s ≤ nr * nc →
  let s' := foldl (term_byte nc nr) s (concat (replicate n ERASE)) in
  on_screen nc nr s' ∧ pos nc s' = pos nc s - Z.of_nat n ∧
  ∀ r c, 0 ≤ r < nr → 0 ≤ c < nc →
    cells s' r c = if decide (pos nc s - Z.of_nat n ≤ r * nc + c < pos nc s) then Some 0x20 else cells s r c.
Proof.
  intros Hnc. revert s. induction n as [|n IH]; intros s Hs Hp; cbv zeta.
  - simpl. split_and!; [done|lia|]. intros r c _ _. by rewrite decide_False by lia.
  - cbn [replicate concat]. rewrite foldl_app. destruct (erase_one nc nr s Hnc Hs ltac:(lia)) as (Hs1 & Hp1 & Hc1).
    destruct (IH _ Hs1 ltac:(lia)) as (Hs2 & Hp2 & Hc2). split_and!; [done|lia|]. intros r c Hr Hc.
    rewrite Hc2, Hc1, Hp1 by done. destruct (decide (r * nc + c = pos nc s - 1)).
    + rewrite decide_False by lia. by rewrite decide_True by lia.
    + destruct (decide (pos nc s - 1 - Z.of_nat n ≤ r * nc + c < pos nc s - 1)); [by rewrite decide_True by lia|].
      by rewrite decide_False by lia.
Qed.

(** C31: What is typed can be erased, also through lines that wrapped and rows
    that scrolled away: after a text of printable characters and then as many
    times back, space, back the cursor is at the place where it was and every
    cell is as it was, [k] rows further up, but for spaces where the text had
    been; [k] is how many rows the text made the screen move, none when it
    fits behind the cursor.  This is for a text whose first character is
    still on the screen when its last is typed. *)
Theorem typed_line_erased t scr text : console_shows_screen t scr → Forall printable text →
  let nc := fb_cols (surface t) in let nr := fb_rows (surface t) in
  let k := rows_gone nc nr (pos nc scr) (len text) in
  k * nc ≤ pos nc scr →
  ∃ t' scr', Text.write_str (text ++ concat (replicate (length text) ERASE)) t = (Ok (), t') ∧
    console_shows_screen t' scr' ∧ pos nc scr' = pos nc scr - k * nc ∧
    ∀ r c, 0 ≤ r < nr → 0 ≤ c < nc →
      cells scr' r c = if decide (pos nc scr ≤ (r + k) * nc + c < pos nc scr + len text) then Some 0x20 else after_rows nr k (cells scr) r c.
Proof.
  intros Hcs Ht nc nr k Hk. pose proof (proj2 (ok_cols _ (cs_ok _ _ Hcs))) as Hnc. fold nc in Hnc.
  assert (on_screen nc nr scr) as Hs by (split; [apply (cs_row _ _ Hcs)|apply (cs_col _ _ Hcs)]).
  assert (0 ≤ pos nc scr) as Hp0 by (destruct Hs; unfold pos; nia).
  destruct (text_shows (text ++ concat (replicate (length text) ERASE)) t scr Hcs) as (t' & E & Hcs' & _).
  { apply Forall_app. split; [eapply Forall_impl; [exact Ht|unfold printable; lia]|].
    apply Forall_concat, Forall_replicate. unfold ERASE. repeat constructor; lia. }
  fold nc nr in Hcs'. rewrite foldl_app in Hcs'. eexists t', _. split; [exact E|]. split; [exact Hcs'|].
  destruct (type_line nc nr text scr Hnc Ht Hs) as (k' & Hk' & Hs1 & Hp1 & Hlast & Hc1). set (s1 := foldl _ scr text) in *.
  pose proof (len_nonneg text). assert (pos nc s1 ≤ nr * nc) as Hp1' by (destruct Hs1 as [Hr Hc]; unfold pos; nia).
  assert (k = k') as Ek by (apply rows_gone_spec; [done|done|lia|done]). rewrite Ek in *. clearbody s1.
  destruct (erase_line nc nr (length text) s1 Hnc Hs1) as (_ & Hp2 & Hc2); [unfold len in *; lia|].
  split; [unfold len in *; lia|]. intros r c Hr Hc. rewrite Hc2, Hp1 by done. unfold len in *.
  destruct (decide (pos nc scr ≤ (r + k') * nc + c < pos nc scr + Z.of_nat (length text))).
  - by rewrite decide_True by lia.
  - rewrite decide_False by lia. apply Hc1; (done || lia).
Qed.
End font.

(** ** A small screen *)
Definition boxes : list (list Z) := replicate 128 [0xFF; 0x81; 0x81; 0x81; 0x81; 0x81; 0x81; 0xFF].

Lemma boxes_ok : length boxes = 128%nat ∧ Forall (λ g, length g = 8%nat) boxes.
Proof. split; [done|]. by apply Forall_replicate. Qed.

Definition small_info : FramebufferInfo :=
  {| fi_base_addr := 0x80000000; fi_width := 34; fi_height := 36; fi_stride := 40; fi_size_bytes := 5764 |}.
Definition small_memory : list Z := replicate 1441 0xABCDEF.

Lemma small_info_ok : info_ok small_info.
Proof. unfold info_ok, in_width. simpl. lia. Qed.

(** Three lines on two rows: the first has gone, the last is below. *)
Lemma console_draws_witness :
  ∃ s t t', Fb.new small_info small_memory = Some s ∧ @Text.new _ (Fb.framebuffer boxes) s = Ok t ∧
    @Text.write_str _ (Fb.framebuffer boxes) [0x41; 0x0A; 0x42; 0x0A; 0x43] t = (Ok (), t') ∧
    row t' = 1 ∧ col t' = 1 ∧ px (surface t') 0 16 = Some FOREGROUND ∧ px (surface t') 33 16 = Some BACKGROUND.
Proof.
  pose proof (console_draws boxes boxes_ok small_info small_memory small_info_ok eq_refl) as H.
  destruct (Fb.new small_info small_memory) as [s|] eqn:E; [|exfalso; apply H; repeat split; vm_compute; discriminate].
  destruct H as (t & Et & H). destruct (H [0x41; 0x0A; 0x42; 0x0A; 0x43]) as (t' & Ew & Hsh & Hr & Hc & _).
  { repeat constructor; lia. }
  exists s, t, t'. split; [done|]. split; [exact Et|]. split; [exact Ew|]. split; [exact Hr|]. split; [exact Hc|].
  split; (rewrite Hsh by (simpl; lia)); vm_compute; reflexivity.
Defined.

(** On the last row of a screen two cells wide, with three characters. *)
Lemma typed_line_erased_witness :
  ∃ t scr t' scr', console_shows_screen boxes t scr ∧ pos 2 scr = 2 ∧ @Text.write_str _ (Fb.framebuffer boxes) ([0x41; 0x42; 0x43] ++ concat (replicate 3 ERASE)) t = (Ok (), t') ∧
    console_shows_screen boxes t' scr' ∧ pos 2 scr' = 0 ∧ cells scr' 1 0 = Some 0x20 ∧ cells scr' 1 1 = None.
Proof.
  pose proof (new_exact boxes boxes_ok small_info small_memory small_info_ok eq_refl) as H.
  destruct (Fb.new small_info small_memory) as [s|] eqn:E; [|exfalso; apply H; repeat split; vm_compute; discriminate].
  destruct H as (_ & Hok & _ & Hw & Hh & _). destruct (fresh_console boxes boxes_ok s Hok) as (t & _ & Hcs & Hs & _).
  destruct (same_fb_fields _ _ Hs) as (_ & _ & _ & Ec & Er & _).
  assert (fb_cols (surface t) = 2 ∧ fb_rows (surface t) = 2) as [Enc Enr].
  { destruct (ok_cols _ Hok) as [Hc _], (ok_rows _ Hok) as [Hr _]. rewrite Ec, Er, Hc, Hr, Hw, Hh. done. }
  destruct (text_shows boxes boxes_ok [0x0A] t blank Hcs) as (t1 & _ & Hcs1 & Hm); [repeat constructor; lia|].
  rewrite Enc, Enr in Hcs1. set (scr := foldl _ _ _) in Hcs1. destruct (same_fb_fields _ _ (proj1 Hm)) as (_ & _ & _ & Ec1 & Er1 & _).
  rewrite Enc in Ec1. rewrite Enr in Er1.
  destruct (typed_line_erased boxes boxes_ok t1 scr [0x41; 0x42; 0x43] Hcs1) as (t' & scr' & Ew & Hcs' & Hp & Hcells).
  - repeat constructor; unfold printable; lia.
  - rewrite Ec1, Er1. vm_compute. discriminate.
  - rewrite Ec1, Er1 in *. exists t1, scr, t', scr'. split; [exact Hcs1|]. split; [reflexivity|]. split; [exact Ew|]. split; [exact Hcs'|]. split; [exact Hp|].
    split; rewrite Hcells by lia; reflexivity.
Defined.
