(* ===== verification/Format.v ===== *)
(** * The FAT32 images the build makes: [tools/xtask/src/fat32.rs]

    The formatter lays out a whole volume as one list of bytes.  The build
    tool is run unoptimised, where an overflow is a panic, as is a slice out
    of range and a division by zero.  A [&str] is the list of its bytes; a
    [BTreeMap] is an association list in the order of its keys. *)

From S2P Require Import Prelude Words Bytes FatFormat.
Local Open Scope Z_scope.

(** ** Ordered maps *)
Module BTree.
Section map.
  Context {K V : Type} (ltb eqb : K → K → bool).

Fixpoint insert (k : K) (v : V) (m : list (K * V)) : list (K * V) :=
  match m with
  | [] => [(k, v)]
  | (k', v') :: m' =>
      if eqb k k' then (k, v) :: m'
      else if ltb k k' then (k, v) :: m
      else (k', v') :: insert k v m'
  end.

Fixpoint get (k : K) (m : list (K * V)) : option V :=
  match m with
  | [] => None
  | (k', v') :: m => if eqb k k' then Some v' else get k m
  end.

Definition contains_key (k : K) (m : list (K * V)) : bool := bool_decide (is_Some (get k m)).
End map.
End BTree.

(** Strings compare by their bytes. *)
Fixpoint str_ltb (a b : list Z) : bool :=
  match a, b with
  | _, [] => false
  | [], _ :: _ => true
  | x :: a, y :: b => if x <? y then true else if x =? y then str_ltb a b else false
  end.

Fixpoint str_eqb (a b : list Z) : bool :=
  match a, b with
  | [], [] => true
  | x :: a, y :: b => (x =? y) && str_eqb a b
  | _, _ => false
  end.

(** [str::split], all the parts. *)
Fixpoint split_all (sep : Z) (l : list Z) : list (list Z) :=
  match l with
  | [] => [[]]
  | b :: l =>
      if b =? sep then [] :: split_all sep l
      else match split_all sep l with
           | p :: ps => (b :: p) :: ps
           | [] => [[b]]
           end
  end.

(** [str::rfind], as what is before the last separator. *)
Fixpoint before_last (sep : Z) (l : list Z) : option (list Z) :=
  match l with
  | [] => None
  | b :: l =>
      match before_last sep l with
      | Some p => Some (b :: p)
      | None => if b =? sep then Some [] else None
      end
  end.

Definition SLASH : Z := 0x2F.
Definition DOT : Z := 0x2E.

(** [rsplit('/').next()]. *)
Definition last_part (nm : list Z) : list Z := List.last (split_all SLASH nm) nm.

Module Mkfs.
Definition SECTOR_BYTES : Z := 512.
Definition RESERVED_SECTORS : Z := 32.
Definition FAT_COUNT : Z := 2.
Definition BACKUP_BOOT_SECTOR : Z := 6.
Definition FIRST_DATA_CLUSTER : Z := 2.
Definition END_OF_CHAIN : Z := 0x0FFFFFFF.
Definition MEDIA_DESCRIPTOR : Z := 0xF8.
Definition DIRECTORY_ENTRY_BYTES : Z := 32.
Definition ATTR_VOLUME_LABEL : Z := 0x08.
Definition ATTR_ARCHIVE : Z := 0x20.
Definition ATTR_DIRECTORY : Z := 0x10.

Record File := { fname : list Z; contents : list Z }.

Record Geometry := {
  total_sectors : Z; sectors_per_cluster : Z; reserved_sectors : Z; fat_count : Z; sectors_per_fat : Z;
  root_cluster : Z; clusters : Z
}.

Inductive FormatError :=
| TooSmallForFat32 (clusters : Z)
| BadName (nm : list Z)
| RootDirectoryFull (entries : Z)
| OutOfClusters (needed available : Z).

Inductive TreeEntry := EFile (f : File) | EDirectory (path : list Z).

Section ops.
  Context {X : Type}.

(** [u32] arithmetic that overflows loudly. *)
Definition add32 (a b : Z) : res X Z := expect (checked_add 32 a b).
Definition sub32 (a b : Z) : res X Z := if a <? b then Panic else Ok (a - b).
Definition mul32 (a b : Z) : res X Z := expect (checked_mul 32 a b).
Definition div32 (a b : Z) : res X Z := if b =? 0 then Panic else Ok (a / b).

(** [image[at..at + n].copy_from_slice(bytes)]. *)
Definition put (image : list Z) (at_ : Z) (bytes : list Z) : res X (list Z) :=
  expect (copy_at image at_ (at_ + len bytes) bytes).

Definition write_u16 (image : list Z) (at_ value : Z) : res X (list Z) := put image at_ (le_encode 2 value).
Definition write_u32 (image : list Z) (at_ value : Z) : res X (list Z) := put image at_ (le_encode 4 value).

(** An array of zeros with some of its fields written, in order. *)
Definition fields (n : Z) (ws : list (Z * list Z)) : list Z :=
  foldl (λ s w, splice s (Z.to_nat w.1) w.2) (replicate (Z.to_nat n) 0) ws.

(** *** Geometry *)
Definition first_data_sector (g : Geometry) : res X Z :=
  tables ← mul32 (fat_count g) (sectors_per_fat g);
  add32 (reserved_sectors g) tables.

Definition sector_of_cluster (g : Geometry) (cluster : Z) : res X Z :=
  first ← first_data_sector g;
  n ← sub32 cluster FIRST_DATA_CLUSTER;
  before ← mul32 n (sectors_per_cluster g);
  add32 first before.

Definition fits (total spc size : Z) : res X bool :=
  tables ← mul32 FAT_COUNT size;
  let data := saturating_sub (saturating_sub total RESERVED_SECTORS) tables in
  n ← div32 data spc;
  entries ← add32 n FIRST_DATA_CLUSTER;
  room ← mul32 size (SECTOR_BYTES / 4);
  Ok (entries <=? room).

Fixpoint halve (fuel : nat) (total spc smallest largest : Z) : res X Z :=
  match fuel with
  | O => Diverge
  | S fuel =>
      if smallest <? largest then
        let middle := smallest + (largest - smallest) / 2 in
        yes ← fits total spc middle;
        if (yes : bool) then halve fuel total spc smallest middle else halve fuel total spc (middle + 1) largest
      else Ok smallest
  end.

(** A range below 2^32 is halved at most 32 times. *)
Definition sectors_per_fat_for (total spc : Z) : res X Z := halve 33 total spc 1 (Z.max total 1).

(** *** Names *)
Definition name_parts (nm : list Z) : list Z * list Z :=
  match split_once DOT nm with Some (base, extension) => (base, extension) | None => (nm, []) end.

Definition is_eight_three (nm : list Z) : bool :=
  let '(base, extension) := name_parts nm in
  negb (len base =? 0) && (len base <=? 8) && (len extension <=? 3) &&
  forallb (λ b, in_range 65 90 b || in_range 48 57 b || (b =? DOT)) nm.

Definition padded_name (nm : list Z) : res X (list Z) :=
  let '(base, extension) := name_parts nm in
  padded ← put (replicate 11 32) 0 base;
  put padded 8 extension.

Definition padded_label (label : list Z) : list Z :=
  let taken := take 11 label in splice (replicate 11 32) 0 taken.

(** *** Directory entries *)
Definition entry_bytes (name : list Z) (attributes cluster size : Z) : list Z :=
  fields DIRECTORY_ENTRY_BYTES
    [(0, name); (11, [attributes]); (20, le_encode 2 (Z.shiftr cluster 16)); (26, le_encode 2 cluster); (28, le_encode 4 size)].

Definition directory_entry (file : File) (first_cluster : Z) : res X (list Z) :=
  name ← padded_name (last_part (fname file));
  Ok (entry_bytes name ATTR_ARCHIVE first_cluster (wrap 32 (len (contents file)))).

Definition directory_entry_for_directory (nm : list Z) (cluster : Z) : res X (list Z) :=
  name ← padded_name nm;
  Ok (entry_bytes name ATTR_DIRECTORY cluster 0).

(** *** The two sectors that describe the volume *)
Definition boot_sector (g : Geometry) (label : list Z) : list Z :=
  fields SECTOR_BYTES [
    (0, [0xEB; 0x58; 0x90]);
    (3, [0x48; 0x41; 0x52; 0x4C; 0x41; 0x4E; 0x20; 0x20]);
    (11, le_encode 2 SECTOR_BYTES);
    (13, [sectors_per_cluster g]);
    (14, le_encode 2 (reserved_sectors g));
    (16, [wrap 8 (fat_count g)]);
    (17, le_encode 2 0);
    (19, le_encode 2 0);
    (21, [MEDIA_DESCRIPTOR]);
    (22, le_encode 2 0);
    (24, le_encode 2 32);
    (26, le_encode 2 2);
    (28, le_encode 4 0);
    (32, le_encode 4 (total_sectors g));
    (36, le_encode 4 (sectors_per_fat g));
    (40, le_encode 2 0);
    (42, le_encode 2 0);
    (44, le_encode 4 (root_cluster g));
    (48, le_encode 2 1);
    (50, le_encode 2 BACKUP_BOOT_SECTOR);
    (64, [0x80]);
    (66, [0x29]);
    (67, le_encode 4 0x4841524C);
    (71, padded_label label);
    (82, [0x46; 0x41; 0x54; 0x33; 0x32; 0x20; 0x20; 0x20]);
    (510, [0x55]);
    (511, [0xAA])].

Definition fs_info_sector (n next_free : Z) : res X (list Z) :=
  room ← add32 n FIRST_DATA_CLUSTER;
  free ← sub32 room next_free;
  Ok (fields SECTOR_BYTES [
    (0, le_encode 4 0x41615252);
    (484, le_encode 4 0x61417272);
    (488, le_encode 4 free);
    (492, le_encode 4 next_free);
    (508, le_encode 4 0xAA550000)]).
End ops.

(** ** The tree of directories *)
Local Abbreviation Tree := (list (list Z * list TreeEntry)).

(** [entry(path).or_default().push(entry)]. *)
Definition push (path : list Z) (e : TreeEntry) (t : Tree) : Tree :=
  BTree.insert str_ltb str_eqb path (default [] (BTree.get str_eqb path t) ++ [e]) t.

Definition parents_of (nm : list Z) : list Z := default [] (before_last SLASH nm).

Definition add_directory (tp : Tree * list Z) (part : list Z) : Tree * list Z :=
  let '(t, parent) := tp in
  let path := if bool_decide (parent = []) then part else parent ++ [SLASH] ++ part in
  if BTree.contains_key str_eqb path t then (t, path)
  else (push parent (EDirectory path) (BTree.insert str_ltb str_eqb path [] t), path).

Definition add_file (t : Tree) (file : File) : Tree :=
  let parents := parents_of (fname file) in
  let '(t, _) := foldl add_directory (t, []) (List.filter (λ part, negb (bool_decide (part = []))) (split_all SLASH parents)) in
  push parents (EFile file) t.

Definition tree_of (files : list File) : Tree := foldl add_file [([], [])] files.

(** ** Where everything goes *)
Record Plan := {
  chains : list (Z * Z);
  next_free : Z;
  directory_cluster : list (list Z * Z);
  placed : list (File * Z)
}.

Definition link (c next : Z) : list (Z * Z) → list (Z * Z) := BTree.insert Z.ltb Z.eqb c next.

Definition place_directory (g : Geometry) (p : Plan) (path : list Z) : res FormatError Plan :=
  if bool_decide (path = []) then Ok p
  else
    limit ← add32 FIRST_DATA_CLUSTER (clusters g);
    if limit <=? next_free p then Err (OutOfClusters 1 0)
    else
      next ← add32 (next_free p) 1;
      Ok {| chains := link (next_free p) END_OF_CHAIN (chains p); next_free := next;
            directory_cluster := BTree.insert str_ltb str_eqb path (next_free p) (directory_cluster p); placed := placed p |}.

Definition link_file (first needed : Z) (chains : list (Z * Z)) : res FormatError (list (Z * Z)) :=
  foldM (λ chains index,
    cluster ← add32 first index;
    next ← (if index + 1 =? needed then Ok END_OF_CHAIN else add32 cluster 1);
    Ok (link cluster next chains)) chains (seqZ 0 needed).

Definition place_file (g : Geometry) (cluster_bytes : Z) (p : Plan) (file : File) : res FormatError Plan :=
  let needed := wrap 32 (div_ceil (len (contents file)) cluster_bytes) in
  if needed =? 0 then
    Ok {| chains := chains p; next_free := next_free p; directory_cluster := directory_cluster p; placed := placed p ++ [(file, 0)] |}
  else
    wanted ← add32 (next_free p) needed;
    limit ← add32 FIRST_DATA_CLUSTER (clusters g);
    if limit <? wanted then available ← sub32 limit (next_free p); Err (OutOfClusters needed available)
    else
      linked ← link_file (next_free p) needed (chains p);
      Ok {| chains := linked; next_free := wanted; directory_cluster := directory_cluster p;
            placed := placed p ++ [(file, next_free p)] |}.

(** ** Writing it down *)
Definition write_table (g : Geometry) (chains : list (Z * Z)) (image : list Z) (table : Z) : res FormatError (list Z) :=
  n ← mul32 table (sectors_per_fat g);
  sector ← add32 RESERVED_SECTORS n;
  let at_ := sector * SECTOR_BYTES in
  image ← write_u32 image at_ (Z.lor 0x0FFFFF00 MEDIA_DESCRIPTOR);
  image ← write_u32 image (at_ + 4) END_OF_CHAIN;
  foldM (λ image '(cluster, next), write_u32 image (at_ + cluster * 4) next) image chains.

(** One of the two entries every directory but the root starts with. *)
Definition write_dots (image : list Z) (entry_at : Z) (name : list Z) (cluster : Z) : res FormatError (list Z) :=
  image ← put image entry_at name;
  image ← put image (entry_at + 11) [ATTR_DIRECTORY];
  image ← write_u16 image (entry_at + 20) (Z.shiftr cluster 16);
  write_u16 image (entry_at + 26) cluster.

Definition DOT_NAME : list Z := DOT :: replicate 10 32.
Definition DOT_DOT_NAME : list Z := DOT :: DOT :: replicate 9 32.

(** What a directory starts with; where its entries go on. *)
Definition write_head (label : list Z) (clusters_of : list (list Z * Z)) (image : list Z) (entry_at : Z) (path : list Z) (cluster : Z)
    : res FormatError (list Z * Z) :=
  if bool_decide (path = []) then
    image ← put image entry_at (padded_label label);
    image ← put image (entry_at + 11) [ATTR_VOLUME_LABEL];
    Ok (image, entry_at + DIRECTORY_ENTRY_BYTES)
  else
    let parent := default [] (before_last SLASH path) in
    parent_cluster ← (if bool_decide (parent = []) then Ok 0 else expect (BTree.get str_eqb parent clusters_of));
    image ← write_dots image entry_at DOT_NAME cluster;
    image ← write_dots image (entry_at + DIRECTORY_ENTRY_BYTES) DOT_DOT_NAME parent_cluster;
    Ok (image, entry_at + 2 * DIRECTORY_ENTRY_BYTES).

Definition bytes_of_entry (went clusters_of : list (list Z * Z)) (e : TreeEntry) : res FormatError (list Z) :=
  match e with
  | EFile file =>
      first ← expect (BTree.get str_eqb (fname file) went);
      directory_entry file first
  | EDirectory child =>
      cluster ← expect (BTree.get str_eqb child clusters_of);
      directory_entry_for_directory (last_part child) cluster
  end.

Definition write_entries (went clusters_of : list (list Z * Z)) (image : list Z) (entry_at : Z) (held : list TreeEntry)
    : res FormatError (list Z * Z) :=
  foldM (λ '(image, entry_at) e,
    bytes ← bytes_of_entry went clusters_of e;
    image ← put image entry_at bytes;
    Ok (image, entry_at + DIRECTORY_ENTRY_BYTES)) (image, entry_at) held.

Definition write_directory (g : Geometry) (label : list Z) (went clusters_of : list (list Z * Z)) (image : list Z)
    (dir : list Z * list TreeEntry) : res FormatError (list Z) :=
  let '(path, held) := dir in
  cluster ← expect (BTree.get str_eqb path clusters_of);
  sector ← sector_of_cluster g cluster;
  '(image, entry_at) ← write_head label clusters_of image (sector * SECTOR_BYTES) path cluster;
  '(image, _) ← write_entries went clusters_of image entry_at held;
  Ok image.

Definition write_contents (g : Geometry) (image : list Z) (pf : File * Z) : res FormatError (list Z) :=
  let '(file, first) := pf in
  if first =? 0 then Ok image
  else
    sector ← sector_of_cluster g first;
    put image (sector * SECTOR_BYTES) (contents file).

Definition write_image (g : Geometry) (label : list Z) (t : Tree) (p : Plan) : res FormatError (list Z) :=
  let image := replicate (Z.to_nat (total_sectors g * SECTOR_BYTES)) 0 in
  let boot := boot_sector g label in
  image ← put image 0 boot;
  let backup := BACKUP_BOOT_SECTOR * SECTOR_BYTES in
  image ← put image backup boot;
  info ← fs_info_sector (clusters g) (next_free p);
  image ← put image SECTOR_BYTES info;
  image ← put image (backup + SECTOR_BYTES) info;
  image ← foldM (write_table g (chains p)) image (seqZ 0 FAT_COUNT);
  let went := foldl (λ m '(file, first), BTree.insert str_ltb str_eqb (fname file) first m) [] (placed p) in
  image ← foldM (write_directory g label went (directory_cluster p)) image t;
  foldM (write_contents g) image (placed p).

(** ** The whole *)
Definition geometry_for (total spc : Z) : res FormatError Geometry :=
  spf ← sectors_per_fat_for total spc;
  data ← sub32 total RESERVED_SECTORS;
  tables ← mul32 FAT_COUNT spf;
  data ← sub32 data tables;
  n ← div32 data spc;
  Ok {| total_sectors := total; sectors_per_cluster := spc; reserved_sectors := RESERVED_SECTORS; fat_count := FAT_COUNT;
        sectors_per_fat := spf; root_cluster := FIRST_DATA_CLUSTER; clusters := n |}.

Definition check_directory (per_directory : Z) (_ : ()) (dir : list Z * list TreeEntry) : res FormatError () :=
  let '(path, held) := dir in
  let n := len held + (if bool_decide (path = []) then 1 else 2) in
  if per_directory <? n then Err (RootDirectoryFull n) else Ok ().

Definition format (total spc : Z) (label : list Z) (files : list File) : res FormatError (list Z * Geometry) :=
  _ ← foldM (λ _ file,
        if bool_decide (fname file = []) || negb (forallb is_eight_three (split_all SLASH (fname file)))
        then Err (BadName (fname file)) else Ok ()) () files;
  g ← geometry_for total spc;
  if clusters g <? 65525 then Err (TooSmallForFat32 (clusters g))
  else
    let cluster_bytes := SECTOR_BYTES * spc in
    let per_directory := cluster_bytes / DIRECTORY_ENTRY_BYTES in
    let t := tree_of files in
    _ ← foldM (check_directory per_directory) () t;
    let p := {| chains := link FIRST_DATA_CLUSTER END_OF_CHAIN []; next_free := FIRST_DATA_CLUSTER + 1;
                directory_cluster := BTree.insert str_ltb str_eqb [] FIRST_DATA_CLUSTER []; placed := [] |} in
    p ← foldM (place_directory g) p (fst <$> t);
    p ← foldM (place_file g cluster_bytes) p files;
    image ← write_image g label t p;
    Ok (image, g).
End Mkfs.
