(* ===== verification/FormatRun.v ===== *)
(** * The formatter: sizes and places

    The table's size is the smallest that has an entry for every cluster;
    and where the formatter puts the files of a volume without
    subdirectories: one after the other. *)

From S2P Require Import Prelude Words Bytes FatFormat FatVolume FatFormatThms Format.
Local Open Scope Z_scope.

(** ** The size of a table *)
Definition data_clusters (total spc size : Z) : Z := Z.max 0 (Z.max 0 (total - 32) - 2 * size) / spc.

(** A table of [size] sectors has an entry for every cluster that is left. *)
Definition big_enough (total spc size : Z) : Prop := data_clusters total spc size + 2 ≤ size * 128.

#[export] Instance big_enough_dec total spc size : Decision (big_enough total spc size).
Proof. unfold big_enough. apply _. Defined.

Section sizes.
  Context {X : Type} (total spc : Z) (Htotal : 0 < total < 2 ^ 26 - 1) (Hspc : 0 < spc).

Lemma data_clusters_bound size : 0 ≤ size → 0 ≤ data_clusters total spc size ≤ total.
Proof.
  intros Hs. unfold data_clusters. split; [apply Z.div_pos; lia|]. apply Z.div_le_upper_bound; [lia|]. nia.
Qed.

Lemma fits_run size : 0 < size < 2 ^ 25 → Mkfs.fits (X:=X) total spc size = Ok (bool_decide (big_enough total spc size)).
Proof.
  intros Hs. unfold Mkfs.fits, Mkfs.mul32, Mkfs.div32, Mkfs.add32, Mkfs.FAT_COUNT, Mkfs.RESERVED_SECTORS, Mkfs.FIRST_DATA_CLUSTER, Mkfs.SECTOR_BYTES.
  change (512 / 4) with 128. unfold checked_mul, checked_add. rewrite (proj2 (Z.ltb_lt (2 * size) _)) by lia. cbn [expect mbind res_bind].
  rewrite (proj2 (Z.eqb_neq spc 0)) by lia. cbn [mbind res_bind]. unfold saturating_sub. fold (data_clusters total spc size).
  pose proof (data_clusters_bound size ltac:(lia)). rewrite (proj2 (Z.ltb_lt (data_clusters total spc size + 2) _)) by lia. cbn [expect mbind res_bind].
  rewrite (proj2 (Z.ltb_lt (size * 128) _)) by lia. cbn [expect mbind res_bind]. f_equal. unfold big_enough.
  destruct (Z.leb_spec (data_clusters total spc size + 2) (size * 128)); [by rewrite bool_decide_true|by rewrite bool_decide_false by lia].
Qed.

Lemma big_enough_mono size size' : 0 ≤ size ≤ size' → big_enough total spc size → big_enough total spc size'.
Proof.
  unfold big_enough, data_clusters. intros Hs Hb.
  assert (Z.max 0 (Z.max 0 (total - 32) - 2 * size') / spc ≤ Z.max 0 (Z.max 0 (total - 32) - 2 * size) / spc) by (apply Z.div_le_mono; lia).
  lia.
Qed.

Lemma big_enough_half size : 0 < size → total ≤ 2 * size → big_enough total spc size.
Proof.
  intros Hs Ht. unfold big_enough, data_clusters. replace (Z.max 0 (Z.max 0 (total - 32) - 2 * size)) with 0 by lia.
  rewrite Z.div_0_l by lia. lia.
Qed.

Lemma halve_S (fuel : nat) smallest largest : Mkfs.halve (X:=X) (S fuel) total spc smallest largest =
  if smallest <? largest then
    let middle := smallest + (largest - smallest) / 2 in
    yes ← Mkfs.fits total spc middle;
    if (yes : bool) then Mkfs.halve fuel total spc smallest middle else Mkfs.halve fuel total spc (middle + 1) largest
  else Ok smallest.
Proof. done. Qed.

(** The loop's invariant: everything below is too small, and [largest] is
    big enough. *)
Lemma halve_run (fuel : nat) smallest largest : 0 < smallest ≤ largest → largest < 2 ^ 25 → largest - smallest < 2 ^ (Z.of_nat fuel - 1) →
  (0 < fuel)%nat → (∀ s, 0 < s < smallest → ¬ big_enough total spc s) → big_enough total spc largest →
  ∃ spf, Mkfs.halve (X:=X) fuel total spc smallest largest = Ok spf ∧ smallest ≤ spf ≤ largest ∧
    big_enough total spc spf ∧ ∀ s, 0 < s < spf → ¬ big_enough total spc s.
Proof.
  revert smallest largest. induction fuel as [|fuel IH]; intros smallest largest Hsl Hl Hd Hf Hno Hyes; [lia|]. cbn [Mkfs.halve].
  destruct (Z.ltb_spec smallest largest) as [Hlt|Hge].
  2:{ assert (smallest = largest) as -> by lia. exists largest. split_and!; (done || lia). }
  cbv zeta. set (middle := smallest + (largest - smallest) / 2).
  pose proof (Z.div_mod (largest - smallest) 2 ltac:(lia)). pose proof (Z.mod_pos_bound (largest - smallest) 2 ltac:(lia)).
  assert (smallest ≤ middle < largest) as Hm by (unfold middle; lia). rewrite fits_run by lia. cbn [mbind res_bind].
  assert (fuel ≠ O) as Hnz by (intros ->; simpl in Hd; lia).
  replace (Z.of_nat (S fuel) - 1) with (Z.of_nat fuel - 1 + 1) in Hd by lia. rewrite Z.pow_add_r in Hd by lia.
  destruct (decide (big_enough total spc middle)) as [Hb|Hb]; [rewrite bool_decide_true by done|rewrite bool_decide_false by done].
  - destruct (IH smallest middle) as (spf & E & Hr & H1); [lia|lia|unfold middle; lia|lia|done|done|].
    exists spf. split; [done|]. split; [lia|done].
  - destruct (IH (middle + 1) largest) as (spf & E & Hr & H1); [lia|lia|unfold middle; lia|lia| |done|].
    { intros s Hs Hbs. apply Hb. apply (big_enough_mono s); [lia|done]. }
    exists spf. split; [done|]. split; [lia|done].
Qed.

Lemma sectors_per_fat_run : ∃ spf, Mkfs.sectors_per_fat_for (X:=X) total spc = Ok spf ∧ 0 < spf < 2 ^ 25 ∧
  big_enough total spc spf ∧ ∀ s, 0 < s < spf → ¬ big_enough total spc s.
Proof.
  unfold Mkfs.sectors_per_fat_for. rewrite Z.max_l by lia. change 33%nat with (S 32). rewrite halve_S.
  destruct (Z.ltb_spec 1 total) as [Hlt|Hge].
  2:{ exists 1. split; [done|]. split; [lia|]. split; [apply big_enough_half; lia|]. intros; lia. }
  cbv zeta. pose proof (Z.div_mod (total - 1) 2 ltac:(lia)). pose proof (Z.mod_pos_bound (total - 1) 2 ltac:(lia)).
  rewrite fits_run by lia. cbn [mbind res_bind]. rewrite bool_decide_true by (apply big_enough_half; lia).
  destruct (halve_run 32 1 (1 + (total - 1) / 2)) as (spf & E & Hr & Hb & Hno); [lia|lia|simpl; lia|lia|intros; lia|apply big_enough_half; lia|].
  exists spf. split; [exact E|]. split; [lia|done].
Qed.
End sizes.

(** ** The geometry *)
Section geometry.
  Context (total spc : Z) (Htotal : 34 ≤ total < 2 ^ 26 - 1) (Hspc : 0 < spc).

Lemma geometry_run : ∃ spf, 0 < spf < 2 ^ 25 ∧ big_enough total spc spf ∧ (∀ s, 0 < s < spf → ¬ big_enough total spc s) ∧
  32 + 2 * spf ≤ total ∧
  Mkfs.geometry_for total spc = Ok {| Mkfs.total_sectors := total; Mkfs.sectors_per_cluster := spc; Mkfs.reserved_sectors := 32;
    Mkfs.fat_count := 2; Mkfs.sectors_per_fat := spf; Mkfs.root_cluster := 2; Mkfs.clusters := (total - 32 - 2 * spf) / spc |}.
Proof.
  destruct (sectors_per_fat_run (X:=Mkfs.FormatError) total spc) as (spf & E & Hr & Hb & Hno); [lia|done|].
  assert (32 + 2 * spf ≤ total) as Hle.
  { destruct (decide (spf = 1)) as [->|Hne]; [lia|]. specialize (Hno (spf - 1) ltac:(lia)). unfold big_enough, data_clusters in Hno.
    destruct (decide (total - 32 - 2 * (spf - 1) ≤ 0)) as [Hz|Hp].
    - replace (Z.max 0 (Z.max 0 (total - 32) - 2 * (spf - 1))) with 0 in Hno by lia. rewrite Z.div_0_l in Hno by lia. lia.
    - replace (Z.max 0 (Z.max 0 (total - 32) - 2 * (spf - 1))) with (total - 32 - 2 * (spf - 1)) in Hno by lia.
      assert ((total - 32 - 2 * (spf - 1)) / spc ≤ total - 32 - 2 * (spf - 1)) by (apply Z.div_le_upper_bound; nia). lia. }
  exists spf. split_and!; try done; try lia. unfold Mkfs.geometry_for. rewrite E. cbn [mbind res_bind].
  unfold Mkfs.sub32, Mkfs.mul32, Mkfs.div32, Mkfs.RESERVED_SECTORS, Mkfs.FAT_COUNT, checked_mul.
  rewrite (proj2 (Z.ltb_ge total 32)) by lia. cbn [mbind res_bind]. rewrite (proj2 (Z.ltb_lt (2 * spf) _)) by lia. cbn [expect mbind res_bind].
  rewrite (proj2 (Z.ltb_ge (total - 32) _)) by lia. cbn [mbind res_bind]. by rewrite (proj2 (Z.eqb_neq spc 0)) by lia.
Qed.
End geometry.

(** ** Volumes without subdirectories *)
Definition flat (f : Mkfs.File) : Prop := Mkfs.fname f ≠ [] ∧ SLASH ∉ Mkfs.fname f.

Lemma split_all_flat sep l : sep ∉ l → split_all sep l = [l].
Proof.
  induction l as [|b l IH]; intros Hl; [done|]. cbn [split_all]. rewrite (proj2 (Z.eqb_neq b sep)) by (intros ->; apply Hl; by left).
  rewrite IH; [done|]. intros Hin. apply Hl. by right.
Qed.

Lemma before_last_flat sep l : sep ∉ l → before_last sep l = None.
Proof.
  induction l as [|b l IH]; intros Hl; [done|]. cbn [before_last]. rewrite IH by (intros Hin; apply Hl; by right).
  by rewrite (proj2 (Z.eqb_neq b sep)) by (intros ->; apply Hl; by left).
Qed.

Lemma last_part_flat nm : SLASH ∉ nm → last_part nm = nm.
Proof. intros Hn. unfold last_part. by rewrite split_all_flat. Qed.

Lemma tree_flat files : Forall flat files → Mkfs.tree_of files = [([], Mkfs.EFile <$> files)].
Proof.
  unfold Mkfs.tree_of. intros Hf. change (@nil Mkfs.TreeEntry) with (Mkfs.EFile <$> []).
  change files with ([] ++ files) at 2. generalize (@nil Mkfs.File) at 1 2. induction Hf as [|f files [_ Hs] _ IH]; intros l; cbn [foldl].
  { by rewrite app_nil_r. }
  assert (Mkfs.add_file [([], Mkfs.EFile <$> l)] f = [([], Mkfs.EFile <$> (l ++ [f]))]) as ->.
  { unfold Mkfs.add_file, Mkfs.parents_of. rewrite before_last_flat by done. cbn. by rewrite fmap_app. }
  rewrite IH. by rewrite <-app_assoc.
Qed.

Definition needed (cb : Z) (f : Mkfs.File) : Z := div_ceil (len (Mkfs.contents f)) cb.

(** Where each file starts, from the cluster [next] on; a file without bytes has none. *)
Fixpoint lay (cb next : Z) (files : list Mkfs.File) : list (Mkfs.File * Z) :=
  match files with
  | [] => []
  | f :: files => (f, if needed cb f =? 0 then 0 else next) :: lay cb (next + needed cb f) files
  end.

Definition file_links (first n : Z) : list (Z * Z) :=
  (λ i, (first + i, if i + 1 =? n then Mkfs.END_OF_CHAIN else first + i + 1)) <$> seqZ 0 n.

Fixpoint links (cb next : Z) (files : list Mkfs.File) : list (Z * Z) :=
  match files with
  | [] => []
  | f :: files => file_links next (needed cb f) ++ links cb (next + needed cb f) files
  end.

Fixpoint total_needed (cb : Z) (files : list Mkfs.File) : Z :=
  match files with [] => 0 | f :: files => needed cb f + total_needed cb files end.

(** A key above all of them goes last. *)
Lemma link_last c v m : Forall (λ kv, kv.1 < c) m → Mkfs.link c v m = m ++ [(c, v)].
Proof.
  unfold Mkfs.link. induction 1 as [|[k w] m Hk _ IH]; [done|]. simpl in Hk. cbn [BTree.insert].
  rewrite (proj2 (Z.eqb_neq c k)), (proj2 (Z.ltb_ge c k)) by lia. by rewrite IH.
Qed.

Lemma link_file_run first n m : 0 ≤ n → 0 ≤ first → first + n < 2 ^ 32 → Forall (λ kv, kv.1 < first) m →
  Mkfs.link_file first n m = Ok (m ++ file_links first n).
Proof.
  intros Hn Hf Hlt Hm. unfold Mkfs.link_file, file_links.
  set (step := λ chains index, _). set (item := λ i, (first + i, _)).
  assert (∀ k : nat, Z.of_nat k ≤ n → ∀ m', Forall (λ kv, kv.1 < first + (n - Z.of_nat k)) m' →
    foldM step m' (seqZ (n - Z.of_nat k) (Z.of_nat k)) = Ok (m' ++ (item <$> seqZ (n - Z.of_nat k) (Z.of_nat k)))) as Hgen.
  { induction k as [|k IH]; intros Hk m' Hm'; [by rewrite app_nil_r|]. rewrite seqZ_cons by lia.
    replace (Z.pred (Z.of_nat (S k))) with (Z.of_nat k) by lia. replace (Z.succ (n - Z.of_nat (S k))) with (n - Z.of_nat k) by lia.
    cbn [foldM fmap list_fmap]. set (i := n - Z.of_nat (S k)) in *.
    assert (step m' i = Ok (m' ++ [item i])) as ->.
    { unfold step, item, Mkfs.add32, checked_add. rewrite (proj2 (Z.ltb_lt (first + i) _)) by lia. cbn [expect mbind res_bind].
      destruct (Z.eqb_spec (i + 1) n); cbn [mbind res_bind]; [by rewrite link_last|].
      rewrite (proj2 (Z.ltb_lt (first + i + 1) _)) by lia. cbn [expect mbind res_bind]. by rewrite link_last. }
    cbn [mbind res_bind]. rewrite IH; [by rewrite <-app_assoc|lia|]. apply Forall_app. split.
    - eapply Forall_impl; [exact Hm'|]. simpl. lia.
    - repeat constructor. simpl. lia. }
  specialize (Hgen (Z.to_nat n)). rewrite Z2Nat.id, Z.sub_diag in Hgen by lia. apply Hgen; [lia|]. by rewrite Z.add_0_r.
Qed.

Lemma file_links_keys first n c v : (c, v) ∈ file_links first n → first ≤ c < first + n.
Proof. unfold file_links. intros (i & [= -> ->] & Hi)%list_elem_of_fmap. apply elem_of_seqZ in Hi. lia. Qed.

Lemma needed_bounds cb f : 0 < cb → 0 ≤ needed cb f ≤ len (Mkfs.contents f) ∧ (needed cb f = 0 ↔ Mkfs.contents f = []) ∧
  (∀ q, needed cb f ≤ q ↔ len (Mkfs.contents f) ≤ q * cb).
Proof.
  intros Hcb. unfold needed. pose proof (λ q, div_ceil_spec (len (Mkfs.contents f)) cb q Hcb) as Hs. pose proof (len_nonneg (Mkfs.contents f)).
  assert (0 ≤ div_ceil (len (Mkfs.contents f)) cb) as H0.
  { destruct (decide (0 ≤ div_ceil (len (Mkfs.contents f)) cb)); [done|]. pose proof (proj1 (Hs (-1)) ltac:(lia)). nia. }
  split; [split; [done|]; apply Hs; nia|]. split; [|done]. split.
  - intros He. pose proof (proj1 (Hs 0) ltac:(lia)). destruct (Mkfs.contents f); [done|]. unfold len in *. simpl in *. lia.
  - intros E. assert (div_ceil (len (Mkfs.contents f)) cb ≤ 0) by (apply Hs; rewrite E; done). lia.
Qed.

Lemma total_needed_nonneg cb files : 0 < cb → 0 ≤ total_needed cb files.
Proof. intros Hcb. induction files as [|f files IH]; cbn [total_needed]; [lia|]. pose proof (needed_bounds cb f Hcb). lia. Qed.

(** What placing the files answers. *)
Lemma place_files_run g cb files p : 512 ≤ cb → 0 ≤ Mkfs.clusters g < 2 ^ 31 → 0 ≤ Mkfs.next_free p ≤ 2 + Mkfs.clusters g →
  Forall (λ f, len (Mkfs.contents f) < 2 ^ 32) files → Forall (λ kv, kv.1 < Mkfs.next_free p) (Mkfs.chains p) →
  if decide (Mkfs.next_free p + total_needed cb files ≤ 2 + Mkfs.clusters g) then
    foldM (Mkfs.place_file g cb) p files = Ok {|
      Mkfs.chains := Mkfs.chains p ++ links cb (Mkfs.next_free p) files;
      Mkfs.next_free := Mkfs.next_free p + total_needed cb files;
      Mkfs.directory_cluster := Mkfs.directory_cluster p;
      Mkfs.placed := Mkfs.placed p ++ lay cb (Mkfs.next_free p) files |}
  else ∃ n a, foldM (Mkfs.place_file g cb) p files = Err (Mkfs.OutOfClusters n a).
Proof.
  intros Hcb Hg. revert p. induction files as [|f files IH]; intros p Hp Hlen Hk; cbn [total_needed foldM lay links].
  { rewrite decide_True by lia. rewrite !app_nil_r, Z.add_0_r. by destruct p. }
  apply Forall_cons in Hlen as [Hf Hlen]. pose proof (needed_bounds cb f ltac:(lia)) as (Hn & _ & Hq). pose proof (total_needed_nonneg cb files ltac:(lia)).
  assert (needed cb f ≤ 2 ^ 23) as Hn23 by (apply Hq; nia).
  assert (wrap 32 (div_ceil (len (Mkfs.contents f)) cb) = needed cb f) as Hw by (apply Z.mod_small; fold (needed cb f); lia).
  destruct (Z.eqb_spec (needed cb f) 0) as [E0|E0].
  - assert (Mkfs.place_file g cb p f = Ok {| Mkfs.chains := Mkfs.chains p; Mkfs.next_free := Mkfs.next_free p;
      Mkfs.directory_cluster := Mkfs.directory_cluster p; Mkfs.placed := Mkfs.placed p ++ [(f, 0)] |}) as ->.
    { unfold Mkfs.place_file. rewrite Hw. by rewrite E0. }
    cbn [mbind res_bind]. rewrite E0, Z.add_0_r, Z.add_0_l. change (file_links (Mkfs.next_free p) 0) with (@nil (Z * Z)). simpl app.
    specialize (IH {| Mkfs.chains := Mkfs.chains p; Mkfs.next_free := Mkfs.next_free p;
      Mkfs.directory_cluster := Mkfs.directory_cluster p; Mkfs.placed := Mkfs.placed p ++ [(f, 0)] |} Hp Hlen Hk).
    cbn [Mkfs.chains Mkfs.next_free Mkfs.directory_cluster Mkfs.placed] in IH. case_decide; [|done]. by rewrite IH, <-app_assoc.
  - assert (Mkfs.place_file g cb p f = if 2 + Mkfs.clusters g <? Mkfs.next_free p + needed cb f
      then Err (Mkfs.OutOfClusters (needed cb f) (2 + Mkfs.clusters g - Mkfs.next_free p))
      else Ok {| Mkfs.chains := Mkfs.chains p ++ file_links (Mkfs.next_free p) (needed cb f); Mkfs.next_free := Mkfs.next_free p + needed cb f;
        Mkfs.directory_cluster := Mkfs.directory_cluster p; Mkfs.placed := Mkfs.placed p ++ [(f, Mkfs.next_free p)] |}) as ->.
    { unfold Mkfs.place_file. rewrite Hw, (proj2 (Z.eqb_neq _ _)) by done.
      unfold Mkfs.add32, checked_add, Mkfs.FIRST_DATA_CLUSTER. rewrite (proj2 (Z.ltb_lt (Mkfs.next_free p + needed cb f) _)) by lia.
      cbn [expect mbind res_bind]. rewrite (proj2 (Z.ltb_lt (2 + Mkfs.clusters g) _)) by lia. cbn [expect mbind res_bind].
      destruct (Z.ltb_spec (2 + Mkfs.clusters g) (Mkfs.next_free p + needed cb f)).
      - unfold Mkfs.sub32. by rewrite (proj2 (Z.ltb_ge _ _)) by lia.
      - by rewrite link_file_run by (done || lia). }
    destruct (Z.ltb_spec (2 + Mkfs.clusters g) (Mkfs.next_free p + needed cb f)); cbn [mbind res_bind].
    { rewrite decide_False by lia. by eexists _, _. }
    specialize (IH {| Mkfs.chains := Mkfs.chains p ++ file_links (Mkfs.next_free p) (needed cb f); Mkfs.next_free := Mkfs.next_free p + needed cb f;
      Mkfs.directory_cluster := Mkfs.directory_cluster p; Mkfs.placed := Mkfs.placed p ++ [(f, Mkfs.next_free p)] |}).
    cbn [Mkfs.chains Mkfs.next_free Mkfs.directory_cluster Mkfs.placed] in IH.
    specialize (IH ltac:(lia) Hlen). rewrite Z.add_assoc.
    assert (Forall (λ kv : Z * Z, kv.1 < Mkfs.next_free p + needed cb f) (Mkfs.chains p ++ file_links (Mkfs.next_free p) (needed cb f))) as Hk'.
    { apply Forall_app. split; [eapply Forall_impl; [exact Hk|simpl; lia]|]. apply Forall_forall. intros [c v] Hc%file_links_keys. simpl. lia. }
    specialize (IH Hk'). case_decide; [|done]. by rewrite IH, <-!app_assoc.
Qed.

(** * The formatter: what ends up where

    The phases of [write_image], each with the range of bytes it changes and
    what that range holds afterwards. *)

(** ** Writes and what they leave alone *)

(** [m'] is [m] but for the bytes from [a] up to [b]. *)
Definition kept (a b : Z) (m m' : list Z) : Prop :=
  len m' = len m ∧ (bytes_ok m → bytes_ok m') ∧ ∀ i : nat, ¬ (a ≤ Z.of_nat i < b) → m' !! i = m !! i.

(** The bytes from [a] on are [l]. *)
Definition holds (m : list Z) (a : Z) (l : list Z) : Prop := ∀ i : nat, (i < length l)%nat → m !! (Z.to_nat a + i)%nat = l !! i.

#[export] Instance kept_preorder a b : PreOrder (kept a b).
Proof.
  split; [done|]. intros m m' m'' (L & B & K) (L' & B' & K'). split; [congruence|]. split; [tauto|].
  intros i Hi. by rewrite K', K.
Qed.

Lemma kept_weaken a b a' b' m m' : a' ≤ a → b ≤ b' → kept a b m m' → kept a' b' m m'.
Proof. intros Ha Hb (L & B & K). split; [done|]. split; [done|]. intros i Hi. apply K. lia. Qed.

Lemma holds_kept m m' a l x y : 0 ≤ a → kept x y m m' → a + len l ≤ x ∨ y ≤ a → holds m a l → holds m' a l.
Proof.
  intros Ha (_ & _ & K) Hd Hm i Hi. rewrite K; [by apply Hm|]. unfold len in Hd. lia.
Qed.

Lemma holds_app m a l l' : 0 ≤ a → holds m a (l ++ l') ↔ holds m a l ∧ holds m (a + len l) l'.
Proof.
  intros Ha. unfold holds, len. split.
  - intros Hm. split; intros i Hi.
    + rewrite Hm by (rewrite length_app; lia). by rewrite lookup_app_l.
    + replace (Z.to_nat (a + Z.of_nat (length l)) + i)%nat with (Z.to_nat a + (length l + i))%nat by lia.
      rewrite Hm by (rewrite length_app; lia). rewrite lookup_app_r by lia. f_equal. lia.
  - intros [H1 H2] i Hi. rewrite length_app in Hi. destruct (decide (i < length l)%nat).
    + rewrite H1, lookup_app_l by done. done.
    + rewrite lookup_app_r by lia. rewrite <-H2 by lia. f_equal. lia.
Qed.

Lemma holds_zeros m a n b k : 0 ≤ a ≤ b → b + Z.of_nat k ≤ a + Z.of_nat n → holds m a (replicate n 0) → holds m b (replicate k 0).
Proof.
  intros Hab Hk Hm i Hi. rewrite length_replicate in Hi. rewrite lookup_replicate_2 by done.
  replace (Z.to_nat b + i)%nat with (Z.to_nat a + (Z.to_nat b - Z.to_nat a + i))%nat by lia.
  rewrite Hm by (rewrite length_replicate; lia). apply lookup_replicate_2. lia.
Qed.

Lemma holds_slice m a l : 0 ≤ a → a + len l ≤ len m → holds m a l → slice m a (a + len l) = Some l.
Proof.
  intros Ha Hl Hm. pose proof (len_nonneg l). rewrite slice_Some by lia. f_equal. apply list_eq. intros i.
  replace (Z.to_nat (a + len l - a)) with (length l) by (unfold len; lia). destruct (decide (i < length l)%nat).
  - rewrite lookup_take_lt, lookup_drop by done. by apply Hm.
  - rewrite lookup_take_ge, (lookup_ge_None_2 l) by lia. done.
Qed.

Lemma put_run {X} m a l : 0 ≤ a → a + len l ≤ len m → bytes_ok l →
  ∃ m', Mkfs.put (X:=X) m a l = Ok m' ∧ kept a (a + len l) m m' ∧ holds m' a l.
Proof.
  intros Ha Hl Hb. unfold Mkfs.put. rewrite copy_at_Some by lia. eexists. split; [done|]. unfold len in *. split.
  - split; [apply len_splice; lia|]. split; [intros; by apply bytes_ok_splice|]. intros i Hi. rewrite splice_lookup by lia.
    by rewrite decide_False by lia.
  - intros i Hi. rewrite splice_lookup by lia. rewrite decide_True by lia. f_equal. lia.
Qed.

Lemma write_u32_run {X} m a v : 0 ≤ a → a + 4 ≤ len m →
  ∃ m', Mkfs.write_u32 (X:=X) m a v = Ok m' ∧ kept a (a + 4) m m' ∧ holds m' a (le_encode 4 v).
Proof. intros Ha Hm. apply (put_run m a (le_encode 4 v)); [done|done|apply le_encode_ok]. Qed.

(** ** The sectors built from fields *)
Definition in_fields (n : Z) (ws : list (Z * list Z)) : Prop := Forall (λ w, 0 ≤ w.1 ∧ w.1 + len w.2 ≤ n) ws.

Lemma fields_length n ws : 0 ≤ n → in_fields n ws → len (Mkfs.fields n ws) = n.
Proof.
  intros Hn Hw. unfold Mkfs.fields.
  assert (∀ s, len s = n → len (foldl (λ s w, splice s (Z.to_nat w.1) w.2) s ws) = n) as Hgen.
  { induction Hw as [|[o l] ws [Ho Hl] _ IH]; intros s Hs; [done|]. cbn [foldl]. apply IH. simpl in *. rewrite len_splice; [done|unfold len in *; lia]. }
  apply Hgen. rewrite len_replicate. lia.
Qed.

Lemma fields_ok n ws : Forall (λ w, bytes_ok w.2) ws → bytes_ok (Mkfs.fields n ws).
Proof.
  intros Hw. unfold Mkfs.fields. assert (bytes_ok (replicate (Z.to_nat n) 0)) as H0 by (apply Forall_replicate; lia).
  revert H0. generalize (replicate (Z.to_nat n) 0). induction Hw as [|w ws Hb _ IH]; intros s Hs; [done|]. by apply IH, bytes_ok_splice.
Qed.

(** The byte at [i]: of the last field over it. *)
Definition field_byte (ws : list (Z * list Z)) (i : Z) : Z :=
  foldl (λ b w, if (w.1 <=? i) && (i <? w.1 + len w.2) then nth (Z.to_nat (i - w.1)) w.2 0 else b) 0 ws.

Lemma fields_byte n ws i : in_fields n ws → 0 ≤ i < n → Boot.byte_at (Mkfs.fields n ws) i = field_byte ws i.
Proof.
  intros Hw Hi. unfold Mkfs.fields, field_byte.
  assert (∀ s b, len s = n → Boot.byte_at s i = b → Boot.byte_at (foldl (λ s w, splice s (Z.to_nat w.1) w.2) s ws) i =
    foldl (λ b w, if (w.1 <=? i) && (i <? w.1 + len w.2) then nth (Z.to_nat (i - w.1)) w.2 0 else b) b ws) as Hgen.
  { induction Hw as [|[o l] ws [Ho Hl] _ IH]; intros s b Hs Hb; [done|]. cbn [foldl fst snd] in *. apply IH.
    { rewrite len_splice; [done|unfold len in *; lia]. }
    unfold len in *. unfold Boot.byte_at in *. rewrite nth_lookup, splice_lookup by lia.
    destruct (Z.leb_spec o i), (Z.ltb_spec i (o + Z.of_nat (length l))); cbn [andb].
    - rewrite decide_True by lia. rewrite nth_lookup. do 2 f_equal. lia.
    - rewrite decide_False by lia. by rewrite <-nth_lookup.
    - rewrite decide_False by lia. by rewrite <-nth_lookup.
    - lia. }
  apply Hgen; [rewrite len_replicate; lia|]. unfold Boot.byte_at. rewrite nth_lookup, lookup_replicate_2 by lia. done.
Qed.

(** A field that no later one touches. *)
Lemma fields_hold n ws1 o l ws2 : in_fields n (ws1 ++ (o, l) :: ws2) → 0 ≤ n →
  Forall (λ w, w.1 + len w.2 ≤ o ∨ o + len l ≤ w.1) ws2 → holds (Mkfs.fields n (ws1 ++ (o, l) :: ws2)) o l.
Proof.
  intros Hin Hn Hclear. apply Forall_app in Hin as [Hin1 [Ho Hin2]%Forall_cons]. simpl in Ho.
  pose proof (fields_length n ws1 Hn Hin1) as Hlen. unfold Mkfs.fields in *. rewrite foldl_app. cbn [foldl fst snd].
  set (s := foldl _ _ ws1) in *. clearbody s.
  assert (len (splice s (Z.to_nat o) l) = n) as Hlen' by (rewrite len_splice; unfold len in *; lia).
  assert (holds (splice s (Z.to_nat o) l) o l) as Hh.
  { intros i Hi. unfold len in *. rewrite splice_lookup by lia. rewrite decide_True by lia. f_equal. lia. }
  revert Hlen' Hh. generalize (splice s (Z.to_nat o) l). clear s Hlen. induction Hclear as [|[o' l'] ws Hd _ IH]; intros s Hs Hh; [done|].
  apply Forall_cons in Hin2 as [Ho' Hin2]. cbn [foldl fst snd] in *. apply IH; [done|rewrite len_splice; unfold len in *; lia|].
  intros i Hi. unfold len in *. rewrite splice_lookup by lia. rewrite decide_False by lia. by apply Hh.
Qed.

(** ** The phases *)
Section image.
  Context (total spc spf : Z) (Htotal : 34 ≤ total < 2 ^ 26 - 1) (Hspc : 1 ≤ spc ≤ 128) (Hspf : 0 < spf) (Hfit : 32 + 2 * spf ≤ total).

Definition geo : Mkfs.Geometry :=
  {| Mkfs.total_sectors := total; Mkfs.sectors_per_cluster := spc; Mkfs.reserved_sectors := 32; Mkfs.fat_count := 2;
     Mkfs.sectors_per_fat := spf; Mkfs.root_cluster := 2; Mkfs.clusters := (total - 32 - 2 * spf) / spc |}.

(** Where cluster [c] starts, in bytes. *)
Definition cluster_at (c : Z) : Z := (32 + 2 * spf + (c - 2) * spc) * 512.

Lemma format_clusters_fit : 0 ≤ Mkfs.clusters geo ∧ (Mkfs.clusters geo) * spc ≤ total - 32 - 2 * spf.
Proof.
  cbn [Mkfs.clusters geo]. split; [apply Z.div_pos; lia|]. rewrite Z.mul_comm. apply Z.mul_div_le. lia.
Qed.

Lemma cluster_at_bounds c : 2 ≤ c ≤ 2 + Mkfs.clusters geo → (32 + 2 * spf) * 512 ≤ cluster_at c ≤ total * 512.
Proof. pose proof format_clusters_fit. unfold cluster_at. nia. Qed.

Lemma sector_of_cluster_run {X} c : 2 ≤ c ≤ 2 + Mkfs.clusters geo →
  Mkfs.sector_of_cluster (X:=X) geo c = Ok (32 + 2 * spf + (c - 2) * spc).
Proof.
  intros Hc. pose proof format_clusters_fit. assert (0 ≤ (c - 2) * spc ≤ total) by nia.
  unfold Mkfs.sector_of_cluster, Mkfs.first_data_sector, Mkfs.mul32, Mkfs.add32, Mkfs.sub32, Mkfs.FIRST_DATA_CLUSTER, checked_mul, checked_add.
  cbn [geo Mkfs.fat_count Mkfs.sectors_per_fat Mkfs.reserved_sectors Mkfs.sectors_per_cluster].
  rewrite (proj2 (Z.ltb_lt (2 * spf) _)) by lia. cbn [expect mbind res_bind]. rewrite (proj2 (Z.ltb_lt (32 + 2 * spf) _)) by lia. cbn [expect mbind res_bind].
  rewrite (proj2 (Z.ltb_ge c 2)) by lia. cbn [mbind res_bind]. rewrite (proj2 (Z.ltb_lt ((c - 2) * spc) _)) by lia. cbn [expect mbind res_bind].
  by rewrite (proj2 (Z.ltb_lt (32 + 2 * spf + (c - 2) * spc) _)) by lia.
Qed.

(** *** The tables *)
Definition table_at (t : Z) : Z := (32 + t * spf) * 512.

Lemma write_table_run t chains m : 0 ≤ t < 2 → len m = total * 512 → NoDup (fst <$> chains) →
  Forall (λ kv, 2 ≤ kv.1 < spf * 128) chains →
  ∃ m', Mkfs.write_table geo chains m t = Ok m' ∧ kept (table_at t) (table_at (t + 1)) m m' ∧
    ∀ c v, (c, v) ∈ chains → holds m' (table_at t + c * 4) (le_encode 4 v).
Proof.
  intros Ht Hm Hnd Hk. unfold Mkfs.write_table, Mkfs.mul32, Mkfs.add32, checked_mul, checked_add, Mkfs.RESERVED_SECTORS.
  cbn [geo Mkfs.sectors_per_fat]. assert (0 ≤ t * spf ≤ spf) by nia.
  rewrite (proj2 (Z.ltb_lt (t * spf) _)) by lia. cbn [expect mbind res_bind]. rewrite (proj2 (Z.ltb_lt (32 + t * spf) _)) by lia. cbn [expect mbind res_bind].
  cbv zeta. change ((32 + t * spf) * Mkfs.SECTOR_BYTES) with (table_at t).
  assert (0 ≤ table_at t ∧ table_at (t + 1) = table_at t + spf * 512 ∧ table_at (t + 1) ≤ len m) as (H0 & H1 & H2) by (unfold table_at; lia).
  destruct (write_u32_run (X:=Mkfs.FormatError) m (table_at t) (Z.lor 0x0FFFFF00 Mkfs.MEDIA_DESCRIPTOR)) as (m1 & -> & K1 & _); [done|lia|]. cbn [mbind res_bind].
  pose proof K1 as (L1 & _). destruct (write_u32_run (X:=Mkfs.FormatError) m1 (table_at t + 4) Mkfs.END_OF_CHAIN) as (m2 & -> & K2 & _); [lia|lia|]. cbn [mbind res_bind].
  pose proof K2 as (L2 & _).
  apply (foldM_ind (λ pre m', kept (table_at t) (table_at (t + 1)) m m' ∧ ∀ c v, (c, v) ∈ pre → holds m' (table_at t + c * 4) (le_encode 4 v))).
  - split; [|intros c v []%not_elem_of_nil]. transitivity m1; (eapply kept_weaken; [..|done]; lia).
  - intros pre [c v] post m' -> [K Hpre]. rewrite fmap_app, fmap_cons in Hnd. apply NoDup_app in Hnd as (_ & Hnd & _).
    apply Forall_app in Hk as [Hkp (Hc & _)%Forall_cons]. simpl in Hc. pose proof K as (L & _).
    destruct (write_u32_run (X:=Mkfs.FormatError) m' (table_at t + c * 4) v) as (m'' & -> & K' & Hh); [lia|lia|]. exists m''. split; [done|]. split.
    + transitivity m'; [done|]. eapply kept_weaken; [..|exact K']; lia.
    + intros c' v' [Hin|Hin]%elem_of_app; [|by apply list_elem_of_singleton in Hin as [= -> ->]].
      pose proof (Hpre c' v' Hin) as Hold. rewrite Forall_forall in Hkp. specialize (Hkp _ Hin). simpl in Hkp.
      eapply holds_kept; [..|exact Hold]; [lia|exact K'|]. change (len (le_encode 4 v')) with 4.
      assert (c' ≠ c); [|lia]. intros ->. apply (Hnd c); [|by left]. apply list_elem_of_fmap. by exists (c, v').
Qed.

Lemma write_tables_run chains m : len m = total * 512 → NoDup (fst <$> chains) →
  Forall (λ kv, 2 ≤ kv.1 < spf * 128) chains →
  ∃ m', foldM (Mkfs.write_table geo chains) m (seqZ 0 Mkfs.FAT_COUNT) = Ok m' ∧ kept (32 * 512) ((32 + 2 * spf) * 512) m m' ∧
    ∀ c v, (c, v) ∈ chains → holds m' (32 * 512 + c * 4) (le_encode 4 v).
Proof.
  intros Hm Hnd Hk. change (seqZ 0 Mkfs.FAT_COUNT) with [0; 1]. cbn [foldM].
  destruct (write_table_run 0 chains m ltac:(lia) Hm Hnd Hk) as (m1 & -> & K1 & H1). cbn [mbind res_bind]. pose proof K1 as (L1 & _).
  destruct (write_table_run 1 chains m1 ltac:(lia) ltac:(lia) Hnd Hk) as (m2 & -> & K2 & _). cbn [mbind res_bind]. exists m2. split; [done|].
  unfold table_at in *. split.
  - transitivity m1; (eapply kept_weaken; [..|done]; lia).
  - intros c v Hin. specialize (H1 c v Hin). rewrite Forall_forall in Hk. specialize (Hk _ Hin). simpl in Hk.
    eapply holds_kept; [| exact K2|left; change (len (le_encode 4 v)) with 4; lia|exact H1]. lia.
Qed.

(** *** The contents *)
Lemma write_contents_run cb next files m : cb = 512 * spc → len m = total * 512 → 2 ≤ next →
  next + total_needed cb files ≤ 2 + Mkfs.clusters geo → Forall (λ f, bytes_ok (Mkfs.contents f)) files →
  ∃ m', foldM (Mkfs.write_contents geo) m (lay cb next files) = Ok m' ∧
    kept (cluster_at next) (cluster_at (next + total_needed cb files)) m m' ∧
    ∀ f c, (f, c) ∈ lay cb next files → c ≠ 0 → holds m' (cluster_at c) (Mkfs.contents f).
Proof.
  intros ->. set (cb := 512 * spc). revert next m. induction files as [|f files IH]; intros next m Hm Hn Hle Hb; cbn [lay foldM total_needed].
  { exists m. split; [done|]. split; [done|]. intros f c []%not_elem_of_nil. }
  apply Forall_cons in Hb as [Hbf Hb]. cbn [total_needed] in Hle.
  pose proof (needed_bounds cb f ltac:(lia)) as (Hf & Hf0 & Hq). pose proof (total_needed_nonneg cb files ltac:(lia)) as Ht.
  assert (∃ m1, Mkfs.write_contents geo m (f, if needed cb f =? 0 then 0 else next) = Ok m1 ∧
    kept (cluster_at next) (cluster_at (next + needed cb f)) m m1 ∧
    (needed cb f ≠ 0 → holds m1 (cluster_at next) (Mkfs.contents f))) as (m1 & -> & K1 & H1).
  { unfold Mkfs.write_contents. destruct (Z.eqb_spec (needed cb f) 0) as [E0|E0]; [by exists m|]. rewrite (proj2 (Z.eqb_neq next 0)) by lia.
    rewrite sector_of_cluster_run by lia. cbn [mbind res_bind]. change ((32 + 2 * spf + (next - 2) * spc) * Mkfs.SECTOR_BYTES) with (cluster_at next).
    pose proof (cluster_at_bounds next ltac:(lia)). pose proof (cluster_at_bounds (next + needed cb f) ltac:(lia)).
    assert (cluster_at next + len (Mkfs.contents f) ≤ cluster_at (next + needed cb f)) as Hend.
    { pose proof (proj1 (Hq (needed cb f)) ltac:(lia)). unfold cluster_at, cb in *. nia. }
    destruct (put_run (X:=Mkfs.FormatError) m (cluster_at next) (Mkfs.contents f)) as (m1 & -> & K1 & H1); [lia|lia|done|].
    exists m1. split; [done|]. split; [|done]. eapply kept_weaken; [..|exact K1]; lia. }
  cbn [mbind res_bind]. pose proof K1 as (L1 & _).
  destruct (IH (next + needed cb f) m1) as (m' & -> & K & H); [lia|lia|lia|done|]. exists m'. split; [done|].
  rewrite Z.add_assoc.
  assert (cluster_at next ≤ cluster_at (next + needed cb f) ≤ cluster_at (next + needed cb f + total_needed cb files)) as Hord
    by (unfold cluster_at; nia).
  split; [transitivity m1; (eapply kept_weaken; [..|done]; lia)|].
  intros f' c [[= -> ->]|Hin]%elem_of_cons Hc.
  - destruct (Z.eqb_spec (needed cb f) 0) as [|E0]; [done|]. eapply holds_kept; [|exact K| |by apply H1].
    { pose proof (cluster_at_bounds next ltac:(lia)). lia. }
    left. pose proof (proj1 (Hq (needed cb f)) ltac:(lia)). unfold cluster_at, cb in *. nia.
  - by apply H.
Qed.

(** *** The root directory *)
Definition label_entry (label : list Z) : list Z := Mkfs.padded_label label ++ [Mkfs.ATTR_VOLUME_LABEL] ++ replicate 20 0.

Lemma padded_label_length label : length (Mkfs.padded_label label) = 11%nat.
Proof.
  pose proof (len_splice (replicate 11 32) 0 (take 11 label)) as Hl. unfold len, Mkfs.padded_label in *.
  rewrite length_take, length_replicate in Hl. lia.
Qed.

Lemma padded_label_ok label : bytes_ok label → bytes_ok (Mkfs.padded_label label).
Proof. intros Hl. apply bytes_ok_splice; [apply Forall_replicate; lia|by apply Forall_take]. Qed.

Lemma write_entries_run went clusters_of (eb : Mkfs.TreeEntry → list Z) held m at_ :
  0 ≤ at_ → at_ + 32 * len held ≤ len m →
  (∀ e, e ∈ held → Mkfs.bytes_of_entry went clusters_of e = Ok (eb e) ∧ len (eb e) = 32 ∧ bytes_ok (eb e)) →
  ∃ m', Mkfs.write_entries went clusters_of m at_ held = Ok (m', at_ + 32 * len held) ∧
    kept at_ (at_ + 32 * len held) m m' ∧ holds m' at_ (concat (eb <$> held)).
Proof.
  intros Ha Hl Hb. unfold Mkfs.write_entries.
  destruct (foldM_ind (λ pre (s : list Z * Z), s.2 = at_ + 32 * len pre ∧ kept at_ (at_ + 32 * len held) m s.1 ∧
    holds s.1 at_ (concat (eb <$> pre)) ∧ len (concat (eb <$> pre)) = 32 * len pre)
    (λ '(image, entry_at) e, bytes ← Mkfs.bytes_of_entry went clusters_of e; image ← Mkfs.put image entry_at bytes;
       Ok (image, entry_at + Mkfs.DIRECTORY_ENTRY_BYTES)) held (m, at_)) as ([m' n] & -> & En & K & H & _).
  - split; [change (len (@nil Mkfs.TreeEntry)) with 0; simpl; lia|]. split; [done|]. split; [|done]. intros i Hi. simpl in Hi. lia.
  - intros pre e post [m' n] -> (En & K & H & L). simpl in En, K, H. subst n. pose proof K as (Lm & _).
    destruct (Hb e) as (-> & Le & Be); [set_solver|]. cbn [mbind res_bind]. rewrite len_app, len_cons in *. pose proof (len_nonneg post). pose proof (len_nonneg pre).
    destruct (put_run (X:=Mkfs.FormatError) m' (at_ + 32 * len pre) (eb e)) as (m'' & -> & K' & H'); [lia|rewrite Le; lia|done|]. cbn [mbind res_bind].
    eexists. split; [done|]. cbn [fst snd]. rewrite fmap_app, concat_app, !len_app. cbn [fmap list_fmap concat]. rewrite app_nil_r.
    rewrite ?len_cons. change (len []) with 0. unfold Mkfs.DIRECTORY_ENTRY_BYTES. split; [lia|]. split.
    { transitivity m'; [done|]. eapply kept_weaken; [..|exact K']; lia. }
    split; [|lia]. apply holds_app; [done|]. split; [|by rewrite L]. eapply holds_kept; [..|exact H]; [done|exact K'|]. lia.
  - simpl in En, K, H. subst n. by exists m'.
Qed.

(** The first cluster holds the label, the entries and nothing else. *)
Lemma write_root_run label went clusters_of (eb : Mkfs.TreeEntry → list Z) held m :
  len m = total * 512 → BTree.get str_eqb [] clusters_of = Some 2 → 1 ≤ Mkfs.clusters geo → bytes_ok label →
  32 * (1 + len held) ≤ 512 * spc → holds m (cluster_at 2) (replicate (Z.to_nat (512 * spc)) 0) →
  (∀ e, e ∈ held → Mkfs.bytes_of_entry went clusters_of e = Ok (eb e) ∧ len (eb e) = 32 ∧ bytes_ok (eb e)) →
  ∃ m', Mkfs.write_directory geo label went clusters_of m ([], held) = Ok m' ∧ kept (cluster_at 2) (cluster_at 3) m m' ∧
    holds m' (cluster_at 2) (label_entry label ++ concat (eb <$> held) ++ replicate (Z.to_nat (512 * spc - 32 * (1 + len held))) 0).
Proof.
  intros Hm Hget Hcl Hlab Hroom Hz Hb. unfold Mkfs.write_directory. rewrite Hget. cbn [expect mbind res_bind].
  rewrite sector_of_cluster_run by lia. cbn [mbind res_bind]. change ((32 + 2 * spf + (2 - 2) * spc) * Mkfs.SECTOR_BYTES) with (cluster_at 2).
  pose proof (cluster_at_bounds 2 ltac:(lia)) as Hat2. pose proof (cluster_at_bounds 3 ltac:(lia)) as Hat3. pose proof (len_nonneg held) as Hh0.
  assert (cluster_at 3 = cluster_at 2 + 512 * spc) as Hc3 by (unfold cluster_at; lia).
  unfold Mkfs.write_head. rewrite bool_decide_true by done. pose proof (padded_label_length label) as Hpl.
  assert (len (Mkfs.padded_label label) = 11) as Hpl' by (unfold len; lia).
  destruct (put_run (X:=Mkfs.FormatError) m (cluster_at 2) (Mkfs.padded_label label)) as (m1 & -> & K1 & H1); [lia|lia|by apply padded_label_ok|].
  cbn [mbind res_bind]. pose proof K1 as (L1 & _).
  destruct (put_run (X:=Mkfs.FormatError) m1 (cluster_at 2 + 11) [Mkfs.ATTR_VOLUME_LABEL]) as (m2 & -> & K2 & H2);
    [lia|change (len [Mkfs.ATTR_VOLUME_LABEL]) with 1; lia|repeat constructor; done|]. change (len [Mkfs.ATTR_VOLUME_LABEL]) with 1 in K2.
  cbn [mbind res_bind]. pose proof K2 as (L2 & _). rewrite Hpl' in K1.
  destruct (write_entries_run went clusters_of eb held m2 (cluster_at 2 + 32)) as (m3 & E3 & K3 & H3); [lia|lia|done|].
  change Mkfs.DIRECTORY_ENTRY_BYTES with 32. rewrite E3. cbn [mbind res_bind]. exists m3. split; [done|].
  assert (len (concat (eb <$> held)) = 32 * len held) as Lc.
  { clear -Hb. induction held as [|e held IH]; [done|]. cbn [fmap list_fmap concat]. rewrite len_app, len_cons.
    destruct (Hb e) as (_ & -> & _); [by left|]. change (map eb held) with (eb <$> held). rewrite IH; [lia|]. intros e' He'. apply Hb. by right. }
  split.
  { transitivity m1; [eapply kept_weaken; [..|exact K1]; lia|]. transitivity m2; (eapply kept_weaken; [..|done]; lia). }
  assert (∀ b (k : nat), cluster_at 2 ≤ b → b + Z.of_nat k ≤ cluster_at 3 → holds m b (replicate k 0)) as Hzero.
  { intros b k Hb1 Hb2. eapply holds_zeros; [..|exact Hz]; lia. }
  unfold label_entry. rewrite <-!app_assoc. apply holds_app; [lia|]. rewrite Hpl'.
  split; [eapply holds_kept; [|exact K3|lia|]; [lia|]; eapply holds_kept; [|exact K2|lia|exact H1]; lia|].
  apply holds_app; [lia|]. change (len [Mkfs.ATTR_VOLUME_LABEL]) with 1. rewrite <-(Z.add_assoc _ 11 1). change (11 + 1) with 12.
  split; [eapply holds_kept; [|exact K3|change (len [Mkfs.ATTR_VOLUME_LABEL]) with 1; lia|exact H2]; lia|].
  apply holds_app; [lia|]. rewrite len_replicate. change (Z.of_nat 20) with 20. rewrite <-(Z.add_assoc _ 12 20). change (12 + 20) with 32.
  split.
  { eapply holds_kept; [|exact K3|rewrite len_replicate; lia|]; [lia|]. eapply holds_kept; [|exact K2|lia|]; [lia|].
    eapply holds_kept; [|exact K1|lia|]; [lia|]. apply Hzero; lia. }
  apply holds_app; [lia|]. rewrite Lc. split; [done|].
  eapply holds_kept; [|exact K3|lia|]; [lia|]. eapply holds_kept; [|exact K2|lia|]; [lia|].
  eapply holds_kept; [|exact K1|lia|]; [lia|]. apply Hzero; lia.
Qed.
End image.

(** * The formatter: a whole run

    [format] on files that are not in subdirectories: the image it answers,
    or the error. *)

(** ** Ordered maps *)
Lemma str_eqb_spec a b : str_eqb a b = true ↔ a = b.
Proof.
  revert b. induction a as [|x a IH]; intros [|y b]; cbn [str_eqb]; try (split; done).
  rewrite andb_true_iff, Z.eqb_eq, IH. split; [intros [-> ->]; done|intros [= -> ->]; done].
Qed.

Lemma str_eqb_refl a : str_eqb a a = true.
Proof. by apply str_eqb_spec. Qed.

Lemma get_insert {V} k k' (v : V) m : BTree.get str_eqb k (BTree.insert str_ltb str_eqb k' v m) =
  if decide (k = k') then Some v else BTree.get str_eqb k m.
Proof.
  assert (∀ a b : list Z, a ≠ b → str_eqb a b = false) as Hne.
  { intros a b Hab. destruct (str_eqb a b) eqn:E; [|done]. by apply str_eqb_spec in E. }
  induction m as [|[k1 v1] m IH]; cbn [BTree.insert BTree.get].
  { case_decide; [subst; by rewrite str_eqb_refl|by rewrite Hne]. }
  destruct (str_eqb k' k1) eqn:E1; [apply str_eqb_spec in E1 as ->|destruct (str_ltb k' k1)]; cbn [BTree.get].
  - case_decide; [subst; by rewrite str_eqb_refl|by rewrite Hne].
  - case_decide; [subst; by rewrite str_eqb_refl|by rewrite Hne by done].
  - destruct (str_eqb k k1) eqn:E; [|done]. apply str_eqb_spec in E as ->. rewrite decide_False; [done|]. intros ->. by rewrite str_eqb_refl in E1.
Qed.

(** Where each file went. *)
Definition went_of (l : list (Mkfs.File * Z)) (m : list (list Z * Z)) : list (list Z * Z) :=
  foldl (λ m '(file, first), BTree.insert str_ltb str_eqb (Mkfs.fname file) first m) m l.

Lemma went_other nm l m : nm ∉ (λ x, Mkfs.fname x.1) <$> l → BTree.get str_eqb nm (went_of l m) = BTree.get str_eqb nm m.
Proof.
  revert m. induction l as [|[f c] l IH]; intros m Hn; [done|]. cbn [went_of foldl]. fold (went_of l (BTree.insert str_ltb str_eqb (Mkfs.fname f) c m)).
  rewrite IH, get_insert by set_solver. rewrite decide_False; [done|]. set_solver.
Qed.

Lemma went_get f c l m : NoDup ((λ x, Mkfs.fname x.1) <$> l) → (f, c) ∈ l → BTree.get str_eqb (Mkfs.fname f) (went_of l m) = Some c.
Proof.
  revert m. induction l as [|[f' c'] l IH]; intros m Hnd Hin; [by apply not_elem_of_nil in Hin|].
  apply NoDup_cons in Hnd as [Hf Hnd]. cbn [went_of foldl]. fold (went_of l (BTree.insert str_ltb str_eqb (Mkfs.fname f') c' m)).
  apply elem_of_cons in Hin as [[= -> ->]|Hin]; [|by apply IH]. rewrite went_other by done. rewrite get_insert. by rewrite decide_True.
Qed.

(** ** Names *)
Definition stored_name (nm : list Z) : list Z := padded (Mkfs.name_parts nm).1 (Mkfs.name_parts nm).2.

Lemma eight_three_parts nm : Mkfs.is_eight_three nm = true →
  (1 ≤ length (Mkfs.name_parts nm).1 ≤ 8)%nat ∧ (length (Mkfs.name_parts nm).2 ≤ 3)%nat ∧
  Forall (λ b, 65 ≤ b ≤ 90 ∨ 48 ≤ b ≤ 57 ∨ b = 46) nm.
Proof.
  unfold Mkfs.is_eight_three. destruct (Mkfs.name_parts nm) as [base ext]. rewrite !andb_true_iff, negb_true_iff, Z.eqb_neq, !Z.leb_le, forallb_forall.
  unfold len. intros (((H1 & H2) & H3) & H4). cbn [fst snd]. split; [lia|]. split; [lia|]. apply Forall_forall. intros b Hb.
  apply list_elem_of_In in Hb. specialize (H4 b Hb). unfold in_range in H4. rewrite !orb_true_iff, !andb_true_iff, !Z.leb_le, Z.eqb_eq in H4.
  unfold DOT in H4. lia.
Qed.

Lemma padded_name_run {X} nm : Mkfs.is_eight_three nm = true → Mkfs.padded_name (X:=X) nm = Ok (stored_name nm).
Proof.
  intros (Hb & He & _)%eight_three_parts. unfold Mkfs.padded_name, stored_name. destruct (Mkfs.name_parts nm) as [base ext]. cbn [fst snd] in *.
  unfold Mkfs.put. change (replicate 11 32) with (replicate 11%nat 32). rewrite copy_at_Some; [|lia|reflexivity|rewrite len_replicate; unfold len; lia].
  cbn [expect mbind res_bind]. change (Z.to_nat 0) with O.
  assert (splice (replicate 11 32) 0 base = base ++ replicate (8 - length base) 32 ++ replicate 3 32) as ->.
  { unfold splice. rewrite take_0. cbn [app Nat.add]. f_equal. rewrite drop_replicate, <-replicate_add. f_equal. lia. }
  rewrite copy_at_Some; [|lia|reflexivity|]. 2:{ unfold len. rewrite !length_app, !length_replicate. lia. }
  cbn [expect]. f_equal. change (Z.to_nat 8) with 8%nat. unfold splice, padded. rewrite !(app_assoc base).
  assert (length (base ++ replicate (8 - length base) 32) = 8%nat) as Hl by (rewrite length_app, length_replicate; lia).
  rewrite take_app_length' by lia. rewrite drop_app_ge by lia. rewrite Hl. replace (8 + length ext - 8)%nat with (length ext) by lia.
  rewrite drop_replicate. by rewrite <-app_assoc.
Qed.

(** The name is stored the way the kernel stores it. *)
Lemma eight_three_encodes nm : Mkfs.is_eight_three nm = true → encode_name nm = Some (stored_name nm).
Proof.
  intros H. pose proof (eight_three_parts nm H) as (Hb & He & Hc). unfold encode_name, stored_name. unfold Mkfs.name_parts, DOT in *.
  set (be := match split_once 46 nm with Some (b, e) => (b, e) | None => (nm, []) end) in *.
  assert (Forall (λ b, 65 ≤ b ≤ 90 ∨ 48 ≤ b ≤ 57 ∨ b = 46) be.1 ∧ Forall (λ b, 65 ≤ b ≤ 90 ∨ 48 ≤ b ≤ 57 ∨ b = 46) be.2) as [Hc1 Hc2].
  { unfold be. destruct (split_once 46 nm) as [[x y]|] eqn:E; [|done]. apply split_once_spec in E as [-> _].
    apply Forall_app in Hc as [? [_ ?]%Forall_cons]. done. }
  assert (∀ l, Forall (λ b, 65 ≤ b ≤ 90 ∨ 48 ≤ b ≤ 57 ∨ b = 46) l → mapM allowed_in_a_name l = Some l) as Hall.
  { intros l Hl. apply mapM_Some. induction Hl as [|b l Hlb _ IH]; constructor; [|done]. unfold allowed_in_a_name.
    assert (existsb (Z.eqb b) RESERVED = false) as ->.
    { apply not_true_iff_false. rewrite existsb_exists. intros (x & Hx & Hbx%Z.eqb_eq). subst x. unfold RESERVED in Hx. simpl in Hx. lia. }
    rewrite (proj2 (Z.ltb_lt b 128)), (proj2 (Z.ltb_ge b 0x20)), (proj2 (Z.eqb_neq b 0x7F)) by lia. cbn [negb orb].
    unfold to_ascii_uppercase, in_range. by rewrite (proj2 (Z.leb_gt 97 b)) by lia. }
  destruct be as [base ext]. cbn [fst snd] in *. unfold len.
  rewrite (proj2 (Z.eqb_neq _ 0)), !(proj2 (Z.ltb_ge _ _)) by lia. cbn [orb]. rewrite (Hall _ Hc1), (Hall _ Hc2). cbn [mbind option_bind].
  assert (Boot.byte_at (padded base ext) 0 ≠ ENTRY_DELETED) as Hne.
  { destruct base as [|b base]; [simpl in Hb; lia|]. apply Forall_cons in Hc1 as [Hb1 _]. unfold padded, Boot.byte_at, ENTRY_DELETED. simpl. lia. }
  unfold padded in Hne. by rewrite (proj2 (Z.eqb_neq _ _)) by done.
Qed.

(** ** Where the files are, in order *)
Definition rootful (cb : Z) (files : list Mkfs.File) : list (Z * Z) := (2, Mkfs.END_OF_CHAIN) :: links cb 3 files.

Lemma links_keys cb next files c v : 0 < cb → (c, v) ∈ links cb next files → next ≤ c < next + total_needed cb files.
Proof.
  intros Hcb. revert next. induction files as [|f files IH]; intros next; cbn [links total_needed]; [by intros []%not_elem_of_nil|].
  pose proof (needed_bounds cb f Hcb). pose proof (total_needed_nonneg cb files Hcb).
  intros [Hin%file_links_keys|Hin%IH]%elem_of_app; lia.
Qed.

Lemma links_nodup cb next files : 0 < cb → NoDup (fst <$> links cb next files).
Proof.
  intros Hcb. revert next. induction files as [|f files IH]; intros next; cbn [links]; [constructor|].
  rewrite fmap_app. apply NoDup_app. split.
  { unfold file_links. rewrite <-list_fmap_compose. apply NoDup_fmap_2; [|apply NoDup_seqZ]. intros x y. simpl. lia. }
  split; [|apply IH]. intros c ([c1 v1] & -> & H1)%list_elem_of_fmap ([c2 v2] & Heq & H2)%list_elem_of_fmap. simpl in Heq. subst c2.
  apply file_links_keys in H1. apply links_keys in H2; [|done]. lia.
Qed.

Lemma lay_files cb next files : fst <$> lay cb next files = files.
Proof. revert next. induction files as [|f files IH]; intros next; [done|]. cbn [lay fmap list_fmap]. f_equal. apply IH. Qed.

(** The entry of a file that starts at a cluster. *)
Definition entry_of (x : Mkfs.File * Z) : list Z := encode_entry (stored_name (Mkfs.fname x.1)) x.2 (len (Mkfs.contents x.1)).

Lemma entry_bytes_encode enc first size : length enc = 11%nat → Mkfs.entry_bytes enc ATTR_ARCHIVE first size = encode_entry enc first size.
Proof.
  intros Hl. assert (∀ z, le_encode 2 (wrap 16 z) = le_encode 2 z) as H2.
  { intros z. unfold wrap. cbn [le_encode]. change (2 ^ 16) with (256 * 256). rewrite Z.rem_mul_r by lia.
    rewrite (Z.mul_comm 256 (z / 256 mod 256)), Z_mod_plus_full, Z.mod_mod, Z_div_plus_full by lia. rewrite (Z.div_small (z mod 256)) by (by apply Z.mod_pos_bound).
    rewrite Z.add_0_l, Z.mod_mod by lia. done. }
  assert (∀ z, le_encode 4 (wrap 32 z) = le_encode 4 z) as H4.
  { intros z. assert (∀ (n : nat) z, le_encode n (z mod 2 ^ (8 * Z.of_nat n)) = le_encode n z) as Hgen; [|by apply (Hgen 4%nat)].
    clear. induction n as [|n IH]; intros z; [done|]. cbn [le_encode]. replace (8 * Z.of_nat (S n)) with (8 + 8 * Z.of_nat n) by lia.
    rewrite Z.pow_add_r by lia. change (2 ^ 8) with 256. rewrite Z.rem_mul_r by lia. rewrite (Z.mul_comm 256 (_ mod _)), Z_mod_plus_full, Z.mod_mod, Z_div_plus_full by lia.
    rewrite (Z.div_small (z mod 256)) by (by apply Z.mod_pos_bound). rewrite Z.add_0_l. f_equal. apply IH. }
  unfold encode_entry, Mkfs.entry_bytes. rewrite !H2, H4.
  do 11 (destruct enc as [|? enc]; [simpl in Hl; lia|]). destruct enc; [|simpl in Hl; lia]. reflexivity.
Qed.

Lemma stored_name_length nm : Mkfs.is_eight_three nm = true → length (stored_name nm) = 11%nat.
Proof. intros (Hb & He & _)%eight_three_parts. apply padded_length; lia. Qed.

Lemma entry_of_length x : Mkfs.is_eight_three (Mkfs.fname x.1) = true → len (entry_of x) = 32.
Proof. intros Hn. unfold entry_of, encode_entry, len. by rewrite !length_app, stored_name_length. Qed.

Lemma stored_name_ok nm : Mkfs.is_eight_three nm = true → bytes_ok (stored_name nm).
Proof.
  intros Hn. pose proof (eight_three_encodes nm Hn) as He. apply encode_halves in He as (base & ext & -> & [_ _ [Hb He] _ _]).
  assert (∀ l, Forall stored l → bytes_ok l) as Hs by (intros l Hl; eapply Forall_impl; [exact Hl|intros b [? _]; lia]).
  unfold padded, bytes_ok. repeat (apply Forall_app; split); (by apply Hs) || (apply Forall_replicate; lia).
Qed.

Lemma entry_of_ok x : Mkfs.is_eight_three (Mkfs.fname x.1) = true → bytes_ok (entry_of x).
Proof.
  intros Hn. unfold entry_of, encode_entry. apply Forall_app. split; [by apply stored_name_ok|].
  repeat (apply Forall_app; split); try apply le_encode_ok.
  - repeat constructor; done.
  - apply Forall_replicate; lia.
  - apply Forall_replicate; lia.
Qed.

Lemma directory_entry_run {X} f c : Mkfs.is_eight_three (Mkfs.fname f) = true → flat f → len (Mkfs.contents f) < 2 ^ 32 →
  Mkfs.directory_entry (X:=X) f c = Ok (entry_of (f, c)).
Proof.
  intros Hn [_ Hf] Hl. unfold Mkfs.directory_entry. rewrite last_part_flat, padded_name_run by done. cbn [mbind res_bind].
  change Mkfs.ATTR_ARCHIVE with ATTR_ARCHIVE. rewrite entry_bytes_encode by (by apply stored_name_length).
  unfold entry_of, wrap. by rewrite (Z.mod_small (len _)) by (pose proof (len_nonneg (Mkfs.contents f)); lia).
Qed.

(** ** Writing it down *)
Section run.
  Context (total spc spf : Z) (Htotal : 34 ≤ total < 2 ^ 26 - 1) (Hspc : 1 ≤ spc ≤ 128) (Hspf : 0 < spf) (Hfit : 32 + 2 * spf ≤ total).
  Local Abbreviation geo := (geo total spc spf).
  Local Abbreviation cb := (512 * spc).
  Local Abbreviation cluster_at := (cluster_at spc spf).
  Context (label : list Z) (files : list Mkfs.File).

(** What an image of [files] holds. *)
Record image_of (m : list Z) : Prop := {
  image_len : len m = total * 512;
  image_ok : bytes_ok m;
  image_boot : holds m 0 (Mkfs.boot_sector geo label);
  image_table : ∀ c v, (c, v) ∈ rootful cb files → holds m (32 * 512 + c * 4) (le_encode 4 v);
  image_root : holds m (cluster_at 2)
    (label_entry label ++ concat (entry_of <$> lay cb 3 files) ++ replicate (Z.to_nat (cb - 32 * (1 + len files))) 0);
  image_files : ∀ f c, (f, c) ∈ lay cb 3 files → c ≠ 0 → holds m (cluster_at c) (Mkfs.contents f)
}.

(** What the formatter asks of a file. *)
Definition sound_file (f : Mkfs.File) : Prop := flat f ∧ bytes_ok (Mkfs.contents f) ∧ len (Mkfs.contents f) < 2 ^ 32.

  Context (Hlabel : bytes_ok label) (Hfiles : Forall sound_file files) (Hnames : Forall (λ f, Mkfs.is_eight_three (Mkfs.fname f) = true) files).
  Context (Hdiff : NoDup (Mkfs.fname <$> files)).

Lemma boot_sector_shape : len (Mkfs.boot_sector geo label) = 512 ∧ bytes_ok (Mkfs.boot_sector geo label).
Proof.
  split.
  - apply fields_length; [done|]. pose proof (padded_label_length label) as Hl. unfold in_fields.
    repeat (apply Forall_cons; split; [cbn [fst snd]; unfold len; rewrite ?length_le_encode, ?Hl; simpl; lia|]). constructor.
  - apply fields_ok.
    repeat (apply Forall_cons; split; [cbn [snd]; first [apply le_encode_ok | by apply padded_label_ok | cbn; repeat constructor; done || lia]|]).
    constructor.
Qed.

Lemma fs_info_run {X} next : 0 ≤ next ≤ 2 + Mkfs.clusters geo →
  ∃ info, Mkfs.fs_info_sector (X:=X) (Mkfs.clusters geo) next = Ok info ∧ len info = 512 ∧ bytes_ok info.
Proof.
  intros Hn. pose proof (format_clusters_fit total spc spf Hspc Hfit).
  unfold Mkfs.fs_info_sector, Mkfs.add32, Mkfs.sub32, checked_add, Mkfs.FIRST_DATA_CLUSTER.
  rewrite (proj2 (Z.ltb_lt (Mkfs.clusters geo + 2) _)) by nia. cbn [expect mbind res_bind].
  rewrite (proj2 (Z.ltb_ge (Mkfs.clusters geo + 2) _)) by lia. cbn [mbind res_bind]. eexists. split; [done|]. split.
  - apply fields_length; [done|]. unfold in_fields.
    repeat (apply Forall_cons; split; [cbn [fst snd]; unfold len; rewrite ?length_le_encode; simpl; lia|]). constructor.
  - apply fields_ok. repeat (apply Forall_cons; split; [apply le_encode_ok|]). constructor.
Qed.

Definition final_plan : Mkfs.Plan :=
  {| Mkfs.chains := rootful cb files; Mkfs.next_free := 3 + total_needed cb files;
     Mkfs.directory_cluster := [([], 2)]; Mkfs.placed := lay cb 3 files |}.

Lemma lay_nodup : NoDup ((λ x, Mkfs.fname x.1) <$> lay cb 3 files).
Proof.
  assert ((λ x, Mkfs.fname x.1) <$> lay cb 3 files = Mkfs.fname <$> (fst <$> lay cb 3 files)) as -> by (by rewrite <-list_fmap_compose).
  by rewrite lay_files.
Qed.

Lemma lay_names : Forall (λ x, Mkfs.is_eight_three (Mkfs.fname x.1) = true) (lay cb 3 files).
Proof. apply (Forall_fmap fst (λ f, Mkfs.is_eight_three (Mkfs.fname f) = true)). by rewrite lay_files. Qed.

Lemma entries_length : len (concat (entry_of <$> lay cb 3 files)) = 32 * len files.
Proof.
  assert (len files = len (lay cb 3 files)) as -> by (rewrite <-(lay_files cb 3 files) at 1; unfold len; by rewrite length_fmap).
  induction lay_names as [|x l Hx _ IHl]; [done|]. rewrite fmap_cons. cbn [concat]. rewrite len_app, entry_of_length, len_cons, IHl by done. lia.
Qed.

Lemma entries_are :
  (λ e, match e with Mkfs.EFile f => entry_of (f, default 0 (BTree.get str_eqb (Mkfs.fname f) (went_of (lay cb 3 files) []))) | _ => [] end)
    <$> (Mkfs.EFile <$> files) = entry_of <$> lay cb 3 files.
Proof.
  set (eb := λ e : Mkfs.TreeEntry, _). trans (eb <$> (Mkfs.EFile <$> (fst <$> lay cb 3 files))); [by rewrite lay_files|].
  rewrite <-!list_fmap_compose. apply list_fmap_ext. intros i [f c] Hi. cbn [compose fst]. unfold eb.
  rewrite (went_get f c); [done|apply lay_nodup|by eapply list_elem_of_lookup_2].
Qed.

Lemma write_image_run : 32 * (1 + len files) ≤ cb → 3 + total_needed cb files ≤ 2 + Mkfs.clusters geo → Mkfs.clusters geo + 2 ≤ spf * 128 →
  ∃ m, Mkfs.write_image geo label [([], Mkfs.EFile <$> files)] final_plan = Ok m ∧ image_of m.
Proof.
  intros Hroom Hcl Htab. pose proof (format_clusters_fit total spc spf Hspc Hfit) as Hc. pose proof (total_needed_nonneg cb files ltac:(lia)) as Ht.
  pose proof (cluster_at_bounds total spc spf Hspc Hfit) as Hat.
  destruct boot_sector_shape as [Lb Bb]. destruct (fs_info_run (X:=Mkfs.FormatError) (3 + total_needed cb files)) as (info & Einfo & Li & Bi); [lia|].
  unfold Mkfs.write_image. cbn [final_plan Mkfs.next_free Mkfs.chains Mkfs.directory_cluster Mkfs.placed Mkfs.total_sectors FormatRun.geo]. cbv zeta.
  change Mkfs.SECTOR_BYTES with 512. change (Mkfs.BACKUP_BOOT_SECTOR * 512) with 3072. set (m0 := replicate _ 0).
  assert (len m0 = total * 512) as L0 by (unfold m0; rewrite len_replicate; lia).
  assert (bytes_ok m0) as B0 by (apply Forall_replicate; lia).
  destruct (put_run (X:=Mkfs.FormatError) m0 0 (Mkfs.boot_sector geo label)) as (m1 & -> & K1 & H1); [done|lia|done|]. cbn [mbind res_bind]. pose proof K1 as (L1 & _).
  destruct (put_run (X:=Mkfs.FormatError) m1 3072 (Mkfs.boot_sector geo label)) as (m2 & -> & K2 & _); [done|lia|done|]. cbn [mbind res_bind]. pose proof K2 as (L2 & _).
  change ((total - 32 - 2 * spf) / spc) with (Mkfs.clusters geo). rewrite Einfo. cbn [mbind res_bind].
  destruct (put_run (X:=Mkfs.FormatError) m2 512 info) as (m3 & -> & K3 & _); [done|lia|done|]. cbn [mbind res_bind]. pose proof K3 as (L3 & _).
  destruct (put_run (X:=Mkfs.FormatError) m3 (3072 + 512) info) as (m4 & -> & K4 & _); [done|lia|done|]. cbn [mbind res_bind]. pose proof K4 as (L4 & _).
  rewrite Lb in K1, K2. rewrite Li in K3, K4.
  destruct (write_tables_run total spc spf Htotal Hspf Hfit (rootful cb files) m4) as (m5 & -> & K5 & H5).
  { lia. }
  { unfold rootful. rewrite fmap_cons. apply NoDup_cons. split; [|apply links_nodup; lia].
    intros ([c v] & Heq & Hin)%list_elem_of_fmap. simpl in Heq. apply links_keys in Hin; lia. }
  { apply Forall_forall. intros [c v] [[= -> ->]|Hin]%elem_of_cons; [simpl; lia|]. apply links_keys in Hin; [|lia]. simpl. lia. }
  cbn [mbind res_bind]. pose proof K5 as (L5 & _).
  assert (kept 0 ((32 + 2 * spf) * 512) m0 m5) as K05.
  { transitivity m1; [eapply kept_weaken; [..|exact K1]; lia|]. transitivity m2; [eapply kept_weaken; [..|exact K2]; lia|].
    transitivity m3; [eapply kept_weaken; [..|exact K3]; lia|]. transitivity m4; (eapply kept_weaken; [..|done]; lia). }
  pose proof (Hat 2 ltac:(lia)) as Hat2. pose proof (Hat 3 ltac:(lia)) as Hat3. assert (cluster_at 3 = cluster_at 2 + cb) as Hc3 by (unfold FormatRun.cluster_at; lia).
  cbn [foldM]. fold (went_of (lay cb 3 files) []).
  destruct (write_root_run total spc spf Htotal Hspc Hspf Hfit label (went_of (lay cb 3 files) []) [([], 2)]
    (λ e, match e with Mkfs.EFile f => entry_of (f, default 0 (BTree.get str_eqb (Mkfs.fname f) (went_of (lay cb 3 files) []))) | _ => [] end)
    (Mkfs.EFile <$> files) m5) as (m6 & -> & K6 & H6).
  { lia. } { done. } { lia. } { done. } { unfold len. rewrite length_fmap. done. }
  { eapply holds_kept; [|exact K05|right; lia|]; [lia|]. apply (holds_zeros m0 0 (Z.to_nat (total * 512))); [lia|lia|]. intros i Hi. done. }
  { intros e (f & -> & Hf)%list_elem_of_fmap. rewrite Forall_forall in Hfiles, Hnames. destruct (Hfiles f Hf) as (Hflat & _ & Hlen). specialize (Hnames f Hf).
    assert (f ∈ fst <$> lay cb 3 files) as Hin by (by rewrite lay_files). apply list_elem_of_fmap in Hin as ([f' c] & Heq & Hin). simpl in Heq. subst f'.
    assert (BTree.get str_eqb (Mkfs.fname f) (went_of (lay cb 3 files) []) = Some c) as Hg.
    { apply went_get; [apply lay_nodup|done]. }
    unfold Mkfs.bytes_of_entry. rewrite Hg. cbn [expect mbind res_bind default]. split; [by apply directory_entry_run|].
    split; [by apply entry_of_length|by apply entry_of_ok]. }
  cbn [mbind res_bind]. pose proof K6 as (L6 & _). rewrite entries_are in H6.
  replace (len (Mkfs.EFile <$> files)) with (len files) in H6 by (unfold len; by rewrite length_fmap).
  destruct (write_contents_run total spc spf Htotal Hspc Hspf Hfit cb 3 files m6) as (m & Em & K7 & H7); [done|lia|lia|done| |].
  { eapply Forall_impl; [exact Hfiles|]. intros f (_ & ? & _). done. }
  exists m. split; [exact Em|]. pose proof K7 as (L7 & _).
  assert (cluster_at 3 ≤ cluster_at (3 + total_needed cb files)) as Hord by (unfold FormatRun.cluster_at; nia).
  split.
  - lia.
  - destruct K7 as (_ & B7 & _), K6 as (_ & B6 & _), K05 as (_ & B5 & _). auto.
  - eapply holds_kept; [|exact K7|lia|]; [lia|]. eapply holds_kept; [|exact K6|lia|]; [lia|]. eapply holds_kept; [|exact K5|lia|]; [lia|].
    eapply holds_kept; [|exact K4|lia|]; [lia|]. eapply holds_kept; [|exact K3|lia|]; [lia|]. eapply holds_kept; [|exact K2|lia|exact H1]; lia.
  - intros c v Hin. assert (2 ≤ c < spf * 128) as Hcv.
    { apply elem_of_cons in Hin as [[= -> ->]|Hin]; [lia|]. apply links_keys in Hin; lia. }
    eapply holds_kept; [|exact K7|change (len (le_encode 4 v)) with 4; lia|]; [lia|].
    eapply holds_kept; [|exact K6|change (len (le_encode 4 v)) with 4; lia|]; [lia|]. by apply H5.
  - eapply holds_kept; [|exact K7| |exact H6]; [lia|]. left. rewrite !len_app, len_replicate.
    assert (len (label_entry label) = 32) as -> by (unfold len, label_entry; rewrite !length_app, padded_label_length; done).
    rewrite entries_length. lia.
  - done.
Qed.
End run.

(** ** The whole *)

(** What the formatter answers, case by case, for the table size [spf]. *)
Definition format_answer (total spc spf : Z) (label : list Z) (files : list Mkfs.File)
    (r : res Mkfs.FormatError (list Z * Mkfs.Geometry)) : Prop :=
  let g := geo total spc spf in
  if decide (Forall (λ f, Mkfs.is_eight_three (Mkfs.fname f) = true) files) then
    if decide (Mkfs.clusters g < 65525) then r = Err (Mkfs.TooSmallForFat32 (Mkfs.clusters g))
    else if decide (16 * spc < 1 + len files) then r = Err (Mkfs.RootDirectoryFull (1 + len files))
    else if decide (Mkfs.clusters g < 1 + total_needed (512 * spc) files) then ∃ n a, r = Err (Mkfs.OutOfClusters n a)
    else ∃ m, r = Ok (m, g) ∧ image_of total spc spf label files m
  else ∃ f, f ∈ files ∧ Mkfs.is_eight_three (Mkfs.fname f) = false ∧ r = Err (Mkfs.BadName (Mkfs.fname f)).

Lemma check_names_run files : Forall flat files →
  let check := foldM (λ (_ : ()) file, if bool_decide (Mkfs.fname file = []) || negb (forallb Mkfs.is_eight_three (split_all SLASH (Mkfs.fname file)))
    then Err (Mkfs.BadName (Mkfs.fname file)) else Ok ()) () files in
  if decide (Forall (λ f, Mkfs.is_eight_three (Mkfs.fname f) = true) files) then check = Ok ()
  else ∃ f, f ∈ files ∧ Mkfs.is_eight_three (Mkfs.fname f) = false ∧ check = Err (Mkfs.BadName (Mkfs.fname f)).
Proof.
  induction 1 as [|f files [Hne Hs] _ IH]; cbv zeta in *; cbn [foldM]; [by rewrite decide_True|].
  rewrite bool_decide_false by done. rewrite split_all_flat by done. cbn [forallb orb]. rewrite andb_true_r.
  destruct (Mkfs.is_eight_three (Mkfs.fname f)) eqn:E; cbn [negb mbind res_bind].
  - case_decide as H1; case_decide as H2.
    + done.
    + destruct H2. by constructor.
    + by apply Forall_cons in H2 as [_ H2].
    + destruct IH as (f' & Hin & Hf' & ->). exists f'. split; [by right|done].
  - rewrite decide_False by (intros [? _]%Forall_cons; congruence). exists f. split; [by left|done].
Qed.

Lemma Ok_bind {E A B} (a : A) (f : A → res E B) : (Ok a ≫= f) = f a.
Proof. done. Qed.

(** Placing the files, from the plan that has the root only. *)
Lemma place_all_run total spc spf files : 34 ≤ total < 2 ^ 26 - 1 → 1 ≤ spc ≤ 128 → 0 < spf → 32 + 2 * spf ≤ total →
  Forall (λ f, len (Mkfs.contents f) < 2 ^ 32) files → 1 ≤ Mkfs.clusters (geo total spc spf) →
  let r := foldM (Mkfs.place_file (geo total spc spf) (512 * spc)) {|
    Mkfs.chains := Mkfs.link Mkfs.FIRST_DATA_CLUSTER Mkfs.END_OF_CHAIN []; Mkfs.next_free := Mkfs.FIRST_DATA_CLUSTER + 1;
    Mkfs.directory_cluster := BTree.insert str_ltb str_eqb [] Mkfs.FIRST_DATA_CLUSTER []; Mkfs.placed := [] |} files in
  if decide (Mkfs.clusters (geo total spc spf) < 1 + total_needed (512 * spc) files) then ∃ n a, r = Err (Mkfs.OutOfClusters n a)
  else r = Ok (final_plan spc files).
Proof.
  intros Ht Hs Hspf Hfit Hf Hone. pose proof (format_clusters_fit total spc spf Hs Hfit) as Hc. set (g := geo total spc spf) in *. clearbody g.
  change (Mkfs.link _ _ []) with [(2, Mkfs.END_OF_CHAIN)]. change (BTree.insert _ _ [] _ []) with [(@nil Z, 2)]. change (Mkfs.FIRST_DATA_CLUSTER + 1) with 3.
  pose proof (place_files_run g (512 * spc) files {| Mkfs.chains := [(2, Mkfs.END_OF_CHAIN)]; Mkfs.next_free := 3;
    Mkfs.directory_cluster := [([], 2)]; Mkfs.placed := [] |} ltac:(lia) ltac:(nia)) as Hp.
  cbn [Mkfs.next_free Mkfs.chains Mkfs.directory_cluster Mkfs.placed] in Hp. specialize (Hp ltac:(lia) Hf ltac:(repeat constructor; simpl; lia)).
  cbv zeta. destruct (decide (3 + _ ≤ _)); [rewrite decide_False by lia|rewrite decide_True by lia]; [exact Hp|done].
Qed.

Lemma format_run total spc label files : 34 ≤ total < 2 ^ 26 - 1 → 1 ≤ spc ≤ 128 → bytes_ok label →
  Forall sound_file files → NoDup (Mkfs.fname <$> files) →
  ∃ spf, 0 < spf < 2 ^ 25 ∧ big_enough total spc spf ∧ (∀ s, 0 < s < spf → ¬ big_enough total spc s) ∧ 32 + 2 * spf ≤ total ∧
    format_answer total spc spf label files (Mkfs.format total spc label files).
Proof.
  intros Ht Hs Hl Hf Hnd. destruct (geometry_run total spc Ht ltac:(lia)) as (spf & Hspf & Hbig & Hleast & Hfit & Eg).
  exists spf. do 4 (split; [done|]). unfold format_answer, Mkfs.format.
  assert (Forall flat files) as Hflat by (eapply Forall_impl; [exact Hf|intros f (? & _); done]).
  pose proof (check_names_run files Hflat) as Hcheck. cbv zeta in *. case_decide as Hnames.
  2:{ destruct Hcheck as (f & Hin & Hbad & ->). by exists f. }
  rewrite Hcheck, Eg. cbn [mbind res_bind]. fold (geo total spc spf). set (g := geo total spc spf) in *.
  pose proof (format_clusters_fit total spc spf Hs Hfit) as Hc. fold g in Hc.
  destruct (Z.ltb_spec (Mkfs.clusters g) 65525); [by rewrite decide_True|]. rewrite decide_False by lia.
  rewrite tree_flat by done. change (Mkfs.SECTOR_BYTES * spc) with (512 * spc). change Mkfs.DIRECTORY_ENTRY_BYTES with 32.
  assert (512 * spc / 32 = 16 * spc) as -> by (replace (512 * spc) with (16 * spc * 32) by lia; apply Z.div_mul; lia).
  cbn [foldM]. unfold Mkfs.check_directory. rewrite bool_decide_true by done.
  assert (len (Mkfs.EFile <$> files) + 1 = 1 + len files) as -> by (unfold len; rewrite length_fmap; lia).
  destruct (Z.ltb_spec (16 * spc) (1 + len files)); cbn [mbind res_bind]; [by rewrite decide_True|]. rewrite decide_False by lia.
  cbn [fmap list_fmap foldM fst].
  assert (∀ p, Mkfs.place_directory g p [] = Ok p) as -> by done. cbn [mbind res_bind].
  assert (Forall (λ f, len (Mkfs.contents f) < 2 ^ 32) files) as Hlens by (eapply Forall_impl; [exact Hf|]; by intros f (_ & _ & ?)).
  pose proof (place_all_run total spc spf files Ht Hs ltac:(lia) Hfit Hlens ltac:(fold g; lia)) as Hplace. cbv zeta in Hplace. fold g in Hplace.
  destruct (decide (Mkfs.clusters g < 1 + total_needed (512 * spc) files)) as [Hfull|Hfits].
  { destruct Hplace as (n & a & ->). by exists n, a. }
  rewrite Hplace, Ok_bind. cbn beta.
  destruct (write_image_run total spc spf Ht Hs ltac:(lia) Hfit label files Hl Hf Hnames Hnd) as (m & Em & Hm).
  { lia. } { fold g. lia. }
  { unfold big_enough, data_clusters in Hbig. replace (Z.max 0 (Z.max 0 (total - 32) - 2 * spf)) with (total - 32 - 2 * spf) in Hbig by lia. exact Hbig. }
  exists m. split; [|done]. fold g in Em. by rewrite Em, Ok_bind.
Qed.
