(* ===== verification/FormatThms.v ===== *)
(** * The formatter's image, as the kernel sees it

    The boot sector [parse] accepts, the chains it walks, the entries it
    finds and the bytes it reads, on any disk that shows the image. *)

From S2P Require Import Prelude Words Bytes FatFormat FatVolume FatFormatThms FatDisk FatRead FatReadThms FatDir FatFrame FatWrite FatPlace FatFile FatWriteThms FatBack Format FormatRun.
Local Open Scope Z_scope.

#[local] Existing Instance has_dec.

(** ** The boot sector *)
Section boot.
  Context (total spc spf : Z) (label : list Z).

Definition boot_of : BootSector :=
  {| bytes_per_sector := 512; sectors_per_cluster := spc; reserved_sectors := 32; fat_count := 2; total_sectors := total;
     sectors_per_fat := spf; root_cluster := 2; fs_info_sector := 1; backup_boot_sector := 6;
     clusters := (total - 32 - 2 * spf) / spc;
     volume_id := Some {| serial := 0x4841524C; vlabel := Mkfs.padded_label label |} |}.

  Local Abbreviation sector := (Mkfs.boot_sector (geo total spc spf) label).

Lemma boot_byte i : 0 ≤ i < 512 → Boot.byte_at sector i = field_byte [
    (0, [0xEB; 0x58; 0x90]); (3, [0x48; 0x41; 0x52; 0x4C; 0x41; 0x4E; 0x20; 0x20]);
    (11, le_encode 2 512); (13, [spc]); (14, le_encode 2 32); (16, [2]); (17, le_encode 2 0); (19, le_encode 2 0);
    (21, [0xF8]); (22, le_encode 2 0); (24, le_encode 2 32); (26, le_encode 2 2); (28, le_encode 4 0);
    (32, le_encode 4 total); (36, le_encode 4 spf); (40, le_encode 2 0); (42, le_encode 2 0); (44, le_encode 4 2);
    (48, le_encode 2 1); (50, le_encode 2 6); (64, [0x80]); (66, [0x29]); (67, le_encode 4 0x4841524C);
    (71, Mkfs.padded_label label); (82, [0x46; 0x41; 0x54; 0x33; 0x32; 0x20; 0x20; 0x20]); (510, [0x55]); (511, [0xAA])] i.
Proof.
  intros Hi. unfold Mkfs.boot_sector. change Mkfs.SECTOR_BYTES with 512. rewrite fields_byte; [reflexivity| |done].
  pose proof (padded_label_length label) as Hl. unfold in_fields.
  repeat (apply Forall_cons; split; [cbn [fst snd]; unfold len; rewrite ?length_le_encode, ?Hl; simpl; lia|]). constructor.
Qed.

Ltac boot_field := rewrite !boot_byte by lia;
    pose proof (padded_label_length label) as Hlabel; revert Hlabel; generalize (Mkfs.padded_label label); intros l Hlabel;
    do 11 (destruct l as [|? l]; [discriminate Hlabel|]); destruct l; [|discriminate Hlabel]; clear Hlabel;
    cbv -[Z.modulo Z.div le_decode].

Lemma boot_numbers : 0 ≤ total < 2 ^ 32 → 0 ≤ spf < 2 ^ 32 →
  Boot.u16_at sector 510 = 0xAA55 ∧ Boot.u16_at sector 11 = 512 ∧ Boot.byte_at sector 13 = spc ∧ Boot.u16_at sector 14 = 32 ∧
  Boot.byte_at sector 16 = 2 ∧ Boot.u16_at sector 22 = 0 ∧ Boot.u32_at sector 36 = spf ∧ Boot.u32_at sector 44 = 2 ∧
  Boot.u32_at sector 32 = total ∧ Boot.u16_at sector 48 = 1 ∧ Boot.u16_at sector 50 = 6 ∧
  Boot.byte_at sector 66 = 0x29 ∧ Boot.u32_at sector 67 = 0x4841524C.
Proof.
  intros Ht Hs. unfold Boot.u16_at, Boot.u32_at. split_and!; boot_field; try reflexivity; by apply le_decode_4.
Qed.

Lemma boot_length : len sector = 512.
Proof.
  apply fields_length; [done|]. pose proof (padded_label_length label) as Hl. unfold in_fields.
  repeat (apply Forall_cons; split; [cbn [fst snd]; unfold len; rewrite ?length_le_encode, ?Hl; simpl; lia|]). constructor.
Qed.

Lemma boot_label : take 11 (drop 71 sector) = Mkfs.padded_label label.
Proof.
  pose proof (padded_label_length label) as Hl.
  assert (holds sector 71 (Mkfs.padded_label label)) as Hh.
  { unfold Mkfs.boot_sector. change Mkfs.SECTOR_BYTES with 512. apply (fields_hold 512 [_; _; _; _; _; _; _; _; _; _; _; _; _; _; _; _; _; _; _; _; _; _; _]); [|done|].
    - unfold in_fields. cbn [app]. repeat (apply Forall_cons; split; [cbn [fst snd]; unfold len; rewrite ?length_le_encode, ?Hl; simpl; lia|]). constructor.
    - repeat (apply Forall_cons; split; [cbn [fst snd]; unfold len; rewrite ?Hl; simpl; lia|]). constructor. }
  apply list_eq. intros i. destruct (decide (i < 11)%nat) as [Hi|Hi].
  - rewrite lookup_take_lt, lookup_drop by done. apply Hh. lia.
  - rewrite lookup_take_ge by lia. symmetry. apply lookup_ge_None_2. lia.
Qed.

Lemma parse_boot : 34 ≤ total < 2 ^ 26 - 1 → Boot.is_power_of_two spc = true → 0 < spf < 2 ^ 25 → 32 + 2 * spf ≤ total →
  65525 ≤ (total - 32 - 2 * spf) / spc → (total - 32 - 2 * spf) / spc + 2 ≤ spf * 128 →
  Boot.parse sector = Ok boot_of.
Proof.
  intros Ht Hp Hs Hfit Hcl Htab. pose proof (is_power_of_two_spec spc Hp) as [Hspc _].
  destruct (boot_numbers ltac:(lia) ltac:(lia)) as (E1 & E2 & E3 & E4 & E5 & E6 & E7 & E8 & E9 & E10 & E11 & E12 & E13).
  assert ((total - 32 - 2 * spf) / spc ≤ total) by (apply Z.div_le_upper_bound; nia).
  unfold Boot.parse, Boot.SIGNATURE, Boot.BYTES_PER_SECTOR, Boot.SECTORS_PER_CLUSTER, Boot.RESERVED_SECTORS, Boot.FAT_COUNT, Boot.SIXTEEN_BIT_FAT_SIZE,
    Boot.SECTORS_PER_FAT, Boot.ROOT_CLUSTER, Boot.TOTAL_SECTORS, Boot.FS_INFO_SECTOR, Boot.BACKUP_BOOT_SECTOR.
  rewrite E1, E2, E3, E4, E5, E6, E7, E8, E9, E10, E11, Hp. cbv zeta. cbn [negb Z.eqb Pos.eqb SECTOR_BYTES orb Z.ltb Z.compare Pos.compare Pos.compare_cont].
  rewrite (proj2 (Z.eqb_neq spc 0)), (proj2 (Z.eqb_neq spf 0)) by lia. cbn [negb orb].
  assert ((total - (32 + 2 * spf)) / spc = (total - 32 - 2 * spf) / spc) as -> by (f_equal; lia).
  change (2 <? FIRST_DATA_CLUSTER) with false. cbv iota. rewrite (proj2 (Z.leb_gt total (32 + 2 * spf))).
  2:{ destruct (decide (total = 32 + 2 * spf)) as [He|]; [|lia]. exfalso. replace (total - 32 - 2 * spf) with 0 in Hcl by lia. rewrite Z.div_0_l in Hcl by lia. lia. }
  cbv iota. assert (wrap 32 ((total - 32 - 2 * spf) / spc) = (total - 32 - 2 * spf) / spc) as -> by (apply Z.mod_small; lia).
  unfold FAT32_MINIMUM_CLUSTERS, FIRST_DATA_CLUSTER. rewrite (proj2 (Z.ltb_ge _ 65525)) by lia.
  assert (spf * 512 / 4 = spf * 128) as -> by (replace (spf * 512) with (spf * 128 * 4) by lia; apply Z.div_mul; lia).
  rewrite (proj2 (Z.ltb_ge (spf * 128) _)) by lia. unfold boot_of, Boot.volume_id_of, Boot.EXTENDED_SIGNATURE, Boot.VOLUME_SERIAL, Boot.VOLUME_LABEL.
  rewrite E12, E13. change (Z.to_nat 71) with 71%nat. by rewrite boot_label.
Qed.
End boot.

(** ** A disk that shows an image *)
Definition shows (m : list Z) (d : content) : Prop :=
  disk_ok d ∧ ∀ n, 0 ≤ n → 512 * (n + 1) ≤ len m → slice m (512 * n) (512 * n + 512) = Some (d n).

(** One that does. *)
Definition disk_of (m : list Z) : content := λ n, default (replicate 512 0) (slice m (512 * n) (512 * n + 512)).

Lemma disk_of_shows m : bytes_ok m → shows m (disk_of m).
Proof.
  intros Hm. split.
  - intros n. unfold disk_of. destruct (slice m _ _) as [l|] eqn:E; [|split; [done|]; apply Forall_replicate; lia]. cbn [default from_option id].
    split; [|by eapply bytes_ok_slice]. apply slice_inv in E as (_ & _ & E & _). unfold len in E. lia.
  - intros n H0 H1. unfold disk_of. by rewrite slice_Some by lia.
Qed.

Section shows.
  Context (m : list Z) (d : content) (Hs : shows m d).

Lemma shows_byte n j : 0 ≤ n → 512 * (n + 1) ≤ len m → (j < 512)%nat → d n !! j = m !! (Z.to_nat (512 * n) + j)%nat.
Proof. intros H0 H1 Hj. destruct Hs as [_ Hs']. apply (slice_lookup m _ _ _ _ (Hs' n H0 H1)). lia. Qed.

Lemma shows_sectors s (k : nat) : 0 ≤ s → 512 * (s + Z.of_nat k) ≤ len m → holds m (512 * s) (concat (d <$> seqZ s (Z.of_nat k))).
Proof.
  revert s. induction k as [|k IH]; intros s H0 H1; [intros i Hi; simpl in Hi; lia|]. rewrite seqZ_cons by lia.
  replace (Z.pred (Z.of_nat (S k))) with (Z.of_nat k) by lia. rewrite fmap_cons. cbn [concat]. apply holds_app; [lia|].
  destruct Hs as [Hok _]. destruct (Hok s) as [Hl _]. split.
  - intros i Hi. symmetry. apply shows_byte; lia.
  - replace (512 * s + len (d s)) with (512 * Z.succ s) by (unfold len; lia). apply IH; lia.
Qed.

(** What starts a run of sectors. *)
Lemma shows_take s k l : 0 ≤ s → 0 ≤ k → 512 * (s + k) ≤ len m → len l ≤ 512 * k → holds m (512 * s) l →
  take (length l) (concat (d <$> seqZ s k)) = l.
Proof.
  intros H0 Hk H1 Hl Hh. pose proof (shows_sectors s (Z.to_nat k)) as Hc. rewrite Z2Nat.id in Hc by done. specialize (Hc H0 H1).
  assert (length (concat (d <$> seqZ s k)) = (Z.to_nat k * 512)%nat) as Hlen.
  { destruct Hs as [Hok _]. rewrite (length_sectors d (seqZ s k) Hok). by rewrite length_seqZ. }
  apply list_eq. intros i. unfold len in Hl. destruct (decide (i < length l)%nat) as [Hi|Hi].
  - rewrite lookup_take_lt by done. rewrite <-Hc by lia. by apply Hh.
  - rewrite lookup_take_ge by lia. symmetry. apply lookup_ge_None_2. lia.
Qed.

Lemma shows_u32 n j v : 0 ≤ n → 512 * (n + 1) ≤ len m → 0 ≤ j → j + 4 ≤ 512 → 0 ≤ v < 2 ^ 32 →
  holds m (512 * n + j) (le_encode 4 v) → Boot.u32_at (d n) j = v.
Proof.
  intros H0 H1 Hj Hj4 Hv Hh.
  assert (∀ k : nat, (k < 4)%nat → Boot.byte_at (d n) (j + Z.of_nat k) = nth k (le_encode 4 v) 0) as Hb.
  { intros k Hk. unfold Boot.byte_at. rewrite !nth_lookup. rewrite shows_byte by lia. rewrite <-Hh by done. do 2 f_equal. lia. }
  pose proof (Hb 0%nat ltac:(lia)) as B0. pose proof (Hb 1%nat ltac:(lia)) as B1. pose proof (Hb 2%nat ltac:(lia)) as B2. pose proof (Hb 3%nat ltac:(lia)) as B3.
  change (Z.of_nat 0) with 0 in B0. change (Z.of_nat 1) with 1 in B1. change (Z.of_nat 2) with 2 in B2. change (Z.of_nat 3) with 3 in B3. rewrite Z.add_0_r in B0. unfold Boot.u32_at. rewrite B0, B1, B2, B3. by apply le_decode_4.
Qed.
End shows.

(** ** Names *)
Lemma eight_three_halves nm : Mkfs.is_eight_three nm = true → halves nm (Mkfs.name_parts nm).1 (Mkfs.name_parts nm).2.
Proof.
  intros (Hb & He & Hc)%eight_three_parts. unfold Mkfs.name_parts, DOT in *.
  assert (∀ l, Forall (λ b, 65 ≤ b ≤ 90 ∨ 48 ≤ b ≤ 57 ∨ b = 46) l → Forall stored l) as Hst.
  { intros l Hl. eapply Forall_impl; [exact Hl|]. intros b Hx. cbn beta in Hx. split; [lia|]. unfold to_ascii_uppercase, in_range. by rewrite (proj2 (Z.leb_gt 97 b)) by lia. }
  pose proof (Hst _ Hc) as Hs. assert (upper nm = nm) as Hu by (by apply upper_stored).
  split; unfold bare_dot; rewrite ?Hu; try lia; destruct (split_once 46 nm) as [[x y]|] eqn:Esp; cbn [fst snd] in *.
  - apply split_once_spec in Esp as [-> _]. apply Forall_app in Hs as [? [_ ?]%Forall_cons]. done.
  - done.
  - by apply split_once_spec in Esp as [_ ?].
  - by apply split_once_None.
  - apply split_once_spec in Esp as [-> _]. by destruct y.
  - unfold dotted. by rewrite app_nil_r.
Qed.

(** ** The volume *)
Section mount.
  Context (total spc spf : Z) (label : list Z) (files : list Mkfs.File) (m : list Z) (d : content).
  Context (Htotal : 34 ≤ total < 2 ^ 26 - 1) (Hpow : Boot.is_power_of_two spc = true) (Hspf : 0 < spf < 2 ^ 25) (Hfit : 32 + 2 * spf ≤ total).
  Local Abbreviation b := (boot_of total spc spf label).
  Local Abbreviation cb := (512 * spc).
  Context (Hcl : 65525 ≤ clusters b) (Htab : clusters b + 2 ≤ spf * 128) (Hneed : 1 + total_needed cb files ≤ clusters b).
  Context (Him : image_of total spc spf label files m) (Hd : shows m d).
  Context {E : Type}.

Lemma spc_bounds : 1 ≤ spc ≤ 128.
Proof. apply (is_power_of_two_spec spc Hpow). Qed.

Lemma clusters_b : clusters b = Mkfs.clusters (geo total spc spf).
Proof. done. Qed.

Lemma boot_is : d 0 = Mkfs.boot_sector (geo total spc spf) label.
Proof.
  pose proof (boot_length total spc spf label) as Hl. pose proof (image_boot _ _ _ _ _ _ Him) as Hb. pose proof (image_len _ _ _ _ _ _ Him) as Hlen.
  revert Hl Hb. generalize (Mkfs.boot_sector (geo total spc spf) label). intros s Hl Hb.
  apply list_eq. intros i. destruct Hd as [Hok _]. destruct (Hok 0) as [H0 _]. unfold len in Hl. destruct (decide (i < 512)%nat) as [Hi|Hi].
  - rewrite (shows_byte m d Hd) by lia. apply Hb. lia.
  - rewrite !lookup_ge_None_2 by lia. done.
Qed.

Lemma mounted : Boot.parse (d 0) = Ok b ∧ geometry b.
Proof.
  assert (Boot.parse (d 0) = Ok b) as Ep by (rewrite boot_is; by apply parse_boot).
  split; [done|]. destruct Hd as [Hok _]. destruct (Hok 0) as [_ Hb]. exact (parse_geometry _ _ Hb Ep).
Qed.

Lemma cluster_start_at c : 512 * cluster_start b c = cluster_at spc spf c.
Proof. unfold cluster_start, cluster_at, FIRST_DATA_CLUSTER. cbn [boot_of reserved_sectors fat_count sectors_per_fat sectors_per_cluster]. lia. Qed.

Lemma in_table c v : (c, v) ∈ rootful cb files → 0 ≤ v < 2 ^ 32 → fat b d c = decode v.
Proof.
  intros Hin Hv. pose proof (image_table _ _ _ _ _ _ Him c v Hin) as Hh. pose proof (image_len _ _ _ _ _ _ Him) as Hlen. pose proof spc_bounds.
  assert (2 ≤ c < 2 + clusters b) as Hc. { apply elem_of_cons in Hin as [[= -> ->]|Hin]; [lia|]. apply links_keys in Hin; lia. }
  unfold fat, raw, table_sector. cbn [boot_of reserved_sectors sectors_per_fat]. f_equal.
  pose proof (Z.div_mod c 128 ltac:(lia)). pose proof (Z.mod_pos_bound c 128 ltac:(lia)).
  apply (shows_u32 m d Hd); [lia|lia|lia|lia|done|]. replace (512 * (32 + 0 * spf + c / 128) + c mod 128 * 4) with (32 * 512 + c * 4) by lia. done.
Qed.

Lemma root_ends : fat b d 2 = EntryEnd.
Proof. rewrite (in_table 2 Mkfs.END_OF_CHAIN); [done|by left|done]. Qed.

Lemma decode_link c : 2 ≤ c < 2 ^ 26 → decode c = EntryNext c.
Proof.
  intros Hc. unfold decode, ENTRY_MASK. change 0x0FFFFFFF with (Z.ones 28). rewrite Z.land_ones by lia. rewrite Z.mod_small by lia.
  rewrite (proj2 (Z.eqb_neq c 0)), (proj2 (Z.eqb_neq c 1)), (proj2 (Z.eqb_neq c _)), (proj2 (Z.leb_gt _ c)) by lia. done.
Qed.

(** The chain of a file: its clusters, one after the other. *)
Lemma walk_run first (n k : nat) : (k ≤ n)%nat → 2 ≤ first → first + Z.of_nat n ≤ 2 + clusters b →
  (∀ c v, (c, v) ∈ file_links first (Z.of_nat n) → (c, v) ∈ rootful cb files) →
  walk (E:=E) b d k (first + Z.of_nat (n - k)) = Ok (seqZ (first + Z.of_nat (n - k)) (Z.of_nat k)).
Proof.
  intros Hk Hf Hn Hin. pose proof spc_bounds as Hspc. pose proof (format_clusters_fit total spc spf Hspc Hfit) as Hc. rewrite <-clusters_b in Hc.
  induction k as [|k IH]; [done|]. set (c := first + Z.of_nat (n - S k)). assert (has b c) as Hhas by (unfold has, FIRST_DATA_CLUSTER, c; lia).
  cbn [walk]. rewrite decide_True by done. destruct k as [|k]; [done|].
  assert (fat b d c = EntryNext (c + 1)) as ->.
  { rewrite <-decode_link by (unfold c; nia). apply in_table; [|unfold c; nia]. apply Hin. unfold file_links. apply list_elem_of_fmap.
    exists (Z.of_nat (n - S (S k))). split; [|apply elem_of_seqZ; lia]. rewrite (proj2 (Z.eqb_neq _ _)) by lia. f_equal. }
  replace (c + 1) with (first + Z.of_nat (n - S k)) by (unfold c; lia). rewrite IH by lia. cbn [mbind res_bind].
  rewrite (seqZ_cons c) by lia. do 3 f_equal; unfold c; lia.
Qed.

Lemma datas_run c (k : nat) : concat (data b d <$> seqZ c (Z.of_nat k)) = concat (d <$> seqZ (cluster_start b c) (Z.of_nat k * spc)).
Proof.
  pose proof spc_bounds. revert c. induction k as [|k IH]; intros c; [done|]. rewrite seqZ_cons by lia. rewrite fmap_cons. cbn [concat].
  replace (Z.pred (Z.of_nat (S k))) with (Z.of_nat k) by lia. rewrite IH. unfold data. cbn [boot_of sectors_per_cluster].
  replace (Z.of_nat (S k) * spc) with (spc + Z.of_nat k * spc) by lia. rewrite seqZ_app by nia. rewrite fmap_app, concat_app. do 3 f_equal.
  unfold cluster_start. cbn [boot_of sectors_per_cluster]. f_equal. lia.
Qed.

(** *** The files *)
Lemma lay_links f c next : 0 < next → (f, c) ∈ lay cb next files →
  (c = 0 ∧ needed cb f = 0) ∨ (next ≤ c ∧ needed cb f ≠ 0 ∧ c + needed cb f ≤ next + total_needed cb files ∧
    ∀ x, x ∈ file_links c (needed cb f) → x ∈ links cb next files).
Proof.
  pose proof spc_bounds. clear Him Hneed. revert next. induction files as [|f' fs IH]; intros next Hn; cbn [lay links total_needed]; [by intros []%not_elem_of_nil|].
  pose proof (needed_bounds cb f' ltac:(lia)) as Hn1. pose proof (total_needed_nonneg cb fs ltac:(lia)) as Hn2.
  intros [[= -> ->]|Hin]%elem_of_cons.
  - destruct (Z.eqb_spec (needed cb f') 0); [by left|]. right. split; [lia|]. split; [done|]. split; [lia|]. intros x Hx. apply elem_of_app. by left.
  - destruct (IH (next + needed cb f') ltac:(lia) Hin) as [|(H1 & H2 & H3 & H4)]; [by left|]. right. split; [lia|]. split; [done|]. split; [lia|].
    intros x Hx. apply elem_of_app. right. by apply H4.
Qed.

Lemma content_of_file f c e : (f, c) ∈ lay cb 3 files → first_cluster e = c → esize e = len (Mkfs.contents f) →
  file_content (E:=E) b d e = Some (Mkfs.contents f).
Proof.
  intros Hin <- Hsize. pose proof spc_bounds as Hspc. unfold file_content. rewrite Hsize. cbn [boot_of sectors_per_cluster].
  pose proof (needed_bounds cb f ltac:(lia)) as (Hn0 & Hnz & Hq). fold (needed cb f).
  destruct (Z.eqb_spec (len (Mkfs.contents f)) 0) as [Hz|Hnz']; [f_equal; symmetry; apply nil_length_inv; unfold len in Hz; lia|].
  destruct (lay_links f (first_cluster e) 3 ltac:(lia) Hin) as [[_ H0]|(H3 & Hne & Hend & Hlinks)].
  { apply Hnz in H0. rewrite H0 in Hnz'. done. }
  rewrite (proj2 (Z.ltb_ge _ (needed cb f))) by lia.
  pose proof (walk_run (first_cluster e) (Z.to_nat (needed cb f)) (Z.to_nat (needed cb f)) ltac:(lia) ltac:(lia) ltac:(lia)) as Hw.
  rewrite Nat.sub_diag, Z.add_0_r, Z2Nat.id in Hw by lia. rewrite Hw by (intros c v Hcv; right; by apply Hlinks). clear Hw.
  f_equal. pose proof (datas_run (first_cluster e) (Z.to_nat (needed cb f))) as Hdata. rewrite Z2Nat.id in Hdata by lia. rewrite Hdata.
  unfold len. rewrite Nat2Z.id. pose proof (image_len _ _ _ _ _ _ Him) as Hlen.
  pose proof (format_clusters_fit total spc spf Hspc Hfit) as Hc. rewrite <-clusters_b in Hc. pose proof (cluster_start_at (first_cluster e)) as Hat.
  apply (shows_take m d Hd).
  - unfold cluster_at in Hat. nia.
  - nia.
  - rewrite Hlen. unfold cluster_at in Hat. nia.
  - pose proof (proj1 (Hq (needed cb f)) ltac:(lia)). lia.
  - rewrite Hat. apply (image_files _ _ _ _ _ _ Him); [done|lia].
Qed.

(** *** The root directory *)
Lemma cluster_slots_data c : snd <$> cluster_slots b d c = as_chunks 32 (data b d c).
Proof.
  destruct Hd as [Hok _]. unfold cluster_slots, data. destruct (as_chunks_concat 32 16 (d <$> seqZ (cluster_start b c) (sectors_per_cluster b))) as [-> _]; [lia| |].
  { apply Forall_fmap, Forall_forall. intros n _. simpl. apply Hok. }
  induction (seqZ _ _) as [|n l IH]; [done|]. rewrite !fmap_cons. cbn [concat]. rewrite fmap_app, IH. f_equal.
  unfold sector_slots. rewrite <-list_fmap_compose. destruct (Hok n) as [Hl _].
  rewrite (zip_chunks 32 (d n) 16), (as_chunks_spec 32 (d n) 16) by lia. rewrite <-list_fmap_compose. done.
Qed.

Lemma root_slots : 32 * (1 + len files) ≤ cb → Forall (λ f, Mkfs.is_eight_three (Mkfs.fname f) = true) files →
  snd <$> cluster_slots b d 2 = label_entry label :: (entry_of <$> lay cb 3 files) ++
    replicate (Z.to_nat (16 * spc - (1 + len files))) (replicate 32 0).
Proof.
  intros Hroom Hnames. rewrite cluster_slots_data. pose proof spc_bounds as Hspc. pose proof (image_len _ _ _ _ _ _ Him) as Hlen.
  set (slots := _ :: _).
  assert (concat slots = label_entry label ++ concat (entry_of <$> lay cb 3 files) ++ replicate (Z.to_nat (cb - 32 * (1 + len files))) 0) as Hconcat.
  { unfold slots. cbn [concat]. rewrite concat_app. do 2 f_equal.
    assert (∀ k : nat, concat (replicate k (replicate 32 0)) = replicate (32 * k) 0) as Hz.
    { intros k. induction k as [|k IHk]; [done|]. rewrite (replicate_S k (replicate 32 0)). cbn [concat]. rewrite IHk, <-replicate_add. f_equal. lia. }
    rewrite Hz. f_equal. lia. }
  assert (Forall (λ l, length l = 32%nat) slots) as Hall.
  { unfold slots. constructor; [unfold label_entry; by rewrite !length_app, padded_label_length|]. apply Forall_app. split; [|by apply Forall_replicate].
    apply Forall_fmap. eapply Forall_impl; [by apply lay_names|]. intros x Hx. simpl. pose proof (entry_of_length x Hx) as He. unfold len in He. lia. }
  rewrite <-(as_chunks_blocks 32 slots) by (done || lia). f_equal. rewrite Hconcat.
  pose proof (image_root _ _ _ _ _ _ Him) as Hr. rewrite <-Hconcat in *. rewrite <-cluster_start_at in Hr.
  assert (length (concat slots) = Z.to_nat (512 * spc)) as Hl.
  { rewrite Hconcat, !length_app, length_replicate. pose proof (entries_length spc files Hnames) as He. unfold len in He, Hroom |- *.
    assert (length (label_entry label) = 32%nat) as -> by (unfold label_entry; by rewrite !length_app, padded_label_length). lia. }
  pose proof (format_clusters_fit total spc spf Hspc Hfit) as Hc. rewrite <-clusters_b in Hc. pose proof (cluster_start_at 2) as Hat. unfold cluster_at in Hat.
  rewrite <-(shows_take m d Hd (cluster_start b 2) spc (concat slots)); [|lia|lia|nia|unfold len; lia|done].
  unfold data. cbn [boot_of sectors_per_cluster]. rewrite take_ge; [done|]. destruct Hd as [Hok _]. rewrite (length_sectors d _ Hok), length_seqZ. lia.
Qed.

(** The entry the kernel decodes. *)
Definition kernel_entry (x : Mkfs.File * Z) : DirectoryEntry :=
  file_entry (Mkfs.name_parts (Mkfs.fname x.1)).1 (Mkfs.name_parts (Mkfs.fname x.1)).2 x.2 (len (Mkfs.contents x.1)).

Lemma decode_label : hd 32 label ≠ 0 → decode_slot (label_entry label) = SlotSkip.
Proof.
  intros Hne. unfold decode_slot, label_entry. pose proof (padded_label_length label) as Hl.
  assert (Boot.byte_at (Mkfs.padded_label label ++ [Mkfs.ATTR_VOLUME_LABEL] ++ replicate 20 0) 0 ≠ 0) as H0.
  { destruct label as [|z l]; [done|]. cbn [hd] in Hne. exact Hne. }
  rewrite (proj2 (Z.eqb_neq _ ENTRY_NEVER_USED)) by exact H0. destruct (_ =? ENTRY_DELETED); [done|].
  assert (Boot.byte_at (Mkfs.padded_label label ++ [Mkfs.ATTR_VOLUME_LABEL] ++ replicate 20 0) 11 = 8) as ->; [|done].
  unfold Boot.byte_at. change (Z.to_nat 11) with 11%nat. rewrite app_nth2 by lia. by rewrite Hl.
Qed.

Lemma decode_entry x : Mkfs.is_eight_three (Mkfs.fname x.1) = true → 0 ≤ x.2 < 2 ^ 32 → len (Mkfs.contents x.1) < 2 ^ 32 →
  decode_slot (entry_of x) = SlotEntry (kernel_entry x).
Proof.
  intros Hn Hx Hl. unfold entry_of, stored_name, kernel_entry. eapply decode_encode_entry; [by apply eight_three_halves|done|].
  pose proof (len_nonneg (Mkfs.contents x.1)). lia.
Qed.

(** The first of the files stored under the name that is looked for. *)
Definition first_stored (enc : list Z) (l : list (Mkfs.File * Z)) : option (Mkfs.File * Z) :=
  List.find (λ x, bool_decide (stored_name (Mkfs.fname x.1) = enc)) l.

Lemma scan_entries nm enc l rest : encode_name nm = Some enc → bare_dot nm = false →
  Forall (λ x, Mkfs.is_eight_three (Mkfs.fname x.1) = true ∧ 0 ≤ x.2 < 2 ^ 32 ∧ len (Mkfs.contents x.1) < 2 ^ 32) l →
  scan (λ found s, find_step nm found (0, 0, s)) ((entry_of <$> l) ++ rest) None =
    match first_stored enc l with
    | Some x => inr (Some (kernel_entry x))
    | None => scan (λ found s, find_step nm found (0, 0, s)) rest None
    end.
Proof.
  intros (base & ext & -> & Hh)%encode_halves Hdot. induction 1 as [|x l (Hn & Hc & Hl) _ IH]; [done|].
  rewrite fmap_cons. cbn [app scan first_stored List.find].
  rewrite (find_step_entry nm None (0, 0, entry_of x) (kernel_entry x)) by (by apply decode_entry).
  pose proof (named_iff _ _ _ nm base ext x.2 (len (Mkfs.contents x.1)) (eight_three_halves _ Hn) Hh) as Hiff.
  fold (kernel_entry x) in Hiff. fold (stored_name (Mkfs.fname x.1)) in Hiff.
  case_bool_decide as Heq; destruct (is_named (kernel_entry x) nm) eqn:Hnm; [done| | |exact IH].
  - assert (false = true) as Hx; [|discriminate Hx]. apply Hiff. done.
  - destruct Heq. by apply Hiff.
Qed.

Lemma lookup_run nm enc : hd 32 label ≠ 0 → 32 * (1 + len files) ≤ cb → Forall sound_file files →
  Forall (λ f, Mkfs.is_eight_three (Mkfs.fname f) = true) files → encode_name nm = Some enc → bare_dot nm = false →
  lookup_name (E:=E) b d nm = Ok (kernel_entry <$> first_stored enc (lay cb 3 files)).
Proof.
  intros Hlab Hroom Hsound Hnames Henc Hdot. pose proof spc_bounds as Hspc. destruct mounted as [_ Hg].
  assert (root_dir b d = (cluster_slots b d 2, StopAt 2 EntryEnd)) as Hroot.
  { unfold root_dir. replace (Z.to_nat (clusters b + 1)) with (S (S (Z.to_nat (clusters b - 1)))) by lia. rewrite dir_S.
    change (root_cluster b) with 2. rewrite decide_True by (unfold has, FIRST_DATA_CLUSTER; lia). by rewrite root_ends. }
  unfold lookup_name. rewrite Hroot. cbn [fst snd].
  assert (scan (find_step nm) (cluster_slots b d 2) None = scan (λ found s, find_step nm found (0, 0, s)) (snd <$> cluster_slots b d 2) None) as ->
    by (by rewrite scan_fmap).
  rewrite root_slots by done. cbn [scan].
  assert (find_step nm None (0, 0, label_entry label) = inl None) as -> by (unfold find_step, root_step; cbn [snd]; by rewrite decode_label).
  rewrite (scan_entries nm enc); [|done|done|].
  2:{ apply Forall_forall. intros [f c] Hin. cbn [fst snd].
    assert (f ∈ files) as Hf by (rewrite <-(lay_files cb 3 files); apply list_elem_of_fmap; by exists (f, c)).
    rewrite Forall_forall in Hnames, Hsound. destruct (Hsound f Hf) as (_ & _ & ?). split; [by apply Hnames|]. split; [|done].
    pose proof (format_clusters_fit total spc spf Hspc Hfit) as Hc. rewrite <-clusters_b in Hc. pose proof (needed_bounds cb f ltac:(lia)).
    destruct (lay_links f c 3 ltac:(lia) Hin) as [[-> _]|(? & ? & ? & _)]; [lia|nia]. }
  destruct (first_stored enc (lay cb 3 files)) as [x|]; [done|]. cbn [fmap option_fmap option_map].
  destruct (Z.to_nat (16 * spc - (1 + len files))) as [|k]; [done|]. rewrite (replicate_S k (replicate 32 0)). done.
Qed.
End mount.

(** * The formatter: properties

    What [format] answers, and that the kernel finds on the image exactly
    what was put there. *)

(** ** The table's size *)
Lemma sectors_per_fat_overflow {X} total spc : 2 ^ 26 - 1 ≤ total < 2 ^ 32 → 0 < spc → Mkfs.sectors_per_fat_for (X:=X) total spc = Panic.
Proof.
  intros Ht Hs. unfold Mkfs.sectors_per_fat_for. rewrite Z.max_l by lia. change 33%nat with (S 32). rewrite halve_S.
  rewrite (proj2 (Z.ltb_lt 1 total)) by lia. cbv zeta. set (middle := 1 + (total - 1) / 2).
  pose proof (Z.div_mod (total - 1) 2 ltac:(lia)). pose proof (Z.mod_pos_bound (total - 1) 2 ltac:(lia)).
  assert (2 ^ 25 ≤ middle ≤ 2 ^ 31) as Hm by (unfold middle; lia). assert (Mkfs.fits (X:=X) total spc middle = Panic) as ->; [|done].
  unfold Mkfs.fits, Mkfs.mul32, Mkfs.div32, Mkfs.add32, Mkfs.FAT_COUNT, Mkfs.RESERVED_SECTORS, Mkfs.FIRST_DATA_CLUSTER, Mkfs.SECTOR_BYTES.
  change (512 / 4) with 128. unfold checked_mul, checked_add.
  destruct (Z.ltb_spec (2 * middle) (2 ^ 32)); [|done]. cbn [expect mbind res_bind]. rewrite (proj2 (Z.eqb_neq spc 0)) by lia. cbn [mbind res_bind].
  destruct (Z.ltb_spec (saturating_sub (saturating_sub total 32) (2 * middle) / spc + 2) (2 ^ 32)); [|done]. cbn [expect mbind res_bind].
  by rewrite (proj2 (Z.ltb_ge (middle * 128) _)) by lia.
Qed.

(** The formatter's halving ends with the smallest table that has an
    entry for every cluster left over once both copies are taken out, for
    every disk below 2^26 - 1 sectors; from there up to the largest number of
    sectors the boot sector can name the search overflows and the build stops. *)
Theorem sectors_per_fat_exact total spc : 0 < total < 2 ^ 32 → 0 < spc →
  if decide (total < 2 ^ 26 - 1) then
    ∃ spf, Mkfs.sectors_per_fat_for (X:=Mkfs.FormatError) total spc = Ok spf ∧ 0 < spf ∧ big_enough total spc spf ∧
      ∀ s, 0 < s < spf → ¬ big_enough total spc s
  else Mkfs.sectors_per_fat_for (X:=Mkfs.FormatError) total spc = Panic.
Proof.
  intros Ht Hs. case_decide; [|by apply sectors_per_fat_overflow; lia].
  destruct (sectors_per_fat_run (X:=Mkfs.FormatError) total spc) as (spf & ? & ? & ? & ?); [lia|done|]. exists spf. by split_and!; [..|lia| |].
Qed.

(** ** The whole *)

Lemma format_overflow total spc label files : 2 ^ 26 - 1 ≤ total < 2 ^ 32 → 0 < spc → Forall sound_file files →
  if decide (Forall (λ f, Mkfs.is_eight_three (Mkfs.fname f) = true) files) then Mkfs.format total spc label files = Panic
  else ∃ f, f ∈ files ∧ Mkfs.is_eight_three (Mkfs.fname f) = false ∧ Mkfs.format total spc label files = Err (Mkfs.BadName (Mkfs.fname f)).
Proof.
  intros Ht Hs Hf. assert (Forall flat files) as Hflat by (eapply Forall_impl; [exact Hf|intros f (? & _); done]).
  pose proof (check_names_run files Hflat) as Hcheck. cbv zeta in Hcheck. unfold Mkfs.format.
  assert (Mkfs.geometry_for total spc = Panic) as Hg by (unfold Mkfs.geometry_for; by rewrite sectors_per_fat_overflow).
  case_decide as Hnames.
  - rewrite Hcheck, Hg. reflexivity.
  - destruct Hcheck as (f & Hin & Hbad & ->). by exists f.
Qed.


(** ** The kernel on the image *)
Section mounts.
  Context {S E : Type} `{Disk S E}.

Lemma mount_on b s : Boot.parse (view s 0) = Ok b →
  ∃ r s', mount s = (r, s') ∧ view s' = view s ∧ (r = Ok b ∨ ∃ x : E, r = Err (Device x)).
Proof.
  intros Hp. unfold mount. destruct (read_law 0 s) as (r & s' & Hr & Hv & Hc).
  destruct Hc as [->|[e ->]].
  - exists (Ok b), s'. split; [|by split; [|left]]. erewrite dev_bind_Ok; [|unfold dev_map_err; by rewrite Hr]. unfold lift. by rewrite Hp.
  - exists (Err (Device e)), s'. split; [|by split; [|right; eexists]]. erewrite dev_bind_Err; [done|]. unfold dev_map_err. by rewrite Hr.
Qed.

Lemma first_stored_lay enc cb next files : fst <$> first_stored enc (lay cb next files) =
  List.find (λ f, bool_decide (stored_name (Mkfs.fname f) = enc)) files.
Proof. revert next. induction files as [|f files IH]; intros next; [done|]. cbn [lay first_stored List.find fst]. case_bool_decide; [done|]. apply IH. Qed.

End mounts.

(** A 34 MB volume with one file, [A]. *)
Definition example_label : list Z := [72; 65; 82; 76; 65; 78].
Definition example_files : list Mkfs.File := [{| Mkfs.fname := [65]; Mkfs.contents := [104; 105] |}].

Lemma example_files_sound : Forall sound_file example_files ∧ NoDup (Mkfs.fname <$> example_files) ∧ bytes_ok example_label.
Proof.
  split; [|split; [apply NoDup_singleton|repeat constructor; done]]. constructor; [|constructor].
  split; [split; [done|]|split; [repeat constructor; done|done]]. apply not_elem_of_cons. split; [done|apply not_elem_of_nil].
Qed.

Lemma example_formats : ∃ image g, Mkfs.format 67000 1 example_label example_files = Ok (image, g) ∧ bytes_ok image.
Proof.
  destruct example_files_sound as (Hf & Hnd & Hl).
  destruct (format_run 67000 1 example_label example_files ltac:(lia) ltac:(lia) Hl Hf Hnd) as (spf & Hspf & _ & Hleast & _ & Ha).
  assert (spf ≤ 600) as Hle.
  { destruct (decide (spf ≤ 600)); [done|]. exfalso. apply (Hleast 600); [lia|]. apply (bool_decide_unpack _). by vm_compute. }
  unfold format_answer in Ha. rewrite decide_True in Ha by (repeat constructor).
  assert (Mkfs.clusters (geo 67000 1 spf) = 67000 - 32 - 2 * spf) as Hn by apply Z.div_1_r. rewrite Hn in Ha.
  rewrite decide_False in Ha by lia. rewrite decide_False in Ha by (change (len example_files) with 1; lia).
  assert (total_needed (512 * 1) example_files = 1) as Hneed by done. rewrite Hneed in Ha. rewrite decide_False in Ha by lia.
  destruct Ha as (m & -> & Hm). exists m, (geo 67000 1 spf). split; [done|by apply (image_ok _ _ _ _ _ _ Hm)].
Qed.


