(* ===== verification/Gpt.v ===== *)
(** * The boot image's partition table: [tools/xtask/src/gpt.rs]

    [build] lays partitions out behind a protective MBR and a GPT with its
    backup; [usb_image] puts the loader's volume and the system's in it.  As
    in [Format], an overflow, a slice out of range or a division by zero is
    a panic.  A partition's name is the list of its characters; the texts of
    [bail!] are the cases of [BuildError]. *)

From S2P Require Import Prelude Words Bytes FatFormat FatVolume FatPlace Format FormatRun FormatThms.
Local Open Scope Z_scope.

Module Gpt.
Definition SECTOR : Z := 512.
Definition FIRST_USABLE : Z := 2048.
Definition ENTRY_COUNT : Z := 128.
Definition ENTRY_BYTES : Z := 128.
Definition ENTRY_SECTORS : Z := ENTRY_COUNT * ENTRY_BYTES / SECTOR.
Definition SIGNATURE : list Z := [0x45; 0x46; 0x49; 0x20; 0x50; 0x41; 0x52; 0x54].
Definition REVISION : Z := 0x00010000.
Definition HEADER_BYTES : Z := 92.
Definition ESP_TYPE : list Z :=
  [0x28; 0x73; 0x2A; 0xC1; 0x1F; 0xF8; 0xD2; 0x11; 0xBA; 0x4B; 0x00; 0xA0; 0xC9; 0x3E; 0xC9; 0x3B].
Definition DATA_TYPE : list Z :=
  [0xA2; 0xA0; 0xD0; 0xEB; 0xE5; 0xB9; 0x33; 0x44; 0x87; 0xC0; 0x68; 0xB6; 0xB7; 0x26; 0x99; 0xC7].
(** "HARLAN-DISK-GUID", "HARLAN-ESP--PART" and "HARLAN-DATA-PART". *)
Definition DISK_GUID : list Z := [72; 65; 82; 76; 65; 78; 45; 68; 73; 83; 75; 45; 71; 85; 73; 68].
Definition ESP_GUID : list Z := [72; 65; 82; 76; 65; 78; 45; 69; 83; 80; 45; 45; 80; 65; 82; 84].
Definition DATA_GUID : list Z := [72; 65; 82; 76; 65; 78; 45; 68; 65; 84; 65; 45; 80; 65; 82; 84].

Record Partition := { pname : list Z; type_guid : list Z; guid : list Z; contents : list Z }.

Inductive BuildError :=
| NoPartitions
| TooManyPartitions (n : Z)
| NotWholeSectors (name : list Z) (bytes : Z)
| NoSectors (name : list Z)
| EspNotLaidOut (e : Mkfs.FormatError).

(** [char::encode_utf16]. *)
Definition utf16_of (c : Z) : list Z :=
  if c <? 0x10000 then [c]
  else [0xD800 + Z.shiftr (c - 0x10000) 10; 0xDC00 + Z.land (c - 0x10000) 0x3FF].
Definition encode_utf16 (text : list Z) : list Z := concat (utf16_of <$> text).

(** ** The checksum *)
Definition crc_bit (crc : Z) : Z :=
  let carry := Z.land crc 1 in
  let crc := Z.shiftr crc 1 in
  if negb (carry =? 0) then Z.lxor crc 0xEDB88320 else crc.

Definition crc_byte (crc byte : Z) : Z := Nat.iter 8 crc_bit (Z.lxor crc byte).

Definition crc32 (bytes : list Z) : Z := not_w 32 (foldl crc_byte 0xFFFFFFFF bytes).

(** ** One header *)
Definition header_fields (this_lba other_lba entries_lba first_usable last_usable entries_crc : Z) : list Z :=
  Mkfs.fields SECTOR [
    (0, SIGNATURE);
    (8, le_encode 4 REVISION);
    (12, le_encode 4 HEADER_BYTES);
    (24, le_encode 8 this_lba);
    (32, le_encode 8 other_lba);
    (40, le_encode 8 first_usable);
    (48, le_encode 8 last_usable);
    (56, DISK_GUID);
    (72, le_encode 8 entries_lba);
    (80, le_encode 4 ENTRY_COUNT);
    (84, le_encode 4 ENTRY_BYTES);
    (88, le_encode 4 entries_crc)].

Definition header (this_lba other_lba entries_lba first_usable last_usable entries_crc : Z) : res BuildError (list Z) :=
  let sector := header_fields this_lba other_lba entries_lba first_usable last_usable entries_crc in
  covered ← expect (slice sector 0 HEADER_BYTES);
  Mkfs.put sector 16 (le_encode 4 (crc32 covered)).

(** ** The protective MBR *)
Definition protective_mbr (image : list Z) (total_sectors : Z) : res BuildError (list Z) :=
  let entry := 446 in
  image ← Mkfs.put image entry [0x00];
  image ← Mkfs.put image (entry + 1) [0x00; 0x02; 0x00];
  image ← Mkfs.put image (entry + 4) [0xEE];
  image ← Mkfs.put image (entry + 5) [0xFF; 0xFF; 0xFF];
  image ← Mkfs.put image (entry + 8) (le_encode 4 1);
  let covered := if total_sectors - 1 <? 2 ^ 32 then total_sectors - 1 else umax 32 in
  image ← Mkfs.put image (entry + 12) (le_encode 4 covered);
  image ← Mkfs.put image 510 [0x55];
  Mkfs.put image 511 [0xAA].

(** ** The image *)
Definition add64 (a b : Z) : res BuildError Z := expect (checked_add 64 a b).
Definition mul64 (a b : Z) : res BuildError Z := expect (checked_mul 64 a b).

Definition place (acc : list (Z * Z) * Z) (partition : Partition) : res BuildError (list (Z * Z) * Z) :=
  let '(placed, next) := acc in
  if negb (len (contents partition) mod SECTOR =? 0)
  then Err (NotWholeSectors (pname partition) (len (contents partition)))
  else
    let sectors := len (contents partition) / SECTOR in
    if sectors =? 0 then Err (NoSectors (pname partition))
    else
      behind ← add64 next sectors;
      next' ← mul64 (div_ceil behind FIRST_USABLE) FIRST_USABLE;
      Ok (placed ++ [(next, behind - 1)], next').

Definition write_partition (image : list Z) (x : Partition * (Z * Z)) : res BuildError (list Z) :=
  let '(partition, (first, _)) := x in
  Mkfs.put image (first * SECTOR) (contents partition).

Definition write_entry (entries : list Z) (x : Z * (Partition * (Z * Z))) : res BuildError (list Z) :=
  let '(at_, (partition, (first, last))) := x in
  let entry := at_ * ENTRY_BYTES in
  entries ← Mkfs.put entries entry (type_guid partition);
  entries ← Mkfs.put entries (entry + 16) (guid partition);
  entries ← Mkfs.put entries (entry + 32) (le_encode 8 first);
  entries ← Mkfs.put entries (entry + 40) (le_encode 8 last);
  entries ← Mkfs.put entries (entry + 48) (le_encode 8 0);
  let units := take 36 (encode_utf16 (pname partition)) in
  foldM (λ entries '(step, unit), Mkfs.put entries (entry + 56 + step * 2) (le_encode 2 unit)) entries
    (zip (seqZ 0 (len units)) units).

Definition build (partitions : list Partition) : res BuildError (list Z) :=
  if bool_decide (partitions = []) then Err NoPartitions
  else if ENTRY_COUNT <? len partitions then Err (TooManyPartitions (len partitions))
  else
    '(placed, next) ← foldM place ([], FIRST_USABLE) partitions;
    last_lba ← add64 next ENTRY_SECTORS;
    total_sectors ← add64 last_lba 1;
    bytes ← mul64 total_sectors SECTOR;
    let image := replicate (Z.to_nat bytes) 0 in
    image ← foldM write_partition image (zip partitions placed);
    let entries := replicate (Z.to_nat (ENTRY_COUNT * ENTRY_BYTES)) 0 in
    entries ← foldM write_entry entries (zip (seqZ 0 (len partitions)) (zip partitions placed));
    let entries_crc := crc32 entries in
    let last_usable := next - 1 in
    primary ← header 1 last_lba 2 FIRST_USABLE last_usable entries_crc;
    image ← Mkfs.put image SECTOR primary;
    image ← Mkfs.put image (2 * SECTOR) entries;
    let backup_entries_lba := last_lba - ENTRY_SECTORS in
    backup ← header last_lba 1 backup_entries_lba FIRST_USABLE last_usable entries_crc;
    image ← Mkfs.put image (backup_entries_lba * SECTOR) entries;
    image ← Mkfs.put image (last_lba * SECTOR) backup;
    protective_mbr image total_sectors.

(** "HARLANESP", "EFI/BOOT/BOOTX64.EFI", "HARLAN ESP" and "HARLAN". *)
Definition usb_image (bootloader data : list Z) (esp_sectors : Z) : res BuildError (list Z) :=
  '(esp, _) ← map_err EspNotLaidOut (Mkfs.format esp_sectors 1 [72; 65; 82; 76; 65; 78; 69; 83; 80]
    [{| Mkfs.fname := [69; 70; 73; 47; 66; 79; 79; 84; 47; 66; 79; 79; 84; 88; 54; 52; 46; 69; 70; 73];
        Mkfs.contents := bootloader |}]);
  build [{| pname := [72; 65; 82; 76; 65; 78; 32; 69; 83; 80]; type_guid := ESP_TYPE; guid := ESP_GUID; contents := esp |};
         {| pname := [72; 65; 82; 76; 65; 78]; type_guid := DATA_TYPE; guid := DATA_GUID; contents := data |}].
End Gpt.

(** The check value everything computes: CRC-32 of "123456789". *)
Example crc_of_digits : Gpt.crc32 [49; 50; 51; 52; 53; 54; 55; 56; 57] = 0xCBF43926.
Proof. vm_compute. reflexivity. Qed.

(** * The partition table: properties

    Every step of the CRC is a bijection, so what differs in one byte has
    another checksum. *)

Lemma lxor_bound a b : 0 ≤ a < 2 ^ 32 → 0 ≤ b < 2 ^ 32 → 0 ≤ Z.lxor a b < 2 ^ 32.
Proof.
  intros [Ha Ha'] [Hb Hb']. split; [apply Z.lxor_nonneg; lia|].
  assert (Z.lxor a b = Z.lxor a b mod 2 ^ 32) as ->; [|apply Z.mod_pos_bound; lia].
  symmetry. apply Z.bits_inj'. intros n Hn. destruct (Z.lt_ge_cases n 32) as [Hlt|Hge]; [by apply Z.mod_pow2_bits_low|].
  rewrite Z.mod_pow2_bits_high, Z.lxor_spec by lia.
  assert (∀ z, 0 ≤ z < 2 ^ 32 → Z.testbit z n = false) as Hz; [|by rewrite !Hz].
  intros z Hz. rewrite <-(Z.mod_small z (2 ^ 32)) by done. apply Z.mod_pow2_bits_high. lia.
Qed.

Lemma crc_bit_bound c : 0 ≤ c < 2 ^ 32 → 0 ≤ Gpt.crc_bit c < 2 ^ 32.
Proof.
  intros Hc. unfold Gpt.crc_bit. assert (0 ≤ Z.shiftr c 1 < 2 ^ 32) as Hs.
  { rewrite Z.shiftr_div_pow2 by lia. change (2 ^ 1) with 2. split; [apply Z.div_pos; lia|]. apply Z.div_lt_upper_bound; lia. }
  destruct (negb _); [|done]. by apply lxor_bound.
Qed.

(** What was shifted out can be told from bit 31. *)
Lemma crc_bit_high c : 0 ≤ c < 2 ^ 32 → Z.testbit (Gpt.crc_bit c) 31 = Z.testbit c 0.
Proof.
  intros Hc. unfold Gpt.crc_bit. assert (Z.land c 1 = if Z.testbit c 0 then 1 else 0) as ->.
  { change 1 with (Z.ones 1) at 1. rewrite Z.land_ones by lia. change (2 ^ 1) with 2. rewrite Z.bit0_odd, Zmod_odd. done. }
  assert (Z.testbit (Z.shiftr c 1) 31 = false) as Hs.
  { rewrite Z.shiftr_spec by lia. rewrite <-(Z.mod_small c (2 ^ 32)) by done. by apply Z.mod_pow2_bits_high. }
  destruct (Z.testbit c 0); cbn [negb Z.eqb]; [rewrite Z.lxor_spec|]; by rewrite Hs.
Qed.

Lemma crc_bit_inj c c' : 0 ≤ c < 2 ^ 32 → 0 ≤ c' < 2 ^ 32 → Gpt.crc_bit c = Gpt.crc_bit c' → c = c'.
Proof.
  intros Hc Hc' Heq. assert (Z.testbit c 0 = Z.testbit c' 0) as H0 by (rewrite <-!crc_bit_high by done; by rewrite Heq).
  unfold Gpt.crc_bit in Heq. assert (∀ z, Z.land z 1 = if Z.testbit z 0 then 1 else 0) as Hl.
  { intros z. change 1 with (Z.ones 1) at 1. rewrite Z.land_ones by lia. change (2 ^ 1) with 2. rewrite Z.bit0_odd, Zmod_odd. done. }
  rewrite !Hl, H0 in Heq. assert (Z.shiftr c 1 = Z.shiftr c' 1) as Hs.
  { destruct (Z.testbit c' 0); cbn [negb Z.eqb] in Heq; [|done].
    rewrite <-(Z.lxor_0_r (Z.shiftr c 1)), <-(Z.lxor_0_r (Z.shiftr c' 1)), <-(Z.lxor_nilpotent 0xEDB88320), <-!Z.lxor_assoc. by rewrite Heq. }
  apply Z.bits_inj'. intros n Hn. destruct (decide (n = 0)) as [->|Hne]; [done|].
  replace n with (n - 1 + 1) by lia. rewrite <-!Z.shiftr_spec by lia. by rewrite Hs.
Qed.

Lemma crc_bits_ok n z : 0 ≤ z < 2 ^ 32 → 0 ≤ Nat.iter n Gpt.crc_bit z < 2 ^ 32.
Proof. intros Hz. induction n as [|n IH]; [done|]. cbn [Nat.iter nat_rect]. by apply crc_bit_bound. Qed.

Lemma crc_bits_inj n z z' : 0 ≤ z < 2 ^ 32 → 0 ≤ z' < 2 ^ 32 → Nat.iter n Gpt.crc_bit z = Nat.iter n Gpt.crc_bit z' → z = z'.
Proof.
  intros Hz Hz'. induction n as [|n IH]; intros Heq; [done|]. cbn [Nat.iter nat_rect] in Heq.
  apply IH, crc_bit_inj; [by apply crc_bits_ok|by apply crc_bits_ok|done].
Qed.

Lemma crc_byte_ok c b : 0 ≤ c < 2 ^ 32 → 0 ≤ b < 256 → 0 ≤ Gpt.crc_byte c b < 2 ^ 32.
Proof. intros Hc Hb. apply crc_bits_ok, lxor_bound; lia. Qed.

Lemma crc_byte_inj c b c' b' : 0 ≤ c < 2 ^ 32 → 0 ≤ c' < 2 ^ 32 → 0 ≤ b < 256 → 0 ≤ b' < 256 →
  Gpt.crc_byte c b = Gpt.crc_byte c' b' → Z.lxor c b = Z.lxor c' b'.
Proof. intros Hc Hc' Hb Hb' Heq. apply (crc_bits_inj 8); [apply lxor_bound; lia|apply lxor_bound; lia|exact Heq]. Qed.

Lemma crc_run_ok l c : bytes_ok l → 0 ≤ c < 2 ^ 32 → 0 ≤ foldl Gpt.crc_byte c l < 2 ^ 32.
Proof. intros Hl. revert c. induction Hl as [|b l Hb _ IH]; intros c Hc; [done|]. cbn [foldl]. apply IH. by apply crc_byte_ok. Qed.

Lemma crc_run_inj l c c' : bytes_ok l → 0 ≤ c < 2 ^ 32 → 0 ≤ c' < 2 ^ 32 →
  foldl Gpt.crc_byte c l = foldl Gpt.crc_byte c' l → c = c'.
Proof.
  intros Hl. revert c c'. induction Hl as [|b l Hb _ IH]; intros c c' Hc Hc' Heq; [done|]. cbn [foldl] in Heq.
  apply IH in Heq; [|by apply crc_byte_ok..]. apply crc_byte_inj in Heq; [|done..].
  rewrite <-(Z.lxor_0_r c), <-(Z.lxor_0_r c'), <-(Z.lxor_nilpotent b), <-!Z.lxor_assoc. by rewrite Heq.
Qed.

Lemma crc32_bound l : bytes_ok l → 0 ≤ Gpt.crc32 l < 2 ^ 32.
Proof.
  intros Hl. unfold Gpt.crc32, not_w, umax. pose proof (crc_run_ok l 0xFFFFFFFF Hl ltac:(lia)). lia.
Qed.

(** One byte that is not what it was shows. *)
Lemma crc32_detects l1 b b' l2 : bytes_ok (l1 ++ b :: l2) → 0 ≤ b' < 256 →
  Gpt.crc32 (l1 ++ b :: l2) = Gpt.crc32 (l1 ++ b' :: l2) → b = b'.
Proof.
  intros Hok Hb'. apply Forall_app in Hok as [H1 [Hb H2]%Forall_cons]. unfold Gpt.crc32, not_w. intros Heq.
  assert (foldl Gpt.crc_byte 0xFFFFFFFF (l1 ++ b :: l2) = foldl Gpt.crc_byte 0xFFFFFFFF (l1 ++ b' :: l2)) as He by lia. clear Heq.
  rewrite !foldl_app in He. cbn [foldl] in He. pose proof (crc_run_ok l1 0xFFFFFFFF H1 ltac:(lia)) as Hc. set (c := foldl _ _ l1) in *.
  apply crc_run_inj in He; [|done|by apply crc_byte_ok..]. apply crc_byte_inj in He; [|done..].
  rewrite <-(Z.lxor_0_l b), <-(Z.lxor_0_l b'), <-(Z.lxor_nilpotent c), !Z.lxor_assoc. by rewrite He.
Qed.

(** ** Where the partitions go *)
Definition aligned (x : Z) : Z := div_ceil x Gpt.FIRST_USABLE * Gpt.FIRST_USABLE.
Definition sectors_of (p : Gpt.Partition) : Z := len (Gpt.contents p) / 512.

(** First and last sector of each partition. *)
Fixpoint lay_out (next : Z) (ps : list Gpt.Partition) : list (Z * Z) :=
  match ps with
  | [] => []
  | p :: ps => (next, next + sectors_of p - 1) :: lay_out (aligned (next + sectors_of p)) ps
  end.

(** The boundary behind the last one. *)
Fixpoint behind (next : Z) (ps : list Gpt.Partition) : Z :=
  match ps with [] => next | p :: ps => behind (aligned (next + sectors_of p)) ps end.

(** Something can be put in a partition. *)
Definition whole (p : Gpt.Partition) : Prop := len (Gpt.contents p) mod 512 = 0 ∧ Gpt.contents p ≠ [].

#[export] Instance whole_dec p : Decision (whole p).
Proof. unfold whole. apply _. Defined.

Lemma aligned_spec x : x ≤ aligned x < x + 2048 ∧ aligned x mod 2048 = 0.
Proof.
  unfold aligned, Gpt.FIRST_USABLE. pose proof (λ q, div_ceil_spec x 2048 q ltac:(lia)) as Hs.
  pose proof (proj1 (Hs (div_ceil x 2048)) ltac:(lia)). split; [|apply Z.mod_mul; lia]. split; [done|].
  destruct (decide (div_ceil x 2048 * 2048 < x + 2048)); [done|]. pose proof (proj2 (Hs (div_ceil x 2048 - 1)) ltac:(lia)). lia.
Qed.

Lemma whole_sectors p : whole p → 0 < sectors_of p ∧ len (Gpt.contents p) = sectors_of p * 512.
Proof.
  intros [Hm Hne]. unfold sectors_of. pose proof (Z.div_mod (len (Gpt.contents p)) 512 ltac:(lia)).
  assert (0 < len (Gpt.contents p)) by (destruct (Gpt.contents p); [done|unfold len; simpl; lia]). lia.
Qed.

Lemma behind_bounds next ps : Forall whole ps → next ≤ behind next ps ∧ (next mod 2048 = 0 → behind next ps mod 2048 = 0).
Proof.
  intros Hw. revert next. induction Hw as [|p ps Hp _ IH]; intros next; cbn [behind]; [done|].
  destruct (IH (aligned (next + sectors_of p))) as [H1 H2]. pose proof (whole_sectors p Hp). destruct (aligned_spec (next + sectors_of p)). split; [lia|auto].
Qed.

Lemma behind_most next ps B : Forall whole ps → Forall (λ p, len (Gpt.contents p) < B * 512) ps → 0 ≤ B →
  behind next ps ≤ next + len ps * (B + 2048).
Proof.
  intros Hw Hb HB. revert next. induction Hw as [|p ps Hp _ IH]; intros next; cbn [behind]; [change (len (@nil Gpt.Partition)) with 0; lia|].
  apply Forall_cons in Hb as [Hb1 Hb]. specialize (IH Hb (aligned (next + sectors_of p))). pose proof (whole_sectors p Hp). destruct (aligned_spec (next + sectors_of p)).
  rewrite len_cons. lia.
Qed.

Lemma lay_out_member next ps p f l : Forall whole ps → next mod 2048 = 0 → (p, (f, l)) ∈ zip ps (lay_out next ps) →
  p ∈ ps ∧ next ≤ f ∧ f mod 2048 = 0 ∧ l + 1 = f + sectors_of p ∧ l < behind next ps.
Proof.
  intros Hw. revert next. induction Hw as [|p' ps Hp Hw IH]; intros next Hn; cbn [lay_out zip zip_with behind]; [by intros []%not_elem_of_nil|].
  destruct (aligned_spec (next + sectors_of p')) as [Ha Ham]. pose proof (whole_sectors p' Hp). destruct (behind_bounds (aligned (next + sectors_of p')) ps Hw) as [Hb _].
  intros [[= -> -> ->]|Hin]%elem_of_cons; [split; [by left|]; split_and!; lia|].
  destruct (IH _ Ham Hin) as (H1 & H2 & H3 & H4 & H5). split; [by right|]. split_and!; lia.
Qed.

Lemma lay_out_length next ps : length (lay_out next ps) = length ps.
Proof. revert next. induction ps as [|p ps IH]; intros next; [done|]. cbn [lay_out length]. by rewrite IH. Qed.

(** In order and apart. *)
Lemma lay_out_apart next ps i j x y : Forall whole ps → next mod 2048 = 0 → (i < j)%nat →
  lay_out next ps !! i = Some x → lay_out next ps !! j = Some y → x.2 < y.1.
Proof.
  intros Hw. revert next i j. induction Hw as [|p ps Hp Hw IH]; intros next i j Hn Hij; [done|]. cbn [lay_out].
  destruct (aligned_spec (next + sectors_of p)) as [Ha Ham]. destruct j as [|j]; [lia|]. destruct i as [|i]; cbn [lookup list_lookup]; [|apply IH; [done|lia]].
  intros [= <-] Hy. simpl. destruct (lookup_lt_is_Some_2 ps j) as [q Hq].
  { rewrite <-(lay_out_length (aligned (next + sectors_of p)) ps). by eapply lookup_lt_Some. }
  destruct y as [f l]. destruct (lay_out_member (aligned (next + sectors_of p)) ps q f l Hw Ham) as (_ & Hf & _); [|simpl; lia].
  eapply list_elem_of_lookup_2. rewrite lookup_zip_Some. by split.
Qed.

(** What placing them answers. *)
Lemma place_run ps placed next : 0 ≤ next → Forall (λ p, len (Gpt.contents p) < 2 ^ 48) ps → next + len ps * 2 ^ 49 < 2 ^ 63 →
  if decide (Forall whole ps) then foldM Gpt.place (placed, next) ps = Ok (placed ++ lay_out next ps, behind next ps)
  else ∃ p, p ∈ ps ∧
    ((len (Gpt.contents p) mod 512 ≠ 0 ∧ foldM Gpt.place (placed, next) ps = Err (Gpt.NotWholeSectors (Gpt.pname p) (len (Gpt.contents p)))) ∨
     (Gpt.contents p = [] ∧ foldM Gpt.place (placed, next) ps = Err (Gpt.NoSectors (Gpt.pname p)))).
Proof.
  revert placed next. induction ps as [|p ps IH]; intros placed next Hn Hl Hb; cbn [foldM lay_out behind]; [by rewrite decide_True, app_nil_r|].
  apply Forall_cons in Hl as [Hp Hl]. rewrite len_cons in Hb. pose proof (len_nonneg ps).
  unfold Gpt.place at 2 4 6. change Gpt.SECTOR with 512. fold (sectors_of p).
  destruct (Z.eqb_spec (len (Gpt.contents p) mod 512) 0) as [Hm|Hm]; cbn [negb mbind res_bind].
  2:{ rewrite decide_False by (intros [[? _] _]%Forall_cons; done). exists p. split; [by left|]. by left. }
  pose proof (Z.div_mod (len (Gpt.contents p)) 512 ltac:(lia)). pose proof (len_nonneg (Gpt.contents p)) as Hl0. fold (sectors_of p) in *.
  destruct (Z.eqb_spec (sectors_of p) 0) as [Hz|Hz]; cbn [mbind res_bind].
  { assert (Gpt.contents p = []) as E by (apply nil_length_inv; unfold len in *; lia).
    rewrite decide_False by (intros [[_ ?] _]%Forall_cons; done). exists p. split; [by left|]. by right. }
  assert (0 < sectors_of p < 2 ^ 48) as Hs by lia. destruct (aligned_spec (next + sectors_of p)) as [Ha _].
  unfold Gpt.add64, Gpt.mul64, checked_add, checked_mul. rewrite (proj2 (Z.ltb_lt (next + sectors_of p) _)) by lia. cbn [expect mbind res_bind].
  fold (aligned (next + sectors_of p)). rewrite (proj2 (Z.ltb_lt (aligned (next + sectors_of p)) _)) by lia. cbn [expect mbind res_bind].
  specialize (IH (placed ++ [(next, next + sectors_of p - 1)]) (aligned (next + sectors_of p)) ltac:(lia) Hl ltac:(lia)).
  assert (whole p) as Hw by (split; [done|]; intros E; rewrite E in *; unfold len in *; simpl in *; lia).
  case_decide as H1; case_decide as H2.
  - rewrite IH. by rewrite <-app_assoc.
  - destruct H2. by constructor.
  - by apply Forall_cons in H2 as [_ H2].
  - destruct IH as (q & Hq & IH). exists q. split; [by right|done].
Qed.

(** ** Writing it down *)

(** A partition as a [Partition] of the program is: its GUIDs have 16 bytes. *)
Definition typed (p : Gpt.Partition) : Prop :=
  length (Gpt.type_guid p) = 16%nat ∧ length (Gpt.guid p) = 16%nat ∧ bytes_ok (Gpt.type_guid p) ∧ bytes_ok (Gpt.guid p) ∧ bytes_ok (Gpt.contents p).

Lemma write_partitions_run ps next m : Forall whole ps → Forall typed ps → 0 ≤ next → behind next ps * 512 ≤ len m →
  ∃ m', foldM Gpt.write_partition m (zip ps (lay_out next ps)) = Ok m' ∧ kept (next * 512) (behind next ps * 512) m m' ∧
    ∀ p f l, (p, (f, l)) ∈ zip ps (lay_out next ps) → holds m' (f * 512) (Gpt.contents p).
Proof.
  intros Hw. revert next m. induction Hw as [|p ps Hp Hw IH]; intros next m Ht Hn Hm; cbn [lay_out behind zip zip_with foldM].
  { exists m. split; [done|]. split; [done|]. intros p f l []%not_elem_of_nil. }
  apply Forall_cons in Ht as [(_ & _ & _ & _ & Hbp) Ht]. cbn [behind] in Hm. destruct (whole_sectors p Hp) as [Hs Hl]. destruct (aligned_spec (next + sectors_of p)) as [Ha _].
  destruct (behind_bounds (aligned (next + sectors_of p)) ps Hw) as [Hb _]. unfold Gpt.write_partition at 2. change Gpt.SECTOR with 512.
  destruct (put_run (X:=Gpt.BuildError) m (next * 512) (Gpt.contents p)) as (m1 & -> & K1 & H1); [lia|lia|done|]. cbn [mbind res_bind]. pose proof K1 as (L1 & _).
  destruct (IH (aligned (next + sectors_of p)) m1) as (m' & -> & K & H); [done|lia|lia|]. exists m'. split; [done|]. split.
  { transitivity m1; (eapply kept_weaken; [..|done]; lia). }
  intros p' f l [[= -> -> ->]|Hin]%elem_of_cons; [|by eapply H]. eapply holds_kept; [|exact K|left; lia|exact H1]. lia.
Qed.

(** The units of a name. *)
Lemma write_name_run (units : list Z) k at_ m : 0 ≤ k → 0 ≤ at_ → at_ + (k + len units) * 2 ≤ len m →
  ∃ m', foldM (λ entries '(step, unit), Mkfs.put (X:=Gpt.BuildError) entries (at_ + step * 2) (le_encode 2 unit)) m
      (zip (seqZ k (len units)) units) = Ok m' ∧ kept (at_ + k * 2) (at_ + (k + len units) * 2) m m' ∧
    holds m' (at_ + k * 2) (concat (le_encode 2 <$> units)).
Proof.
  revert k m. induction units as [|u units IH]; intros k m Hk Ha Hm.
  { exists m. split; [by destruct (seqZ k _)|]. split; [done|]. intros i Hi. simpl in Hi. lia. }
  rewrite len_cons in *. pose proof (len_nonneg units). rewrite seqZ_cons by lia. replace (Z.pred (1 + len units)) with (len units) by lia. cbn [zip zip_with foldM].
  destruct (put_run (X:=Gpt.BuildError) m (at_ + k * 2) (le_encode 2 u)) as (m1 & -> & K1 & H1); [lia|change (len (le_encode 2 u)) with 2; lia|apply le_encode_ok|].
  cbn [mbind res_bind]. pose proof K1 as (L1 & _). change (len (le_encode 2 u)) with 2 in K1.
  destruct (IH (Z.succ k) m1) as (m' & -> & K & H0); [lia|lia|lia|]. exists m'. split; [done|]. split.
  { transitivity m1; (eapply kept_weaken; [..|done]; lia). }
  rewrite fmap_cons. cbn [concat]. apply holds_app; [lia|]. change (len (le_encode 2 u)) with 2. split.
  - eapply holds_kept; [|exact K|left; change (len (le_encode 2 u)) with 2; lia|exact H1]. lia.
  - by replace (at_ + k * 2 + 2) with (at_ + Z.succ k * 2) by lia.
Qed.

Definition name_bytes (p : Gpt.Partition) : list Z := concat (le_encode 2 <$> take 36 (Gpt.encode_utf16 (Gpt.pname p))).

(** The 128 bytes of a partition's entry. *)
Definition block (x : Gpt.Partition * (Z * Z)) : list Z :=
  Gpt.type_guid x.1 ++ Gpt.guid x.1 ++ le_encode 8 x.2.1 ++ le_encode 8 x.2.2 ++ le_encode 8 0 ++
  name_bytes x.1 ++ replicate (72 - length (name_bytes x.1)) 0.

Lemma name_bytes_length p : len (name_bytes p) = 2 * len (take 36 (Gpt.encode_utf16 (Gpt.pname p))) ∧ (length (name_bytes p) ≤ 72)%nat.
Proof.
  unfold name_bytes. set (us := take 36 _). assert (length us ≤ 36)%nat as Hl by (unfold us; rewrite length_take; lia). clearbody us.
  assert (len (concat (le_encode 2 <$> us)) = 2 * len us) as He; [|split; [done|unfold len in He; lia]].
  induction us as [|u us IH]; [done|]. rewrite fmap_cons. cbn [concat]. rewrite len_app, len_cons, IH by (simpl in Hl; lia). change (len (le_encode 2 u)) with 2. lia.
Qed.

Lemma block_length x : typed x.1 → length (block x) = 128%nat.
Proof.
  intros (H1 & H2 & _). destruct (name_bytes_length x.1) as [_ H3]. unfold block. rewrite !length_app, !length_le_encode, length_replicate. lia.
Qed.

Lemma write_entry_run i x m : typed x.1 → 0 ≤ i → (i + 1) * 128 ≤ len m → holds m (i * 128) (replicate 128 0) →
  ∃ m', Gpt.write_entry m (i, x) = Ok m' ∧ kept (i * 128) ((i + 1) * 128) m m' ∧ holds m' (i * 128) (block x).
Proof.
  destruct x as [p [f l]]. intros (T1 & T2 & B1 & B2 & _) Hi Hm Hz. cbn [fst] in *. unfold Gpt.write_entry. change Gpt.ENTRY_BYTES with 128. cbv zeta. set (e := i * 128) in *.
  assert (len (Gpt.type_guid p) = 16 ∧ len (Gpt.guid p) = 16) as [L1 L2] by (unfold len; lia). destruct (name_bytes_length p) as [Ln Ln'].
  set (units := take 36 _) in *. assert (len units ≤ 36) as Lu by (unfold units, len; rewrite length_take; lia). pose proof (len_nonneg units) as Lu0.
  destruct (put_run (X:=Gpt.BuildError) m e (Gpt.type_guid p)) as (m1 & -> & K1 & H1); [lia|lia|done|]. rewrite L1 in K1. cbn [mbind res_bind]. pose proof K1 as (M1 & _).
  destruct (put_run (X:=Gpt.BuildError) m1 (e + 16) (Gpt.guid p)) as (m2 & -> & K2 & H2); [lia|lia|done|]. rewrite L2 in K2. cbn [mbind res_bind]. pose proof K2 as (M2 & _).
  assert (∀ z, len (le_encode 8 z) = 8) as L8 by done.
  destruct (put_run (X:=Gpt.BuildError) m2 (e + 32) (le_encode 8 f)) as (m3 & -> & K3 & H3); [lia|rewrite L8; lia|apply le_encode_ok|]. rewrite L8 in K3. cbn [mbind res_bind]. pose proof K3 as (M3 & _).
  destruct (put_run (X:=Gpt.BuildError) m3 (e + 40) (le_encode 8 l)) as (m4 & -> & K4 & H4); [lia|rewrite L8; lia|apply le_encode_ok|]. rewrite L8 in K4. cbn [mbind res_bind]. pose proof K4 as (M4 & _).
  destruct (put_run (X:=Gpt.BuildError) m4 (e + 48) (le_encode 8 0)) as (m5 & -> & K5 & H5); [lia|rewrite L8; lia|apply le_encode_ok|]. rewrite L8 in K5. cbn [mbind res_bind]. pose proof K5 as (M5 & _).
  destruct (write_name_run units 0 (e + 56) m5) as (m6 & E6 & K6 & H6); [lia|lia|lia|]. exists m6. split; [exact E6|].
  rewrite Z.add_0_r in H6. replace (e + 56 + 0 * 2) with (e + 56) in K6 by lia. replace (e + 56 + (0 + len units) * 2) with (e + 56 + 2 * len units) in K6 by lia.
  split.
  { transitivity m1; [eapply kept_weaken; [..|exact K1]; lia|]. transitivity m2; [eapply kept_weaken; [..|exact K2]; lia|].
    transitivity m3; [eapply kept_weaken; [..|exact K3]; lia|]. transitivity m4; [eapply kept_weaken; [..|exact K4]; lia|].
    transitivity m5; (eapply kept_weaken; [..|done]; lia). }
  unfold block. cbn [fst snd].
  apply holds_app; [lia|]. rewrite L1. split.
  { eapply holds_kept; [|exact K6|lia|]; [lia|]. eapply holds_kept; [|exact K5|lia|]; [lia|]. eapply holds_kept; [|exact K4|lia|]; [lia|].
    eapply holds_kept; [|exact K3|lia|]; [lia|]. eapply holds_kept; [|exact K2|lia|exact H1]; lia. }
  apply holds_app; [lia|]. rewrite L2. split.
  { eapply holds_kept; [|exact K6|lia|]; [lia|]. eapply holds_kept; [|exact K5|lia|]; [lia|]. eapply holds_kept; [|exact K4|lia|]; [lia|].
    eapply holds_kept; [|exact K3|lia|exact H2]; lia. }
  apply holds_app; [lia|]. rewrite L8. rewrite <-(Z.add_assoc e 16 16). change (16 + 16) with 32. split.
  { eapply holds_kept; [|exact K6|rewrite L8; lia|]; [lia|]. eapply holds_kept; [|exact K5|rewrite L8; lia|]; [lia|]. eapply holds_kept; [|exact K4|rewrite L8; lia|exact H3]; lia. }
  apply holds_app; [lia|]. rewrite L8. rewrite <-(Z.add_assoc e 32 8). change (32 + 8) with 40. split.
  { eapply holds_kept; [|exact K6|rewrite L8; lia|]; [lia|]. eapply holds_kept; [|exact K5|rewrite L8; lia|exact H4]; lia. }
  apply holds_app; [lia|]. rewrite L8. rewrite <-(Z.add_assoc e 40 8). change (40 + 8) with 48. split.
  { eapply holds_kept; [|exact K6|rewrite L8; lia|exact H5]; lia. }
  rewrite <-(Z.add_assoc e 48 8). change (48 + 8) with 56. apply holds_app; [lia|]. split; [exact H6|]. rewrite Ln.
  assert (∀ b (k : nat), e ≤ b → b + Z.of_nat k ≤ e + 128 → holds m b (replicate k 0)) as Hzero.
  { intros b k Hb1 Hb2. eapply holds_zeros; [..|exact Hz]; lia. }
  change (Z.of_nat (length (name_bytes p)) = 2 * len units) in Ln.
  do 6 (eapply holds_kept; [|eassumption|rewrite ?len_replicate; lia|]; [lia|]). apply Hzero; lia.
Qed.

Lemma write_entries_of_run (xs : list (Gpt.Partition * (Z * Z))) k m : Forall (λ x, typed x.1) xs → 0 ≤ k → (k + len xs) * 128 ≤ len m →
  holds m (k * 128) (replicate (Z.to_nat (len xs * 128)) 0) →
  ∃ m', foldM Gpt.write_entry m (zip (seqZ k (len xs)) xs) = Ok m' ∧ kept (k * 128) ((k + len xs) * 128) m m' ∧
    holds m' (k * 128) (concat (block <$> xs)).
Proof.
  intros Ht. revert k m. induction Ht as [|x xs Hx Ht IH]; intros k m Hk Hm Hz.
  { exists m. split; [by destruct (seqZ k _)|]. split; [done|]. intros i Hi. simpl in Hi. lia. }
  rewrite len_cons in *. pose proof (len_nonneg xs) as H0. rewrite seqZ_cons by lia. replace (Z.pred (1 + len xs)) with (len xs) by lia. cbn [zip zip_with foldM].
  destruct (write_entry_run k x m) as (m1 & -> & K1 & H1); [done|done|lia|eapply holds_zeros; [..|exact Hz]; lia|]. cbn [mbind res_bind]. pose proof K1 as (L1 & _).
  destruct (IH (Z.succ k) m1) as (m' & -> & K & H); [lia|lia| |].
  { eapply holds_kept; [|exact K1|rewrite len_replicate; lia|]; [lia|]. eapply holds_zeros; [..|exact Hz]; lia. }
  exists m'. split; [done|]. split; [transitivity m1; (eapply kept_weaken; [..|done]; lia)|].
  rewrite fmap_cons. cbn [concat]. assert (len (block x) = 128) as Lb by (unfold len; by rewrite block_length).
  apply holds_app; [lia|]. rewrite Lb. split; [eapply holds_kept; [|exact K|lia|exact H1]; lia|].
  by replace (k * 128 + 128) with (Z.succ k * 128) by lia.
Qed.

(** A field of a sector of fields. *)
Lemma fields_hold_at n ws k o l : ws !! k = Some (o, l) → in_fields n ws → 0 ≤ n →
  Forall (λ w, w.1 + len w.2 ≤ o ∨ o + len l ≤ w.1) (drop (S k) ws) → holds (Mkfs.fields n ws) o l.
Proof.
  intros Hk Hin Hn Hc. rewrite <-(take_drop_middle ws k (o, l) Hk) in Hin |- *. by apply fields_hold.
Qed.

(** Reading a number back. *)
Definition num (s : list Z) (at_ : nat) (n : nat) : Z := le_decode (take n (drop at_ s)).

Lemma take_holds s (o : nat) l : holds s (Z.of_nat o) l → (o + length l ≤ length s)%nat → take (length l) (drop o s) = l.
Proof.
  intros Hh Hl. apply list_eq. intros i. destruct (decide (i < length l)%nat) as [Hi|Hi].
  - rewrite lookup_take_lt, lookup_drop by done. rewrite <-(Hh i Hi). by rewrite Nat2Z.id.
  - rewrite lookup_take_ge by lia. symmetry. apply lookup_ge_None_2. lia.
Qed.

Lemma num_holds s (o n : nat) v : holds s (Z.of_nat o) (le_encode n v) → (o + n ≤ length s)%nat → 0 ≤ v < 2 ^ (8 * Z.of_nat n) → num s o n = v.
Proof.
  intros Hh Hl Hv. unfold num. rewrite <-(length_le_encode n v) at 1. rewrite take_holds by (rewrite ?length_le_encode; done). by apply le_decode_encode.
Qed.

(** ** A header *)
Section header.
  Context (this other entries_lba first_usable last_usable crc : Z).
  Context (Hthis : 0 ≤ this < 2 ^ 64) (Hother : 0 ≤ other < 2 ^ 64) (Helba : 0 ≤ entries_lba < 2 ^ 64)
    (Hfu : 0 ≤ first_usable < 2 ^ 64) (Hlu : 0 ≤ last_usable < 2 ^ 64) (Hcrc : 0 ≤ crc < 2 ^ 32).
  Local Abbreviation hf := (Gpt.header_fields this other entries_lba first_usable last_usable crc).
  Local Abbreviation ws := [(0, Gpt.SIGNATURE); (8, le_encode 4 Gpt.REVISION); (12, le_encode 4 Gpt.HEADER_BYTES); (24, le_encode 8 this); (32, le_encode 8 other);
    (40, le_encode 8 first_usable); (48, le_encode 8 last_usable); (56, Gpt.DISK_GUID); (72, le_encode 8 entries_lba);
    (80, le_encode 4 Gpt.ENTRY_COUNT); (84, le_encode 4 Gpt.ENTRY_BYTES); (88, le_encode 4 crc)].

Lemma header_in : in_fields 512 ws.
Proof.
  unfold in_fields. repeat (apply Forall_cons; split; [cbn [fst snd]; unfold len; rewrite ?length_le_encode; simpl; lia|]). constructor.
Qed.

Lemma header_shape : len hf = 512 ∧ bytes_ok hf.
Proof.
  split; [apply (fields_length 512 ws); [done|apply header_in]|]. apply fields_ok.
  repeat (apply Forall_cons; split; [cbn [snd]; first [apply le_encode_ok | cbn; repeat constructor; done]|]). constructor.
Qed.

Lemma header_holds (k : nat) o l : ws !! k = Some (o, l) → Forall (λ w, w.1 + len w.2 ≤ o ∨ o + len l ≤ w.1) (drop (S k) ws) → holds hf o l.
Proof. intros Hk Hc. unfold Gpt.header_fields. apply (fields_hold_at 512 ws k o l Hk header_in ltac:(lia) Hc). Qed.

Lemma header_blank : holds hf 16 (replicate 4 0).
Proof.
  pose proof header_in as Hin. pose proof header_shape as [Hl _]. intros i Hi. rewrite length_replicate in Hi. rewrite lookup_replicate_2 by done.
  assert (Boot.byte_at hf (16 + Z.of_nat i) = 0) as Hb.
  { unfold Gpt.header_fields. change Gpt.SECTOR with 512. rewrite (fields_byte 512 ws) by (done || lia).
    do 4 (destruct i as [|i]; [reflexivity|]). lia. }
  unfold Boot.byte_at in Hb. unfold len in Hl. destruct (lookup_lt_is_Some_2 hf (Z.to_nat 16 + i)%nat ltac:(lia)) as [b Hbb]. rewrite Hbb. f_equal.
  rewrite <-Hb. symmetry. apply nth_lookup_Some. by replace (Z.to_nat (16 + Z.of_nat i)) with (Z.to_nat 16 + i)%nat by lia.
Qed.

(** The header as it is written. *)
Definition sealed : list Z := splice hf 16 (le_encode 4 (Gpt.crc32 (take 92 hf))).

Lemma header_run : Gpt.header this other entries_lba first_usable last_usable crc = Ok sealed ∧ len sealed = 512 ∧ bytes_ok sealed.
Proof.
  pose proof header_shape as [Hl Hb]. unfold Gpt.header. change Gpt.HEADER_BYTES with 92. rewrite slice_prefix by lia. cbn [expect mbind res_bind].
  change (Z.to_nat 92) with 92%nat. set (c := Gpt.crc32 _). unfold Mkfs.put. rewrite copy_at_Some; [|lia|reflexivity|change (len (le_encode 4 c)) with 4; lia].
  cbn [expect]. split; [done|]. unfold sealed. fold c. split; [|apply bytes_ok_splice; [done|apply le_encode_ok]].
  rewrite len_splice; [done|]. rewrite length_le_encode. unfold len in Hl. lia.
Qed.

Lemma sealed_field (k : nat) o l : ws !! k = Some (o, l) → Forall (λ w, w.1 + len w.2 ≤ o ∨ o + len l ≤ w.1) (drop (S k) ws) →
  0 ≤ o → o + len l ≤ 16 ∨ 20 ≤ o → holds sealed o l.
Proof.
  intros Hk Hc Ho Hd. pose proof (header_holds k o l Hk Hc) as Hh. pose proof header_shape as [Hl _]. intros i Hi. unfold sealed.
  rewrite splice_lookup by (rewrite length_le_encode; unfold len in Hl; lia). rewrite length_le_encode. rewrite decide_False; [by apply Hh|]. unfold len in Hd. lia.
Qed.

Lemma sealed_blank : splice sealed 16 (replicate 4 0) = hf.
Proof.
  pose proof header_shape as [Hl _]. pose proof header_blank as Hz. destruct header_run as (_ & Hl' & _). unfold len in *.
  apply list_eq. intros i. rewrite splice_lookup by (rewrite length_replicate; lia). rewrite length_replicate. case_decide as Hi.
  - rewrite <-Hz by (rewrite length_replicate; lia). f_equal. lia.
  - unfold sealed. rewrite splice_lookup by (rewrite length_le_encode; lia). rewrite length_le_encode. by rewrite decide_False by lia.
Qed.

Lemma sealed_crc : num sealed 16 4 = Gpt.crc32 (take 92 (splice sealed 16 (replicate 4 0))).
Proof.
  pose proof header_shape as [Hl Hb]. destruct header_run as (_ & Hl' & _). rewrite sealed_blank. unfold len in *. apply num_holds; [|lia|].
  - intros i Hi. rewrite length_le_encode in Hi. unfold sealed. rewrite splice_lookup by (rewrite length_le_encode; lia). rewrite length_le_encode.
    rewrite decide_True by lia. f_equal. lia.
  - apply crc32_bound. by apply Forall_take.
Qed.
End header.

(** ** A reader of partition tables, from the UEFI specification *)

Record Table := { t_other : Z; t_first_usable : Z; t_last_usable : Z; t_entries : list Z }.

(** What a header at sector [lba] says, when its signature, its place and
    both checksums are right. *)
Definition read_table (image : list Z) (lba : Z) : option Table :=
  s ← slice image (lba * 512) (lba * 512 + 512);
  if bool_decide (take 8 s = Gpt.SIGNATURE) && (num s 12 4 =? 92) && (num s 24 8 =? lba) &&
     (num s 16 4 =? Gpt.crc32 (take 92 (splice s 16 (replicate 4 0))))
  then
    es ← slice image (num s 72 8 * 512) (num s 72 8 * 512 + num s 80 4 * num s 84 4);
    if num s 88 4 =? Gpt.crc32 es
    then Some {| t_other := num s 32 8; t_first_usable := num s 40 8; t_last_usable := num s 48 8; t_entries := es |}
    else None
  else None.

(** Type, GUID, first and last sector of every entry in use. *)
Definition read_entries (es : list Z) : list (list Z * list Z * Z * Z) :=
  (λ e, (take 16 e, take 16 (drop 16 e), num e 32 8, num e 40 8)) <$>
    List.filter (λ e, negb (bool_decide (take 16 e = replicate 16 0))) (as_chunks 128 es).

Lemma read_sealed image lba other elba fu lu es : 0 ≤ lba < 2 ^ 64 → 0 ≤ other < 2 ^ 64 → 0 ≤ elba < 2 ^ 64 → 0 ≤ fu < 2 ^ 64 → 0 ≤ lu < 2 ^ 64 → bytes_ok es → len es = 16384 →
  lba * 512 + 512 ≤ len image → elba * 512 + 16384 ≤ len image →
  holds image (lba * 512) (sealed lba other elba fu lu (Gpt.crc32 es)) → holds image (elba * 512) es →
  read_table image lba = Some {| t_other := other; t_first_usable := fu; t_last_usable := lu; t_entries := es |}.
Proof.
  intros Hlba Hother Helba Hfu Hlu Hes Hles Hin1 Hin2 Hs He. set (crc := Gpt.crc32 es). pose proof (crc32_bound es Hes) as Hcrc. fold crc in Hcrc.
  destruct (header_run lba other elba fu lu crc) as (_ & Hl & _).
  assert (slice image (lba * 512) (lba * 512 + 512) = Some (sealed lba other elba fu lu crc)) as E1.
  { pose proof (holds_slice image (lba * 512) (sealed lba other elba fu lu crc) ltac:(lia) ltac:(lia) Hs) as Hx. by rewrite Hl in Hx. }
  assert (slice image (elba * 512) (elba * 512 + 16384) = Some es) as E2.
  { pose proof (holds_slice image (elba * 512) es ltac:(lia) ltac:(lia) He) as Hx. by rewrite Hles in Hx. }
  pose proof (sealed_field lba other elba fu lu crc) as Hf. pose proof (sealed_crc lba other elba fu lu crc) as Hc.
  unfold read_table. rewrite E1. cbn [mbind option_bind]. rewrite <-Hc. set (s := sealed _ _ _ _ _ _) in *.
  assert (length s = 512%nat) as Hl' by (unfold len in Hl; lia).
  assert (∀ (k o n : nat) v, [(0, Gpt.SIGNATURE); (8, le_encode 4 Gpt.REVISION); (12, le_encode 4 Gpt.HEADER_BYTES); (24, le_encode 8 lba); (32, le_encode 8 other);
    (40, le_encode 8 fu); (48, le_encode 8 lu); (56, Gpt.DISK_GUID); (72, le_encode 8 elba); (80, le_encode 4 Gpt.ENTRY_COUNT); (84, le_encode 4 Gpt.ENTRY_BYTES);
    (88, le_encode 4 crc)] !! k = Some (Z.of_nat o, le_encode n v) → Z.of_nat o + Z.of_nat n ≤ 16 ∨ 20 ≤ Z.of_nat o → (o + n ≤ 512)%nat →
    Forall (λ w : Z * list Z, w.1 + len w.2 ≤ Z.of_nat o ∨ Z.of_nat o + len (le_encode n v) ≤ w.1) (drop (S k) [(0, Gpt.SIGNATURE); (8, le_encode 4 Gpt.REVISION);
      (12, le_encode 4 Gpt.HEADER_BYTES); (24, le_encode 8 lba); (32, le_encode 8 other); (40, le_encode 8 fu); (48, le_encode 8 lu); (56, Gpt.DISK_GUID);
      (72, le_encode 8 elba); (80, le_encode 4 Gpt.ENTRY_COUNT); (84, le_encode 4 Gpt.ENTRY_BYTES); (88, le_encode 4 crc)]) →
    0 ≤ v < 2 ^ (8 * Z.of_nat n) → num s o n = v) as Hnum.
  { intros k o n v Hk Ho Hn Hclear Hv. apply num_holds; [|lia|done]. apply (Hf k); [done|done|lia|]. unfold len. by rewrite length_le_encode. }
  assert (take 8 s = Gpt.SIGNATURE) as ->.
  { apply (take_holds s 0 Gpt.SIGNATURE); [|simpl; lia]. apply (Hf 0%nat); [done| |lia|left; done].
    repeat (apply Forall_cons; split; [cbn [fst snd]; unfold len; rewrite ?length_le_encode; simpl; lia|]). constructor. }
  rewrite bool_decide_true by done.
  assert (num s 12 4 = 92 ∧ num s 24 8 = lba ∧ num s 72 8 = elba ∧ num s 80 4 = 128 ∧ num s 84 4 = 128 ∧ num s 88 4 = crc ∧
    num s 32 8 = other ∧ num s 40 8 = fu ∧ num s 48 8 = lu) as (-> & -> & -> & -> & -> & -> & -> & -> & ->).
  { clear E1 Hf Hc. clearbody s. split_and!; [apply (Hnum 2%nat)|apply (Hnum 3%nat)|apply (Hnum 8%nat)|apply (Hnum 9%nat)|apply (Hnum 10%nat)|apply (Hnum 11%nat)|
      apply (Hnum 4%nat)|apply (Hnum 5%nat)|apply (Hnum 6%nat)]; first [lia | reflexivity |
      cbn [drop]; repeat (apply Forall_cons; split; [cbn [fst snd]; unfold len; rewrite ?length_le_encode; simpl; lia|]); constructor]. }
  rewrite !Z.eqb_refl. cbn [andb]. change (128 * 128) with 16384. rewrite E2. cbn [mbind option_bind]. fold crc. by rewrite Z.eqb_refl.
Qed.

(** The entries read back. *)
Lemma read_blocks xs k : Forall (λ x, typed x.1 ∧ Gpt.type_guid x.1 ≠ replicate 16 0 ∧ 0 ≤ x.2.1 < 2 ^ 64 ∧ 0 ≤ x.2.2 < 2 ^ 64) xs →
  read_entries (concat (block <$> xs) ++ replicate (128 * k) 0) =
    (λ x, (Gpt.type_guid x.1, Gpt.guid x.1, x.2.1, x.2.2)) <$> xs.
Proof.
  intros Hx. unfold read_entries.
  assert (as_chunks 128 (concat (block <$> xs) ++ replicate (128 * k) 0) = (block <$> xs) ++ replicate k (replicate 128 0)) as ->.
  { assert (concat (block <$> xs) ++ replicate (128 * k) 0 = concat ((block <$> xs) ++ replicate k (replicate 128 0))) as ->.
    { rewrite concat_app. f_equal. induction k as [|k IH]; [done|]. rewrite (replicate_S k (replicate 128 0)). cbn [concat]. rewrite <-IH, <-replicate_add. f_equal. lia. }
    apply as_chunks_blocks; [lia|]. apply Forall_app. split; [|by apply Forall_replicate].
    apply Forall_fmap. eapply Forall_impl; [exact Hx|]. intros x (Ht & _). simpl. by apply block_length. }
  rewrite List.filter_app. assert (List.filter (λ e, negb (bool_decide (take 16 e = replicate 16 0))) (replicate k (replicate 128 0)) = []) as ->.
  { induction k as [|k IH]; [done|]. rewrite (replicate_S k (replicate 128 0)). cbn [List.filter]. by rewrite bool_decide_true. }
  rewrite app_nil_r. induction Hx as [|x xs ((T1 & T2 & _) & Hne & Hf & Hl) _ IH]; [done|]. rewrite !fmap_cons. cbn [List.filter].
  assert (take 16 (block x) = Gpt.type_guid x.1) as E1 by (unfold block; by rewrite take_app_length' by lia).
  rewrite E1, bool_decide_false by done. cbn [negb]. rewrite fmap_cons, IH. f_equal. rewrite E1.
  assert (drop 16 (block x) = Gpt.guid x.1 ++ le_encode 8 x.2.1 ++ le_encode 8 x.2.2 ++ le_encode 8 0 ++ name_bytes x.1 ++ replicate (72 - length (name_bytes x.1)) 0) as E2
    by (unfold block; by rewrite drop_app_length' by lia).
  rewrite E2, take_app_length' by lia. unfold num.
  assert (drop 32 (block x) = le_encode 8 x.2.1 ++ le_encode 8 x.2.2 ++ le_encode 8 0 ++ name_bytes x.1 ++ replicate (72 - length (name_bytes x.1)) 0) as E3.
  { change 32%nat with (16 + 16)%nat. rewrite <-drop_drop, E2. by rewrite drop_app_length' by lia. }
  assert (drop 40 (block x) = le_encode 8 x.2.2 ++ le_encode 8 0 ++ name_bytes x.1 ++ replicate (72 - length (name_bytes x.1)) 0) as E4.
  { change 40%nat with (32 + 8)%nat. rewrite <-drop_drop, E3. by rewrite drop_app_length' by (by rewrite length_le_encode). }
  rewrite E3, E4, !take_app_length' by (by rewrite length_le_encode). by rewrite !le_decode_encode.
Qed.

(** ** The protective MBR *)
Lemma protective_mbr_run m total : 512 ≤ len m →
  ∃ m', Gpt.protective_mbr m total = Ok m' ∧ kept 446 512 m m' ∧ holds m' 450 [0xEE] ∧ holds m' 510 [0x55; 0xAA].
Proof.
  intros Hm. unfold Gpt.protective_mbr. cbv zeta. match goal with |- context [le_encode 4 (if ?c then ?a else ?b)] => set (covered := if c then a else b) end.
  destruct (put_run (X:=Gpt.BuildError) m 446 [0]) as (m1 & -> & K1 & _); [lia|unfold len in *; simpl; lia|repeat constructor; lia|]. cbn [mbind res_bind]. pose proof K1 as (L1 & _).
  destruct (put_run (X:=Gpt.BuildError) m1 (446 + 1) [0; 2; 0]) as (m2 & -> & K2 & _); [lia|unfold len in *; simpl; lia|repeat constructor; lia|]. cbn [mbind res_bind]. pose proof K2 as (L2 & _).
  destruct (put_run (X:=Gpt.BuildError) m2 (446 + 4) [0xEE]) as (m3 & -> & K3 & H3); [lia|unfold len in *; simpl; lia|repeat constructor; lia|]. cbn [mbind res_bind]. pose proof K3 as (L3 & _).
  destruct (put_run (X:=Gpt.BuildError) m3 (446 + 5) [0xFF; 0xFF; 0xFF]) as (m4 & -> & K4 & _); [lia|unfold len in *; simpl; lia|repeat constructor; lia|]. cbn [mbind res_bind]. pose proof K4 as (L4 & _).
  destruct (put_run (X:=Gpt.BuildError) m4 (446 + 8) (le_encode 4 1)) as (m5 & -> & K5 & _); [lia|unfold len in *; simpl; lia|apply le_encode_ok|]. cbn [mbind res_bind]. pose proof K5 as (L5 & _).
  destruct (put_run (X:=Gpt.BuildError) m5 (446 + 12) (le_encode 4 covered)) as (m6 & -> & K6 & _); [lia|unfold len in *; simpl; lia|apply le_encode_ok|]. cbn [mbind res_bind]. pose proof K6 as (L6 & _).
  destruct (put_run (X:=Gpt.BuildError) m6 510 [0x55]) as (m7 & -> & K7 & H7); [lia|unfold len in *; simpl; lia|repeat constructor; lia|]. cbn [mbind res_bind]. pose proof K7 as (L7 & _).
  destruct (put_run (X:=Gpt.BuildError) m7 511 [0xAA]) as (m8 & -> & K8 & H8); [lia|unfold len in *; simpl; lia|repeat constructor; lia|]. exists m8. split; [done|].
  assert (∀ a b (x y : list Z), kept a b x y → 446 ≤ a → b ≤ 512 → kept 446 512 x y) as Hw by (intros; eapply kept_weaken; [..|done]; lia).
  assert (∀ z, len (le_encode 4 z) = 4) as L4' by done. rewrite L4' in K5, K6.
  change (len [0]) with 1 in K1. change (len [0; 2; 0]) with 3 in K2. change (len [0xEE]) with 1 in K3. change (len [0xFF; 0xFF; 0xFF]) with 3 in K4.
  change (len [0x55]) with 1 in K7. change (len [0xAA]) with 1 in K8. split; [|split].
  - transitivity m1; [eapply Hw; [exact K1|lia|lia]|]. transitivity m2; [eapply Hw; [exact K2|lia|lia]|]. transitivity m3; [eapply Hw; [exact K3|lia|lia]|].
    transitivity m4; [eapply Hw; [exact K4|lia|lia]|]. transitivity m5; [eapply Hw; [exact K5|lia|lia]|]. transitivity m6; [eapply Hw; [exact K6|lia|lia]|].
    transitivity m7; [eapply Hw; [exact K7|lia|lia]|]. eapply Hw; [exact K8|lia|lia].
  - do 5 (eapply holds_kept; [|eassumption|change (len [0xEE]) with 1; lia|]; [lia|]). exact H3.
  - change [0x55; 0xAA] with ([0x55] ++ [0xAA]). apply holds_app; [lia|]. change (len [0x55]) with 1. split; [|exact H8].
    eapply holds_kept; [|exact K8|change (len [0x55]) with 1; lia|exact H7]. lia.
Qed.

(** ** The whole image *)
Section image.
  Context (ps : list Gpt.Partition) (Hne : ps ≠ []) (Hn : len ps ≤ 128).
  Context (Hw : Forall whole ps) (Ht : Forall typed ps) (Hl : Forall (λ p, len (Gpt.contents p) < 2 ^ 48) ps).
  Local Abbreviation laid := (zip ps (lay_out 2048 ps)).
  Local Abbreviation end_ := (behind 2048 ps).

Lemma end_bounds : 2048 ≤ end_ < 2 ^ 54.
Proof.
  destruct (behind_bounds 2048 ps Hw) as [H1 _]. split; [done|]. pose proof (behind_most 2048 ps (2 ^ 39) Hw Hl ltac:(lia)).
  pose proof (len_nonneg ps). nia.
Qed.

Lemma laid_fst : fst <$> laid = ps.
Proof. apply fst_zip. rewrite lay_out_length. lia. Qed.

Lemma laid_typed : Forall (λ x, typed x.1) laid.
Proof. apply (Forall_fmap fst typed). by rewrite laid_fst. Qed.

Lemma laid_length : len laid = len ps.
Proof. trans (len (fst <$> laid)); [unfold len; by rewrite length_fmap|by rewrite laid_fst]. Qed.

Definition all_entries : list Z := concat (block <$> laid) ++ replicate (128 * (128 - length ps)) 0.

Lemma blocks_length : len (concat (block <$> laid)) = 128 * len ps.
Proof.
  rewrite <-laid_length. pose proof laid_typed as Hlt. induction Hlt as [|x xs Hx _ IH]; [done|]. rewrite fmap_cons. cbn [concat].
  rewrite len_app, len_cons, IH. assert (len (block x) = 128) as -> by (unfold len; by rewrite block_length). lia.
Qed.

Lemma all_entries_length : len all_entries = 16384.
Proof. unfold all_entries. rewrite len_app, blocks_length, len_replicate. unfold len in *. lia. Qed.

Lemma write_all_entries_run :
  foldM Gpt.write_entry (replicate (Z.to_nat (Gpt.ENTRY_COUNT * Gpt.ENTRY_BYTES)) 0) (zip (seqZ 0 (len ps)) laid) = Ok all_entries ∧ bytes_ok all_entries.
Proof.
  change (Gpt.ENTRY_COUNT * Gpt.ENTRY_BYTES) with 16384. set (m := replicate (Z.to_nat 16384) 0).
  assert (len m = 16384) as Lm by (unfold m; rewrite len_replicate; lia).
  assert (∀ i : nat, (i < Z.to_nat 16384)%nat → m !! i = Some 0) as Hm by (intros i Hi; unfold m; by apply lookup_replicate_2).
  assert (bytes_ok m) as Bm by (apply Forall_replicate; lia). clearbody m. pose proof laid_length as Ll. rewrite <-Ll at 1. pose proof (len_nonneg ps) as H0.
  destruct (write_entries_of_run laid 0 m) as (m' & -> & (L' & B' & K') & H'); [apply laid_typed|lia|lia| |].
  { intros i Hi. rewrite length_replicate in Hi. rewrite lookup_replicate_2 by done. replace (Z.to_nat (0 * 128) + i)%nat with i by lia. apply Hm. lia. }
  assert (m' = all_entries) as ->; [|split; [done|by apply B']]. pose proof all_entries_length as La. pose proof blocks_length as Lb. unfold len in *.
  apply list_eq. intros i. destruct (decide (i < length (concat (block <$> laid)))%nat) as [Hi|Hi].
  - unfold all_entries. rewrite lookup_app_l by done. rewrite <-(H' i Hi). f_equal.
  - rewrite K' by lia. destruct (decide (i < Z.to_nat 16384)%nat) as [Hlt|Hge]; [|by rewrite !lookup_ge_None_2 by lia].
    rewrite Hm by done. unfold all_entries. rewrite lookup_app_r by lia. symmetry. apply lookup_replicate_2. lia.
Qed.

Lemma build_run : ∃ image, Gpt.build ps = Ok image ∧ len image = (end_ + 33) * 512 ∧
  (∀ p f l, (p, (f, l)) ∈ laid → holds image (f * 512) (Gpt.contents p)) ∧
  holds image 512 (sealed 1 (end_ + 32) 2 2048 (end_ - 1) (Gpt.crc32 all_entries)) ∧ holds image 1024 all_entries ∧
  holds image (end_ * 512) all_entries ∧ holds image ((end_ + 32) * 512) (sealed (end_ + 32) 1 end_ 2048 (end_ - 1) (Gpt.crc32 all_entries)) ∧
  holds image 510 [0x55; 0xAA].
Proof.
  pose proof end_bounds as He. destruct write_all_entries_run as [Ee Be]. pose proof all_entries_length as Le. pose proof (crc32_bound _ Be) as Hcrc.
  pose proof (place_run ps [] Gpt.FIRST_USABLE ltac:(done) Hl ltac:(change Gpt.FIRST_USABLE with 2048; lia)) as Hp. rewrite decide_True in Hp by done.
  change Gpt.FIRST_USABLE with 2048 in Hp.
  unfold Gpt.build. rewrite bool_decide_false by done. change Gpt.ENTRY_COUNT with 128 at 1. rewrite (proj2 (Z.ltb_ge 128 (len ps))) by done.
  change Gpt.FIRST_USABLE with 2048. rewrite Hp. cbn [mbind res_bind app]. unfold Gpt.add64, Gpt.mul64, checked_add, checked_mul.
  change Gpt.ENTRY_SECTORS with 32. rewrite (proj2 (Z.ltb_lt (end_ + 32) _)) by lia. cbn [expect mbind res_bind].
  rewrite (proj2 (Z.ltb_lt (end_ + 32 + 1) _)) by lia. cbn [expect mbind res_bind]. change Gpt.SECTOR with 512.
  rewrite (proj2 (Z.ltb_lt ((end_ + 32 + 1) * 512) _)) by lia. cbn [expect mbind res_bind].
  set (m0 := replicate (Z.to_nat ((end_ + 32 + 1) * 512)) 0). assert (len m0 = (end_ + 33) * 512) as L0 by (unfold m0; rewrite len_replicate; lia). clearbody m0.
  destruct (write_partitions_run ps 2048 m0 Hw Ht) as (m1 & -> & K1 & H1); [lia|lia|]. rewrite Ok_bind. pose proof K1 as (L1 & _).
  rewrite Ee, Ok_bind. cbv zeta. set (es := all_entries) in *. clearbody es. set (c := Gpt.crc32 es) in *.
  destruct (header_run 1 (end_ + 32) 2 2048 (end_ - 1) c) as (-> & Ls1 & Bs1). rewrite Ok_bind. set (s1 := sealed 1 _ _ _ _ _) in *. clearbody s1.
  destruct (put_run (X:=Gpt.BuildError) m1 512 s1) as (m2 & -> & K2 & H2); [lia|lia|done|]. rewrite Ok_bind. pose proof K2 as (L2 & _). rewrite Ls1 in K2.
  change (2 * 512) with 1024. destruct (put_run (X:=Gpt.BuildError) m2 1024 es) as (m3 & -> & K3 & H3); [lia|lia|done|]. rewrite Ok_bind. pose proof K3 as (L3 & _). rewrite Le in K3.
  replace (end_ + 32 - 32) with end_ by lia.
  destruct (header_run (end_ + 32) 1 end_ 2048 (end_ - 1) c) as (-> & Ls2 & Bs2). rewrite Ok_bind. set (s2 := sealed (end_ + 32) _ _ _ _ _) in *. clearbody s2.
  destruct (put_run (X:=Gpt.BuildError) m3 (end_ * 512) es) as (m4 & -> & K4 & H4); [lia|lia|done|]. rewrite Ok_bind. pose proof K4 as (L4 & _). rewrite Le in K4.
  destruct (put_run (X:=Gpt.BuildError) m4 ((end_ + 32) * 512) s2) as (m5 & -> & K5 & H5); [lia|lia|done|]. rewrite Ok_bind. pose proof K5 as (L5 & _). rewrite Ls2 in K5.
  destruct (protective_mbr_run m5 (end_ + 32 + 1)) as (m6 & -> & K6 & _ & H6); [lia|]. pose proof K6 as (L6 & _). exists m6. split; [done|]. split; [lia|].
  split; [|split; [|split; [|split; [|split]]]].
  - intros p f l Hin. destruct (lay_out_member 2048 ps p f l Hw eq_refl Hin) as (Hps & Hf & _ & Hfl & Hle).
    rewrite Forall_forall in Hw. destruct (whole_sectors p (Hw p Hps)) as [Hs Hc].
    eapply holds_kept; [|exact K6|lia|]; [lia|]. eapply holds_kept; [|exact K5|lia|]; [lia|]. eapply holds_kept; [|exact K4|lia|]; [lia|].
    eapply holds_kept; [|exact K3|lia|]; [lia|]. eapply holds_kept; [|exact K2|lia|]; [lia|]. by eapply H1.
  - eapply holds_kept; [|exact K6|lia|]; [lia|]. eapply holds_kept; [|exact K5|lia|]; [lia|]. eapply holds_kept; [|exact K4|lia|]; [lia|].
    eapply holds_kept; [|exact K3|lia|exact H2]; lia.
  - eapply holds_kept; [|exact K6|lia|]; [lia|]. eapply holds_kept; [|exact K5|lia|]; [lia|]. eapply holds_kept; [|exact K4|lia|exact H3]; lia.
  - eapply holds_kept; [|exact K6|lia|]; [lia|]. eapply holds_kept; [|exact K5|lia|exact H4]; lia.
  - eapply holds_kept; [|exact K6|lia|exact H5]; lia.
  - exact H6.
Qed.
End image.

(** C34: [build] makes an image any reader of partition tables understands, or
    says why not: the header behind the protective MBR and its backup in the
    last sector both pass the reader's checks and describe the same entries;
    those name the partitions given, in order, aligned to a mebibyte, apart
    from each other and inside what may be used; and where an entry says, the
    image holds that partition byte for byte.  (No type is the GUID of an
    unused entry.  The checksums are [crc32] on both sides; that it is the CRC
    of the specification is checked on its published value, [crc_of_digits].) *)
Theorem gpt_read_back ps :
  Forall typed ps → Forall (λ p, len (Gpt.contents p) < 2 ^ 48 ∧ Gpt.type_guid p ≠ replicate 16 0) ps →
  match Gpt.build ps with
  | Ok image =>
      let laid := lay_out 2048 ps in
      let last := behind 2048 ps + 32 in
      len image = (last + 1) * 512 ∧ slice image 510 512 = Some [0x55; 0xAA] ∧
      ∃ es, read_table image 1 = Some {| t_other := last; t_first_usable := 2048; t_last_usable := last - 33; t_entries := es |} ∧
        read_table image last = Some {| t_other := 1; t_first_usable := 2048; t_last_usable := last - 33; t_entries := es |} ∧
        read_entries es = (λ x, (Gpt.type_guid x.1, Gpt.guid x.1, x.2.1, x.2.2)) <$> zip ps laid ∧
        (∀ p f l, (p, (f, l)) ∈ zip ps laid → 2048 ≤ f ∧ f mod 2048 = 0 ∧ l ≤ last - 33 ∧
           slice image (f * 512) ((l + 1) * 512) = Some (Gpt.contents p)) ∧
        (∀ i j x y, (i < j)%nat → laid !! i = Some x → laid !! j = Some y → x.2 < y.1)
  | Err Gpt.NoPartitions => ps = []
  | Err (Gpt.TooManyPartitions n) => n = len ps ∧ 128 < n
  | Err (Gpt.NotWholeSectors nm n) => ∃ p, p ∈ ps ∧ Gpt.pname p = nm ∧ len (Gpt.contents p) = n ∧ n mod 512 ≠ 0
  | Err (Gpt.NoSectors nm) => ∃ p, p ∈ ps ∧ Gpt.pname p = nm ∧ Gpt.contents p = []
  | Err (Gpt.EspNotLaidOut _) | Panic | Diverge => False
  end.
Proof.
  intros Ht Hl'. assert (Forall (λ p, len (Gpt.contents p) < 2 ^ 48) ps) as Hl by (eapply Forall_impl; [exact Hl'|]; by intros p []).
  destruct (decide (ps = [])) as [->|Hne]; [done|].
  destruct (decide (128 < len ps)) as [Hmany|Hn].
  { unfold Gpt.build. rewrite bool_decide_false by done. change Gpt.ENTRY_COUNT with 128. by rewrite (proj2 (Z.ltb_lt 128 (len ps))) by done. }
  destruct (decide (Forall whole ps)) as [Hw|Hnw].
  2:{ pose proof (place_run ps [] Gpt.FIRST_USABLE ltac:(done) Hl ltac:(change Gpt.FIRST_USABLE with 2048; lia)) as Hp. rewrite decide_False in Hp by done.
      destruct Hp as (p & Hin & Hp). unfold Gpt.build. rewrite bool_decide_false by done. change Gpt.ENTRY_COUNT with 128 at 1. rewrite (proj2 (Z.ltb_ge 128 (len ps))) by lia.
      destruct Hp as [[Hm ->]|[Hz ->]]; cbn [mbind res_bind]; by exists p. }
  destruct (build_run ps Hne ltac:(lia) Hw Ht Hl) as (image & -> & Hlen & Hparts & H1 & H2 & H3 & H4 & H5).
  pose proof (end_bounds ps ltac:(lia) Hw Hl) as He. pose proof (all_entries_length ps ltac:(lia) Ht) as Le.
  destruct (write_all_entries_run ps ltac:(lia) Ht) as [_ Be]. cbv zeta. split; [lia|]. split.
  { apply (holds_slice image 510 [0x55; 0xAA]); [lia|change (len [0x55; 0xAA]) with 2; lia|done]. }
  exists (all_entries ps). replace (behind 2048 ps + 32 - 33) with (behind 2048 ps - 1) by lia. split_and!.
  - apply (read_sealed image 1 (behind 2048 ps + 32) 2); done || lia.
  - apply (read_sealed image (behind 2048 ps + 32) 1 (behind 2048 ps)); done || lia.
  - unfold all_entries. apply read_blocks. apply Forall_forall. intros [p [f l]] Hin.
    destruct (lay_out_member 2048 ps p f l Hw eq_refl Hin) as (Hps & Hf & _ & Hfl & Hle). cbn [fst snd].
    rewrite Forall_forall in Hw, Ht, Hl'. destruct (whole_sectors p (Hw p Hps)) as [Hs _]. split; [by apply Ht|]. split; [by apply Hl'|]. lia.
  - intros p f l Hin. destruct (lay_out_member 2048 ps p f l Hw eq_refl Hin) as (Hps & Hf & Hfm & Hfl & Hle). rewrite Forall_forall in Hw.
    destruct (whole_sectors p (Hw p Hps)) as [Hs Hc]. split; [done|]. split; [done|]. split; [lia|].
    replace ((l + 1) * 512) with (f * 512 + len (Gpt.contents p)) by lia. apply holds_slice; [lia|lia|]. by eapply Hparts.
  - intros i j x y Hij. by apply lay_out_apart.
Qed.

(** A partition of one sector. *)
Definition example_partition : Gpt.Partition :=
  {| Gpt.pname := [65]; Gpt.type_guid := Gpt.DATA_TYPE; Gpt.guid := Gpt.DATA_GUID; Gpt.contents := replicate 512 7 |}.

Lemma gpt_read_back_witness : ∃ image es, Gpt.build [example_partition] = Ok image ∧
  read_table image 1 = Some {| t_other := 4128; t_first_usable := 2048; t_last_usable := 4095; t_entries := es |} ∧
  read_entries es = [(Gpt.DATA_TYPE, Gpt.DATA_GUID, 2048, 2048)] ∧ slice image (2048 * 512) (2049 * 512) = Some (replicate 512 7).
Proof.
  assert (Forall typed [example_partition]) as Ht.
  { repeat constructor; done. }
  assert (Forall (λ p, len (Gpt.contents p) < 2 ^ 48 ∧ Gpt.type_guid p ≠ replicate 16 0) [example_partition]) as Hl by (repeat constructor; done).
  destruct (build_run [example_partition]) as (image & Eb & _); [done|done|repeat constructor; done|exact Ht|repeat constructor; done|].
  pose proof (gpt_read_back [example_partition] Ht Hl) as Hm. rewrite Eb in Hm.
  destruct Hm as (_ & _ & es & H1 & _ & H2 & H3 & _). exists image, es. split; [exact Eb|]. split; [exact H1|]. split; [exact H2|].
  apply (H3 example_partition 2048 2048). left.
Defined.
