(* ===== verification/Pe.v ===== *)
(** * PE images: [hal/src/pe.rs]

    What the kernel reads from its own image: which sections are code, and
    where its absolute addresses are.  The image is a list of bytes; a
    [Relocations] is a part of it, from one offset to another, so that
    reading it again after the image has changed reads what is there then.
    Definitions first, then what they promise. *)

From S2P Require Import Prelude Words PhysMem Bytes FatFormat FatVolume FatPlace.
Local Open Scope Z_scope.

Module Pe.
Definition LFANEW : Z := 0x3C.
Definition NUMBER_OF_SECTIONS : Z := 6.
Definition SIZE_OF_OPTIONAL_HEADER : Z := 20.
Definition OPTIONAL_HEADER : Z := 24.
Definition SECTION_SIZE : Z := 40.
Definition SECTION_VIRTUAL_SIZE : Z := 8.
Definition SECTION_VIRTUAL_ADDRESS : Z := 12.
Definition SECTION_CHARACTERISTICS : Z := 36.
Definition DATA_DIRECTORIES : Z := OPTIONAL_HEADER + 112.
Definition BASE_RELOCATION_DIRECTORY : Z := 5.
Definition SIGNATURE : list Z := [0x50; 0x45; 0; 0].
Definition MAGIC_PE32_PLUS : Z := 0x20B.
Definition EXECUTABLE : Z := 0x20000000.
Definition RELOCATION_ABSOLUTE : Z := 0.
Definition RELOCATION_DIR64 : Z := 10.
Definition RELOCATION_BLOCK_HEADER : Z := 8.
Definition MAX_CODE_SECTIONS : Z := 4.
Definition DATA_DIRECTORY_SIZE : Z := 8.

Inductive PeError :=
| Truncated
| NotPe32Plus
| NoCode
| TooManySections
| RelocationOutsideImage (at_ : Z)
| NotRelocatable
| UnsupportedRelocation (kind : Z).

(** ** Reading *)
Definition read_u16 (image : list Z) (at_ : Z) : res PeError Z :=
  bytes ← ok_or Truncated (slice image at_ (at_ + 2));
  Ok (le_decode bytes).

Definition read_u32 (image : list Z) (at_ : Z) : res PeError Z :=
  bytes ← ok_or Truncated (slice image at_ (at_ + 4));
  Ok (le_decode bytes).

Definition signature_offset (image : list Z) : res PeError Z :=
  signature ← read_u32 image LFANEW;
  end_ ← ok_or Truncated (checked_add 64 signature (len SIGNATURE));
  found ← ok_or Truncated (slice image signature end_);
  if negb (bool_decide (found = SIGNATURE)) then Err NotPe32Plus
  else
    magic ← read_u16 image (signature + OPTIONAL_HEADER);
    if negb (magic =? MAGIC_PE32_PLUS) then Err NotPe32Plus else Ok signature.

(** ** Code sections *)
Record CodeSections := { cs_ranges : list (Z * Z); cs_len : Z }.

Definition sections_iter (c : CodeSections) : list (Z * Z) := take (Z.to_nat (cs_len c)) (cs_ranges c).
Definition sections_is_empty (c : CodeSections) : bool := cs_len c =? 0.
Definition sections_total_bytes (c : CodeSections) : Z := foldl (λ n x, wrap 64 (n + x.2)) 0 (sections_iter c).

(** The code of an image in memory. *)
Record CodeRanges := { cr_ranges : list PhysRange; cr_len : Z }.

Definition NO_RANGE : PhysRange := {| range_start := 0; range_len := 0 |}.

Definition ranges_iter (c : CodeRanges) : list PhysRange := take (Z.to_nat (cr_len c)) (cr_ranges c).
Definition ranges_is_empty (c : CodeRanges) : bool := cr_len c =? 0.
Definition ranges_total_bytes (c : CodeRanges) : Z := foldl (λ n r, wrap 64 (n + range_len r)) 0 (ranges_iter c).
Definition ranges_new {E} (ranges : list PhysRange) : res E (option CodeRanges) :=
  if MAX_CODE_SECTIONS <? len ranges then Ok None
  else
    built ← expect (copy_at (replicate (Z.to_nat MAX_CODE_SECTIONS) NO_RANGE) 0 (len ranges) ranges);
    Ok (Some {| cr_ranges := built; cr_len := len ranges |}).

Definition place_section {E} (base : Z) (acc : option (list PhysRange)) (x : Z * (Z * Z)) : res E (option (list PhysRange)) :=
  let '(index, (offset, length)) := x in
  match acc with
  | None => Ok None
  | Some ranges =>
      match Addr.checked_add base offset with
      | None => Ok None
      | Some start =>
          match Addr.checked_add start length with
          | None => Ok None
          | Some _ => ranges ← expect (set_index ranges index {| range_start := start; range_len := length |}); Ok (Some ranges)
          end
      end
  end.

(** [CodeSections::at]. *)
Definition at_base {E} (c : CodeSections) (base : Z) : res E (option CodeRanges) :=
  placed ← foldM (place_section base) (Some (replicate (Z.to_nat MAX_CODE_SECTIONS) NO_RANGE)) (zip (seqZ 0 (len (sections_iter c))) (sections_iter c));
  Ok (option_map (λ ranges, {| cr_ranges := ranges; cr_len := cs_len c |}) placed).

Definition code_section (image : list Z) (table : Z) (found : CodeSections) (index : Z) : res PeError CodeSections :=
  header ← ok_or Truncated (checked_add 64 table (index * SECTION_SIZE));
  characteristics ← read_u32 image (header + SECTION_CHARACTERISTICS);
  if Z.land characteristics EXECUTABLE =? 0 then Ok found
  else
    start ← read_u32 image (header + SECTION_VIRTUAL_ADDRESS);
    length ← read_u32 image (header + SECTION_VIRTUAL_SIZE);
    if length =? 0 then Ok found
    else if cs_len found =? MAX_CODE_SECTIONS then Err TooManySections
    else
      ranges ← expect (set_index (cs_ranges found) (cs_len found) (start, length));
      Ok {| cs_ranges := ranges; cs_len := cs_len found + 1 |}.

Definition code_sections (image : list Z) : res PeError CodeSections :=
  signature ← signature_offset image;
  let optional := signature + OPTIONAL_HEADER in
  count ← read_u16 image (signature + NUMBER_OF_SECTIONS);
  optional_size ← read_u16 image (signature + SIZE_OF_OPTIONAL_HEADER);
  table ← ok_or Truncated (checked_add 64 optional optional_size);
  found ← foldM (code_section image table) {| cs_ranges := replicate (Z.to_nat MAX_CODE_SECTIONS) (0, 0); cs_len := 0 |} (seqZ 0 count);
  if sections_is_empty found then Err NoCode else Ok found.

(** ** Relocations *)

(** [&image[start..end]]. *)
Record Relocations := { r_start : Z; r_end : Z }.

(** One entry of a block is looked at. *)
Definition check_entry (image_len page : Z) (_ : ()) (entry : list Z) : res PeError () :=
  let value := le_decode entry in
  let kind := Z.shiftr value 12 in
  if kind =? RELOCATION_ABSOLUTE then Ok ()
  else if negb (kind =? RELOCATION_DIR64) then Err (UnsupportedRelocation kind)
  else
    let at_ := page + Z.land value 0xFFF in
    match checked_add 64 at_ 8 with
    | Some end_ => if end_ <=? image_len then Ok () else Err (RelocationOutsideImage at_)
    | None => Err (RelocationOutsideImage at_)
    end.

(** [while !rest.is_empty()]: a block is at least its header. *)
Fixpoint check_blocks (fuel : nat) (image_len : Z) (rest : list Z) : res PeError () :=
  match fuel with
  | O => Diverge
  | S fuel =>
      if bool_decide (rest = []) then Ok ()
      else
        header ← ok_or Truncated (slice rest 0 RELOCATION_BLOCK_HEADER);
        let page := le_decode (take 4 header) in
        let block := le_decode (drop 4 header) in
        if (block <? RELOCATION_BLOCK_HEADER) || (len rest <? block) || negb (is_multiple_of block 2) then Err Truncated
        else
          entries ← expect (slice rest RELOCATION_BLOCK_HEADER block);
          _ ← foldM (check_entry image_len page) () (as_chunks 2 entries);
          rest ← expect (slice rest block (len rest));
          check_blocks fuel image_len rest
  end.

Definition relocations (image : list Z) : res PeError Relocations :=
  signature ← signature_offset image;
  let directory := signature + DATA_DIRECTORIES + BASE_RELOCATION_DIRECTORY * DATA_DIRECTORY_SIZE in
  start ← read_u32 image directory;
  size ← read_u32 image (directory + 4);
  if (start =? 0) || (size =? 0) then Err NotRelocatable
  else
    end_ ← ok_or Truncated (checked_add 64 start size);
    blocks ← ok_or Truncated (slice image start end_);
    _ ← check_blocks (S (length blocks)) (len image) blocks;
    Ok {| r_start := start; r_end := end_ |}.

(** The iterator: what is left of the blocks, of the entries of the one it
    is in, and that one's page. *)
Record Iter := { i_blocks : Z * Z; i_entries : Z * Z; i_page : Z }.

Definition iter (r : Relocations) : Iter := {| i_blocks := (r_start r, r_end r); i_entries := (0, 0); i_page := 0 |}.

(** One round of the iterator's loop, over the bytes as they are now:
    another round, an address, or the end. *)
Definition iter_step {E} (image : list Z) (it : Iter) : res E (Iter + option (Z * Iter)) :=
  let '(from, to) := i_entries it in
  if 2 <=? to - from then
    entry ← expect (slice image from (from + 2));
    let it := {| i_blocks := i_blocks it; i_entries := (from + 2, to); i_page := i_page it |} in
    let value := le_decode entry in
    if Z.shiftr value 12 =? RELOCATION_ABSOLUTE then Ok (inl it)
    else Ok (inr (Some (i_page it + Z.land value 0xFFF, it)))
  else
    let '(from, to) := i_blocks it in
    if to - from <? RELOCATION_BLOCK_HEADER then Ok (inr None)
    else
      header ← expect (slice image from (from + RELOCATION_BLOCK_HEADER));
      let size := le_decode (drop 4 header) in
      if (size <? RELOCATION_BLOCK_HEADER) || (to - from <? size) then Panic
      else Ok (inl {| i_blocks := (from + size, to); i_entries := (from + RELOCATION_BLOCK_HEADER, from + size);
                      i_page := le_decode (take 4 header) |}).

Fixpoint iter_next {E} (fuel : nat) (image : list Z) (it : Iter) : res E (option (Z * Iter)) :=
  match fuel with
  | O => Diverge
  | S fuel =>
      x ← iter_step image it;
      match x with inl it => iter_next fuel image it | inr answer => Ok answer end
  end.
End Pe.

(** ** What the headers say

    Fields where they are, without asking whether they are inside. *)
Module Image.
Import Pe.
Definition u16_at (image : list Z) (at_ : Z) : Z := le_decode (take 2 (drop (Z.to_nat at_) image)).
Definition u32_at (image : list Z) (at_ : Z) : Z := le_decode (take 4 (drop (Z.to_nat at_) image)).

(** Where the PE header of a PE32+ image is. *)
Definition pe_header (image : list Z) : option Z :=
  let signature := u32_at image LFANEW in
  if (64 <=? len image) && (signature + 26 <=? len image) && bool_decide (slice image signature (signature + 4) = Some SIGNATURE)
     && (u16_at image (signature + 24) =? MAGIC_PE32_PLUS)
  then Some signature else None.

(** The section table, and how many sections it announces. *)
Definition section_table (image : list Z) (signature : Z) : Z := signature + 24 + u16_at image (signature + 20).
Definition section_count (image : list Z) (signature : Z) : Z := u16_at image (signature + 6).
(** How many headers the image has room for. *)
Definition sections_held (image : list Z) (table : Z) : Z := Z.max 0 ((len image - table) / SECTION_SIZE).

(** The section at an index of the table, if it is code and there is any. *)
Definition code_at (image : list Z) (table i : Z) : option (Z * Z) :=
  let header := table + i * SECTION_SIZE in
  let length := u32_at image (header + 8) in
  if (Z.land (u32_at image (header + 36)) EXECUTABLE =? 0) || (length =? 0) then None
  else Some (u32_at image (header + 12), length).
Definition code_listed (image : list Z) (table from n : Z) : list (Z * Z) := omap (code_at image table) (seqZ from n).

Definition kept (l : list (Z * Z)) : CodeSections :=
  {| cs_ranges := l ++ replicate (4 - length l) (0, 0); cs_len := len l |}.
End Image.

Section headers.
Import Pe Image.
Implicit Types image : list Z.

Lemma slice_at image at_ (n : nat) : 0 ≤ at_ →
  slice image at_ (at_ + Z.of_nat n) = if at_ + Z.of_nat n <=? len image then Some (take n (drop (Z.to_nat at_) image)) else None.
Proof.
  intros Ha. unfold slice. rewrite (proj2 (Z.leb_le 0 at_)), (proj2 (Z.leb_le at_ (at_ + Z.of_nat n))) by lia.
  simpl. by replace (Z.to_nat (at_ + Z.of_nat n - at_)) with n by lia.
Qed.

Lemma read_u16_at image at_ : 0 ≤ at_ →
  read_u16 image at_ = if at_ + 2 <=? len image then Ok (u16_at image at_) else Err Truncated.
Proof. intros Ha. unfold read_u16. change (at_ + 2) with (at_ + Z.of_nat 2). rewrite slice_at by done. by destruct (_ <=? _). Qed.

Lemma read_u32_at image at_ : 0 ≤ at_ →
  read_u32 image at_ = if at_ + 4 <=? len image then Ok (u32_at image at_) else Err Truncated.
Proof. intros Ha. unfold read_u32. change (at_ + 4) with (at_ + Z.of_nat 4). rewrite slice_at by done. by destruct (_ <=? _). Qed.

Lemma part_bound image at_ (n : nat) : bytes_ok image → 0 ≤ le_decode (take n (drop at_ image)) < 2 ^ (8 * Z.of_nat n).
Proof.
  intros Hok. assert (bytes_ok (take n (drop at_ image))) as Hp by (by apply Forall_take, Forall_drop).
  pose proof (le_decode_bound _ Hp) as Hb. assert (len (take n (drop at_ image)) ≤ Z.of_nat n) as Hl.
  { unfold len. rewrite length_take. lia. }
  pose proof (Z.pow_le_mono_r 2 (8 * len (take n (drop at_ image))) (8 * Z.of_nat n) ltac:(lia) ltac:(lia)). lia.
Qed.

Lemma u16_bound image at_ : bytes_ok image → 0 ≤ u16_at image at_ < 65536.
Proof. intros Hok. exact (part_bound image (Z.to_nat at_) 2 Hok). Qed.
Lemma u32_bound image at_ : bytes_ok image → 0 ≤ u32_at image at_ < 4294967296.
Proof. intros Hok. exact (part_bound image (Z.to_nat at_) 4 Hok). Qed.

(** The signature is found where there is one. *)
Lemma signature_answer image : bytes_ok image →
  match pe_header image with
  | Some signature => signature_offset image = Ok signature ∧ 0 ≤ signature < 4294967296 ∧ signature + 26 ≤ len image
  | None => ∃ e, signature_offset image = Err e ∧ (e = Truncated ∨ e = NotPe32Plus)
  end.
Proof.
  intros Hok. pose proof (u32_bound image LFANEW Hok) as Hs. unfold pe_header, signature_offset.
  set (signature := u32_at image LFANEW) in *. rewrite read_u32_at by done. fold signature.
  unfold LFANEW. change (60 + 4) with 64. destruct (64 <=? len image); [|simpl; eauto]. cbn [andb mbind res_bind].
  unfold checked_add. rewrite (proj2 (Z.ltb_lt _ _)) by (change (len SIGNATURE) with 4; lia). cbn [ok_or mbind res_bind].
  change (len SIGNATURE) with 4. change (signature + 4) with (signature + Z.of_nat 4). rewrite (slice_at image signature 4) by lia. change (Z.of_nat 4) with 4.
  destruct (Z.leb_spec (signature + 26) (len image)) as [Hl|Hl]; cbn [andb].
  - rewrite (proj2 (Z.leb_le _ _)) by lia. cbn [ok_or mbind res_bind].
    destruct (decide (take 4 (drop (Z.to_nat signature) image) = SIGNATURE)) as [E|E].
    + rewrite E. rewrite !bool_decide_true by done. cbn [negb andb].
      unfold OPTIONAL_HEADER. rewrite read_u16_at by lia. rewrite (proj2 (Z.leb_le _ _)) by lia. cbn [mbind res_bind].
      destruct (_ =? _); cbn [negb]; [split_and!; [done|lia..]|eauto].
    + rewrite !bool_decide_false by congruence. simpl. eauto.
  - destruct (_ <=? _); cbn [ok_or mbind res_bind]; [|eauto]. destruct (bool_decide _); cbn [negb]; [|eauto].
    unfold OPTIONAL_HEADER. rewrite read_u16_at by lia. rewrite (proj2 (Z.leb_gt _ _)) by lia. simpl. eauto.
Qed.
(** ** The section table *)
Lemma held_readable image table i : 0 ≤ i →
  i < sections_held image table ↔ table + i * SECTION_SIZE + 40 ≤ len image.
Proof.
  intros Hi. unfold sections_held, SECTION_SIZE. pose proof (Z.div_mod (len image - table) 40 ltac:(lia)).
  pose proof (Z.mod_pos_bound (len image - table) 40 ltac:(lia)). lia.
Qed.

Lemma code_listed_S image table k n : 0 < n →
  code_listed image table k n = option_list (code_at image table k) ++ code_listed image table (k + 1) (n - 1).
Proof.
  intros Hn. unfold code_listed. rewrite (seqZ_cons k n) by done. cbn [omap list_omap].
  replace (Z.succ k) with (k + 1) by lia. replace (Z.pred n) with (n - 1) by lia. by destruct (code_at image table k).
Qed.

(** One header: outside the image, no code, one more, or one too many. *)
Lemma code_section_step image table l k : bytes_ok image → 0 ≤ table < 2 ^ 33 → 0 ≤ k < 65536 → (length l ≤ 4)%nat →
  code_section image table (kept l) k =
    if sections_held image table <=? k then Err Truncated
    else if 4 <? len (l ++ option_list (code_at image table k)) then Err TooManySections
    else Ok (kept (l ++ option_list (code_at image table k))).
Proof.
  intros Hok Ht Hk Hl. pose proof (held_readable image table k ltac:(lia)) as Hheld.
  unfold code_section, checked_add, code_at, SECTION_SIZE, SECTION_CHARACTERISTICS, SECTION_VIRTUAL_ADDRESS, SECTION_VIRTUAL_SIZE in *.
  rewrite (proj2 (Z.ltb_lt (table + k * 40) (2 ^ 64))) by lia. cbn [ok_or mbind res_bind].
  assert (4 <? len (l ++ []) = false) as Hfour by (apply Z.ltb_ge; rewrite app_nil_r; unfold len; lia).
  rewrite (read_u32_at image (table + k * 40 + 36)) by lia. destruct (Z.leb_spec (sections_held image table) k) as [Hh|Hh].
  { rewrite (proj2 (Z.leb_gt _ _)) by lia. done. }
  rewrite (proj2 (Z.leb_le _ _)) by lia. cbn [mbind res_bind].
  destruct (Z.land _ EXECUTABLE =? 0); [cbn [orb option_list option_rect]; by rewrite Hfour, app_nil_r|]. cbn [orb].
  rewrite (read_u32_at image (table + k * 40 + 12)) by lia. rewrite (proj2 (Z.leb_le _ _)) by lia. cbn [mbind res_bind].
  rewrite (read_u32_at image (table + k * 40 + 8)) by lia. rewrite (proj2 (Z.leb_le _ _)) by lia. cbn [mbind res_bind].
  destruct (u32_at image (table + k * 40 + 8) =? 0); [cbn [orb option_list option_rect]; by rewrite Hfour, app_nil_r|]. cbn [option_list option_rect].
  unfold kept at 1. cbn [cs_len]. unfold MAX_CODE_SECTIONS. destruct (Z.eqb_spec (len l) 4) as [H4|H4].
  - rewrite (proj2 (Z.ltb_lt _ _)); [done|]. rewrite len_app, H4. done.
  - rewrite (proj2 (Z.ltb_ge _ _)); [|rewrite len_app; unfold len in *; simpl; lia].
    unfold set_index, kept. cbn [cs_ranges cs_len]. rewrite (proj2 (Z.leb_le _ _)) by apply len_nonneg.
    rewrite (proj2 (Z.ltb_lt _ _)) by (rewrite len_app, len_replicate; unfold len in *; lia). cbn [andb expect mbind res_bind].
    rewrite len_app. do 2 f_equal. unfold len. rewrite Nat2Z.id, insert_app_r_alt, Nat.sub_diag by lia.
    rewrite length_app. cbn [length]. replace (4 - length l)%nat with (S (4 - (length l + 1)))%nat by (unfold len in *; lia).
    cbn [replicate]. change (<[0%nat:=?a]> (?b :: ?r)) with (a :: r). by rewrite <-app_assoc.
Qed.

Lemma code_run image table l k (n : nat) : bytes_ok image → 0 ≤ table < 2 ^ 33 → 0 ≤ k → k + Z.of_nat n ≤ 65536 → (length l ≤ 4)%nat →
  let h := Z.min (Z.of_nat n) (Z.max 0 (sections_held image table - k)) in
  foldM (code_section image table) (kept l) (seqZ k (Z.of_nat n)) =
    if 4 <? len (l ++ code_listed image table k h) then Err TooManySections
    else if h <? Z.of_nat n then Err Truncated else Ok (kept (l ++ code_listed image table k (Z.of_nat n))).
Proof.
  intros Hok Ht. revert l k. induction n as [|n IH]; intros l k Hk Hn Hl; cbn zeta.
  { rewrite Z.min_l by lia. unfold code_listed. simpl. rewrite app_nil_r.
    by rewrite (proj2 (Z.ltb_ge _ _)) by (unfold len; lia). }
  rewrite (seqZ_cons k) by lia. cbn [foldM]. replace (Z.pred (Z.of_nat (S n))) with (Z.of_nat n) by lia. replace (Z.succ k) with (k + 1) by lia.
  rewrite code_section_step by (try done; lia). destruct (Z.leb_spec (sections_held image table) k) as [Hh|Hh].
  { rewrite Z.max_l, Z.min_r by lia. unfold code_listed. rewrite (seqZ_nil k 0) by lia. cbn [omap list_omap]. rewrite app_nil_r.
    rewrite (proj2 (Z.ltb_ge _ _)) by (unfold len; lia). done. }
  rewrite Z.max_r by lia. set (h := Z.min (Z.of_nat (S n)) (sections_held image table - k)).
  rewrite (code_listed_S image table k h), (code_listed_S image table k (Z.of_nat (S n))) by lia. rewrite !app_assoc.
  replace (Z.of_nat (S n) - 1) with (Z.of_nat n) by lia.
  set (l' := l ++ option_list (code_at image table k)). destruct (Z.ltb_spec 4 (len l')) as [H4|H4].
  { rewrite (proj2 (Z.ltb_lt _ _)); [done|]. rewrite len_app. pose proof (len_nonneg (code_listed image table (k + 1) (h - 1))). lia. }
  cbn [mbind res_bind]. rewrite (IH l' (k + 1)) by (unfold len in *; lia).
  replace (Z.min (Z.of_nat n) (Z.max 0 (sections_held image table - (k + 1)))) with (h - 1) by lia.
  destruct (4 <? _); [done|]. destruct (Z.ltb_spec (h - 1) (Z.of_nat n)), (Z.ltb_spec h (Z.of_nat (S n))); try lia; done.
Qed.
Lemma iter_kept l : sections_iter (kept l) = l.
Proof. unfold sections_iter, kept, len. cbn [cs_len cs_ranges]. by rewrite Nat2Z.id, take_app_length. Qed.

(** C37: What is code in an image, whatever its bytes are.  Without a PE32+
    header inside the image the answer is [Truncated] or [NotPe32Plus].
    With one, the code is the sections of the table that are executable and
    not empty, in the table's order: that is the answer if the whole table is
    inside the image and they are between one and four; a fifth one that is
    inside is [TooManySections], a table that runs past the end without one is
    [Truncated], and none at all is [NoCode].  It never panics. *)
Theorem code_sections_exact image : bytes_ok image →
  match pe_header image with
  | None => ∃ e, code_sections image = Err e ∧ (e = Truncated ∨ e = NotPe32Plus)
  | Some signature =>
      let table := section_table image signature in
      let count := section_count image signature in
      let held := Z.min count (sections_held image table) in
      let code := code_listed image table 0 held in
      if 4 <? len code then code_sections image = Err TooManySections
      else if held <? count then code_sections image = Err Truncated
      else if bool_decide (code = []) then code_sections image = Err NoCode
      else ∃ c, code_sections image = Ok c ∧ sections_iter c = code
  end.
Proof.
  intros Hok. pose proof (signature_answer image Hok) as Hsig. unfold code_sections. destruct (pe_header image) as [signature|].
  2:{ destruct Hsig as (e & -> & He). exists e. done. }
  destruct Hsig as (-> & Hs & Hl). cbn [mbind res_bind]. cbn zeta. unfold NUMBER_OF_SECTIONS, SIZE_OF_OPTIONAL_HEADER, OPTIONAL_HEADER.
  rewrite (read_u16_at image (signature + 6)) by lia. rewrite (proj2 (Z.leb_le _ _)) by lia. cbn [mbind res_bind].
  rewrite (read_u16_at image (signature + 20)) by lia. rewrite (proj2 (Z.leb_le _ _)) by lia. cbn [mbind res_bind].
  pose proof (u16_bound image (signature + 6) Hok). pose proof (u16_bound image (signature + 20) Hok).
  unfold checked_add. rewrite (proj2 (Z.ltb_lt (signature + 24 + u16_at image (signature + 20)) (2 ^ 64))) by lia. cbn [ok_or mbind res_bind].
  fold (section_table image signature) (section_count image signature). set (table := section_table image signature).
  set (count := section_count image signature). assert (0 ≤ count < 65536) by done.
  change {| cs_ranges := _; cs_len := 0 |} with (kept []). replace count with (Z.of_nat (Z.to_nat count)) by lia.
  rewrite code_run by (try done; unfold table, section_table; simpl; lia). cbn zeta. rewrite Z.sub_0_r.
  rewrite (Z.max_r 0) by (unfold sections_held; lia). set (held := Z.min _ _). cbn [app].
  destruct (4 <? len _); [done|]. destruct (Z.ltb_spec held (Z.of_nat (Z.to_nat count))); [done|]. cbn [mbind res_bind].
  replace held with (Z.of_nat (Z.to_nat count)) by lia. set (code := code_listed _ _ _ _). unfold sections_is_empty. cbn [kept cs_len].
  destruct (decide (code = [])) as [->|Hc]; [done|]. rewrite bool_decide_false by done.
  rewrite (proj2 (Z.eqb_neq _ _)); [exists (kept code); by rewrite iter_kept|].
  intros Hz. apply Hc. apply length_zero_iff_nil. unfold len in Hz. lia.
Qed.
End headers.

(** ** The relocation table

    Its grammar: blocks of a page, a size, and entries of 16 bits, each
    padding or the offset in the page of eight bytes of the image. *)
Definition slot (page v : Z) : option Z := if Z.shiftr v 12 =? 0 then None else Some (page + Z.land v 0xFFF).
Definition entry_ok (image_len page v : Z) : Prop :=
  Z.shiftr v 12 = 0 ∨ Z.shiftr v 12 = 10 ∧ page + Z.land v 0xFFF + 8 ≤ image_len.
Definition entry_bytes (es : list Z) : list Z := concat (le_encode 2 <$> es).

Inductive blocks_of (image_len : Z) : list Z → list Z → Prop :=
| blocks_end : blocks_of image_len [] []
| blocks_cons page es rest offs :
    in_width 32 page → Forall (in_width 16) es → 8 + 2 * len es < 2 ^ 32 → Forall (entry_ok image_len page) es →
    blocks_of image_len rest offs →
    blocks_of image_len (le_encode 4 page ++ le_encode 4 (8 + 2 * len es) ++ entry_bytes es ++ rest) (omap (slot page) es ++ offs).

(** The table an image announces: where its directory says. *)
Definition announced (image : list Z) : option (Z * Z) :=
  signature ← Image.pe_header image;
  let start := Image.u32_at image (signature + 176) in
  let size := Image.u32_at image (signature + 180) in
  if (signature + 184 <=? len image) && negb (start =? 0) && negb (size =? 0) && (start + size <=? len image)
  then Some (start, start + size) else None.

Section blocks.
Import Pe.

Lemma len_entry_bytes es : len (entry_bytes es) = 2 * len es.
Proof.
  unfold entry_bytes. induction es as [|e es IH]; [done|]. rewrite fmap_cons. cbn [concat].
  rewrite len_app, IH, len_cons. unfold len at 1. rewrite length_le_encode. lia.
Qed.

Lemma chunks_entry_bytes es : as_chunks 2 (entry_bytes es) = le_encode 2 <$> es.
Proof.
  apply as_chunks_blocks; [lia|]. apply Forall_forall. intros l (e & -> & _)%list_elem_of_fmap. apply length_le_encode.
Qed.

Lemma entry_bytes_of l : bytes_ok l → is_multiple_of (len l) 2 = true → ∃ es, l = entry_bytes es ∧ Forall (in_width 16) es.
Proof.
  unfold is_multiple_of. intros Hok Hev%Z.eqb_eq. remember (length l) as n eqn:Hn. revert l Hok Hev Hn.
  induction (lt_wf n) as [n _ IH]. intros l Hok Hev Hn. destruct l as [|a [|b l]].
  - exists []. by split; [|constructor].
  - done.
  - unfold bytes_ok in Hok. rewrite !Forall_cons in Hok. destruct Hok as (Ha & Hb & Hok). rewrite !len_cons in Hev.
    replace (1 + (1 + len l)) with (len l + 1 * 2) in Hev by lia. rewrite Z.mod_add in Hev by lia.
    simpl in Hn. destruct (IH (length l) ltac:(lia) l Hok Hev eq_refl) as (es & -> & Hes).
    exists (a + 256 * b :: es). split; [|constructor; [unfold in_width; lia|done]].
    unfold entry_bytes. rewrite fmap_cons. cbn [concat le_encode app].
    replace (a + 256 * b) with (a + b * 256) by lia. rewrite Z_mod_plus_full, Z_div_plus_full, (Z.div_small a), (Z.mod_small a) by lia.
    rewrite Z.add_0_l, Z.mod_small by lia. done.
Qed.

Lemma low_bits_bound v : 0 ≤ Z.land v 0xFFF < 4096.
Proof. change 0xFFF with (Z.ones 12). rewrite Z.land_ones by lia. by apply Z.mod_pos_bound. Qed.

Lemma check_entry_answer L page v : in_width 32 page → in_width 16 v →
  match check_entry L page () (le_encode 2 v) with
  | Ok () => entry_ok L page v
  | Err _ => ¬ entry_ok L page v
  | _ => False
  end.
Proof.
  intros Hp Hv. unfold check_entry. rewrite le_decode_encode by done. unfold RELOCATION_ABSOLUTE, RELOCATION_DIR64, entry_ok.
  pose proof (low_bits_bound v). destruct (Z.eqb_spec (Z.shiftr v 12) 0); [by left|].
  destruct (Z.eqb_spec (Z.shiftr v 12) 10); cbn [negb]; [|lia]. unfold checked_add, in_width in *.
  rewrite (proj2 (Z.ltb_lt _ _)) by lia. destruct (Z.leb_spec (page + Z.land v 0xFFF + 8) L); [right; lia|lia].
Qed.

Lemma check_entries_answer L page es : in_width 32 page → Forall (in_width 16) es →
  match foldM (check_entry L page) () (le_encode 2 <$> es) with
  | Ok () => Forall (entry_ok L page) es
  | Err _ => ¬ Forall (entry_ok L page) es
  | _ => False
  end.
Proof.
  intros Hp. induction 1 as [|v es Hv _ IH]; [constructor|]. rewrite fmap_cons. cbn [foldM].
  pose proof (check_entry_answer L page v Hp Hv) as Hone. destruct (check_entry L page () _) as [[]|e| |]; [|by intros [??]%Forall_cons_1|done..].
  cbn [mbind res_bind]. destruct (foldM _ () _) as [[]|e| |]; [by constructor|by intros [??]%Forall_cons_1|done..].
Qed.
Lemma le_encode_inj n a b : in_width (8 * Z.of_nat n) a → in_width (8 * Z.of_nat n) b → le_encode n a = le_encode n b → a = b.
Proof. intros Ha Hb E. by rewrite <-(le_decode_encode n a), <-(le_decode_encode n b), E. Qed.

(** A block's header, and what is left after it. *)
Lemma header_of rest : bytes_ok rest → 8 ≤ len rest →
  ∃ page size tl, rest = le_encode 4 page ++ le_encode 4 size ++ tl ∧ in_width 32 page ∧ in_width 32 size ∧ bytes_ok tl.
Proof.
  intros Hok Hl. exists (le_decode (take 4 rest)), (le_decode (take 4 (drop 4 rest))), (drop 8 rest).
  assert (bytes_ok (take 4 rest)) as H1 by (by apply Forall_take).
  assert (bytes_ok (take 4 (drop 4 rest))) as H2 by (by apply Forall_take, Forall_drop).
  assert (length (take 4 rest) = 4%nat) as L1 by (rewrite length_take; unfold len in Hl; lia).
  assert (length (take 4 (drop 4 rest)) = 4%nat) as L2 by (rewrite length_take, length_drop; unfold len in Hl; lia).
  split_and!.
  - pose proof (le_encode_decode _ H1) as E1. pose proof (le_encode_decode _ H2) as E2. rewrite L1 in E1. rewrite L2 in E2. rewrite E1, E2.
    change 8%nat with (4 + 4)%nat. rewrite <-(drop_drop rest 4 4). by rewrite !take_drop.
  - pose proof (le_decode_bound _ H1) as Hb. unfold len in Hb. rewrite L1 in Hb. exact Hb.
  - pose proof (le_decode_bound _ H2) as Hb. unfold len in Hb. rewrite L2 in Hb. exact Hb.
  - by apply Forall_drop.
Qed.

Lemma header_read page size tl : in_width 32 page → in_width 32 size →
  let rest := le_encode 4 page ++ le_encode 4 size ++ tl in
  len rest = 8 + len tl ∧ slice rest 0 8 = Some (le_encode 4 page ++ le_encode 4 size) ∧
  le_decode (take 4 (le_encode 4 page ++ le_encode 4 size)) = page ∧ le_decode (drop 4 (le_encode 4 page ++ le_encode 4 size)) = size ∧
  (∀ n, 8 ≤ n ≤ len rest → slice rest 8 n = Some (take (Z.to_nat (n - 8)) tl) ∧ slice rest n (len rest) = Some (drop (Z.to_nat (n - 8)) tl)).
Proof.
  intros Hp Hs rest. assert (len rest = 8 + len tl) as Hl.
  { unfold rest, len. rewrite !length_app, !length_le_encode. lia. }
  assert (rest = (le_encode 4 page ++ le_encode 4 size) ++ tl) as Hr by (unfold rest; by rewrite <-app_assoc).
  assert (length (le_encode 4 page ++ le_encode 4 size) = 8%nat) as L8 by done.
  pose proof (len_nonneg tl). split_and!; [done|..].
  - rewrite slice_prefix by lia. rewrite Hr. by rewrite take_app_length'.
  - rewrite take_app_length' by done. by rewrite le_decode_encode.
  - rewrite drop_app_length' by done. by rewrite le_decode_encode.
  - intros n Hn. split.
    + rewrite slice_Some by lia. rewrite Hr. by rewrite drop_app_length'.
    + rewrite slice_Some by lia. f_equal. rewrite Hl, Hr. replace (Z.to_nat n) with (8 + Z.to_nat (n - 8))%nat by lia.
      rewrite <-drop_drop, drop_app_length' by done. apply take_ge. rewrite length_drop. unfold len in *. lia.
Qed.

Lemma blocks_inv L page size tl offs : in_width 32 page → in_width 32 size →
  blocks_of L (le_encode 4 page ++ le_encode 4 size ++ tl) offs →
  ∃ es rest offs', size = 8 + 2 * len es ∧ tl = entry_bytes es ++ rest ∧ Forall (in_width 16) es ∧
    Forall (entry_ok L page) es ∧ blocks_of L rest offs' ∧ offs = omap (slot page) es ++ offs'.
Proof.
  intros Hp Hs Hb. remember (le_encode 4 page ++ le_encode 4 size ++ tl) as all eqn:E.
  destruct Hb as [|page' es rest offs' Hp' Hes Hsz Hok Hrest]; [discriminate E|].
  apply app_inj_1 in E as [E1 E]; [|by rewrite !length_le_encode]. apply app_inj_1 in E as [E2 E]; [|by rewrite !length_le_encode].
  apply (le_encode_inj 4) in E1 as ->; [|done|done]. pose proof (len_nonneg es).
  apply (le_encode_inj 4) in E2; [|split; [lia|exact Hsz]|done]. exists es, rest, offs'. done.
Qed.
Lemma entry_bytes_inj es es' : Forall (in_width 16) es → Forall (in_width 16) es' → entry_bytes es = entry_bytes es' → es = es'.
Proof.
  assert (∀ l, Forall (in_width 16) l → le_decode <$> as_chunks 2 (entry_bytes l) = l) as Hdec.
  { intros l Hl. rewrite chunks_entry_bytes. induction Hl as [|e l He _ IH]; [done|]. rewrite !fmap_cons, IH. by rewrite le_decode_encode. }
  intros H1 H2 E. by rewrite <-(Hdec es), <-(Hdec es'), E.
Qed.

Lemma blocks_len L rest offs : blocks_of L rest offs → rest = [] ∨ 8 ≤ len rest.
Proof. intros [|page es r o]; [by left|right]. unfold len. rewrite !length_app, !length_le_encode. lia. Qed.

(** The walk accepts exactly what the grammar makes, and always ends. *)
Lemma check_blocks_answer L (fuel : nat) rest : bytes_ok rest → (length rest < fuel)%nat →
  match check_blocks fuel L rest with
  | Ok () => ∃ offs, blocks_of L rest offs
  | Err _ => ∀ offs, ¬ blocks_of L rest offs
  | _ => False
  end.
Proof.
  revert rest. induction fuel as [|fuel IH]; intros rest Hok Hf; [lia|]. cbn [check_blocks].
  destruct (decide (rest = [])) as [->|Hne]; [rewrite bool_decide_true by done; eexists; constructor|].
  rewrite bool_decide_false by done. unfold RELOCATION_BLOCK_HEADER. destruct (Z.le_gt_cases 8 (len rest)) as [H8|H8].
  2:{ assert (slice rest 0 8 = None) as ->.
    { unfold slice. destruct (Z.leb_spec 8 (len rest)); [lia|done]. }
    cbn. intros offs [->|?]%blocks_len; [done|lia]. }
  destruct (header_of rest Hok H8) as (page & size & tl & Hrest & Hp & Hs & Htl).
  pose proof (header_read page size tl Hp Hs) as Hd. cbv zeta in Hd. rewrite <-Hrest in Hd. destruct Hd as (Hlen & -> & Hpg & Hsz & Hcut).
  cbn [ok_or mbind res_bind]. rewrite Hpg, Hsz. unfold is_multiple_of. destruct (_ || _) eqn:Hbad.
  - rewrite !orb_true_iff, negb_true_iff, Z.eqb_neq, !Z.ltb_lt in Hbad. rewrite Hrest. intros offs Hb.
    apply blocks_inv in Hb as (es & rest' & offs' & -> & -> & _ & _); [|done..]. rewrite len_app, len_entry_bytes in Hlen.
    pose proof (len_nonneg es). pose proof (len_nonneg rest').
    replace (8 + 2 * len es) with ((4 + len es) * 2) in Hbad by lia. rewrite Z.mod_mul in Hbad; lia.
  - rewrite !orb_false_iff, negb_false_iff, Z.eqb_eq, !Z.ltb_ge in Hbad. destruct Hbad as [[Hlo Hhi] Hev].
    destruct (Hcut size ltac:(lia)) as [-> ->]. cbn [expect mbind res_bind].
    set (n := Z.to_nat (size - 8)). assert (len (take n tl) = size - 8) as Hn by (unfold len in *; rewrite length_take; lia).
    destruct (entry_bytes_of (take n tl)) as (es & Hes & H16); [by apply Forall_take| |].
    { unfold is_multiple_of. rewrite Hn. replace (size - 8) with (size + -4 * 2) by lia. rewrite Z.mod_add by lia. by apply Z.eqb_eq. }
    rewrite Hes, chunks_entry_bytes. rewrite Hes, len_entry_bytes in Hn.
    assert (∀ es' rest', Forall (in_width 16) es' → size = 8 + 2 * len es' → tl = entry_bytes es' ++ rest' → es' = es ∧ rest' = drop n tl) as Huniq.
    { intros es' rest' H16' Hsz' ->. assert (length (entry_bytes es') = n) as Hln.
      { pose proof (len_entry_bytes es'). unfold len in *. lia. }
      rewrite take_app_length' in Hes by done. rewrite drop_app_length' by done. split; [by apply entry_bytes_inj|done]. }
    pose proof (check_entries_answer L page es Hp H16) as He. destruct (foldM _ () _) as [[]|e| |]; [|clear IH|done..]; cbn [mbind res_bind].
    + specialize (IH (drop n tl) ltac:(by apply Forall_drop)). rewrite length_drop in IH.
      specialize (IH ltac:(unfold len in *; lia)). destruct (check_blocks fuel L (drop n tl)) as [[]|e| |]; [destruct IH as [offs Hoffs]| |done..].
      * exists (omap (slot page) es ++ offs). rewrite Hrest. replace size with (8 + 2 * len es) by lia.
        rewrite <-(take_drop n tl), Hes at 1. constructor; try done. unfold in_width in Hs. lia.
      * intros offs Hb. rewrite Hrest in Hb. apply blocks_inv in Hb as (es' & rest' & offs' & Hsz' & Htl' & H16' & _ & Hb & _); [|done..].
        destruct (Huniq es' rest' H16' Hsz' Htl') as [_ ->]. by apply (IH offs').
    + intros offs Hb. rewrite Hrest in Hb. apply blocks_inv in Hb as (es' & rest' & offs' & Hsz' & Htl' & H16' & Hok' & _); [|done..].
      destruct (Huniq es' rest' H16' Hsz' Htl') as [-> _]. done.
Qed.
End blocks.

(** ** The iterator

    What is left of the table, wherever the image it is read from has got
    to: the entries of this block and the blocks after it, all of them
    inside [a..b]. *)
Record left_of (L a b : Z) (image : list Z) (it : Pe.Iter) (offs : list Z) : Prop := {
  lo_entries : 0 ≤ (Pe.i_entries it).1 ≤ (Pe.i_entries it).2 ∧ ((Pe.i_entries it).2 = 0 ∨ a ≤ (Pe.i_entries it).1 ∧ (Pe.i_entries it).2 ≤ b);
  lo_blocks : a ≤ (Pe.i_blocks it).1 ≤ (Pe.i_blocks it).2 ∧ (Pe.i_blocks it).2 ≤ b;
  lo_what : ∃ es rest more, slice image (Pe.i_entries it).1 (Pe.i_entries it).2 = Some (entry_bytes es) ∧ Forall (in_width 16) es ∧
    Forall (entry_ok L (Pe.i_page it)) es ∧ slice image (Pe.i_blocks it).1 (Pe.i_blocks it).2 = Some rest ∧
    blocks_of L rest more ∧ offs = omap (slot (Pe.i_page it)) es ++ more ∧ 0 ≤ Pe.i_page it
}.

(** How much is left to read. *)
Definition unread (it : Pe.Iter) : Z :=
  ((Pe.i_entries it).2 - (Pe.i_entries it).1) + ((Pe.i_blocks it).2 - (Pe.i_blocks it).1).

Section iterator.
Import Pe.
Context {E : Type}.

Lemma slice_slice {A} (l l' : list A) a b i j : slice l a b = Some l' → 0 ≤ i ≤ j → j ≤ len l' →
  slice l (a + i) (a + j) = slice l' i j.
Proof.
  intros Hs Hi Hj. apply slice_inv in Hs as (Ha & Hb & Hl & Hl'). rewrite !slice_Some by lia. f_equal.
  replace (a + j - (a + i)) with (j - i) by lia. rewrite Hl'. rewrite skipn_firstn_comm, drop_drop, take_take.
  f_equal; [|f_equal]; lia.
Qed.

(** Bytes elsewhere may change. *)
Lemma left_stable L a b image image' it offs : length image' = length image →
  (∀ i : nat, a ≤ Z.of_nat i < b → image' !! i = image !! i) → left_of L a b image it offs → left_of L a b image' it offs.
Proof.
  intros Hlen Hsame [He Hb (es & rest & more & H1 & H2 & H3 & H4 & H5)].
  assert (∀ x y l, 0 ≤ x → (y = 0 ∨ a ≤ x ∧ y ≤ b) → slice image x y = Some l → slice image' x y = Some l) as Hmove.
  { intros x y l Hx Hxy Hs. rewrite <-Hs. apply slice_inv in Hs as (Hxy' & Hyl & _). unfold len in *.
    rewrite !slice_Some by (unfold len; lia). f_equal. apply list_eq. intros i. destruct (decide (i < Z.to_nat (y - x))%nat) as [Hi|Hi].
    - rewrite !lookup_take_lt, !lookup_drop by done. apply Hsame. lia.
    - by rewrite !lookup_take_ge by lia. }
  split; [done|done|]. exists es, rest, more. pose proof (slice_inv _ _ _ _ H4). split_and!; try apply H5; try done; apply Hmove; auto; lia.
Qed.

(** One round of the loop, when the entries are used up: the next block. *)
Lemma next_block L a b image it offs : left_of L a b image it offs → (i_entries it).2 - (i_entries it).1 < 2 →
  match iter_step (E:=E) image it with
  | Ok (inl it') => left_of L a b image it' offs ∧ unread it' < unread it
  | Ok (inr None) => offs = []
  | _ => False
  end.
Proof.
  intros [He Hb (es & rest & more & H1 & H16 & Hok & H4 & H5 & -> & Hpage)] H2. unfold iter_step.
  destruct it as [[bf bt] [ef et] pg]. cbn [i_entries i_blocks i_page fst snd] in *. rewrite (proj2 (Z.leb_gt _ _)) by done.
  apply slice_inv in H1 as (_ & _ & Hel & _). rewrite len_entry_bytes in Hel. assert (es = []) as ->.
  { destruct es; [done|]. rewrite len_cons in Hel. pose proof (len_nonneg es). lia. }
  cbn [omap list_omap app]. pose proof (slice_inv _ _ _ _ H4) as (Hb1 & Hb2 & Hrl & _). unfold RELOCATION_BLOCK_HEADER.
  destruct H5 as [|page es rest offs Hp Hes Hsz Hentries Hrest]; [rewrite (proj2 (Z.ltb_lt _ _)) by (unfold len in Hrl; simpl in Hrl; lia); done|].
  pose proof (len_nonneg es). assert (in_width 32 (8 + 2 * len es)) as Hs by (unfold in_width; lia).
  pose proof (header_read page (8 + 2 * len es) (entry_bytes es ++ rest) Hp Hs) as Hd. cbv zeta in Hd.
  set (all := le_encode 4 page ++ _) in *. destruct Hd as (Hlen & Hhead & Hpg & Hsize & Hcut). rewrite len_app, len_entry_bytes in Hlen. pose proof (len_nonneg rest).
  rewrite (proj2 (Z.ltb_ge _ _)) by lia. pose proof (slice_slice image all bf bt 0 8 H4 ltac:(lia) ltac:(lia)) as Hfirst.
  rewrite Z.add_0_r in Hfirst. rewrite Hfirst, Hhead. cbn [expect mbind res_bind]. rewrite Hsize, Hpg. rewrite !(proj2 (Z.ltb_ge _ _)) by lia. cbn [orb].
  destruct (Hcut (8 + 2 * len es) ltac:(lia)) as [Hc1 Hc2]. replace (Z.to_nat (8 + 2 * len es - 8)) with (length (entry_bytes es)) in Hc1, Hc2
    by (pose proof (len_entry_bytes es); unfold len in *; lia). rewrite take_app_length in Hc1. rewrite drop_app_length in Hc2.
  split; [|unfold unread; simpl; lia]. split; cbn [i_entries i_blocks i_page fst snd]; [lia|lia|].
  exists es, rest, offs. split_and!; try done.
  - rewrite <-Hc1. apply (slice_slice _ _ _ bt); [done|lia|lia].
  - rewrite <-Hc2. replace bt with (bf + len all) at 1 by lia. apply (slice_slice _ _ _ bt); [done|lia|lia].
  - unfold in_width in Hp. lia.
Qed.
Lemma next_entry L a b image it offs : left_of L a b image it offs → 2 ≤ (i_entries it).2 - (i_entries it).1 →
  match iter_step (E:=E) image it with
  | Ok (inl it') => left_of L a b image it' offs ∧ unread it' < unread it
  | Ok (inr (Some (o, it'))) => ∃ os, offs = o :: os ∧ 0 ≤ o ∧ o + 8 ≤ L ∧ left_of L a b image it' os ∧ unread it' < unread it
  | _ => False
  end.
Proof.
  intros [He Hb (es & rest & more & H1 & H16 & Hok & H4 & H5 & -> & Hpage)] H2. unfold iter_step.
  destruct it as [[bf bt] [ef et] pg]. cbn [i_entries i_blocks i_page fst snd] in *. rewrite (proj2 (Z.leb_le 2 _)) by done.
  pose proof (slice_inv _ _ _ _ H1) as (_ & _ & Hel & _). rewrite len_entry_bytes in Hel. destruct es as [|v es]; [change (len []) with 0 in Hel; lia|].
  apply Forall_cons in H16 as [Hv H16], Hok as [Hone Hok]. rewrite len_cons in Hel.
  assert (entry_bytes (v :: es) = le_encode 2 v ++ entry_bytes es) as Hcons by done.
  assert (len (entry_bytes (v :: es)) = 2 + 2 * len es) as Hlen by (rewrite len_entry_bytes, len_cons; lia). pose proof (len_nonneg es).
  pose proof (slice_slice _ _ _ _ 0 2 H1 ltac:(lia) ltac:(lia)) as Hfirst. rewrite Z.add_0_r in Hfirst. rewrite Hfirst.
  pose proof (slice_slice _ _ _ _ 2 (len (entry_bytes (v :: es))) H1 ltac:(lia) ltac:(lia)) as Hnext. rewrite Hlen in Hnext at 1.
  replace (ef + (2 + 2 * len es)) with et in Hnext by lia. rewrite (slice_Some (entry_bytes (v :: es))) in Hnext by lia. rewrite Hcons in Hnext at 2.
  rewrite drop_app_length', take_ge in Hnext by (rewrite ?length_le_encode; pose proof (len_entry_bytes es); unfold len in *; lia).
  rewrite slice_prefix by lia. rewrite Hcons. rewrite take_app_length' by (rewrite length_le_encode; lia). cbn [expect mbind res_bind].
  rewrite le_decode_encode by done. unfold RELOCATION_ABSOLUTE. cbn [omap list_omap]. rewrite (eq_refl : slot pg v = if Z.shiftr v 12 =? 0 then None else Some (pg + Z.land v 0xFFF)).
  assert (left_of L a b image {| i_blocks := (bf, bt); i_entries := (ef + 2, et); i_page := pg |} (omap (slot pg) es ++ more)) as Hleft.
  { split; cbn [i_entries i_blocks i_page fst snd]; [lia|done|]. by exists es, rest, more. }
  destruct Hone as [Hz|[Hz Hin]]; rewrite Hz; cbn [Z.eqb Pos.eqb].
  - split; [done|]. unfold unread. simpl. lia.
  - exists (omap (slot pg) es ++ more). pose proof (low_bits_bound v). split_and!; [done|lia|lia|done|unfold unread; simpl; lia].
Qed.

(** The next address, if there is one left. *)
Lemma iter_next_left L a b image it offs (fuel : nat) : left_of L a b image it offs → unread it < Z.of_nat fuel →
  match offs with
  | [] => iter_next (E:=E) fuel image it = Ok None
  | o :: os => 0 ≤ o ∧ o + 8 ≤ L ∧ ∃ it', iter_next (E:=E) fuel image it = Ok (Some (o, it')) ∧ left_of L a b image it' os ∧ unread it' < unread it
  end.
Proof.
  revert it. induction fuel as [|fuel IH]; intros it Hleft Hf.
  { destruct Hleft as [He Hb _]. unfold unread in Hf. lia. }
  cbn [iter_next]. assert (match iter_step (E:=E) image it with
    | Ok (inl it') => left_of L a b image it' offs ∧ unread it' < unread it
    | Ok (inr (Some (o, it'))) => ∃ os, offs = o :: os ∧ 0 ≤ o ∧ o + 8 ≤ L ∧ left_of L a b image it' os ∧ unread it' < unread it
    | Ok (inr None) => offs = []
    | _ => False
    end) as Hstep.
  { destruct (Z.le_gt_cases 2 ((i_entries it).2 - (i_entries it).1)) as [H2|H2].
    - pose proof (next_entry _ _ _ _ _ _ Hleft H2). by destruct (iter_step _ _) as [[?|[[??]|]]|e| |].
    - pose proof (next_block _ _ _ _ _ _ Hleft H2). by destruct (iter_step _ _) as [[?|[[??]|]]|e| |]. }
  destruct (iter_step image it) as [[it'|[[o it']|]]|e| |]; [| | |done..]; cbn [mbind res_bind].
  - destruct Hstep as [Hleft' Hless]. specialize (IH it' Hleft' ltac:(lia)). destruct offs as [|o os]; [done|].
    destruct IH as (? & ? & it'' & ? & ? & ?). split_and!; [done|done|]. exists it''. split_and!; [done|done|lia].
  - destruct Hstep as (os & -> & ? & ? & ? & ?). split_and!; [done|done|]. by exists it'.
  - by subst offs.
Qed.
End iterator.

(** Over any bytes at all the iterator ends: every round reads something. *)
Definition ranges_ok (it : Pe.Iter) : Prop :=
  (Pe.i_entries it).1 ≤ (Pe.i_entries it).2 ∧ (Pe.i_blocks it).1 ≤ (Pe.i_blocks it).2.

Lemma iter_step_ends {E} image it : bytes_ok image → ranges_ok it →
  match Pe.iter_step (E:=E) image it with
  | Ok (inl it') | Ok (inr (Some (_, it'))) => ranges_ok it' ∧ unread it' < unread it
  | Ok (inr None) | Panic => True
  | _ => False
  end.
Proof.
  intros Hok. destruct it as [[bf bt] [ef et] pg]. intros [He Hb]. simpl in He, Hb. unfold Pe.iter_step. cbn [Pe.i_entries Pe.i_blocks].
  destruct (Z.leb_spec 2 (et - ef)) as [H2|H2].
  - destruct (slice image ef (ef + 2)); [|done]. cbn [expect mbind res_bind].
    destruct (_ =? _); (split; [unfold ranges_ok; simpl; lia|unfold unread; simpl; lia]).
  - unfold Pe.RELOCATION_BLOCK_HEADER. destruct (Z.ltb_spec (bt - bf) 8); [done|].
    destruct (slice image bf (bf + 8)) as [header|] eqn:Hs; [|done]. cbn [expect mbind res_bind]. set (size := le_decode _).
    destruct (Z.ltb_spec size 8); [done|]. destruct (Z.ltb_spec (bt - bf) size); [done|]. cbn [orb].
    split; [unfold ranges_ok; simpl; lia|unfold unread; simpl; lia].
Qed.

Lemma iter_next_ends {E} image (fuel : nat) it : bytes_ok image → ranges_ok it → unread it < Z.of_nat fuel →
  match Pe.iter_next (E:=E) fuel image it with
  | Ok (Some (_, it')) => ranges_ok it' ∧ unread it' < unread it
  | Ok None | Panic => True
  | _ => False
  end.
Proof.
  intros Hok. revert it. induction fuel as [|fuel IH]; intros it Hr Hf; [unfold ranges_ok, unread in *; lia|]. cbn [Pe.iter_next].
  pose proof (iter_step_ends (E:=E) image it Hok Hr) as Hs. destruct (Pe.iter_step image it) as [[it'|[[o it']|]]|e| |]; [|done..].
  cbn [mbind res_bind]. destruct Hs as [Hr' Hl]. specialize (IH it' Hr' ltac:(lia)).
  destruct (Pe.iter_next fuel image it') as [[[o it'']|]|e| |]; [|done..]. destruct IH. split; [done|lia].
Qed.

(** Everything the iterator gives, over an image that stays as it is. *)
Fixpoint collect {E} (fuel : nat) (image : list Z) (it : Pe.Iter) : res E (list Z) :=
  match fuel with
  | O => Diverge
  | S fuel =>
      x ← Pe.iter_next (S (length image)) image it;
      match x with
      | None => Ok []
      | Some (o, it) => os ← collect fuel image it; Ok (o :: os)
      end
  end.

Section relocations.
Import Pe.
Implicit Types image : list Z.

Lemma announced_inside image a b : bytes_ok image → announced image = Some (a, b) → 0 < a ∧ a < b ∧ b ≤ len image.
Proof.
  intros Hok. unfold announced. destruct (Image.pe_header image) as [s|]; [|done]. cbn [mbind option_bind].
  pose proof (u32_bound image (s + 176) Hok). pose proof (u32_bound image (s + 180) Hok).
  destruct (_ && _) eqn:Hc; [|done]. intros ?; simplify_eq. rewrite !andb_true_iff, !negb_true_iff, !Z.eqb_neq, !Z.leb_le in Hc. lia.
Qed.

Lemma relocations_answer image : bytes_ok image →
  match relocations image with
  | Ok r => announced image = Some (r_start r, r_end r) ∧
      ∃ blocks offs, slice image (r_start r) (r_end r) = Some blocks ∧ blocks_of (len image) blocks offs
  | Err _ => ∀ a b blocks offs, announced image = Some (a, b) → slice image a b = Some blocks → ¬ blocks_of (len image) blocks offs
  | _ => False
  end.
Proof.
  intros Hok. pose proof (signature_answer image Hok) as Hsig. unfold relocations, announced.
  destruct (Image.pe_header image) as [s|]; [|by destruct Hsig as (e & -> & _)].
  destruct Hsig as (-> & Hs & Hl). cbn [mbind res_bind option_bind].
  change (s + DATA_DIRECTORIES + BASE_RELOCATION_DIRECTORY * DATA_DIRECTORY_SIZE) with (s + 136 + 40). replace (s + 136 + 40) with (s + 176) by lia.
  pose proof (u32_bound image (s + 176) Hok). pose proof (u32_bound image (s + 180) Hok).
  rewrite (read_u32_at image (s + 176)), (read_u32_at image (s + 176 + 4)) by lia. replace (s + 176 + 4) with (s + 180) by lia.
  set (start := Image.u32_at image (s + 176)) in *. set (size := Image.u32_at image (s + 180)) in *. replace (s + 180 + 4) with (s + 184) by lia.
  destruct (Z.leb_spec (s + 184) (len image)); [|by destruct (_ <=? _)]. rewrite (proj2 (Z.leb_le _ _)) by lia. cbn [mbind res_bind andb].
  destruct (Z.eqb_spec start 0); [by cbn|]. destruct (Z.eqb_spec size 0); [by cbn|]. cbn [orb andb negb].
  unfold checked_add. rewrite (proj2 (Z.ltb_lt _ _)) by lia. cbn [ok_or mbind res_bind].
  destruct (Z.leb_spec (start + size) (len image)) as [Hfit|Hfit].
  2:{ assert (slice image start (start + size) = None) as ->; [|by cbn]. unfold slice. rewrite (proj2 (Z.leb_gt (start + size) _)) by done.
      by rewrite andb_false_r. }
  destruct (slice image start (start + size)) as [blocks|] eqn:Hsl; [|unfold slice in Hsl; rewrite !(proj2 (Z.leb_le _ _)) in Hsl by lia; done].
  cbn [ok_or mbind res_bind]. pose proof (check_blocks_answer (len image) (S (length blocks)) blocks (bytes_ok_slice _ _ _ _ Hok Hsl) ltac:(lia)) as Hck.
  destruct (check_blocks _ _ _) as [[]|e| |]; [|intros a b bl offs ? Hb; simplify_eq; apply Hck|done..].
  cbn [mbind res_bind r_start r_end]. split; [done|]. destruct Hck as [offs Hoffs]. by exists blocks, offs.
Qed.

(** Where the iterator starts. *)
Lemma iter_left image r blocks offs : 0 ≤ r_start r → slice image (r_start r) (r_end r) = Some blocks → blocks_of (len image) blocks offs →
  left_of (len image) (r_start r) (r_end r) image (iter r) offs ∧ unread (iter r) = len blocks.
Proof.
  intros H0 Hs Hb. pose proof (slice_inv _ _ _ _ Hs) as (? & ? & Hl & _). split; [|unfold unread; simpl; lia].
  split; cbn [iter i_entries i_blocks i_page fst snd]; [lia|lia|]. exists [], blocks, offs. split_and!; try done.
  unfold slice. rewrite (proj2 (Z.leb_le 0 (len image))) by lia. done.
Qed.

Lemma collect_left {E} L a b image it offs (fuel : nat) : left_of L a b image it offs → unread it ≤ len image → unread it < Z.of_nat fuel →
  collect (E:=E) fuel image it = Ok offs ∧ Forall (λ o, 0 ≤ o ∧ o + 8 ≤ L) offs.
Proof.
  revert it offs. induction fuel as [|fuel IH]; intros it offs Hleft Hl Hf.
  { destruct Hleft as [He Hb _]. unfold unread in Hf. lia. }
  pose proof (iter_next_left (E:=E) L a b image it offs (S (length image)) Hleft ltac:(unfold len in Hl; lia)) as Hn. cbn [collect].
  destruct offs as [|o os]; [by rewrite Hn|]. destruct Hn as (? & ? & it' & -> & Hleft' & Hless). cbn [mbind res_bind].
  destruct (IH it' os Hleft' ltac:(lia) ltac:(lia)) as [-> Hall]. cbn [mbind res_bind]. split; [done|by constructor].
Qed.

(** C36: The relocation table of an image, whatever its bytes are.  It is
    accepted exactly when the image announces one that is inside it and that
    is blocks of known entries, each naming eight bytes inside the image;
    then the iterator, over the image as it is, ends without a panic and
    gives the addresses those entries name, in order, and nothing else.
    Reading the table never panics and always ends. *)
Theorem relocations_exact image : bytes_ok image →
  match relocations image with
  | Ok r => announced image = Some (r_start r, r_end r) ∧
      ∃ blocks offs, slice image (r_start r) (r_end r) = Some blocks ∧ blocks_of (len image) blocks offs ∧
        collect (E:=Empty_set) (S (length image)) image (iter r) = Ok offs ∧ Forall (λ o, 0 ≤ o ∧ o + 8 ≤ len image) offs
  | Err _ => ∀ a b blocks offs, announced image = Some (a, b) → slice image a b = Some blocks → ¬ blocks_of (len image) blocks offs
  | _ => False
  end.
Proof.
  intros Hok. pose proof (relocations_answer image Hok) as Hr. destruct (relocations image) as [r|e| |]; [|done..].
  destruct Hr as (Ha & blocks & offs & Hs & Hb). split; [done|]. exists blocks, offs. split; [done|]. split; [done|].
  destruct (announced_inside _ _ _ Hok Ha) as (? & ? & ?). destruct (iter_left image r blocks offs ltac:(lia) Hs Hb) as [Hleft Hun].
  apply slice_inv in Hs as (_ & _ & Hl & _). apply (collect_left _ (r_start r) (r_end r)); [done|lia|]. unfold len in *. lia.
Qed.
End relocations.

(** ** Where the code is in memory *)
Section placed.
Import Pe Image.

Definition placed_at (base : Z) (x : Z * Z) : PhysRange := {| range_start := base + x.1; range_len := x.2 |}.
Definition fits_at (base : Z) (x : Z * Z) : Prop := base + x.1 + x.2 < 2 ^ 64.

Lemma place_one {E} base ranges i o n : 0 ≤ n →
  place_section (E:=E) base (Some ranges) (i, (o, n)) =
    if base + o + n <? 2 ^ 64 then ranges ← expect (set_index ranges i (placed_at base (o, n))); Ok (Some ranges) else Ok None.
Proof.
  intros Hn. unfold place_section, Addr.checked_add, checked_add.
  destruct (Z.ltb_spec (base + o) (2 ^ 64)), (Z.ltb_spec (base + o + n) (2 ^ 64)); [done|done|lia|done].
Qed.

Lemma place_sections_run {E} base l built : (length built + length l ≤ 4)%nat → Forall (λ x, 0 ≤ x.1 ∧ 0 ≤ x.2) l →
  ∃ r, foldM (E:=E) (place_section base) (Some (built ++ replicate (4 - length built) NO_RANGE)) (zip (seqZ (len built) (len l)) l) = Ok r ∧
    match r with
    | Some ranges => ranges = built ++ (placed_at base <$> l) ++ replicate (4 - length built - length l) NO_RANGE ∧ Forall (fits_at base) l
    | None => Exists (λ x, ¬ fits_at base x) l
    end.
Proof.
  intros Hl Hpos. revert built Hl. induction Hpos as [|[o n] l [Ho Hn] Hpos IH]; intros built Hl.
  { exists (Some (built ++ replicate (4 - length built) NO_RANGE)). split; [by destruct (seqZ _ _)|]. simpl. by rewrite Nat.sub_0_r. }
  rewrite len_cons. pose proof (len_nonneg l). rewrite (seqZ_cons (len built)) by lia. cbn [zip zip_with foldM]. simpl in Ho, Hn, Hl.
  replace (Z.pred (1 + len l)) with (len l) by lia. rewrite place_one by done.
  assert (∀ m, foldM (E:=E) (place_section base) None m = Ok None) as Hnone by (induction m as [|[? [??]] m IHm]; [done|exact IHm]).
  destruct (Z.ltb_spec (base + o + n) (2 ^ 64)) as [H2|H2].
  2:{ exists None. split; [apply Hnone|]. apply Exists_cons_hd. unfold fits_at. simpl. lia. }
  unfold set_index. rewrite (proj2 (Z.leb_le 0 _)) by apply len_nonneg.
  rewrite (proj2 (Z.ltb_lt (len built) _)) by (rewrite len_app, len_replicate; unfold len; lia). cbn [andb expect mbind res_bind].
  unfold len at 1. rewrite Nat2Z.id, insert_app_r_alt, Nat.sub_diag by lia.
  replace (4 - length built)%nat with (S (4 - length (built ++ [placed_at base (o, n)])))%nat by (rewrite length_app; simpl; lia).
  cbn [replicate]. change (<[0%nat:=?a]> (?b :: ?r)) with (a :: r). rewrite (cons_middle _ built). rewrite app_assoc.
  replace (Z.succ (len built)) with (len (built ++ [placed_at base (o, n)])) by (rewrite len_app; unfold len; simpl; lia).
  destruct (IH (built ++ [placed_at base (o, n)])) as (r & E1 & Hr); [rewrite length_app; simpl; lia|]. exists r. split; [exact E1|].
  destruct r as [ranges|]; [|by apply Exists_cons_tl]. destruct Hr as [-> Hall]. split; [|by constructor].
  rewrite fmap_cons, <-app_assoc. cbn [app length]. rewrite length_app. cbn [length]. do 4 f_equal.
Qed.

(** The sections of an image where the firmware put it: each at its offset
    from the base, or [None] if one of them runs past the last address. *)
Theorem code_placed {E} l base : (length l ≤ 4)%nat → Forall (λ x, 0 ≤ x.1 ∧ 0 ≤ x.2) l →
  ∃ r, at_base (E:=E) (kept l) base = Ok r ∧
    match r with
    | Some ranges => ranges_iter ranges = placed_at base <$> l ∧ Forall (fits_at base) l
    | None => Exists (λ x, ¬ fits_at base x) l
    end.
Proof.
  intros Hl Hpos. unfold at_base. rewrite iter_kept. destruct (place_sections_run (E:=E) base l [] Hl Hpos) as (r & Er & Hr).
  change (len []) with 0 in Er. cbn [app length] in Er. rewrite Nat.sub_0_r in Er. change (Z.to_nat MAX_CODE_SECTIONS) with 4%nat. rewrite Er. cbn [mbind res_bind].
  exists (option_map (λ ranges, {| cr_ranges := ranges; cr_len := cs_len (kept l) |}) r). split; [done|].
  destruct r as [ranges|]; [|done]. destruct Hr as [-> Hall]. split; [|done]. unfold ranges_iter. cbn [cr_len cr_ranges kept cs_len app].
  unfold len. rewrite Nat2Z.id. apply take_app_length'. by rewrite length_fmap.
Qed.
End placed.

(** ** An image with one code section, and one address to move *)
Definition sample_image : list Z :=
  foldl (λ image x, splice image (Z.to_nat x.1) x.2) (replicate 512 0)
    [(0x3C, le_encode 4 0x80); (0x80, Pe.SIGNATURE); (0x86, le_encode 2 2); (0x94, le_encode 2 224); (0x98, le_encode 2 0x20B);
     (0x130, le_encode 4 464); (0x134, le_encode 4 12);
     (376 + 8, le_encode 4 0x1000); (376 + 12, le_encode 4 0x3000); (376 + 36, le_encode 4 0xC0000040);
     (416 + 8, le_encode 4 0x2000); (416 + 12, le_encode 4 0x1000); (416 + 36, le_encode 4 0x60000020);
     (464, le_encode 4 0x100 ++ le_encode 4 12 ++ entry_bytes [0xA0F0; 0])].

Lemma sample_ok : bytes_ok sample_image.
Proof. refine (bool_decide_unpack _ _). vm_compute. exact I. Qed.

Lemma code_sections_exact_witness :
  ∃ c, Pe.code_sections sample_image = Ok c ∧ Pe.sections_iter c = [(0x1000, 0x2000)].
Proof.
  pose proof (code_sections_exact sample_image sample_ok) as Hc.
  assert (Image.pe_header sample_image = Some 0x80) as Hp by (vm_compute; reflexivity). rewrite Hp in Hc. cbv zeta in Hc.
  assert (Image.code_listed sample_image (Image.section_table sample_image 0x80) 0 (Z.min (Image.section_count sample_image 0x80)
    (Image.sections_held sample_image (Image.section_table sample_image 0x80))) = [(0x1000, 0x2000)]) as Hl by (vm_compute; reflexivity).
  rewrite Hl in Hc. exact Hc.
Defined.

Lemma relocations_exact_witness : ∃ r, Pe.relocations sample_image = Ok r ∧ Pe.r_start r = 464 ∧
  collect (E:=Empty_set) 513 sample_image (Pe.iter r) = Ok [0x1F0].
Proof.
  pose proof (relocations_exact sample_image sample_ok) as Hr.
  assert (∃ r, Pe.relocations sample_image = Ok r) as [r E] by (vm_compute; eexists; reflexivity). rewrite E in Hr.
  destruct Hr as [Ha _]. exists r. split; [exact E|].
  assert (announced sample_image = Some (464, 476)) as Ha' by (vm_compute; reflexivity). rewrite Ha' in Ha.
  assert (Pe.r_start r = 464 ∧ Pe.r_end r = 476) as [Hs He] by (injection Ha; auto). split; [exact Hs|].
  unfold Pe.iter. rewrite Hs, He. vm_compute. reflexivity.
Defined.
