(* ===== verification/HigherHalf.v ===== *)
(** * Moving the kernel to its own half: [kernel/src/memory/higher_half.rs]

    The image gets a second mapping in kernel space, with the rights of its
    sections, and then its relocations are applied in place.  The
    relocation table is part of the image: the iterator reads it from
    memory as it is after each write. *)

From S2P Require Import Prelude Words PhysMem FrameAlloc FrameAllocProofs FrameAllocThms Bytes Memory HalPaging PageTables PageWalk PageTree PageMap PageMapThms FramesZeroed Spaces PageThms FatFormat FatVolume FatPlace Stacks Process Load LoadProofs VirtioStart Pe.
Local Open Scope Z_scope.

Module Half.
Record Move := { mv_base : Z; mv_delta : Z; mv_pages : Z; mv_read_only : Z; mv_relocations : Z }.

Inductive MoveError :=
| Unaligned
| OutOfRange
| Mapping (e : MapError)
| InImage (e : Pe.PeError).

(** The bytes of a range of memory. *)
Definition image_bytes (m : Mem) (image : PhysRange) : list Z :=
  Ram.bytes m (range_start image) (Z.to_nat (range_len image)).

(** Whether a page of the image holds code, and nothing else. *)
Definition page_code (code : option Pe.CodeRanges) (frame : PhysFrame) : may (bool * bool) :=
  match code with
  | Some code =>
      let start := frame_start frame in
      end_ ← Addr.add start PAGE_SIZE;
      Ok (existsb (λ range, Range.overlaps range start end_) (Pe.ranges_iter code),
          existsb (λ range, Range.contains range start && (end_ <=? Range.end_ range)) (Pe.ranges_iter code))
  | None => Ok (true, false)
  end.

Section mapper.
Context {P : Type} `{PageMapper P KernelFrames} (mapper : P).

(** [for offset in (0..image.len).step_by(PAGE_SIZE)]. *)
Definition page_offsets (length : Z) : list Z := (λ i, i * PAGE_SIZE) <$> seqZ 0 (div_ceil length PAGE_SIZE).

Definition map_alias_page (base : Z) (image : PhysRange) (code : option Pe.CodeRanges) (mapped : Move) (offset : Z)
    : dev (Mem * KernelFrames) MoveError Move :=
  at_ ← Stacks.lift_may (Addr.add (range_start image) offset);
  let frame := Frame.containing_address at_ in
  at_ ← Stacks.lift_may (Addr.add base offset);
  let page := Pages.containing_address at_ in
  rights ← Stacks.lift_may (page_code code frame);
  let '(runs_code, only_code) := rights in
  let flags := Flags.kernel (negb only_code) runs_code in
  _ ← dev_map_err Mapping (map_page mapper page frame flags);
  _ ← infallible (Zeroed.label frame Kernel);
  mret {| mv_base := mv_base mapped; mv_delta := mv_delta mapped; mv_pages := wrap 64 (mv_pages mapped + 1);
          mv_read_only := wrap 64 (mv_read_only mapped + (if only_code then 1 else 0)); mv_relocations := mv_relocations mapped |}.

Definition map_alias (base : Z) (image : PhysRange) (code : option Pe.CodeRanges) (delta : Z) : dev (Mem * KernelFrames) MoveError Move :=
  for_in (page_offsets (range_len image)) (map_alias_page base image code)
    {| mv_base := base; mv_delta := delta; mv_pages := 0; mv_read_only := 0; mv_relocations := 0 |}.

(** One slot: [slot.write_unaligned(value.wrapping_add(delta))]. *)
Definition slide (start delta : Z) (m : Mem) (rva : Z) : Mem :=
  let slot := wrap 64 (start + rva) in
  Ram.write64 m slot (wrap 64 (Ram.read64 m slot + delta)).

Fixpoint apply_relocations (fuel : nat) (image : PhysRange) (delta : Z) (it : Pe.Iter) (applied : Z) : dev Mem MoveError Z :=
  match fuel with
  | O => λ m, (Diverge, m)
  | S fuel =>
      m ← get;
      next ← lift (Pe.iter_next (S (length (image_bytes m image))) (image_bytes m image) it);
      match next with
      | None => mret applied
      | Some (rva, it) =>
          _ ← lift (assert_ (rva + 8 <=? range_len image));
          _ ← modify (λ m, slide (range_start image) delta m rva);
          apply_relocations fuel image delta it (wrap 64 (applied + 1))
      end
  end.

Definition relocate (image : PhysRange) (delta : Z) : dev Mem MoveError Z :=
  m ← get;
  relocations ← lift (map_err InImage (Pe.relocations (image_bytes m image)));
  apply_relocations (S (length (image_bytes m image))) image delta (Pe.iter relocations) 0.

Definition prepare (base : Z) (image : PhysRange) (code : option Pe.CodeRanges) : dev (Mem * KernelFrames) MoveError Move :=
  if negb (Addr.is_aligned_to (range_start image) PAGE_SIZE) || negb (Addr.is_aligned_to base PAGE_SIZE) then lift (Err Unaligned)
  else if bool_decide (Addr.checked_add (range_start image) (range_len image) = None) || bool_decide (Addr.checked_add base (range_len image) = None)
  then lift (Err OutOfRange)
  else
    let delta := wrap 64 (base - range_start image) in
    mapped ← map_alias base image code delta;
    applied ← Stacks.on_mem (relocate image delta);
    mret {| mv_base := mv_base mapped; mv_delta := mv_delta mapped; mv_pages := mv_pages mapped;
            mv_read_only := mv_read_only mapped; mv_relocations := applied |}.
End mapper.

Definition moved (address : Z) (image : PhysRange) (mv : Move) : option Z :=
  if Range.contains image address then Some (wrap 64 (address + mv_delta mv)) else None.
End Half.

(** ** Relocating *)

(** Eight bytes of the image that are none of its relocation table. *)
Definition clear_of (a b o : Z) : Prop := o + 8 ≤ a ∨ b ≤ o.

(** Slots that do not overlap. *)
Fixpoint apart (offs : list Z) : Prop :=
  match offs with
  | [] => True
  | o :: offs => Forall (λ o', o + 8 ≤ o' ∨ o' + 8 ≤ o) offs ∧ apart offs
  end.

#[export] Instance apart_dec offs : Decision (apart offs).
Proof. induction offs; simpl; apply _. Defined.

(** Memory where every slot has moved by [delta], and nothing else. *)
Record moved_by (start delta : Z) (offs : list Z) (m m' : Mem) : Prop := {
  mb_slot o : o ∈ offs → Ram.read64 m' (start + o) = wrap 64 (Ram.read64 m (start + o) + delta);
  mb_rest p : (∀ o, o ∈ offs → p < start + o ∨ start + o + 8 ≤ p) → Ram.byte m' p = Ram.byte m p;
  mb_tlb : tlb m' = tlb m
}.

Section relocate.
Import Half.
Context (image : PhysRange) (delta : Z).
Local Abbreviation start := (range_start image).
Local Abbreviation L := (range_len image).
Hypothesis Hstart : 0 ≤ start.
Hypothesis Hlen : 0 ≤ L.
Hypothesis Hend : start + L ≤ 2 ^ 64.

Lemma length_image_bytes m : length (image_bytes m image) = Z.to_nat L.
Proof. apply Ram.length_bytes. Qed.
Lemma len_image_bytes m : len (image_bytes m image) = L.
Proof. unfold len. rewrite length_image_bytes. lia. Qed.

Lemma slot_address o : 0 ≤ o → o + 8 ≤ L → wrap 64 (start + o) = start + o.
Proof. intros Ho Hol. apply Z.mod_small. lia. Qed.

Lemma byte_slide m o p : 0 ≤ o → o + 8 ≤ L →
  p < start + o ∨ start + o + 8 ≤ p → Ram.byte (slide start delta m o) p = Ram.byte m p.
Proof.
  intros Ho Hol Hp. unfold slide, Ram.write64. rewrite slot_address, Ram.byte_write by done.
  unfold len. rewrite length_le_encode. by rewrite decide_False by lia.
Qed.

Lemma slide_wf m o : Ram.wf m → Ram.wf (slide start delta m o).
Proof. intros Hm. unfold slide. by apply Ram.write64_wf. Qed.

Lemma foldl_slide_wf offs m : Ram.wf m → Ram.wf (foldl (slide start delta) m offs).
Proof. revert m; induction offs as [|o offs IH]; intros m Hm; [done|]. by apply IH, slide_wf. Qed.

(** What the writes do, one after the other, to slots apart. *)
Lemma slides_move offs m : Forall (λ o, 0 ≤ o ∧ o + 8 ≤ L) offs → apart offs →
  moved_by start delta offs m (foldl (slide start delta) m offs).
Proof.
  intros Hall. revert m. induction Hall as [|o offs [Ho Hol] Hall IH]; intros m Hap; cbn [foldl].
  { split; [by intros ? ?%not_elem_of_nil|done|done]. }
  destruct Hap as [Hone Hap]. destruct (IH (slide start delta m o) Hap) as [Hs Hr Ht]. rewrite Forall_forall in Hone, Hall. split.
  - intros o' [->|Ho']%elem_of_cons.
    + rewrite <-(Ram.read64_write64_same m (start + o)) by (apply Z.mod_pos_bound; lia).
      unfold Ram.read64 at 1 2. f_equal. apply Ram.bytes_ext. intros i Hi. rewrite Hr.
      * unfold slide. by rewrite slot_address.
      * intros o' Ho'. specialize (Hone o' Ho'). lia.
    + rewrite Hs by done. do 2 f_equal. unfold Ram.read64. f_equal. apply Ram.bytes_ext. intros i Hi. apply byte_slide; [done|done|].
      specialize (Hone o' Ho'). lia.
  - intros p Hp. rewrite Hr by (intros o' Ho'; apply Hp; by right). apply byte_slide; [done|done|]. apply Hp. left.
  - by rewrite Ht.
Qed.

(** The table is as it was when nothing in it is written. *)
Lemma left_slide a b m it offs o : 0 ≤ a → b ≤ L → 0 ≤ o → o + 8 ≤ L → clear_of a b o →
  left_of L a b (image_bytes m image) it offs → left_of L a b (image_bytes (slide start delta m o) image) it offs.
Proof.
  intros Ha Hb Ho Hol Hc. apply left_stable; [by rewrite !length_image_bytes|]. intros i Hi. unfold image_bytes.
  rewrite !Ram.bytes_lookup by lia. f_equal. apply byte_slide; [done|done|]. unfold clear_of in Hc. lia.
Qed.

Lemma relocations_run a b offs (fuel : nat) it applied m : 0 ≤ a → b ≤ L → Forall (clear_of a b) offs →
  left_of L a b (image_bytes m image) it offs → unread it ≤ L → unread it < Z.of_nat fuel → 0 ≤ applied → applied + unread it < 2 ^ 64 →
  apply_relocations fuel image delta it applied m = (Ok (applied + len offs), foldl (slide start delta) m offs).
Proof.
  intros Ha Hb Hc. revert fuel it applied m. induction Hc as [|o offs Ho Hc IH]; intros fuel it applied m Hleft HL Hf H0 Hap.
  all: destruct fuel as [|fuel]; [destruct Hleft as [He Hbl _]; unfold unread in Hf; lia|]; cbn [apply_relocations].
  all: rewrite dev_bind_run; cbn [get]; rewrite dev_bind_run; unfold lift; rewrite length_image_bytes.
  all: pose proof (iter_next_left (E:=MoveError) L a b _ it _ (S (Z.to_nat L)) Hleft ltac:(lia)) as Hn.
  { rewrite Hn. cbn [foldl]. change (len []) with 0. by rewrite Z.add_0_r. }
  destruct Hn as (Ho0 & HoL & it' & -> & Hleft' & Hless). rewrite (proj2 (Z.leb_le (o + 8) _)) by exact HoL. rewrite !dev_bind_run. cbn [assert_ modify foldl].
  assert (0 ≤ unread it') by (destruct Hleft' as [He Hbl _]; unfold unread; lia).
  unfold wrap at 1. rewrite Z.mod_small by lia. rewrite (IH fuel it' (applied + 1)) by (try done; try lia; by apply (left_slide a b)).
  rewrite len_cons. do 2 f_equal. lia.
Qed.

(** It ends, whatever the writes make of the table. *)
Lemma relocations_end (fuel : nat) it applied m : Ram.wf m → ranges_ok it → unread it ≤ L → unread it < Z.of_nat fuel →
  (apply_relocations fuel image delta it applied m).1 ≠ Diverge.
Proof.
  revert it applied m. induction fuel as [|fuel IH]; intros it applied m Hm Hr HL Hf; [unfold ranges_ok, unread in *; lia|].
  cbn [apply_relocations]. rewrite dev_bind_run. cbn [get]. rewrite dev_bind_run. unfold lift. rewrite length_image_bytes.
  pose proof (iter_next_ends (E:=MoveError) (image_bytes m image) (S (Z.to_nat L)) it (Ram.bytes_byte_ok _ _ _ Hm) Hr ltac:(lia)) as Hn.
  destruct (Pe.iter_next _ _ _) as [[[o it']|]|e| |]; [|done..]. destruct Hn as [Hr' Hless]. destruct (o + 8 <=? _); [|done].
  rewrite !dev_bind_run. cbn [assert_ modify]. apply IH; [by apply slide_wf|done|lia|lia].
Qed.

(** What relocating does, by what the table is. *)
Lemma relocate_answer m : Ram.wf m →
  (relocate image delta m).1 ≠ Diverge ∧
  match Pe.relocations (image_bytes m image) with
  | Ok r => ∀ blocks offs, slice (image_bytes m image) (Pe.r_start r) (Pe.r_end r) = Some blocks → blocks_of L blocks offs →
      Forall (clear_of (Pe.r_start r) (Pe.r_end r)) offs →
      relocate image delta m = (Ok (len offs), foldl (slide start delta) m offs) ∧ Forall (λ o, 0 ≤ o ∧ o + 8 ≤ L) offs
  | Err e => relocate image delta m = (Err (InImage e), m)
  | _ => False
  end.
Proof.
  intros Hm. assert (bytes_ok (image_bytes m image)) as Hok by (by apply Ram.bytes_byte_ok).
  pose proof (relocations_answer _ Hok) as Hr. unfold relocate. rewrite dev_bind_run. cbn [get]. rewrite dev_bind_run. unfold lift.
  destruct (Pe.relocations (image_bytes m image)) as [r|e| |]; [|by split|done..]. cbn [map_err].
  destruct Hr as (Ha & blocks & offs & Hs & Hb). pose proof (announced_inside _ _ _ Hok Ha) as (H0 & H1 & H2). rewrite len_image_bytes in H2, Hb.
  pose proof (slice_inv _ _ _ _ Hs) as (_ & _ & Hl & _). rewrite length_image_bytes. split.
  - apply relocations_end; [done|unfold ranges_ok; simpl; lia|unfold unread; simpl; lia|unfold unread; simpl; lia].
  - intros blocks' offs' Hs' Hb' Hc. destruct (iter_left (image_bytes m image) r blocks' offs') as [Hleft Hun]; [lia|done|by rewrite len_image_bytes|].
    rewrite len_image_bytes in Hleft. pose proof (slice_inv _ _ _ _ Hs') as (_ & _ & Hl' & _). split.
    + rewrite (relocations_run (Pe.r_start r) (Pe.r_end r) offs') by (try done; lia). by rewrite Z.add_0_l.
    + apply (collect_left (E:=Empty_set) L (Pe.r_start r) (Pe.r_end r) (image_bytes m image) (Pe.iter r) offs' (S (Z.to_nat L))); [done|rewrite len_image_bytes; lia|lia].
Qed.
End relocate.

(** ** The alias *)
Definition alias_rights (code : option Pe.CodeRanges) (p : Z) : bool * bool :=
  match code with
  | Some code => (existsb (λ range, Range.overlaps range p (p + 4096)) (Pe.ranges_iter code),
                  existsb (λ range, (range_start range <=? p) && (p + 4096 <=? Range.end_ range)) (Pe.ranges_iter code))
  | None => (true, false)
  end.

(** What a page of the alias leads to: executable if there is code in the
    frame, writable unless there is nothing else in it. *)
Definition alias_of (code : option Pe.CodeRanges) (p : Z) : Access :=
  {| a_base := p; a_size := 4096; a_writable := negb (alias_rights code p).2; a_user := false; a_execute := (alias_rights code p).1 |}.

Lemma existsb_pointwise {A} (f g : A → bool) l : (∀ x, f x = g x) → existsb f l = existsb g l.
Proof. intros Hfg. induction l as [|x l IH]; [done|]. cbn [existsb]. by rewrite Hfg, IH. Qed.

Section alias.
Import Half.
Context (T : PageTables) (base start : Z) (code : option Pe.CodeRanges).
Hypothesis Hbase : KERNEL_SPACE_BASE ≤ base.
Hypothesis Hbase_al : base mod 4096 = 0.
Hypothesis Hstart : 0 ≤ start.
Hypothesis Hstart_al : start mod 4096 = 0.
Local Abbreviation Machine := (Mem * KernelFrames)%type.
Implicit Types s : Machine.

Lemma upper_va va : base ≤ va < 2 ^ 64 → same_half base va.
Proof.
  intros Hva. unfold KERNEL_SPACE_BASE in Hbase. split.
  - split; [unfold in_width; lia|]. unfold is_canonical. rewrite Z.shiftr_div_pow2 by lia. apply orb_true_iff. right.
    apply Z.eqb_eq. symmetry. apply (Z.div_unique _ _ _ (va - 0x1FFFF * 2 ^ 47)); lia.
  - by rewrite !half_kernel by (unfold KERNEL_SPACE_BASE; lia).
Qed.

Lemma keeps_half p q user s s' : half p = half q → keeps T p user s s' → keeps T q user s s'.
Proof.
  intros Hh [K1 K2 K3 K4 K5 K6]. unfold space_ok, elsewhere, coherent in *. rewrite Hh in *. by split.
Qed.

(** Writing down what a frame is for moves nothing. *)
Lemma label_run fr p m z : Frame.valid fr → space_ok T base (m, z) →
  ∃ held z', Zeroed.label fr p (m, z) = (Ok held, (m, z')) ∧ keeps T base false (m, z) (m, z').
Proof.
  intros Hfr Hs. pose proof (so_good _ _ _ _ Hs) as [Hz Hm]. destruct (label_spec (inner z) fr p (proj1 Hz) Hfr) as (held & a' & E & Hi & Henv & Hbm & _).
  exists held, (with_inner z a'). unfold Zeroed.label, Zeroed.with_bitmap. rewrite E. split; [done|].
  assert (kernel_frames_ok (with_inner z a')) as Hz'.
  { destruct Hz as (_ & H40 & Hb & Hw). split; [done|]. cbn [inner window with_inner]. by rewrite Hbm. }
  assert (∀ x, kernel_pool (with_inner z a') x ↔ kernel_pool z x) as Hpool.
  { intros x. unfold kernel_pool. cbn [inner with_inner]. by rewrite Hbm. }
  apply keeps_same_tree; [done| |done]. apply same_tree_idle; [apply half_range|done|].
  split; [by split|done|intros x; apply Hpool|done].
Qed.

(** One page of the image. *)
Lemma alias_page image mv i s : range_start image = start → 0 ≤ i → start + (i + 1) * 4096 ≤ 2 ^ 52 → base + (i + 1) * 4096 ≤ 2 ^ 64 →
  space_ok T base s →
  ∃ r s', map_alias_page T base image code mv (i * PAGE_SIZE) s = (r, s') ∧ keeps T base false s s' ∧
    (∀ va, same_half base va → va < base + i * 4096 ∨ base + (i + 1) * 4096 ≤ va → resolve (root T) s'.1 va = resolve (root T) s.1 va) ∧
    match r with
    | Ok mv' => mv' = {| mv_base := mv_base mv; mv_delta := mv_delta mv; mv_pages := wrap 64 (mv_pages mv + 1);
          mv_read_only := wrap 64 (mv_read_only mv + (if (alias_rights code (start + i * 4096)).2 then 1 else 0)); mv_relocations := mv_relocations mv |} ∧
        ∀ o, 0 ≤ o < 4096 → resolve (root T) s'.1 (base + i * 4096 + o) = Some (alias_of code (start + i * 4096))
    | Err (Mapping e) => e ≠ OutsideKernelSpace ∧ (e = AlreadyMapped → resolve (root T) s.1 (base + i * 4096) ≠ None)
    | _ => False
    end.
Proof.
  intros Himg Hi Hs Hb Hsp. unfold map_alias_page, Stacks.lift_may, PAGE_SIZE, FRAME_SIZE. rewrite Himg.
  assert ((start + i * 4096) mod 4096 = 0) as Hal by (by rewrite Z.mod_add).
  assert ((base + i * 4096) mod 4096 = 0) as Hbal by (by rewrite Z.mod_add).
  assert (Addr.add start (i * 4096) = Ok (start + i * 4096)) as ->.
  { unfold Addr.add, checked_add. rewrite (proj2 (Z.ltb_lt _ _)) by lia. done. }
  assert (Addr.add base (i * 4096) = Ok (base + i * 4096)) as ->.
  { unfold Addr.add, checked_add. rewrite (proj2 (Z.ltb_lt _ _)) by lia. done. }
  set (p := start + i * 4096) in *. set (va := base + i * 4096) in *. do 2 (rewrite dev_bind_run; unfold infallible at 1; cbn [dev_map_err lift map_err]).
  assert (Frame.containing_address p = {| frame_start := p |}) as -> by (unfold Frame.containing_address, FRAME_SIZE; rewrite Hal; f_equal; lia).
  assert (Pages.containing_address va = {| page_start := va |}) as -> by (unfold Pages.containing_address, PAGE_SIZE, FRAME_SIZE; rewrite Hbal; f_equal; lia).
  assert (page_code code {| frame_start := p |} = Ok (alias_rights code p)) as Hcode.
  { unfold page_code, alias_rights. destruct code as [c|]; [|done]. cbn [frame_start]. unfold Addr.add, checked_add, PAGE_SIZE, FRAME_SIZE.
    rewrite (proj2 (Z.ltb_lt _ _)) by lia. cbn [expect mbind res_bind]. do 2 f_equal. apply existsb_pointwise. intros range.
    unfold Range.contains. destruct (Z.leb_spec (range_start range) p), (Z.ltb_spec p (Range.end_ range)), (Z.leb_spec (p + 4096) (Range.end_ range)); try done; lia. }
  rewrite dev_bind_run, Hcode. unfold infallible at 1. cbn [dev_map_err lift map_err]. unfold alias_of. destruct (alias_rights code p) as [runs only]. cbn [fst snd].
  assert (same_half base va) as Hva by (apply upper_va; lia).
  assert (table_ok p) as Hp by (split; [lia|done]).
  destruct (map_facts T va {| frame_start := p |} (Flags.kernel (negb only) runs) s (proj1 Hva) Hbal Hp) as (r & s1 & E & Hk & Ha).
  { unfold space_ok. by rewrite (proj2 Hva). }
  apply (keeps_half va base) in Hk; [|apply Hva]. cbn [Flags.kernel f_user] in Hk.
  rewrite dev_bind_run. unfold dev_map_err at 1. cbn [map_page kernel_mapper page_start]. rewrite E.
  assert (∀ v, v < va ∨ base + (i + 1) * 4096 ≤ v → v / 4096 ≠ va / 4096) as Hne.
  { intros v Hv He. pose proof (Z.div_mod v 4096 ltac:(lia)). pose proof (Z.mod_pos_bound v 4096 ltac:(lia)).
    pose proof (Z.div_mod va 4096 ltac:(lia)). lia. }
  assert (∀ v, same_half base v → same_half va v) as Hsame by (intros v [Hv Hh]; split; [done|]; by rewrite (proj2 Hva)).
  destruct r as [[]|e| |]; [| |done..]; cbn [map_err].
  - destruct Ha as (_ & _ & Hres). destruct s1 as [m1 z1].
    destruct (label_run {| frame_start := p |} Kernel m1 z1) as (held & z2 & El & Hk2); [split; [unfold in_width; simpl; lia|done]|apply Hk|].
    rewrite dev_bind_run, (infallible_run _ _ _ _ El). eexists _, _. split; [reflexivity|].
    split; [by eapply keeps_trans|]. cbn [fst]. split.
    + intros v Hv Hout. cbn [fst] in Hres. rewrite Hres by auto. rewrite decide_False by auto. done.
    + split; [done|]. intros o Ho. cbn [fst] in Hres. rewrite Hres by (apply Hsame, upper_va; lia). rewrite decide_True; [done|].
      symmetry. apply (Z.div_unique _ _ _ o); [lia|]. rewrite (Z.div_mod va 4096) at 1 by lia. lia.
  - destruct Ha as (Hres & Hout & Halready). exists (Err (Mapping e)), s1. split; [done|]. split; [done|]. split; [by intros v Hv _; apply Hres, Hsame|].
    split; [|done]. intros Ho%Hout. apply Ho. cbn [Flags.kernel f_user]. rewrite (proj2 (Z.ltb_ge _ _)); [done|lia].
Qed.

(** How many of [n] pages from the [k]-th hold only code. *)
Definition only_code_pages (k n : Z) : Z := len (filter (λ i, (alias_rights code (start + i * 4096)).2 = true) (seqZ k n)).

Lemma only_code_S k n : 0 < n → only_code_pages k n = (if (alias_rights code (start + k * 4096)).2 then 1 else 0) + only_code_pages (k + 1) (n - 1).
Proof.
  intros Hn. unfold only_code_pages. rewrite (seqZ_cons k n) by done. rewrite filter_cons.
  replace (Z.succ k) with (k + 1) by lia. replace (Z.pred n) with (n - 1) by lia.
  destruct (alias_rights code (start + k * 4096)).2; [rewrite decide_True by done; apply len_cons|by rewrite decide_False].
Qed.

(** The pages from the [k]-th on. *)
Lemma alias_run image (n : nat) k mv s : range_start image = start → 0 ≤ k → start + (k + Z.of_nat n) * 4096 ≤ 2 ^ 52 →
  base + (k + Z.of_nat n) * 4096 ≤ 2 ^ 64 →
  0 ≤ mv_pages mv → mv_pages mv + Z.of_nat n < 2 ^ 64 → 0 ≤ mv_read_only mv → mv_read_only mv + Z.of_nat n < 2 ^ 64 → space_ok T base s →
  ∃ r s', for_in ((λ i, i * PAGE_SIZE) <$> seqZ k (Z.of_nat n)) (map_alias_page T base image code) mv s = (r, s') ∧ keeps T base false s s' ∧
    (∀ va, same_half base va → va < base + k * 4096 ∨ base + (k + Z.of_nat n) * 4096 ≤ va → resolve (root T) s'.1 va = resolve (root T) s.1 va) ∧
    match r with
    | Ok mv' => (mv_base mv', mv_delta mv', mv_relocations mv') = (mv_base mv, mv_delta mv, mv_relocations mv) ∧
        mv_pages mv' = mv_pages mv + Z.of_nat n ∧ mv_read_only mv' = mv_read_only mv + only_code_pages k (Z.of_nat n) ∧
        ∀ i o, k ≤ i < k + Z.of_nat n → 0 ≤ o < 4096 → resolve (root T) s'.1 (base + i * 4096 + o) = Some (alias_of code (start + i * 4096))
    | Err (Mapping e) => e ≠ OutsideKernelSpace ∧
        (e = AlreadyMapped → ∃ i, k ≤ i < k + Z.of_nat n ∧ resolve (root T) s.1 (base + i * 4096) ≠ None)
    | _ => False
    end.
Proof.
  intros Himg. revert k mv s. induction n as [|n IH]; intros k mv s Hk Hs Hb Hp0 Hpn Hr0 Hrn Hsp.
  { exists (Ok mv), s. split; [done|]. split; [by apply keeps_refl|]. split; [done|]. unfold only_code_pages. simpl. rewrite !Z.add_0_r.
    split_and!; try done. intros. lia. }
  rewrite (seqZ_cons k) by lia. rewrite fmap_cons. cbn [for_in].
  replace (Z.succ k) with (k + 1) by lia. replace (Z.pred (Z.of_nat (S n))) with (Z.of_nat n) by lia.
  destruct (alias_page image mv k s Himg Hk ltac:(lia) ltac:(lia) Hsp) as (r & s1 & E & Hk1 & Hout & Ha).
  rewrite dev_bind_run, E. destruct r as [mv1|e| |]; [| |done..].
  2:{ exists (Err e), s1. split; [done|]. split; [done|]. split; [intros va Hva Hd; apply Hout; [done|lia]|].
      destruct e; try done. destruct Ha as [Hne Hal]. split; [done|]. intros He. exists k. split; [lia|auto]. }
  destruct Ha as [-> Hmap]. set (b := if (alias_rights code (start + k * 4096)).2 then 1 else 0).
  assert (0 ≤ b ≤ 1) by (unfold b; destruct (alias_rights _ _).2; lia).
  assert (wrap 64 (mv_pages mv + 1) = mv_pages mv + 1) as -> by (apply Z.mod_small; lia).
  assert (wrap 64 (mv_read_only mv + b) = mv_read_only mv + b) as -> by (apply Z.mod_small; lia).
  match goal with |- context [for_in _ _ ?x _] => destruct (IH (k + 1) x s1) as (r & s2 & E2 & Hk2 & Hout2 & Ha2) end;
    [lia|lia|lia|simpl; lia..|apply Hk1|].
  exists r, s2. split; [exact E2|]. split; [by eapply keeps_trans|]. split.
  { intros va Hva Hd. rewrite Hout2, Hout by (done || lia). done. }
  destruct r as [mv'|[]| |]; try done.
  - destruct Ha2 as (Hf & Hpg & Hro & Hres). simpl in Hf, Hpg, Hro. split_and!; [done|lia| |].
    + rewrite Hro, (only_code_S k (Z.of_nat (S n))) by lia. fold b. replace (Z.of_nat (S n) - 1) with (Z.of_nat n) by lia. lia.
    + intros i o Hi Ho. destruct (decide (i = k)) as [->|]; [|apply Hres; lia].
      rewrite Hout2 by (try apply upper_va; lia). by apply Hmap.
  - destruct Ha2 as [Hne Hal]. split; [done|]. intros He. destruct (Hal He) as (i & Hi & Hres). exists i. split; [lia|].
    rewrite <-Hout; [done|apply upper_va; lia|lia].
Qed.
End alias.

(** ** The whole move *)
Section prepare.
Import Half.
Context (T : PageTables) (base : Z) (image : PhysRange) (code : option Pe.CodeRanges).
Local Abbreviation start := (range_start image).
Local Abbreviation L := (range_len image).
Local Abbreviation Machine := (Mem * KernelFrames)%type.
Implicit Types s : Machine.

Definition alias_pages : Z := div_ceil L 4096.
Definition image_frame (u : Z) : Prop := start ≤ u < start + alias_pages * 4096.

(** The image's frames are neither tables nor free. *)
Definition image_held (s : Machine) : Prop :=
  ∀ u, table_ok u → image_frame u → ¬ kernel_pool s.2 u ∧ u ∉ tree (look s.1) (half base) 3 (root T).

(** No slot is in the relocation table, and no two overlap. *)
Definition table_apart (bytes : list Z) : Prop :=
  ∀ a b blocks offs, announced bytes = Some (a, b) → slice bytes a b = Some blocks → blocks_of (len bytes) blocks offs →
    Forall (clear_of a b) offs ∧ apart offs.

(** The image's own bytes, moved: every slot by [delta], nothing else. *)
Record image_moved (delta : Z) (offs : list Z) (m m' : Mem) : Prop := {
  im_slot o : o ∈ offs → Ram.read64 m' (start + o) = wrap 64 (Ram.read64 m (start + o) + delta);
  im_rest p : start ≤ p < start + L → (∀ o, o ∈ offs → p < start + o ∨ start + o + 8 ≤ p) → Ram.byte m' p = Ram.byte m p
}.

Hypothesis Hstart : 0 ≤ start.
Hypothesis Hlen : 0 ≤ L.
Hypothesis Hend : start + L ≤ 2 ^ 52.
Hypothesis Hbase : KERNEL_SPACE_BASE ≤ base < 2 ^ 64.

Lemma pages_cover : L ≤ alias_pages * 4096 < L + 4096 ∧ 0 ≤ alias_pages.
Proof.
  unfold alias_pages. split; [|apply div_ceil_nonneg; lia]. split; [by apply div_ceil_spec|].
  destruct (Z.lt_ge_cases (div_ceil L 4096 * 4096) (L + 4096)); [done|].
  pose proof (proj2 (div_ceil_spec L 4096 (div_ceil L 4096 - 1) ltac:(lia))). lia.
Qed.

(** The pages of a range that ends before an aligned address do too. *)
Lemma pages_within b top : b mod 4096 = 0 → top mod 4096 = 0 → b + L ≤ top → b + alias_pages * 4096 ≤ top.
Proof.
  intros Hb Ht Hl. unfold alias_pages. pose proof (Z.div_mod b 4096 ltac:(lia)). pose proof (Z.div_mod top 4096 ltac:(lia)).
  assert (div_ceil L 4096 ≤ top / 4096 - b / 4096) by (apply div_ceil_spec; lia). lia.
Qed.

(** What only tables and free frames have seen leaves the image alone. *)
Lemma image_kept s s' p : image_held s → start mod 4096 = 0 → space_ok T base s → keeps T base false s s' → start ≤ p < start + L → Ram.byte s'.1 p = Ram.byte s.1 p.
Proof.
  intros Hheld Hal Hs Hk Hp. destruct pages_cover as [Hc _]. set (u := p - p mod 4096).
  pose proof (Z.div_mod p 4096 ltac:(lia)) as Hd. pose proof (Z.mod_pos_bound p 4096 ltac:(lia)).
  pose proof (Z.div_mod start 4096 ltac:(lia)).
  assert (u mod 4096 = 0) as Hu by (unfold u; replace (p - p mod 4096) with (p / 4096 * 4096) by lia; by apply Z.mod_mul).
  assert (table_ok u) as Hok by (split; [unfold u; lia|done]).
  destruct (Hheld u Hok) as [Hpool Htree]; [unfold image_frame, u; lia|].
  replace p with (u + p mod 4096) by (unfold u; lia). apply byte_same; [apply Hs|apply Hk| |lia].
  intros j Hj. apply (k_elsewhere _ _ _ _ _ Hk). split_and!; [done|lia|lia|done|by left].
Qed.

Lemma image_bytes_kept s s' : image_held s → start mod 4096 = 0 → space_ok T base s → keeps T base false s s' → image_bytes s'.1 image = image_bytes s.1 image.
Proof. intros Hheld Hal Hs Hk. apply Ram.bytes_ext. intros i Hi. apply (image_kept s); try done. lia. Qed.

Lemma image_still_held s s' : image_held s → keeps T base false s s' → image_held s'.
Proof.
  intros Hheld Hk u Hu Hi. destruct (Hheld u Hu Hi) as [Hp Ht]. split; [by intros ?%(k_pool _ _ _ _ _ Hk)|].
  intros [?|?]%(k_grow _ _ _ _ _ Hk); done.
Qed.

(** Writing in the image moves no translation. *)
Lemma image_written s (m' : Mem) : image_held s → start mod 4096 = 0 → space_ok T base s → Ram.wf m' → tlb m' = tlb s.1 →
  (∀ p, p < start ∨ start + L ≤ p → Ram.byte m' p = Ram.byte s.1 p) →
  (∀ u j, table_ok u → 0 ≤ j < 512 → ¬ image_frame u → look m' u j = look s.1 u j) ∧ space_ok T base (m', s.2) ∧
  (∀ va, same_half base va → resolve (root T) m' va = resolve (root T) s.1 va) ∧ (coherent (root T) base s.1 → coherent (root T) base m').
Proof.
  intros Hheld Hal Hs Hwf Htlb Hout. destruct pages_cover as [Hc _].
  assert (∀ u j, table_ok u → 0 ≤ j < 512 → ¬ image_frame u → look m' u j = look s.1 u j) as Hlook.
  { intros u j [Hu Hual] Hj Hni. unfold read_entry, entry_at, Ram.read64. f_equal. apply Ram.bytes_ext. intros i Hi. apply Hout.
    unfold image_frame in Hni. pose proof (Z.div_mod start 4096 ltac:(lia)). pose proof (Z.div_mod u 4096 ltac:(lia)). lia. }
  assert (∀ x j, x ∈ tree (look s.1) (half base) 3 (root T) → 0 ≤ j < 512 → (x = root T → j ∈ half base) → look m' x j = look s.1 x j) as Htree.
  { intros x j Hx Hj _. assert (table_ok x) as Hxok by (by eapply tree_ok). apply Hlook; [done|done|]. intros Hi. by destruct (Hheld x Hxok Hi). }
  assert (∀ j, j ∈ half base → 0 ≤ j < 512) as Hrange.
  { intros j Hj. pose proof (half_range base) as Hall. rewrite Forall_forall in Hall. by apply Hall. }
  assert (good (m', s.2)) as Hg by (split; [apply Hs|done]).
  assert (∀ va, same_half base va → resolve (root T) m' va = resolve (root T) s.1 va) as Hres.
  { intros va [Hva Hh]. unfold resolve. destruct (is_canonical va); [|done].
    apply (frame_access (half base) 2 (root T) s (m', s.2)); try done; [apply table_indices_ok|]. rewrite <-Hh. by apply first_in_half. }
  split; [done|]. split; [|split; [done|]].
  - apply (frame_sound (half base) 2 (root T) s (m', s.2)); done.
  - apply (coherent_same _ _ _ _ (λ _, True)); [rewrite Htlb; auto|]. intros va Hva Hh _. by apply Hres.
Qed.

(** An address of the image, after the move. *)
Lemma moved_inside address mv : base + L < 2 ^ 64 → mv_delta mv = wrap 64 (base - start) → start ≤ address < start + L →
  moved address image mv = Some (base + (address - start)).
Proof.
  intros Hb Hd Ha. unfold moved, Range.contains, Range.end_, Addr.checked_add, checked_add.
  rewrite (proj2 (Z.ltb_lt (start + L) (2 ^ 64))), (proj2 (Z.leb_le _ _)), (proj2 (Z.ltb_lt _ _)) by lia. cbn [andb]. f_equal. rewrite Hd. unfold wrap.
  rewrite Zplus_mod_idemp_r. replace (address + (base - start)) with (base + (address - start)) by lia. apply Z.mod_small. unfold KERNEL_SPACE_BASE in Hbase. lia.
Qed.

(** What [prepare] answers. *)
Definition prepare_answer (s s' : Machine) (r : res MoveError Move) : Prop :=
  match r with
  | Ok mv =>
      (∀ i o, 0 ≤ i < alias_pages → 0 ≤ o < 4096 → resolve (root T) s'.1 (base + i * 4096 + o) = Some (alias_of code (start + i * 4096))) ∧
      ∃ a b blocks offs, announced (image_bytes s.1 image) = Some (a, b) ∧ slice (image_bytes s.1 image) a b = Some blocks ∧ blocks_of L blocks offs ∧
        image_moved (wrap 64 (base - start)) offs s.1 s'.1 ∧
        mv = {| mv_base := base; mv_delta := wrap 64 (base - start); mv_pages := alias_pages;
                mv_read_only := only_code_pages start code 0 alias_pages; mv_relocations := len offs |} ∧
        ∀ address, start ≤ address < start + L → moved address image mv = Some (base + (address - start))
  | Err Unaligned => s' = s ∧ (start mod 4096 ≠ 0 ∨ base mod 4096 ≠ 0)
  | Err OutOfRange => s' = s ∧ 2 ^ 64 ≤ base + L
  | Err (Mapping e) => image_bytes s'.1 image = image_bytes s.1 image ∧ e ≠ OutsideKernelSpace ∧
      (e = AlreadyMapped → ∃ i, 0 ≤ i < alias_pages ∧ resolve (root T) s.1 (base + i * 4096) ≠ None)
  | Err (InImage e) => image_bytes s'.1 image = image_bytes s.1 image ∧ Pe.relocations (image_bytes s.1 image) = Err e
  | _ => False
  end.

(** The two steps, in a state where the guards have passed. *)
Lemma prepare_steps s : start mod 4096 = 0 → base mod 4096 = 0 → base + L < 2 ^ 64 → space_ok T base s → image_held s →
  table_apart (image_bytes s.1 image) →
  ∃ r s', (mapped ← map_alias T base image code (wrap 64 (base - start));
           applied ← Stacks.on_mem (relocate image (wrap 64 (base - start)));
           mret {| mv_base := mv_base mapped; mv_delta := mv_delta mapped; mv_pages := mv_pages mapped;
                   mv_read_only := mv_read_only mapped; mv_relocations := applied |}) s = (r, s') ∧
    space_ok T base s' ∧ (coherent (root T) base s.1 → coherent (root T) base s'.1) ∧
    (∀ va, same_half base va → va < base ∨ base + alias_pages * 4096 ≤ va → resolve (root T) s'.1 va = resolve (root T) s.1 va) ∧
    (∀ u j, elsewhere T base s u j → ¬ image_frame u → look s'.1 u j = look s.1 u j) ∧ prepare_answer s s' r.
Proof.
  intros Hal Hbal Hover Hs Hheld Hapart. destruct pages_cover as [Hcov Hn0]. set (delta := wrap 64 (base - start)).
  pose proof (pages_within start (2 ^ 52) Hal eq_refl Hend) as Hpi. pose proof (pages_within base (2 ^ 64) Hbal eq_refl ltac:(lia)) as Hpb.
  unfold map_alias, page_offsets. fold alias_pages. change (div_ceil L PAGE_SIZE) with alias_pages.
  destruct (alias_run T base start code (proj1 Hbase) Hbal Hstart Hal image (Z.to_nat alias_pages) 0
    {| mv_base := base; mv_delta := delta; mv_pages := 0; mv_read_only := 0; mv_relocations := 0 |} s eq_refl) as (r & s1 & E & Hk & Hout & Ha);
    [lia|lia|lia|simpl; lia..|done|].
  rewrite Z2Nat.id in E, Hout, Ha by done. rewrite Z.add_0_l in Hout. pose proof (image_bytes_kept _ _ Hheld Hal Hs Hk) as Himg.
  rewrite dev_bind_run. rewrite E. destruct r as [mv|e| |]; [| |done..].
  2:{ exists (Err e), s1. split; [done|]. split; [apply Hk|]. split; [apply Hk|]. split; [intros va Hva Hd; apply Hout; [done|lia]|].
      split; [intros u j Hel _; by apply (k_elsewhere _ _ _ _ _ Hk)|]. destruct e; try done. }
  destruct Ha as (Hf & Hpages & Hro & Hres). cbn [mv_base mv_delta mv_pages mv_read_only mv_relocations] in Hf, Hpages, Hro.
  pose proof (so_good _ _ _ _ (k_ok _ _ _ _ _ Hk)) as [_ Hwf].
  assert (start + L ≤ 2 ^ 64) as H64 by lia.
  destruct (relocate_answer image delta Hstart Hlen H64 s1.1 Hwf) as [_ Hrel].
  pose proof (relocations_answer (image_bytes s1.1 image) (Ram.bytes_byte_ok _ _ _ Hwf)) as Hra.
  rewrite dev_bind_run. unfold Stacks.on_mem. destruct (Pe.relocations (image_bytes s1.1 image)) as [rel|e| |] eqn:Erel; [| |done..].
  2:{ rewrite Hrel. exists (Err (InImage e)), (s1.1, s1.2). split; [done|]. split; [rewrite <-surjective_pairing; apply Hk|]. split; [apply Hk|].
      split; [intros va Hva Hd; apply Hout; [done|lia]|]. split; [intros u j Hel _; by apply (k_elsewhere _ _ _ _ _ Hk)|].
      split; [done|]. by rewrite <-Himg. }
  destruct Hra as (Hann & blocks & offs & Hsl & Hbl). rewrite Himg in Hann, Hsl, Hbl, Hrel. destruct (Hapart _ _ _ _ Hann Hsl Hbl) as [Hclear Hap].
  rewrite len_image_bytes in Hbl by done.
  destruct (Hrel blocks offs Hsl Hbl Hclear) as [-> Hin]. cbn [fst snd].
  destruct (slides_move image delta Hstart H64 offs s1.1 Hin Hap) as [Hslot Hrest Htlb]. set (m' := foldl _ _ _) in *.
  assert (∀ o, o ∈ offs → 0 ≤ o ∧ o + 8 ≤ L) as Hin' by (by apply Forall_forall).
  destruct (image_written s1 m') as (Hlook & Hs' & Hres' & Hcoh);
    [by eapply image_still_held|done|apply Hk|by apply foldl_slide_wf|done|intros p Hp; apply Hrest; intros o Ho; specialize (Hin' o Ho); lia|].
  eexists _, (m', s1.2). split; [reflexivity|]. split; [done|]. split; [intros Hc; by apply Hcoh, Hk|].
  split; [intros va Hva Hd; cbn [fst]; rewrite Hres' by done; apply Hout; [done|lia]|].
  split; [intros u j Hel Hni; cbn [fst]; rewrite Hlook by (try apply Hel; done); by apply (k_elsewhere _ _ _ _ _ Hk)|].
  split; cbn [fst].
  - intros i o Hi Ho. rewrite Hres' by (apply upper_va; [lia|lia]). apply Hres; lia.
  - exists (Pe.r_start rel), (Pe.r_end rel), blocks, offs. split_and!; [done|done|done| | |].
    + assert (∀ p, start ≤ p < start + L → Ram.byte s1.1 p = Ram.byte s.1 p) as Hsame by (intros p Hp; by apply image_kept).
      split.
      * intros o Ho. rewrite Hslot by done. do 2 f_equal. unfold Ram.read64. f_equal. apply Ram.bytes_ext. intros i Hi. apply Hsame. specialize (Hin' o Ho). lia.
      * intros p Hp Hd. rewrite Hrest by done. by apply Hsame.
    + injection Hf as -> -> _. rewrite Hpages, Hro. by rewrite !Z.add_0_l.
    + intros address Haddr. injection Hf as _ -> _. by apply moved_inside.
Qed.

(** C35: Moving the kernel to its own half.  Over an address space in order,
    with an image whose frames are neither tables nor free and whose
    relocation table names no byte of itself and no byte twice, [prepare]
    never panics and ends.  [Ok]: every page of the alias leads to the page of
    the image it stands for, executable only with code in it and writable
    unless there is nothing else in it, the kernel's own in any case; every
    slot of the table has moved by the difference of the two addresses, once,
    every other byte of the image is as it was, and the counts and [moved]
    are right.  An error is refused for its reason and has changed no byte of
    the image.  In any case translations of the kernel's half outside the
    alias, and memory that is neither tables, free nor the image, are as they
    were, and what is cached stays true. *)
Theorem prepare_exact s : space_ok T base s → image_held s → table_apart (image_bytes s.1 image) →
  ∃ r s', prepare T base image code s = (r, s') ∧
    space_ok T base s' ∧ (coherent (root T) base s.1 → coherent (root T) base s'.1) ∧
    (∀ va, same_half base va → va < base ∨ base + alias_pages * 4096 ≤ va → resolve (root T) s'.1 va = resolve (root T) s.1 va) ∧
    (∀ u j, elsewhere T base s u j → ¬ image_frame u → look s'.1 u j = look s.1 u j) ∧ prepare_answer s s' r.
Proof.
  intros Hs Hheld Hapart. unfold prepare, Addr.is_aligned_to, is_multiple_of, PAGE_SIZE, FRAME_SIZE.
  destruct (Z.eqb_spec (start mod 4096) 0) as [Hal|Hal]; [|exists (Err Unaligned), s; split_and!; try done; (split; [done|by left])].
  destruct (Z.eqb_spec (base mod 4096) 0) as [Hbal|Hbal]; [|exists (Err Unaligned), s; split_and!; try done; (split; [done|by right])]. cbn [negb orb].
  assert (bool_decide (Addr.checked_add start L = None) = false) as ->.
  { apply bool_decide_eq_false. unfold Addr.checked_add, checked_add. by rewrite (proj2 (Z.ltb_lt _ _)) by lia. }
  destruct (bool_decide_reflect (Addr.checked_add base L = None)) as [Hov|Hov]; unfold Addr.checked_add, checked_add in Hov;
    destruct (Z.ltb_spec (base + L) (2 ^ 64)); try done; cbn [orb].
  - exists (Err OutOfRange), s. split_and!; try done.
  - by apply prepare_steps.
Qed.
End prepare.

(** ** An image moved *)
Definition image_at (p : Z) (l : list Z) : PhysRange := {| range_start := p; range_len := len l |}.

(** The slots of the image of [Pe] are the one its table names. *)
Lemma sample_apart : table_apart sample_image.
Proof.
  intros a b blocks offs Ha Hs Hb. assert (announced sample_image = Some (464, 476)) as Ha' by (vm_compute; reflexivity).
  rewrite Ha' in Ha. injection Ha as <- <-.
  destruct (iter_left sample_image {| Pe.r_start := 464; Pe.r_end := 476 |} blocks offs) as [Hleft Hun]; [done|done|done|].
  apply slice_inv in Hs as (_ & _ & Hl & _). assert (len sample_image = 512) as H512 by (vm_compute; reflexivity).
  destruct (collect_left (E:=Empty_set) _ _ _ _ _ _ 513 Hleft) as [Hc _]; [rewrite H512; lia|rewrite Hun, Hl; done|].
  assert (collect (E:=Empty_set) 513 sample_image (Pe.iter {| Pe.r_start := 464; Pe.r_end := 476 |}) = Ok [0x1F0]) as Hc' by (vm_compute; reflexivity).
  rewrite Hc' in Hc. injection Hc as <-. split; [|split; [constructor|done]]. constructor; [right; done|constructor].
Qed.

Definition sample_range : PhysRange := image_at 0x5000 sample_image.
Definition sample_code : option Pe.CodeRanges :=
  Some {| Pe.cr_ranges := [{| range_start := 0x5000; range_len := 0x1000 |}]; Pe.cr_len := 1 |}.
Definition loaded : Mem * KernelFrames := (Ram.write boot.1 0x5000 sample_image, boot.2).
Definition sample_base : Z := 0xFFFF818000000000.

Lemma sample_length : length sample_image = 512%nat.
Proof. vm_compute. reflexivity. Qed.

Lemma boot_held : image_held boot_tables sample_base sample_range boot.
Proof.
  intros u [Hu Hal] Hi. unfold image_frame, alias_pages, sample_range, image_at in Hi. cbn [range_start range_len] in Hi.
  assert (div_ceil (len sample_image) 4096 = 1) as E by (vm_compute; reflexivity). rewrite E in Hi.
  assert (u = 0x5000) as ->. { pose proof (Z.div_mod u 4096 ltac:(lia)). lia. }
  split; [|vm_compute; by intros ?%list_elem_of_singleton].
  intros (f & Hf & He). unfold FRAME_SIZE in He. assert (f = 5) as -> by lia. revert Hf. apply (bool_decide_unpack (5 ∉ _)). vm_compute. exact I.
Qed.

Lemma boot_half : space_ok boot_tables sample_base boot.
Proof. unfold space_ok. rewrite half_kernel by done. exact boot_sound. Qed.

Lemma loaded_ok : space_ok boot_tables sample_base loaded ∧ image_held boot_tables sample_base sample_range loaded ∧
  Half.image_bytes loaded.1 sample_range = sample_image.
Proof.
  assert (Half.image_bytes loaded.1 sample_range = sample_image) as Himg.
  { unfold Half.image_bytes, sample_range, image_at, loaded. cbn [range_start range_len fst]. unfold len. rewrite Nat2Z.id. apply Ram.bytes_write_same. }
  assert (Ram.wf loaded.1) as Hwf by (apply Ram.write_wf; [apply boot_good|exact sample_ok]).
  assert (range_len sample_range = 512) as Hl by (change (len sample_image = 512); unfold len; by rewrite sample_length).
  assert (range_start sample_range = 0x5000) as Hst by reflexivity.
  assert (∀ p, p < range_start sample_range ∨ range_start sample_range + range_len sample_range ≤ p → Ram.byte loaded.1 p = Ram.byte boot.1 p) as Hout.
  { intros p Hp. unfold loaded. cbn [fst]. rewrite Ram.byte_write, decide_False; [reflexivity|]. rewrite Hl, Hst in Hp. unfold len. rewrite sample_length. lia. }
  assert (0 ≤ range_len sample_range) as H0 by (rewrite Hl; lia).
  destruct (image_written boot_tables sample_base sample_range H0 boot loaded.1 boot_held eq_refl boot_half Hwf eq_refl Hout) as (Hlook & Hs & _ & _).
  split; [exact Hs|]. split; [|exact Himg]. intros u Hu Hi. destruct (boot_held u Hu Hi) as [Hp Ht]. split; [exact Hp|].
  intros Hin. apply Ht. revert Hin.
  assert (tree (look loaded.1) (half sample_base) 3 (root boot_tables) = tree (look boot.1) (half sample_base) 3 (root boot_tables)) as -> by (vm_compute; reflexivity).
  intros Hin. exact Hin.
Qed.

Lemma prepare_exact_witness :
  ∃ mv s', Half.prepare boot_tables sample_base sample_range sample_code loaded = (Ok mv, s') ∧
    resolve 0x1000 s'.1 (sample_base + 0x1F0) =
      Some {| a_base := 0x5000; a_size := 4096; a_writable := false; a_user := false; a_execute := true |} ∧
    (∃ b offs, image_moved sample_range b offs loaded.1 s'.1).
Proof.
  destruct loaded_ok as (Hs & Hheld & Himg).
  assert (range_len sample_range = 512) as Hl by (change (len sample_image = 512); unfold len; by rewrite sample_length).
  assert (table_apart (Half.image_bytes loaded.1 sample_range)) as Hap by (rewrite Himg; exact sample_apart).
  assert (0 ≤ range_start sample_range) as H0 by (cbn; lia).
  assert (0 ≤ range_len sample_range) as H1 by (rewrite Hl; lia).
  assert (range_start sample_range + range_len sample_range ≤ 2 ^ 52) as H2 by (rewrite Hl; cbn [range_start sample_range image_at]; lia).
  assert (KERNEL_SPACE_BASE ≤ sample_base < 2 ^ 64) as H3 by (unfold KERNEL_SPACE_BASE, sample_base; lia).
  destruct (prepare_exact boot_tables sample_base sample_range sample_code H0 H1 H2 H3 loaded Hs Hheld Hap) as (r & s' & E & _ & _ & _ & _ & Ha).
  assert (is_ok r = true) as Hr.
  { change r with (r, s').1. rewrite <-E. vm_compute. reflexivity. }
  destruct r as [mv|e| |]; try discriminate Hr. exists mv, s'. split; [exact E|]. destruct Ha as (Hres & a & b & blocks & offs & _ & _ & _ & Hmoved & _).
  split; [|exists (wrap 64 (sample_base - range_start sample_range)), offs; exact Hmoved].
  assert (alias_pages sample_range = 1) as Hp by (unfold alias_pages; rewrite Hl; reflexivity).
  specialize (Hres 0 0x1F0). rewrite Hp in Hres. specialize (Hres ltac:(lia) ltac:(lia)). rewrite Z.mul_0_l, Z.add_0_r in Hres. exact Hres.
Defined.

(** ** A table that names itself

    The second block's header is a slot of the first. *)
Definition twisted_image : list Z :=
  splice (splice sample_image 0x134 (le_encode 4 20)) 464 (le_encode 4 464 ++ le_encode 4 12 ++ entry_bytes [0xA00C; 0] ++ le_encode 4 0 ++ le_encode 4 8).
Definition twisted : Mem := Ram.write {| ram := ∅; tlb := ∅ |} 0x100000 twisted_image.

(** [relocations] accepts it, and applying it panics with a slot already
    moved: the comment's "all or nothing" leaves such a table out. *)
Example relocation_of_the_table : ∃ m', Half.relocate (image_at 0x100000 twisted_image) (sample_base - 0x100000) twisted = (Panic, m') ∧
  is_ok (Pe.relocations (Half.image_bytes twisted (image_at 0x100000 twisted_image))) = true ∧
  Ram.read64 m' (0x100000 + 476) ≠ Ram.read64 twisted (0x100000 + 476).
Proof. eexists. split; [vm_compute; reflexivity|]. split; [vm_compute; reflexivity|]. vm_compute. discriminate. Qed.
