(* ===== verification/Shell.v ===== *)
(** * The shell in ring 3: [user/shell/src/main.rs] and [lib.rs], [user/abi/src/lib.rs]

    A program is what it asks of the kernel, in order, and what it does with
    the answers: [Ring3] is the calls of [user/abi] that it makes, over any
    kernel with a state.  A call that never comes back ([exit]) ends the
    program with [Exited].  A buffer handed to a call comes back as the
    kernel left it.  Definitions first, then what the shell asks of a kernel
    for each line that is typed ([shell_turn_exact], over [script]), and that
    it panics over no kernel at all ([shell_never_panics]). *)

From Stdlib Require Import String.
From S2P Require Import Prelude Words PhysMem Bytes FatFormat FatFormatThms Process Events EventsThms Console Calls SysProofs.
Local Open Scope Z_scope.

(** ** [user/abi] *)
Inductive Stop := Exited (code : Z).

Class Ring3 (S : Type) := {
  sys_log : list Z → dev S Stop Z;
  sys_exit : Z → dev S Stop ();
  sys_yield_now : dev S Stop ();
  sys_open : list Z → dev S Stop Z;
  sys_read : Z → list Z → dev S Stop (Z * list Z);
  sys_close : Z → dev S Stop Z;
  sys_write_file : list Z → list Z → dev S Stop Z;
  sys_list : Z → list Z → dev S Stop (Z * list Z);
  sys_console_write : list Z → dev S Stop Z;
  sys_console_read : dev S Stop Z
}.

Module Abi.
Definition ENTRY_BYTES : Z := 20.
(** [ENTRY_NAME] and [ENTRY_SIZE] are ranges. *)
Definition ENTRY_NAME : Z * Z := (0, 12).
Definition ENTRY_ATTRIBUTES : Z := 12.
Definition ENTRY_SIZE : Z * Z := (16, 20).
Definition ATTR_DIRECTORY : Z := 0x10.
Definition MAX_NAME : Z := 12.

(** [iter().position(..)], as an index. *)
Definition position (byte : Z) (l : list Z) : option Z := Z.of_nat ∘ fst <$> list_find (eq byte) l.

Definition entry_name (record : list Z) : option (list Z) :=
  field ← slice record ENTRY_NAME.1 ENTRY_NAME.2;
  let end_ := default (len field) (position 32 field) in
  bytes ← slice field 0 end_;
  if utf8_from [] bytes then Some bytes else None.

Definition entry_size (record : list Z) : option Z :=
  field ← slice record ENTRY_SIZE.1 ENTRY_SIZE.2;
  Some (le_decode field).

Definition entry_is_directory (record : list Z) : bool :=
  match index record ENTRY_ATTRIBUTES with
  | Some attributes => negb (Z.land attributes ATTR_DIRECTORY =? 0)
  | None => false
  end.
End Abi.

Module Shell.
(** ** [lib.rs] *)
Definition MAX_NAME : Z := 12.

(** [while start < line.len() && line[start] == b' ']. *)
Fixpoint skip_front {E} (fuel : nat) (line : list Z) (start : Z) : res E Z :=
  match fuel with
  | O => Diverge
  | S fuel =>
      if start <? len line then
        byte ← expect (index line start);
        if byte =? 32 then skip_front fuel line (start + 1) else Ok start
      else Ok start
  end.

Fixpoint skip_back {E} (fuel : nat) (line : list Z) (start end_ : Z) : res E Z :=
  match fuel with
  | O => Diverge
  | S fuel =>
      if start <? end_ then
        byte ← expect (index line (end_ - 1));
        if byte =? 32 then skip_back fuel line start (end_ - 1) else Ok end_
      else Ok end_
  end.

Definition trimmed {E} (line : list Z) : res E (list Z) :=
  start ← skip_front (S (length line)) line 0;
  end_ ← skip_back (S (length line)) line start (len line);
  expect (slice line start end_).

Definition split_once {E} (line : list Z) : res E (list Z * list Z) :=
  line ← trimmed line;
  match Abi.position 32 line with
  | Some at_ =>
      first ← expect (slice line 0 at_);
      rest ← expect (slice line at_ (len line));
      rest ← trimmed rest;
      Ok (first, rest)
  | None => Ok (line, [])
  end.

Definition as_name (word : list Z) : option (list Z) :=
  if (len word =? 0) || (MAX_NAME <? len word) then None
  else if utf8_from [] word then Some word else None.

Fixpoint digits_of {E} (fuel : nat) (digits : list Z) (count left_ : Z) : res E (list Z * Z) :=
  match fuel with
  | O => Diverge
  | S fuel =>
      digits ← expect (set_index digits count (48 + left_ mod 10));
      let count := count + 1 in
      let left_ := left_ / 10 in
      if left_ =? 0 then Ok (digits, count) else digits_of fuel digits count left_
  end.

Definition decimal {E} (number : Z) (into : list Z) : res E (Z * list Z) :=
  x ← digits_of 10 (replicate 10 0) 0 number;
  let '(digits, count) := x in
  held ← expect (slice digits 0 count);
  into ← foldM (λ into '(at_, digit), expect (set_index into at_ digit)) into (zip (seqZ 0 (len held)) (rev held));
  Ok (count, into).

(** ** [main.rs] *)
Definition READY_MARKER : list Z := text "HARLAN-RING3-SHELL-READY".
Definition PROMPT : list Z := text "harlan$ ".
Definition LINE_MAX : Z := 128.
Definition PIECE : Z := 64.

Section shell.
Context {K : Type} `{!Ring3 K} (overflow_checks : bool).

Definition say (t : list Z) : dev K Stop () := _ ← sys_console_write t; mret ().
Definition say_line (s : string) : dev K Stop () := say (text s ++ [10]).

Definition complain (what nm : list Z) (err : Z) : dev K Stop () :=
  _ ← say what;
  _ ← say (text ": ");
  _ ← say nm;
  _ ← say (text ": ");
  if err =? ERR_NO_SUCH_FILE then say_line "no such file"
  else if err =? ERR_BAD_ARGUMENT then say_line "not a name this disk can hold"
  else if err =? ERR_FILE_IS_OPEN then say_line "something has it open"
  else if err =? ERR_VOLUME_FULL then say_line "the disk is full"
  else if err =? ERR_TOO_MANY_OPEN then say_line "too many files open"
  else if err =? ERR_DISK then say_line "the disk would not answer"
  else say_line "refused".

Fixpoint read_line (fuel : nat) (line : list Z) (length : Z) : dev K Stop (list Z * Z) :=
  match fuel with
  | O => λ s, (Diverge, s)
  | S fuel =>
      key ← sys_console_read;
      if key =? KEY_NONE then _ ← sys_yield_now; read_line fuel line length
      else if key =? KEY_ENTER then _ ← say [10]; mret (line, length)
      else if key =? KEY_BACKSPACE then
        if 0 <? length then _ ← say [8; 32; 8]; read_line fuel line (length - 1)
        else read_line fuel line length
      else if key =? KEY_UNKNOWN then read_line fuel line length
      else if in_range 0x20 0x7E key && (length <? len line) then
        line ← lift (expect (set_index line length key));
        let length := length + 1 in
        echo ← lift (expect (slice line (length - 1) length));
        _ ← say echo;
        read_line fuel line length
      else read_line fuel line length
  end.

(** [shown += 1], in an [i32]. *)
Definition one_more {E} (n : Z) : res E Z :=
  if overflow_checks && (2 ^ 31 <=? n + 1) then Panic else Ok (wrap 32 (n + 1 + 2 ^ 31) - 2 ^ 31).

(** [list_files], an entry at a time. *)
Fixpoint list_loop (fuel : nat) (record : list Z) (at_ shown : Z) : dev K Stop Z :=
  match fuel with
  | O => λ s, (Diverge, s)
  | S fuel =>
      x ← sys_list at_ record;
      let '(got, record) := x in
      if got <? 0 then mret shown
      else
        match Abi.entry_name record with
        | None => mret shown
        | Some nm =>
            _ ← say nm;
            _ ← for_in (seqZ (len nm) (MAX_NAME + 2 - len nm)) (λ _ _, say [32]) ();
            _ ← (if Abi.entry_is_directory record then say_line "   <dir>"
                 else
                   x ← lift (decimal (default 0 (Abi.entry_size record)) (replicate 10 0));
                   let '(written, digits) := x in
                   t ← lift (expect (slice digits 0 written));
                   _ ← say t;
                   say [10]);
            shown ← lift (one_more shown);
            at_ ← lift (add_in overflow_checks 64 at_ 1);
            list_loop fuel record at_ shown
        end
  end.

Definition list_files (fuel : nat) : dev K Stop () :=
  shown ← list_loop fuel (replicate (Z.to_nat Abi.ENTRY_BYTES) 0) 0 0;
  if shown =? 0 then say_line "nothing on the disk, or no disk" else mret ().

Fixpoint cat_loop (fuel : nat) (descriptor : Z) (piece : list Z) : dev K Stop () :=
  match fuel with
  | O => λ s, (Diverge, s)
  | S fuel =>
      x ← sys_read descriptor piece;
      let '(got, piece) := x in
      if got <=? 0 then mret ()
      else
        t ← lift (expect (slice piece 0 got));
        _ ← say t;
        cat_loop fuel descriptor piece
  end.

Definition cat (fuel : nat) (rest : list Z) : dev K Stop () :=
  x ← lift (split_once rest);
  match as_name x.1 with
  | None => say_line "cat: give it a name"
  | Some nm =>
      descriptor ← sys_open nm;
      if descriptor <? 0 then complain (text "cat") nm descriptor
      else
        _ ← cat_loop fuel descriptor (replicate (Z.to_nat PIECE) 0);
        _ ← sys_close descriptor;
        mret ()
  end.

(** [for byte in text], with its [break]. *)
Fixpoint fill {E} (contents : list Z) (length : Z) (t : list Z) : res E (list Z * Z) :=
  match t with
  | [] => Ok (contents, length)
  | byte :: t =>
      if length =? len contents - 1 then Ok (contents, length)
      else contents ← expect (set_index contents length byte); fill contents (length + 1) t
  end.

Definition write (rest : list Z) : dev K Stop () :=
  x ← lift (split_once rest);
  let '(word, t) := x in
  match as_name word with
  | None => say_line "write: give it a name and some text"
  | Some nm =>
      x ← lift (fill (replicate (Z.to_nat (LINE_MAX + 1)) 0) 0 t);
      let '(contents, length) := x in
      contents ← lift (expect (set_index contents length 10));
      let length := length + 1 in
      bytes ← lift (expect (slice contents 0 length));
      written ← sys_write_file nm bytes;
      if written <? 0 then complain (text "write") nm written
      else
        _ ← say (text "wrote ");
        _ ← say nm;
        say [10]
  end.

Definition help : dev K Stop () :=
  _ ← say_line "help            what you are reading";
  _ ← say_line "ls              what is on the disk";
  _ ← say_line "cat NAME        print a file";
  _ ← say_line "write NAME TEXT write a file, replacing it";
  _ ← say_line "echo TEXT       print TEXT";
  say_line "exit            stop this shell".

Definition run (fuel : nat) (line : list Z) : dev K Stop () :=
  line ← lift (trimmed line);
  x ← lift (split_once line);
  let '(command, rest) := x in
  if decide (command = []) then mret ()
  else if decide (command = text "help") then help
  else if decide (command = text "ls") then list_files fuel
  else if decide (command = text "cat") then cat fuel rest
  else if decide (command = text "write") then write rest
  else if decide (command = text "echo") then _ ← say rest; say [10]
  else if decide (command = text "exit") then
    _ ← say_line "bye";
    _ ← sys_log (text "HARLAN: the shell in ring 3 was told to exit" ++ [10]);
    sys_exit 0
  else
    _ ← say (text "unknown command: ");
    _ ← say command;
    say [10].

(** One turn of [_start]'s loop. *)
Definition turn (fuel : nat) (line : list Z) : dev K Stop (list Z) :=
  _ ← say PROMPT;
  x ← read_line fuel line 0;
  let '(line, length) := x in
  typed ← lift (expect (slice line 0 length));
  _ ← run fuel typed;
  mret line.

(** [_start] never comes back: this is its first [turns] turns. *)
Definition start (fuel turns : nat) : dev K Stop (list Z) :=
  _ ← say_line "HARLAN OS shell, in ring 3.";
  _ ← say_line "Type `help` for what it knows.";
  _ ← sys_log READY_MARKER;
  _ ← sys_log [10];
  for_in (seq 0 turns) (λ line _, turn fuel line) (replicate (Z.to_nat LINE_MAX) 0).
End shell.
End Shell.

(** ** A kernel that is told what to answer

    [script] gives the keys, descriptors, pieces of files and records it was
    given, whatever they are, and writes down every call it gets: what is
    proved of the shell over it, for all answers, is what the shell asks of
    any kernel. *)
Inductive Request :=
| Logged (t : list Z)
| Exits (code : Z)
| Yields
| Opens (nm : list Z)
| Reads (descriptor size : Z)
| Closes (descriptor : Z)
| Writes (nm contents : list Z)
| Lists (at_ size : Z)
| Shows (t : list Z)
| Listens.

#[export] Instance Request_eq_dec : EqDecision Request.
Proof. solve_decision. Defined.

Record Script := {
  keys : list Z;               (* KEY_NONE behind the last *)
  opened : Z;
  pieces : list (list Z);      (* what each read puts in the buffer *)
  read_end : Z;                (* and the read behind the last *)
  write_answer : Z;
  records : list (list Z);
  list_end : Z;
  asked : list Request
}.

Module Script.
Definition note (calls : list Request) (s : Script) : Script :=
  {| keys := keys s; opened := opened s; pieces := pieces s; read_end := read_end s; write_answer := write_answer s; records := records s;
     list_end := list_end s; asked := asked s ++ calls |}.
Definition with_keys (l : list Z) (s : Script) : Script :=
  {| keys := l; opened := opened s; pieces := pieces s; read_end := read_end s; write_answer := write_answer s; records := records s;
     list_end := list_end s; asked := asked s |}.
Definition with_pieces (l : list (list Z)) (s : Script) : Script :=
  {| keys := keys s; opened := opened s; pieces := l; read_end := read_end s; write_answer := write_answer s; records := records s;
     list_end := list_end s; asked := asked s |}.
Definition with_records (l : list (list Z)) (s : Script) : Script :=
  {| keys := keys s; opened := opened s; pieces := pieces s; read_end := read_end s; write_answer := write_answer s; records := l;
     list_end := list_end s; asked := asked s |}.

(** One call, written down and answered. *)
Definition on {A} (call : Request) (answer : Script → A * Script) : dev Script Stop A :=
  λ s, let '(a, s) := answer s in (Ok a, note [call] s).
Definition always {A} (f : Script → A) (s : Script) : A * Script := (f s, s).

Definition next_key (s : Script) : Z * Script :=
  match keys s with [] => (KEY_NONE, s) | k :: l => (k, with_keys l s) end.
Definition next_piece (into : list Z) (s : Script) : (Z * list Z) * Script :=
  match pieces s with
  | [] => ((read_end s, into), s)
  | p :: l => ((len p, p ++ drop (length p) into), with_pieces l s)
  end.
Definition next_record (into : list Z) (s : Script) : (Z * list Z) * Script :=
  match records s with
  | [] => ((list_end s, into), s)
  | r :: l => ((len r, r), with_records l s)
  end.

#[export] Instance script : Ring3 Script := {
  sys_log t := on (Logged t) (always (λ _, len t));
  sys_exit code := λ s, (Err (Exited code), note [Exits code] s);
  sys_yield_now := on Yields (always (λ _, ()));
  sys_open nm := on (Opens nm) (always opened);
  sys_read descriptor into := on (Reads descriptor (len into)) (next_piece into);
  sys_close descriptor := on (Closes descriptor) (always (λ _, 0));
  sys_write_file nm contents := on (Writes nm contents) (always write_answer);
  sys_list at_ into := on (Lists at_ (len into)) (next_record into);
  sys_console_write t := on (Shows t) (always (λ _, len t));
  sys_console_read := on Listens next_key
}.
End Script.
#[export] Existing Instance Script.script.

(** ** What it asks for

    The words of a line, by what they are. *)
Fixpoint strip_front (l : list Z) : list Z :=
  match l with [] => [] | b :: l' => if b =? 32 then strip_front l' else l end.
Definition strip (l : list Z) : list Z := reverse (strip_front (reverse (strip_front l))).
Fixpoint first_word (l : list Z) : list Z :=
  match l with [] => [] | b :: l => if b =? 32 then [] else b :: first_word l end.
Definition words (l : list Z) : list Z * list Z :=
  let l := strip l in (first_word l, strip (drop (length (first_word l)) l)).

(** What a key does to the line, and what is shown for it. *)
Definition press (l : list Z) (k : Z) : list Z :=
  if k =? KEY_BACKSPACE then take (length l - 1) l
  else if in_range 0x20 0x7E k && (len l <? Shell.LINE_MAX) then l ++ [k] else l.
Definition echo (l : list Z) (k : Z) : list (list Z) :=
  if k =? KEY_BACKSPACE then match l with [] => [] | _ => [[8; 32; 8]] end
  else if in_range 0x20 0x7E k && (len l <? Shell.LINE_MAX) then [[k]] else [].
Definition says : list (list Z) → list Request := fmap Shows.
Definition hearing (l : list Z) (k : Z) : list Request := Listens :: (if k =? KEY_NONE then [Yields] else says (echo l k)).
Fixpoint hearings (l : list Z) (ks : list Z) : list Request :=
  match ks with [] => [] | k :: ks => hearing l k ++ hearings (press l k) ks end.
(** The line typed by some keys. *)
Definition edited (ks : list Z) : list Z := foldl press [] ks.

Definition line_of (s : string) : list Z := text s ++ [10].

Definition reason (err : Z) : string :=
  if err =? ERR_NO_SUCH_FILE then "no such file"
  else if err =? ERR_BAD_ARGUMENT then "not a name this disk can hold"
  else if err =? ERR_FILE_IS_OPEN then "something has it open"
  else if err =? ERR_VOLUME_FULL then "the disk is full"
  else if err =? ERR_TOO_MANY_OPEN then "too many files open"
  else if err =? ERR_DISK then "the disk would not answer"
  else "refused".
Definition complaint (what nm : list Z) (err : Z) : list Request :=
  says [what; text ": "; nm; text ": "; line_of (reason err)].

(** A file: every piece that was read, as it was read, and no more. *)
Definition showing (descriptor : Z) (l : list (list Z)) : list Request :=
  concat ((λ p, [Reads descriptor 64; Shows p]) <$> l) ++ [Reads descriptor 64; Closes descriptor].

Definition entry_line (nm r : list Z) : list (list Z) :=
  nm :: replicate (14 - length nm) [32] ++
  (if Abi.entry_is_directory r then [line_of "   <dir>"] else [decimal_fuel 10 (le_decode (drop 16 r)); [10]]).
Fixpoint listing (at_ : Z) (l : list (list Z)) : list Request :=
  Lists at_ 20 ::
  match l with
  | [] => []
  | r :: l => match Abi.entry_name r with
              | None => []
              | Some nm => says (entry_line nm r) ++ listing (at_ + 1) l
              end
  end.
Fixpoint names_listed (l : list (list Z)) : Z :=
  match l with
  | [] => 0
  | r :: l => match Abi.entry_name r with None => 0 | Some _ => 1 + names_listed l end
  end.

Definition help_lines : list (list Z) :=
  [line_of "help            what you are reading"; line_of "ls              what is on the disk";
   line_of "cat NAME        print a file"; line_of "write NAME TEXT write a file, replacing it";
   line_of "echo TEXT       print TEXT"; line_of "exit            stop this shell"].

(** Everything the shell asks for one line. *)
Definition wanted (line : list Z) (s : Script) : list Request :=
  let '(command, rest) := words line in
  if decide (command = []) then []
  else if decide (command = text "help") then says help_lines
  else if decide (command = text "ls") then
    listing 0 (records s) ++ (if names_listed (records s) =? 0 then says [line_of "nothing on the disk, or no disk"] else [])
  else if decide (command = text "cat") then
    match Shell.as_name (words rest).1 with
    | None => says [line_of "cat: give it a name"]
    | Some nm => Opens nm :: if opened s <? 0 then complaint (text "cat") nm (opened s) else showing (opened s) (pieces s)
    end
  else if decide (command = text "write") then
    let '(nm, t) := words rest in
    match Shell.as_name nm with
    | None => says [line_of "write: give it a name and some text"]
    | Some nm => Writes nm (take 128 t ++ [10]) ::
        if write_answer s <? 0 then complaint (text "write") nm (write_answer s) else says [text "wrote "; nm; [10]]
    end
  else if decide (command = text "echo") then says [rest; [10]]
  else if decide (command = text "exit") then
    says [line_of "bye"] ++ [Logged (line_of "HARLAN: the shell in ring 3 was told to exit"); Exits 0]
  else says [text "unknown command: "; command; [10]].

(** The file's entry, as the kernel hands it out. *)
Definition entry_for (x : list Z * list Z) : DirectoryEntry :=
  {| ename := x.1; name_len := len x.1; attributes := 0x20; first_cluster := 0; esize := len x.2 |}.

(** ** Words and lines *)
Definition no_space (l : list Z) : Prop := Forall (λ b, b ≠ 32) l.
(** No space at either end. *)
Definition clean (l : list Z) : Prop := head l ≠ Some 32 ∧ last l ≠ Some 32.

Section splitting.
Import Shell.
Context {E : Type}.

Lemma index_app_r {A} (l l' : list A) i : 0 ≤ i → index (l ++ l') (len l + i) = index l' i.
Proof.
  intros Hi. unfold index, len. rewrite !(proj2 (Z.ltb_ge _ _)) by lia. rewrite lookup_app_r by lia. f_equal. lia.
Qed.

Lemma skip_front_run (fuel : nat) pre (i : nat) u : (i < fuel)%nat → head u ≠ Some 32 →
  skip_front (E:=E) fuel (pre ++ replicate i 32 ++ u) (len pre) = Ok (len pre + Z.of_nat i).
Proof.
  revert pre i. induction fuel as [|fuel IH]; intros pre i Hf Hu; [lia|]. cbn [skip_front]. destruct i as [|i].
  - cbn [replicate app]. destruct u as [|b u].
    + rewrite app_nil_r, Z.ltb_irrefl. f_equal. lia.
    + rewrite (proj2 (Z.ltb_lt _ _)) by (rewrite len_app, len_cons; pose proof (len_nonneg u); lia).
      rewrite <-(Z.add_0_r (len pre)) at 1. rewrite index_app_r by done. change (index (b :: u) 0) with (Some b). cbn [expect mbind res_bind].
      rewrite (proj2 (Z.eqb_neq _ _)); [f_equal; lia|]. intros ->. by apply Hu.
  - rewrite (proj2 (Z.ltb_lt _ _)) by (rewrite len_app, len_app, len_replicate; pose proof (len_nonneg u); lia).
    rewrite <-(Z.add_0_r (len pre)) at 1. rewrite index_app_r by done. cbn [replicate app]. change (index (32 :: ?l) 0) with (Some 32). cbn [expect mbind res_bind Z.eqb Pos.eqb].
    specialize (IH (pre ++ [32]) i ltac:(lia) Hu). rewrite <-app_assoc in IH. cbn [app] in IH. rewrite len_app in IH. change (len [32]) with 1 in IH.
    rewrite IH. f_equal. lia.
Qed.

Lemma skip_back_run (fuel : nat) u (j : nat) post start : (j < fuel)%nat → 0 ≤ start ≤ len u → start = len u ∨ last u ≠ Some 32 →
  skip_back (E:=E) fuel (u ++ replicate j 32 ++ post) start (len u + Z.of_nat j) = Ok (len u).
Proof.
  revert j post. induction fuel as [|fuel IH]; intros j post Hf Hs Hu; [lia|]. cbn [skip_back]. destruct j as [|j].
  - rewrite Z.add_0_r. destruct (Z.ltb_spec start (len u)) as [Hlt|]; [|f_equal; lia]. destruct Hu as [|Hu]; [lia|].
    destruct (decide (u = [])) as [->|Hne]; [change (len []) with 0 in *; lia|].
    destruct (exists_last Hne) as (u' & b & ->). rewrite last_snoc in Hu. rewrite len_app. change (len [b]) with 1.
    replace (len u' + 1 - 1) with (len u' + 0) by lia. rewrite <-!app_assoc, index_app_r by done.
    cbn [app]. change (index (b :: ?l) 0) with (Some b). cbn [expect mbind res_bind]. rewrite (proj2 (Z.eqb_neq _ _)); [done|]. congruence.
  - rewrite (proj2 (Z.ltb_lt _ _)) by lia. replace (len u + Z.of_nat (S j) - 1) with (len u + Z.of_nat j) by lia. rewrite index_app_r by lia.
    unfold index. rewrite (proj2 (Z.ltb_ge _ _)) by lia. rewrite lookup_app_l by (rewrite length_replicate; lia). rewrite lookup_replicate_2 by lia.
    cbn [expect mbind res_bind Z.eqb Pos.eqb]. replace (replicate (S j) 32 ++ post) with (replicate j 32 ++ 32 :: post) by (by rewrite replicate_S_end, <-app_assoc).
    apply IH; [lia|done|done].
Qed.

(** A line without the spaces around it. *)
Lemma trimmed_run (i j : nat) t : clean t → trimmed (E:=E) (replicate i 32 ++ t ++ replicate j 32) = Ok t.
Proof.
  intros [Hh Hl]. unfold trimmed. set (line := replicate i 32 ++ t ++ replicate j 32).
  assert (length line = i + (length t + j))%nat as Hlen by (unfold line; by rewrite !length_app, !length_replicate).
  destruct (decide (t = [])) as [->|Hne].
  - assert (line = replicate (i + j) 32 ++ []) as Hline by (unfold line; by rewrite app_nil_r, replicate_add).
    pose proof (skip_front_run (S (length line)) [] (i + j) [] ltac:(simpl in Hlen; lia) ltac:(done)) as Hf. cbn [app] in Hf. rewrite <-Hline in Hf.
    change (len []) with 0 in Hf. rewrite Hf. cbn [mbind res_bind].
    assert (len line = Z.of_nat (i + j)) as Hll by (unfold len; simpl in Hlen; lia). rewrite Z.add_0_l.
    pose proof (skip_back_run (S (length line)) line 0 [] (Z.of_nat (i + j)) ltac:(lia) ltac:(lia) ltac:(left; lia)) as Hb.
    cbn [replicate app] in Hb. rewrite app_nil_r, Z.add_0_r in Hb. rewrite Hb. cbn [mbind res_bind]. rewrite Hll.
    unfold expect. rewrite slice_Some by (rewrite ?Hll; lia). by rewrite Z.sub_diag.
  - pose proof (skip_front_run (S (length line)) [] i (t ++ replicate j 32) ltac:(lia)) as Hf. cbn [app] in Hf. fold line in Hf.
    change (len []) with 0 in Hf. rewrite Hf by (destruct t; [done|exact Hh]). cbn [mbind res_bind]. rewrite Z.add_0_l.
    pose proof (skip_back_run (S (length line)) (replicate i 32 ++ t) j [] (Z.of_nat i) ltac:(lia)) as Hb.
    rewrite app_nil_r, <-app_assoc in Hb. fold line in Hb. rewrite len_app, len_replicate in Hb.
    replace (Z.of_nat i + len t + Z.of_nat j) with (len line) in Hb by (unfold len; lia).
    rewrite Hb; [|pose proof (len_nonneg t); lia|right; rewrite last_app; destruct (last t) eqn:El; [done|by apply last_None in El]].
    cbn [mbind res_bind]. unfold expect. rewrite slice_Some by (unfold len; lia). f_equal.
    unfold line. rewrite drop_app_length' by (rewrite length_replicate; lia). apply take_app_length'. unfold len. lia.
Qed.

Lemma position_word w l : no_space w → Abi.position 32 (w ++ 32 :: l) = Some (len w).
Proof.
  intros Hw. unfold Abi.position. rewrite (list_find_app_r _ w).
  - unfold len. cbn [list_find]. rewrite decide_True by done. cbn. do 2 f_equal; lia.
  - apply list_find_None. eapply Forall_impl; [exact Hw|]. intros b Hb Hx. by apply Hb.
Qed.

Lemma position_none w : no_space w → Abi.position 32 w = None.
Proof.
  intros Hw. unfold Abi.position. assert (list_find (eq 32) w = None) as ->; [|done].
  rewrite list_find_None. eapply Forall_impl; [exact Hw|]. intros b Hb Hx. by apply Hb.
Qed.

End splitting.

(** ** Numbers and records *)
Section numbers.
Import Shell.

Lemma digits_of_loop {E} (fuel : nat) digits count n x : Events.digits_loop fuel digits count n = Ok x → digits_of (E:=E) fuel digits count n = Ok x.
Proof.
  revert digits count n. induction fuel as [|fuel IH]; intros digits count n; [done|]. rewrite digits_loop_step. cbn [digits_of].
  destruct (set_index digits count (48 + n mod 10)) as [ds|]; [|done]. cbn [expect mbind res_bind].
  destruct (n / 10 =? 0); [congruence|apply IH].
Qed.

Lemma set_index_at (pre l : list Z) x b : set_index (pre ++ x :: l) (len pre) b = Some (pre ++ b :: l).
Proof.
  unfold set_index. rewrite (proj2 (Z.leb_le 0 _)) by apply len_nonneg.
  rewrite (proj2 (Z.ltb_lt (len pre) _)) by (rewrite len_app, len_cons; pose proof (len_nonneg l); lia).
  cbn [andb]. unfold len. by rewrite Nat2Z.id, insert_app_r_alt, Nat.sub_diag by lia.
Qed.

Lemma write_digits {E} (l pre into : list Z) : (length l ≤ length into)%nat →
  foldM (λ into '(at_, digit), expect (E:=E) (set_index into at_ digit)) (pre ++ into) (zip (seqZ (len pre) (len l)) l) = Ok (pre ++ l ++ drop (length l) into).
Proof.
  revert pre into. induction l as [|b l IH]; intros pre into Hl; [by destruct (seqZ _ _)|].
  destruct into as [|x into]; [simpl in Hl; lia|]. rewrite len_cons. pose proof (len_nonneg l).
  rewrite (seqZ_cons (len pre)) by lia. cbn [zip zip_with foldM]. rewrite set_index_at. cbn [expect mbind res_bind].
  rewrite (cons_middle b pre). rewrite app_assoc.
  replace (Z.succ (len pre)) with (len (pre ++ [b])) by (rewrite len_app; unfold len; simpl; lia). replace (Z.pred (1 + len l)) with (len l) by lia.
  simpl in Hl. rewrite IH by lia. cbn [length drop]. by rewrite <-app_assoc.
Qed.

(** [decimal] writes the digits a person reads. *)
Lemma decimal_run {E} n : in_width 32 n →
  Shell.decimal (E:=E) n (replicate 10 0) = Ok (len (decimal_fuel 10 n), decimal_fuel 10 n ++ drop (length (decimal_fuel 10 n)) (replicate 10 0)) ∧
  (length (decimal_fuel 10 n) ≤ 10)%nat.
Proof.
  intros Hn. unfold in_width in Hn. pose proof (decimal_fuel_bound 10 n ltac:(lia)) as Hb.
  destruct (digits_loop_spec 9 n (replicate 10 0) 0) as (ds & El & Hs); [change (10 ^ Z.of_nat 10) with 10000000000; lia|done|done|].
  rewrite Z.add_0_l in El, Hs. unfold Shell.decimal. rewrite (digits_of_loop 10 _ _ _ _ El). cbn [mbind res_bind]. rewrite Hs. cbn [expect mbind res_bind].
  change (take (Z.to_nat 0) (replicate 10 0)) with (@nil Z). cbn [app]. rewrite rev_involutive.
  assert (len (rev (decimal_fuel 10 n)) = len (decimal_fuel 10 n)) as -> by (unfold len; by rewrite length_rev).
  unfold len in Hb. split; [|lia]. rewrite (write_digits (decimal_fuel 10 n) [] (replicate 10 0)) by (rewrite length_replicate; lia). done.
Qed.

(** What a program reads in the record the kernel makes of a file. *)
Lemma record_read x junk : no_space x.1 → utf8_from [] x.1 = true → (length x.1 ≤ 12)%nat → len x.2 < 2 ^ 32 →
  ∃ record, encode_entry (entry_for x) = Ok record ∧ length record = 20%nat ∧ Abi.entry_name (record ++ junk) = Some x.1 ∧
    Abi.entry_size (record ++ junk) = Some (len x.2) ∧ Abi.entry_is_directory (record ++ junk) = false.
Proof.
  destruct x as [nm c]. simpl. intros Hns Hu Hl Hc. exists (entry_record (entry_for (nm, c))). split; [apply encode_entry_exact|]. split; [apply entry_record_len|].
  assert (entry_record (entry_for (nm, c)) = nm ++ replicate (12 - length nm) 32 ++ 0x20 :: replicate 3 0 ++ le_encode 4 (len c)) as ->.
  { unfold entry_record, entry_for, name, text_or_empty. cbn [name_len ename attributes esize fst snd].
    assert (take (Z.to_nat (len nm)) nm = nm) as -> by (apply take_ge; unfold len; lia). rewrite Hu.
    assert (take 12 nm = nm) as -> by (by apply take_ge). done. }
  set (field := nm ++ replicate (12 - length nm) 32). assert (length field = 12%nat) as Hf by (unfold field; rewrite length_app, length_replicate; lia).
  assert ((nm ++ replicate (12 - length nm) 32 ++ 0x20 :: replicate 3 0 ++ le_encode 4 (len c)) ++ junk =
    field ++ [0x20; 0; 0; 0] ++ le_encode 4 (len c) ++ junk) as -> by (unfold field; rewrite <-!app_assoc; done).
  assert (len (field ++ [32; 0; 0; 0] ++ le_encode 4 (len c) ++ junk) = 20 + len junk) as Hlen by (unfold len; rewrite !length_app, length_le_encode, Hf; simpl; lia).
  pose proof (len_nonneg junk). split_and!.
  - unfold Abi.entry_name. cbn [fst snd Abi.ENTRY_NAME]. rewrite slice_prefix by lia. rewrite take_app_length' by (rewrite Hf; done). cbn [mbind option_bind].
    assert (default (len field) (Abi.position 32 field) = len nm) as ->.
    { unfold field. destruct (12 - length nm)%nat as [|k] eqn:Ek.
      - cbn [replicate]. rewrite app_nil_r, position_none by done. done.
      - cbn [replicate]. by rewrite position_word. }
    rewrite slice_prefix by (unfold field; rewrite len_app; pose proof (len_nonneg nm); pose proof (len_nonneg (replicate (12 - length nm) 32)); lia).
    unfold field. rewrite take_app_length' by (unfold len; lia). cbn [mbind option_bind]. by rewrite Hu.
  - unfold Abi.entry_size. cbn [fst snd Abi.ENTRY_SIZE]. rewrite slice_Some by lia. cbn [mbind option_bind].
    rewrite app_assoc. rewrite drop_app_length' by (rewrite length_app, Hf; done). rewrite take_app_length' by (by rewrite length_le_encode).
    rewrite le_decode_encode; [done|]. pose proof (len_nonneg c). change (8 * Z.of_nat 4) with 32. lia.
  - unfold Abi.entry_is_directory, index, Abi.ENTRY_ATTRIBUTES. cbn [Z.ltb Z.compare]. rewrite lookup_app_r by (rewrite Hf; done). by rewrite Hf.
Qed.
End numbers.


(** ** The words *)
Section spelling.
Import Shell.

(** Every line is spaces, something clean and spaces. *)
Lemma trim_split l : ∃ (i j : nat) t, l = replicate i 32 ++ t ++ replicate j 32 ∧ clean t.
Proof.
  induction l as [|b l (i & j & t & -> & Hc)]; [by exists 0%nat, 0%nat, []|].
  destruct (decide (b = 32)) as [->|Hb]; [by exists (S i), j, t|].
  destruct t as [|c t]; [|].
  - exists 0%nat, (i + j)%nat, [b]. split; [by rewrite replicate_add|]. split; simpl; congruence.
  - exists 0%nat, j, (b :: replicate i 32 ++ c :: t). split; [cbn [replicate app]; by rewrite <-app_assoc|].
    split; [simpl; congruence|]. destruct Hc as [_ Hc].
    rewrite (app_comm_cons (replicate i 32)), last_app. destruct (last (c :: t)) eqn:El; [done|by apply last_None in El].
Qed.

Lemma strip_front_spaces (i : nat) l : strip_front (replicate i 32 ++ l) = strip_front l.
Proof. by induction i. Qed.

Lemma strip_front_clean l : head l ≠ Some 32 → strip_front l = l.
Proof. destruct l as [|b l]; [done|]. intros Hb. cbn [strip_front]. rewrite (proj2 (Z.eqb_neq _ _)); [done|]. intros ->. by apply Hb. Qed.

Lemma strip_clean (i j : nat) t : clean t → strip (replicate i 32 ++ t ++ replicate j 32) = t.
Proof.
  intros [Hh Hl]. unfold strip. rewrite strip_front_spaces. destruct t as [|b t].
  - cbn [app]. rewrite <-(app_nil_r (replicate j 32)), strip_front_spaces. done.
  - rewrite (strip_front_clean ((b :: t) ++ _)) by exact Hh. rewrite reverse_app, reverse_replicate, strip_front_spaces.
    rewrite strip_front_clean by (by rewrite head_reverse). apply reverse_involutive.
Qed.

(** [trimmed] is [strip], on every line. *)
Lemma trimmed_strip {E} l : trimmed (E:=E) l = Ok (strip l).
Proof. destruct (trim_split l) as (i & j & t & -> & Hc). by rewrite trimmed_run, strip_clean. Qed.

Lemma strip_is_clean l : clean (strip l).
Proof. destruct (trim_split l) as (i & j & t & -> & Hc). by rewrite strip_clean. Qed.

Lemma strip_id t : clean t → strip t = t.
Proof. intros Hc. pose proof (strip_clean 0 0 t Hc) as H. cbn [replicate app] in H. by rewrite app_nil_r in H. Qed.

Lemma first_word_split l : no_space (first_word l) ∧ (first_word l = l ∨ ∃ rest, l = first_word l ++ 32 :: rest).
Proof.
  induction l as [|b l [IH1 IH2]]; [by split; [constructor|left]|]. cbn [first_word]. destruct (Z.eqb_spec b 32) as [->|Hb].
  - split; [constructor|]. right. by exists l.
  - split; [by constructor|]. destruct IH2 as [IH|[rest IH]]; [left; by rewrite IH|right]. exists rest. cbn [app]. by rewrite <-IH.
Qed.

(** [split_once] is [words], on every line. *)
Lemma split_once_words {E} l : split_once (E:=E) l = Ok (words l).
Proof.
  unfold split_once. rewrite trimmed_strip. cbn [mbind res_bind]. unfold words. pose proof (strip_is_clean l) as Hc.
  set (t := strip l) in *. destruct (first_word_split t) as [Hw [Hall|[rest Hr]]].
  - rewrite Hall. rewrite Hall in Hw. by rewrite position_none, drop_all.
  - revert Hw Hr. generalize (first_word t) as w. intros w Hw Hr. clearbody t. subst t. rewrite position_word, drop_app_length by done.
    pose proof (len_nonneg w). pose proof (len_nonneg rest).
    assert (slice (w ++ 32 :: rest) 0 (len w) = Some w) as ->.
    { rewrite slice_prefix by (rewrite len_app, len_cons; lia). unfold len. by rewrite Nat2Z.id, take_app_length. }
    assert (slice (w ++ 32 :: rest) (len w) (len (w ++ 32 :: rest)) = Some (32 :: rest)) as ->.
    { rewrite slice_Some by (rewrite ?len_app, ?len_cons; lia). f_equal. rewrite drop_app_length' by (unfold len; lia). apply take_ge. unfold len. rewrite length_app. cbn [length]. lia. }
    cbn [expect mbind res_bind]. by rewrite trimmed_strip.
Qed.

Lemma words_strip l : words (strip l) = words l.
Proof. unfold words. by rewrite (strip_id (strip l)) by apply strip_is_clean. Qed.

End spelling.

(** ** Over the script *)
Section scripted.
Import Shell Script.
Context (overflow_checks : bool).
Implicit Types s : Script.
#[local] Arguments note : simpl never.
#[local] Arguments with_keys : simpl never.

Lemma note_note a b s : note b (note a s) = note (a ++ b) s.
Proof. unfold note. cbn [keys opened pieces read_end write_answer records list_end asked]. by rewrite app_assoc. Qed.
Lemma asked_note c s : asked (note c s) = asked s ++ c.
Proof. done. Qed.
Lemma note_nil s : note [] s = s.
Proof. destruct s. unfold note. cbn [keys opened pieces read_end write_answer records list_end asked]. by rewrite app_nil_r. Qed.

Lemma say_note t s : say t s = (Ok (), note [Shows t] s).
Proof. done. Qed.

Lemma say_then {A} t (m : dev Script Stop A) s : (_ ← say t; m) s = m (note [Shows t] s).
Proof. done. Qed.

(** The line's buffer holds what has been typed. *)
Definition buffered (line l : list Z) : Prop := ∃ junk, line = l ++ junk ∧ length line = 128%nat.

(** One key that is not Enter. *)
Lemma key_run (fuel : nat) line l k ks s : keys s = k :: ks → k ≠ KEY_ENTER → buffered line l →
  ∃ line', read_line (Datatypes.S fuel) line (len l) s = read_line fuel line' (len (press l k)) (note (hearing l k) (with_keys ks s)) ∧
    buffered line' (press l k).
Proof.
  intros Hk Hne (junk & -> & Hline). cbn [read_line]. rewrite dev_bind_run. cbn [sys_console_read Script.script]. unfold on, next_key. rewrite Hk.
  assert (len (l ++ junk) = 128) as Hll by (unfold len; lia).
  assert (buffered (l ++ junk) l) as Hsame by (by exists junk).
  unfold hearing, press, echo. destruct (Z.eqb_spec k KEY_NONE) as [->|Hnone].
  { exists (l ++ junk). cbn. rewrite dev_bind_run. cbn. by rewrite note_note. }
  rewrite (proj2 (Z.eqb_neq k KEY_ENTER)) by done. destruct (Z.eqb_spec k KEY_BACKSPACE) as [->|Hback].
  { destruct (decide (l = [])) as [->|Hl]; [by exists ([] ++ junk)|].
    destruct (exists_last Hl) as (l' & b & ->). rewrite (proj2 (Z.ltb_lt 0 _)) by (rewrite len_app; change (len [b]) with 1; pose proof (len_nonneg l'); lia).
    rewrite say_then, note_note. rewrite length_app. cbn [length]. rewrite Nat.add_sub, take_app_length.
    exists ((l' ++ [b]) ++ junk). rewrite len_app. change (len [b]) with 1. replace (len l' + 1 - 1) with (len l') by lia. split; [by destruct l'|].
    exists (b :: junk). rewrite <-app_assoc in Hline |- *. done. }
  destruct (Z.eqb_spec k KEY_UNKNOWN) as [->|Hunk]; [by exists (l ++ junk)|]. rewrite Hll. unfold LINE_MAX.
  destruct (in_range 0x20 0x7E k && (len l <? 128)) eqn:Hc; [|by exists (l ++ junk)]. apply andb_true_iff in Hc as [_ Hlt%Z.ltb_lt].
  destruct junk as [|x junk]; [rewrite app_nil_r in Hll; lia|]. rewrite set_index_at. rewrite dev_bind_run. cbn [expect lift].
  assert (slice (l ++ k :: junk) (len l + 1 - 1) (len l + 1) = Some [k]) as ->.
  { replace (len l + 1 - 1) with (len l) by lia. pose proof (len_nonneg l). pose proof (len_nonneg junk).
    rewrite slice_Some by (rewrite ?len_app, ?len_cons; lia). replace (Z.to_nat (len l + 1 - len l)) with 1%nat by lia.
    f_equal. by rewrite drop_app_length' by (unfold len; lia). }
  rewrite dev_bind_run. cbn [expect lift]. rewrite say_then, note_note.
  exists (l ++ k :: junk). rewrite len_app. change (len [k]) with 1. split; [done|]. exists junk. rewrite <-app_assoc. split; [done|].
  rewrite !length_app in *. simpl in *. lia.
Qed.

(** A line, up to Enter. *)
Lemma read_line_run ks rest (fuel : nat) line l s : keys s = ks ++ KEY_ENTER :: rest → KEY_ENTER ∉ ks → buffered line l → (length ks < fuel)%nat →
  ∃ line', read_line fuel line (len l) s =
      (Ok (line', len (foldl press l ks)), note (hearings l ks ++ [Listens; Shows [10]]) (with_keys rest s)) ∧
    buffered line' (foldl press l ks).
Proof.
  revert fuel line l s. induction ks as [|k ks IH]; intros fuel line l s Hk Hne Hb Hf; (destruct fuel as [|fuel]; [simpl in Hf; lia|]).
  - exists line. cbn [foldl hearings app]. cbn [read_line]. rewrite dev_bind_run. cbn [sys_console_read Script.script]. unfold on, next_key. rewrite Hk.
    cbn [app]. change (KEY_ENTER =? KEY_NONE) with false. rewrite Z.eqb_refl. cbn iota. by rewrite say_then, note_note.
  - apply not_elem_of_cons in Hne as [Hne1 Hne]. destruct (key_run fuel line l k (ks ++ KEY_ENTER :: rest) s Hk (not_eq_sym Hne1) Hb) as (line1 & E & Hb1).
    destruct (IH fuel line1 (press l k) (note (hearing l k) (with_keys (ks ++ KEY_ENTER :: rest) s))) as (line2 & E2 & Hb2); [done|done|done|simpl in Hf; lia|].
    exists line2. rewrite E, E2. cbn [foldl hearings]. split; [|done]. f_equal. rewrite <-app_assoc, <-(note_note (hearing l k)). done.
Qed.

(** What has been asked since, with the keys left alone. *)
Definition asks (calls : list Request) (s s' : Script) : Prop := asked s' = asked s ++ calls ∧ keys s' = keys s.

Lemma asks_note calls s : asks calls s (note calls s).
Proof. done. Qed.
Lemma asks_then a b s s1 s2 : asks a s s1 → asks b s1 s2 → asks (a ++ b) s s2.
Proof. intros [Ha Hk] [Hb Hk2]. split; [by rewrite Hb, Ha, app_assoc|congruence]. Qed.

Lemma says_run {A} l (m : dev Script Stop A) s : (_ ← for_in l (λ _ t, say t) (); m) s = m (note (says l) s).
Proof.
  revert s. induction l as [|t l IH]; intros s; [by rewrite note_nil|]. cbn [for_in]. rewrite dev_bind_run, dev_bind_run, say_note.
  specialize (IH (note [Shows t] s)). rewrite dev_bind_run in IH. rewrite IH. by rewrite note_note.
Qed.

Lemma complain_run what nm err s : complain what nm err s = (Ok (), note (complaint what nm err) s).
Proof.
  unfold complain, complaint, reason. rewrite !say_then, !note_note.
  unfold say_line.
  repeat (destruct (err =? _); [by rewrite say_note, note_note|]). by rewrite say_note, note_note.
Qed.

(** [cat] of an open file. *)
Lemma cat_loop_run (fuel : nat) descriptor piece s : length piece = 64%nat → Forall (λ p, p ≠ [] ∧ (length p ≤ 64)%nat) (pieces s) →
  read_end s ≤ 0 → (length (pieces s) < fuel)%nat →
  ∃ s', cat_loop fuel descriptor piece s = (Ok (), s') ∧
    asks (concat ((λ p, [Reads descriptor 64; Shows p]) <$> pieces s) ++ [Reads descriptor 64]) s s'.
Proof.
  intros Hp Hall Hend. remember (pieces s) as l eqn:El. revert fuel piece s El Hp Hend. induction Hall as [|p l [Hne Hp64] Hall IH];
    intros fuel piece s El Hp Hend Hf; (destruct fuel as [|fuel]; [simpl in Hf; lia|]); cbn [cat_loop]; rewrite dev_bind_run;
    cbn [sys_read Script.script]; unfold on, next_piece; rewrite <-El; replace (len piece) with 64 by (unfold len; lia).
  - rewrite (proj2 (Z.leb_le _ _)) by done. eexists. split; [done|]. apply asks_note.
  - assert (0 < len p) by (unfold len; destruct p; [done|simpl; lia]). rewrite (proj2 (Z.leb_gt _ _)) by done.
    rewrite slice_prefix by (rewrite len_app; pose proof (len_nonneg (drop (length p) piece)); lia).
    rewrite take_app_length' by (unfold len; lia). rewrite dev_bind_run. cbn [expect lift]. rewrite say_then, note_note.
    edestruct (IH fuel (p ++ drop (length p) piece)) as (s' & -> & Ha); [reflexivity|rewrite length_app, length_drop; lia|done|simpl in Hf; lia|].
    exists s'. split; [done|]. cbn [fmap list_fmap concat app]. apply (asks_then [Reads descriptor 64; Shows p] _ s) in Ha; [done|]. done.
Qed.

(** The records, until one holds no name or there are no more. *)
Lemma pads_run (n k : nat) s {A} (m : dev Script Stop A) :
  (_ ← for_in (seqZ (Z.of_nat k) (Z.of_nat n)) (λ _ _, say [32]) (); m) s = m (note (says (replicate n [32])) s).
Proof.
  revert k s. induction n as [|n IH]; intros k s; [by rewrite note_nil|]. rewrite seqZ_cons by lia. cbn [for_in replicate].
  rewrite dev_bind_run, dev_bind_run, say_note. replace (Z.succ (Z.of_nat k)) with (Z.of_nat (Datatypes.S k)) by lia.
  replace (Z.pred (Z.of_nat (Datatypes.S n))) with (Z.of_nat n) by lia. specialize (IH (Datatypes.S k) (note [Shows [32]] s)).
  rewrite dev_bind_run in IH. rewrite IH. by rewrite note_note.
Qed.

Lemma entry_name_short r nm : Abi.entry_name r = Some nm → (length nm ≤ 12)%nat.
Proof.
  unfold Abi.entry_name. destruct (slice r Abi.ENTRY_NAME.1 Abi.ENTRY_NAME.2) as [f|] eqn:Ef; [|done]. cbn [mbind option_bind].
  apply slice_inv in Ef as (_ & _ & Hf & _). destruct (slice _ 0 _) as [b|] eqn:Eb; [|done]. cbn [mbind option_bind]. apply slice_inv in Eb as (_ & Hle & Hb & _).
  destruct (utf8_from [] _); [|done]. intros [= <-]. cbn in Hf. unfold len in *. lia.
Qed.

Lemma one_more_run {E} n : 0 ≤ n → n + 1 < 2 ^ 31 → one_more (E:=E) overflow_checks n = Ok (n + 1).
Proof.
  intros Hn Hl. unfold one_more. rewrite (proj2 (Z.leb_gt _ _)) by done. rewrite andb_false_r. f_equal. unfold wrap. rewrite Z.mod_small by lia. lia.
Qed.

Lemma add_in_run {E} n : 0 ≤ n → n + 1 < 2 ^ 64 → add_in (E:=E) overflow_checks 64 n 1 = Ok (n + 1).
Proof.
  intros Hn Hl. unfold add_in. rewrite (proj2 (Z.leb_gt _ _)) by done. rewrite andb_false_r. f_equal. unfold wrap. by rewrite Z.mod_small by lia.
Qed.

Lemma list_loop_run (fuel : nat) record at_ shown s : length record = 20%nat → Forall (λ r, length r = 20%nat ∧ bytes_ok r) (records s) →
  list_end s < 0 → (length (records s) < fuel)%nat → 0 ≤ at_ → 0 ≤ shown → at_ + len (records s) < 2 ^ 31 → shown + len (records s) < 2 ^ 31 →
  ∃ s', list_loop overflow_checks fuel record at_ shown s = (Ok (shown + names_listed (records s)), s') ∧ asks (listing at_ (records s)) s s'.
Proof.
  intros Hr Hall Hend. remember (records s) as l eqn:El. revert fuel record at_ shown s El Hr Hend. induction Hall as [|r l [Hr20 Hrb] Hall IH];
    intros fuel record at_ shown s El Hr Hend Hf Hat Hsh Hb1 Hb2; (destruct fuel as [|fuel]; [simpl in Hf; lia|]); cbn [list_loop]; rewrite dev_bind_run;
    cbn [sys_list Script.script]; unfold on, next_record; rewrite <-El; replace (len record) with 20 by (unfold len; lia).
  - rewrite (proj2 (Z.ltb_lt _ _)) by done. eexists. split; [by rewrite Z.add_0_r|]. apply asks_note.
  - rewrite (proj2 (Z.ltb_ge (len r) 0)) by apply len_nonneg. cbn [listing names_listed].
    destruct (Abi.entry_name r) as [nm|] eqn:En; [|eexists; split; [by rewrite Z.add_0_r|by split]].
    rewrite len_cons in *. pose proof (len_nonneg l). pose proof (entry_name_short r nm En) as Hnm.
    rewrite say_then, note_note. replace (seqZ (len nm) (MAX_NAME + 2 - len nm)) with (seqZ (Z.of_nat (length nm)) (Z.of_nat (14 - length nm))).
    2:{ f_equal. unfold MAX_NAME, len. lia. }
    rewrite pads_run, note_note. set (s1 := note _ (with_records l s)).
    assert (∀ {A} (k : dev Script Stop A), (_ ← (if Abi.entry_is_directory r then say_line "   <dir>"
        else x ← lift (decimal (default 0 (Abi.entry_size r)) (replicate 10 0)); let '(written, digits) := x in
             t ← lift (expect (slice digits 0 written)); _ ← say t; say [10]); k) s1 =
      k (note (says (if Abi.entry_is_directory r then [line_of "   <dir>"] else [decimal_fuel 10 (le_decode (drop 16 r)); [10]])) s1)) as Hline.
    { intros A k. destruct (Abi.entry_is_directory r); [done|].
      assert (Abi.entry_size r = Some (le_decode (drop 16 r))) as ->.
      { unfold Abi.entry_size. cbn [fst snd Abi.ENTRY_SIZE]. rewrite slice_Some by (unfold len; lia). cbn [mbind option_bind]. do 2 f_equal.
        apply take_ge. rewrite length_drop. simpl. lia. }
      assert (in_width 32 (le_decode (drop 16 r))) as Hw.
      { pose proof (le_decode_bound (drop 16 r) ltac:(by apply Forall_drop)) as Hd. unfold len in Hd. rewrite length_drop, Hr20 in Hd. exact Hd. }
      destruct (decimal_run (E:=Stop) _ Hw) as [Ed Hlen]. cbn [default from_option id]. rewrite dev_bind_run, dev_bind_run, Ed. cbn [lift].
      rewrite slice_prefix by (rewrite len_app; pose proof (len_nonneg (decimal_fuel 10 (le_decode (drop 16 r)))); match goal with |- context [len (drop ?n ?l)] => pose proof (len_nonneg (drop n l)) end; lia).
      rewrite take_app_length' by (unfold len; lia). rewrite dev_bind_run. cbn [expect lift]. rewrite say_then, say_note. cbn iota. by rewrite !note_note. }
    rewrite Hline. rewrite dev_bind_run, one_more_run by lia. cbn [lift]. rewrite dev_bind_run, add_in_run by lia. cbn [lift].
    edestruct (IH fuel r (at_ + 1) (shown + 1)) as (s' & -> & Ha); [reflexivity|done|done|simpl in Hf; lia|lia..|].
    exists s'. split; [by rewrite (Z.add_assoc shown)|]. unfold s1 in Ha. rewrite !note_note in Ha.
    destruct Ha as [Ha Hk]. split; [|exact Hk]. rewrite Ha, asked_note. rewrite <-app_assoc. f_equal.
    unfold entry_line, says. rewrite fmap_cons, fmap_app. cbn [app]. by rewrite <-!app_assoc.
Qed.

Lemma shown_file_run (fuel : nat) nm s : Forall (λ p, p ≠ [] ∧ (length p ≤ 64)%nat) (pieces s) →
  read_end s ≤ 0 → (length (pieces s) < fuel)%nat →
  ∃ s', (_ ← cat_loop fuel (opened s) (replicate (Z.to_nat PIECE) 0); _ ← sys_close (opened s); mret ()) (note [Opens nm] s) = (Ok (), s') ∧
    asks (Opens nm :: showing (opened s) (pieces s)) s s'.
Proof.
  intros Hp Hend Hf. destruct (cat_loop_run fuel (opened s) (replicate (Z.to_nat PIECE) 0) (note [Opens nm] s)) as (s1 & E & Ha); [done|done|done|done|].
  rewrite dev_bind_run, E. eexists. split; [done|]. unfold showing.
  apply (asks_then [Opens nm] _ s) in Ha; [|done]. apply (asks_then _ [Closes (opened s)] _ _ (note [Closes (opened s)] s1)) in Ha; [|done].
  cbn [app] in Ha. rewrite <-app_assoc in Ha. exact Ha.
Qed.

Lemma text_filled t : fill (E:=Stop) (replicate 129 0) 0 t =
  Ok (take 128 t ++ drop (length (take 128 t)) (replicate 129 0), len (take 128 t)).
Proof.
  assert (∀ t pre junk, (0 < length junk)%nat → fill (E:=Stop) (pre ++ junk) (len pre) t =
    Ok (pre ++ take (length junk - 1) t ++ drop (length (take (length junk - 1) t)) junk, len pre + len (take (length junk - 1) t))) as Hgen.
  2:{ pose proof (Hgen t [] (replicate 129 0) ltac:(simpl; lia)) as H. exact H. }
  clear t. intros t. induction t as [|b t IH]; intros pre junk Hj; cbn [fill].
  - rewrite take_nil. change (len []) with 0. by rewrite Z.add_0_r.
  - destruct junk as [|x junk]; [simpl in Hj; lia|]. destruct junk as [|y junk].
    + rewrite (proj2 (Z.eqb_eq _ _)) by (rewrite len_app; change (len [x]) with 1; lia). cbn [length Nat.sub take]. change (len []) with 0. by rewrite Z.add_0_r.
    + rewrite (proj2 (Z.eqb_neq _ _)) by (rewrite len_app, !len_cons; pose proof (len_nonneg junk); lia). rewrite set_index_at. cbn [expect mbind res_bind].
      specialize (IH (pre ++ [b]) (y :: junk) ltac:(simpl; lia)). rewrite len_app in IH. change (len [b]) with 1 in IH. rewrite <-app_assoc in IH. cbn [app] in IH.
      rewrite IH. replace (length (x :: y :: junk) - 1)%nat with (Datatypes.S (length (y :: junk) - 1)) by (simpl; lia). cbn [take length drop].
      rewrite <-app_assoc, len_cons. cbn [app]. do 2 f_equal. lia.
Qed.

Lemma cat_wanted (fuel : nat) rest s : Forall (λ p, p ≠ [] ∧ (length p ≤ 64)%nat) (pieces s) → read_end s ≤ 0 → (length (pieces s) < fuel)%nat →
  ∃ s', cat fuel rest s = (Ok (), s') ∧ asks (match as_name (words rest).1 with
    | None => says [line_of "cat: give it a name"]
    | Some nm => Opens nm :: if opened s <? 0 then complaint (text "cat") nm (opened s) else showing (opened s) (pieces s)
    end) s s'.
Proof.
  intros Hp Hend Hf.
  unfold cat. rewrite dev_bind_run, split_once_words. cbn [lift]. destruct (words rest) as [w t]. cbn [fst].
  destruct (as_name w) as [nm|]; [|by eexists; split; [|apply asks_note]].
  rewrite dev_bind_run. cbn [sys_open Script.script]. unfold on, always. destruct (opened s <? 0) eqn:Eo.
  - eexists. split; [by rewrite complain_run, note_note|]. apply asks_note.
  - destruct (shown_file_run fuel nm s) as (s' & E & Ha); try done. exists s'. split; [|exact Ha]. rewrite E. done.
Qed.

Lemma write_wanted rest s : ∃ s', write rest s = (Ok (), s') ∧ asks (let '(nm, t) := words rest in
    match as_name nm with
    | None => says [line_of "write: give it a name and some text"]
    | Some nm => Writes nm (take 128 t ++ [10]) ::
        if write_answer s <? 0 then complaint (text "write") nm (write_answer s) else says [text "wrote "; nm; [10]]
    end) s s'.
Proof.
  unfold write. rewrite dev_bind_run, split_once_words. cbn [lift]. destruct (words rest) as [w t].
  destruct (as_name w) as [nm|]; [|by eexists; split; [|apply asks_note]].
  change (replicate (Z.to_nat (LINE_MAX + 1)) 0) with (replicate 129 0). rewrite dev_bind_run, text_filled. cbn [lift].
  set (t' := take 128 t). assert (length t' ≤ 128)%nat as Hl by (unfold t'; rewrite length_take; lia).
  rewrite drop_replicate. destruct (129 - length t')%nat as [|k] eqn:Ek; [lia|]. cbn [replicate]. rewrite dev_bind_run, set_index_at. cbn [expect lift].
  assert (slice (t' ++ 10 :: replicate k 0) 0 (len t' + 1) = Some (t' ++ [10])) as ->.
  { rewrite slice_prefix by (rewrite len_app, len_cons, len_replicate; pose proof (len_nonneg t'); lia).
    rewrite (cons_middle 10 t'), app_assoc. rewrite take_app_length'; [done|]. rewrite length_app. unfold len. simpl. lia. }
  rewrite dev_bind_run. cbn [expect lift]. rewrite dev_bind_run. cbn [sys_write_file Script.script]. unfold on, always.
  destruct (write_answer s <? 0); (eexists; split; [|apply asks_note]).
  - by rewrite complain_run, note_note.
  - by rewrite !say_then, say_note, !note_note.
Qed.

(** What the script's answers are. *)
Record fair_answers (fuel : nat) (s : Script) : Prop := {
  fa_pieces : Forall (λ p, p ≠ [] ∧ (length p ≤ 64)%nat) (pieces s);
  fa_end : read_end s ≤ 0;
  fa_records : Forall (λ r, length r = 20%nat ∧ bytes_ok r) (records s);
  fa_list_end : list_end s < 0;
  fa_count : len (records s) < 2 ^ 31;
  fa_fuel : (length (pieces s) < fuel ∧ length (records s) < fuel)%nat
}.

Definition leaves (line : list Z) : bool := bool_decide ((words line).1 = text "exit").

Lemma run_wanted (fuel : nat) line s : fair_answers fuel s →
  ∃ s', run overflow_checks fuel line s = ((if leaves line then Err (Exited 0) else Ok ()), s') ∧ asks (wanted line s) s s'.
Proof.
  intros [Hp Hend Hrec Hlend Hcnt [Hf1 Hf2]]. unfold run. rewrite dev_bind_run, trimmed_strip. cbn [lift].
  rewrite dev_bind_run, split_once_words, words_strip. cbn [lift]. unfold leaves, wanted. destruct (words line) as [command rest]. cbn [fst].
  destruct (decide (command = [])) as [->|]; [by exists s; split; [|split; [by rewrite app_nil_r|]]|].
  destruct (decide (command = text "help")) as [->|].
  { eexists. split; [|apply asks_note]. unfold help, say_line. rewrite !say_then, say_note, !note_note. done. }
  destruct (decide (command = text "ls")) as [->|].
  { destruct (list_loop_run fuel (replicate (Z.to_nat Abi.ENTRY_BYTES) 0) 0 0 s) as (s1 & E & Ha); [done|done|done|done|lia|lia|lia|lia|].
    unfold list_files. rewrite dev_bind_run, E. rewrite Z.add_0_l. destruct (names_listed (records s) =? 0).
    - eexists. split; [done|]. eapply asks_then; [exact Ha|]. apply asks_note.
    - exists s1. split; [done|]. by rewrite app_nil_r. }
  destruct (decide (command = text "cat")) as [->|].
  { destruct (cat_wanted fuel rest s) as (s' & E & Ha); [done..|]. by exists s'. }
  destruct (decide (command = text "write")) as [->|].
  { destruct (write_wanted rest s) as (s' & E & Ha). by exists s'. }
  destruct (decide (command = text "echo")) as [->|]; [by eexists; split; [|apply asks_note]; rewrite say_then, say_note, note_note|].
  destruct (decide (command = text "exit")) as [->|].
  { eexists. split; [|apply asks_note]. unfold say_line. rewrite say_then, dev_bind_run. cbn [sys_log sys_exit Script.script]. unfold on, always. by rewrite !note_note. }
  eexists. split; [|apply asks_note]. rewrite !say_then, say_note, !note_note. by rewrite bool_decide_false.
Qed.

(** C38: What the shell does with a line, for every line that can be typed and
    every kernel's answers.  In one turn it shows the prompt, listens until
    Enter, showing each character as it joins the line and taking back what
    Backspace takes back, and giving the CPU away where no key waits; then it
    asks for exactly what the line's words say ([wanted]), in that order and
    nothing else: [cat] opens the name, shows every piece that is read, as it
    was read and no more of the buffer, and closes; [write] has the text and a
    newline written under the name, once; [ls] shows the name and size of
    each record up to the first that is none; a refusal is shown with its
    reason; [exit] says so and leaves.  In either build nothing panics. *)
Theorem shell_turn_exact (fuel : nat) ks rest line s :
  keys s = ks ++ KEY_ENTER :: rest → KEY_ENTER ∉ ks → length line = 128%nat → (length ks < fuel)%nat → fair_answers fuel s →
  ∃ r s', turn overflow_checks fuel line s = (r, s') ∧ keys s' = rest ∧
    asked s' = asked s ++ Shows PROMPT :: hearings [] ks ++ [Listens; Shows [10]] ++ wanted (edited ks) s ∧
    if leaves (edited ks) then r = Err (Exited 0) else ∃ line', r = Ok line' ∧ length line' = 128%nat.
Proof.
  intros Hk Hne Hline Hf Hfair. unfold turn. rewrite say_then.
  destruct (read_line_run ks rest fuel line [] (note [Shows PROMPT] s) Hk Hne) as (line' & E & junk & -> & Hl'); [by exists line|done|].
  change (len []) with 0 in E. rewrite dev_bind_run, E. fold (edited ks) in E, Hl' |- *. clear E.
  rewrite slice_prefix by (rewrite len_app; pose proof (len_nonneg (edited ks)); pose proof (len_nonneg junk); lia).
  rewrite take_app_length' by (unfold len; lia). rewrite dev_bind_run. cbn [expect lift].
  set (s1 := note _ _). destruct (run_wanted fuel (edited ks) s1) as (s' & E & Ha & Hkeys); [by destruct Hfair; split|].
  rewrite dev_bind_run, E. destruct (leaves (edited ks)); eexists _, s'; (split; [reflexivity|]); (split; [exact Hkeys|]); (split; [|by eauto]).
  all: rewrite Ha; unfold s1; rewrite asked_note; change (asked (with_keys rest ?x)) with (asked x); rewrite asked_note, <-!app_assoc; done.
Qed.
End scripted.

(** A file's record, as the kernel makes it, is names_listed under the file's name
    with its size. *)
Lemma kernel_record x : no_space x.1 → utf8_from [] x.1 = true → (length x.1 ≤ 12)%nat → len x.2 < 2 ^ 32 →
  ∃ r, encode_entry (entry_for x) = Ok r ∧ Abi.entry_name r = Some x.1 ∧
    entry_line x.1 r = x.1 :: replicate (14 - length x.1) [32] ++ [decimal_fuel 10 (len x.2); [10]].
Proof.
  intros Hns Hu Hl Hs. destruct (record_read x [] Hns Hu Hl Hs) as (r & E & Hr & Hn & Hsize & Hdir). rewrite app_nil_r in *.
  exists r. split; [done|]. split; [done|]. unfold entry_line. rewrite Hdir.
  unfold Abi.entry_size in Hsize. cbn [fst snd Abi.ENTRY_SIZE] in Hsize. rewrite slice_Some in Hsize by (unfold len; lia).
  cbn [mbind option_bind] in Hsize. injection Hsize as Hsize. rewrite take_ge in Hsize by (rewrite length_drop; simpl; lia).
  change (Z.to_nat 16) with 16%nat in Hsize. by rewrite Hsize.
Qed.

(** ** Whatever the kernel answers *)
(** No call panics; a buffer comes back as long as it was and made of bytes,
    and no read answers more than the buffer holds. *)
Definition calm {S A} (Q : A → Prop) (m : dev S Stop A) : Prop :=
  ∀ s, match (m s).1 with Ok a => Q a | Panic => False | _ => True end.

Class Ring3Laws (K : Type) `{!Ring3 K} := {
  log_calm t : calm (S:=K) (λ _, True) (sys_log t);
  exit_calm code : calm (S:=K) (λ _, True) (sys_exit code);
  yield_calm : calm (S:=K) (λ _, True) sys_yield_now;
  open_calm nm : calm (S:=K) (λ _, True) (sys_open nm);
  read_calm descriptor into : bytes_ok into → calm (S:=K) (λ x, x.1 ≤ len into ∧ length x.2 = length into ∧ bytes_ok x.2) (sys_read descriptor into);
  close_calm descriptor : calm (S:=K) (λ _, True) (sys_close descriptor);
  write_file_calm nm t : calm (S:=K) (λ _, True) (sys_write_file nm t);
  list_calm at_ into : bytes_ok into → calm (S:=K) (λ x, length x.2 = length into ∧ bytes_ok x.2) (sys_list at_ into);
  console_write_calm t : calm (S:=K) (λ _, True) (sys_console_write t);
  console_read_calm : calm (S:=K) (λ _, True) sys_console_read
}.

Section calm.
Import Shell.

Lemma calm_ret {S A} (Q : A → Prop) a : Q a → calm (S:=S) Q (mret a).
Proof. by intros HQ s. Qed.

Lemma calm_bind {S A B} (P : A → Prop) (Q : B → Prop) (m : dev S Stop A) (f : A → dev S Stop B) :
  calm P m → (∀ a, P a → calm Q (f a)) → calm Q (m ≫= f).
Proof.
  intros Hm Hf s. specialize (Hm s). rewrite dev_bind_run. destruct (m s) as [[a|e| |] s']; [|done..]. by apply Hf.
Qed.

Lemma calm_lift {S A} (Q : A → Prop) (r : res Stop A) a : r = Ok a → Q a → calm (S:=S) Q (lift r).
Proof. by intros -> HQ s. Qed.

Lemma calm_diverge {S A} (Q : A → Prop) : calm (S:=S) Q (λ s, (Diverge, s)).
Proof. by intros s. Qed.

Lemma calm_for_in {S A B} (P : B → Prop) (l : list A) (f : B → A → dev S Stop B) b :
  (∀ b a, P b → calm P (f b a)) → P b → calm P (for_in l f b).
Proof.
  intros Hf. revert b. induction l as [|a l IH]; intros b Hb; cbn [for_in]; [by apply calm_ret|].
  by apply (calm_bind P); [apply Hf|].
Qed.

Lemma set_index_total (l : list Z) i b : 0 ≤ i < len l → ∃ l' : list Z, set_index l i b = Some l' ∧ length l' = length l.
Proof.
  intros Hi. unfold set_index. rewrite (proj2 (Z.leb_le 0 i)), (proj2 (Z.ltb_lt i _)) by lia. eexists. split; [done|]. apply length_insert.
Qed.

Lemma fill_total t (contents : list Z) n : 0 ≤ n < len contents →
  ∃ contents' n', fill (E:=Stop) contents n t = Ok (contents', n') ∧ length contents' = length contents ∧ 0 ≤ n' < len contents.
Proof.
  revert contents n. induction t as [|b t IH]; intros contents n Hn; cbn [fill]; [by exists contents, n|].
  destruct (Z.eqb_spec n (len contents - 1)); [by exists contents, n|].
  destruct (set_index_total contents n b Hn) as (c1 & -> & Hc1). cbn [expect mbind res_bind].
  destruct (IH c1 (n + 1)) as (c2 & n2 & -> & Hc2 & Hn2); [unfold len in *; lia|]. exists c2, n2. unfold len in *. rewrite <-Hc1. auto.
Qed.

Section any.
Context {K : Type} `{Ring3Laws K} (overflow_checks : bool).

Lemma say_calm t : calm (S:=K) (λ _, True) (say t).
Proof. apply (calm_bind (λ _, True)); [apply console_write_calm|]. intros. by apply calm_ret. Qed.

Ltac calm_say := apply (calm_bind (λ _, True)); [apply say_calm | intros _ _].

Lemma complain_calm what nm err : calm (S:=K) (λ _, True) (complain what nm err).
Proof. unfold complain. do 4 calm_say. repeat (destruct (_ =? _); [apply say_calm|]). apply say_calm. Qed.

Lemma read_line_calm (fuel : nat) line n : length line = 128%nat → 0 ≤ n ≤ 128 →
  calm (S:=K) (λ x, length x.1 = 128%nat ∧ 0 ≤ x.2 ≤ 128) (read_line fuel line n).
Proof.
  revert line n. induction fuel as [|fuel IH]; intros line n Hl Hn; [apply calm_diverge|]. cbn [read_line].
  apply (calm_bind (λ _, True)); [apply console_read_calm|]. intros key _.
  destruct (_ =? _); [apply (calm_bind (λ _, True)); [apply yield_calm|]; intros; by apply IH|].
  destruct (_ =? _); [calm_say; by apply calm_ret|].
  destruct (_ =? _); [destruct (Z.ltb_spec 0 n); [calm_say|]; apply IH; try done; lia|].
  destruct (_ =? _); [by apply IH|]. destruct (in_range _ _ _); cbn [andb]; [|by apply IH].
  destruct (Z.ltb_spec n (len line)); [|by apply IH].
  destruct (set_index_total line n key ltac:(lia)) as (line1 & E1 & Hl1). unfold len in *.
  apply (calm_bind (λ l, l = line1)); [by eapply calm_lift; [rewrite E1|]|]. intros ? ->.
  apply (calm_bind (λ _, True)); [eapply calm_lift; [rewrite slice_Some; [done|unfold len; lia..]|done]|]. intros.
  calm_say. apply IH; lia.
Qed.

Lemma one_more_calm (n m : Z) : (overflow_checks = true → 0 ≤ n ∧ n + m < 2 ^ 31) → 0 < m →
  calm (S:=K) (λ n', overflow_checks = true → 0 ≤ n' ∧ n' + (m - 1) < 2 ^ 31) (lift (one_more overflow_checks n)).
Proof.
  intros Hn Hm. unfold one_more. destruct overflow_checks; cbn [andb].
  - destruct Hn; [done|]. rewrite (proj2 (Z.leb_gt _ _)) by lia. eapply calm_lift; [done|]. intros _. unfold wrap. rewrite Z.mod_small by lia. lia.
  - eapply calm_lift; [done|]. done.
Qed.

Lemma add_in_calm (n m : Z) : (overflow_checks = true → 0 ≤ n ∧ n + m < 2 ^ 31) → 0 < m →
  calm (S:=K) (λ n', overflow_checks = true → 0 ≤ n' ∧ n' + (m - 1) < 2 ^ 31) (lift (add_in overflow_checks 64 n 1)).
Proof.
  intros Hn Hm. unfold add_in. destruct overflow_checks; cbn [andb].
  - destruct Hn; [done|]. rewrite (proj2 (Z.leb_gt _ _)) by lia. eapply calm_lift; [done|]. intros _. unfold wrap. rewrite Z.mod_small by lia. lia.
  - eapply calm_lift; [done|]. done.
Qed.

Lemma list_loop_calm (fuel : nat) record at_ shown : length record = 20%nat → bytes_ok record →
  (overflow_checks = true → 0 ≤ at_ ∧ at_ + Z.of_nat fuel < 2 ^ 31) → (overflow_checks = true → 0 ≤ shown ∧ shown + Z.of_nat fuel < 2 ^ 31) →
  calm (S:=K) (λ _, True) (list_loop overflow_checks fuel record at_ shown).
Proof.
  revert record at_ shown. induction fuel as [|fuel IH]; intros record at_ shown Hl Hb Hat Hsh; [apply calm_diverge|]. cbn [list_loop].
  apply (calm_bind _ _ _ _ (list_calm at_ record Hb)). intros [got r] [Hr Hrb]. cbn [snd] in *.
  destruct (_ <? _); [by apply calm_ret|]. destruct (Abi.entry_name r) as [nm|]; [|by apply calm_ret]. calm_say.
  apply (calm_bind (λ _, True)); [apply calm_for_in; [|done]; intros; apply say_calm|]. intros _ _.
  apply (calm_bind (λ _, True)).
  2:{ intros _ _. replace (Z.of_nat (Datatypes.S fuel)) with (Z.of_nat fuel + 1) in * by lia.
      apply (calm_bind _ _ _ _ (one_more_calm shown (Z.of_nat fuel + 1) Hsh ltac:(lia))). intros shown' Hs'.
      apply (calm_bind _ _ _ _ (add_in_calm at_ (Z.of_nat fuel + 1) Hat ltac:(lia))). intros at' Ha'.
      rewrite Z.add_simpl_r in Hs', Ha'. apply IH; [lia|done..]. }
  destruct (Abi.entry_is_directory r); [apply say_calm|].
  assert (in_width 32 (default 0 (Abi.entry_size r))) as Hw.
  { unfold Abi.entry_size. cbn [fst snd Abi.ENTRY_SIZE]. rewrite slice_Some by (unfold len; lia). cbn [mbind option_bind default].
    set (f := take _ _). assert (len f = 4) as Hf by (unfold f, len; rewrite length_take, length_drop; lia).
    assert (bytes_ok f) as Hfb by (by apply Forall_take, Forall_drop).
    pose proof (le_decode_bound f Hfb) as Hd. rewrite Hf in Hd. exact Hd. }
  destruct (decimal_run (E:=Stop) _ Hw) as [Ed Hlen].
  apply (calm_bind (λ x, x = (len (decimal_fuel 10 (default 0 (Abi.entry_size r))), decimal_fuel 10 (default 0 (Abi.entry_size r)) ++ drop (length (decimal_fuel 10 (default 0 (Abi.entry_size r)))) (replicate 10 0)))).
  { eapply calm_lift; [exact Ed|done]. }
  intros ? ->. apply (calm_bind (λ _, True)).
  { eapply calm_lift; [rewrite slice_prefix; [done|]|done]. rewrite len_app. unfold len. lia. }
  intros. calm_say. apply say_calm.
Qed.

Lemma cat_loop_calm (fuel : nat) descriptor piece : bytes_ok piece → calm (S:=K) (λ _, True) (cat_loop fuel descriptor piece).
Proof.
  revert piece. induction fuel as [|fuel IH]; intros piece Hb; [apply calm_diverge|]. cbn [cat_loop].
  apply (calm_bind _ _ _ _ (read_calm descriptor piece Hb)). intros [got p] (Hg & Hp & Hpb). cbn [fst snd] in *.
  destruct (Z.leb_spec got 0); [by apply calm_ret|].
  apply (calm_bind (λ _, True)); [eapply calm_lift; [rewrite slice_prefix; [done|unfold len in *; lia]|done]|].
  intros. calm_say. by apply IH.
Qed.

Lemma run_calm (fuel : nat) line : (overflow_checks = true → Z.of_nat fuel < 2 ^ 31) → calm (S:=K) (λ _, True) (run overflow_checks fuel line).
Proof.
  intros Hfuel. unfold run. apply (calm_bind (λ x, True)); [by eapply calm_lift; [apply trimmed_strip|]|]. clear line. intros line _.
  apply (calm_bind (λ x, True)); [by eapply calm_lift; [apply split_once_words|]|]. intros [command rest] _.
  destruct (decide _); [by apply calm_ret|].
  destruct (decide _); [unfold help; do 5 calm_say; apply say_calm|].
  destruct (decide _).
  { apply (calm_bind (λ _, True)); [apply list_loop_calm; [done|apply Forall_replicate; lia|intros Ho; specialize (Hfuel Ho); lia..]|]. intros. destruct (_ =? _); [apply say_calm|by apply calm_ret]. }
  destruct (decide _).
  { apply (calm_bind (λ _, True)); [by eapply calm_lift; [apply split_once_words|]|]. intros x _. destruct (as_name x.1) as [nm|]; [|apply say_calm].
    apply (calm_bind (λ _, True)); [apply open_calm|]. intros descriptor _. destruct (_ <? _); [apply complain_calm|].
    apply (calm_bind (λ _, True)); [apply cat_loop_calm, Forall_replicate; lia|]. intros _ _.
    apply (calm_bind (λ _, True)); [apply close_calm|]. intros. by apply calm_ret. }
  destruct (decide _).
  { apply (calm_bind (λ _, True)); [by eapply calm_lift; [apply split_once_words|]|]. intros [w t] _. destruct (as_name w) as [nm|]; [|apply say_calm].
    destruct (fill_total t (replicate (Z.to_nat (LINE_MAX + 1)) 0) 0 ltac:(done)) as (c & k & Ef & Hc & Hk).
    apply (calm_bind (λ x, x = (c, k))); [by eapply calm_lift|]. intros ? ->.
    assert (len c = 129) as Hc' by (unfold len; rewrite Hc; done). change (len (replicate _ 0)) with 129 in Hk.
    destruct (set_index_total c k 10 ltac:(lia)) as (c' & Es & Hc2).
    apply (calm_bind (λ x, x = c')); [by eapply calm_lift; [rewrite Es|]|]. intros ? ->.
    apply (calm_bind (λ _, True)); [eapply calm_lift; [rewrite slice_prefix; [done|unfold len in *; lia]|done]|]. intros.
    apply (calm_bind (λ _, True)); [apply write_file_calm|]. intros written _. destruct (_ <? _); [apply complain_calm|].
    do 2 calm_say. apply say_calm. }
  destruct (decide _); [calm_say; apply say_calm|].
  destruct (decide _).
  { calm_say. apply (calm_bind (λ _, True)); [apply log_calm|]. intros. apply exit_calm. }
  do 2 calm_say. apply say_calm.
Qed.

(** C39: Nothing a kernel answers makes the shell panic: over any kernel that
    gives a buffer back as long as it was and never counts more bytes read
    than it holds, for any keys, any file contents and sizes, any errors in
    any order, and any number of turns, no index, slice or digit is out of
    range.  In a build that checks for overflow this is about loops of fewer
    than 2^31 rounds: [ls] counts what it shows in an [i32]. *)
Theorem shell_never_panics (fuel turns : nat) (s : K) : (overflow_checks = true → Z.of_nat fuel < 2 ^ 31) →
  (start overflow_checks fuel turns s).1 ≠ Panic.
Proof.
  intros Hfuel.
  assert (calm (S:=K) (λ line, length line = 128%nat) (start overflow_checks fuel turns)) as Ht.
  { unfold start. do 2 calm_say. do 2 (apply (calm_bind (λ _, True)); [apply log_calm|]; intros _ _).
    apply calm_for_in; [|done]. intros line _ Hl. unfold turn. calm_say.
    apply (calm_bind _ _ _ _ (read_line_calm fuel line 0 Hl ltac:(lia))). intros [l k] [Hll Hk]. cbn [fst snd] in *.
    apply (calm_bind (λ _, True)); [eapply calm_lift; [rewrite slice_prefix; [done|unfold len; lia]|done]|]. intros typed _.
    apply (calm_bind (λ _, True)); [by apply run_calm|]. intros. by apply calm_ret. }
  intros Hp. specialize (Ht s). by rewrite Hp in Ht.
Qed.
End any.
End calm.

(** A kernel that answers anything: the numbers of a list, one for each call,
    and buffers filled with them. *)
Section contrary.
Definition next : dev (list Z) Stop Z := λ l, match l with [] => (Ok (-1), []) | n :: l => (Ok n, l) end.
Definition filled (n : Z) (into : list Z) : list Z := (λ _, n mod 256) <$> into.

#[local] Instance contrary : Ring3 (list Z) := {
  sys_log _ := next;
  sys_exit code := lift (Err (Exited code));
  sys_yield_now := _ ← next; mret ();
  sys_open _ := next;
  sys_read _ into := n ← next; mret (Z.min n (len into), filled n into);
  sys_close _ := next;
  sys_write_file _ _ := next;
  sys_list _ into := n ← next; mret (n, filled n into);
  sys_console_write _ := next;
  sys_console_read := next
}.

Lemma next_calm : calm (λ _, True) next.
Proof. by intros [|n l]. Qed.

Lemma filled_ok n into : length (filled n into) = length into ∧ bytes_ok (filled n into).
Proof. split; [apply length_fmap|]. apply Forall_fmap, Forall_true. intros b. apply Z.mod_pos_bound. lia. Qed.

#[local] Instance contrary_laws : Ring3Laws (list Z).
Proof.
  split; intros; try apply next_calm; [done|..]; cbn [sys_yield_now sys_read sys_list contrary]; apply (calm_bind (λ _, True) _ _ _ next_calm); intros n _; apply calm_ret; [done|..]; cbn [fst snd]; pose proof (filled_ok n into); naive_solver lia.
Qed.

Lemma shell_never_panics_witness :
  let keys := flat_map (λ c, [c; 5]) (text "ls" ++ [1]) in
  (Shell.start true 100 2 ([0; 0; 0; 0; 0] ++ keys ++ [65; 0; 0; 0; 0; 0; 0; 0; 0; 0; 0; 0; 0; 0; 0; 0; -9])).1 ≠ Panic.
Proof. intros keys. apply shell_never_panics. intros _. vm_compute. reflexivity. Defined.
End contrary.


(** ** Examples *)
Definition answering (ks : list Z) (ps : list (list Z)) (rs : list (list Z)) : Script :=
  {| keys := ks; opened := 0; pieces := ps; read_end := 0; write_answer := ERR_VOLUME_FULL; records := rs; list_end := ERR_NO_SUCH_FILE; asked := [] |}.

(** A name corrected as it is typed, a key that means nothing, and one that
    was not there yet. *)
Lemma shell_turn_exact_witness :
  let ks := text "cat note.txf" ++ [KEY_BACKSPACE; KEY_NONE; KEY_UNKNOWN] ++ text "t" in
  ∃ s', (∃ line', Shell.turn true 200 (replicate 128 0) (answering (ks ++ [KEY_ENTER]) [text "to be"; text " or not"] []) = (Ok line', s')) ∧
    asked s' = Shows Shell.PROMPT :: hearings [] ks ++ [Listens; Shows [10]] ++
      [Opens (text "note.txt"); Reads 0 64; Shows (text "to be"); Reads 0 64; Shows (text " or not"); Reads 0 64; Closes 0].
Proof.
  intros ks. destruct (shell_turn_exact true 200 ks [] (replicate 128 0) (answering (ks ++ [KEY_ENTER]) [text "to be"; text " or not"] []))
    as (r & s' & E & _ & Ha & Hr).
  - reflexivity.
  - refine (bool_decide_unpack _ _). vm_compute. exact I.
  - reflexivity.
  - vm_compute. lia.
  - split; try (refine (bool_decide_unpack _ _); vm_compute; exact I); vm_compute; try reflexivity; try lia; discriminate.
  - assert (leaves (edited ks) = false) as Hl by (vm_compute; reflexivity). rewrite Hl in Hr. destruct Hr as (line' & -> & _).
    exists s'. split; [exists line'; exact E|]. rewrite Ha. vm_compute. reflexivity.
Defined.

(** What is on the screen after a refused [write] and an [ls]. *)
Definition displayed (calls : list Request) : list Z := concat ((λ c, match c with Shows t => t | _ => [] end) <$> calls).
Example a_session :
  let keys := text " write  a.txt one  two " ++ [KEY_ENTER] ++ text "ls" ++ [KEY_ENTER] in
  let records := omap (λ x, match encode_entry (entry_for x) with Ok r => Some r | _ => None end) [(text "HELLO.TXT", text "hi" ++ [10]); (text "B", [])] in
  let s := (Shell.start true 100 2 (answering keys [] records)).2 in
  displayed (asked s) = text "HARLAN OS shell, in ring 3." ++ [10] ++ text "Type `help` for what it knows." ++ [10] ++
    text "harlan$  write  a.txt one  two " ++ [10] ++ text "write: a.txt: the disk is full" ++ [10] ++
    text "harlan$ ls" ++ [10] ++ text "HELLO.TXT     3" ++ [10] ++ text "B             0" ++ [10] ∧
  Writes (text "a.txt") (text "one  two" ++ [10]) ∈ asked s.
Proof. split; [vm_compute; reflexivity|]. refine (bool_decide_unpack _ _). vm_compute. exact I. Qed.

(** [cat] shows a file 64 bytes at a time, and the console refuses bytes that
    are no UTF-8 ([call_console_write]): of a file that is, but has a
    character across the end of a piece, both pieces are refused, and nothing
    is said. *)
Definition accented : list Z := replicate 63 97 ++ [0xC3; 0xA9] ++ text "b" ++ [10].
Example cat_loses_text :
  utf8_from [] accented = true ∧
  asked (Shell.cat 10 (text "A.TXT") (answering [] [take 64 accented; drop 64 accented] [])).2 =
    [Opens (text "A.TXT"); Reads 0 64; Shows (take 64 accented); Reads 0 64; Shows (drop 64 accented); Reads 0 64; Closes 0] ∧
  utf8_from [] (take 64 accented) = false ∧ utf8_from [] (drop 64 accented) = false.
Proof. vm_compute. done. Qed.
